(* ===== verification/_CoqProject ===== *)
-Q . S2P
Prelude.v
FreeList.v
FreeListOps.v
FreeListThms.v
FreeListProps.v
Arith.v
SlotMap.v
SlotMapProps.v
WorkerConfigBuffer.v
WorkerConfigBufferProps.v
CoreCoord.v
CoreCoordProps.v
WorkSplit.v
WorkSplitProps.v
BlockFloat.v
BlockFloatProps.v
BlockFloatRoundTrip.v
CommandQueue.v
CommandQueueProps.v
CommandQueueThms.v
Prefetcher.v
CommandStream.v
CommandStreamHost.v
CommandStreamDevice.v
CommandStreamInv.v
CommandStreamProps.v
CompletionQueue.v
CompletionRead.v
CompletionStream.v
CompletionHost.v
CompletionInv.v
CompletionSteps.v
CompletionProps.v
AllocatorAlgorithm.v
FreeListAlgorithm.v
BankManager.v
Allocator.v
AllocatorOps.v
DeviceAllocator.v
BankManagerProps.v
AllocatorL1.v
AllocatorInit.v
AllocatorTables.v
AllocatorProps.v
AllocatorBanks.v
Buffer.v
BufferStore.v
BufferShards.v
BufferBijection.v
BufferIO.v
BufferMemory.v
BufferInterleaved.v
BufferSharded.v
BufferPlaces.v
BufferLive.v
BufferStored.v
ByteMemory.v
BufferProps.v
BufferOwnership.v
BufferLifetime.v
DeviceCommand.v
DeviceExecution.v
DeviceCommandSpec.v
DeviceCommandOps.v
EnqueueSend.v
EnqueueCommands.v
EnqueueSpec.v
EnqueueStream.v
EnqueueWrite.v
EnqueueShards.v
EnqueueWriteSpec.v
EnqueueShardsSpec.v
HwCommandQueue.v
HwCommandQueueSpec.v
HwCommandQueueProps.v
EnqueueStale.v
