(* ===== verification/Prelude.v ===== *)
(** * A verified model of core components of tt-metal

    tt-metal is the runtime of Tenstorrent accelerators: a host library
    (tt_metal, ttnn) allocates device memory, places work on a grid of cores,
    encodes tensors and sends commands through queues in host memory, which
    kernels on dispatch cores fetch and execute.  This development models the
    parts of the host library and of the dispatch kernels that carry that logic
    and proves them correct.  Paths are relative to src/tt_metal unless they
    start with ttnn.

    ** Conventions

    A C++ integer is a [Z]; every operation that can wrap is written with its
    reduction ([u32], [u64], [to_i32], ...).  A function that can throw, assert
    or run into undefined behaviour returns an [outcome]; one that also changes
    state is in the monad [ST], which keeps the state reached when an exception
    leaves.  Functions keep their names in the source; where a name belongs to
    Rocq or is used twice it has a suffix or is qualified by its file.  The
    model is that of the debug build, in which assertions are compiled in.
    Loops that are not structural recurse on fuel; each has a lemma or theorem
    that its fuel is enough.  [FUEL] is a result only where the loop of the source
    does not end either, as for the large pages of [HwCommandQueueProps], for
    which it is proved of every fuel.

    ** Parts, and the files that model them

    - Host command queue and dispatch layout (impl/dispatch/
      command_queue_interface.hpp): [CommandQueue] has the layout of a dispatch
      core in L1, the regions of a queue in host memory and every operation of
      [SystemMemoryManager], with what it writes elsewhere as a list of effects.
      [CommandQueueProps] (copying), [CommandQueueThms] (layout, constructor):
      [memcpy_to_device] copies exactly its bytes; the
      regions of a dispatch core are disjoint and in L1; the constructor
      succeeds exactly when the issue region is large enough.
    - Prefetcher (impl/dispatch/kernels/cq_prefetch.cpp, impl/device/device.cpp):
      [Prefetcher] is the routine that takes entries from the prefetch queue
      and reads commands from host memory, with reads in flight until a barrier.
    - Command stream: [CommandStream] runs a host and a prefetcher as a
      transition system, every interleaving of their operations being a run.
      [CommandStreamHost] (ring arithmetic, the host's side),
      [CommandStreamDevice] (the device's side), [CommandStreamInv] (the
      invariant, its preservation, and that it holds initially),
      [CommandStreamProps]: the bytes processed are a prefix of those sent, no
      operation fails, and from every reachable state all can be delivered.
    - Device commands (impl/dispatch/cq_commands.hpp, device_command.hpp):
      [DeviceCommand] has the packed structures by the offsets of their members
      and the operations that append commands to a region.
      [DeviceCommandSpec] says what an operation appends ([emits]).
    - Execution of commands (impl/dispatch/kernels/cq_prefetch.cpp,
      cq_dispatch.cpp, cq_dispatch_slave.cpp, hw/inc/dataflow_api.h):
      [DeviceExecution] reads a command as the action it asks for, computes the
      addresses of pages, turns a command and its data into effects (writes,
      waits, go signals), and composes them: [execute] runs over the bytes of a
      fetch.  [DeviceCommandOps] shows for each operation of [DeviceCommand] that
      what it appends is executed with the effect it stands for.
    - Enqueued commands (impl/dispatch/command_queue.cpp): [EnqueueCommands] has
      the [process] functions, [EnqueueWrite] the loop that writes a buffer in
      pieces, [EnqueueShards] the loops over the cores of a sharded buffer,
      [EnqueueSend] the reservation, assembly and push of a sequence,
      [HwCommandQueue] the enqueue functions.  [EnqueueSpec],
      [EnqueueWriteSpec] and [EnqueueShardsSpec] specify them; [EnqueueStream] is a class of host
      programs, proved against the command stream, that [HwCommandQueueSpec]
      instantiates.  [HwCommandQueueProps]: on a device as constructed, what is
      enqueued is executed in order, once, with exactly its effects; all can be
      finished; an idle host is never stuck; single commands, and pages that are
      never written.  [EnqueueStale]: a sequence after which the prefetcher
      executes what the region held.  Of a trace only the go signals, the waits
      and the start of its exec buffer are effects; the commands recorded in the
      exec buffer are not run.
    - Completion queue, the other direction (impl/dispatch/kernels/
      cq_dispatch.cpp, impl/dispatch/command_queue.cpp): [CompletionQueue] has
      the dispatcher's reserve, write and push and the host's
      [copy_into_user_space] and event reader.  [CompletionRead]: a round for
      every kind of read.
    - Completion stream: [CompletionStream] runs a dispatcher and the host's
      reader as a transition system.  [CompletionHost] (pages, pointers and
      toggles, the host's operations), [CompletionInv] (the invariant),
      [CompletionSteps] (its preservation), [CompletionProps] (progress and
      termination): the user gets exactly what was answered, no operation fails,
      every run ends with all requests finished; a read that goes wrong.
    - Free-list allocator (impl/allocator/algorithms/free_list.cpp, .hpp):
      [FreeList] (code), [FreeListOps] (the rows of blocks a state stands for),
      [FreeListThms] (specification of each operation on rows), [FreeListProps]: every reachable state partitions the
      memory, operations meet their specifications, statistics are exact.
    - Bank managers and the device allocator (impl/allocator/allocator.cpp,
      l1_banking_allocator.cpp, basic_allocator.cpp, impl/device/device.cpp):
      [AllocatorAlgorithm] is the base class of allocation algorithms as a type
      class, with its contract on the map of live blocks, and
      [FreeListAlgorithm] shows that the free list meets it.  [BankManager],
      [Allocator] (configuration, state, constructors), [AllocatorOps] and
      [DeviceAllocator] (operations) are the code.  [BankManagerProps] verifies
      a bank manager against the contract; [AllocatorL1] and [AllocatorInit]
      the constructors; [AllocatorTables] has an abstract machine that every
      operation refines, and the states reachable.  [AllocatorProps] and [AllocatorBanks]: the refinement, live
      buffers never overlap, what a failed allocation leaves behind, the tables
      between banks and cores are consistent, and banks of a storage core are
      disjoint.  What [std::shuffle] with a default engine computes, and the
      order in which an unordered set is visited, are parameters.
    - Buffers (impl/buffers/buffer.hpp, buffer.cpp, tt_metal.cpp,
      impl/dispatch/command_queue.cpp, impl/device/device.cpp): [Buffer] has the
      data, the page mapping and the addresses of a buffer, [BufferIO] the
      reading and writing of buffers page by page (slow dispatch), [BufferStore]
      the objects and their lifetimes with BUFFER_MAP.  [BufferShards] and
      [BufferBijection] verify the page mapping.  [BufferMemory] states what the driver's memory promises, a type
      class that [ByteMemory] instantiates; [BufferInterleaved]
      and [BufferSharded] run the loops over pages against it.  [BufferPlaces],
      [BufferLive] and [BufferStored] follow the pages of live buffers through the allocator's
      tables to the chip.  [BufferProps]: the page mapping is a bijection, what
      is written is read back, and writing a buffer leaves the others alone.
      [BufferOwnership], [BufferLifetime]: no two objects own a block, and
      deallocating one frees its block only.  The soc descriptor (NoC
      coordinates of cores and channels) is a parameter, with the laws
      [soc_ok]; buffers are below 2 GB in the theorems on reading and writing,
      since the loops count in [int].
    - Division on the device (hw/inc/mod_div_lib.h) and rounding helpers
      (common/math.hpp, common/tt_rounding.h and their kin): [Arith].
    - Slot map (tt_stl/slotmap.hpp): [SlotMap], [SlotMapProps]: in any run every
      key given out is new, and the map is the finite map of what was inserted
      and not removed; each operation meets its specification.
    - Worker config ring buffer (impl/dispatch/worker_config_buffer.cpp):
      [WorkerConfigBuffer], [WorkerConfigBufferProps].
    - Core ranges (common/core_coord.h): [CoreCoord], [CoreCoordProps]; the
      driver's order on coordinates is a parameter with the laws of a strict
      total order.
    - Work splitting (common/work_split.hpp): [WorkSplit], [WorkSplitProps].
    - Block floating point (common/blockfloat_common.hpp, bfloat8.hpp,
      bfloat4.hpp): [BlockFloat], [BlockFloatProps],
      [BlockFloatRoundTrip]: error bounds, and that unpacking inverts packing.

    ** Bounds and fuel

    The retry loop of the config buffer needs at most eight rounds; loops that
    count up to a 32-bit bound take the bound as fuel; polling loops take the
    list of values polled and say when they still wait.  The command stream is
    proved for any number of commands and wraps; its hypotheses on the platform
    ([config_ok]) are the alignments of the supported boards, one or two queues,
    and a channel that ends within the 32-bit address space; the completion
    stream asks in addition for 16 MB between the regions and the end of that
    space ([cm_end]) and for well-formed requests ([requests_ok]: pages whose
    padding no round can cut, offsets on 32 bits, events in order).  A round of
    [write_next] that gives no command wraps the write pointer, after which
    there is room: one such round is the fuel of a queue's calls.

    ** What is not modelled

    Kernels that compute on tensors and the firmware act on memory-mapped
    registers; the cluster driver, the soc descriptors and the jit build only
    talk to the outside.  Of the dispatch kernels, exec buffers, split
    prefetchers and dispatchers and the counters between the dispatchers are
    left out; data that a relay reads from memory are any data ([read]), and
    so is a response on the completion side.  Between prefetcher
    and dispatcher the pages of the circular buffer have no model: a command
    and its data are contiguous.  Programs are not among the calls of a queue.
    Buffers are
    allocated with the command queue in passthrough mode and without hooks of the
    graph tracker.  ttnn's operations, the
    Python bindings, tests, models and tools are outside of the development.
    Mutexes that guard a single access have no counterpart. *)
From stdpp Require Export base gmap list strings fin_maps.
From Stdlib Require Export ZArith Lia.
#[global] Open Scope Z_scope.

(** ** Machine integers

    A C++ unsigned integer of width [w] is a [Z] in [0 .. 2^w - 1]; every
    operation of the source that can wrap is written with its reduction. *)
Definition wrap (w z : Z) : Z := z mod 2 ^ w.
Definition u8 (z : Z) : Z := wrap 8 z.
Definition u16 (z : Z) : Z := wrap 16 z.
Definition u32 (z : Z) : Z := wrap 32 z.
Definition u64 (z : Z) : Z := wrap 64 z.

Definition in_range (w z : Z) : Prop := 0 <= z < 2 ^ w.

(** A 32-bit two's complement reading of a 32-bit pattern
    ([static_cast<int32_t>]). *)
Definition to_i32 (z : Z) : Z :=
  let r := u32 z in if r <? 2 ^ 31 then r else r - 2 ^ 32.

Declare Scope cpp_scope.
Delimit Scope cpp_scope with cpp.
Notation "a ⊕₃₂ b" := (u32 (a + b)) (at level 50, left associativity) : cpp_scope.
Notation "a ⊖₃₂ b" := (u32 (a - b)) (at level 50, left associativity) : cpp_scope.
Notation "a ⊗₃₂ b" := (u32 (a * b)) (at level 40, left associativity) : cpp_scope.
Notation "a ⊕₆₄ b" := (u64 (a + b)) (at level 50, left associativity) : cpp_scope.
Notation "a ⊖₆₄ b" := (u64 (a - b)) (at level 50, left associativity) : cpp_scope.
Notation "a ⊗₆₄ b" := (u64 (a * b)) (at level 40, left associativity) : cpp_scope.
Notation "a '≪' b" := (Z.shiftl a b) (at level 35, no associativity) : cpp_scope.
Notation "a '≫' b" := (Z.shiftr a b) (at level 35, no associativity) : cpp_scope.

(** ** Errors and effects

    [TT_ASSERT], [TT_FATAL] and [TT_THROW] raise a [std::runtime_error]
    (tt_metal/common/assert.hpp).  [TT_ASSERT] is compiled out of release
    builds: the model is the debug build, and the theorems that show a result
    is [Ok] show that no assertion fires, so both builds agree there.
    [OUT_OF_RANGE] is what [std::vector::at] throws, [BAD_OPTIONAL] what
    [std::optional::value] throws.
    [UB] stands for undefined behaviour (a null dereference, an out-of-range
    index) and [FUEL] for a loop cut off by its bound; theorems that show a
    result is [Ok] exclude both. *)
Inductive error := TT_ASSERT | TT_FATAL | TT_THROW | OUT_OF_RANGE | BAD_OPTIONAL | UB | FUEL.

Inductive outcome (A : Type) :=
| Ok (a : A)
| Err (e : error).
Arguments Ok {A} a.
Arguments Err {A} e.

#[global] Instance outcome_ret : MRet outcome := @Ok.
#[global] Instance outcome_bind : MBind outcome := λ A B k o,
  match o with Ok a => k a | Err e => Err e end.

(** A state monad whose exceptions keep the state reached when they are
    thrown, as C++ exceptions do. *)
Definition ST (S A : Type) : Type := S → outcome A * S.

#[global] Instance ST_ret S : MRet (ST S) := λ A a s, (Ok a, s).
#[global] Instance ST_bind S : MBind (ST S) := λ A B k m s,
  match m s with
  | (Ok a, s') => k a s'
  | (Err e, s') => (Err e, s')
  end.

Definition get_st {S} : ST S S := λ s, (Ok s, s).
Definition put_st {S} (s' : S) : ST S unit := λ _, (Ok tt, s').
Definition modify_st {S} (f : S → S) : ST S unit := λ s, (Ok tt, f s).
Definition throw_st {S A} (e : error) : ST S A := λ s, (Err e, s).
Definition lift_st {S A} (o : outcome A) : ST S A := λ s, (o, s).

Definition check (c : bool) (e : error) : outcome unit := if c then Ok tt else Err e.
Definition check_st {S} (c : bool) (e : error) : ST S unit := λ s, (check c e, s).
Definition of_option {A} (e : error) (o : option A) : outcome A :=
  match o with Some a => Ok a | None => Err e end.

(** Unsigned division and remainder; a zero divisor is undefined behaviour. *)
Definition udiv (a b : Z) : outcome Z := if b =? 0 then Err UB else Ok (a / b).
Definition umod (a b : Z) : outcome Z := if b =? 0 then Err UB else Ok (a mod b).

(** [v[i]] and [v.at(i)] *)
Definition at_ {A} (v : list A) (i : nat) : outcome A := of_option UB (v !! i).
Definition vec_at {A} (v : list A) (i : Z) : outcome A :=
  if i <? 0 then Err OUT_OF_RANGE else of_option OUT_OF_RANGE (v !! Z.to_nat i).

(** [for (x : l) body], the body changing the state [s]. *)
Fixpoint for_each {A S} (body : A → S → outcome S) (l : list A) (s : S) : outcome S :=
  match l with
  | [] => Ok s
  | x :: l => s ← body x s; for_each body l s
  end.

(** [for (x : l) body], the body in the monad. *)
Fixpoint for_each_st {A S} (body : A → ST S unit) (l : list A) : ST S unit :=
  match l with
  | [] => mret tt
  | x :: l => _ ← body x; for_each_st body l
  end.

Definition ret_or {A} (d : A) (o : outcome A) : A :=
  match o with Ok a => a | Err _ => d end.

(** ** Sums and consecutive pieces *)
Definition Zsum (l : list Z) : Z := foldr Z.add 0 l.

(** ** Lemmas on machine integers *)
Create HintDb cpp.
Create Rewrite HintDb cpp.

Lemma wrap_small w z : in_range w z → wrap w z = z.
Proof. unfold in_range, wrap. intros. by apply Z.mod_small. Qed.

Lemma wrap_range w z : 0 <= w → in_range w (wrap w z).
Proof.
  intros. unfold in_range, wrap. apply Z.mod_pos_bound. by apply Z.pow_pos_nonneg.
Qed.

Lemma u32_small z : 0 <= z < 4294967296 → u32 z = z.
Proof. intros. apply wrap_small. unfold in_range. lia. Qed.
Lemma u64_small z : 0 <= z < 18446744073709551616 → u64 z = z.
Proof. intros. apply wrap_small. unfold in_range. lia. Qed.
Lemma u8_small z : 0 <= z < 256 → u8 z = z.
Proof. intros. apply wrap_small. unfold in_range. lia. Qed.
Lemma u16_small z : 0 <= z < 65536 → u16 z = z.
Proof. intros. apply wrap_small. unfold in_range. lia. Qed.

Lemma u32_range z : 0 <= u32 z < 4294967296.
Proof. apply (wrap_range 32). lia. Qed.
Lemma u64_range z : 0 <= u64 z < 18446744073709551616.
Proof. apply (wrap_range 64). lia. Qed.
Lemma u8_range z : 0 <= u8 z < 256.
Proof. apply (wrap_range 8). lia. Qed.
Lemma u16_range z : 0 <= u16 z < 65536.
Proof. apply (wrap_range 16). lia. Qed.

#[export] Hint Resolve u8_range u16_range u32_range u64_range : cpp.
#[export] Hint Rewrite u8_small u16_small u32_small u64_small using lia : cpp.

(** Wrapping an operand first changes nothing. *)
Lemma u32_add_l a b : u32 (u32 a + b) = u32 (a + b).
Proof. apply Z.add_mod_idemp_l. done. Qed.
Lemma u32_add_r a b : u32 (a + u32 b) = u32 (a + b).
Proof. apply Z.add_mod_idemp_r. done. Qed.
Lemma u32_sub_l a b : u32 (u32 a - b) = u32 (a - b).
Proof. apply Zminus_mod_idemp_l. Qed.
Lemma u32_sub_r a b : u32 (a - u32 b) = u32 (a - b).
Proof. apply Zminus_mod_idemp_r. Qed.
Lemma u32_mul_l a b : u32 (u32 a * b) = u32 (a * b).
Proof. apply Z.mul_mod_idemp_l. done. Qed.
Lemma u32_u32 a : u32 (u32 a) = u32 a.
Proof. apply Z.mod_mod. done. Qed.

Lemma at_some {A} (v : list A) i x : v !! i = Some x → at_ v i = Ok x.
Proof. unfold at_. by intros ->. Qed.
Lemma vec_at_some {A} (v : list A) i x : v !! i = Some x → vec_at v (Z.of_nat i) = Ok x.
Proof. unfold vec_at. intros H. rewrite Nat2Z.id, H. by destruct (Z.ltb_spec (Z.of_nat i) 0); [lia|]. Qed.

Lemma for_each_app {A S} (body : A → S → outcome S) l1 l2 s :
  for_each body (l1 ++ l2) s = (s ← for_each body l1 s; for_each body l2 s).
Proof. revert s; induction l1 as [|x l1 IH]; intros s; [done|]. simpl. destruct (body x s); [apply IH|done]. Qed.

(** A loop whose body always succeeds is a fold. *)
Lemma for_each_fold {A S} (body : A → S → outcome S) (f : S → A → S) (P : S → Prop) l s :
  P s → (∀ x s, x ∈ l → P s → body x s = Ok (f s x) ∧ P (f s x)) →
  for_each body l s = Ok (foldl f s l) ∧ P (foldl f s l).
Proof.
  revert s; induction l as [|x l IH]; intros s Hs Hb; [done|]. simpl.
  destruct (Hb x s) as [-> Hx]; [by left|done|]. cbn. apply IH; [done|]. intros y s' Hy. apply Hb. by right.
Qed.

Lemma udiv_ok a b : b ≠ 0 → udiv a b = Ok (a / b).
Proof. intros. unfold udiv. by rewrite (proj2 (Z.eqb_neq _ _)). Qed.
Lemma umod_ok a b : b ≠ 0 → umod a b = Ok (a mod b).
Proof. intros. unfold umod. by rewrite (proj2 (Z.eqb_neq _ _)). Qed.

(** A negative difference wraps to the top of the range. *)
Lemma u64_neg z : -18446744073709551616 <= z < 0 → u64 z = z + 18446744073709551616.
Proof.
  intros. unfold u64, wrap. rewrite <- (Z.mod_add z 1) by lia.
  apply Z.mod_small. lia.
Qed.

Lemma u32_neg z : -4294967296 <= z < 0 → u32 z = z + 4294967296.
Proof.
  intros. unfold u32, wrap. rewrite <- (Z.mod_add z 1) by lia.
  apply Z.mod_small. lia.
Qed.

(** ** Bit operations *)
Lemma lor_disjoint a b : Z.land a b = 0 → Z.lor a b = a + b.
Proof. intros H. rewrite Z.add_nocarry_lxor by done. by rewrite Z.lxor_lor. Qed.

(** Concatenating bit fields. *)
Lemma lor_shiftl a b n : 0 <= n → 0 <= b < 2 ^ n → Z.lor (Z.shiftl a n) b = a * 2 ^ n + b.
Proof.
  intros Hn Hb. rewrite <- Z.shiftl_mul_pow2 by done. apply lor_disjoint.
  apply Z.bits_inj'. intros i Hi. rewrite Z.land_spec, Z.bits_0.
  destruct (Z.lt_ge_cases i n); [by rewrite Z.shiftl_spec_low|].
  replace b with (b mod 2 ^ n) by (by apply Z.mod_small).
  rewrite Z.mod_pow2_bits_high by lia. apply andb_false_r.
Qed.

Lemma land_1 a : Z.land a 1 = a mod 2.
Proof. change 1 with (Z.ones 1). by rewrite Z.land_ones. Qed.
Lemma shiftr_1 a : Z.shiftr a 1 = a / 2.
Proof. by rewrite Z.shiftr_div_pow2. Qed.
Lemma shiftl_1 a : Z.shiftl a 1 = a * 2.
Proof. by rewrite Z.shiftl_mul_pow2. Qed.

Lemma lor_double a b : 0 <= b < 2 → Z.lor (a * 2) b = a * 2 + b.
Proof. intros. rewrite <- shiftl_1, lor_shiftl; [by rewrite shiftl_1|lia|lia]. Qed.

(** ** Lists cut into pieces of one length *)
Fixpoint chunks {A} (n m : nat) (l : list A) : list (list A) :=
  match m with O => [] | S m => take n l :: chunks n m (drop n l) end.

Lemma length_chunks {A} n m (l : list A) : length (chunks n m l) = m.
Proof. revert l; induction m as [|m IH]; intros l; simpl; [done|by rewrite IH]. Qed.

Lemma lookup_chunks {A} n m (l : list A) i :
  (i < m)%nat → chunks n m l !! i = Some (take n (drop (n * i) l)).
Proof.
  revert l i; induction m as [|m IH]; intros l i Hi; [lia|]. destruct i as [|i].
  - by rewrite Nat.mul_0_r.
  - change (chunks n m (drop n l) !! i = Some (take n (drop (n * S i) l))).
    rewrite IH by lia. rewrite drop_drop. do 3 f_equal. lia.
Qed.

Lemma length_chunk {A} n m (l c : list A) : length l = (n * m)%nat → c ∈ chunks n m l → length c = n.
Proof.
  intros Hl (i & Hi)%list_elem_of_lookup. pose proof (lookup_lt_Some _ _ _ Hi) as Hlt.
  rewrite length_chunks in Hlt. rewrite lookup_chunks in Hi by done. injection Hi as <-.
  rewrite length_take, length_drop. nia.
Qed.

Lemma concat_chunks {A} n m (l : list A) : length l = (n * m)%nat → concat (chunks n m l) = l.
Proof.
  revert l; induction m as [|m IH]; intros l Hl; simpl.
  - destruct l; [done|simpl in Hl; lia].
  - rewrite IH by (rewrite length_drop; lia). apply take_drop.
Qed.

Lemma length_concat_const {A} n (ls : list (list A)) :
  Forall (λ l, length l = n) ls → length (concat ls) = (n * length ls)%nat.
Proof. induction 1 as [|l ls Hl _ IH]; simpl; [lia|]. rewrite length_app, Hl, IH. lia. Qed.

Lemma drop_concat_const {A} n (ls : list (list A)) i :
  Forall (λ l, length l = n) ls → drop (n * i) (concat ls) = concat (drop i ls).
Proof.
  intros Hls. revert i; induction Hls as [|l ls Hl _ IH]; intros i; [by rewrite (drop_nil i); destruct (n * i)%nat|].
  destruct i as [|i]; [by rewrite Nat.mul_0_r|]. simpl. rewrite <- IH.
  rewrite drop_app_ge by lia. f_equal. lia.
Qed.

Lemma take_concat_const {A} n (ls : list (list A)) i l :
  Forall (λ l, length l = n) ls → ls !! i = Some l → take n (drop (n * i) (concat ls)) = l.
Proof.
  intros Hls Hi. rewrite drop_concat_const by done. rewrite (drop_S _ _ _ Hi). simpl.
  apply list_elem_of_lookup_2 in Hi. rewrite Forall_forall in Hls. by rewrite take_app_length' by (symmetry; auto).
Qed.

Lemma lookup_concat_const {A} n (ls : list (list A)) i l k :
  Forall (λ l, length l = n) ls → ls !! i = Some l → (k < n)%nat → concat ls !! (n * i + k)%nat = l !! k.
Proof.
  intros Hls Hi Hk. rewrite <- (take_concat_const n ls i l) by done.
  by rewrite lookup_take_lt, lookup_drop by done.
Qed.

(** ** Lemmas on monadic programs *)
Lemma ST_bind_ok {S A B} (m : ST S A) (k : A → ST S B) s a s' :
  m s = (Ok a, s') → (m ≫= k) s = k a s'.
Proof. unfold mbind, ST_bind. by intros ->. Qed.

Lemma ST_bind_err {S A B} (m : ST S A) (k : A → ST S B) s e s' :
  m s = (Err e, s') → (m ≫= k) s = (Err e, s').
Proof. unfold mbind, ST_bind. by intros ->. Qed.

Lemma bind_Ok_inv {A B} (m : outcome A) (k : A → outcome B) b :
  (m ≫= k) = Ok b → ∃ a, m = Ok a ∧ k a = Ok b.
Proof. destruct m as [a|e]; [by exists a|done]. Qed.

Lemma check_Ok_inv c e u : check c e = Ok u → c = true.
Proof. by destruct c. Qed.

Lemma ST_bind_Ok_inv {S A B} (m : ST S A) (k : A → ST S B) s b s2 :
  (m ≫= k) s = (Ok b, s2) → ∃ a s1, m s = (Ok a, s1) ∧ k a s1 = (Ok b, s2).
Proof. unfold mbind, ST_bind. destruct (m s) as [[a|e] s1]; [by exists a, s1|done]. Qed.

Lemma lift_Ok_inv {S A B} (o : outcome A) (k : A → ST S B) s b s2 :
  (lift_st o ≫= k) s = (Ok b, s2) → ∃ a, o = Ok a ∧ k a s = (Ok b, s2).
Proof. unfold mbind, ST_bind, lift_st. destruct o as [a|e]; [by exists a|done]. Qed.

Lemma check_st_Ok_inv {S B} (c : bool) e (k : unit → ST S B) s b s2 :
  (check_st c e ≫= k) s = (Ok b, s2) → c = true ∧ k tt s = (Ok b, s2).
Proof. destruct c; [done|]. by unfold mbind, ST_bind, check_st. Qed.

Lemma ST_bind_assoc {S A B C} (m : ST S A) (k : A → ST S B) (k' : B → ST S C) s :
  ((m ≫= k) ≫= k') s = (m ≫= λ a, k a ≫= k') s.
Proof. unfold mbind, ST_bind. by destruct (m s) as [[a|e] s']. Qed.

Lemma run_get {S A} (k : S → ST S A) s : (get_st ≫= k) s = k s s.
Proof. done. Qed.
Lemma run_put {S A} s' (k : unit → ST S A) s : (put_st s' ≫= k) s = k tt s'.
Proof. done. Qed.
Lemma run_modify_st {S A} f (k : unit → ST S A) s : (modify_st f ≫= k) s = k tt (f s).
Proof. done. Qed.
Lemma run_check {S A} (c : bool) e (k : unit → ST S A) s :
  c = true → (check_st c e ≫= k) s = k tt s.
Proof. by intros ->. Qed.
Lemma run_lift {S A B} (o : outcome A) a (k : A → ST S B) s :
  o = Ok a → (lift_st o ≫= k) s = k a s.
Proof. by intros ->. Qed.

(** The rule for loops in the monad: [P done s] holds between the iterations. *)
Lemma for_each_st_inv {X S} (body : X → ST S unit) (P : list X → S → Prop) l s :
  P [] s →
  (∀ done v rest s, l = done ++ v :: rest → P done s → ∃ s', body v s = (Ok tt, s') ∧ P (done ++ [v]) s') →
  ∃ s', for_each_st body l s = (Ok tt, s') ∧ P l s'.
Proof.
  intros H0 Hstep. assert (H : ∀ rest done s, l = done ++ rest → P done s →
    ∃ s', for_each_st body rest s = (Ok tt, s') ∧ P l s'); [|by apply (H l [])].
  clear H0 s. induction rest as [|v rest IH]; intros done s Hl Hs; [rewrite app_nil_r in Hl; subst; by exists s|].
  destruct (Hstep done v rest s Hl Hs) as (s1 & Hrun & Hs1). cbn [for_each_st].
  rewrite (ST_bind_ok _ _ _ _ _ Hrun). apply (IH (done ++ [v])); [by rewrite Hl, <- app_assoc|done].
Qed.

Lemma Zsum_app l k : Zsum (l ++ k) = Zsum l + Zsum k.
Proof. induction l as [|x l IH]; simpl; [done|]. rewrite IH. lia. Qed.

(** ** Tactics *)
(** Remove every wrap-around whose argument [lia] can bound. *)
Ltac unwrap1 e :=
  match e with
  | context [u64 ?x] => rewrite (u64_small x) in * by lia
  | context [u32 ?x] => rewrite (u32_small x) in * by lia
  | context [u16 ?x] => rewrite (u16_small x) in * by lia
  | context [u8 ?x] => rewrite (u8_small x) in * by lia
  end.
Ltac unwrap :=
  repeat match goal with
  | |- ?G => unwrap1 G
  | H : ?G |- _ => unwrap1 G
  end.

(** Decide the boolean comparisons of the goal and of the hypotheses. *)
Ltac case_bool :=
  repeat match goal with
  | |- context [?a <=? ?b] => destruct (Z.leb_spec a b); simpl
  | |- context [?a <? ?b] => destruct (Z.ltb_spec a b); simpl
  | |- context [?a =? ?b] => destruct (Z.eqb_spec a b); simpl
  end.

(** One step of a stateful program: the first command is known to succeed. *)
Ltac st_step H := rewrite (ST_bind_ok _ _ _ _ _ H).
