(* ===== verification/FreeList.v ===== *)
(** * The free-list allocator (tt_metal/impl/allocator/algorithms/free_list.cpp)

    The blocks live in an explicit store: a [loc] is the identity of a
    [local_shared_ptr<Block>], [None] is [nullptr], and every field update of
    the source is an update of that store, so the two interleaved doubly linked
    lists (all blocks in address order, and the free ones among them) are
    modelled with their aliasing.  The operations run in the state and
    exception monad of [Prelude]: an exception keeps the state it was thrown
    in.  Loops over a chain take a fuel one larger than the number of
    locations ever created. *)
From S2P Require Import Prelude.

Abbreviation loc := nat.

Inductive SearchPolicy := BEST | FIRST.

Record Block := mk_block {
  address : Z;
  size : Z;
  prev_block : option loc;
  next_block : option loc;
  prev_free : option loc;
  next_free : option loc
}.

Record FreeList := mk_free_list {
  max_size_bytes : Z;
  offset_bytes : Z;
  min_allocation_size : Z;
  alignment : Z;
  lowest_occupied_address_ : option Z;
  search_policy_ : SearchPolicy;
  heap : gmap loc Block;
  fresh_loc : loc;
  block_head_ : option loc;
  block_tail_ : option loc;
  free_block_head_ : option loc;
  free_block_tail_ : option loc
}.

(** Field assignments. *)
Definition set_address (v : Z) (b : Block) : Block :=
  mk_block v (size b) (prev_block b) (next_block b) (prev_free b) (next_free b).
Definition set_size (v : Z) (b : Block) : Block :=
  mk_block (address b) v (prev_block b) (next_block b) (prev_free b) (next_free b).
Definition set_prev_block (p : option loc) (b : Block) : Block :=
  mk_block (address b) (size b) p (next_block b) (prev_free b) (next_free b).
Definition set_next_block (p : option loc) (b : Block) : Block :=
  mk_block (address b) (size b) (prev_block b) p (prev_free b) (next_free b).
Definition set_prev_free (p : option loc) (b : Block) : Block :=
  mk_block (address b) (size b) (prev_block b) (next_block b) p (next_free b).
Definition set_next_free (p : option loc) (b : Block) : Block :=
  mk_block (address b) (size b) (prev_block b) (next_block b) (prev_free b) p.

Definition with_heap (m : gmap loc Block) (s : FreeList) : FreeList :=
  mk_free_list (max_size_bytes s) (offset_bytes s) (min_allocation_size s) (alignment s)
    (lowest_occupied_address_ s) (search_policy_ s) m (fresh_loc s)
    (block_head_ s) (block_tail_ s) (free_block_head_ s) (free_block_tail_ s).
Definition with_lowest (a : option Z) (s : FreeList) : FreeList :=
  mk_free_list (max_size_bytes s) (offset_bytes s) (min_allocation_size s) (alignment s)
    a (search_policy_ s) (heap s) (fresh_loc s)
    (block_head_ s) (block_tail_ s) (free_block_head_ s) (free_block_tail_ s).
Definition with_ends (bh bt fh ft : option loc) (s : FreeList) : FreeList :=
  mk_free_list (max_size_bytes s) (offset_bytes s) (min_allocation_size s) (alignment s)
    (lowest_occupied_address_ s) (search_policy_ s) (heap s) (fresh_loc s) bh bt fh ft.

Definition set_block_head (p : option loc) (s : FreeList) : FreeList :=
  with_ends p (block_tail_ s) (free_block_head_ s) (free_block_tail_ s) s.
Definition set_block_tail (p : option loc) (s : FreeList) : FreeList :=
  with_ends (block_head_ s) p (free_block_head_ s) (free_block_tail_ s) s.
Definition set_free_head (p : option loc) (s : FreeList) : FreeList :=
  with_ends (block_head_ s) (block_tail_ s) p (free_block_tail_ s) s.
Definition set_free_tail (p : option loc) (s : FreeList) : FreeList :=
  with_ends (block_head_ s) (block_tail_ s) (free_block_head_ s) p s.

(** Dereference: reading a block, assigning to a field of a block. *)
Definition load (p : loc) : ST FreeList Block := λ s,
  match heap s !! p with Some b => (Ok b, s) | None => (Err UB, s) end.

Definition modify_block (p : loc) (f : Block → Block) : ST FreeList unit := λ s,
  match heap s !! p with
  | Some b => (Ok tt, with_heap (<[p := f b]> (heap s)) s)
  | None => (Err UB, s)
  end.

(** [if (p != nullptr) p->field = v;] *)
Definition modify_if (p : option loc) (f : Block → Block) : ST FreeList unit :=
  match p with Some l => modify_block l f | None => mret tt end.

(** [boost::make_local_shared<Block>(...)] *)
Definition make_block (b : Block) : ST FreeList loc := λ s,
  (Ok (fresh_loc s),
   mk_free_list (max_size_bytes s) (offset_bytes s) (min_allocation_size s) (alignment s)
     (lowest_occupied_address_ s) (search_policy_ s)
     (<[fresh_loc s := b]> (heap s)) (S (fresh_loc s))
     (block_head_ s) (block_tail_ s) (free_block_head_ s) (free_block_tail_ s)).

Definition chain_fuel (s : FreeList) : nat := S (fresh_loc s).

Definition ptr_eqb (p q : option loc) : bool := bool_decide (p = q).
Definition is_null (p : option loc) : bool := ptr_eqb p None.

(** [FreeList::align] of the base class [Algorithm]. *)
Definition align (s : FreeList) (addr : Z) : Z :=
  let factor := (u64 (addr + alignment s - 1)) / alignment s in
  u64 (factor * alignment s).

(** [Algorithm::lowest_occupied_address] *)
Definition lowest_occupied_address (s : FreeList) : option Z :=
  match lowest_occupied_address_ s with
  | None => None
  | Some a => Some (u64 (a + offset_bytes s))
  end.

(** The size an allocation request is rounded to. *)
Definition alloc_size_of (s : FreeList) (size_bytes : Z) : Z :=
  align s (if size_bytes <? min_allocation_size s then min_allocation_size s else size_bytes).

Definition init : ST FreeList unit :=
  s ← get_st;
  block ← make_block (mk_block 0 (max_size_bytes s) None None None None);
  modify_st (with_ends (Some block) (Some block) (Some block) (Some block)).

Definition FreeList_new (max_size offset min_alloc align_ : Z) (policy : SearchPolicy)
  : outcome unit * FreeList :=
  let s0 := mk_free_list max_size offset min_alloc align_ None policy ∅ 0%nat None None None None in
  (_ ← check_st (offset mod align_ =? 0) TT_ASSERT; init) s0.

Definition block_is_allocated (s : FreeList) (p : loc) (b : Block) : bool :=
  is_null (prev_free b) && is_null (next_free b)
  && negb (ptr_eqb (Some p) (free_block_head_ s))
  && negb (ptr_eqb (Some p) (free_block_tail_ s)).

Definition is_allocated (p : loc) : ST FreeList bool :=
  b ← load p;
  s ← get_st;
  mret (block_is_allocated s p b).

(** [while (curr_block != nullptr)] of [available_addresses]. *)
Fixpoint available_loop (fuel : nat) (alloc_size : Z) (curr : option loc)
    (acc : list (Z * Z)) : ST FreeList (list (Z * Z)) :=
  match curr with
  | None => mret acc
  | Some p =>
    match fuel with
    | O => throw_st FUEL
    | S fuel =>
      b ← load p;
      let acc' := if alloc_size <=? size b
                  then acc ++ [(address b, u64 (u64 (address b + size b) - alloc_size))]
                  else acc in
      available_loop fuel alloc_size (next_free b) acc'
    end
  end.

Definition available_addresses (size_bytes : Z) : ST FreeList (list (Z * Z)) :=
  s ← get_st;
  available_loop (chain_fuel s) (alloc_size_of s size_bytes) (free_block_head_ s) [].

Definition step_free (bottom_up : bool) (b : Block) : option loc :=
  if bottom_up then next_free b else prev_free b.

Fixpoint search_best_loop (fuel : nat) (size_bytes : Z) (bottom_up : bool)
    (best : option loc) (curr : option loc) : ST FreeList (option loc) :=
  match curr with
  | None => mret best
  | Some p =>
    match fuel with
    | O => throw_st FUEL
    | S fuel =>
      b ← load p;
      if size b =? size_bytes then mret (Some p)
      else
        best' ← (if size_bytes <=? size b then
                   match best with
                   | None => mret (Some p)
                   | Some q =>
                     bb ← load q;
                     mret (if size b <? size bb then Some p else best)
                   end
                 else mret best);
        search_best_loop fuel size_bytes bottom_up best' (step_free bottom_up b)
    end
  end.

Definition search_start (s : FreeList) (bottom_up : bool) : option loc :=
  if bottom_up then free_block_head_ s else free_block_tail_ s.

Definition search_best (size_bytes : Z) (bottom_up : bool) : ST FreeList (option loc) :=
  s ← get_st;
  search_best_loop (chain_fuel s) size_bytes bottom_up None (search_start s bottom_up).

Fixpoint search_first_loop (fuel : nat) (size_bytes : Z) (bottom_up : bool)
    (curr : option loc) : ST FreeList (option loc) :=
  match curr with
  | None => mret None
  | Some p =>
    match fuel with
    | O => throw_st FUEL
    | S fuel =>
      b ← load p;
      if size_bytes <=? size b then mret (Some p)
      else search_first_loop fuel size_bytes bottom_up (step_free bottom_up b)
    end
  end.

Definition search_first (size_bytes : Z) (bottom_up : bool) : ST FreeList (option loc) :=
  s ← get_st;
  search_first_loop (chain_fuel s) size_bytes bottom_up (search_start s bottom_up).

Definition search (size_bytes : Z) (bottom_up : bool) : ST FreeList (option loc) :=
  s ← get_st;
  match search_policy_ s with
  | BEST => search_best size_bytes bottom_up
  | FIRST => search_first size_bytes bottom_up
  end.

Definition allocate_entire_free_block (p : loc) : ST FreeList unit :=
  a ← is_allocated p;
  _ ← check_st (negb a) TT_ASSERT;
  b ← load p;
  _ ← modify_if (prev_free b) (set_next_free (next_free b));
  b ← load p;
  _ ← modify_if (next_free b) (set_prev_free (prev_free b));
  b ← load p;
  s ← get_st;
  _ ← (if ptr_eqb (Some p) (free_block_head_ s)
       then modify_st (set_free_head (next_free b)) else mret tt);
  s ← get_st;
  _ ← (if ptr_eqb (Some p) (free_block_tail_ s)
       then modify_st (set_free_tail (prev_free b)) else mret tt);
  _ ← modify_block p (set_prev_free None);
  modify_block p (set_next_free None).

Definition update_left_aligned_allocated_block_connections (free_block allocated_block : loc)
  : ST FreeList unit :=
  fb ← load free_block;
  _ ← modify_block allocated_block (set_prev_block (prev_block fb));
  _ ← modify_block allocated_block (set_next_block (Some free_block));
  fb ← load free_block;
  _ ← modify_if (prev_block fb) (set_next_block (Some allocated_block));
  s ← get_st;
  _ ← (if ptr_eqb (Some free_block) (block_head_ s)
       then modify_st (set_block_head (Some allocated_block)) else mret tt);
  _ ← modify_block free_block (set_prev_block (Some allocated_block));
  ab ← load allocated_block;
  _ ← modify_block free_block (set_address (u64 (address ab + size ab)));
  modify_block free_block (λ b, set_size (u64 (size b - size ab)) b).

Definition update_right_aligned_allocated_block_connections (free_block allocated_block : loc)
  : ST FreeList unit :=
  _ ← modify_block allocated_block (set_prev_block (Some free_block));
  fb ← load free_block;
  _ ← modify_block allocated_block (set_next_block (next_block fb));
  fb ← load free_block;
  _ ← modify_if (next_block fb) (set_prev_block (Some allocated_block));
  s ← get_st;
  _ ← (if ptr_eqb (Some free_block) (block_tail_ s)
       then modify_st (set_block_tail (Some allocated_block)) else mret tt);
  _ ← modify_block free_block (set_next_block (Some allocated_block));
  ab ← load allocated_block;
  modify_block free_block (λ b, set_size (u64 (size b - size ab)) b).

(** Case three of [allocate_slice_of_free_block]: the slice is in the middle. *)
Definition split_middle (free_block allocated_block : loc) (offset size_bytes : Z)
  : ST FreeList unit :=
  fb ← load free_block;
  let next_free_block_addr := u64 (address fb + offset + size_bytes) in
  let next_free_block_size := u64 (u64 (address fb + size fb) - next_free_block_addr) in
  next_free_block ← make_block
    (mk_block next_free_block_addr next_free_block_size
       (Some allocated_block) (next_block fb) (Some free_block) (next_free fb));
  _ ← modify_if (next_block fb) (set_prev_block (Some next_free_block));
  fb ← load free_block;
  _ ← modify_if (next_free fb) (set_prev_free (Some next_free_block));
  s ← get_st;
  _ ← (if ptr_eqb (free_block_tail_ s) (Some free_block)
       then modify_st (set_free_tail (Some next_free_block)) else mret tt);
  s ← get_st;
  _ ← (if ptr_eqb (block_tail_ s) (Some free_block)
       then modify_st (set_block_tail (Some next_free_block)) else mret tt);
  _ ← modify_block free_block (set_next_free (Some next_free_block));
  _ ← modify_block free_block (set_next_block (Some allocated_block));
  _ ← modify_block allocated_block (set_prev_block (Some free_block));
  _ ← modify_block allocated_block (set_next_block (Some next_free_block));
  ab ← load allocated_block;
  nb ← load next_free_block;
  modify_block free_block (λ b, set_size (u64 (size b - (u64 (size ab + size nb)))) b).

Definition allocate_slice_of_free_block (free_block : loc) (offset size_bytes : Z)
  : ST FreeList loc :=
  fb ← load free_block;
  let slice_end := u64 (address fb + offset + size_bytes) in
  let block_end := u64 (address fb + size fb) in
  _ ← check_st (slice_end <=? block_end) TT_ASSERT;
  if (offset =? 0) && (size_bytes =? size fb) then
    _ ← allocate_entire_free_block free_block;
    mret free_block
  else
    allocated_block ← make_block
      (mk_block (u64 (address fb + offset)) size_bytes None None None None);
    let case_one := (offset =? 0) && (size_bytes <? size fb) in
    let case_two := (0 <? offset) && (slice_end =? block_end) in
    let case_three := (0 <? offset) && (slice_end <? block_end) in
    _ ← check_st (Z.b2z case_one + Z.b2z case_two + Z.b2z case_three =? 1) TT_ASSERT;
    _ ← (if case_one then
           update_left_aligned_allocated_block_connections free_block allocated_block
         else if case_two then
           update_right_aligned_allocated_block_connections free_block allocated_block
         else
           _ ← check_st case_three TT_ASSERT;
           split_middle free_block allocated_block offset size_bytes);
    mret allocated_block.

(** [update_lowest_occupied_address(DeviceAddr)] *)
Definition update_lowest_occupied_address_with (addr : Z) : ST FreeList unit :=
  s ← get_st;
  put_st (with_lowest
    (match lowest_occupied_address_ s with
     | None => Some addr
     | Some a => Some (Z.min a addr)
     end) s).

Definition allocate (size_bytes : Z) (bottom_up : bool) (address_limit : Z)
  : ST FreeList (option Z) :=
  s ← get_st;
  let alloc_size := alloc_size_of s size_bytes in
  r ← search alloc_size bottom_up;
  match r with
  | None => mret None
  | Some free_block =>
    fb ← load free_block;
    let offset := if bottom_up then 0
                  else u64 (u64 (u64 (address fb + size fb) - alloc_size) - address fb) in
    allocated_block ← allocate_slice_of_free_block free_block offset alloc_size;
    ab ← load allocated_block;
    _ ← update_lowest_occupied_address_with (address ab);
    if u64 (address ab + offset_bytes s) <? address_limit then throw_st TT_THROW
    else mret (Some (u64 (address ab + offset_bytes s)))
  end.

(** The search loop of [allocate_at_address]: the result says whether a block
    was found ([curr_block != nullptr] after the loop). *)
Fixpoint allocate_at_loop (fuel : nat) (start_address alloc_size : Z) (curr : option loc)
  : ST FreeList bool :=
  match curr with
  | None => mret false
  | Some p =>
    match fuel with
    | O => throw_st FUEL
    | S fuel =>
      b ← load p;
      if alloc_size <=? size b then
        if address b =? start_address then
          _ ← allocate_slice_of_free_block p 0 alloc_size;
          mret true
        else if (address b <? start_address)
                && (u64 (start_address + alloc_size) <=? u64 (address b + size b)) then
          _ ← allocate_slice_of_free_block p (u64 (start_address - address b)) alloc_size;
          mret true
        else allocate_at_loop fuel start_address alloc_size (next_free b)
      else allocate_at_loop fuel start_address alloc_size (next_free b)
    end
  end.

Definition allocate_at_address (absolute_start_address size_bytes : Z)
  : ST FreeList (option Z) :=
  s ← get_st;
  _ ← check_st (absolute_start_address mod alignment s =? 0) TT_ASSERT;
  let start_address := u64 (absolute_start_address - offset_bytes s) in
  found ← allocate_at_loop (chain_fuel s) start_address (alloc_size_of s size_bytes)
            (free_block_head_ s);
  if (found : bool) then
    _ ← update_lowest_occupied_address_with start_address;
    mret (Some absolute_start_address)
  else mret None.

Fixpoint find_block_loop (fuel : nat) (addr : Z) (curr : option loc)
  : ST FreeList (option loc) :=
  match curr with
  | None => mret None
  | Some p =>
    match fuel with
    | O => throw_st FUEL
    | S fuel =>
      b ← load p;
      if address b =? addr then mret (Some p)
      else find_block_loop fuel addr (next_block b)
    end
  end.

Definition find_block (addr : Z) : ST FreeList (option loc) :=
  s ← get_st;
  find_block_loop (chain_fuel s) addr (block_head_ s).

Definition step_block (forward : bool) (b : Block) : option loc :=
  if forward then next_block b else prev_block b.

(** [while (block != nullptr and is_allocated(block) == skip) block = step(block);]:
    the three block walks of the source are instances. *)
Fixpoint walk_while (fuel : nat) (skip forward : bool) (curr : option loc)
  : ST FreeList (option loc) :=
  match curr with
  | None => mret None
  | Some p =>
    match fuel with
    | O => throw_st FUEL
    | S fuel =>
      a ← is_allocated p;
      if eqb a skip then
        b ← load p;
        walk_while fuel skip forward (step_block forward b)
      else mret (Some p)
    end
  end.

(** [update_lowest_occupied_address()] *)
Definition update_lowest_occupied_address : ST FreeList unit :=
  s ← get_st;
  r ← walk_while (chain_fuel s) false true (block_head_ s);
  match r with
  | None => modify_st (with_lowest None)
  | Some p => b ← load p; modify_st (with_lowest (Some (address b)))
  end.

(** [deallocate], first part: merge with a free predecessor.  The result is
    the new [block_to_free] and [merged_prev]. *)
Definition merge_prev (block_to_free : loc) (prev : option loc) : ST FreeList (loc * bool) :=
  match prev with
  | None => mret (block_to_free, false)
  | Some p =>
    a ← is_allocated p;
    if (a : bool) then mret (block_to_free, false)
    else
      b ← load block_to_free;
      _ ← modify_block p (set_next_block (next_block b));
      b ← load block_to_free;
      _ ← modify_if (next_block b) (set_prev_block (Some p));
      b ← load block_to_free;
      _ ← modify_block p (λ pb, set_size (u64 (size pb + size b)) pb);
      mret (p, true)
  end.

(** [deallocate], second part: merge with a free successor. *)
Definition merge_next (block_to_free : loc) (merged_prev : bool) (next : option loc)
  : ST FreeList bool :=
  match next with
  | None => mret false
  | Some n =>
    a ← is_allocated n;
    if (a : bool) then mret false
    else
      nb ← load n;
      _ ← modify_block block_to_free (set_next_block (next_block nb));
      nb ← load n;
      _ ← modify_if (next_block nb) (set_prev_block (Some block_to_free));
      nb ← load n;
      s ← get_st;
      _ ← (if ptr_eqb (Some n) (free_block_head_ s)
           then modify_st (set_free_head (Some block_to_free)) else mret tt);
      s ← get_st;
      _ ← (if ptr_eqb (Some n) (free_block_tail_ s)
           then modify_st (set_free_tail (Some block_to_free)) else mret tt);
      _ ← modify_block block_to_free (set_next_free (next_free nb));
      nb ← load n;
      _ ← modify_if (next_free nb) (set_prev_free (Some block_to_free));
      _ ← (if merged_prev then mret tt
           else
             nb ← load n;
             _ ← modify_block block_to_free (set_prev_free (prev_free nb));
             nb ← load n;
             modify_if (prev_free nb) (set_next_free (Some block_to_free)));
      nb ← load n;
      _ ← modify_block block_to_free (λ b, set_size (u64 (size b + size nb)) b);
      mret true
  end.

(** [deallocate], third part: link an isolated block into the free list. *)
Definition insert_free (block_to_free : loc) : ST FreeList unit :=
  b ← load block_to_free;
  s ← get_st;
  prev_free_block ← walk_while (chain_fuel s) true false (prev_block b);
  b ← load block_to_free;
  next_free_block ← walk_while (chain_fuel s) true true (next_block b);
  _ ← modify_block block_to_free (set_prev_free prev_free_block);
  _ ← (match prev_free_block with
       | Some p => modify_block p (set_next_free (Some block_to_free))
       | None => modify_st (set_free_head (Some block_to_free))
       end);
  _ ← modify_block block_to_free (set_next_free next_free_block);
  match next_free_block with
  | Some n => modify_block n (set_prev_free (Some block_to_free))
  | None => modify_st (set_free_tail (Some block_to_free))
  end.

Definition deallocate (absolute_address : Z) : ST FreeList unit :=
  s ← get_st;
  let addr := u64 (absolute_address - offset_bytes s) in
  r ← find_block addr;
  match r with
  | None => mret tt
  | Some block_to_free =>
    a ← is_allocated block_to_free;
    if negb a then mret tt
    else
      b ← load block_to_free;
      '(p, merged_prev) ← merge_prev block_to_free (prev_block b);
      merged_next ← merge_next p merged_prev (next_block b);
      _ ← (if negb merged_prev && negb merged_next then insert_free p else mret tt);
      s ← get_st;
      match lowest_occupied_address_ s with
      | Some low => if addr =? low then update_lowest_occupied_address else mret tt
      | None => mret tt
      end
  end.

Definition clear : ST FreeList unit := init.

Record Statistics := mk_stats {
  total_allocatable_size_bytes : Z;
  total_allocated_bytes : Z;
  total_free_bytes : Z;
  largest_free_block_bytes : Z;
  largest_free_block_addrs : list Z
}.

Definition stats_add (s : FreeList) (p : loc) (b : Block) (st : Statistics) : Statistics :=
  if block_is_allocated s p b then
    mk_stats (total_allocatable_size_bytes st) (u64 (total_allocated_bytes st + size b))
      (total_free_bytes st) (largest_free_block_bytes st) (largest_free_block_addrs st)
  else
    let free := u64 (total_free_bytes st + size b) in
    if largest_free_block_bytes st <=? size b then
      mk_stats (total_allocatable_size_bytes st) (total_allocated_bytes st) free (size b)
        (largest_free_block_addrs st ++ [u32 (u64 (address b + offset_bytes s))])
    else
      mk_stats (total_allocatable_size_bytes st) (total_allocated_bytes st) free
        (largest_free_block_bytes st) (largest_free_block_addrs st).

Fixpoint statistics_loop (fuel : nat) (curr : option loc) (st : Statistics)
  : ST FreeList Statistics :=
  match curr with
  | None => mret st
  | Some p =>
    match fuel with
    | O => throw_st FUEL
    | S fuel =>
      b ← load p;
      s ← get_st;
      statistics_loop fuel (next_block b) (stats_add s p b st)
    end
  end.

Definition get_statistics : ST FreeList Statistics :=
  s ← get_st;
  st ← statistics_loop (chain_fuel s) (block_head_ s) (mk_stats (max_size_bytes s) 0 0 0 []);
  mret (if total_allocated_bytes st =? 0
        then mk_stats (total_allocatable_size_bytes st) (total_allocated_bytes st)
               (max_size_bytes s) (max_size_bytes s) (largest_free_block_addrs st)
        else st).

(** A line of the dump: absolute address, size, and ["Y"] or ["N"]. *)
Record dump_row := mk_row { row_addr : Z; row_size : Z; row_allocated : bool }.

Definition dump_block (s : FreeList) (p : loc) (b : Block) : dump_row :=
  mk_row (u64 (address b + offset_bytes s)) (size b) (block_is_allocated s p b).

Fixpoint dump_loop (fuel : nat) (curr : option loc) (out : list dump_row)
  : ST FreeList (list dump_row) :=
  match curr with
  | None => mret out
  | Some p =>
    match fuel with
    | O => throw_st FUEL
    | S fuel =>
      b ← load p;
      s ← get_st;
      dump_loop fuel (next_block b) (out ++ [dump_block s p b])
    end
  end.

Definition dump_blocks : ST FreeList (list dump_row) :=
  s ← get_st;
  dump_loop (chain_fuel s) (block_head_ s) [].
