(* ===== verification/FreeListOps.v ===== *)
(** * Representation of the free list's linked blocks

    [seg] is the abstract view of a block; [chain] says that a piece of the
    store holds the two interleaved doubly linked lists of a list of segments
    (it plays the part of a linked-list segment predicate), and [Rep] that a
    whole allocator state does.  The lemmas are the frame and retargeting
    rules from which the operations of [FreeList] are verified. *)
From S2P Require Import Prelude FreeList.
Record seg := mk_seg { sloc : loc; saddr : Z; ssize : Z; sfree : bool }.

Definition head_loc (l : list seg) (d : option loc) : option loc :=
  match l with [] => d | x :: _ => Some (sloc x) end.
Definition last_loc (l : list seg) (d : option loc) : option loc :=
  foldl (λ _ x, Some (sloc x)) d l.
Fixpoint head_free (l : list seg) (d : option loc) : option loc :=
  match l with
  | [] => d
  | x :: l => if sfree x then Some (sloc x) else head_free l d
  end.
Definition last_free (l : list seg) (d : option loc) : option loc :=
  foldl (λ acc x, if sfree x then Some (sloc x) else acc) d l.

Definition block_of (pb pf : option loc) (x : seg) (nb nf : option loc) : Block :=
  mk_block (saddr x) (ssize x) pb nb
    (if sfree x then pf else None) (if sfree x then nf else None).

Fixpoint chain (m : gmap loc Block) (pb pf : option loc) (l : list seg)
    (nb nf : option loc) : Prop :=
  match l with
  | [] => True
  | x :: l' =>
    m !! sloc x = Some (block_of pb pf x (head_loc l' nb) (head_free l' nf))
    ∧ chain m (Some (sloc x)) (if sfree x then Some (sloc x) else pf) l' nb nf
  end.

Definition locs (l : list seg) : list loc := sloc <$> l.

(** [block_tail_] is left out: the source does not maintain it when a block is
    merged into its predecessor, and no traversal starts from it. *)
Record Rep (s : FreeList) (l : list seg) : Prop := mk_Rep {
  rep_chain : chain (heap s) None None l None None;
  rep_nodup : NoDup (locs l);
  rep_fresh : Forall (λ p, p < fresh_loc s)%nat (locs l);
  rep_block_head : block_head_ s = head_loc l None;
  rep_free_head : free_block_head_ s = head_free l None;
  rep_free_tail : free_block_tail_ s = last_free l None
}.

(** Update of the store through a possibly null pointer. *)
Definition updo (p : option loc) (f : Block → Block) (m : gmap loc Block) : gmap loc Block :=
  match p with Some q => alter f q m | None => m end.
#[global] Arguments updo : simpl never.

(** ** Ends of a list of segments *)
Lemma last_loc_app l k d : last_loc (l ++ k) d = last_loc k (last_loc l d).
Proof. apply foldl_app. Qed.
Lemma last_free_app l k d : last_free (l ++ k) d = last_free k (last_free l d).
Proof. apply foldl_app. Qed.
Lemma head_loc_app l k d : head_loc (l ++ k) d = head_loc l (head_loc k d).
Proof. by destruct l. Qed.
Lemma head_free_app l k d : head_free (l ++ k) d = head_free l (head_free k d).
Proof. induction l as [|x l IH]; simpl; [done|]. by destruct (sfree x). Qed.

Lemma locs_app l k : locs (l ++ k) = locs l ++ locs k.
Proof. apply fmap_app. Qed.

Create HintDb segs.
Create Rewrite HintDb segs.
#[export] Hint Rewrite last_loc_app last_free_app head_loc_app head_free_app locs_app : segs.

Lemma last_loc_default l d :
  last_loc l d = match last_loc l None with None => d | p => p end.
Proof.
  destruct l as [|x l _] using rev_ind; [done|].
  by rewrite !last_loc_app.
Qed.
Lemma last_free_default l d :
  last_free l d = match last_free l None with None => d | p => p end.
Proof.
  revert d; induction l as [|x l IH] using rev_ind; intros d; [done|].
  rewrite !last_free_app. simpl. destruct (sfree x); [done|]. apply IH.
Qed.
Lemma head_free_default l d :
  head_free l d = match head_free l None with None => d | p => p end.
Proof. induction l as [|x l IH]; simpl; [done|]. by destruct (sfree x). Qed.
Lemma head_loc_default l d :
  head_loc l d = match head_loc l None with None => d | p => p end.
Proof. by destruct l. Qed.

Lemma head_loc_in l p : head_loc l None = Some p → p ∈ locs l.
Proof. destruct l; simpl; [done|]. intros [= <-]. by left. Qed.
Lemma last_loc_in l p : last_loc l None = Some p → p ∈ locs l.
Proof.
  destruct l as [|x l _] using rev_ind; [done|].
  rewrite last_loc_app, locs_app. simpl. intros [= <-]. set_solver.
Qed.
Lemma head_free_in l p : head_free l None = Some p → p ∈ locs l.
Proof.
  induction l as [|x l IH]; simpl; [done|]. destruct (sfree x).
  - intros [= <-]. by left.
  - intros. right. by apply IH.
Qed.
Lemma last_free_in l p : last_free l None = Some p → p ∈ locs l.
Proof.
  induction l as [|x l IH] using rev_ind; [done|].
  rewrite last_free_app, locs_app. simpl. destruct (sfree x).
  - intros [= <-]. set_solver.
  - intros Hp. apply IH in Hp. set_solver.
Qed.
#[export] Hint Resolve head_loc_in last_loc_in head_free_in last_free_in : segs.

(** A location outside the list is none of its ends. *)
Lemma head_loc_ne l d p : p ∉ locs l → d ≠ Some p → head_loc l d ≠ Some p.
Proof. destruct l; set_solver. Qed.
Lemma last_loc_ne l d p : p ∉ locs l → d ≠ Some p → last_loc l d ≠ Some p.
Proof.
  destruct l as [|x l _] using rev_ind; [done|].
  rewrite last_loc_app, locs_app. simpl. set_solver.
Qed.
Lemma head_free_ne l d p : p ∉ locs l → d ≠ Some p → head_free l d ≠ Some p.
Proof. induction l as [|x l IH]; simpl; [done|]. destruct (sfree x); set_solver. Qed.
Lemma last_free_ne l d p : p ∉ locs l → d ≠ Some p → last_free l d ≠ Some p.
Proof.
  induction l as [|x l IH] using rev_ind; [done|].
  rewrite last_free_app, locs_app. simpl. destruct (sfree x); set_solver.
Qed.
#[export] Hint Resolve head_loc_ne last_loc_ne head_free_ne last_free_ne : segs.

Lemma head_free_none l : head_free l None = None ↔ Forall (λ x, sfree x = false) l.
Proof.
  induction l as [|x l IH]; simpl; [by split|].
  rewrite Forall_cons. destruct (sfree x); naive_solver.
Qed.
Lemma last_free_none l : last_free l None = None ↔ Forall (λ x, sfree x = false) l.
Proof.
  induction l as [|x l IH] using rev_ind; [by split|].
  rewrite last_free_app, Forall_app, Forall_singleton. simpl.
  destruct (sfree x); naive_solver.
Qed.

Lemma free_none_iff l : last_free l None = None ↔ head_free l None = None.
Proof. by rewrite last_free_none, head_free_none. Qed.

(** Only a list without free segments sees the default. *)
Lemma link_head l d v :
  match last_free l None with Some _ => head_free l d | None => v end = head_free l v.
Proof.
  rewrite (head_free_default l d), (head_free_default l v).
  destruct (last_free l None) eqn:Hl, (head_free l None) eqn:Hh; try done.
  - apply free_none_iff in Hh. congruence.
  - apply free_none_iff in Hl. congruence.
Qed.
Lemma link_tail l d v :
  match head_free l None with Some _ => last_free l d | None => v end = last_free l v.
Proof.
  rewrite (last_free_default l d), (last_free_default l v).
  destruct (last_free l None) eqn:Hl, (head_free l None) eqn:Hh; try done.
  - apply free_none_iff in Hh. congruence.
  - apply free_none_iff in Hl. congruence.
Qed.

(** ** The store *)
Lemma updo_other p q f m : p ≠ Some q → updo p f m !! q = m !! q.
Proof. intros. destruct p; unfold updo; [|done]. apply lookup_alter_ne. congruence. Qed.
Lemma updo_same q f m : updo (Some q) f m !! q = f <$> m !! q.
Proof. apply lookup_alter_eq. Qed.
Lemma updo_is_some p f m q : is_Some (m !! q) → is_Some (updo p f m !! q).
Proof.
  intros [b Hb]. destruct (decide (p = Some q)) as [->|Hne].
  - rewrite updo_same, Hb. by eexists.
  - rewrite updo_other by done. by eexists.
Qed.

Lemma insert_is_some (m : gmap loc Block) n b q :
  is_Some (m !! q) → is_Some (<[n := b]> m !! q).
Proof. intros H. rewrite lookup_insert. case_decide; [by eexists|done]. Qed.
Lemma insert_is_some_eq (m : gmap loc Block) n b : is_Some (<[n := b]> m !! n).
Proof. rewrite lookup_insert_eq. by eexists. Qed.
#[export] Hint Resolve insert_is_some insert_is_some_eq : segs.

Lemma alter_updo f q m : alter f q m = updo (Some q) f m.
Proof. done. Qed.

Lemma run_load s p b : heap s !! p = Some b → load p s = (Ok b, s).
Proof. unfold load. by intros ->. Qed.

Lemma run_modify s p f :
  is_Some (heap s !! p) →
  modify_block p f s = (Ok tt, with_heap (updo (Some p) f (heap s)) s).
Proof.
  intros [b Hb]. unfold modify_block. rewrite Hb. f_equal. f_equal. unfold updo.
  apply map_eq. intros q. destruct (decide (p = q)) as [->|Hne].
  - by rewrite lookup_insert_eq, lookup_alter_eq, Hb.
  - by rewrite lookup_insert_ne, lookup_alter_ne.
Qed.

Lemma run_modify_if s p f :
  (∀ q, p = Some q → is_Some (heap s !! q)) →
  modify_if p f s = (Ok tt, with_heap (updo p f (heap s)) s).
Proof.
  intros H. destruct p as [q|]; simpl.
  - apply run_modify. by apply H.
  - unfold mret, ST_ret, updo. by destruct s.
Qed.

(** ** Rules for [chain] *)
Lemma chain_app m pb pf l k nb nf :
  chain m pb pf (l ++ k) nb nf ↔
  chain m pb pf l (head_loc k nb) (head_free k nf)
  ∧ chain m (last_loc l pb) (last_free l pf) k nb nf.
Proof.
  revert pb pf; induction l as [|x l IH]; intros pb pf; simpl; [naive_solver|].
  rewrite IH, head_loc_app, head_free_app. naive_solver.
Qed.

Lemma chain_frame m m' pb pf l nb nf :
  (∀ p, p ∈ locs l → m' !! p = m !! p) →
  chain m pb pf l nb nf → chain m' pb pf l nb nf.
Proof.
  revert pb pf; induction l as [|x l IH]; intros pb pf; simpl; [done|].
  intros Hm [Hx Hl]. split.
  - rewrite Hm by (by left). done.
  - apply IH; [|done]. intros p Hp. apply Hm. by right.
Qed.

Lemma chain_updo m p f pb pf l nb nf :
  (∀ q, p = Some q → q ∉ locs l) →
  chain m pb pf l nb nf → chain (updo p f m) pb pf l nb nf.
Proof.
  intros Hp. apply chain_frame. intros q Hq. apply updo_other. intros ->. by eapply Hp.
Qed.

Lemma chain_insert m n b pb pf l nb nf :
  n ∉ locs l → chain m pb pf l nb nf → chain (<[n := b]> m) pb pf l nb nf.
Proof.
  intros Hn. apply chain_frame. intros q Hq. apply lookup_insert_ne. by intros ->.
Qed.

Lemma chain_lookup m pb pf l nb nf p :
  chain m pb pf l nb nf → p ∈ locs l → is_Some (m !! p).
Proof.
  revert pb pf; induction l as [|x l IH]; intros pb pf; simpl; [set_solver|].
  intros [Hx Hl] [->|Hp]%elem_of_cons; [by eexists|]. by eapply IH.
Qed.

Lemma NoDup_locs_snoc l x : NoDup (locs (l ++ [x])) ↔ NoDup (locs l) ∧ sloc x ∉ locs l.
Proof.
  rewrite locs_app. simpl. rewrite NoDup_app. split.
  - intros (H1 & H2 & _). split; [done|]. intros Hin. apply (H2 _ Hin). by left.
  - intros [H1 H2]. repeat split; [done| |by apply NoDup_singleton].
    intros p Hp ->%list_elem_of_singleton. done.
Qed.

(** Retargeting the pointers that leave a piece at its four ends. *)
Lemma chain_nf m pb pf l nb nf nf' :
  NoDup (locs l) → chain m pb pf l nb nf →
  chain (updo (last_free l None) (set_next_free nf') m) pb pf l nb nf'.
Proof.
  revert nb nf nf'; induction l as [|x l IH] using rev_ind; intros nb nf nf'; [done|].
  intros [Hnd Hx]%NoDup_locs_snoc. rewrite !chain_app, last_free_app. simpl.
  intros (Hl & Hlk & _). destruct (sfree x) eqn:Hf.
  - split_and!; [|by rewrite updo_same, Hlk; unfold block_of; rewrite Hf|done].
    apply (chain_updo m (Some (sloc x))); [|done]. naive_solver.
  - split_and!; [by eapply IH| |done].
    rewrite updo_other, Hlk; [by unfold block_of; rewrite Hf|].
    intros Hp%last_free_in. done.
Qed.

Lemma chain_nb m pb pf l nb nf nb' :
  NoDup (locs l) → chain m pb pf l nb nf →
  chain (updo (last_loc l None) (set_next_block nb') m) pb pf l nb' nf.
Proof.
  destruct l as [|x l _] using rev_ind; [done|].
  intros [Hnd Hx]%NoDup_locs_snoc. rewrite !chain_app, last_loc_app. simpl.
  intros (Hl & Hlk & _). split_and!; [|by rewrite updo_same, Hlk|done].
  apply (chain_updo m (Some (sloc x))); [|done]. naive_solver.
Qed.

Lemma chain_pf m pb pf l nb nf pf' :
  NoDup (locs l) → chain m pb pf l nb nf →
  chain (updo (head_free l None) (set_prev_free pf') m) pb pf' l nb nf.
Proof.
  revert pb pf; induction l as [|x l IH]; intros pb pf; simpl; [done|].
  intros [Hx Hnd]%NoDup_cons [Hlk Hl]. destruct (sfree x) eqn:Hf.
  - split; [by rewrite updo_same, Hlk; unfold block_of; rewrite Hf|].
    apply chain_updo; [|done]. naive_solver.
  - split; [|by eapply IH].
    rewrite updo_other, Hlk; [by unfold block_of; rewrite Hf|].
    intros Hp%head_free_in. done.
Qed.

Lemma chain_pb m pb pf l nb nf pb' :
  NoDup (locs l) → chain m pb pf l nb nf →
  chain (updo (head_loc l None) (set_prev_block pb') m) pb' pf l nb nf.
Proof.
  destruct l as [|x l]; [done|]. simpl.
  intros [Hx Hnd]%NoDup_cons [Hlk Hl]. split; [by rewrite updo_same, Hlk|].
  apply (chain_updo m (Some (sloc x))); [|done]. naive_solver.
Qed.

(** The pieces around a segment. *)
Lemma chain_mid m l1 x l2 :
  chain m None None (l1 ++ x :: l2) None None ↔
  chain m None None l1 (Some (sloc x)) (head_free (x :: l2) None)
  ∧ m !! sloc x = Some (block_of (last_loc l1 None) (last_free l1 None) x
                          (head_loc l2 None) (head_free l2 None))
  ∧ chain m (Some (sloc x)) (last_free (l1 ++ [x]) None) l2 None None.
Proof. rewrite chain_app, last_free_app. simpl. done. Qed.

Lemma NoDup_mid l1 x l2 :
  NoDup (locs (l1 ++ x :: l2)) ↔
  NoDup (locs l1) ∧ NoDup (locs l2) ∧ sloc x ∉ locs l1 ∧ sloc x ∉ locs l2
  ∧ (∀ p, p ∈ locs l1 → p ∉ locs l2).
Proof.
  rewrite locs_app. simpl. rewrite NoDup_app, NoDup_cons. set_solver.
Qed.

(** An end pointer that is redirected exactly when it pointed to [x]. *)
Lemma ptr_eqb_refl p : ptr_eqb p p = true.
Proof. by apply bool_decide_eq_true_2. Qed.
Lemma ptr_eqb_ne p q : p ≠ q → ptr_eqb p q = false.
Proof. apply bool_decide_eq_false_2. Qed.
Lemma ptr_eqb_sym p q : ptr_eqb p q = ptr_eqb q p.
Proof. apply bool_decide_ext. by split. Qed.

Lemma redirect_head_loc l1 x l2 v :
  sloc x ∉ locs l1 →
  (if ptr_eqb (Some (sloc x)) (head_loc (l1 ++ x :: l2) None) then v
   else head_loc (l1 ++ x :: l2) None) = head_loc l1 v.
Proof.
  rewrite head_loc_app. intros Hx. destruct l1 as [|y l1]; simpl.
  - by rewrite ptr_eqb_refl.
  - rewrite ptr_eqb_ne; [done|]. set_solver.
Qed.
Lemma redirect_last_loc l1 x l2 v :
  sloc x ∉ locs l2 →
  (if ptr_eqb (Some (sloc x)) (last_loc (l1 ++ x :: l2) None) then v
   else last_loc (l1 ++ x :: l2) None) = last_loc l2 v.
Proof.
  rewrite last_loc_app. simpl. intros Hx.
  rewrite (last_loc_default l2 v), (last_loc_default l2 (Some _)).
  destruct (last_loc l2 None) as [p|] eqn:Hp; [|by rewrite ptr_eqb_refl].
  rewrite ptr_eqb_ne; [done|]. intros [= <-]. by apply last_loc_in in Hp.
Qed.
Lemma redirect_head_free l1 x l2 v :
  sfree x = true → sloc x ∉ locs l1 →
  (if ptr_eqb (Some (sloc x)) (head_free (l1 ++ x :: l2) None) then v
   else head_free (l1 ++ x :: l2) None) = head_free l1 v.
Proof.
  rewrite head_free_app. simpl. intros -> Hx.
  rewrite (head_free_default l1 v), (head_free_default l1 (Some _)).
  destruct (head_free l1 None) as [p|] eqn:Hp; [|by rewrite ptr_eqb_refl].
  rewrite ptr_eqb_ne; [done|]. intros [= <-]. by apply head_free_in in Hp.
Qed.
Lemma redirect_last_free l1 x l2 v :
  sfree x = true → sloc x ∉ locs l2 →
  (if ptr_eqb (Some (sloc x)) (last_free (l1 ++ x :: l2) None) then v
   else last_free (l1 ++ x :: l2) None) = last_free l2 v.
Proof.
  rewrite last_free_app. simpl. intros -> Hx.
  rewrite (last_free_default l2 v), (last_free_default l2 (Some _)).
  destruct (last_free l2 None) as [p|] eqn:Hp; [|by rewrite ptr_eqb_refl].
  rewrite ptr_eqb_ne; [done|]. intros [= <-]. by apply last_free_in in Hp.
Qed.

(** * The block operations of the free list, verified against [Rep]

    One lemma per pointer operation of [FreeList]: in a state that represents
    [l1 ++ x :: l2] the operation runs without an assertion or a memory error
    and the state it leaves represents the list the operation promises. *)
Definition set_used (x : seg) : seg := mk_seg (sloc x) (saddr x) (ssize x) false.

(** What [allocate_slice_of_free_block] turns the free segment [x] into;
    [n] is the next location the store hands out. *)
Definition carve (n : loc) (x : seg) (off sz : Z) : list seg :=
  if (off =? 0) && (sz =? ssize x) then [set_used x]
  else if off =? 0 then
    [mk_seg n (saddr x) sz false; mk_seg (sloc x) (saddr x + sz) (ssize x - sz) true]
  else if off + sz =? ssize x then
    [mk_seg (sloc x) (saddr x) off true; mk_seg n (saddr x + off) sz false]
  else
    [mk_seg (sloc x) (saddr x) off true; mk_seg n (saddr x + off) sz false;
     mk_seg (S n) (saddr x + off + sz) (ssize x - off - sz) true].

Definition carve_loc (n : loc) (x : seg) (off sz : Z) : loc :=
  if (off =? 0) && (sz =? ssize x) then sloc x else n.

(** The fields no block operation touches. *)
Record same_cfg (s s' : FreeList) : Prop := mk_same_cfg {
  cfg_max : max_size_bytes s' = max_size_bytes s;
  cfg_offset : offset_bytes s' = offset_bytes s;
  cfg_min : min_allocation_size s' = min_allocation_size s;
  cfg_align : alignment s' = alignment s;
  cfg_policy : search_policy_ s' = search_policy_ s
}.

#[export] Instance same_cfg_preorder : PreOrder same_cfg.
Proof.
  split; [done|]. intros s1 s2 s3 [] []. split; congruence.
Qed.

(** ** Facts available around a segment of a represented state *)
Section around.
  Context (s : FreeList) (l1 : list seg) (x : seg) (l2 : list seg).
  Context (HR : Rep s (l1 ++ x :: l2)).

Lemma around_lookup :
    heap s !! sloc x = Some (block_of (last_loc l1 None) (last_free l1 None) x
                               (head_loc l2 None) (head_free l2 None)).
  Proof. destruct HR as [Hc _ _ _ _ _]. by apply chain_mid in Hc as (_ & ? & _). Qed.

Lemma around_nodup :
    NoDup (locs l1) ∧ NoDup (locs l2) ∧ sloc x ∉ locs l1 ∧ sloc x ∉ locs l2
    ∧ (∀ p, p ∈ locs l1 → p ∉ locs l2).
  Proof. destruct HR as [_ Hn _ _ _ _]. by apply NoDup_mid. Qed.

Lemma around_some p :
    p ∈ locs (l1 ++ x :: l2) → is_Some (heap s !! p).
  Proof. intros Hp. eapply chain_lookup; [apply HR|done]. Qed.

Lemma around_some_l p : p ∈ locs l1 → is_Some (heap s !! p).
  Proof. intros Hp. apply around_some. rewrite locs_app. set_solver. Qed.
Lemma around_some_r p : p ∈ locs l2 → is_Some (heap s !! p).
  Proof. intros Hp. apply around_some. rewrite locs_app. set_solver. Qed.

Lemma around_fresh p : p ∈ locs (l1 ++ x :: l2) → (p < fresh_loc s)%nat.
  Proof. destruct HR as [_ _ Hf _ _ _]. rewrite Forall_forall in Hf. apply Hf. Qed.
End around.

(** [block_is_allocated] reads the abstract flag. *)
Lemma allocated_spec s l1 x l2 :
  Rep s (l1 ++ x :: l2) →
  block_is_allocated s (sloc x)
    (block_of (last_loc l1 None) (last_free l1 None) x (head_loc l2 None) (head_free l2 None))
  = negb (sfree x).
Proof.
  intros HR. pose proof (around_nodup _ _ _ _ HR) as (_ & _ & Hx1 & Hx2 & _).
  destruct HR as [_ _ _ _ Hfh Hft].
  unfold block_is_allocated, is_null, ptr_eqb. rewrite Hfh, Hft.
  rewrite head_free_app, last_free_app. simpl.
  destruct (sfree x) eqn:Hf; simpl.
  - destruct (last_free l1 None) as [p|] eqn:Hlf; [done|].
    destruct (head_free l2 None) as [q|] eqn:Hhf; [done|]. simpl.
    apply last_free_none in Hlf. apply head_free_none in Hlf.
    rewrite head_free_default, Hlf. rewrite bool_decide_eq_true_2 by done. done.
  - rewrite !bool_decide_eq_false_2; [done|apply not_eq_sym..]; auto with segs.
Qed.

Lemma run_is_allocated s l1 x l2 :
  Rep s (l1 ++ x :: l2) → is_allocated (sloc x) s = (Ok (negb (sfree x)), s).
Proof.
  intros HR. unfold is_allocated.
  st_step (run_load _ _ _ (around_lookup _ _ _ _ HR)).
  unfold mbind, ST_bind, get_st, mret, ST_ret. by rewrite (allocated_spec _ _ _ _ HR).
Qed.

(** ** Running the operations symbolically *)
Definition frame (s s' : FreeList) : Prop :=
  same_cfg s s' ∧ lowest_occupied_address_ s' = lowest_occupied_address_ s.

#[export] Instance frame_preorder : PreOrder frame.
Proof.
  split; [done|]. intros s1 s2 s3 [H1 H1'] [H2 H2']. split; [by etrans|congruence].
Qed.

(** A guarded assignment to one of the four list ends. *)
Lemma run_if_head {A} (c : bool) p (k : unit → ST FreeList A) s :
  ((if c then modify_st (set_block_head p) else mret tt) ≫= k) s
  = k tt (set_block_head (if c then p else block_head_ s) s).
Proof. by destruct c, s. Qed.
Lemma run_if_tail {A} (c : bool) p (k : unit → ST FreeList A) s :
  ((if c then modify_st (set_block_tail p) else mret tt) ≫= k) s
  = k tt (set_block_tail (if c then p else block_tail_ s) s).
Proof. by destruct c, s. Qed.
Lemma run_if_fhead {A} (c : bool) p (k : unit → ST FreeList A) s :
  ((if c then modify_st (set_free_head p) else mret tt) ≫= k) s
  = k tt (set_free_head (if c then p else free_block_head_ s) s).
Proof. by destruct c, s. Qed.
Lemma run_if_ftail {A} (c : bool) p (k : unit → ST FreeList A) s :
  ((if c then modify_st (set_free_tail p) else mret tt) ≫= k) s
  = k tt (set_free_tail (if c then p else free_block_tail_ s) s).
Proof. by destruct c, s. Qed.

Lemma run_skip_ret {A B} (a : A) (k : A → ST FreeList B) s : (mret a ≫= k) s = k a s.
Proof. done. Qed.

Lemma run_skip {A} (k : unit → ST FreeList A) s : (mret tt ≫= k) s = k tt s.
Proof. done. Qed.

Lemma run_make {A} b (k : loc → ST FreeList A) s :
  (make_block b ≫= k) s = k (fresh_loc s) (make_block b s).2.
Proof. done. Qed.

(** An end of a list of segments is not a given location outside the list. *)
Ltac ptr_ne :=
  simpl;
  solve [ congruence
        | first [apply last_free_ne | apply head_free_ne | apply last_loc_ne | apply head_loc_ne];
          (assumption || congruence || auto) ].

(** Where a possibly null pointer points, it does not point into the list. *)
Ltac ptr_out :=
  let q := fresh "q" in let Hq := fresh "Hq" in
  intros q Hq;
  first [ injection Hq as <-; solve [auto]
        | first [apply last_free_in in Hq | apply head_free_in in Hq
                | apply last_loc_in in Hq | apply head_loc_in in Hq]; solve [auto] ].
Ltac block_eq :=
  unfold block_of, set_address, set_size, set_prev_block, set_next_block,
    set_prev_free, set_next_free;
  simpl; autorewrite with segs; simpl; unwrap;
  first [reflexivity | f_equal; f_equal; lia].
Ltac solve_lookup :=
  simpl;
  repeat (first [ rewrite updo_same | rewrite lookup_insert_eq
                | (rewrite updo_other by ptr_ne) | (rewrite lookup_insert_ne by ptr_ne) ]);
  first [ eassumption | reflexivity
        | try match goal with H : _ !! _ = Some _ |- _ => rewrite H end;
          first [reflexivity | block_eq] ].
Ltac solve_some :=
  simpl; repeat apply updo_is_some; (eassumption || eauto with segs || solve [eexists; eassumption]).
Ltac st_load := erewrite ST_bind_ok; [|apply run_load; solve_lookup].
Ltac st_mod := erewrite ST_bind_ok; [|apply run_modify; solve_some].
Ltac st_mod_if := erewrite ST_bind_ok; [|apply run_modify_if; intros; solve_some].

Lemma set_used_locs l1 x l2 : locs (l1 ++ set_used x :: l2) = locs (l1 ++ x :: l2).
Proof. by rewrite !locs_app. Qed.

Section around_fresh.
  Context (s : FreeList) (l1 : list seg) (x : seg) (l2 : list seg).
  Context (HR : Rep s (l1 ++ x :: l2)).

  (** A location not handed out yet is none of the list's. *)
Lemma fresh_out n :
    (fresh_loc s ≤ n)%nat → n ∉ locs l1 ∧ n ∉ locs l2 ∧ n ≠ sloc x.
  Proof.
    intros Hn. pose proof (around_fresh _ _ _ _ HR) as Hf.
    rewrite locs_app in Hf. simpl in Hf.
    assert (Hout : ∀ p, p ∈ locs l1 ++ sloc x :: locs l2 → p ≠ n).
    { intros p Hp%Hf ->. lia. }
    split_and!; [intros Hin|intros Hin|intros Hin]; eapply Hout; try done; set_solver.
  Qed.
End around_fresh.

(** Discharge the part of a [chain] goal that the outermost updates leave alone. *)
Ltac chain_strip :=
  repeat ((apply chain_updo; [ptr_out|]) || (apply chain_insert; [assumption|])).

(** The pieces of a represented state around [x], named for the proofs below. *)
Ltac open_rep HR Hx :=
  pose proof (around_lookup _ _ _ _ HR) as Hx;
  pose proof (around_nodup _ _ _ _ HR) as (Hn1 & Hn2 & Hx1 & Hx2 & H12);
  assert (H21 : ∀ p, p ∈ locs _ → p ∉ locs _) by (intros p Hp2 Hp1; exact (H12 p Hp1 Hp2));
  pose proof (around_some_l _ _ _ _ HR) as Hs1;
  pose proof (around_some_r _ _ _ _ HR) as Hs2;
  pose proof (proj1 (chain_mid _ _ _ _) (rep_chain _ _ HR)) as (Hc1 & _ & Hc2);
  rewrite last_free_app in Hc2; simpl in Hc1, Hc2.

Lemma run_allocate_entire s l1 x l2 :
  Rep s (l1 ++ x :: l2) → sfree x = true →
  ∃ s', allocate_entire_free_block (sloc x) s = (Ok tt, s')
    ∧ Rep s' (l1 ++ set_used x :: l2) ∧ frame s s' ∧ fresh_loc s' = fresh_loc s.
Proof.
  intros HR Hf. open_rep HR Hx.
  unfold allocate_entire_free_block.
  st_step (run_is_allocated _ _ _ _ HR). rewrite run_check by (by rewrite Hf).
  unfold block_of in Hx. rewrite Hf in Hx.
  st_load. simpl. st_mod_if. st_load. simpl. st_mod_if. st_load. simpl.
  rewrite run_get, run_if_fhead, run_get, run_if_ftail. simpl.
  st_mod. erewrite run_modify by solve_some. simpl.
  eexists; split; [done|]. split; [|done].
  destruct HR as [_ HRn HRf HRbh HRfh HRft].
  split; simpl; rewrite ?set_used_locs; try done.
  - apply chain_mid. split_and!.
    + chain_strip. by eapply chain_nf.
    + solve_lookup.
    + rewrite last_free_app. simpl. chain_strip.
      eapply chain_pf; [done|]. chain_strip. done.
  - rewrite HRbh, !head_loc_app. done.
  - rewrite HRfh, redirect_head_free, head_free_app by done. done.
  - rewrite HRft, redirect_last_free, last_free_app by done. done.
Qed.

(** The list of locations after [c] new blocks were cut out of [x]. *)
Lemma carve_rep_locs s l1 x l2 k c :
  Rep s (l1 ++ x :: l2) →
  locs k ≡ₚ sloc x :: seq (fresh_loc s) c →
  NoDup (locs (l1 ++ k ++ l2))
  ∧ Forall (λ p, p < fresh_loc s + c)%nat (locs (l1 ++ k ++ l2)).
Proof.
  intros HR Hk.
  assert (Hp : locs (l1 ++ k ++ l2) ≡ₚ locs (l1 ++ x :: l2) ++ seq (fresh_loc s) c).
  { rewrite !locs_app, Hk. simpl. solve_Permutation. }
  rewrite Hp. destruct HR as [_ Hnd Hf _ _ _]. rewrite Forall_forall in Hf. split.
  - apply NoDup_app. split_and!; [done| |apply NoDup_seq].
    intros p Hp1 Hp2%elem_of_seq. apply Hf in Hp1. lia.
  - rewrite Forall_app, !Forall_forall. split; intros p Hp1.
    + apply Hf in Hp1. lia.
    + apply elem_of_seq in Hp1. lia.
Qed.

Lemma run_update_left s l1 x l2 sz :
  Rep s (l1 ++ x :: l2) → sfree x = true →
  0 <= saddr x → 0 < sz < ssize x → saddr x + ssize x < 18446744073709551616 →
  ∃ s', update_left_aligned_allocated_block_connections (sloc x) (fresh_loc s)
          (make_block (mk_block (saddr x) sz None None None None) s).2 = (Ok tt, s')
    ∧ Rep s' (l1 ++ [mk_seg (fresh_loc s) (saddr x) sz false;
                     mk_seg (sloc x) (saddr x + sz) (ssize x - sz) true] ++ l2)
    ∧ frame s s'.
Proof.
  intros HR Hf Ha Hsz Hend. open_rep HR Hx.
  destruct (fresh_out _ _ _ _ HR (fresh_loc s) ltac:(lia)) as (Hq1 & Hq2 & Hqx).
  unfold update_left_aligned_allocated_block_connections, make_block.
  unfold block_of in Hx. rewrite Hf in Hx.
  st_load. simpl. st_mod. st_mod. st_load. simpl. st_mod_if.
  rewrite run_get, run_if_head. simpl. st_mod. st_load. simpl. st_mod.
  erewrite run_modify by solve_some. simpl.
  eexists; split; [done|]. split; [|done]. unwrap.
  destruct (carve_rep_locs s l1 x l2
    [mk_seg (fresh_loc s) (saddr x) sz false; mk_seg (sloc x) (saddr x + sz) (ssize x - sz) true]
    1 HR ltac:(apply Permutation_swap)) as [HN HF].
  split; simpl.
  - apply chain_mid. split_and!.
    + chain_strip. eapply chain_nb; [done|]. chain_strip. by rewrite Hf in Hc1.
    + solve_lookup.
    + simpl. split; [solve_lookup|]. chain_strip. by rewrite Hf in Hc2.
  - done.
  - by replace (S (fresh_loc s)) with (fresh_loc s + 1)%nat by lia.
  - rewrite (rep_block_head _ _ HR), redirect_head_loc by done. by rewrite head_loc_app.
  - rewrite (rep_free_head _ _ HR), !head_free_app. simpl. by rewrite Hf.
  - rewrite (rep_free_tail _ _ HR), !last_free_app. simpl. by rewrite Hf.
Qed.

Lemma run_update_right s l1 x l2 off sz :
  Rep s (l1 ++ x :: l2) → sfree x = true →
  0 <= saddr x → 0 < off → 0 < sz → off + sz = ssize x →
  saddr x + ssize x < 18446744073709551616 →
  ∃ s', update_right_aligned_allocated_block_connections (sloc x) (fresh_loc s)
          (make_block (mk_block (saddr x + off) sz None None None None) s).2 = (Ok tt, s')
    ∧ Rep s' (l1 ++ [mk_seg (sloc x) (saddr x) off true;
                     mk_seg (fresh_loc s) (saddr x + off) sz false] ++ l2)
    ∧ frame s s'.
Proof.
  intros HR Hf Ha Hoff Hsz Hos Hend. open_rep HR Hx.
  destruct (fresh_out _ _ _ _ HR (fresh_loc s) ltac:(lia)) as (Hq1 & Hq2 & Hqx).
  unfold update_right_aligned_allocated_block_connections, make_block.
  unfold block_of in Hx. rewrite Hf in Hx.
  st_mod. st_load. simpl. st_mod. st_load. simpl. st_mod_if.
  rewrite run_get, run_if_tail. simpl. st_mod. st_load. simpl.
  erewrite run_modify by solve_some. simpl.
  eexists; split; [done|]. split; [|done].
  destruct (carve_rep_locs s l1 x l2
    [mk_seg (sloc x) (saddr x) off true; mk_seg (fresh_loc s) (saddr x + off) sz false]
    1 HR ltac:(done)) as [HN HF].
  split; simpl.
  - apply chain_mid. split_and!.
    + chain_strip. by rewrite Hf in Hc1.
    + replace off with (ssize x - sz) by lia. solve_lookup.
    + simpl. split; [solve_lookup|]. chain_strip.
      eapply chain_pb; [done|]. chain_strip.
      rewrite last_free_app. simpl. by rewrite Hf in Hc2.
  - done.
  - by replace (S (fresh_loc s)) with (fresh_loc s + 1)%nat by lia.
  - rewrite (rep_block_head _ _ HR), !head_loc_app. done.
  - rewrite (rep_free_head _ _ HR), !head_free_app. simpl. by rewrite Hf.
  - rewrite (rep_free_tail _ _ HR), !last_free_app. simpl. by rewrite Hf.
Qed.

Lemma run_split_middle s l1 x l2 off sz :
  Rep s (l1 ++ x :: l2) → sfree x = true →
  0 <= saddr x → 0 < off → 0 < sz → off + sz < ssize x →
  saddr x + ssize x < 18446744073709551616 →
  ∃ s', split_middle (sloc x) (fresh_loc s) off sz
          (make_block (mk_block (saddr x + off) sz None None None None) s).2 = (Ok tt, s')
    ∧ Rep s' (l1 ++ [mk_seg (sloc x) (saddr x) off true;
                     mk_seg (fresh_loc s) (saddr x + off) sz false;
                     mk_seg (S (fresh_loc s)) (saddr x + off + sz) (ssize x - off - sz) true] ++ l2)
    ∧ frame s s'.
Proof.
  intros HR Hf Ha Hoff Hsz Hos Hend. open_rep HR Hx.
  destruct (fresh_out _ _ _ _ HR (fresh_loc s) ltac:(lia)) as (Hq1 & Hq2 & Hqx).
  destruct (fresh_out _ _ _ _ HR (S (fresh_loc s)) ltac:(lia)) as (Hr1 & Hr2 & Hrx).
  assert (Hqr : fresh_loc s ≠ S (fresh_loc s)) by lia.
  unfold split_middle.
  unfold block_of in Hx. rewrite Hf in Hx.
  st_load. simpl. rewrite run_make. simpl. st_mod_if. st_load. simpl. st_mod_if.
  rewrite run_get, (ptr_eqb_sym (free_block_tail_ _)), run_if_ftail.
  rewrite run_get, (ptr_eqb_sym (block_tail_ _)), run_if_tail. simpl.
  st_mod. st_mod. st_mod. st_mod. st_load. simpl. st_load. simpl.
  erewrite run_modify by solve_some. simpl.
  eexists; split; [done|]. split; [|done].
  destruct (carve_rep_locs s l1 x l2
    [mk_seg (sloc x) (saddr x) off true; mk_seg (fresh_loc s) (saddr x + off) sz false;
     mk_seg (S (fresh_loc s)) (saddr x + off + sz) (ssize x - off - sz) true]
    2 HR ltac:(done)) as [HN HF].
  split; simpl.
  - apply chain_mid. split_and!.
    + chain_strip. by rewrite Hf in Hc1.
    + solve_lookup.
    + simpl. split_and!; [solve_lookup..|]. chain_strip.
      eapply chain_pf; [done|]. chain_strip. eapply chain_pb; [done|]. chain_strip. done.
  - done.
  - by replace (S (S (fresh_loc s))) with (fresh_loc s + 2)%nat by lia.
  - rewrite (rep_block_head _ _ HR), !head_loc_app. done.
  - rewrite (rep_free_head _ _ HR), !head_free_app. simpl. by rewrite Hf.
  - rewrite (rep_free_tail _ _ HR), redirect_last_free, last_free_app by done. done.
Qed.

Lemma run_allocate_slice s l1 x l2 off sz :
  Rep s (l1 ++ x :: l2) → sfree x = true →
  0 <= saddr x → 0 <= off → 0 < sz → off + sz <= ssize x →
  saddr x + ssize x < 18446744073709551616 →
  ∃ s', allocate_slice_of_free_block (sloc x) off sz s
          = (Ok (carve_loc (fresh_loc s) x off sz), s')
    ∧ Rep s' (l1 ++ carve (fresh_loc s) x off sz ++ l2) ∧ frame s s'.
Proof.
  intros HR Hf Ha Hoff Hsz Hle Hend. unfold allocate_slice_of_free_block.
  st_step (run_load _ _ _ (around_lookup _ _ _ _ HR)). simpl. unwrap.
  rewrite run_check by (apply Z.leb_le; lia).
  unfold carve, carve_loc. destruct (Z.eqb_spec off 0) as [->|Hno]; simpl.
  - destruct (Z.eqb_spec sz (ssize x)) as [->|Hns]; simpl.
    + destruct (run_allocate_entire _ _ _ _ HR Hf) as (s' & Hrun & HR' & Hfr & _).
      cbv beta iota; st_step Hrun; exists s'; done.
    + rewrite run_make, (Z.add_0_r (saddr x)).
      rewrite (proj2 (Z.ltb_lt sz (ssize x))) by lia. rewrite run_check by done.
      destruct (run_update_left s l1 x l2 sz) as (s' & Hrun & HR' & Hfr); [done|done|lia..|].
      cbv beta iota; st_step Hrun; exists s'; done.
  - rewrite run_make. rewrite (proj2 (Z.ltb_lt 0 off)) by lia. simpl.
    case_bool; try lia; simpl; rewrite run_check by done.
    + destruct (run_split_middle s l1 x l2 off sz) as (s' & Hrun & HR' & Hfr); [done|done|lia..|].
      cbv beta iota. erewrite ST_bind_ok; [|rewrite run_check by done; apply Hrun].
      exists s'; done.
    + destruct (run_update_right s l1 x l2 off sz) as (s' & Hrun & HR' & Hfr); [done|done|lia..|].
      cbv beta iota; st_step Hrun; exists s'; done.
Qed.

(** ** Walks along the block list *)
Lemma Rep_length s l : Rep s l → (length l ≤ fresh_loc s)%nat.
Proof.
  intros [_ Hnd Hf _ _ _].
  rewrite <- (length_fmap sloc l), <- (length_seq (fresh_loc s) 0).
  apply submseteq_length, NoDup_submseteq; [done|].
  intros p Hp. apply elem_of_seq. rewrite Forall_forall in Hf. apply Hf in Hp. lia.
Qed.

(** The first segment whose flag is [f], going forward. *)
Fixpoint head_flag (f : bool) (l : list seg) : option loc :=
  match l with
  | [] => None
  | x :: l => if eqb (sfree x) f then Some (sloc x) else head_flag f l
  end.

Lemma head_flag_free l : head_flag true l = head_free l None.
Proof. induction l as [|x l IH]; simpl; [done|]. rewrite IH. by destruct (sfree x). Qed.

Lemma run_walk_forward s l1 l2 fuel skip :
  Rep s (l1 ++ l2) → (length l2 ≤ fuel)%nat →
  walk_while fuel skip true (head_loc l2 None) s = (Ok (head_flag skip l2), s).
Proof.
  revert l1 fuel; induction l2 as [|x l2 IH]; intros l1 fuel HR Hfuel; [by destruct fuel|].
  destruct fuel as [|fuel]; simpl in *; [lia|].
  st_step (run_is_allocated _ _ _ _ HR).
  destruct (sfree x) eqn:Hf, skip; simpl; try done;
    st_step (run_load _ _ _ (around_lookup _ _ _ _ HR)); simpl;
    apply (IH (l1 ++ [x])); [by rewrite <- (assoc app)|lia|by rewrite <- (assoc app)|lia].
Qed.

Lemma run_walk_back s l1 l2 fuel :
  Rep s (l1 ++ l2) → (length l1 ≤ fuel)%nat →
  walk_while fuel true false (last_loc l1 None) s = (Ok (last_free l1 None), s).
Proof.
  revert l2 fuel; induction l1 as [|x l1 IH] using rev_ind; intros l2 fuel HR Hfuel;
    [by destruct fuel|].
  rewrite length_app in Hfuel. simpl in Hfuel.
  destruct fuel as [|fuel]; [lia|]. rewrite last_loc_app, last_free_app.
  rewrite <- (assoc app) in HR. simpl in *.
  st_step (run_is_allocated _ _ _ _ HR). destruct (sfree x) eqn:Hf; simpl; [done|].
  st_step (run_load _ _ _ (around_lookup _ _ _ _ HR)). simpl.
  eapply IH; [done|lia].
Qed.

(** ** Deallocation *)
Definition set_free (x : seg) : seg := mk_seg (sloc x) (saddr x) (ssize x) true.
(** [x] enlarged by its right neighbour [y], and free. *)
Definition absorb (x y : seg) : seg := mk_seg (sloc x) (saddr x) (ssize x + ssize y) true.

Lemma run_link_prev {A} p f v (k : unit → ST FreeList A) s :
  (∀ q, p = Some q → is_Some (heap s !! q)) →
  ((match p with
    | Some q => modify_block q f
    | None => modify_st (set_free_head v)
    end) ≫= k) s
  = k tt (set_free_head (match p with Some _ => free_block_head_ s | None => v end)
            (with_heap (updo p f (heap s)) s)).
Proof.
  intros H. destruct p as [q|]; [|by destruct s].
  erewrite ST_bind_ok; [|apply run_modify; by apply H]. by destruct s.
Qed.

Lemma run_link_next p f v s :
  (∀ q, p = Some q → is_Some (heap s !! q)) →
  (match p with
   | Some q => modify_block q f
   | None => modify_st (set_free_tail v)
   end) s
  = (Ok tt, set_free_tail (match p with Some _ => free_block_tail_ s | None => v end)
            (with_heap (updo p f (heap s)) s)).
Proof.
  intros H. destruct p as [q|]; [|by destruct s].
  rewrite run_modify by (by apply H). by destruct s.
Qed.

Lemma set_free_locs l1 x l2 : locs (l1 ++ set_free x :: l2) = locs (l1 ++ x :: l2).
Proof. by rewrite !locs_app. Qed.

Lemma run_insert_free s l1 x l2 :
  Rep s (l1 ++ x :: l2) → sfree x = false →
  ∃ s', insert_free (sloc x) s = (Ok tt, s')
    ∧ Rep s' (l1 ++ set_free x :: l2) ∧ frame s s'.
Proof.
  intros HR Hf. open_rep HR Hx. pose proof (Rep_length _ _ HR) as Hlen.
  rewrite length_app in Hlen. simpl in Hlen.
  assert (HR2 : Rep s ((l1 ++ [x]) ++ l2)) by (by rewrite <- (assoc app)).
  unfold insert_free. unfold block_of in Hx. rewrite Hf in Hx.
  st_load. simpl. rewrite run_get.
  st_step (run_walk_back _ _ _ (chain_fuel s) HR ltac:(unfold chain_fuel; lia)).
  st_load. simpl.
  st_step (run_walk_forward _ _ _ (chain_fuel s) true HR2 ltac:(unfold chain_fuel; lia)).
  rewrite head_flag_free. st_mod.
  rewrite run_link_prev by (intros; solve_some). simpl. st_mod.
  rewrite run_link_next by (intros; solve_some). simpl.
  eexists; split; [done|]. split; [|done].
  split; simpl; rewrite ?set_free_locs; try apply HR.
  - apply chain_mid. rewrite last_free_app. simpl. rewrite Hf in Hc1, Hc2. split_and!.
    + chain_strip. eapply chain_nf; [done|]. chain_strip. done.
    + solve_lookup.
    + eapply chain_pf; [done|]. chain_strip. done.
  - rewrite (rep_block_head _ _ HR), !head_loc_app. done.
  - rewrite (rep_free_head _ _ HR), !head_free_app. simpl. rewrite Hf. apply link_head.
  - rewrite (rep_free_tail _ _ HR), !last_free_app. simpl. rewrite Hf. apply link_tail.
Qed.

(** Two neighbours. *)
Lemma app_comm_snoc {A} (l1 : list A) x l2 : l1 ++ x :: l2 = (l1 ++ [x]) ++ l2.
Proof. by rewrite <- (assoc app). Qed.

Lemma around2_nodup s l1 x y l2 :
  Rep s (l1 ++ x :: y :: l2) →
  NoDup (locs l1) ∧ NoDup (locs l2) ∧ sloc x ∉ locs l1 ∧ sloc x ∉ locs l2
  ∧ sloc y ∉ locs l1 ∧ sloc y ∉ locs l2 ∧ sloc x ≠ sloc y
  ∧ (∀ p, p ∈ locs l1 → p ∉ locs l2) ∧ (∀ p, p ∈ locs l2 → p ∉ locs l1).
Proof.
  intros HR. apply around_nodup in HR as (H1 & H2 & H3 & H4 & H5). simpl in *.
  apply NoDup_cons in H2 as [H2 H2']. set_solver.
Qed.

Lemma around2_chain s l1 x y l2 :
  Rep s (l1 ++ x :: y :: l2) →
  chain (heap s) None None l1 (Some (sloc x)) (head_free (x :: y :: l2) None)
  ∧ heap s !! sloc x = Some (block_of (last_loc l1 None) (last_free l1 None) x
                               (Some (sloc y)) (head_free (y :: l2) None))
  ∧ heap s !! sloc y = Some (block_of (Some (sloc x)) (last_free (l1 ++ [x]) None) y
                               (head_loc l2 None) (head_free l2 None))
  ∧ chain (heap s) (Some (sloc y)) (last_free (l1 ++ [x; y]) None) l2 None None.
Proof.
  intros HR. pose proof (rep_chain _ _ HR) as Hc.
  apply chain_app in Hc as [H1 [H2 [H3 H4]]]. split_and!; try done.
  - by rewrite last_free_app.
  - by rewrite last_free_app.
Qed.

Lemma around2_some s l1 x y l2 :
  Rep s (l1 ++ x :: y :: l2) →
  (∀ p, p ∈ locs l1 → is_Some (heap s !! p)) ∧ (∀ p, p ∈ locs l2 → is_Some (heap s !! p)).
Proof.
  intros HR. split; intros p Hp; eapply around_some; try done;
    rewrite locs_app; set_solver.
Qed.

Lemma absorb_rep_locs s l1 x y l2 :
  Rep s (l1 ++ x :: y :: l2) →
  NoDup (locs (l1 ++ absorb x y :: l2))
  ∧ Forall (λ p, p < fresh_loc s)%nat (locs (l1 ++ absorb x y :: l2)).
Proof.
  intros HR.
  pose proof (rep_nodup _ _ HR) as Hn. pose proof (rep_fresh _ _ HR) as Hf.
  rewrite locs_app in *. simpl in *. rewrite Forall_app, !Forall_cons in *.
  apply NoDup_app in Hn as (? & ? & (? & [??]%NoDup_cons)%NoDup_cons).
  split; [|naive_solver]. apply NoDup_app. split_and!; [done|set_solver|].
  apply NoDup_cons. set_solver.
Qed.

Ltac open_rep2 HR :=
  pose proof (around2_nodup _ _ _ _ _ HR) as (Hn1 & Hn2 & Hx1 & Hx2 & Hy1 & Hy2 & Hxy & H12 & H21);
  pose proof (around2_chain _ _ _ _ _ HR) as (Hc1 & Hx & Hy & Hc2);
  pose proof (around2_some _ _ _ _ _ HR) as (Hs1 & Hs2);
  pose proof (absorb_rep_locs _ _ _ _ _ HR) as (HN & HF);
  rewrite last_free_app in Hy; rewrite last_free_app in Hc2;
  unfold block_of in Hx, Hy; simpl in Hc1, Hx, Hy, Hc2.

Lemma run_merge_prev s l1 x y l2 :
  Rep s (l1 ++ x :: y :: l2) → sfree x = true → sfree y = false →
  0 <= ssize x → 0 <= ssize y → ssize x + ssize y < 18446744073709551616 →
  ∃ s', merge_prev (sloc y) (Some (sloc x)) s = (Ok (sloc x, true), s')
    ∧ Rep s' (l1 ++ absorb x y :: l2) ∧ frame s s'.
Proof.
  intros HR Hfx Hfy Hsx Hsy Hsum. open_rep2 HR.
  unfold merge_prev. st_step (run_is_allocated _ _ _ _ HR). rewrite Hfx in *. simpl.
  rewrite Hfy in *.
  st_load. simpl. st_mod. st_load. simpl. st_mod_if. st_load. simpl. st_mod.
  eexists; split; [done|]. split; [|done].
  split; simpl; try done.
  - apply chain_mid. split_and!.
    + chain_strip. done.
    + solve_lookup.
    + rewrite last_free_app. simpl. chain_strip. eapply chain_pb; [done|]. chain_strip. done.
  - rewrite (rep_block_head _ _ HR), !head_loc_app. done.
  - rewrite (rep_free_head _ _ HR), !head_free_app. simpl. by rewrite Hfx.
  - rewrite (rep_free_tail _ _ HR), !last_free_app. simpl. by rewrite Hfx, Hfy.
Qed.

Lemma run_merge_next s l1 x y l2 :
  Rep s (l1 ++ x :: y :: l2) → sfree y = true →
  0 <= ssize x → 0 <= ssize y → ssize x + ssize y < 18446744073709551616 →
  ∃ s', merge_next (sloc x) (sfree x) (Some (sloc y)) s = (Ok true, s')
    ∧ Rep s' (l1 ++ absorb x y :: l2) ∧ frame s s'.
Proof.
  intros HR Hfy Hsx Hsy Hsum. open_rep2 HR.
  assert (HR' : Rep s ((l1 ++ [x]) ++ y :: l2)) by (by rewrite <- (assoc app)).
  unfold merge_next. st_step (run_is_allocated _ _ _ _ HR'). rewrite Hfy in *. simpl.
  destruct (sfree x) eqn:Hfx.
  - st_load. simpl. st_mod. st_load. simpl. st_mod_if. st_load. simpl.
    rewrite run_get, run_if_fhead, run_get, run_if_ftail. simpl.
    st_mod. st_load. simpl. st_mod_if. rewrite run_skip. st_load. simpl. st_mod.
    eexists; split; [done|]. split; [|done].
    split; simpl; try done.
    + apply chain_mid. split_and!.
      * chain_strip. done.
      * solve_lookup.
      * rewrite last_free_app. simpl. chain_strip. eapply chain_pf; [done|]. chain_strip.
        eapply chain_pb; [done|]. chain_strip. done.
    + rewrite (rep_block_head _ _ HR), !head_loc_app. done.
    + rewrite (rep_free_head _ _ HR), !head_free_app. simpl. rewrite Hfx.
      rewrite ptr_eqb_ne; [done|]. apply not_eq_sym, head_free_ne; congruence.
    + rewrite (rep_free_tail _ _ HR).
      rewrite (app_comm_snoc l1 x), redirect_last_free, !last_free_app by done. done.
  - st_load. simpl. st_mod. st_load. simpl. st_mod_if. st_load. simpl.
    rewrite run_get, run_if_fhead, run_get, run_if_ftail. simpl.
    st_mod. st_load. simpl. st_mod_if.
    rewrite ST_bind_assoc. st_load. simpl. rewrite ST_bind_assoc. st_mod.
    rewrite ST_bind_assoc. st_load. simpl. st_mod_if. st_load. simpl. st_mod.
    eexists; split; [done|]. split; [|done].
    split; simpl; try done.
    + apply chain_mid. split_and!.
      * chain_strip. eapply chain_nf; [done|]. chain_strip. done.
      * solve_lookup.
      * rewrite last_free_app. simpl. chain_strip. eapply chain_pf; [done|]. chain_strip.
        eapply chain_pb; [done|]. chain_strip. done.
    + rewrite (rep_block_head _ _ HR), !head_loc_app. done.
    + rewrite (rep_free_head _ _ HR), (app_comm_snoc l1 x), redirect_head_free,
        !head_free_app; try done.
      * simpl. by rewrite Hfx.
      * rewrite locs_app. set_solver.
    + rewrite (rep_free_tail _ _ HR), (app_comm_snoc l1 x), redirect_last_free,
        !last_free_app by done. done.
Qed.
