(* ===== verification/FreeListThms.v ===== *)
(** * What the free-list allocator promises

    The abstract state of an allocator is the address-ordered list of its
    segments.  [Inv] is the allocator's invariant: the store represents the
    list, the segments tile [0 .. max_size), sizes are aligned and no two free
    segments are neighbours.  The searches of the source are related to
    searches over the list of free segments. *)
From S2P Require Import Prelude FreeList FreeListOps.
(** ** Abstract views *)
Fixpoint frees (l : list seg) : list seg :=
  match l with [] => [] | x :: l => if sfree x then x :: frees l else frees l end.
Fixpoint useds (l : list seg) : list seg :=
  match l with [] => [] | x :: l => if sfree x then useds l else x :: useds l end.

(** The live allocations, as (address, size), in address order. *)
Definition allocs (l : list seg) : list (Z * Z) := (λ x, (saddr x, ssize x)) <$> useds l.
(** Address, size and state of every block: everything but the store locations. *)
Definition view (l : list seg) : list (Z * Z * bool) :=
  (λ x, (saddr x, ssize x, sfree x)) <$> l.

Fixpoint tiles (a : Z) (l : list seg) (e : Z) : Prop :=
  match l with
  | [] => a = e
  | x :: l => saddr x = a ∧ 0 < ssize x ∧ tiles (a + ssize x) l e
  end.

(** No two neighbours are free; [b] says whether a free block comes before. *)
Fixpoint coalesced (b : bool) (l : list seg) : Prop :=
  match l with [] => True | x :: l => b && sfree x = false ∧ coalesced (sfree x) l end.

(** The configurations an allocator is built with. *)
Record cfg_ok (s : FreeList) : Prop := mk_cfg_ok {
  ok_align : 0 < alignment s;
  ok_max : 0 < max_size_bytes s;
  ok_offset : 0 <= offset_bytes s;
  ok_min : 0 < min_allocation_size s;
  ok_max_align : (alignment s | max_size_bytes s);
  ok_offset_align : (alignment s | offset_bytes s);
  ok_bound : max_size_bytes s + offset_bytes s < 18446744073709551616
}.

Record Inv (s : FreeList) (l : list seg) : Prop := mk_Inv {
  inv_rep : Rep s l;
  inv_cfg : cfg_ok s;
  inv_tiles : tiles 0 l (max_size_bytes s);
  inv_coalesced : coalesced false l;
  inv_aligned : Forall (λ x, (alignment s | ssize x)) l
}.

(** [lowest_occupied_address_] is the address of the first allocation. *)
Definition lowest_ok (s : FreeList) (l : list seg) : Prop :=
  lowest_occupied_address_ s = head (fst <$> allocs l).

(** ** Abstract searches *)
Definition free_order (bottom_up : bool) (l : list seg) : list seg :=
  if bottom_up then frees l else reverse (frees l).

Fixpoint pick_first (sz : Z) (fl : list seg) : option seg :=
  match fl with [] => None | x :: fl => if sz <=? ssize x then Some x else pick_first sz fl end.

Fixpoint pick_best (sz : Z) (best : option seg) (fl : list seg) : option seg :=
  match fl with
  | [] => best
  | x :: fl =>
    if ssize x =? sz then Some x
    else if sz <=? ssize x then
      match best with
      | None => pick_best sz (Some x) fl
      | Some y => pick_best sz (if ssize x <? ssize y then Some x else best) fl
      end
    else pick_best sz best fl
  end.

Definition pick (policy : SearchPolicy) (sz : Z) (bottom_up : bool) (l : list seg) : option seg :=
  match policy with
  | BEST => pick_best sz None (free_order bottom_up l)
  | FIRST => pick_first sz (free_order bottom_up l)
  end.

(** [x] has room for [sz] bytes starting at [start]. *)
Definition fits_at (start sz : Z) (x : seg) : bool :=
  (saddr x <=? start) && (start + sz <=? saddr x + ssize x).

Fixpoint pick_at (start sz : Z) (fl : list seg) : option seg :=
  match fl with [] => None | x :: fl => if fits_at start sz x then Some x else pick_at start sz fl end.

(** The pointers along which a traversal runs. *)
Fixpoint linked (m : gmap loc Block) (step : Block → option loc) (fl : list seg) : Prop :=
  match fl with
  | [] => True
  | x :: fl' =>
    (∃ b, m !! sloc x = Some b ∧ address b = saddr x ∧ size b = ssize x
          ∧ step b = head_loc fl' None)
    ∧ linked m step fl'
  end.

(** The smallest multiple of [a] that is at least [z]. *)
Definition round_up_to (z a : Z) : Z := (z + a - 1) / a * a.
Definition request_size (s : FreeList) (size_bytes : Z) : Z :=
  round_up_to (Z.max size_bytes (min_allocation_size s)) (alignment s).

(** A request whose rounding does not overflow [DeviceAddr]. *)
Definition valid_request (s : FreeList) (size_bytes : Z) : Prop :=
  0 <= size_bytes ∧ Z.max size_bytes (min_allocation_size s) + alignment s <= 18446744073709551616.

(** ** Lists of segments *)
Lemma frees_app l k : frees (l ++ k) = frees l ++ frees k.
Proof. induction l as [|x l IH]; simpl; [done|]. rewrite IH. by destruct (sfree x). Qed.
Lemma useds_app l k : useds (l ++ k) = useds l ++ useds k.
Proof. induction l as [|x l IH]; simpl; [done|]. rewrite IH. by destruct (sfree x). Qed.
Lemma allocs_app l k : allocs (l ++ k) = allocs l ++ allocs k.
Proof. unfold allocs. by rewrite useds_app, fmap_app. Qed.

Lemma elem_of_frees x l : x ∈ frees l ↔ x ∈ l ∧ sfree x = true.
Proof.
  induction l as [|y l IH]; simpl; [by rewrite !elem_of_nil; naive_solver|].
  destruct (sfree y) eqn:Hy; rewrite !elem_of_cons, IH; naive_solver congruence.
Qed.
Lemma elem_of_useds x l : x ∈ useds l ↔ x ∈ l ∧ sfree x = false.
Proof.
  induction l as [|y l IH]; simpl; [by rewrite !elem_of_nil; naive_solver|].
  destruct (sfree y) eqn:Hy; rewrite !elem_of_cons, IH; naive_solver congruence.
Qed.
Lemma elem_of_free_order bu x l : x ∈ free_order bu l ↔ x ∈ l ∧ sfree x = true.
Proof.
  unfold free_order. destruct bu; rewrite ?elem_of_reverse; apply elem_of_frees.
Qed.

Lemma frees_length l : (length (frees l) ≤ length l)%nat.
Proof. induction l as [|x l IH]; simpl; [done|]. destruct (sfree x); simpl; lia. Qed.

Lemma head_free_frees l : head_free l None = head_loc (frees l) None.
Proof. induction l as [|x l IH]; simpl; [done|]. by destruct (sfree x). Qed.
Lemma last_free_frees l : last_free l None = head_loc (reverse (frees l)) None.
Proof.
  induction l as [|x l IH] using rev_ind; [done|].
  rewrite last_free_app, frees_app. simpl. destruct (sfree x).
  - by rewrite reverse_snoc.
  - by rewrite app_nil_r.
Qed.

(** ** Tiling *)
Lemma tiles_app a l k e :
  tiles a (l ++ k) e ↔ ∃ m, tiles a l m ∧ tiles m k e.
Proof.
  revert a; induction l as [|x l IH]; intros a; simpl.
  - split; [by eauto|]. by intros (m & -> & ?).
  - rewrite IH. naive_solver.
Qed.

Lemma tiles_le a l e : tiles a l e → a <= e.
Proof.
  revert a; induction l as [|x l IH]; intros a; simpl; [lia|].
  intros (_ & ? & H%IH). lia.
Qed.

Lemma tiles_mid a l1 x l2 e :
  tiles a (l1 ++ x :: l2) e ↔
  tiles a l1 (saddr x) ∧ 0 < ssize x ∧ tiles (saddr x + ssize x) l2 e.
Proof.
  rewrite tiles_app. simpl. split.
  - by intros (m & ? & <- & ? & ?).
  - intros (? & ? & ?). by eexists.
Qed.

Lemma tiles_bounds a l1 x l2 e :
  tiles a (l1 ++ x :: l2) e → a <= saddr x ∧ 0 < ssize x ∧ saddr x + ssize x <= e.
Proof.
  intros (H1 & H2 & H3)%tiles_mid. apply tiles_le in H1, H3. lia.
Qed.

Lemma tiles_elem a l x e :
  tiles a l e → x ∈ l → a <= saddr x ∧ 0 < ssize x ∧ saddr x + ssize x <= e.
Proof.
  intros Ht (l1 & l2 & ->)%list_elem_of_split. by eapply tiles_bounds.
Qed.

(** Two segments of a tiling that start at the same address are the same. *)
Lemma tiles_addr_inj a l x y e :
  tiles a l e → x ∈ l → y ∈ l → saddr x = saddr y → x = y.
Proof.
  revert a; induction l as [|z l IH]; intros a; simpl; [set_solver|].
  intros (Hz & Hs & Hl) Hx Hy Heq.
  apply elem_of_cons in Hx as [->|Hx], Hy as [->|Hy]; [done| | |by eapply IH].
  - eapply tiles_elem in Hl; [|apply Hy]. lia.
  - eapply tiles_elem in Hl; [|apply Hx]. lia.
Qed.

Lemma tiles_aligned d a l e :
  tiles a l e → (d | a) → Forall (λ x, (d | ssize x)) l → Forall (λ x, (d | saddr x)) l.
Proof.
  revert a; induction l as [|x l IH]; intros a; simpl; [done|].
  intros (<- & _ & Hl) Ha [Hx Hf]%Forall_cons. constructor; [done|].
  eapply IH; [done| |done]. by apply Z.divide_add_r.
Qed.

(** ** Coalescing *)
Lemma coalesced_app b l k :
  coalesced b (l ++ k) ↔ coalesced b l ∧ coalesced (foldl (λ _ x, sfree x) b l) k.
Proof. revert b; induction l as [|x l IH]; intros b; simpl; [naive_solver|]. rewrite IH. naive_solver. Qed.

Lemma coalesced_weaken b l : coalesced b l → coalesced false l.
Proof. destruct l as [|x l]; simpl; naive_solver. Qed.

(** A used segment separates what is before it from what is after. *)
Lemma coalesced_used b l1 x l2 :
  sfree x = false →
  coalesced b (l1 ++ x :: l2) ↔ coalesced b l1 ∧ coalesced false l2.
Proof. intros Hx. rewrite coalesced_app. simpl. rewrite Hx, andb_false_r. naive_solver. Qed.

(** A free segment's neighbours are used. *)
Lemma coalesced_free b l1 x l2 :
  sfree x = true →
  coalesced b (l1 ++ x :: l2) ↔
  coalesced b l1 ∧ foldl (λ _ x, sfree x) b l1 = false ∧ coalesced true l2.
Proof. intros Hx. rewrite coalesced_app. simpl. rewrite Hx, andb_true_r. naive_solver. Qed.

(** ** Traversals *)
Lemma linked_free_forward m pb pf l nb :
  chain m pb pf l nb None → linked m next_free (frees l).
Proof.
  revert pb pf; induction l as [|x l IH]; intros pb pf; simpl; [done|].
  intros [Hx Hl]. destruct (sfree x) eqn:Hf; [|by eapply IH].
  split; [|by eapply IH]. eexists. split; [done|]. simpl. rewrite Hf.
  by rewrite head_free_frees.
Qed.

Lemma linked_free_back m pb l nb nf :
  chain m pb None l nb nf → linked m prev_free (reverse (frees l)).
Proof.
  revert nb nf; induction l as [|x l IH] using rev_ind; intros nb nf; [done|].
  rewrite chain_app, frees_app. simpl. intros (Hl & Hx & _).
  destruct (sfree x) eqn:Hf; [|rewrite app_nil_r; by eapply IH].
  rewrite reverse_snoc. split; [|by eapply IH]. eexists. split; [done|].
  simpl. rewrite Hf. by rewrite last_free_frees.
Qed.

Lemma linked_blocks m pb pf l nf :
  chain m pb pf l None nf → linked m next_block l.
Proof.
  revert pb pf; induction l as [|x l IH]; intros pb pf; simpl; [done|].
  intros [Hx Hl]. split; [|by eapply IH]. by eexists.
Qed.

Lemma linked_free_order s l bu :
  Rep s l →
  linked (heap s) (step_free bu) (free_order bu l)
  ∧ search_start s bu = head_loc (free_order bu l) None.
Proof.
  intros HR. unfold search_start, free_order. destruct bu.
  - split; [eapply linked_free_forward, HR|]. by rewrite (rep_free_head _ _ HR), head_free_frees.
  - split; [eapply linked_free_back, HR|]. by rewrite (rep_free_tail _ _ HR), last_free_frees.
Qed.

Lemma free_order_fuel s l bu : Rep s l → (length (free_order bu l) ≤ chain_fuel s)%nat.
Proof.
  intros HR%Rep_length. unfold free_order, chain_fuel. pose proof (frees_length l).
  destruct bu; rewrite ?length_reverse; lia.
Qed.

(** ** The searches *)
Lemma run_search_first s bu sz fl fuel :
  linked (heap s) (step_free bu) fl → (length fl ≤ fuel)%nat →
  search_first_loop fuel sz bu (head_loc fl None) s = (Ok (sloc <$> pick_first sz fl), s).
Proof.
  revert fuel; induction fl as [|x fl IH]; intros fuel; [by destruct fuel|].
  simpl. intros [(b & Hb & Ha & Hs & Hn) Hl] Hfuel.
  destruct fuel as [|fuel]; [simpl in Hfuel; lia|]. simpl.
  st_step (run_load _ _ _ Hb). rewrite Hs, Hn.
  destruct (sz <=? ssize x); [done|]. apply IH; [done|lia].
Qed.

Lemma run_search_best s bu sz fl fuel best :
  linked (heap s) (step_free bu) fl → (length fl ≤ fuel)%nat →
  (∀ y, best = Some y → ∃ b, heap s !! sloc y = Some b ∧ size b = ssize y) →
  search_best_loop fuel sz bu (sloc <$> best) (head_loc fl None) s
  = (Ok (sloc <$> pick_best sz best fl), s).
Proof.
  revert fuel best; induction fl as [|x fl IH]; intros fuel best; [by destruct fuel|].
  simpl. intros [(b & Hb & Ha & Hs & Hn) Hl] Hfuel Hbest.
  destruct fuel as [|fuel]; [simpl in Hfuel; lia|]. simpl.
  st_step (run_load _ _ _ Hb). rewrite Hs, Hn.
  destruct (ssize x =? sz); [done|].
  destruct (sz <=? ssize x); [|rewrite run_skip_ret; apply IH; [done|lia|done]].
  destruct best as [y|]; simpl.
  - destruct (Hbest y) as (by_ & Hy & Hys); [done|].
    rewrite ST_bind_assoc. st_step (run_load _ _ _ Hy). rewrite Hys, run_skip_ret.
    destruct (ssize x <? ssize y).
    + apply (IH _ (Some x)); [done|lia|]. intros ? [= <-]. eauto.
    + apply (IH _ (Some y)); [done|lia|done].
  - rewrite run_skip_ret. apply (IH _ (Some x)); [done|lia|]. intros ? [= <-]. eauto.
Qed.

Lemma run_search s l sz bu :
  Rep s l → search sz bu s = (Ok (sloc <$> pick (search_policy_ s) sz bu l), s).
Proof.
  intros HR. pose proof (linked_free_order _ _ bu HR) as [Hl Hs].
  pose proof (free_order_fuel _ _ bu HR) as Hf.
  unfold search, search_best, search_first. rewrite run_get.
  destruct (search_policy_ s); cbv beta iota; rewrite run_get, Hs; unfold pick.
  - by apply (run_search_best s bu sz _ _ None).
  - by apply run_search_first.
Qed.

(** ** What the searches find *)
Lemma pick_first_some sz fl x :
  pick_first sz fl = Some x →
  ∃ k1 k2, fl = k1 ++ x :: k2 ∧ sz <= ssize x ∧ Forall (λ y, ssize y < sz) k1.
Proof.
  induction fl as [|y fl IH]; simpl; [done|]. destruct (Z.leb_spec sz (ssize y)).
  - intros [= ->]. by exists [], fl.
  - intros (k1 & k2 & -> & ? & ?)%IH. exists (y :: k1), k2. by repeat constructor.
Qed.

Lemma pick_first_none sz fl :
  pick_first sz fl = None → Forall (λ y, ssize y < sz) fl.
Proof.
  induction fl as [|y fl IH]; simpl; [done|]. destruct (Z.leb_spec sz (ssize y)); [done|].
  intros ?%IH. by constructor.
Qed.

(** The result of the best-fit search is a candidate no other candidate beats. *)
Lemma pick_best_some sz best fl x :
  (∀ y, best = Some y → sz <= ssize y) →
  pick_best sz best fl = Some x →
  (best = Some x ∨ x ∈ fl) ∧ sz <= ssize x
  ∧ (∀ y, best = Some y ∨ y ∈ fl → sz <= ssize y → ssize x <= ssize y).
Proof.
  revert best; induction fl as [|z fl IH]; intros best Hbest; simpl.
  { intros ->. split_and!; [by left|by apply Hbest|]. intros y [[= ->]|Hy%elem_of_nil] _; done. }
  destruct (Z.eqb_spec (ssize z) sz) as [Hz|Hz].
  { intros [= ->]. split_and!; [right; by left|lia|intros; lia]. }
  destruct (Z.leb_spec sz (ssize z)) as [Hle|Hgt]; [destruct best as [y|]|].
  - specialize (Hbest y eq_refl).
    intros (Hin & ? & Hall)%IH; [|intros ? E; revert E; case_match; intros [= <-]; done].
    assert (Hz' : ssize x <= ssize z ∧ ssize x <= ssize y).
    { destruct (Z.ltb_spec (ssize z) (ssize y)).
      - pose proof (Hall z (or_introl eq_refl) Hle). lia.
      - pose proof (Hall y (or_introl eq_refl) Hbest). lia. }
    split_and!; [|done|].
    + rewrite elem_of_cons. destruct Hin as [E|?]; [|by auto].
      revert E. case_match; intros [= <-]; auto.
    + intros w [[= <-]|[->|Hw]%elem_of_cons] ?; [lia..|]. by apply Hall; [right|].
  - intros (Hin & ? & Hall)%IH; [|by intros ? [= <-]].
    split_and!; [|done|].
    + rewrite elem_of_cons. destruct Hin as [[= <-]|?]; auto.
    + intros w [[=]|[->|Hw]%elem_of_cons] ?; apply Hall; auto.
  - intros (Hin & ? & Hall)%IH; [|done].
    split_and!; [|done|].
    + rewrite elem_of_cons. destruct Hin; auto.
    + intros w [->|[->|Hw]%elem_of_cons] ?; [by apply Hall; auto|lia|by apply Hall; auto].
Qed.

Lemma pick_best_none sz best fl :
  pick_best sz best fl = None → best = None ∧ Forall (λ y, ssize y < sz) fl.
Proof.
  revert best; induction fl as [|z fl IH]; intros best; simpl; [done|].
  destruct (Z.eqb_spec (ssize z) sz); [done|].
  destruct (Z.leb_spec sz (ssize z)).
  - destruct best; intros [Hb ?]%IH; try done. by case_match.
  - intros [-> ?]%IH. split; [done|]. by constructor.
Qed.

(** Whatever the policy, the search succeeds exactly when some free segment is
    large enough, and then returns one. *)
Lemma pick_some policy sz bu l x :
  pick policy sz bu l = Some x → x ∈ l ∧ sfree x = true ∧ sz <= ssize x.
Proof.
  destruct policy; simpl.
  - intros ([|Hin] & ? & _)%pick_best_some; [done| |done].
    apply elem_of_free_order in Hin. naive_solver.
  - intros (k1 & k2 & Hfl & ? & _)%pick_first_some.
    assert (Hin : x ∈ free_order bu l) by (rewrite Hfl; set_solver).
    apply elem_of_free_order in Hin. naive_solver.
Qed.

Lemma pick_none policy sz bu l x :
  pick policy sz bu l = None → x ∈ l → sfree x = true → ssize x < sz.
Proof.
  intros Hp Hx Hf. assert (Hin : x ∈ free_order bu l) by (by apply elem_of_free_order).
  destruct policy; simpl in Hp.
  - apply pick_best_none in Hp as [_ Hall]. rewrite Forall_forall in Hall. by apply Hall.
  - apply pick_first_none in Hp. rewrite Forall_forall in Hp. by apply Hp.
Qed.

Lemma fits_at_true start sz x :
  fits_at start sz x = true ↔ saddr x <= start ∧ start + sz <= saddr x + ssize x.
Proof. unfold fits_at. by rewrite andb_true_iff, !Z.leb_le. Qed.

Lemma pick_at_some start sz fl x :
  pick_at start sz fl = Some x → x ∈ fl ∧ fits_at start sz x = true.
Proof.
  induction fl as [|y fl IH]; simpl; [done|]. destruct (fits_at start sz y) eqn:Hy.
  - intros [= ->]. split; [by left|done].
  - intros [??]%IH. split; [by right|done].
Qed.

Lemma pick_at_none start sz fl :
  pick_at start sz fl = None → Forall (λ y, fits_at start sz y = false) fl.
Proof.
  induction fl as [|y fl IH]; simpl; [done|]. destruct (fits_at start sz y) eqn:Hy; [done|].
  intros ?%IH. by constructor.
Qed.

Lemma run_allocate_at_loop s start sz fl fuel :
  linked (heap s) next_free fl → (length fl ≤ fuel)%nat →
  Forall (λ x, 0 <= saddr x ∧ 0 < ssize x ∧ saddr x + ssize x < 18446744073709551616) fl →
  0 <= start → 0 < sz → start + sz < 18446744073709551616 →
  allocate_at_loop fuel start sz (head_loc fl None) s
  = match pick_at start sz fl with
    | None => (Ok false, s)
    | Some x => (_ ← allocate_slice_of_free_block (sloc x) (start - saddr x) sz; mret true) s
    end.
Proof.
  revert fuel; induction fl as [|x fl IH]; intros fuel; [by destruct fuel|].
  simpl. intros [(b & Hb & Ha & Hs & Hn) Hl] Hfuel [Hx Hfl]%Forall_cons ???.
  destruct fuel as [|fuel]; [simpl in Hfuel; lia|]. simpl.
  st_step (run_load _ _ _ Hb). rewrite Ha, Hs, Hn.
  unfold fits_at. unwrap. case_bool; try lia; try (apply IH; done || lia).
  - by unwrap.
  - by replace (start - saddr x) with 0 by lia.
Qed.

(** * Theorems on the free-list allocator

    The allocator's operations preserve [Inv] and do what the abstract state
    says, on every branch; from that, what holds in every reachable state. *)
(** ** Rounding of requests *)
Lemma round_up_spec z a :
  0 < a → (a | round_up_to z a) ∧ z <= round_up_to z a < z + a.
Proof.
  intros Ha. unfold round_up_to. split; [by apply Z.divide_factor_r|].
  pose proof (Z.div_mod (z + a - 1) a). pose proof (Z.mod_pos_bound (z + a - 1) a Ha). lia.
Qed.

Lemma alloc_size_request s size_bytes :
  cfg_ok s → valid_request s size_bytes →
  alloc_size_of s size_bytes = request_size s size_bytes.
Proof.
  intros [Ha _ _ Hm _ _ _] [H0 Hb]. unfold alloc_size_of, align, request_size.
  replace (if size_bytes <? min_allocation_size s then _ else _)
    with (Z.max size_bytes (min_allocation_size s)) by (case_bool; lia).
  set (z := Z.max _ _) in *. cbv zeta. assert (0 < z) by lia.
  rewrite (u64_small (z + alignment s - 1)) by lia.
  destruct (round_up_spec z (alignment s) Ha) as [_ ?].
  unfold round_up_to in *. apply u64_small. lia.
Qed.

Lemma request_size_spec s size_bytes :
  cfg_ok s → valid_request s size_bytes →
  0 < request_size s size_bytes ∧ size_bytes <= request_size s size_bytes
  ∧ (alignment s | request_size s size_bytes).
Proof.
  intros [Ha _ _ Hm _ _ _] [H0 Hb]. unfold request_size.
  destruct (round_up_spec (Z.max size_bytes (min_allocation_size s)) (alignment s) Ha).
  split_and!; [lia|lia|done].
Qed.

(** ** The invariant under block operations *)
Lemma Inv_bounds s l x :
  Inv s l → x ∈ l → 0 <= saddr x ∧ 0 < ssize x ∧ saddr x + ssize x <= max_size_bytes s
  ∧ 0 <= offset_bytes s ∧ saddr x + ssize x + offset_bytes s < 18446744073709551616.
Proof.
  intros HI Hx. pose proof (tiles_elem _ _ _ _ (inv_tiles _ _ HI) Hx).
  destruct (inv_cfg _ _ HI). lia.
Qed.

Lemma Inv_addr_aligned s l x : Inv s l → x ∈ l → (alignment s | saddr x).
Proof.
  intros HI. revert x. apply Forall_forall.
  eapply tiles_aligned; [apply HI|apply Z.divide_0_r|apply HI].
Qed.

Lemma frame_cfg s s' : frame s s' → cfg_ok s → cfg_ok s'.
Proof. intros [[H1 H2 H3 H4 _] _] []. by constructor; rewrite ?H1, ?H2, ?H3, ?H4. Qed.

(** Replacing the piece [x] of the tiling by [k], when [k] tiles the same range. *)
Lemma Inv_replace s s' l1 k0 k l2 :
  Inv s (l1 ++ k0 ++ l2) → Rep s' (l1 ++ k ++ l2) → frame s s' →
  (∀ a e, tiles a k0 e → tiles a k e) →
  coalesced false (l1 ++ k ++ l2) →
  Forall (λ x, (alignment s | ssize x)) k →
  Inv s' (l1 ++ k ++ l2).
Proof.
  intros HI HR Hfr Ht Hc Hk. destruct (frame_cfg _ _ Hfr (inv_cfg _ _ HI)) as [].
  pose proof Hfr as [[Hmax _ _ Hal _] _].
  split; [done|by apply (frame_cfg s), HI| |done|].
  - rewrite Hmax. pose proof (inv_tiles _ _ HI) as H.
    apply tiles_app in H as (m & H1 & (m' & H2 & H3)%tiles_app).
    apply tiles_app. exists m. split; [done|]. apply tiles_app. exists m'. auto.
  - rewrite Hal. pose proof (inv_aligned _ _ HI) as H. rewrite !Forall_app in *. naive_solver.
Qed.

Lemma carve_tiles n x off sz a e :
  0 <= off → 0 < sz → off + sz <= ssize x →
  tiles a [x] e → tiles a (carve n x off sz) e.
Proof.
  intros Hoff Hsz Hle. simpl. intros (<- & Hx & He).
  unfold carve. case_bool; simpl; repeat split; try lia.
Qed.

Lemma carve_coalesced n l1 x l2 off sz :
  sfree x = true → coalesced false (l1 ++ x :: l2) →
  coalesced false (l1 ++ carve n x off sz ++ l2).
Proof.
  intros Hf Hc. apply (coalesced_free _ _ _ _ Hf) in Hc as (H1 & H2 & H3).
  assert (H3' : coalesced false l2) by (by eapply coalesced_weaken).
  rewrite coalesced_app. split; [done|]. rewrite H2.
  unfold carve. by repeat case_match; simpl; rewrite ?Hf.
Qed.

Lemma carve_aligned d n x off sz :
  (d | ssize x) → (d | off) → (d | sz) →
  Forall (λ y, (d | ssize y)) (carve n x off sz).
Proof.
  intros Hx Ho Hs. unfold carve.
  repeat case_match; repeat constructor; simpl; auto using Z.divide_sub_r.
Qed.

Lemma Inv_carve s s' l1 x l2 off sz :
  Inv s (l1 ++ x :: l2) → sfree x = true →
  0 <= off → 0 < sz → off + sz <= ssize x → (alignment s | off) → (alignment s | sz) →
  Rep s' (l1 ++ carve (fresh_loc s) x off sz ++ l2) → frame s s' →
  Inv s' (l1 ++ carve (fresh_loc s) x off sz ++ l2).
Proof.
  intros HI Hf Hoff Hsz Hle Ho Hs HR Hfr.
  apply (Inv_replace s s' l1 [x]); [done..| | |].
  - intros a e. by apply carve_tiles.
  - apply carve_coalesced; [done|]. apply HI.
  - apply carve_aligned; [|done..].
    pose proof (inv_aligned _ _ HI) as H. rewrite Forall_app, Forall_cons in H. naive_solver.
Qed.

Lemma allocs_carve l1 n x l2 off sz :
  allocs (l1 ++ carve n x off sz ++ l2)
  = allocs l1 ++ (saddr x + off, sz) :: allocs l2.
Proof.
  rewrite !allocs_app. f_equal. unfold carve.
  destruct (Z.eqb_spec off 0) as [->|]; destruct (Z.eqb_spec sz (ssize x)) as [->|];
    simpl; repeat case_match; simpl; by rewrite ?Z.add_0_r.
Qed.

Lemma allocs_free l1 x l2 :
  sfree x = true → allocs (l1 ++ x :: l2) = allocs l1 ++ allocs l2.
Proof. intros Hf. rewrite allocs_app. unfold allocs. simpl. by rewrite Hf. Qed.
Lemma allocs_used l1 x l2 :
  sfree x = false →
  allocs (l1 ++ x :: l2) = allocs l1 ++ (saddr x, ssize x) :: allocs l2.
Proof. intros Hf. rewrite allocs_app. unfold allocs. simpl. by rewrite Hf. Qed.

(** Reading the address of a represented block. *)
Lemma load_rep s l x :
  Rep s l → x ∈ l → ∃ b, load (sloc x) s = (Ok b, s) ∧ address b = saddr x ∧ size b = ssize x.
Proof.
  intros HR (l1 & l2 & ->)%list_elem_of_split.
  eexists. split; [apply run_load, (around_lookup _ _ _ _ HR)|done].
Qed.

Lemma carve_elem n x off sz :
  ∃ y, y ∈ carve n x off sz ∧ sloc y = carve_loc n x off sz
       ∧ saddr y = saddr x + off ∧ ssize y = sz ∧ sfree y = false.
Proof.
  unfold carve, carve_loc.
  destruct (Z.eqb_spec off 0) as [->|]; destruct (Z.eqb_spec sz (ssize x)) as [->|]; simpl;
    repeat case_match;
    (eexists; split;
      [ (apply list_elem_of_here || (apply list_elem_of_further, list_elem_of_here))
      | solve [split_and!; simpl; (lia || done)] ])
    || (eexists; split;
      [ apply list_elem_of_further, list_elem_of_here
      | solve [split_and!; simpl; (lia || done)] ]).
Qed.

(** ** The lowest occupied address *)
Lemma Rep_with_lowest s l a : Rep s l → Rep (with_lowest a s) l.
Proof. intros []. by constructor. Qed.
Lemma Inv_with_lowest s l a : Inv s l → Inv (with_lowest a s) l.
Proof. intros [HR [] ? ? ?]. split; [by apply Rep_with_lowest|..]; done. Qed.

Lemma elem_of_allocs a sz l :
  (a, sz) ∈ allocs l ↔ ∃ x, x ∈ l ∧ sfree x = false ∧ saddr x = a ∧ ssize x = sz.
Proof.
  unfold allocs. rewrite list_elem_of_fmap. setoid_rewrite elem_of_useds.
  split; [intros (x & [= -> ->] & ? & ?)|intros (x & ? & ? & <- & <-)]; eauto.
Qed.

(** The address [update_lowest_occupied_address(addr)] stores. *)
Definition lower (low : option Z) (a : Z) : option Z :=
  match low with None => Some a | Some b => Some (Z.min b a) end.

Lemma lower_allocs l1 x l2 off sz e :
  tiles 0 (l1 ++ x :: l2) e → sfree x = true → 0 <= off → 0 < sz → off + sz <= ssize x →
  lower (head (fst <$> allocs (l1 ++ x :: l2))) (saddr x + off)
  = head (fst <$> (allocs l1 ++ (saddr x + off, sz) :: allocs l2)).
Proof.
  intros (H1 & Hs & H2)%tiles_mid Hf ???. rewrite allocs_free by done.
  destruct (allocs l1) as [|[a sa] k1] eqn:E1; simpl.
  - destruct (allocs l2) as [|[b sb] k2] eqn:E2; simpl; [done|].
    assert (Hb : (b, sb) ∈ allocs l2) by (rewrite E2; by left).
    apply elem_of_allocs in Hb as (y & Hy & _ & <- & _).
    eapply tiles_elem in H2; [|done]. f_equal. lia.
  - assert (Ha : (a, sa) ∈ allocs l1) by (rewrite E1; by left).
    apply elem_of_allocs in Ha as (y & Hy & _ & <- & _).
    eapply tiles_elem in H1; [|done]. f_equal. lia.
Qed.

Lemma run_update_lowest s a :
  update_lowest_occupied_address_with a s
  = (Ok tt, with_lowest (lower (lowest_occupied_address_ s) a) s).
Proof. unfold update_lowest_occupied_address_with. by rewrite run_get. Qed.

(** What an allocation leaves behind, for both allocation entry points. *)
Record after_alloc (s : FreeList) (l : list seg) (a sz : Z) (s' : FreeList) (l' : list seg)
  : Prop := mk_after_alloc {
  aa_inv : Inv s' l';
  aa_lowest : lowest_ok s l → lowest_ok s' l';
  aa_cfg : same_cfg s s';
  aa_allocs : ∃ k1 k2, allocs l = k1 ++ k2 ∧ allocs l' = k1 ++ (a, sz) :: k2;
  aa_free : ∃ x, x ∈ l ∧ sfree x = true ∧ saddr x <= a ∧ a + sz <= saddr x + ssize x
}.

Lemma after_carve s s' l1 x l2 off sz :
  Inv s (l1 ++ x :: l2) → sfree x = true →
  0 <= off → 0 < sz → off + sz <= ssize x → (alignment s | off) → (alignment s | sz) →
  Rep s' (l1 ++ carve (fresh_loc s) x off sz ++ l2) → frame s s' →
  after_alloc s (l1 ++ x :: l2) (saddr x + off) sz
    (with_lowest (lower (lowest_occupied_address_ s') (saddr x + off)) s')
    (l1 ++ carve (fresh_loc s) x off sz ++ l2).
Proof.
  intros HI Hf Hoff Hsz Hle Ho Hs HR Hfr. pose proof Hfr as [Hcfg Hlow].
  split.
  - apply Inv_with_lowest. by eapply Inv_carve.
  - unfold lowest_ok. intros Hl. simpl. rewrite Hlow, Hl, allocs_carve.
    eapply lower_allocs; [apply HI|done..].
  - destruct Hcfg. by constructor.
  - exists (allocs l1), (allocs l2). by rewrite allocs_free, allocs_carve.
  - exists x. split_and!; [set_solver|done|lia|lia].
Qed.

(** ** allocate *)
Definition alloc_offset (bottom_up : bool) (x : seg) (sz : Z) : Z :=
  if bottom_up then 0 else ssize x - sz.

Lemma run_allocate s l size_bytes bu limit :
  Inv s l → valid_request s size_bytes →
  let sz := request_size s size_bytes in
  match pick (search_policy_ s) sz bu l with
  | None => allocate size_bytes bu limit s = (Ok None, s)
  | Some x =>
    ∃ l1 l2 s', l = l1 ++ x :: l2
    ∧ let a := saddr x + alloc_offset bu x sz in
      allocate size_bytes bu limit s
      = (if a + offset_bytes s <? limit then Err TT_THROW
         else Ok (Some (a + offset_bytes s)), s')
      ∧ after_alloc s l a sz s' (l1 ++ carve (fresh_loc s) x (alloc_offset bu x sz) sz ++ l2)
  end.
Proof.
  intros HI Hv sz. pose proof (inv_cfg _ _ HI) as Hcfg.
  destruct (request_size_spec _ _ Hcfg Hv) as (Hsz & _ & Hdiv). fold sz in Hsz, Hdiv.
  unfold allocate. rewrite run_get, (alloc_size_request _ _ Hcfg Hv). fold sz.
  cbv zeta. st_step (run_search s l sz bu (inv_rep _ _ HI)).
  destruct (pick _ _ _ _) as [x|] eqn:Hp; simpl; [|done].
  apply pick_some in Hp as (Hx & Hf & Hle). apply list_elem_of_split in Hx as (l1 & l2 & ->).
  pose proof (Inv_bounds _ _ x HI ltac:(set_solver)) as (Ha & Hs & He & Hob & Heo).
  pose proof (inv_rep _ _ HI) as HR.
  assert (Hxal : (alignment s | ssize x)).
  { pose proof (inv_aligned _ _ HI) as H. rewrite Forall_app, Forall_cons in H. naive_solver. }
  set (off := alloc_offset bu x sz).
  assert (Hoff : 0 <= off ∧ off + sz <= ssize x ∧ (alignment s | off)).
  { unfold off, alloc_offset. destruct bu; split_and!; try lia;
      auto using Z.divide_0_r, Z.divide_sub_r. }
  destruct Hoff as (Hoff & Hoffle & Hoffdiv).
  st_step (run_load _ _ _ (around_lookup _ _ _ _ HR)). simpl.
  replace (if bu then 0 else _) with off
    by (unfold off, alloc_offset; destruct bu; [done|unwrap; lia]).
  destruct (run_allocate_slice s l1 x l2 off sz) as (s' & Hrun & HR' & Hfr); [done..|lia|lia|].
  st_step Hrun.
  destruct (carve_elem (fresh_loc s) x off sz) as (y & Hy & Hyl & Hya & _).
  destruct (load_rep _ _ y HR') as (b & Hb & Hba & _); [set_solver|].
  rewrite Hyl in Hb. st_step Hb. rewrite Hba, Hya.
  st_step (run_update_lowest s' (saddr x + off)).
  unwrap. eexists l1, l2, _. split; [done|].
  split; [by case_match|]. by apply after_carve.
Qed.

(** ** allocate_at_address *)
(** A request at an address: aligned, not below the allocator's offset, and not
    running past the end of the address space. *)
Definition valid_at (s : FreeList) (addr size_bytes : Z) : Prop :=
  valid_request s size_bytes ∧ (alignment s | addr) ∧ offset_bytes s <= addr
  ∧ addr < 18446744073709551616
  ∧ addr - offset_bytes s + request_size s size_bytes < 18446744073709551616.

Lemma frees_bounds s l :
  Inv s l →
  Forall (λ x, 0 <= saddr x ∧ 0 < ssize x ∧ saddr x + ssize x < 18446744073709551616) (frees l).
Proof.
  intros HI. apply Forall_forall. intros x [Hx _]%elem_of_frees.
  pose proof (Inv_bounds _ _ _ HI Hx). lia.
Qed.

Lemma run_allocate_at s l addr size_bytes :
  Inv s l → valid_at s addr size_bytes →
  let sz := request_size s size_bytes in
  let start := addr - offset_bytes s in
  match pick_at start sz (frees l) with
  | None => allocate_at_address addr size_bytes s = (Ok None, s)
  | Some x =>
    ∃ l1 l2 s', l = l1 ++ x :: l2
    ∧ allocate_at_address addr size_bytes s = (Ok (Some addr), s')
    ∧ after_alloc s l start sz s' (l1 ++ carve (fresh_loc s) x (start - saddr x) sz ++ l2)
  end.
Proof.
  intros HI (Hv & Hdiv & Hlo & Hhi & Hend) sz start. pose proof (inv_cfg _ _ HI) as Hcfg.
  destruct (request_size_spec _ _ Hcfg Hv) as (Hsz & _ & Hszd). fold sz in Hsz, Hszd, Hend.
  pose proof (inv_rep _ _ HI) as HR. pose proof Hcfg as [Hal _ Hoff _ _ Hoffd _].
  unfold allocate_at_address. rewrite run_get, (alloc_size_request _ _ Hcfg Hv). fold sz.
  rewrite run_check by (apply Z.eqb_eq, Z.mod_divide; [lia|done]).
  cbv zeta. rewrite (u64_small (addr - _)) by lia. fold start.
  rewrite (rep_free_head _ _ HR), head_free_frees.
  pose proof (run_allocate_at_loop s start sz (frees l) (chain_fuel s)
    (linked_free_forward _ _ _ _ _ (rep_chain _ _ HR))
    (free_order_fuel s l true HR) (frees_bounds _ _ HI) ltac:(lia) Hsz ltac:(lia)) as Hloop.
  destruct (pick_at _ _ _) as [x|] eqn:Hp; [|by st_step Hloop].
  apply pick_at_some in Hp as [[Hx Hf]%elem_of_frees [Hxl Hxr]%fits_at_true].
  apply list_elem_of_split in Hx as (l1 & l2 & ->).
  pose proof (Inv_bounds _ _ x HI ltac:(set_solver)) as (Ha & Hs & He & _ & Heo).
  pose proof (Inv_addr_aligned _ _ x HI ltac:(set_solver)) as Hxal.
  destruct (run_allocate_slice s l1 x l2 (start - saddr x) sz)
    as (s' & Hrun & HR' & Hfr); [done|done|lia..|].
  rewrite (ST_bind_ok _ _ _ _ _ Hrun) in Hloop. st_step Hloop.
  st_step (run_update_lowest s' start). exists l1, l2. eexists. split; [done|].
  split; [done|]. replace start with (saddr x + (start - saddr x)) at 1 2 by lia.
  apply after_carve; try done; [lia..|].
  unfold start. auto using Z.divide_sub_r.
Qed.

(** ** deallocate *)
Fixpoint find_addr (a : Z) (l : list seg) : option seg :=
  match l with [] => None | x :: l => if saddr x =? a then Some x else find_addr a l end.

Lemma run_find_block_loop s l addr fuel :
  linked (heap s) next_block l → (length l ≤ fuel)%nat →
  find_block_loop fuel addr (head_loc l None) s = (Ok (sloc <$> find_addr addr l), s).
Proof.
  revert fuel; induction l as [|x l IH]; intros fuel; [by destruct fuel|].
  simpl. intros [(b & Hb & Ha & Hs & Hn) Hl] Hfuel.
  destruct fuel as [|fuel]; [simpl in Hfuel; lia|]. simpl.
  st_step (run_load _ _ _ Hb). rewrite Ha, Hn.
  destruct (saddr x =? addr); [done|]. apply IH; [done|lia].
Qed.

Lemma run_find_block s l addr :
  Rep s l → find_block addr s = (Ok (sloc <$> find_addr addr l), s).
Proof.
  intros HR. unfold find_block. rewrite run_get, (rep_block_head _ _ HR).
  apply run_find_block_loop; [eapply linked_blocks, HR|].
  pose proof (Rep_length _ _ HR). unfold chain_fuel. lia.
Qed.

Lemma find_addr_some a l x : find_addr a l = Some x → x ∈ l ∧ saddr x = a.
Proof.
  induction l as [|y l IH]; simpl; [done|]. destruct (Z.eqb_spec (saddr y) a).
  - intros [= ->]. split; [by left|done].
  - intros [??]%IH. split; [by right|done].
Qed.
Lemma find_addr_none a l : find_addr a l = None → ∀ x, x ∈ l → saddr x ≠ a.
Proof.
  induction l as [|y l IH]; simpl; [by intros _ x ?%elem_of_nil|].
  destruct (Z.eqb_spec (saddr y) a); [done|].
  intros H x [->|Hx]%elem_of_cons; [done|]. by apply IH.
Qed.

(** The block list after [x] is freed: [x] joins its free neighbours. *)
Definition join_prev (l1 : list seg) (x : seg) : list seg * seg :=
  match last l1 with
  | Some p => if sfree p then (take (length l1 - 1) l1, absorb p x) else (l1, x)
  | None => (l1, x)
  end.
Definition join_next (x : seg) (l2 : list seg) : list seg :=
  match l2 with
  | n :: l2' => if sfree n then absorb x n :: l2' else set_free x :: l2
  | [] => [set_free x]
  end.
Definition free_segment (l1 : list seg) (x : seg) (l2 : list seg) : list seg :=
  let '(l1', x') := join_prev l1 x in l1' ++ join_next x' l2.

Lemma run_join_prev s l1 x l2 :
  Rep s (l1 ++ x :: l2) → sfree x = false → 0 <= ssize x →
  Forall (λ y, 0 <= ssize y ∧ ssize y + ssize x < 18446744073709551616) l1 →
  ∃ s', merge_prev (sloc x) (last_loc l1 None) s
        = (Ok (sloc (join_prev l1 x).2, sfree (join_prev l1 x).2), s')
    ∧ Rep s' ((join_prev l1 x).1 ++ (join_prev l1 x).2 :: l2) ∧ frame s s'.
Proof.
  intros HR Hf Hsx Hsz. unfold join_prev.
  destruct l1 as [|p l1 _] using rev_ind; [exists s; simpl; rewrite Hf; by split_and!|].
  rewrite last_snoc, last_loc_app, length_app, Nat.add_sub, take_app_length. simpl.
  rewrite <- (assoc app) in HR. simpl in HR. destruct (sfree p) eqn:Hp; simpl.
  - rewrite Forall_app, Forall_singleton in Hsz.
    destruct (run_merge_prev s l1 p x l2) as (s' & ? & ? & ?); try done; try lia. by exists s'.
  - exists s. unfold merge_prev. st_step (run_is_allocated _ _ _ _ HR). rewrite Hp, Hf. simpl.
    rewrite <- (assoc app). by split_and!.
Qed.

Lemma run_join_next s l1 x l2 :
  Rep s (l1 ++ x :: l2) → 0 <= ssize x →
  Forall (λ y, 0 <= ssize y ∧ ssize y + ssize x < 18446744073709551616) l2 →
  ∃ merged s1 s2,
    merge_next (sloc x) (sfree x) (head_loc l2 None) s = (Ok merged, s1)
    ∧ (if negb (sfree x) && negb merged then insert_free (sloc x) else mret tt) s1 = (Ok tt, s2)
    ∧ Rep s2 (l1 ++ join_next x l2) ∧ frame s s2.
Proof.
  intros HR Hsx Hsz.
  assert (Hlone : ∃ s2, (if negb (sfree x) && negb false then insert_free (sloc x) else mret tt) s
                        = (Ok tt, s2) ∧ Rep s2 (l1 ++ set_free x :: l2) ∧ frame s s2).
  { destruct (sfree x) eqn:Hf; simpl.
    - exists s. split_and!; [done| |done]. by destruct x; simpl in *; subst.
    - by apply run_insert_free. }
  unfold join_next. destruct l2 as [|n l2]; [by destruct Hlone as (s2 & ?); exists false, s, s2|].
  destruct (sfree n) eqn:Hn.
  - apply Forall_cons in Hsz as [[??] _].
    destruct (run_merge_next s l1 x n l2) as (s' & ? & ? & ?); [done|done|lia..|].
    exists true, s', s'. rewrite andb_false_r. by split_and!.
  - destruct Hlone as (s2 & ? & ? & ?). exists false, s, s2. split_and!; try done.
    simpl. unfold merge_next. rewrite (app_comm_snoc l1 x) in HR.
    st_step (run_is_allocated _ _ _ _ HR). by rewrite Hn.
Qed.

(** [update_lowest_occupied_address()] finds the first allocation. *)
Lemma head_flag_useds l : head_flag false l = head_loc (useds l) None.
Proof. induction l as [|x l IH]; simpl; [done|]. by destruct (sfree x). Qed.

Lemma run_recompute_lowest s l :
  Rep s l →
  update_lowest_occupied_address s = (Ok tt, with_lowest (head (fst <$> allocs l)) s).
Proof.
  intros HR. pose proof (Rep_length _ _ HR) as Hlen.
  unfold update_lowest_occupied_address. rewrite run_get, (rep_block_head _ _ HR).
  st_step (run_walk_forward s [] l (chain_fuel s) false HR ltac:(unfold chain_fuel; lia)).
  rewrite head_flag_useds. unfold allocs. destruct (useds l) as [|x k] eqn:Hu; [done|]. simpl.
  assert (Hx : x ∈ l) by (apply (elem_of_useds x); rewrite Hu; by left).
  destruct (load_rep _ _ _ HR Hx) as (b & Hb & Ha & _). st_step Hb. by rewrite Ha.
Qed.

(** ** The block list after a deallocation *)
Lemma join_prev_cases l1 x :
  (join_prev l1 x = (l1, x) ∧ foldl (λ _ y, sfree y) false l1 = false)
  ∨ ∃ k p, l1 = k ++ [p] ∧ sfree p = true ∧ join_prev l1 x = (k, absorb p x).
Proof.
  unfold join_prev. destruct l1 as [|p k _] using rev_ind; [by left|].
  rewrite last_snoc, foldl_app, length_app, Nat.add_sub, take_app_length. simpl.
  destruct (sfree p) eqn:Hp; [right; by exists k, p|by left].
Qed.

Lemma join_next_tiles a x l2 e : tiles a (x :: l2) e → tiles a (join_next x l2) e.
Proof.
  intros (Hx & Hs & Hl). destruct l2 as [|n l2]; [done|]. simpl.
  destruct (sfree n); simpl in *; [|done].
  destruct Hl as (Hn & Hns & Hl). split_and!; [done|lia|]. by rewrite Z.add_assoc.
Qed.

Lemma join_prev_tiles a l1 x l2 e :
  tiles a (l1 ++ x :: l2) e → tiles a ((join_prev l1 x).1 ++ (join_prev l1 x).2 :: l2) e.
Proof.
  intros Ht. destruct (join_prev_cases l1 x) as [[-> _]|(k & p & -> & _ & ->)]; [done|].
  rewrite <- (assoc app) in Ht. apply tiles_app in Ht as (m & ? & (Hp & ? & Hx & ? & ?)).
  apply tiles_app. exists m. split; [done|]. simpl.
  split_and!; [done|lia|]. by rewrite Z.add_assoc.
Qed.

Lemma free_segment_eq l1 x l2 :
  free_segment l1 x l2 = (join_prev l1 x).1 ++ join_next (join_prev l1 x).2 l2.
Proof. unfold free_segment. by destruct (join_prev l1 x). Qed.

Lemma free_segment_tiles a l1 x l2 e :
  tiles a (l1 ++ x :: l2) e → tiles a (free_segment l1 x l2) e.
Proof.
  intros (m & ? & ?)%join_prev_tiles%tiles_app. rewrite free_segment_eq.
  apply tiles_app. exists m. split; [done|]. by apply join_next_tiles.
Qed.

(** The sizes of two segments of a tiling of a 64-bit range add up without overflow. *)
Lemma tiles_sums l1 x l2 e :
  tiles 0 (l1 ++ x :: l2) e → e < 18446744073709551616 →
  0 <= ssize x
  ∧ Forall (λ y, 0 <= ssize y ∧ ssize y + ssize x < 18446744073709551616) l1
  ∧ Forall (λ y, 0 <= ssize y ∧ ssize y + ssize x < 18446744073709551616) l2.
Proof.
  intros (H1 & Hs & H2)%tiles_mid He. pose proof (tiles_le _ _ _ H1). pose proof (tiles_le _ _ _ H2).
  split_and!; [lia|apply Forall_forall; intros y Hy..].
  - eapply tiles_elem in H1; [|done]. lia.
  - eapply tiles_elem in H2; [|done]. lia.
Qed.

Lemma join_next_coalesced x l2 :
  coalesced false l2 → coalesced false (join_next x l2).
Proof.
  destruct l2 as [|n l2]; [done|]. simpl. destruct (sfree n) eqn:Hn; simpl; rewrite ?Hn; done.
Qed.

Lemma free_segment_coalesced l1 x l2 :
  sfree x = false → coalesced false (l1 ++ x :: l2) → coalesced false (free_segment l1 x l2).
Proof.
  intros Hf [H1 H2]%coalesced_used; [|done]. unfold free_segment.
  destruct (join_prev_cases l1 x) as [[-> Hl]|(k & p & -> & Hp & ->)].
  - apply coalesced_app. rewrite Hl. split; [done|]. by apply join_next_coalesced.
  - apply (coalesced_free _ _ _ _ Hp) in H1 as (? & Hk & _).
    apply coalesced_app. rewrite Hk. split; [done|]. by apply join_next_coalesced.
Qed.

Lemma free_segment_aligned d l1 x l2 :
  Forall (λ y, (d | ssize y)) (l1 ++ x :: l2) →
  Forall (λ y, (d | ssize y)) (free_segment l1 x l2).
Proof.
  intros [H1 [Hx H2]%Forall_cons]%Forall_app.
  assert (Hnext : ∀ y, (d | ssize y) → Forall (λ y, (d | ssize y)) (join_next y l2)).
  { intros y Hy. destruct l2 as [|n l2]; [by repeat constructor|]. simpl.
    apply Forall_cons in H2 as [? ?].
    destruct (sfree n); repeat constructor; simpl; auto using Z.divide_add_r. }
  unfold free_segment. destruct (join_prev_cases l1 x) as [[-> _]|(k & p & -> & _ & ->)].
  - apply Forall_app; auto.
  - rewrite Forall_app, Forall_singleton in H1. destruct H1.
    apply Forall_app. split; [done|]. apply Hnext. by apply Z.divide_add_r.
Qed.

Lemma join_next_useds x l2 : useds (join_next x l2) = useds l2.
Proof. destruct l2 as [|n l2]; [done|]. simpl. by destruct (sfree n) eqn:Hn; simpl; rewrite ?Hn. Qed.

Lemma free_segment_allocs l1 x l2 :
  allocs (free_segment l1 x l2) = allocs l1 ++ allocs l2.
Proof.
  unfold free_segment, allocs. rewrite <- fmap_app. f_equal.
  destruct (join_prev_cases l1 x) as [[-> _]|(k & p & -> & Hp & ->)];
    rewrite !useds_app, join_next_useds; [done|].
  simpl. by rewrite Hp, app_nil_r.
Qed.

Lemma free_segment_Inv s s' l1 x l2 :
  Inv s (l1 ++ x :: l2) → sfree x = false →
  Rep s' (free_segment l1 x l2) → frame s s' → Inv s' (free_segment l1 x l2).
Proof.
  intros HI Hf HR Hfr. pose proof Hfr as [[Hmax _ _ Hal _] _]. split.
  - done.
  - by apply (frame_cfg s), HI.
  - rewrite Hmax. apply free_segment_tiles, HI.
  - apply free_segment_coalesced; [done|apply HI].
  - rewrite Hal. apply free_segment_aligned, HI.
Qed.

Lemma frame_with_lowest s s' a : frame s s' → same_cfg s (with_lowest a s').
Proof. intros [[] _]. by constructor. Qed.

Lemma run_deallocate s l1 x l2 addr :
  Inv s (l1 ++ x :: l2) → sfree x = false → addr = saddr x + offset_bytes s →
  ∃ s', deallocate addr s = (Ok tt, s')
    ∧ Inv s' (free_segment l1 x l2)
    ∧ (lowest_ok s (l1 ++ x :: l2) → lowest_ok s' (free_segment l1 x l2))
    ∧ same_cfg s s'.
Proof.
  intros HI Hf ->. pose proof (inv_rep _ _ HI) as HR.
  pose proof (Inv_bounds _ _ x HI ltac:(set_solver)) as (Ha & Hs & He & Ho & Heo).
  pose proof (inv_cfg _ _ HI) as [_ _ _ _ _ _ Hbound].
  unfold deallocate. rewrite run_get.
  replace (u64 _) with (saddr x) by (rewrite u64_small by lia; lia).
  st_step (run_find_block s _ (saddr x) HR).
  destruct (find_addr _ _) as [y|] eqn:Hy;
    [|exfalso; apply (find_addr_none _ _ Hy x); [set_solver|done]]. simpl.
  apply find_addr_some in Hy as [Hy Hyx].
  assert (y = x) as -> by (eapply tiles_addr_inj; [apply HI|done|set_solver|done]).
  st_step (run_is_allocated _ _ _ _ HR). rewrite Hf. simpl.
  st_step (run_load _ _ _ (around_lookup _ _ _ _ HR)). simpl.
  destruct (tiles_sums _ _ _ _ (inv_tiles _ _ HI)) as (Hx0 & Hb1 & _); [lia|].
  destruct (run_join_prev _ _ _ _ HR Hf Hx0 Hb1) as (s1 & Hr1 & HR1 & Hf1). st_step Hr1.
  destruct (tiles_sums _ _ _ _ (join_prev_tiles _ _ _ _ _ (inv_tiles _ _ HI)))
    as (Hx0' & _ & Hb2); [lia|].
  destruct (run_join_next _ _ _ _ HR1 Hx0' Hb2) as (merged & s2 & s3 & Hr2 & Hr3 & HR3 & Hf3).
  cbv beta iota. st_step Hr2. st_step Hr3. rewrite run_get.
  rewrite <- free_segment_eq in HR3.
  assert (Hfr : frame s s3) by (by etrans).
  pose proof (free_segment_Inv _ _ _ _ _ HI Hf HR3 Hfr) as HI3.
  assert (Hkeep : lowest_occupied_address_ s3 ≠ Some (saddr x) →
    lowest_ok s (l1 ++ x :: l2) → lowest_ok s3 (free_segment l1 x l2)).
  { unfold lowest_ok. destruct Hfr as [_ ->]. intros Hne Hl. rewrite Hl in Hne |- *.
    rewrite free_segment_allocs. rewrite allocs_used in Hne |- * by done.
    by destruct (allocs l1). }
  destruct (lowest_occupied_address_ s3) as [low|] eqn:Hlow.
  - destruct (Z.eqb_spec (saddr x) low) as [Heq|Hne].
    + rewrite (run_recompute_lowest _ _ HR3). eexists. split; [done|].
      split_and!; [by apply Inv_with_lowest|done|by apply frame_with_lowest].
    + exists s3. split_and!; [done..| |apply Hfr]. apply Hkeep. congruence.
  - exists s3. split_and!; [done..| |apply Hfr]. by apply Hkeep.
Qed.

(** Freeing an address that is not a live allocation does nothing. *)
Lemma run_deallocate_noop s l addr :
  Inv s l →
  (∀ x, x ∈ l → sfree x = false → saddr x ≠ u64 (addr - offset_bytes s)) →
  deallocate addr s = (Ok tt, s).
Proof.
  intros HI Hno. pose proof (inv_rep _ _ HI) as HR.
  unfold deallocate. rewrite run_get. cbv zeta.
  st_step (run_find_block s _ (u64 (addr - offset_bytes s)) HR).
  destruct (find_addr _ _) as [y|] eqn:Hy; simpl; [|done].
  apply find_addr_some in Hy as [Hy Hyx]. destruct (sfree y) eqn:Hf; [|by destruct (Hno y)].
  apply list_elem_of_split in Hy as (l1 & l2 & ->).
  st_step (run_is_allocated _ _ _ _ HR). by rewrite Hf.
Qed.
