(* ===== verification/FreeListProps.v ===== *)
(** * The free-list allocator, as its callers see it

    A caller sees the return values of the operations and the rows of
    [dump_blocks].  [reachable] closes the states a constructor returns under
    every call a caller may make, exceptions included; the theorems hold in
    every reachable state and say how a call changes the rows. *)
From S2P Require Import Prelude FreeList FreeListOps FreeListThms.

(** ** Walks over all blocks *)
Definition row_of (off : Z) (x : seg) : dump_row :=
  mk_row (saddr x + off) (ssize x) (negb (sfree x)).


Section walks.
  Context (s : FreeList) (l : list seg) (HI : Inv s l).

Lemma visit_block x :
    x ∈ l → ∃ b, load (sloc x) s = (Ok b, s) ∧ address b = saddr x ∧ size b = ssize x
                 ∧ block_is_allocated s (sloc x) b = negb (sfree x).
  Proof.
    intros Hx. destruct (load_rep _ _ _ (inv_rep _ _ HI) Hx) as (b & Hb & ? & ?).
    exists b. split_and!; try done.
    pose proof (list_elem_of_split _ _ Hx) as (l1 & l2 & ->).
    pose proof (inv_rep _ _ HI) as HR. revert Hb.
    rewrite (run_load _ _ _ (around_lookup _ _ _ _ HR)). intros [= <-].
    by apply (allocated_spec _ _ _ _ HR).
  Qed.

Lemma run_dump_loop k fuel out :
    linked (heap s) next_block k → k ⊆ l → (length k ≤ fuel)%nat →
    dump_loop fuel (head_loc k None) out s
    = (Ok (out ++ (row_of (offset_bytes s) <$> k)), s).
  Proof.
    revert fuel out; induction k as [|x k IH]; intros fuel out;
      [by destruct fuel; simpl; rewrite app_nil_r|].
    simpl. intros [(b & Hb & _ & _ & Hn) Hl] Hk Hfuel.
    destruct fuel as [|fuel]; [simpl in Hfuel; lia|]. simpl.
    destruct (visit_block x) as (b' & Hb' & Ha & Hs & Hal); [apply Hk; by left|].
    rewrite (run_load _ _ _ Hb) in Hb'. injection Hb' as ->.
    st_step (run_load _ _ _ Hb). rewrite run_get, Hn.
    rewrite IH; [|done|intros y Hy; apply Hk; by right|lia].
    unfold dump_block, row_of at 2. rewrite Ha, Hs, Hal.
    destruct (Inv_bounds _ _ x HI) as (?&?&?&?&?); [apply Hk; by left|].
    unwrap. by rewrite <- (assoc app).
  Qed.

Lemma run_dump : dump_blocks s = (Ok (row_of (offset_bytes s) <$> l), s).
  Proof.
    unfold dump_blocks. rewrite run_get, (rep_block_head _ _ (inv_rep _ _ HI)).
    pose proof (Rep_length _ _ (inv_rep _ _ HI)).
    apply run_dump_loop; [eapply linked_blocks, HI|done|unfold chain_fuel; lia].
  Qed.

Definition add_seg (st : Statistics) (x : seg) : Statistics :=
    if sfree x then
      mk_stats (total_allocatable_size_bytes st) (total_allocated_bytes st)
        (u64 (total_free_bytes st + ssize x))
        (if largest_free_block_bytes st <=? ssize x then ssize x else largest_free_block_bytes st)
        (if largest_free_block_bytes st <=? ssize x
         then largest_free_block_addrs st ++ [u32 (saddr x + offset_bytes s)]
         else largest_free_block_addrs st)
    else
      mk_stats (total_allocatable_size_bytes st) (u64 (total_allocated_bytes st + ssize x))
        (total_free_bytes st) (largest_free_block_bytes st) (largest_free_block_addrs st).

Lemma run_statistics_loop k fuel st :
    linked (heap s) next_block k → k ⊆ l → (length k ≤ fuel)%nat →
    statistics_loop fuel (head_loc k None) st s = (Ok (foldl add_seg st k), s).
  Proof.
    revert fuel st; induction k as [|x k IH]; intros fuel st; [by destruct fuel|].
    simpl. intros [(b & Hb & _ & _ & Hn) Hl] Hk Hfuel.
    destruct fuel as [|fuel]; [simpl in Hfuel; lia|]. simpl.
    destruct (visit_block x) as (b' & Hb' & Ha & Hs & Hal); [apply Hk; by left|].
    rewrite (run_load _ _ _ Hb) in Hb'. injection Hb' as ->.
    st_step (run_load _ _ _ Hb). rewrite run_get, Hn.
    rewrite IH; [|done|intros y Hy; apply Hk; by right|lia].
    do 3 f_equal. unfold stats_add, add_seg. rewrite Hal, Ha, Hs.
    destruct (Inv_bounds _ _ x HI) as (?&?&?&?&?); [apply Hk; by left|].
    rewrite (u64_small (saddr x + _)) by lia.
    destruct (sfree x); simpl; [|done]. by case_match.
  Qed.
End walks.

(** ** Which free block a request gets *)
Lemma split_inj {A} (x : A) l1 l2 k1 k2 :
  NoDup (l1 ++ x :: l2) → l1 ++ x :: l2 = k1 ++ x :: k2 → l1 = k1 ∧ l2 = k2.
Proof.
  revert k1; induction l1 as [|y l1 IH]; intros [|z k1]; simpl; intros Hnd Heq;
    simplify_eq; [done|..].
  - apply NoDup_cons in Hnd as [Hx _]. destruct Hx. set_solver.
  - apply NoDup_cons in Hnd as [Hx _]. destruct Hx. set_solver.
  - apply NoDup_cons in Hnd as [_ Hnd]. destruct (IH k1) as [-> ->]; done.
Qed.

Lemma pick_best_split sz best fl x :
  (∀ y, best = Some y → sz < ssize y) →
  pick_best sz best fl = Some x →
  (best = Some x ∧ Forall (λ y, sz <= ssize y → ssize x <= ssize y) fl)
  ∨ ∃ k1 k2, fl = k1 ++ x :: k2
    ∧ (∀ y, best = Some y → ssize x < ssize y)
    ∧ Forall (λ y, sz <= ssize y → ssize x < ssize y) k1
    ∧ Forall (λ y, sz <= ssize y → ssize x <= ssize y) k2.
Proof.
  revert best; induction fl as [|z fl IH]; intros best Hbest; simpl; [intros ->; by left|].
  destruct (Z.eqb_spec (ssize z) sz) as [Hz|Hz].
  { intros [= ->]. right. exists [], fl. split_and!; [done| |done|by apply Forall_true; lia].
    intros y Hy%Hbest. lia. }
  destruct (Z.leb_spec sz (ssize z)) as [Hle|Hgt]; [destruct best as [y|]|].
  - specialize (Hbest y eq_refl).
    destruct (Z.ltb_spec (ssize z) (ssize y)) as [Hlt|Hge];
      intros [[[= ->] Hall]|(k1 & k2 & -> & Hk & H1 & H2)]%IH; try (intros ? [= <-]; lia).
    + right. exists [], fl. split_and!; [done|by intros ? [= <-]|done|done].
    + specialize (Hk z eq_refl). right. exists (z :: k1), k2.
      split_and!; [done|intros ? [= <-]; lia|by constructor|done].
    + left. split; [done|]. by constructor.
    + specialize (Hk y eq_refl). right. exists (z :: k1), k2.
      split_and!; [done|by intros ? [= <-]|by constructor; [lia|]|done].
  - intros [[[= ->] Hall]|(k1 & k2 & -> & Hk & H1 & H2)]%IH; [| |intros ? [= <-]; lia].
    + right. by exists [], fl.
    + specialize (Hk z eq_refl). right. exists (z :: k1), k2.
      split_and!; [done|done|by constructor|done].
  - intros [[-> Hall]|(k1 & k2 & -> & Hk & H1 & H2)]%IH; [| |done].
    + left. split; [done|]. constructor; [lia|done].
    + right. exists (z :: k1), k2. split_and!; [done|done|constructor; [lia|done]|done].
Qed.

Definition before {A} (bottom_up : bool) (l1 l2 : list A) : list A := if bottom_up then l1 else l2.

(** The block a request of [sz] bytes gets: the first that fits, or the first of
    the smallest that fit, in the direction of the search. *)
Definition fits (sz : Z) (r : dump_row) : bool := negb (row_allocated r) && (sz <=? row_size r).

Definition chosen (policy : SearchPolicy) (bottom_up : bool) (sz : Z)
    (r1 : list dump_row) (r : dump_row) (r2 : list dump_row) : Prop :=
  fits sz r = true ∧
  match policy with
  | FIRST => Forall (λ r', fits sz r' = false) (before bottom_up r1 r2)
  | BEST => Forall (λ r', fits sz r' = true → row_size r < row_size r') (before bottom_up r1 r2)
            ∧ Forall (λ r', fits sz r' = true → row_size r <= row_size r') (before bottom_up r2 r1)
  end.

Lemma fits_row off sz x : fits sz (row_of off x) = sfree x && (sz <=? ssize x).
Proof. unfold fits. simpl. by rewrite negb_involutive. Qed.

Lemma Forall_frees (P : seg → Prop) l :
  Forall P (frees l) ↔ Forall (λ x, sfree x = true → P x) l.
Proof.
  induction l as [|x l IH]; simpl; [by rewrite !Forall_nil|].
  destruct (sfree x) eqn:Hf; rewrite !Forall_cons, IH, Hf; naive_solver.
Qed.

Lemma free_order_split bu l1 x l2 :
  sfree x = true →
  free_order bu (l1 ++ x :: l2)
  = if bu then frees l1 ++ x :: frees l2 else reverse (frees l2) ++ x :: reverse (frees l1).
Proof.
  intros Hf. unfold free_order. rewrite frees_app. simpl. rewrite Hf.
  destruct bu; [done|]. rewrite reverse_app, reverse_cons. by rewrite <- (assoc app).
Qed.

Lemma frees_submseteq l : frees l `sublist_of` l.
Proof.
  induction l as [|x l IH]; simpl; [done|]. destruct (sfree x); by constructor.
Qed.

Lemma free_order_NoDup bu l : NoDup l → NoDup (free_order bu l).
Proof.
  intros Hnd. assert (NoDup (frees l)) by (by eapply sublist_NoDup, frees_submseteq).
  unfold free_order. destruct bu; [done|]. by rewrite reverse_Permutation.
Qed.

Lemma pick_chosen policy sz bu l1 x l2 off :
  NoDup (l1 ++ x :: l2) →
  pick policy sz bu (l1 ++ x :: l2) = Some x →
  chosen policy bu sz (row_of off <$> l1) (row_of off x) (row_of off <$> l2).
Proof.
  intros Hnd Hp. pose proof (pick_some _ _ _ _ _ Hp) as (_ & Hf & Hle).
  apply (free_order_NoDup bu) in Hnd. pose proof (free_order_split bu l1 x l2 Hf) as Hsp.
  split; [rewrite fits_row, Hf; by apply Z.leb_le|].
  destruct policy; simpl in Hp.
  - apply pick_best_split in Hp as [[? _]|(k1 & k2 & Hfl & _ & H1 & H2)]; [done| |done].
    rewrite Hsp in Hfl, Hnd.
    assert (Forall (λ y, sz <= ssize y → ssize x < ssize y) (frees (before bu l1 l2))
            ∧ Forall (λ y, sz <= ssize y → ssize x <= ssize y) (frees (before bu l2 l1)))
      as [Hb Ha].
    { destruct bu; apply split_inj in Hfl as [<- <-]; try done;
        by rewrite ?Forall_reverse in *. }
    rewrite Forall_frees in Hb, Ha. unfold before in *.
    split; destruct bu; rewrite Forall_fmap;
      (eapply Forall_impl; [eassumption|]);
      intros y Hy; cbn; rewrite fits_row, andb_true_iff, Z.leb_le; naive_solver.
  - apply pick_first_some in Hp as (k1 & k2 & Hfl & _ & H1).
    rewrite Hsp in Hfl, Hnd.
    assert (Hb : Forall (λ y, ssize y < sz) (frees (before bu l1 l2))).
    { destruct bu; apply split_inj in Hfl as [<- <-]; try done;
        by rewrite ?Forall_reverse in *. }
    rewrite Forall_frees in Hb. unfold before in *.
    destruct bu; rewrite Forall_fmap; (eapply Forall_impl; [eassumption|]);
      intros y Hy; cbn in Hy |- *; rewrite fits_row; destruct (sfree y); [simpl|done|simpl|done];
      by apply Z.leb_gt, Hy.
Qed.

(** ** How the rows change *)
Definition carve_rows (r : dump_row) (off sz : Z) : list dump_row :=
  (if off =? 0 then [] else [mk_row (row_addr r) off false])
  ++ mk_row (row_addr r + off) sz true
  :: (if off + sz =? row_size r then []
      else [mk_row (row_addr r + off + sz) (row_size r - off - sz) false]).

Definition merge_row (r : dump_row) (rows : list dump_row) : list dump_row :=
  match rows with
  | r' :: rows' =>
    if row_allocated r || row_allocated r' then r :: rows
    else mk_row (row_addr r) (row_size r + row_size r') false :: rows'
  | [] => [r]
  end.
(** Merge all runs of neighbouring free blocks. *)
Definition coalesce (rows : list dump_row) : list dump_row := foldr merge_row [] rows.

Definition free_row (r : dump_row) : dump_row := mk_row (row_addr r) (row_size r) false.

Lemma carve_rows_of o n x off sz :
  row_of o <$> carve n x off sz = carve_rows (row_of o x) off sz.
Proof.
  unfold carve, carve_rows, row_of. simpl.
  destruct (Z.eqb_spec off 0) as [->|]; destruct (Z.eqb_spec sz (ssize x)) as [->|]; simpl;
    case_bool; try lia; simpl; repeat (f_equal; try lia).
Qed.

Lemma coalesce_id o l : coalesced false l → coalesce (row_of o <$> l) = row_of o <$> l.
Proof.
  induction l as [|x l IH]; [done|]. intros [_ Hl]. rewrite fmap_cons.
  change (coalesce (row_of o x :: (row_of o <$> l)))
    with (merge_row (row_of o x) (coalesce (row_of o <$> l))).
  rewrite IH by (by eapply coalesced_weaken). destruct l as [|y l]; [done|].
  destruct Hl as [Hxy _]. simpl. by destruct (sfree x), (sfree y).
Qed.

Lemma merge_rows_app o l R :
  coalesced false l → foldl (λ _ y, sfree y) false l = false →
  foldr merge_row R (row_of o <$> l) = (row_of o <$> l) ++ R.
Proof.
  induction l as [|x l IH]; [done|]. intros [_ Hl] Hlast. destruct l as [|y l].
  - simpl in *. destruct R; simpl; by rewrite ?Hlast.
  - change (merge_row (row_of o x) (foldr merge_row R (row_of o <$> y :: l))
            = (row_of o <$> x :: y :: l) ++ R).
    rewrite IH; [|by eapply coalesced_weaken|done].
    destruct Hl as [Hxy _]. simpl. by destruct (sfree x), (sfree y).
Qed.

Lemma join_next_rows o x l2 :
  row_of o <$> join_next x l2 = merge_row (free_row (row_of o x)) (row_of o <$> l2).
Proof. destruct l2 as [|n l2]; [done|]. simpl. by destruct (sfree n). Qed.

Lemma merge_row_absorb o p x R :
  sfree p = true →
  merge_row (row_of o p) (merge_row (free_row (row_of o x)) R)
  = merge_row (free_row (row_of o (absorb p x))) R.
Proof.
  intros Hp. destruct R as [|r R]; simpl; rewrite ?Hp; simpl; [done|].
  destruct (row_allocated r); simpl; rewrite Hp; simpl; [done|].
  by rewrite Z.add_assoc.
Qed.

Lemma free_segment_rows o l1 x l2 :
  sfree x = false → coalesced false (l1 ++ x :: l2) →
  row_of o <$> free_segment l1 x l2
  = coalesce ((row_of o <$> l1) ++ free_row (row_of o x) :: (row_of o <$> l2)).
Proof.
  intros Hf [H1 H2]%coalesced_used; [|done].
  unfold coalesce. rewrite foldr_app. simpl. fold (coalesce (row_of o <$> l2)).
  rewrite (coalesce_id _ _ H2), free_segment_eq, fmap_app, join_next_rows.
  destruct (join_prev_cases l1 x) as [[-> Hl]|(k & p & -> & Hp & ->)]; simpl.
  - by rewrite merge_rows_app.
  - apply (coalesced_free _ _ _ _ Hp) in H1 as (Hk & Hl & _).
    rewrite fmap_app, foldr_app. cbn [fmap list_fmap foldr].
    by rewrite merge_row_absorb, <- merge_rows_app.
Qed.

(** ** The calls a client makes *)
Inductive call :=
| Allocate (size_bytes : Z) (bottom_up : bool) (address_limit : Z)
| AllocateAt (absolute_start_address size_bytes : Z)
| Deallocate (absolute_address : Z)
| Clear.

Definition run_call (c : call) : ST FreeList (option Z) :=
  match c with
  | Allocate size_bytes bottom_up limit => allocate size_bytes bottom_up limit
  | AllocateAt a size_bytes => allocate_at_address a size_bytes
  | Deallocate a => _ ← deallocate a; mret None
  | Clear => _ ← clear; mret None
  end.

Definition valid_call (s : FreeList) (c : call) : Prop :=
  match c with
  | Allocate size_bytes _ _ => valid_request s size_bytes
  | AllocateAt a size_bytes => valid_at s a size_bytes
  | Deallocate a => in_range 64 a
  | Clear => True
  end.

Definition valid_config (max_size offset min_alloc align_ : Z) : Prop :=
  0 < align_ ∧ 0 < max_size ∧ 0 <= offset ∧ 0 < min_alloc
  ∧ (align_ | max_size) ∧ (align_ | offset) ∧ max_size + offset < 2 ^ 64.

(** States reached by valid calls; [cleared] says whether one of them was [Clear]. *)
Inductive reachable : bool → FreeList → Prop :=
| reachable_new max_size offset min_alloc align_ policy s :
    valid_config max_size offset min_alloc align_ →
    FreeList_new max_size offset min_alloc align_ policy = (Ok tt, s) →
    reachable false s
| reachable_call cleared s c r s' :
    reachable cleared s → valid_call s c → run_call c s = (r, s') →
    reachable (cleared || match c with Clear => true | _ => false end) s'.

Lemma run_clear s l :
  Inv s l →
  ∃ s', clear s = (Ok tt, s') ∧ Inv s' [mk_seg (fresh_loc s) 0 (max_size_bytes s) true]
        ∧ same_cfg s s'.
Proof.
  intros HI. pose proof (inv_cfg _ _ HI) as Hcfg. eexists. split; [done|].
  split; [|by constructor]. split.
  - constructor; simpl; try done.
    + split; [|done]. by rewrite lookup_insert_eq.
    + apply NoDup_singleton.
    + apply Forall_singleton. lia.
  - by destruct Hcfg.
  - simpl. destruct Hcfg. simpl in *. lia.
  - done.
  - simpl. apply Forall_singleton. by destruct Hcfg.
Qed.

Lemma FreeList_new_Inv max_size offset min_alloc align_ policy s :
  valid_config max_size offset min_alloc align_ →
  FreeList_new max_size offset min_alloc align_ policy = (Ok tt, s) →
  Inv s [mk_seg 0%nat 0 max_size true] ∧ lowest_ok s [mk_seg 0%nat 0 max_size true].
Proof.
  intros (? & ? & ? & ? & ? & ? & ?) Hnew. unfold FreeList_new in Hnew.
  rewrite run_check in Hnew by (apply Z.eqb_eq, Z.mod_divide; [lia|done]).
  injection Hnew as <-. split; [|done]. split.
  - constructor; simpl; try done.
    + apply NoDup_singleton.
    + apply Forall_singleton. lia.
  - by constructor.
  - simpl. lia.
  - done.
  - by apply Forall_singleton.
Qed.

(** An error a call may raise: only the address limit of [allocate]. *)
Definition limit_error (c : call) (e : error) : Prop :=
  e = TT_THROW ∧ ∃ size_bytes bottom_up limit,
    c = Allocate size_bytes bottom_up limit ∧ 0 < limit.

Lemma run_deallocate_cases s l addr :
  Inv s l → in_range 64 addr →
  (∃ l1 x l2 s', l = l1 ++ x :: l2 ∧ sfree x = false ∧ addr = saddr x + offset_bytes s
    ∧ deallocate addr s = (Ok tt, s') ∧ Inv s' (free_segment l1 x l2)
    ∧ (lowest_ok s l → lowest_ok s' (free_segment l1 x l2)) ∧ same_cfg s s')
  ∨ ((∀ x, x ∈ l → sfree x = false → saddr x + offset_bytes s ≠ addr)
     ∧ deallocate addr s = (Ok tt, s)).
Proof.
  intros HI Hr. unfold in_range in Hr.
  assert (Hdec : (∃ x, x ∈ useds l ∧ saddr x + offset_bytes s = addr)
                 ∨ Forall (λ x, saddr x + offset_bytes s ≠ addr) (useds l)).
  { rewrite <- Exists_exists. destruct (Exists_dec (λ x, saddr x + offset_bytes s = addr) (useds l));
      [by left|right]. by apply not_Exists_Forall; [apply _|]. }
  destruct Hdec as [(x & [Hx Hf]%elem_of_useds & <-)|Hno].
  - left. apply list_elem_of_split in Hx as (l1 & l2 & ->).
    destruct (run_deallocate s l1 x l2 _ HI Hf eq_refl) as (s' & ? & ? & ? & ?).
    exists l1, x, l2, s'. by split_and!.
  - right. rewrite Forall_forall in Hno.
    assert (Hno' : ∀ x, x ∈ l → sfree x = false → saddr x + offset_bytes s ≠ addr)
      by (intros x Hx Hf; apply Hno, elem_of_useds; done).
    split; [done|]. apply (run_deallocate_noop _ l); [done|]. intros x Hx Hf Ha.
    apply (Hno' x Hx Hf). destruct (Inv_bounds _ _ _ HI Hx) as (?&?&?&?&?).
    destruct (Z.le_gt_cases (offset_bytes s) addr).
    + rewrite u64_small in Ha by lia. lia.
    + rewrite u64_neg in Ha by lia. lia.
Qed.

Lemma run_call_Inv s l c :
  Inv s l → valid_call s c →
  ∃ r s' l', run_call c s = (r, s') ∧ Inv s' l' ∧ same_cfg s s'
    ∧ (c ≠ Clear → lowest_ok s l → lowest_ok s' l')
    ∧ (∀ e, r = Err e → limit_error c e).
Proof.
  intros HI Hv. destruct c as [sz bu limit|a sz|a|]; simpl in *.
  - pose proof (run_allocate s l sz bu limit HI Hv) as H. cbv zeta in H.
    destruct (pick _ _ _ _) as [x|]; [|by eexists _, s, l; split_and!; [done..|]].
    destruct H as (l1 & l2 & s' & -> & Hrun & []). eexists _, s', _.
    split_and!; [exact Hrun|done|done|done|]. intros e.
    destruct (Z.ltb_spec (saddr x + alloc_offset bu x (request_size s sz) + offset_bytes s) limit)
      as [Hlt|]; [|done].
    intros [= <-]. split; [done|]. eexists _, _, _. split; [done|].
    destruct aa_free as (y & Hy & _ & Hya & _).
    destruct (Inv_bounds _ _ _ HI Hy) as (?&?&?&?&?). lia.
  - pose proof (run_allocate_at s l a sz HI Hv) as H. cbv zeta in H.
    destruct (pick_at _ _ _) as [x|]; [|by eexists _, s, l; split_and!; [done..|]].
    destruct H as (l1 & l2 & s' & -> & Hrun & []). eexists _, s', _.
    by split_and!; [exact Hrun|..].
  - destruct (run_deallocate_cases s l a HI Hv)
      as [(l1 & x & l2 & s' & -> & _ & _ & Hrun & ? & ? & ?)|[_ Hrun]];
      st_step Hrun; (eexists _, _, _; split_and!; [done| | | |]; done).
  - destruct (run_clear s l HI) as (s' & Hrun & ? & ?). st_step Hrun.
    eexists _, _, _. by split_and!; [done|..].
Qed.

Lemma reachable_Inv b s :
  reachable b s → ∃ l, Inv s l ∧ (b = false → lowest_ok s l).
Proof.
  induction 1 as [max_size offset min_alloc align_ policy s Hv Hnew|b s c r s' Hs [l [HI Hl]] Hc Hr].
  - destruct (FreeList_new_Inv _ _ _ _ _ _ Hv Hnew). eauto.
  - destruct (run_call_Inv s l c HI Hc) as (r' & s'' & l' & Hr' & HI' & _ & Hlow & _).
    rewrite Hr in Hr'. injection Hr' as <- <-. exists l'. split; [done|].
    intros [-> Hclear]%orb_false_iff. apply Hlow; [by intros ->|auto].
Qed.

(** Running a list of calls, with what each returns. *)
Fixpoint run_calls (cs : list call) (s : FreeList) : list (outcome (option Z)) * FreeList :=
  match cs with
  | [] => ([], s)
  | c :: cs => let '(r, s) := run_call c s in let '(rs, s) := run_calls cs s in (r :: rs, s)
  end.

(** An allocator over 1024 bytes at offset 64 with a live allocation at 64 and
    one at 192, the state the witnesses start from. *)
Definition demo (policy : SearchPolicy) : FreeList :=
  (run_calls [Allocate 32 true 0; AllocateAt 192 50] (FreeList_new 1024 64 32 32 policy).2).2.

(** A test for [valid_call]. *)
Definition valid_callb (s : FreeList) (c : call) : bool :=
  let req size_bytes := (0 <=? size_bytes)
    && (Z.max size_bytes (min_allocation_size s) + alignment s <=? 18446744073709551616) in
  match c with
  | Allocate size_bytes _ _ => req size_bytes
  | AllocateAt a size_bytes =>
    req size_bytes && (0 <? alignment s) && (a mod alignment s =? 0) && (offset_bytes s <=? a)
    && (a <? 18446744073709551616)
    && (a - offset_bytes s + request_size s size_bytes <? 18446744073709551616)
  | Deallocate a => (0 <=? a) && (a <? 18446744073709551616)
  | Clear => true
  end.

Lemma valid_callb_sound s c : valid_callb s c = true → valid_call s c.
Proof.
  destruct c; simpl; rewrite ?andb_true_iff, ?Z.leb_le, ?Z.ltb_lt, ?Z.eqb_eq; try done.
  unfold valid_at, valid_request. intros H. decompose [and] H.
  split_and!; try done. apply Z.mod_divide; [lia|done].
Qed.

Fixpoint valid_calls (cs : list call) (s : FreeList) : bool :=
  match cs with
  | [] => true
  | Clear :: _ => false
  | c :: cs => valid_callb s c && valid_calls cs (run_call c s).2
  end.

Lemma reachable_run cs s :
  reachable false s → valid_calls cs s = true → reachable false (run_calls cs s).2.
Proof.
  revert s; induction cs as [|c cs IH]; intros s Hs Hv; [done|].
  assert (Hc : valid_callb s c = true ∧ valid_calls cs (run_call c s).2 = true ∧ c ≠ Clear).
  { destruct c; simpl in Hv; try done; apply andb_true_iff in Hv as [??]; done. }
  destruct Hc as (Hc%valid_callb_sound & Hcs & Hne).
  simpl. destruct (run_call c s) as [r s1] eqn:Hr.
  pose proof (reachable_call _ _ _ _ _ Hs Hc Hr) as H1.
  replace (match c with Clear => true | _ => false end) with false in H1 by (by destruct c).
  specialize (IH s1 H1 Hcs). by destruct (run_calls cs s1).
Qed.

Lemma demo_reachable policy : reachable false (demo policy).
Proof.
  apply reachable_run; [|by destruct policy; vm_compute].
  eapply (reachable_new 1024 64 32 32 policy); [|by destruct policy; vm_compute].
  repeat split; try lia; by apply Z.mod_divide.
Qed.

(** ** The properties *)

(** C19: in every state that valid calls can reach, a valid call runs to the end:
    every loop terminates within its fuel, no null pointer is dereferenced, no
    [TT_ASSERT] fires, and the only exception a call can raise is the
    [TT_THROW] of [allocate] when a nonzero address limit is given. *)
Theorem free_list_safe b s c :
  reachable b s → valid_call s c →
  ∃ r s', run_call c s = (r, s') ∧ ∀ e, r = Err e → limit_error c e.
Proof.
  intros (l & HI & _)%reachable_Inv Hv.
  destruct (run_call_Inv s l c HI Hv) as (r & s' & _ & ? & _ & _ & _ & ?). eauto.
Qed.

Lemma free_list_safe_witness :
  ∃ r s', run_call (Allocate 100 false 512) (demo BEST) = (r, s')
          ∧ ∀ e, r = Err e → limit_error (Allocate 100 false 512) e.
Proof.
  apply (free_list_safe false); [apply demo_reachable|]. vm_compute. split; congruence.
Defined.

(** Rows that lie one after the other from [a] to [e], none empty. *)
Fixpoint consecutive (a : Z) (rows : list dump_row) (e : Z) : Prop :=
  match rows with
  | [] => a = e
  | r :: rows => row_addr r = a ∧ 0 < row_size r ∧ consecutive (a + row_size r) rows e
  end.

Lemma tiles_rows o a l e : tiles a l e → consecutive (a + o) (row_of o <$> l) (e + o).
Proof.
  revert a; induction l as [|x l IH]; intros a; simpl; [by intros ->|].
  intros (<- & ? & H%IH). split_and!; [done|done|].
  by replace (saddr x + o + ssize x) with (saddr x + ssize x + o) by lia.
Qed.

(** C20: in every reachable state the dumped blocks partition the allocator's
    range [offset .. offset + max_size): they follow each other without gap or
    overlap, each is non-empty, starts at an aligned address and has an aligned
    size, and no two neighbours are both free.  In particular live allocations
    never overlap. *)
Theorem free_list_partition b s :
  reachable b s →
  ∃ rows, dump_blocks s = (Ok rows, s)
    ∧ consecutive (offset_bytes s) rows (offset_bytes s + max_size_bytes s)
    ∧ Forall (λ r, (alignment s | row_addr r) ∧ (alignment s | row_size r)) rows
    ∧ coalesce rows = rows.
Proof.
  intros (l & HI & _)%reachable_Inv. eexists. split; [by apply run_dump|]. split_and!.
  - rewrite (Z.add_comm (offset_bytes s)). apply (tiles_rows _ 0), HI.
  - apply Forall_fmap, Forall_forall. intros x Hx. simpl.
    pose proof (inv_aligned _ _ HI) as Hal. rewrite Forall_forall in Hal.
    split; [|by apply Hal]. apply Z.divide_add_r; [by eapply Inv_addr_aligned|].
    apply HI.
  - apply coalesce_id, HI.
Qed.

Lemma free_list_partition_witness :
  ∃ rows, dump_blocks (demo FIRST) = (Ok rows, demo FIRST)
    ∧ consecutive 64 rows 1088
    ∧ Forall (λ r, (32 | row_addr r) ∧ (32 | row_size r)) rows ∧ coalesce rows = rows.
Proof. apply (free_list_partition false (demo FIRST)), demo_reachable. Defined.

Lemma rows_of s l rows :
  Inv s l → dump_blocks s = (Ok rows, s) → rows = row_of (offset_bytes s) <$> l.
Proof. intros HI. rewrite (run_dump s l HI). congruence. Qed.

Lemma rows_after s s' l :
  Inv s' l → same_cfg s s' → dump_blocks s' = (Ok (row_of (offset_bytes s) <$> l), s').
Proof. intros HI Hc. by rewrite (run_dump s' l HI), (cfg_offset _ _ Hc). Qed.

Lemma Inv_NoDup s l : Inv s l → NoDup l.
Proof. intros HI. apply (NoDup_fmap_1 sloc), HI. Qed.

(** C21: [allocate] on a reachable state, against the rows before and after.
    The request is rounded up to [request_size].  If no free block is large
    enough, the result is [nullopt] and nothing changes.  Otherwise the block
    is the one the policy prescribes ([chosen]: first fit, or the first of the
    smallest that fit), the allocation is cut from its start (bottom-up) or its
    end (top-down), the rest stays free, all other blocks are untouched, and
    the absolute address is returned unless it is below the limit. *)
Theorem allocate_correct b s rows size_bytes bottom_up limit :
  reachable b s → dump_blocks s = (Ok rows, s) → valid_request s size_bytes →
  let sz := request_size s size_bytes in
  (Forall (λ r, fits sz r = false) rows ∧ allocate size_bytes bottom_up limit s = (Ok None, s))
  ∨ ∃ r1 r r2 s', rows = r1 ++ r :: r2 ∧ chosen (search_policy_ s) bottom_up sz r1 r r2
    ∧ let off := if bottom_up then 0 else row_size r - sz in
      let a := row_addr r + off in
      allocate size_bytes bottom_up limit s
      = (if a <? limit then Err TT_THROW else Ok (Some a), s')
      ∧ dump_blocks s' = (Ok (r1 ++ carve_rows r off sz ++ r2), s').
Proof.
  intros (l & HI & _)%reachable_Inv ->%(rows_of _ _ _ HI) Hv sz.
  pose proof (run_allocate s l size_bytes bottom_up limit HI Hv) as H. cbv zeta in H. fold sz in H.
  destruct (pick _ sz bottom_up l) as [x|] eqn:Hp.
  - right. destruct H as (l1 & l2 & s' & -> & Hrun & Haa).
    eexists _, _, _, s'. split; [by rewrite fmap_app, fmap_cons|].
    split; [apply pick_chosen; [by eapply Inv_NoDup|done]|]. cbv zeta. split.
    + rewrite Hrun. unfold row_of, alloc_offset. simpl.
      by replace (saddr x + (if bottom_up then 0 else ssize x - sz) + offset_bytes s)
        with (saddr x + offset_bytes s + (if bottom_up then 0 else ssize x - sz)) by lia.
    + destruct Haa as [HI' _ Hc _ _].
      by rewrite (rows_after _ _ _ HI' Hc), !fmap_app, carve_rows_of.
  - left. split; [|done]. apply Forall_fmap, Forall_forall. intros x Hx. cbn.
    rewrite fits_row. destruct (sfree x) eqn:Hf; [|done]. simpl.
    apply Z.leb_gt. by eapply pick_none.
Qed.

Lemma allocate_correct_witness :
  ∃ r1 r r2 s', [mk_row 64 32 true; mk_row 96 96 false; mk_row 192 64 true; mk_row 256 832 false]
                = r1 ++ r :: r2
    ∧ chosen BEST false 64 r1 r r2
    ∧ let off := row_size r - 64 in
      let a := row_addr r + off in
      allocate 40 false 0 (demo BEST) = (if a <? 0 then Err TT_THROW else Ok (Some a), s')
      ∧ dump_blocks s' = (Ok (r1 ++ carve_rows r off 64 ++ r2), s').
Proof.
  destruct (allocate_correct false (demo BEST)
    [mk_row 64 32 true; mk_row 96 96 false; mk_row 192 64 true; mk_row 256 832 false] 40 false 0)
    as [[Hno _]|H].
  - apply demo_reachable.
  - by vm_compute.
  - vm_compute. split; congruence.
  - exfalso. apply Forall_cons in Hno as [_ [H _]%Forall_cons]. vm_compute in H. congruence.
  - exact H.
Defined.

(** [allocate_at_address] succeeds exactly when the requested range lies in
    a free block; the range is then cut out of that block, the two remainders
    stay free, and the requested address is returned.  Otherwise the result is
    [nullopt] and nothing changes. *)
Theorem allocate_at_address_correct b s rows addr size_bytes :
  reachable b s → dump_blocks s = (Ok rows, s) → valid_at s addr size_bytes →
  let sz := request_size s size_bytes in
  let inside r := negb (row_allocated r) && (row_addr r <=? addr)
                  && (addr + sz <=? row_addr r + row_size r) in
  (Forall (λ r, inside r = false) rows ∧ allocate_at_address addr size_bytes s = (Ok None, s))
  ∨ ∃ r1 r r2 s', rows = r1 ++ r :: r2 ∧ inside r = true
    ∧ allocate_at_address addr size_bytes s = (Ok (Some addr), s')
    ∧ dump_blocks s' = (Ok (r1 ++ carve_rows r (addr - row_addr r) sz ++ r2), s').
Proof.
  intros (l & HI & _)%reachable_Inv ->%(rows_of _ _ _ HI) Hv sz inside.
  assert (Hin : ∀ x, inside (row_of (offset_bytes s) x)
                     = sfree x && fits_at (addr - offset_bytes s) sz x).
  { intros x. unfold inside, fits_at. simpl. rewrite negb_involutive, <- andb_assoc.
    f_equal. f_equal; apply eq_true_iff_eq; rewrite !Z.leb_le; lia. }
  pose proof (run_allocate_at s l addr size_bytes HI Hv) as H. cbv zeta in H. fold sz in H.
  destruct (pick_at _ sz _) as [x|] eqn:Hp.
  - right. destruct H as (l1 & l2 & s' & -> & Hrun & [HI' _ Hc _ _]).
    apply pick_at_some in Hp as [[_ Hf]%elem_of_frees Hfit].
    eexists _, _, _, s'. split; [by rewrite fmap_app, fmap_cons|].
    rewrite Hin, Hf, Hfit, Hrun, (rows_after _ _ _ HI' Hc), !fmap_app, carve_rows_of.
    split_and!; [done|done|]. simpl.
    by replace (addr - (saddr x + offset_bytes s))
      with (addr - offset_bytes s - saddr x) by lia.
  - left. split; [|done]. apply pick_at_none in Hp. rewrite Forall_frees in Hp.
    apply Forall_fmap. eapply Forall_impl; [exact Hp|]. intros x Hx. cbn in Hx |- *.
    rewrite Hin. destruct (sfree x); [simpl; auto|done].
Qed.

Lemma allocate_at_address_correct_witness :
  Forall (λ r, negb (row_allocated r) && (row_addr r <=? 224)
               && (224 + 32 <=? row_addr r + row_size r) = false)
    [mk_row 64 32 true; mk_row 96 96 false; mk_row 192 64 true; mk_row 256 832 false]
  ∧ allocate_at_address 224 32 (demo FIRST) = (Ok None, demo FIRST).
Proof.
  destruct (allocate_at_address_correct false (demo FIRST)
    [mk_row 64 32 true; mk_row 96 96 false; mk_row 192 64 true; mk_row 256 832 false] 224 32)
    as [H|(r1 & r & r2 & s' & Hr & Hin & _)].
  - apply demo_reachable.
  - by vm_compute.
  - by apply (valid_callb_sound _ (AllocateAt 224 32)).
  - exact H.
  - exfalso. assert (r ∈ [mk_row 64 32 true; mk_row 96 96 false; mk_row 192 64 true;
      mk_row 256 832 false]) as Hr' by (rewrite Hr; apply elem_of_app; right; left).
    repeat (apply elem_of_cons in Hr' as [->|Hr']; [vm_compute in Hin; congruence|]).
    by apply elem_of_nil in Hr'.
Defined.

(** C22: [deallocate] of the address of a live allocation frees exactly that block
    and merges it with whichever neighbours are free; on any other address it
    changes nothing.  It never raises. *)
Theorem deallocate_correct b s rows addr :
  reachable b s → dump_blocks s = (Ok rows, s) → in_range 64 addr →
  (∃ r1 r r2 s', rows = r1 ++ r :: r2 ∧ row_allocated r = true ∧ row_addr r = addr
    ∧ deallocate addr s = (Ok tt, s')
    ∧ dump_blocks s' = (Ok (coalesce (r1 ++ free_row r :: r2)), s'))
  ∨ (Forall (λ r, row_allocated r = true → row_addr r ≠ addr) rows
     ∧ deallocate addr s = (Ok tt, s)).
Proof.
  intros (l & HI & _)%reachable_Inv ->%(rows_of _ _ _ HI) Hr.
  destruct (run_deallocate_cases s l addr HI Hr)
    as [(l1 & x & l2 & s' & -> & Hf & -> & Hrun & HI' & _ & Hc)|[Hno Hrun]].
  - left. eexists _, _, _, s'. split; [by rewrite fmap_app, fmap_cons|].
    split_and!; [simpl; by rewrite Hf|done|done|].
    rewrite (rows_after _ _ _ HI' Hc), free_segment_rows; [done|done|apply HI].
  - right. split; [|done]. apply Forall_fmap, Forall_forall. intros x Hx. cbn.
    destruct (sfree x) eqn:Hf; [done|]. intros _. by apply Hno.
Qed.

Lemma deallocate_correct_witness :
  (∃ r1 r r2 s', [mk_row 64 32 true; mk_row 96 96 false; mk_row 192 64 true; mk_row 256 832 false]
                 = r1 ++ r :: r2 ∧ row_allocated r = true ∧ row_addr r = 192
    ∧ deallocate 192 (demo FIRST) = (Ok tt, s')
    ∧ dump_blocks s' = (Ok (coalesce (r1 ++ free_row r :: r2)), s'))
  ∨ (Forall (λ r, row_allocated r = true → row_addr r ≠ 192)
      [mk_row 64 32 true; mk_row 96 96 false; mk_row 192 64 true; mk_row 256 832 false]
     ∧ deallocate 192 (demo FIRST) = (Ok tt, demo FIRST)).
Proof.
  apply (deallocate_correct false); [apply demo_reachable|by vm_compute|].
  vm_compute. split; congruence.
Defined.

Lemma coalesce_cons r rows : coalesce (r :: rows) = merge_row r (coalesce rows).
Proof. done. Qed.
Lemma coalesce_app_r r1 r2 r2' : coalesce r2 = coalesce r2' → coalesce (r1 ++ r2) = coalesce (r1 ++ r2').
Proof. unfold coalesce. rewrite !foldr_app. by intros ->. Qed.

(** Carving a piece out of a free block and freeing it again gives the block back. *)
Lemma carve_free n x off sz :
  sfree x = true → 0 < sz → 0 <= off → off + sz <= ssize x →
  ∃ c1 y c2, carve n x off sz = c1 ++ y :: c2
    ∧ sfree y = false ∧ saddr y = saddr x + off
    ∧ ∀ o l2, coalesced true l2 →
      coalesce ((row_of o <$> c1) ++ free_row (row_of o y) :: (row_of o <$> c2 ++ l2))
      = coalesce (row_of o <$> x :: l2).
Proof.
  intros Hf Hsz Hoff Hle.
  assert (Hmerge : ∀ o l2 a n, coalesced true l2 →
    merge_row (mk_row a n false) (coalesce (row_of o <$> l2)) = mk_row a n false :: (row_of o <$> l2)).
  { intros o l2 a m Hl. rewrite coalesce_id by (by eapply coalesced_weaken).
    destruct l2 as [|z l2]; [done|]. destruct Hl as [Hz _]. simpl in *. by rewrite Hz. }
  unfold carve. destruct (Z.eqb_spec off 0) as [->|Hno]; simpl;
    [destruct (Z.eqb_spec sz (ssize x)) as [->|Hne]|destruct (Z.eqb_spec (off + sz) (ssize x))];
    simpl.
  1: exists [], (set_used x), []. 2: eexists [], _, [_]. 3: eexists [_], _, []. 4: eexists [_], _, [_].
  all: (split; [reflexivity|]); (split; [reflexivity|]); (split; [simpl; lia|]);
    intros o l2 Hl; cbn [app]; rewrite ?fmap_cons, ?fmap_nil; cbn [app]; rewrite !coalesce_cons;
    assert (Hx : row_of o x = mk_row (saddr x + o) (ssize x) false)
      by (unfold row_of; by rewrite Hf);
    rewrite Hx; unfold free_row;
    repeat change (row_of o (mk_seg ?n ?a ?z true)) with (mk_row (a + o) z false);
    cbn [row_addr row_size row_of saddr ssize set_used];
    rewrite !Hmerge by done; cbn [merge_row row_allocated orb row_addr row_size];
    repeat (f_equal; try lia).
Qed.

(** what [allocate] gives, [deallocate] takes back: freeing the returned
    address right after the allocation restores the rows as they were. *)
Theorem allocate_deallocate b s rows size_bytes bottom_up limit a s' :
  reachable b s → dump_blocks s = (Ok rows, s) → valid_request s size_bytes →
  allocate size_bytes bottom_up limit s = (Ok (Some a), s') →
  ∃ s'', deallocate a s' = (Ok tt, s'') ∧ dump_blocks s'' = (Ok rows, s'').
Proof.
  intros (l & HI & _)%reachable_Inv ->%(rows_of _ _ _ HI) Hv Hr.
  pose proof (run_allocate s l size_bytes bottom_up limit HI Hv) as H. cbv zeta in H.
  set (sz := request_size s size_bytes) in *.
  destruct (pick _ sz bottom_up l) as [x|] eqn:Hp; [|congruence].
  destruct H as (l1 & l2 & s1 & -> & Hrun & [HI' _ Hc _ _]).
  apply pick_some in Hp as (_ & Hf & Hle). rewrite Hr in Hrun. clear Hr.
  destruct (_ <? limit); [congruence|]. injection Hrun as -> ->.
  destruct (request_size_spec _ _ (inv_cfg _ _ HI) Hv) as (Hsz & _). fold sz in Hsz.
  set (off := alloc_offset bottom_up x sz) in *.
  assert (Hoff : 0 <= off ∧ off + sz <= ssize x)
    by (unfold off, alloc_offset; destruct bottom_up; lia).
  destruct (carve_free (fresh_loc s) x off sz Hf Hsz (proj1 Hoff) (proj2 Hoff))
    as (c1 & y & c2 & Hcarve & Hy & Hya & Hcoal).
  rewrite Hcarve in HI'. replace (l1 ++ (c1 ++ y :: c2) ++ l2) with ((l1 ++ c1) ++ y :: (c2 ++ l2))
    in HI' by (by rewrite <- !(assoc app)).
  destruct (run_deallocate s1 (l1 ++ c1) y (c2 ++ l2) (saddr x + off + offset_bytes s) HI' Hy)
    as (s'' & Hrun & HI'' & _ & Hc'); [by rewrite Hya, (cfg_offset _ _ Hc)|].
  exists s''. split; [done|].
  rewrite (rows_after s s'' _ HI'' ltac:(by destruct Hc, Hc'; constructor; congruence)).
  do 2 f_equal. rewrite free_segment_rows; [|done|apply HI'].
  rewrite fmap_app, <- (assoc app).
  pose proof (inv_coalesced _ _ HI) as Hco.
  rewrite (coalesce_app_r _ _ (row_of (offset_bytes s) <$> x :: l2)).
  - rewrite <- fmap_app. by apply coalesce_id.
  - apply Hcoal. by apply (coalesced_free _ _ _ _ Hf) in Hco as (_ & _ & ?).
Qed.

Lemma allocate_deallocate_witness :
  ∃ s'', deallocate 128 (allocate 40 false 0 (demo BEST)).2 = (Ok tt, s'')
  ∧ dump_blocks s'' = (Ok [mk_row 64 32 true; mk_row 96 96 false; mk_row 192 64 true;
                           mk_row 256 832 false], s'').
Proof.
  eapply (allocate_deallocate false (demo BEST) _ 40 false 0);
    [apply demo_reachable|by vm_compute| |].
  - vm_compute. split; congruence.
  - by vm_compute.
Defined.

Lemma allocs_rows o l :
  row_addr <$> filter (λ r, row_allocated r = true) (row_of o <$> l)
  = (λ p, p.1 + o) <$> allocs l.
Proof.
  induction l as [|x l IH]; [done|]. rewrite fmap_cons, filter_cons. unfold allocs in *.
  cbn [useds]. destruct (sfree x) eqn:Hf; case_decide as Hd; simpl in Hd; rewrite Hf in Hd; try done.
  by rewrite !fmap_cons, IH.
Qed.

(** As long as the allocator has not been cleared, [lowest_occupied_address]
    is the absolute address of the first live allocation, and is empty exactly
    when there is none. *)
Theorem lowest_occupied_address_correct s rows :
  reachable false s → dump_blocks s = (Ok rows, s) →
  lowest_occupied_address s = head (row_addr <$> filter (λ r, row_allocated r = true) rows).
Proof.
  intros (l & HI & Hl)%reachable_Inv ->%(rows_of _ _ _ HI).
  rewrite allocs_rows. unfold lowest_occupied_address. rewrite Hl by done.
  destruct (allocs l) as [|[a n] k] eqn:Ha; [done|]. simpl. f_equal.
  assert (Hin : (a, n) ∈ allocs l) by (rewrite Ha; by left).
  apply elem_of_allocs in Hin as (x & Hx & _ & <- & _).
  destruct (Inv_bounds _ _ _ HI Hx) as (?&?&?&?&?). apply u64_small. lia.
Qed.

Lemma lowest_occupied_address_correct_witness :
  lowest_occupied_address (demo FIRST)
  = head (row_addr <$> filter (λ r, row_allocated r = true)
      [mk_row 64 32 true; mk_row 96 96 false; mk_row 192 64 true; mk_row 256 832 false]).
Proof. apply lowest_occupied_address_correct; [apply demo_reachable|by vm_compute]. Defined.

(** ** Statistics *)
Definition sum_sizes (allocated : bool) (rows : list dump_row) : Z :=
  Zsum (row_size <$> filter (λ r, row_allocated r = allocated) rows).

Definition max_free (rows : list dump_row) : Z :=
  foldr (λ r m, if row_allocated r then m else Z.max (row_size r) m) 0 rows.

Lemma sum_sizes_cons b r rows :
  sum_sizes b (r :: rows) = (if eqb (row_allocated r) b then row_size r else 0) + sum_sizes b rows.
Proof.
  unfold sum_sizes. rewrite filter_cons. by destruct r as [a n []], b; simpl.
Qed.

Lemma max_free_cons r rows :
  max_free (r :: rows) = if row_allocated r then max_free rows else Z.max (row_size r) (max_free rows).
Proof. done. Qed.

Lemma max_free_bounds o a l e :
  tiles a l e → 0 <= max_free (row_of o <$> l) <= e - a.
Proof.
  revert a; induction l as [|x l IH]; intros a; [simpl; lia|].
  intros (_ & ? & H%IH). rewrite fmap_cons, max_free_cons. simpl. destruct (sfree x); simpl; lia.
Qed.

Lemma sum_sizes_total o a l e :
  tiles a l e →
  0 <= sum_sizes true (row_of o <$> l) ∧ 0 <= sum_sizes false (row_of o <$> l)
  ∧ sum_sizes true (row_of o <$> l) + sum_sizes false (row_of o <$> l) = e - a.
Proof.
  revert a; induction l as [|x l IH]; intros a; [unfold sum_sizes; simpl; lia|].
  intros (_ & ? & H%IH). rewrite fmap_cons, !sum_sizes_cons. simpl. destruct (sfree x); simpl; lia.
Qed.

Lemma foldl_add_seg s k a e st :
  tiles a k e → 0 <= total_allocated_bytes st → 0 <= total_free_bytes st →
  total_allocated_bytes st + (e - a) < 2 ^ 64 → total_free_bytes st + (e - a) < 2 ^ 64 →
  let rows := row_of (offset_bytes s) <$> k in
  let st' := foldl (add_seg s) st k in
  total_allocatable_size_bytes st' = total_allocatable_size_bytes st
  ∧ total_allocated_bytes st' = total_allocated_bytes st + sum_sizes true rows
  ∧ total_free_bytes st' = total_free_bytes st + sum_sizes false rows
  ∧ (0 <= largest_free_block_bytes st →
     largest_free_block_bytes st' = Z.max (largest_free_block_bytes st) (max_free rows)).
Proof.
  revert a st; induction k as [|x k IH]; intros a st Ht ?? Hb1 Hb2; cbn zeta.
  { unfold sum_sizes. simpl. split_and!; lia. }
  destruct Ht as (_ & Hx & Ht). pose proof (tiles_le _ _ _ Ht).
  assert (Hst : ∃ n m, add_seg s st x = mk_stats (total_allocatable_size_bytes st)
      (total_allocated_bytes st + if sfree x then 0 else ssize x)
      (total_free_bytes st + if sfree x then ssize x else 0) n m
      ∧ (0 <= largest_free_block_bytes st →
         n = Z.max (largest_free_block_bytes st) (if sfree x then ssize x else 0))).
  { unfold add_seg. destruct (sfree x).
    - rewrite u64_small, Z.add_0_r by lia. eexists _, _. split; [done|]. case_bool; lia.
    - rewrite u64_small, Z.add_0_r by lia. eexists _, _. split; [done|]. lia. }
  destruct Hst as (n & m & Hst & Hn). rewrite fmap_cons, !sum_sizes_cons, max_free_cons.
  change (foldl (add_seg s) st (x :: k)) with (foldl (add_seg s) (add_seg s st x) k).
  rewrite Hst.
  match goal with |- context [foldl _ ?st1 k] =>
    destruct (IH (a + ssize x) st1 Ht) as (-> & -> & -> & Hmax) end;
    simpl; [destruct (sfree x); lia..|].
  split_and!; [done|destruct (sfree x); simpl; lia..|].
  intros Hpos. specialize (Hn Hpos). rewrite Hmax; simpl; destruct (sfree x); simpl; lia.
Qed.

(** Without allocations a coalesced tiling is one free block. *)
Lemma max_free_none o l e :
  tiles 0 l e → coalesced false l → 0 < e → sum_sizes true (row_of o <$> l) = 0 →
  max_free (row_of o <$> l) = e.
Proof.
  destruct l as [|x l]; [simpl; lia|]. intros (_ & Hx & Ht) [_ Hc] He.
  rewrite fmap_cons, sum_sizes_cons, max_free_cons. simpl row_allocated. simpl row_size.
  destruct (sum_sizes_total o _ _ _ Ht) as (? & _ & _). destruct (sfree x); simpl; [|lia].
  destruct l as [|y l]; [simpl in *; lia|]. destruct Hc as [Hy _]. simpl in Hy.
  rewrite fmap_cons, sum_sizes_cons. simpl row_allocated. simpl row_size. rewrite Hy. simpl.
  destruct Ht as (_ & ? & Ht). destruct (sum_sizes_total o _ _ _ Ht). lia.
Qed.

(** [get_statistics] adds up: the allocated bytes are the sizes of the live
    allocations, the free bytes those of the free blocks, together the whole
    range, and the largest free block is the size of the largest free row. *)
Theorem get_statistics_correct b s rows :
  reachable b s → dump_blocks s = (Ok rows, s) →
  ∃ st, get_statistics s = (Ok st, s)
    ∧ total_allocatable_size_bytes st = max_size_bytes s
    ∧ total_allocated_bytes st = sum_sizes true rows
    ∧ total_free_bytes st = sum_sizes false rows
    ∧ total_allocated_bytes st + total_free_bytes st = max_size_bytes s
    ∧ largest_free_block_bytes st = max_free rows.
Proof.
  intros (l & HI & _)%reachable_Inv ->%(rows_of _ _ _ HI).
  pose proof (inv_rep _ _ HI) as HR. pose proof (inv_tiles _ _ HI) as Ht.
  destruct (inv_cfg _ _ HI) as [_ ? ? _ _ _ ?].
  unfold get_statistics. rewrite run_get, (rep_block_head _ _ HR).
  st_step (run_statistics_loop s l HI l (chain_fuel s) (mk_stats (max_size_bytes s) 0 0 0 [])
    (linked_blocks _ _ _ _ _ (rep_chain _ _ HR)) (reflexivity l)
    ltac:(pose proof (Rep_length _ _ HR); unfold chain_fuel; lia)).
  destruct (foldl_add_seg s l 0 (max_size_bytes s) (mk_stats (max_size_bytes s) 0 0 0 []) Ht)
    as (H1 & H2 & H3 & H4); [simpl; lia..|]. cbn zeta in *. simpl in H1, H2, H3, H4.
  rewrite Z.add_0_l in H2, H3. specialize (H4 (Z.le_refl 0)).
  destruct (sum_sizes_total (offset_bytes s) _ _ _ Ht) as (? & ? & Htot).
  pose proof (max_free_bounds (offset_bytes s) _ _ _ Ht) as Hmax.
  pose proof (max_free_none (offset_bytes s) _ _ Ht (inv_coalesced _ _ HI)) as Hnone.
  eexists. split; [done|]. rewrite H2. destruct (Z.eqb_spec (sum_sizes true (row_of (offset_bytes s) <$> l)) 0)
    as [Hz|]; simpl; rewrite ?H1, ?H2, ?H3, ?H4; split_and!; try lia.
Qed.

Lemma get_statistics_correct_witness :
  ∃ st, get_statistics (demo FIRST) = (Ok st, demo FIRST)
    ∧ total_allocatable_size_bytes st = 1024
    ∧ total_allocated_bytes st = 96
    ∧ total_free_bytes st = 928
    ∧ total_allocated_bytes st + total_free_bytes st = 1024
    ∧ largest_free_block_bytes st = 832.
Proof.
  apply (get_statistics_correct false (demo FIRST)
    [mk_row 64 32 true; mk_row 96 96 false; mk_row 192 64 true; mk_row 256 832 false]);
    [apply demo_reachable|by vm_compute].
Defined.

Lemma run_available_loop s sz fl fuel acc :
  linked (heap s) next_free fl → (length fl ≤ fuel)%nat → 0 < sz →
  Forall (λ x, 0 <= saddr x ∧ 0 < ssize x ∧ saddr x + ssize x < 18446744073709551616) fl →
  available_loop fuel sz (head_loc fl None) acc s
  = (Ok (acc ++ ((λ x, (saddr x, saddr x + ssize x - sz)) <$> filter (λ x, sz <= ssize x) fl)), s).
Proof.
  revert fuel acc; induction fl as [|x fl IH]; intros fuel acc;
    [by destruct fuel; rewrite filter_nil; simpl; rewrite app_nil_r|].
  simpl. intros [(b & Hb & Ha & Hs & Hn) Hl] Hfuel Hsz [Hx Hfl]%Forall_cons.
  destruct fuel as [|fuel]; [simpl in Hfuel; lia|]. simpl.
  st_step (run_load _ _ _ Hb). rewrite Ha, Hs, Hn, IH by (done || lia). rewrite filter_cons.
  case_decide; destruct (Z.leb_spec sz (ssize x)); try lia; [|done].
  unwrap. by rewrite <- (assoc app).
Qed.

(** [available_addresses] lists exactly the placements [allocate_at_address]
    accepts: the request at an aligned address succeeds iff the address, taken
    relative to the allocator's offset, lies in one of the returned ranges
    (both ends included). *)
Theorem available_addresses_complete b s addr size_bytes :
  reachable b s → valid_at s addr size_bytes →
  ∃ ranges, available_addresses size_bytes s = (Ok ranges, s)
    ∧ ((∃ lo hi, (lo, hi) ∈ ranges ∧ lo <= addr - offset_bytes s <= hi)
       ↔ (allocate_at_address addr size_bytes s).1 = Ok (Some addr)).
Proof.
  intros (l & HI & _)%reachable_Inv Hv. pose proof (inv_rep _ _ HI) as HR.
  pose proof Hv as [Hreq _]. pose proof (inv_cfg _ _ HI) as Hcfg.
  destruct (request_size_spec _ _ Hcfg Hreq) as (Hsz & _).
  eexists. split.
  { unfold available_addresses. rewrite run_get, alloc_size_request by done.
    rewrite (rep_free_head _ _ HR), head_free_frees.
    apply run_available_loop; [eapply linked_free_forward, HR| |done|by apply (frees_bounds s)].
    apply (free_order_fuel s l true HR). }
  simpl. pose proof (run_allocate_at s l addr size_bytes HI Hv) as H. cbv zeta in H.
  set (sz := request_size s size_bytes) in *.
  assert (Hranges : (∃ lo hi, (lo, hi) ∈ (λ x, (saddr x, saddr x + ssize x - sz))
                       <$> filter (λ x, sz <= ssize x) (frees l)
                     ∧ lo <= addr - offset_bytes s <= hi)
                    ↔ ∃ x, x ∈ frees l ∧ fits_at (addr - offset_bytes s) sz x = true).
  { split.
    - intros (lo & hi & (x & [= -> ->] & [Hx1 Hx2]%list_elem_of_filter)%list_elem_of_fmap & ?).
      exists x. split; [done|]. apply fits_at_true. lia.
    - intros (x & Hx & Hfit%fits_at_true). eexists _, _. split; [|shelve].
      apply list_elem_of_fmap. exists x. split; [done|]. apply list_elem_of_filter.
      split; [lia|done]. Unshelve. simpl. lia. }
  rewrite Hranges. destruct (pick_at _ sz _) as [x|] eqn:Hp.
  - destruct H as (l1 & l2 & s' & -> & -> & _). split; [done|]. intros _. exists x.
    by apply pick_at_some.
  - rewrite H. split; [|done]. intros (x & Hx & Hfit).
    apply pick_at_none in Hp. rewrite Forall_forall in Hp. by rewrite Hp in Hfit.
Qed.

Lemma available_addresses_complete_witness :
  ∃ ranges, available_addresses 100 (demo FIRST) = (Ok ranges, demo FIRST)
    ∧ ((∃ lo hi, (lo, hi) ∈ ranges ∧ lo <= 960 - 64 <= hi)
       ↔ (allocate_at_address 960 100 (demo FIRST)).1 = Ok (Some 960)).
Proof.
  apply (available_addresses_complete false (demo FIRST)); [apply demo_reachable|].
  by apply (valid_callb_sound _ (AllocateAt 960 100)).
Defined.

(** The scenario of tests/tt_metal/tt_metal/unit_tests/allocator/test_free_list_allocator.cpp. *)
Definition directed_series : list call :=
  [Allocate 32 true 0; AllocateAt 64 32; Allocate 48 true 0; Allocate 16 true 0;
   AllocateAt 512 128; Deallocate 96; AllocateAt 128 64; Allocate 32 true 0; Deallocate 32;
   Deallocate 64; Allocate 64 true 0; Allocate 316 true 0; Deallocate 32; Deallocate 128;
   Deallocate 96; AllocateAt 64 96; Deallocate 192; AllocateAt 256 128; Deallocate 0;
   Allocate 28 true 0; Allocate 64 false 0; Allocate 128 false 0; AllocateAt 736 96;
   Allocate 96 false 0; Allocate 96 false 0; Deallocate 416; Deallocate 512;
   Allocate 224 true 0; Deallocate 736; Clear; Allocate 1024 true 0; Deallocate 0;
   Allocate 64 true 0; Allocate 960 true 0].

Example directed_series_results :
  (run_calls directed_series (FreeList_new 1024 0 32 32 FIRST).2).1
  = Ok <$> [Some 0; Some 64; Some 96; Some 32; Some 512; None; Some 128; Some 96; None; None;
            Some 32; Some 192; None; None; None; Some 64; None; Some 256; None; Some 0; Some 960;
            Some 832; Some 736; Some 640; Some 416; None; None; Some 384; None; None; Some 0;
            None; Some 0; Some 64].
Proof. by vm_compute. Qed.

(** [clear] does not reset [lowest_occupied_address_]: an empty allocator still
    reports the lowest address of before. *)
Example clear_keeps_lowest :
  let s := (run_calls [Allocate 32 true 0; Clear] (FreeList_new 1024 0 32 32 FIRST).2).2 in
  lowest_occupied_address s = Some 0 ∧ (dump_blocks s).1 = Ok [mk_row 0 1024 false].
Proof. by vm_compute. Qed.
