(* ===== verification/Arith.v ===== *)
(** * Integer helpers

    [ModDiv] models tt_metal/hw/inc/mod_div_lib.h, the multiplication and
    division routines of the device cores; [MathUtil] models
    tt_metal/common/math.hpp and [Rounding] tt_metal/common/tt_rounding.h.
    All values are 32-bit unsigned; every operation that can wrap is written
    with its reduction. *)
From S2P Require Import Prelude.

Module ModDiv.

(** The shift-and-add loop of [mulsi3] on Grayskull.  [a] loses a bit in each
    round, so 32 rounds empty it. *)
Fixpoint mulsi3_loop (fuel : nat) (a b r : Z) : outcome Z :=
  if a =? 0 then Ok r
  else match fuel with
  | O => Err FUEL
  | S fuel =>
    let r := if Z.land a 1 =? 0 then r else u32 (r + b) in
    mulsi3_loop fuel (Z.shiftr a 1) (u32 (Z.shiftl b 1)) r
  end.

Definition mulsi3 (arch_grayskull : bool) (a b : Z) : outcome Z :=
  if arch_grayskull then mulsi3_loop 32 a b 0 else Ok (u32 (a * b)).

(** [((uint64_t) n * magic) >> 32) >> shift], returned as [uint32_t]. *)
Definition fast_udiv (magic shift n : Z) : Z :=
  u32 (Z.shiftr (Z.shiftr (u64 (n * magic)) 32) shift).

Definition fast_udiv_12 (n : Z) : Z := fast_udiv 0xAAAAAAAB 3 n.
Definition fast_udiv_56 (n : Z) : Z := fast_udiv 0x24924925 3 n.
Definition fast_udiv_70 (n : Z) : Z := fast_udiv 0xEA0EA0EB 6 n.
Definition fast_udiv_80 (n : Z) : Z := fast_udiv 0xCCCCCCCD 6 n.
Definition fast_udiv_94 (n : Z) : Z := fast_udiv 0xAE4C415D 6 n.
Definition fast_udiv_124 (n : Z) : Z := fast_udiv 0x08421085 2 n.
Definition fast_udiv_130 (n : Z) : Z := fast_udiv 0xFC0FC0FD 7 n.
Definition fast_udiv_140 (n : Z) : Z := fast_udiv 0xEA0EA0EB 7 n.

(** [__builtin_clz] of a nonzero 32-bit value. *)
Definition clz (x : Z) : Z := 31 - Z.log2 x.

(** One round of the shift-subtract loop on [(q, r, carry)].  The mask [s] is
    the shift of an [unsigned int], so it is 0 or 1. *)
Definition udiv_step (d : Z) (st : Z * Z * Z) : Z * Z * Z :=
  let '(q, r, carry) := st in
  let r := Z.lor (u32 (Z.shiftl r 1)) (Z.shiftr q 31) in
  let q := Z.lor (u32 (Z.shiftl q 1)) carry in
  let s := Z.shiftr (u32 (d - r - 1)) 31 in
  (q, u32 (r - Z.land d s), Z.land s 1).

(** [for (; sr > 0; --sr)] *)
Fixpoint udiv_loop (sr : nat) (d : Z) (st : Z * Z * Z) : Z * Z * Z :=
  match sr with O => st | S sr => udiv_loop sr d (udiv_step d st) end.

(** The generic branch of [udivsi3_const_divisor]. *)
Definition udiv_generic (d n : Z) : Z :=
  if d =? 0 then 0
  else if n =? 0 then 0
  else
    let sr := u32 (clz d - clz n) in
    if 31 <? sr then 0
    else if sr =? 31 then n
    else
      let sr := sr + 1 in
      let '(q, _, carry) :=
        udiv_loop (Z.to_nat sr) d (u32 (Z.shiftl n (32 - sr)), Z.shiftr n sr, 0) in
      Z.lor (u32 (Z.shiftl q 1)) carry.

Definition udivsi3_const_divisor (d n : Z) : Z :=
  if d =? 12 then fast_udiv_12 n
  else if d =? 56 then fast_udiv_56 n
  else if d =? 70 then fast_udiv_70 n
  else if d =? 80 then fast_udiv_80 n
  else if d =? 94 then fast_udiv_94 n
  else if d =? 124 then fast_udiv_124 n
  else if d =? 130 then fast_udiv_130 n
  else if d =? 140 then fast_udiv_140 n
  else udiv_generic d n.

Definition umodsi3_const_divisor (d a : Z) : Z :=
  u32 (a - u32 (udivsi3_const_divisor d a * d)).

End ModDiv.

Module MathUtil.

Definition div_up (a b : Z) : outcome Z :=
  _ ← check (0 <? b) TT_FATAL;
  Ok (u32 (u32 (a + b) - 1) / b).

Definition round_up (a b : Z) : outcome Z :=
  q ← div_up a b;
  Ok (u32 (b * q)).

Definition round_down (a b : Z) : outcome Z :=
  if b =? 0 then Err UB else Ok (a / b * b).

Definition positive_pow_of_2 (exponent : Z) : outcome Z :=
  _ ← check ((0 <=? exponent) && (exponent <? 32)) TT_FATAL;
  Ok (u32 (Z.shiftl 1 exponent)).

End MathUtil.

(** The templates of tt_rounding.h at [Integer = uint32_t], whose [digits] are 32. *)
Module Rounding.

Fixpoint round_pow2_loop (i : nat) (power_of_2 x : Z) : outcome Z :=
  match i with
  | O => Err TT_ASSERT
  | S i => if x <=? power_of_2 then Ok power_of_2
           else round_pow2_loop i (u32 (Z.shiftl power_of_2 1)) x
  end.

Definition round_to_power_of_2 (x : Z) : outcome Z := round_pow2_loop 32 1 x.

Definition round_up_to (x multiple : Z) : outcome Z :=
  _ ← check (0 <? multiple) TT_ASSERT;
  let remainder := x mod multiple in
  Ok (if negb (remainder =? 0) then u32 (u32 (x - remainder) + multiple) else x).

Definition round_up_div (dividend divisor : Z) : outcome Z :=
  _ ← check (0 <? divisor) TT_ASSERT;
  let up := if negb (dividend mod divisor =? 0) then 1 else 0 in
  Ok (u32 (dividend / divisor + up)).

(** [for (int i = 0; i < 32; i++) if (found(i)) return i; return 32;] *)
Fixpoint first_bit (found : Z → bool) (n : nat) (i : Z) : Z :=
  match n with
  | O => i
  | S n => if found i then i else first_bit found n (i + 1)
  end.

Definition log2_const (x : Z) : Z := first_bit (λ i, x <=? u32 (Z.shiftl 1 i)) 32 0.
Definition log2_flr_const (x : Z) : Z := first_bit (λ i, Z.shiftr x i =? 1) 32 0.

End Rounding.

(** ** Multiplication *)
Lemma mulsi3_loop_correct fuel a b r :
  0 <= a < 2 ^ Z.of_nat fuel →
  ModDiv.mulsi3_loop fuel a b (u32 r) = Ok (u32 (r + a * b)).
Proof.
  revert a b r; induction fuel as [|fuel IH]; intros a b r Ha.
  { simpl in *. replace a with 0 by lia. by rewrite Z.add_0_r. }
  cbn [ModDiv.mulsi3_loop]. destruct (Z.eqb_spec a 0) as [->|Hne]; [by rewrite Z.add_0_r|].
  rewrite land_1, shiftr_1, shiftl_1. rewrite Nat2Z.inj_succ, Z.pow_succ_r in Ha by lia.
  assert (Hr : (if a mod 2 =? 0 then u32 r else u32 (u32 r + b)) = u32 (r + (a mod 2) * b)).
  { pose proof (Z.mod_pos_bound a 2). destruct (Z.eqb_spec (a mod 2) 0) as [->|].
    - f_equal. lia.
    - replace (a mod 2) with 1 by lia. rewrite Z.mul_1_l. apply Zplus_mod_idemp_l. }
  rewrite Hr, IH by (Z.to_euclidean_division_equations; lia). f_equal.
  unfold u32, wrap. rewrite Z.add_mod, Z.mul_mod_idemp_r, <- Z.add_mod by lia. f_equal.
  rewrite (Z.div_mod a 2) at 3 by lia. ring.
Qed.

(** C34: [mulsi3] is multiplication modulo 2^32 on every architecture: the
    shift-and-add loop of Grayskull computes what the native multiplier does,
    and ends within 32 rounds. *)
Theorem mulsi3_correct gs a b :
  in_range 32 a → in_range 32 b → ModDiv.mulsi3 gs a b = Ok (u32 (a * b)).
Proof.
  intros Ha _. destruct gs; [|done]. by apply (mulsi3_loop_correct 32 a b 0).
Qed.

Lemma mulsi3_correct_witness : ModDiv.mulsi3 true 4294967295 65537 = Ok 4294901759.
Proof. apply (mulsi3_correct true 4294967295 65537); by vm_compute. Defined.

(** ** Division *)
Lemma fast_udiv_div magic shift n :
  0 <= shift -> 0 <= n < 4294967296 -> 0 <= magic < 4294967296 ->
  ModDiv.fast_udiv magic shift n = n * magic / (4294967296 * 2 ^ shift).
Proof.
  intros ???. unfold ModDiv.fast_udiv. rewrite (u64_small (n * magic)) by nia.
  rewrite !Z.shiftr_div_pow2 by lia. change (2 ^ 32) with 4294967296.
  rewrite Z.div_div by (try apply Z.pow_nonzero; lia). apply u32_small.
  assert (0 < 2 ^ shift) by (by apply Z.pow_pos_nonneg). split.
  - apply Z.div_pos; nia.
  - apply Z.div_lt_upper_bound; nia.
Qed.

(** Below this bound [udivsi3_const_divisor<d>] divides exactly. *)
Definition exact_below (d : Z) : Z :=
  if bool_decide (d ∈ [12; 80; 94; 130]) then 4294967296
  else if d =? 56 then 1431655791
  else if d =? 70 then 4164816809
  else if d =? 124 then 159072903
  else if d =? 140 then 4164816879
  else Z.min 4294967296 (2 * d).

Ltac magic_division :=
  match goal with H : _ < exact_below ?d |- _ =>
    let e := eval vm_compute in (exact_below d) in change (exact_below d) with e in H
  end;
  match goal with |- ?f _ = _ => unfold f end;
  rewrite fast_udiv_div by lia; Z.to_euclidean_division_equations; lia.

(** One round while nothing has been subtracted: [r] is the leading part of the
    dividend and the top bit of [q] is its next bit. *)
Lemma udiv_step_eq d q r :
  0 <= r < 2147483648 → 0 <= q < 4294967296 →
  -2147483648 <= d - (2 * r + q / 2147483648) - 1 < 2147483648 →
  let r' := 2 * r + q / 2147483648 in
  let carry := if r' <? d then 0 else 1 in
  ModDiv.udiv_step d (q, r, 0) = (u32 (q * 2), u32 (r' - Z.land d carry), carry).
Proof.
  intros Hr Hq Hb. cbv zeta. unfold ModDiv.udiv_step.
  rewrite !shiftl_1, Z.lor_0_r, (u32_small (r * 2)) by lia.
  rewrite Z.shiftr_div_pow2 by lia. change (2 ^ 31) with 2147483648.
  rewrite lor_double by (Z.to_euclidean_division_equations; lia).
  rewrite (Z.mul_comm r 2). set (r' := 2 * r + q / 2147483648) in *.
  assert (Hs : Z.shiftr (u32 (d - r' - 1)) 31 = if r' <? d then 0 else 1).
  { rewrite Z.shiftr_div_pow2 by lia. change (2 ^ 31) with 2147483648.
    destruct (Z.ltb_spec r' d).
    - rewrite u32_small by lia. apply Z.div_small. lia.
    - rewrite u32_neg by lia. Z.to_euclidean_division_equations; lia. }
  rewrite Hs. by destruct (r' <? d).
Qed.

Lemma u32_shift_out n k : 0 <= k <= 32 → u32 (n * 2 ^ k) = n mod 2 ^ (32 - k) * 2 ^ k.
Proof.
  intros Hk. unfold u32, wrap. replace (2 ^ 32) with (2 ^ (32 - k) * 2 ^ k)
    by (rewrite <- Z.pow_add_r by lia; f_equal; lia).
  apply Z.mul_mod_distr_r; apply Z.pow_nonzero; lia.
Qed.

(** The last round brings in the last bit of the dividend. *)
Lemma udiv_last d n :
  0 <= n < 4294967296 → -2147483648 <= d - n - 1 < 2147483648 →
  ∃ r, ModDiv.udiv_step d (n mod 2 * 2147483648, n / 2, 0) = (0, r, if n <? d then 0 else 1).
Proof.
  intros Hn Hd. pose proof (Z.mod_pos_bound n 2). pose proof (Z.div_mod n 2).
  assert (Hr : 2 * (n / 2) + n mod 2 * 2147483648 / 2147483648 = n)
    by (rewrite Z.div_mul by lia; lia).
  rewrite udiv_step_eq; rewrite ?Hr; [|Z.to_euclidean_division_equations; lia|lia|lia].
  eexists. do 2 f_equal. rewrite <- Z.mul_assoc. change (2147483648 * 2) with (2 ^ 32).
  rewrite u32_shift_out by lia. by rewrite Z.mod_1_r.
Qed.

(** The number of binary digits decides the first rounds of the division. *)
Lemma log2_bounds n : 0 < n → 2 ^ Z.log2 n <= n < 2 ^ (Z.log2 n + 1) ∧ 0 <= Z.log2 n.
Proof. intros Hn. pose proof (Z.log2_spec n Hn). pose proof (Z.log2_nonneg n). done. Qed.

Lemma udiv_generic_small d n :
  0 < d < 4294967296 → 0 <= n < 4294967296 → n < 2 * d →
  ModDiv.udiv_generic d n = n / d.
Proof.
  intros Hd Hn Hsmall. unfold ModDiv.udiv_generic, ModDiv.clz.
  destruct (Z.eqb_spec d 0); [lia|]. destruct (Z.eqb_spec n 0) as [->|]; [done|].
  destruct (log2_bounds d) as [Hld Hld0]; [lia|]. destruct (log2_bounds n) as [Hln Hln0]; [lia|].
  assert (Hd31 : Z.log2 d < 32) by (apply Z.log2_lt_pow2; lia).
  assert (Hn31 : Z.log2 n < 32) by (apply Z.log2_lt_pow2; lia).
  assert (Hpow : ∀ a b, 0 <= a → a <= b → 2 ^ a <= 2 ^ b)
    by (intros; apply Z.pow_le_mono_r; lia).
  replace (31 - Z.log2 d - (31 - Z.log2 n)) with (Z.log2 n - Z.log2 d) by lia.
  destruct (Z.lt_trichotomy (Z.log2 n) (Z.log2 d)) as [Hlt|[Heq|Hgt]].
  - assert (n < d) by (pose proof (Hpow (Z.log2 n + 1) (Z.log2 d)); lia).
    rewrite (Z.div_small n d) by lia.
    rewrite u32_neg by lia. by case_bool; try lia.
  - rewrite Heq, Z.sub_diag in *. change (u32 0) with 0. cbn [Z.ltb Z.eqb Z.compare].
    change (Z.to_nat (0 + 1)) with 1%nat. cbn [ModDiv.udiv_loop]. change (32 - (0 + 1)) with 31.
    rewrite shiftr_1, Z.shiftl_mul_pow2, u32_shift_out by lia.
    change (2 ^ (32 - 31)) with 2. change (2 ^ 31) with 2147483648.
    rewrite Z.pow_add_r in * by lia. change (2 ^ 1) with 2 in *.
    assert (2 ^ Z.log2 d <= 2147483648) by (change 2147483648 with (2 ^ 31); apply Hpow; lia).
    destruct (udiv_last d n) as [r ->]; [lia..|]. cbn [Z.shiftl].
    change (u32 (Z.shiftl 0 1)) with 0. rewrite Z.lor_0_l.
    case_bool; [by rewrite Z.div_small by lia|]. apply Z.div_unique with (n - d); lia.
  - assert (Hsucc : Z.log2 n = Z.log2 d + 1).
    { destruct (Z.le_gt_cases (Z.log2 n) (Z.log2 d + 1)); [lia|].
      pose proof (Hpow (Z.log2 d + 2) (Z.log2 n)) as Hp.
      rewrite !Z.pow_add_r in * by lia. change (2 ^ 1) with 2 in *. change (2 ^ 2) with 4 in *. lia. }
    replace (Z.log2 n - Z.log2 d) with 1 by lia. rewrite Hsucc in *.
    change (u32 1) with 1. cbn [Z.ltb Z.eqb Z.compare Pos.compare Pos.compare_cont].
    change (Z.to_nat (1 + 1)) with 2%nat. cbn [ModDiv.udiv_loop]. change (32 - (1 + 1)) with 30.
    rewrite Z.shiftr_div_pow2, Z.shiftl_mul_pow2, u32_shift_out by lia.
    change (2 ^ (32 - 30)) with 4. change (2 ^ 30) with 1073741824. change (2 ^ (1 + 1)) with 4.
    rewrite !Z.pow_add_r in * by lia. change (2 ^ 1) with 2 in *.
    assert (2 ^ (Z.log2 d + 1) <= 2 ^ 31) by (apply Hpow; lia).
    rewrite Z.pow_add_r in * by lia. change (2 ^ 31) with 2147483648 in *. change (2 ^ 1) with 2 in *.
    assert (Hhalf : 2 * (n / 4) + n mod 4 * 1073741824 / 2147483648 = n / 2)
      by (Z.to_euclidean_division_equations; lia).
    assert (Hn2 : n / 2 < d) by (apply Z.div_lt_upper_bound; lia).
    rewrite udiv_step_eq; rewrite ?Hhalf; [|Z.to_euclidean_division_equations; lia..].
    replace (n / 2 <? d) with true by (symmetry; by apply Z.ltb_lt).
    change (1 =? 31)%positive with false. cbv iota.
    rewrite Z.land_0_r, Z.sub_0_r, (u32_small (n / 2)) by (Z.to_euclidean_division_equations; lia).
    replace (u32 (n mod 4 * 1073741824 * 2)) with (n mod 2 * 2147483648).
    + destruct (udiv_last d n) as [r ->]; [lia..|].
      change (u32 (Z.shiftl 0 1)) with 0. rewrite Z.lor_0_l.
      case_bool; [lia|]. apply Z.div_unique with (n - d); lia.
    + rewrite <- Z.mul_assoc. change (1073741824 * 2) with (2 ^ 31).
      rewrite u32_shift_out by lia. change (2 ^ (32 - 31)) with 2. change (2 ^ 31) with 2147483648.
      f_equal. Z.to_euclidean_division_equations; lia.
Qed.

Lemma udivsi3_exact d n :
  0 < d < 4294967296 → 0 <= n < 4294967296 → n < exact_below d →
  ModDiv.udivsi3_const_divisor d n = n / d.
Proof.
  intros Hd Hn He. unfold ModDiv.udivsi3_const_divisor.
  repeat match goal with
  | |- context [d =? ?k] => destruct (Z.eqb_spec d k) as [->|]; [magic_division|]
  end.
  apply udiv_generic_small; [done..|]. unfold exact_below in He.
  rewrite bool_decide_eq_false_2 in He
    by (rewrite !elem_of_cons, elem_of_nil; intuition congruence).
  repeat match type of He with context [d =? ?k] => destruct (Z.eqb_spec d k); [done|] end.
  lia.
Qed.

(** C33: the constant-divisor routines divide exactly below [exact_below d]: for
    12, 80, 94 and 130 that is every 32-bit dividend, for the other magic
    numbers it is the stated bound, and for a divisor without a magic number it
    is twice the divisor; there the remainder is exact as well. *)
Theorem udivsi3_correct d n :
  0 < d < 2 ^ 32 → in_range 32 n → n < exact_below d →
  ModDiv.udivsi3_const_divisor d n = n / d ∧ ModDiv.umodsi3_const_divisor d n = n mod d.
Proof.
  unfold in_range. change (2 ^ 32) with 4294967296. intros Hd Hn He.
  pose proof (udivsi3_exact d n Hd Hn He) as Hq. split; [done|].
  unfold ModDiv.umodsi3_const_divisor. rewrite Hq.
  pose proof (Z.div_mod n d). pose proof (Z.mod_pos_bound n d).
  assert (0 <= n / d * d) by (apply Z.mul_nonneg_nonneg; [apply Z.div_pos|]; lia).
  rewrite (u32_small (n / d * d)) by lia. rewrite u32_small by lia. lia.
Qed.

Lemma udivsi3_correct_witness :
  ModDiv.udivsi3_const_divisor 94 4294967295 = 45691141
  ∧ ModDiv.umodsi3_const_divisor 94 4294967295 = 41.
Proof. apply (udivsi3_correct 94 4294967295); by vm_compute. Defined.

(** The bounds are exact for the magic numbers, and the generic routine fails
    at the bound for many divisors: its mask [s] is 0 or 1, so [d & s] is not
    the divisor. *)
Example udivsi3_inexact :
  map (λ d, (ModDiv.udivsi3_const_divisor d (exact_below d), exact_below d / d)) [56; 70; 124; 140]
    = [(25565282, 25565281); (59497383, 59497382); (1282846, 1282845); (29748692, 29748691)]
  ∧ ModDiv.udivsi3_const_divisor 2 4 = 3 ∧ ModDiv.udivsi3_const_divisor 10 100 = 15.
Proof. by vm_compute. Qed.

(** ** Rounding *)
Definition ceil_div (a b : Z) : Z := (a + b - 1) / b.

Lemma ceil_div_spec a b : 0 < b → (ceil_div a b - 1) * b < a <= ceil_div a b * b.
Proof.
  intros Hb. unfold ceil_div. pose proof (Z.div_mod (a + b - 1) b).
  pose proof (Z.mod_pos_bound (a + b - 1) b). lia.
Qed.

Lemma ceil_div_split a b :
  0 < b → 0 <= a → ceil_div a b = a / b + (if negb (a mod b =? 0) then 1 else 0).
Proof.
  intros Hb Ha. pose proof (Z.div_mod a b). pose proof (Z.mod_pos_bound a b).
  unfold ceil_div. symmetry. destruct (Z.eqb_spec (a mod b) 0); simpl.
  - apply Z.div_unique with (b - 1); lia.
  - apply Z.div_unique with (a mod b - 1); lia.
Qed.

(** the two families of rounding helpers agree.  When [a + b - 1] does not
    overflow 32 bits, [div_up] and [round_up] of math.hpp and [round_up_div] and
    [round_up_to] of tt_rounding.h compute the rounded-up quotient and the
    smallest multiple of [b] that is at least [a]; [round_up_div] does so
    without any bound.  A zero divisor is an error in all of them. *)
Theorem rounding_agrees a b :
  in_range 32 a → in_range 32 b →
  (b = 0 → MathUtil.div_up a b = Err TT_FATAL ∧ MathUtil.round_up a b = Err TT_FATAL
           ∧ Rounding.round_up_div a b = Err TT_ASSERT ∧ Rounding.round_up_to a b = Err TT_ASSERT)
  ∧ (0 < b → Rounding.round_up_div a b = Ok (ceil_div a b))
  ∧ (0 < b → a + b - 1 < 2 ^ 32 →
     MathUtil.div_up a b = Ok (ceil_div a b)
     ∧ MathUtil.round_up a b = Ok (ceil_div a b * b)
     ∧ Rounding.round_up_to a b = Ok (ceil_div a b * b)
     ∧ (ceil_div a b - 1) * b < a <= ceil_div a b * b).
Proof.
  unfold in_range. change (2 ^ 32) with 4294967296. intros Ha Hb. split; [by intros ->|].
  unfold MathUtil.div_up, MathUtil.round_up, MathUtil.div_up, Rounding.round_up_div,
    Rounding.round_up_to, check, mbind, outcome_bind.
  destruct (Z.ltb_spec 0 b) as [Hpos|]; [|lia].
  pose proof (ceil_div_spec a b Hpos) as Hspec.
  pose proof (ceil_div_split a b Hpos ltac:(lia)) as Hsplit.
  assert (Hq : 0 <= ceil_div a b < 4294967296).
  { unfold ceil_div. split; [apply Z.div_pos; lia|].
    apply Z.div_lt_upper_bound; [lia|]. destruct (Z.eq_dec b 1); nia. }
  split; intros _; [by rewrite <- Hsplit, u32_small|].
  intros Hsum.
  assert (Hdiv : u32 (u32 (a + b) - 1) / b = ceil_div a b).
  { unfold ceil_div. destruct (Z.eq_dec (a + b) 4294967296) as [->|].
    - change (u32 4294967296) with 0. by rewrite u32_neg by lia.
    - rewrite (u32_small (a + b)) by lia. by rewrite u32_small by lia. }
  rewrite Hdiv. assert (0 <= ceil_div a b * b < 4294967296) by nia.
  split_and!; [done|by rewrite u32_small, Z.mul_comm by lia| |lia|lia].
  f_equal. pose proof (Z.div_mod a b). pose proof (Z.mod_pos_bound a b).
  destruct (Z.eqb_spec (a mod b) 0); simpl in *; [lia|].
  assert (a - a mod b + b = ceil_div a b * b) by (rewrite Hsplit; lia).
  pose proof (Z.mod_le a b). rewrite (u32_small (a - a mod b)), u32_small by lia. lia.
Qed.

Lemma rounding_agrees_witness :
  (32 = 0 → MathUtil.div_up 1000 32 = Err TT_FATAL ∧ MathUtil.round_up 1000 32 = Err TT_FATAL
      ∧ Rounding.round_up_div 1000 32 = Err TT_ASSERT ∧ Rounding.round_up_to 1000 32 = Err TT_ASSERT)
  ∧ (0 < 32 → Rounding.round_up_div 1000 32 = Ok (ceil_div 1000 32))
  ∧ (0 < 32 → 1000 + 32 - 1 < 2 ^ 32 →
     MathUtil.div_up 1000 32 = Ok (ceil_div 1000 32)
     ∧ MathUtil.round_up 1000 32 = Ok (ceil_div 1000 32 * 32)
     ∧ Rounding.round_up_to 1000 32 = Ok (ceil_div 1000 32 * 32)
     ∧ (ceil_div 1000 32 - 1) * 32 < 1000 <= ceil_div 1000 32 * 32).
Proof. apply (rounding_agrees 1000 32); by vm_compute. Defined.

Lemma first_bit_found found n i k :
  i <= k < i + Z.of_nat n → found k = true → (∀ j, i <= j < k → found j = false) →
  Rounding.first_bit found n i = k.
Proof.
  revert i; induction n as [|n IH]; intros i Hk Hf Hno; [lia|]. simpl.
  destruct (Z.eq_dec i k) as [->|]; [by rewrite Hf|].
  rewrite Hno by lia. apply IH; [lia|done|]. intros. apply Hno. lia.
Qed.

Lemma round_pow2_loop_correct n i x k :
  0 <= i → i <= k < i + Z.of_nat n → k < 32 → x <= 2 ^ k →
  (∀ j, i <= j < k → 2 ^ j < x) → Rounding.round_pow2_loop n (2 ^ i) x = Ok (2 ^ k).
Proof.
  revert i; induction n as [|n IH]; intros i Hi Hk Hk32 Hx Hno; [lia|]. simpl.
  destruct (Z.eq_dec i k) as [->|]; [by destruct (Z.leb_spec x (2 ^ k)); [|lia]|].
  pose proof (Hno i ltac:(lia)). destruct (Z.leb_spec x (2 ^ i)); [lia|].
  rewrite shiftl_1, Z.mul_comm, <- Z.pow_succ_r by lia.
  rewrite u32_small; [apply IH; [lia..|]; intros; apply Hno; lia|].
  split; [by apply Z.pow_nonneg|]. change 4294967296 with (2 ^ 32).
  apply Z.pow_lt_mono_r; lia.
Qed.

(** The logarithm loops return the rounded-up and the rounded-down base-2
    logarithm, and [round_to_power_of_2] the smallest power of two that is at
    least its argument. *)
Theorem log2_loops_correct x :
  1 <= x <= 2 ^ 31 →
  Rounding.log2_const x = Z.log2_up x
  ∧ Rounding.log2_flr_const x = Z.log2 x
  ∧ Rounding.round_to_power_of_2 x = Ok (2 ^ Z.log2_up x).
Proof.
  intros Hx.
  assert (Hup : 0 <= Z.log2_up x <= 31) by
    (split; [apply Z.log2_up_nonneg|apply Z.log2_up_le_pow2; lia]).
  assert (Hle : x <= 2 ^ Z.log2_up x) by (apply Z.log2_up_le_pow2; lia).
  assert (Hlt : ∀ j, 0 <= j < Z.log2_up x → 2 ^ j < x) by
    (intros; apply Z.log2_up_lt_pow2; lia).
  assert (Hpow : ∀ j, 0 <= j < 32 → u32 (Z.shiftl 1 j) = 2 ^ j).
  { intros j Hj. rewrite Z.shiftl_mul_pow2, Z.mul_1_l by lia. apply u32_small.
    split; [by apply Z.pow_nonneg|]. change 4294967296 with (2 ^ 32). apply Z.pow_lt_mono_r; lia. }
  split_and!.
  - apply first_bit_found; [lia|by rewrite Hpow by lia; apply Z.leb_le|].
    intros j Hj. rewrite Hpow by lia. apply Z.leb_gt. auto with lia.
  - destruct (log2_bounds x) as [Hl Hl0]; [lia|].
    assert (Z.log2 x < 32) by (apply Z.log2_lt_pow2; lia).
    apply first_bit_found; [lia| |].
    + rewrite Z.shiftr_div_pow2 by lia. apply Z.eqb_eq. symmetry.
      rewrite Z.pow_add_r in Hl by lia. apply Z.div_unique with (x - 2 ^ Z.log2 x); lia.
    + intros j Hj. rewrite Z.shiftr_div_pow2 by lia. apply Z.eqb_neq.
      assert (2 ^ j * 2 <= 2 ^ Z.log2 x)
        by (rewrite Z.mul_comm, <- Z.pow_succ_r by lia; apply Z.pow_le_mono_r; lia).
      assert (2 <= x / 2 ^ j); [|lia].
      apply Z.div_le_lower_bound; [by apply Z.pow_pos_nonneg; lia|lia].
  - apply (round_pow2_loop_correct 32 0); [lia..|done|]. auto with lia.
Qed.

Lemma log2_loops_correct_witness :
  Rounding.log2_const 1000 = Z.log2_up 1000
  ∧ Rounding.log2_flr_const 1000 = Z.log2 1000
  ∧ Rounding.round_to_power_of_2 1000 = Ok (2 ^ Z.log2_up 1000).
Proof. apply (log2_loops_correct 1000). lia. Defined.
