(* ===== verification/SlotMap.v ===== *)
(** * The slot map (tt_metal/tt_stl/slotmap.hpp)

    [SlotMap<Key<T, INDEX_BITS>, U>] with [w] the width of [T], [ib] its
    [INDEX_BITS] and [A] the type [U].  The union of a slot is a sum type; the
    parity of the version says which alternative is alive, as in the source,
    and reading the other one is undefined behaviour.  [assert] aborts the
    program and is the error [TT_ASSERT]. *)
From S2P Require Import Prelude.

Section Key.
Context (w ib : Z).

Definition VERSION_BITS : Z := w - ib.
Definition INDEX_MASK : Z := wrap w (Z.shiftl (Z.shiftl 1 ib - 1) VERSION_BITS).
Definition VERSION_MASK : Z := wrap w (Z.lnot INDEX_MASK).
Definition max_index : Z := Z.shiftl 1 ib - 1.

(** [a << b] at type [T]: operands narrower than [int] are promoted first. *)
Definition shl (a b : Z) : Z := wrap (Z.max w 32) (Z.shiftl a b).

(** [Key(T idx, T ver)] *)
Definition Key_make (idx ver : Z) : outcome Z :=
  let value := wrap w (Z.lor (Z.lor (shl idx VERSION_BITS) ver) 1) in
  _ ← check (Z.land (shl idx VERSION_BITS) INDEX_MASK =? shl idx VERSION_BITS) TT_ASSERT;
  _ ← check (Z.land ver VERSION_MASK =? ver) TT_ASSERT;
  Ok value.

(** [explicit Key(T full_value)] *)
Definition Key_of_value (full_value : Z) : outcome Z :=
  _ ← check (negb (Z.land full_value 1 =? 0)) TT_ASSERT;
  Ok full_value.

Definition key_index (key : Z) : Z := Z.shiftr key VERSION_BITS.
Definition key_version (key : Z) : Z := Z.land key VERSION_MASK.

End Key.

Record Slot (A : Type) := mk_slot { version : Z; content : A + Z }.
Arguments mk_slot {A} version content.
Arguments version {A} s.
Arguments content {A} s.

Record SlotMap (A : Type) := mk_slotmap {
  slots : list (Slot A);
  free_head : Z;
  num_elems : Z
}.
Arguments mk_slotmap {A} slots free_head num_elems.
Arguments slots {A} s.
Arguments free_head {A} s.
Arguments num_elems {A} s.

Definition occupied {A} (s : Slot A) : bool := negb (Z.land (version s) 1 =? 0).

(** Reading [slot.value] and [slot.next_free]. *)
Definition slot_value {A} (s : Slot A) : outcome A :=
  match content s with inl v => Ok v | inr _ => Err UB end.
Definition slot_next_free {A} (s : Slot A) : outcome Z :=
  match content s with inr n => Ok n | inl _ => Err UB end.

Section SlotMap.
Context (w ib : Z) {A : Type}.
Implicit Types (s : SlotMap A) (key : Z).

Definition invalid_index : Z := 2 ^ w - 1.
Definition num_slots s : Z := Z.of_nat (length (slots s)).

(** [slots[i]]; out of range is undefined behaviour. *)
Definition slot_at (i : Z) s : outcome (Slot A) := of_option UB (slots s !! Z.to_nat i).
Definition set_slot (i : Z) (sl : Slot A) s : list (Slot A) := <[Z.to_nat i := sl]> (slots s).

Definition SlotMap_new : SlotMap A := mk_slotmap [] (u32 invalid_index) 0.

Definition emplace (v : A) : ST (SlotMap A) Z :=
  s ← get_st;
  idx ← (if negb (free_head s =? invalid_index) && (free_head s <? num_slots s) then
           let idx := wrap w (free_head s) in
           slot ← lift_st (slot_at idx s);
           next ← lift_st (slot_next_free slot);
           let new_version := Z.lor (version slot) 1 in
           _ ← put_st (mk_slotmap (set_slot idx (mk_slot new_version (inl v)) s) (u32 next)
                         (num_elems s));
           mret idx
         else
           let idx := wrap w (num_slots s) in
           _ ← check_st (idx <=? max_index ib) TT_FATAL;
           _ ← put_st (mk_slotmap (slots s ++ [mk_slot 1 (inl v)]) (free_head s) (num_elems s));
           mret idx);
  _ ← modify_st (λ s, mk_slotmap (slots s) (free_head s) (u32 (num_elems s + 1)));
  s ← get_st;
  slot ← lift_st (slot_at idx s);
  lift_st (Key_make w ib idx (version slot)).

Definition insert (v : A) : ST (SlotMap A) Z := emplace v.

Definition contains key s : outcome bool :=
  if num_slots s <=? key_index w ib key then Ok false
  else slot ← slot_at (key_index w ib key) s;
       Ok (version slot =? key_version w ib key).

Definition remove_unchecked (idx : Z) : ST (SlotMap A) unit :=
  s ← get_st;
  slot ← lift_st (slot_at idx s);
  put_st (mk_slotmap (set_slot idx (mk_slot (wrap w (version slot + 1)) (inr (wrap w (free_head s)))) s)
            idx (u32 (num_elems s - 1))).

Definition remove key : ST (SlotMap A) unit :=
  s ← get_st;
  c ← lift_st (contains key s);
  if negb c then mret tt else remove_unchecked (u32 (key_index w ib key)).

(** [get]: [nullptr] or a pointer to the value. *)
Definition get key s : outcome (option A) :=
  c ← contains key s;
  if negb c then Ok None
  else slot ← slot_at (key_index w ib key) s; v ← slot_value slot; Ok (Some v).

Definition size s : Z := num_elems s.
Definition empty s : bool := num_elems s =? 0.
Definition reserve (new_capacity : Z) : ST (SlotMap A) unit :=
  check_st (new_capacity <=? max_index ib) TT_FATAL.
Definition clear : ST (SlotMap A) unit := λ _, (Ok tt, mk_slotmap [] (u32 invalid_index) 0).

(** [do ++index_; while (index_ < slots.size() && !slots[index_].occupied())];
    the slots from [index_] on. *)
Fixpoint skip_vacant (l : list (Slot A)) (i : Z) : Z :=
  match l with
  | sl :: l => if occupied sl then i else skip_vacant l (i + 1)
  | [] => i
  end.
Definition iter_next s (i : Z) : Z :=
  skip_vacant (drop (S (Z.to_nat i)) (slots s)) (i + 1).
Definition iterator_at s (i : Z) : Z :=
  match slots s !! Z.to_nat i with
  | Some sl => if negb (occupied sl) then iter_next s i else i
  | None => i
  end.
Definition iter_begin s : Z := iterator_at s 0.
Definition iter_end s : Z := iterator_at s (num_slots s).

(** [for (auto& v : map)], collecting the values visited. *)
Fixpoint iterate (fuel : nat) s (i : Z) : outcome (list A) :=
  if i =? iter_end s then Ok []
  else match fuel with
  | O => Err FUEL
  | S fuel =>
    slot ← slot_at i s;
    v ← slot_value slot;
    vs ← iterate fuel s (iter_next s i);
    Ok (v :: vs)
  end.
Definition values s : outcome (list A) := iterate (S (length (slots s))) s (iter_begin s).

End SlotMap.
