(* ===== verification/SlotMapProps.v ===== *)
(** * What a slot map promises

    A key names one element from its [emplace] to its [remove] and nothing
    else, before or after.  [Inv] is the invariant: the parity of a version
    tells which alternative of the slot's union is alive, the vacant slots are
    exactly those on the free list, and the element count is right.
    [keys_distinct] is the statement for whole runs. *)
From S2P Require Import Prelude SlotMap.

(** [s] can hold a value of type [T] for a width [w] and [ib] index bits. *)
Record widths (w ib : Z) : Prop := mk_widths {
  wd_pos : 0 < ib;
  wd_lt : ib < w;
  wd_32 : ib < 32
}.

Section keys.
Context (w ib : Z) (Hw : widths w ib).
Abbreviation vb := (VERSION_BITS w ib).

Lemma vb_pos : 0 < vb.
Proof. unfold VERSION_BITS. destruct Hw. lia. Qed.

Lemma pow_split : 2 ^ w = 2 ^ ib * 2 ^ vb ∧ 2 <= 2 ^ ib ∧ 2 <= 2 ^ vb.
Proof.
  destruct Hw. pose proof vb_pos. unfold VERSION_BITS in *. split_and!.
  - rewrite <- Z.pow_add_r by lia. f_equal. lia.
  - change 2 with (2 ^ 1) at 1. apply Z.pow_le_mono_r; lia.
  - change 2 with (2 ^ 1) at 1. apply Z.pow_le_mono_r; lia.
Qed.

Lemma max_index_eq : max_index ib = 2 ^ ib - 1.
Proof. destruct Hw. unfold max_index. rewrite Z.shiftl_mul_pow2 by lia. lia. Qed.

Lemma INDEX_MASK_eq : INDEX_MASK w ib = Z.shiftl (Z.ones ib) vb.
Proof.
  destruct pow_split as (Hp & Hi & Hv). destruct Hw. unfold INDEX_MASK.
  rewrite Z.ones_equiv, !Z.shiftl_mul_pow2 by (pose proof vb_pos; lia).
  replace (1 * 2 ^ ib - 1) with (Z.pred (2 ^ ib)) by lia.
  apply wrap_small. unfold in_range. nia.
Qed.

Lemma VERSION_MASK_eq : VERSION_MASK w ib = Z.ones vb.
Proof.
  destruct pow_split as (Hp & Hi & Hv). destruct Hw.
  unfold VERSION_MASK. rewrite INDEX_MASK_eq, Z.ones_equiv, Z.shiftl_mul_pow2
    by (pose proof vb_pos; lia).
  rewrite Z.ones_equiv. unfold wrap, Z.lnot.
  symmetry. apply Z.mod_unique with (-1); nia.
Qed.

Lemma key_version_eq k : key_version w ib k = k mod 2 ^ vb.
Proof.
  unfold key_version. rewrite VERSION_MASK_eq. apply Z.land_ones. pose proof vb_pos. lia.
Qed.
Lemma key_index_eq k : key_index w ib k = k / 2 ^ vb.
Proof. unfold key_index. apply Z.shiftr_div_pow2. pose proof vb_pos. lia. Qed.

(** Keys in circulation: 16, 32, ... bit values whose lowest bit is set. *)
Definition valid_key (k : Z) : Prop := 0 <= k < 2 ^ w ∧ k mod 2 = 1.

Definition pack (idx ver : Z) : Z := idx * 2 ^ vb + ver.

Lemma pack_index idx ver : 0 <= ver < 2 ^ vb → key_index w ib (pack idx ver) = idx.
Proof. intros. rewrite key_index_eq. symmetry. by apply Z.div_unique with ver; [left|unfold pack; lia]. Qed.
Lemma pack_version idx ver : 0 <= ver < 2 ^ vb → key_version w ib (pack idx ver) = ver.
Proof. intros. rewrite key_version_eq. symmetry. by apply Z.mod_unique with idx; [left|unfold pack; lia]. Qed.

Lemma pow_vb_even : ∃ h, 2 ^ vb = 2 * h.
Proof.
  exists (2 ^ (vb - 1)). rewrite <- Z.pow_succ_r by (pose proof vb_pos; lia). f_equal. lia.
Qed.

Lemma valid_key_pack k :
  valid_key k →
  k = pack (key_index w ib k) (key_version w ib k)
  ∧ 0 <= key_index w ib k < 2 ^ ib ∧ 0 <= key_version w ib k < 2 ^ vb
  ∧ key_version w ib k mod 2 = 1.
Proof.
  destruct pow_split as (Hp & Hi & Hv). destruct pow_vb_even as [h Hh].
  intros [Hk Hodd]. rewrite key_index_eq, key_version_eq. unfold pack.
  pose proof (Z.div_mod k (2 ^ vb)). pose proof (Z.mod_pos_bound k (2 ^ vb)). split_and!; try lia.
  - apply Z.div_pos; lia.
  - apply Z.div_lt_upper_bound; lia.
  - assert (k = (k / 2 ^ vb * h) * 2 + k mod 2 ^ vb) as Heq by (rewrite Hh in *; lia).
    rewrite Heq in Hodd at 1. rewrite Z.add_comm, Z.mod_add in Hodd by lia. done.
Qed.

Lemma pack_valid idx ver :
  0 <= idx < 2 ^ ib → 0 <= ver < 2 ^ vb → ver mod 2 = 1 → valid_key (pack idx ver).
Proof.
  destruct pow_split as (Hp & Hi & Hv). destruct pow_vb_even as [h Hh].
  intros ?? Hodd. unfold valid_key, pack. split; [rewrite Hp; nia|].
  rewrite Hh. replace (idx * (2 * h) + ver) with (ver + (idx * h) * 2) by lia.
  by rewrite Z.mod_add by lia.
Qed.

(** The constructor's assertions: the version must fit in its bits. *)
Lemma Key_make_eq idx ver :
  0 <= idx < 2 ^ ib → 0 <= ver <= 2 ^ vb + 1 → ver mod 2 = 1 →
  Key_make w ib idx ver = if ver <? 2 ^ vb then Ok (pack idx ver) else Err TT_ASSERT.
Proof.
  destruct pow_split as (Hp & Hi & Hv). pose proof vb_pos. intros Hidx Hver Hodd.
  assert (Hmax : 2 ^ w <= 2 ^ Z.max w 32) by (apply Z.pow_le_mono_r; lia).
  assert (Hshl : shl w idx vb = Z.shiftl idx vb).
  { unfold shl. apply wrap_small. unfold in_range. rewrite Z.shiftl_mul_pow2 by lia. nia. }
  unfold Key_make. rewrite Hshl, INDEX_MASK_eq, VERSION_MASK_eq, <- Z.shiftl_land.
  rewrite !Z.land_ones, (Z.mod_small idx) by (destruct Hw; lia). rewrite Z.eqb_refl. simpl.
  destruct (Z.ltb_spec ver (2 ^ vb)).
  - rewrite (Z.mod_small ver), Z.eqb_refl by lia. simpl. f_equal.
    rewrite lor_shiftl by lia. change (idx * 2 ^ vb + ver) with (pack idx ver).
    destruct (pack_valid idx ver) as [? Hpo]; [lia..|].
    assert (Hor : Z.lor (pack idx ver) 1 = pack idx ver).
    { rewrite (Z.div_mod (pack idx ver) 2) at 1 by lia. rewrite Hpo, (Z.mul_comm 2).
      rewrite <- (lor_double (pack idx ver / 2) 1) at 1 by lia.
      rewrite <- Z.lor_assoc, Z.lor_diag, lor_double by lia.
      rewrite (Z.div_mod (pack idx ver) 2) at 2 by lia. lia. }
    rewrite Hor. by apply wrap_small.
  - destruct (Z.eqb_spec (ver mod 2 ^ vb) ver); [|done].
    pose proof (Z.mod_pos_bound ver (2 ^ vb)). lia.
Qed.

End keys.

(** ** The invariant *)
Section invariant.
Context (w ib : Z) (Hw : widths w ib) {A : Type}.
Implicit Types (s : SlotMap A) (k : Z).
Abbreviation vb := (VERSION_BITS w ib).
Abbreviation nil_index := (u32 (invalid_index w)).

Definition slot_ok (sl : Slot A) : Prop :=
  0 <= version sl <= 2 ^ vb
  ∧ version sl mod 2 = match content sl with inl _ => 1 | inr _ => 0 end.

(** The slots [fl] are chained from [h] through their [next_free] fields. *)
Fixpoint free_chain (l : list (Slot A)) (h : Z) (fl : list nat) : Prop :=
  match fl with
  | [] => h = nil_index
  | i :: fl => h = Z.of_nat i ∧ ∃ v n, l !! i = Some (mk_slot v (inr n)) ∧ free_chain l n fl
  end.

Definition slot_elem (sl : Slot A) : option A :=
  match content sl with inl a => Some a | inr _ => None end.

Record Inv s (fl : list nat) : Prop := mk_Inv {
  iv_len : Z.of_nat (length (slots s)) <= 2 ^ ib;
  iv_slots : Forall slot_ok (slots s);
  iv_chain : free_chain (slots s) (free_head s) fl;
  iv_nodup : NoDup fl;
  iv_vacant : ∀ i v n, slots s !! i = Some (mk_slot v (inr n)) → i ∈ fl;
  iv_num : num_elems s = Z.of_nat (length (omap slot_elem (slots s)))
}.

(** The value a valid key denotes. *)
Definition lookup k s : option A :=
  match slots s !! Z.to_nat (key_index w ib k) with
  | Some (mk_slot v (inl a)) => if v =? key_version w ib k then Some a else None
  | _ => None
  end.

Lemma nil_index_end s : Z.of_nat (length (slots s)) <= 2 ^ ib →
  negb (nil_index =? invalid_index w) && (nil_index <? num_slots s) = false.
Proof.
  intros Hlen. unfold num_slots, invalid_index. destruct Hw.
  destruct (Z.le_gt_cases w 32).
  - assert (2 ^ w <= 2 ^ 32) by (apply Z.pow_le_mono_r; lia).
    assert (0 < 2 ^ w) by (apply Z.pow_pos_nonneg; lia).
    rewrite u32_small by lia. by rewrite Z.eqb_refl.
  - replace (u32 (2 ^ w - 1)) with 4294967295.
    + assert (2 ^ ib <= 2 ^ 31) by (apply Z.pow_le_mono_r; lia).
      case_bool; try lia; done.
    + unfold u32, wrap. replace w with (w - 32 + 32) at 1 by lia. rewrite Z.pow_add_r by lia.
      assert (0 < 2 ^ (w - 32)) by (apply Z.pow_pos_nonneg; lia).
      apply Z.mod_unique with (2 ^ (w - 32) - 1); lia.
Qed.

Lemma index_not_invalid i : 0 <= i < 2 ^ ib → i ≠ invalid_index w ∧ u32 i = i ∧ wrap w i = i.
Proof.
  destruct (pow_split w ib Hw) as (Hp & ? & ?). unfold invalid_index. destruct Hw.
  assert (2 ^ ib <= 2 ^ 31) by (apply Z.pow_le_mono_r; lia).
  intros. split_and!; [nia|apply u32_small; lia|apply wrap_small; unfold in_range; nia].
Qed.

(** The end marker survives its trip through a narrower type. *)
Lemma wrap_nil_index : wrap w nil_index = nil_index.
Proof.
  destruct Hw. unfold invalid_index. destruct (Z.le_gt_cases w 32).
  - assert (2 ^ w <= 2 ^ 32) by (apply Z.pow_le_mono_r; lia).
    assert (0 < 2 ^ w) by (apply Z.pow_pos_nonneg; lia).
    rewrite (u32_small (2 ^ w - 1)) by lia. by apply wrap_small; unfold in_range; lia.
  - assert (2 ^ 32 <= 2 ^ w) by (apply Z.pow_le_mono_r; lia).
    apply wrap_small. pose proof (u32_range (2 ^ w - 1)). unfold in_range. lia.
Qed.

Lemma free_chain_insert l h fl i sl :
  i ∉ fl → free_chain l h fl → free_chain (<[i := sl]> l) h fl.
Proof.
  revert h; induction fl as [|j fl IH]; intros h; [done|].
  intros [Hne Hni]%not_elem_of_cons (-> & v & n & Hl & Hc). simpl. split; [done|].
  exists v, n. rewrite list_lookup_insert_ne by done. auto.
Qed.

Lemma free_chain_app l h fl sl : free_chain l h fl → free_chain (l ++ [sl]) h fl.
Proof.
  revert h; induction fl as [|j fl IH]; intros h; [done|].
  intros (-> & v & n & Hl & Hc). simpl. split; [done|].
  exists v, n. split; [by apply lookup_app_l_Some|auto].
Qed.

Lemma free_chain_elem l h fl i : free_chain l h fl → i ∈ fl → ∃ v n, l !! i = Some (mk_slot v (inr n)).
Proof.
  revert h; induction fl as [|j fl IH]; intros h; [by intros _ ?%elem_of_nil|].
  intros (-> & v & n & Hl & Hc) [->|Hi]%elem_of_cons; eauto.
Qed.

Lemma omap_length (l : list (Slot A)) : (length (omap slot_elem l) ≤ length l)%nat.
Proof.
  induction l as [|[v [a|n]] l IH]; simpl; [done|by apply le_n_S|by apply le_S].
Qed.

Lemma omap_length_full (l : list (Slot A)) :
  (∀ i v n, l !! i ≠ Some (mk_slot v (inr n))) → length (omap slot_elem l) = length l.
Proof.
  induction l as [|[v c] l IH]; intros Hl; [done|]. simpl.
  destruct c as [a|n]; [|by destruct (Hl 0%nat v n)]. simpl. f_equal. apply IH.
  intros i. apply (Hl (S i)).
Qed.

(** Overwriting a slot changes the number of elements at that slot only. *)
Lemma omap_length_insert (l : list (Slot A)) i old new :
  l !! i = Some old →
  Z.of_nat (length (omap slot_elem (<[i := new]> l)))
  = Z.of_nat (length (omap slot_elem l))
    - match slot_elem old with Some _ => 1 | None => 0 end
    + match slot_elem new with Some _ => 1 | None => 0 end.
Proof.
  intros Hl. rewrite insert_take_drop by (by eapply lookup_lt_Some).
  assert (Hsplit : omap slot_elem l = omap slot_elem (take i l ++ old :: drop (S i) l))
    by (by rewrite take_drop_middle).
  rewrite Hsplit, !omap_app, !length_app. destruct old as [? []], new as [? []]; simpl; lia.
Qed.

Lemma elems_bounds s fl : Inv s fl → 0 <= num_elems s <= Z.of_nat (length (slots s)).
Proof. intros [_ _ _ _ _ ->]. pose proof (omap_length (slots s)). lia. Qed.

(** ** Lookup *)
Lemma slot_at_lookup s i sl :
  0 <= i → slots s !! Z.to_nat i = Some sl → slot_at i s = Ok sl.
Proof. unfold slot_at. by intros _ ->. Qed.

Lemma contains_spec s fl k :
  Inv s fl → valid_key w k →
  contains w ib k s = Ok (match slots s !! Z.to_nat (key_index w ib k) with
                          | Some sl => version sl =? key_version w ib k
                          | None => false
                          end).
Proof.
  intros HI Hk. destruct (valid_key_pack w ib Hw k Hk) as (_ & Hi & _).
  unfold contains, num_slots. destruct (Z.leb_spec (Z.of_nat (length (slots s))) (key_index w ib k)).
  - by rewrite lookup_ge_None_2 by lia.
  - destruct (lookup_lt_is_Some_2 (slots s) (Z.to_nat (key_index w ib k))) as [sl Hsl]; [lia|].
    rewrite Hsl. unfold slot_at. by rewrite Hsl.
Qed.

(** A valid key only matches an occupied slot: its version is odd. *)
Lemma version_match s fl k sl i :
  Inv s fl → valid_key w k → slots s !! i = Some sl →
  version sl = key_version w ib k → ∃ a, content sl = inl a.
Proof.
  intros HI Hk Hsl Hv. destruct (valid_key_pack w ib Hw k Hk) as (_ & _ & _ & Hodd).
  pose proof (iv_slots _ _ HI) as Hall. rewrite Forall_lookup in Hall.
  destruct (Hall _ _ Hsl) as [_ Hp]. rewrite Hv, Hodd in Hp.
  destruct (content sl) as [a|n]; [by exists a|done].
Qed.

Lemma get_spec s fl k : Inv s fl → valid_key w k → get w ib k s = Ok (lookup k s).
Proof.
  intros HI Hk. unfold get. rewrite (contains_spec s fl) by done. unfold lookup.
  cbn [mbind outcome_bind].
  destruct (slots s !! Z.to_nat (key_index w ib k)) as [[v c]|] eqn:Hsl; [|done]. simpl.
  destruct (Z.eqb_spec v (key_version w ib k)) as [->|]; simpl; [|by destruct c].
  destruct (version_match s fl k _ _ HI Hk Hsl eq_refl) as [a Ha]. simpl in Ha. subst c.
  unfold slot_at. by rewrite Hsl.
Qed.

(** ** Changes of one slot *)
Definition ver_at s (i : nat) : Z :=
  match slots s !! i with Some sl => version sl | None => 0 end.

(** What an insertion of [v] under the key [k] does. *)
Record inserted s k (v : A) s' : Prop := mk_inserted {
  in_valid : valid_key w k;
  in_fresh : ver_at s (Z.to_nat (key_index w ib k)) < key_version w ib k;
  in_vacant : ∀ x a, slots s !! Z.to_nat (key_index w ib k) ≠ Some (mk_slot x (inl a));
  in_others : ∀ i, i ≠ Z.to_nat (key_index w ib k) → slots s' !! i = slots s !! i;
  in_slot : slots s' !! Z.to_nat (key_index w ib k) = Some (mk_slot (key_version w ib k) (inl v));
  in_num : num_elems s' = num_elems s + 1
}.

Lemma inserted_lookup s k v s' k' :
  inserted s k v s' → valid_key w k' →
  lookup k s = None ∧ lookup k' s' = if k' =? k then Some v else lookup k' s.
Proof.
  intros [Hk _ Hvac Hoth Hsl _] Hk'. unfold lookup in *.
  destruct (valid_key_pack w ib Hw k Hk) as (Hkp & Hki & _).
  destruct (valid_key_pack w ib Hw k' Hk') as (Hkp' & Hki' & _).
  destruct (Z.eq_dec (key_index w ib k') (key_index w ib k)) as [Heq|Hidx].
  - rewrite Heq, Hsl. destruct (slots s !! _) as [[x [a|n]]|] eqn:Hs; [by destruct (Hvac x a)|..];
      (split; [done|]);
      (destruct (Z.eqb_spec (key_version w ib k) (key_version w ib k')) as [Hv|Hv];
        destruct (Z.eqb_spec k' k) as [->|Hne]; try done;
        [exfalso; apply Hne; by rewrite Hkp, Hkp', Heq, Hv]).
  - destruct (Z.eqb_spec k' k) as [->|Hne]; [done|]. rewrite Hoth by lia.
    split; [|done]. destruct (slots s !! _) as [[x [a|n]]|] eqn:Hs; [by destruct (Hvac x a)|done..].
Qed.

Lemma slot_ok_inl v (a : A) : slot_ok (mk_slot v (inl a)) → v mod 2 = 1 ∧ 0 <= v < 2 ^ vb.
Proof.
  destruct (pow_vb_even w ib Hw) as [h Hh].
  intros [Hv Hm]. simpl in *. split; [done|]. split; [lia|].
  destruct (Z.eq_dec v (2 ^ vb)) as [->|]; [|lia].
  rewrite Hh in Hm. by rewrite Z.mul_comm, Z.mod_mul in Hm.
Qed.

Lemma slot_ok_inr v n : slot_ok (mk_slot v (inr n)) → v mod 2 = 0 ∧ 0 <= v <= 2 ^ vb ∧ Z.lor v 1 = v + 1.
Proof.
  intros [Hv Hm]. simpl in *. split_and!; [done|lia..|].
  rewrite (Z.div_mod v 2) at 1 by lia. rewrite Hm, Z.add_0_r, (Z.mul_comm 2), lor_double by lia.
  pose proof (Z.div_mod v 2). lia.
Qed.

Lemma Inv_slot s fl i sl : Inv s fl → slots s !! i = Some sl → slot_ok sl.
Proof. intros HI. pose proof (iv_slots _ _ HI) as H. rewrite Forall_lookup in H. apply H. Qed.

Lemma odd_succ v : v mod 2 = 0 → (v + 1) mod 2 = 1.
Proof. intros. Z.to_euclidean_division_equations; lia. Qed.
Lemma even_succ v : v mod 2 = 1 → (v + 1) mod 2 = 0.
Proof. intros. Z.to_euclidean_division_equations; lia. Qed.

Lemma lookup_vacant_old s fl i :
  Inv s fl → (∃ v n, slots s !! i = Some (mk_slot v (inr n))) ∨ slots s !! i = None →
  ∀ x a, slots s !! i ≠ Some (mk_slot x (inl a)).
Proof. intros _ [(v & n & ->)| ->]; congruence. Qed.

(** A new slot at the end. *)
Lemma Inv_append s v :
  Inv s [] → Z.of_nat (length (slots s)) < 2 ^ ib →
  let s' := mk_slotmap (slots s ++ [mk_slot 1 (inl v)]) (free_head s) (num_elems s + 1) in
  Inv s' [] ∧ inserted s (pack w ib (Z.of_nat (length (slots s))) 1) v s'.
Proof.
  intros HI Hlt s'. pose proof HI as [Hlen Hok Hc Hnd Hvac Hnum].
  destruct (pow_split w ib Hw) as (_ & _ & Hpv).
  set (idx := Z.of_nat (length (slots s))) in *.
  assert (Hi : key_index w ib (pack w ib idx 1) = idx) by (apply pack_index; lia || done).
  assert (Hv : key_version w ib (pack w ib idx 1) = 1) by (apply pack_version; lia || done).
  assert (Hnat : Z.to_nat idx = length (slots s)) by (unfold idx; lia).
  split; [split; simpl|split; rewrite ?Hi, ?Hv, ?Hnat; simpl].
  - rewrite length_app. simpl. lia.
  - apply Forall_app. split; [done|]. apply Forall_singleton. split; [simpl; lia|done].
  - done.
  - done.
  - intros i x n Hl. rewrite lookup_app in Hl.
    destruct (slots s !! i) as [sl|] eqn:Hs; [injection Hl as ->; by eapply Hvac|].
    destruct (i - length (slots s))%nat as [|[|]]; simpl in Hl; congruence.
  - rewrite omap_app, length_app. simpl. lia.
  - apply pack_valid; [done|lia|lia|done].
  - unfold ver_at. rewrite lookup_ge_None_2 by lia. lia.
  - apply (lookup_vacant_old s []); [done|]. right. apply lookup_ge_None_2. lia.
  - intros i Hne. destruct (slots s !! i) as [sl|] eqn:Hs.
    + by apply lookup_app_l_Some.
    + apply lookup_ge_None in Hs. apply lookup_ge_None. rewrite length_app. simpl. lia.
  - by rewrite list_lookup_middle.
  - done.
Qed.

(** The first slot of the free list is filled again. *)
Lemma Inv_reuse s i fl x n v :
  Inv s (i :: fl) → slots s !! i = Some (mk_slot x (inr n)) → free_chain (slots s) n fl →
  x < 2 ^ vb →
  let s' := mk_slotmap (<[i := mk_slot (x + 1) (inl v)]> (slots s)) n (num_elems s + 1) in
  Inv s' fl ∧ inserted s (pack w ib (Z.of_nat i) (x + 1)) v s'.
Proof.
  intros HI Hs Hc' Hx s'. pose proof HI as [Hlen Hok Hc Hnd Hvac Hnum].
  pose proof (lookup_lt_Some _ _ _ Hs) as Hi_lt.
  destruct (slot_ok_inr _ _ (Inv_slot _ _ _ _ HI Hs)) as (Hmod & Hxb & _).
  apply NoDup_cons in Hnd as [Hni Hnd].
  assert (Hodd : (x + 1) mod 2 = 1) by (by apply odd_succ).
  assert (Hx1 : x + 1 < 2 ^ vb).
  { destruct (pow_vb_even w ib Hw) as [h Hh]. destruct (Z.eq_dec (x + 1) (2 ^ vb)) as [He|]; [|lia].
    rewrite He, Hh, Z.mul_comm, Z.mod_mul in Hodd; lia. }
  assert (Hi : key_index w ib (pack w ib (Z.of_nat i) (x + 1)) = Z.of_nat i)
    by (apply pack_index; lia || done).
  assert (Hv : key_version w ib (pack w ib (Z.of_nat i) (x + 1)) = x + 1)
    by (apply pack_version; lia || done).
  split; [split; simpl|split; rewrite ?Hi, ?Hv, ?Nat2Z.id; simpl].
  - by rewrite length_insert.
  - apply Forall_insert; [done|]. split; [simpl; lia|done].
  - by apply free_chain_insert.
  - done.
  - intros j y m Hl. destruct (decide (j = i)) as [->|Hji].
    + rewrite list_lookup_insert_eq in Hl by done. congruence.
    + rewrite list_lookup_insert_ne in Hl by done.
      apply Hvac, elem_of_cons in Hl as [->|]; done.
  - rewrite (omap_length_insert _ _ _ _ Hs). simpl. lia.
  - apply pack_valid; [done|lia|lia|done].
  - unfold ver_at. rewrite Hs. simpl. lia.
  - apply (lookup_vacant_old s (i :: fl)); [done|]. left. eauto.
  - intros j Hj. by apply list_lookup_insert_ne.
  - by apply list_lookup_insert_eq.
  - done.
Qed.

(** The three outcomes of [emplace]. *)
Lemma run_emplace s fl v :
  Inv s fl →
  (∃ k s' fl', emplace w ib v s = (Ok k, s') ∧ Inv s' fl' ∧ inserted s k v s')
  ∨ (emplace w ib v s = (Err TT_FATAL, s) ∧ num_elems s = 2 ^ ib)
  ∨ (∃ s' i n, emplace w ib v s = (Err TT_ASSERT, s')
     ∧ slots s !! i = Some (mk_slot (2 ^ vb) (inr n))).
Proof.
  intros HI. pose proof HI as [Hlen Hok Hc Hnd Hvac Hnum].
  destruct (pow_split w ib Hw) as (Hp & Hpi & Hpv). pose proof (elems_bounds s fl HI) as Hnb.
  assert (Hib : 2 ^ ib <= 2 ^ 31) by (destruct Hw; apply Z.pow_le_mono_r; lia).
  change (2 ^ 31) with 2147483648 in Hib.
  unfold emplace. unfold mbind, ST_bind, get_st, put_st, modify_st, lift_st, check_st, mret, ST_ret.
  destruct fl as [|i fl]; simpl in Hc.
  - rewrite Hc, nil_index_end by done. unfold num_slots. set (idx := Z.of_nat (length (slots s))) in *.
    rewrite (wrap_small w idx) by (unfold in_range; nia). rewrite (max_index_eq w ib) by done.
    destruct (Z.leb_spec idx (2 ^ ib - 1)) as [Hle|Hgt]; simpl.
    + left. destruct (Inv_append s v HI) as [HI' Hins]; [lia|].
      eexists _, _, []. split; [|split; [exact HI'|exact Hins]].
      rewrite (u32_small (num_elems s + 1)) by lia. unfold slot_at. simpl.
      unfold idx. rewrite Nat2Z.id, list_lookup_middle by done. simpl.
      rewrite Key_make_eq; [|done|lia|lia|done]. destruct (Z.ltb_spec 1 (2 ^ vb)); [by rewrite Hc|lia].
    + right; left. split; [done|].
      rewrite omap_length_full in Hnum by (by intros j y n Hj; apply Hvac, elem_of_nil in Hj). lia.
  - destruct Hc as (Hh & x & n & Hs & Hc). pose proof (lookup_lt_Some _ _ _ Hs) as Hi_lt.
    destruct (index_not_invalid (Z.of_nat i)) as (Hninv & _ & Hwrap); [lia|].
    rewrite Hh. apply Z.eqb_neq in Hninv. rewrite Hninv. unfold num_slots.
    destruct (Z.ltb_spec (Z.of_nat i) (Z.of_nat (length (slots s)))); [|lia]. simpl.
    rewrite Hwrap. unfold slot_at, set_slot. rewrite !Nat2Z.id, Hs. simpl.
    destruct (slot_ok_inr _ _ (Inv_slot _ _ _ _ HI Hs)) as (Hmod & Hxb & Hlor). rewrite Hlor.
    rewrite (u32_small (num_elems s + 1)) by lia.
    rewrite ?Nat2Z.id, list_lookup_insert_eq by done. simpl.
    assert (Hn : u32 n = n).
    { destruct fl as [|j fl]; simpl in Hc; [rewrite Hc; apply u32_small, u32_range|].
      destruct Hc as (-> & y & m & Hj & _). apply lookup_lt_Some in Hj. apply u32_small. lia. }
    rewrite Hn, Key_make_eq; [|done|lia|lia|by apply odd_succ].
    destruct (Z.ltb_spec (x + 1) (2 ^ vb)).
    + left. destruct (Inv_reuse s i fl x n v HI Hs Hc) as [HI' Hins]; [lia|].
      eexists _, _, fl. split; [reflexivity|split; [exact HI'|exact Hins]].
    + right; right. destruct (pow_vb_even w ib Hw) as [h Hh'].
      assert (x = 2 ^ vb) as ->.
      { destruct (Z.eq_dec (x + 1) (2 ^ vb)) as [He|]; [|lia].
        apply odd_succ in Hmod. rewrite He, Hh', Z.mul_comm, Z.mod_mul in Hmod; lia. }
      eexists _, i, n. split; [reflexivity|exact Hs].
Qed.

(** ** remove *)
Record removed s k s' : Prop := mk_removed {
  rm_slot : ∃ v n, slots s' !! Z.to_nat (key_index w ib k) = Some (mk_slot v (inr n));
  rm_others : ∀ i, i ≠ Z.to_nat (key_index w ib k) → slots s' !! i = slots s !! i;
  rm_version : ver_at s' (Z.to_nat (key_index w ib k)) = ver_at s (Z.to_nat (key_index w ib k)) + 1;
  rm_num : num_elems s' = num_elems s - 1
}.

Lemma Inv_remove s fl i v (a : A) :
  Inv s fl → slots s !! i = Some (mk_slot v (inl a)) →
  let s' := mk_slotmap (<[i := mk_slot (v + 1) (inr (wrap w (free_head s)))]> (slots s))
              (Z.of_nat i) (num_elems s - 1) in
  Inv s' (i :: fl).
Proof.
  intros HI Hs s'. pose proof HI as [Hlen Hok Hc Hnd Hvac Hnum].
  pose proof (lookup_lt_Some _ _ _ Hs) as Hi_lt.
  destruct (slot_ok_inl _ _ (Inv_slot _ _ _ _ HI Hs)) as (Hodd & Hvb).
  assert (Hni : i ∉ fl).
  { intros Hin. destruct (free_chain_elem _ _ _ _ Hc Hin) as (y & m & Hy). congruence. }
  split; simpl.
  - by rewrite length_insert.
  - apply Forall_insert; [done|]. split; [simpl; lia|]. simpl. by apply even_succ.
  - split; [done|]. exists (v + 1), (wrap w (free_head s)).
    split; [by apply list_lookup_insert_eq|]. apply free_chain_insert; [done|].
    replace (wrap w (free_head s)) with (free_head s); [done|].
    destruct fl as [|j fl]; simpl in Hc.
    + rewrite Hc. symmetry. apply wrap_nil_index.
    + destruct Hc as (-> & y & m & Hy & _). apply lookup_lt_Some in Hy.
      symmetry. apply index_not_invalid. lia.
  - by constructor.
  - intros j x n Hj. destruct (decide (j = i)) as [->|Hji]; [by left|]. right.
    rewrite list_lookup_insert_ne in Hj by done. by eapply Hvac.
  - rewrite (omap_length_insert _ _ _ _ Hs). simpl. lia.
Qed.

Lemma run_remove s fl k :
  Inv s fl → valid_key w k →
  (∃ s' fl', remove w ib k s = (Ok tt, s') ∧ Inv s' fl' ∧ is_Some (lookup k s) ∧ removed s k s')
  ∨ (remove w ib k s = (Ok tt, s) ∧ lookup k s = None).
Proof.
  intros HI Hk. unfold remove, remove_unchecked.
  unfold mbind, ST_bind, get_st, put_st, modify_st, lift_st, check_st, mret, ST_ret.
  rewrite (contains_spec s fl k HI Hk). unfold lookup.
  destruct (valid_key_pack w ib Hw k Hk) as (_ & Hi & _).
  destruct (index_not_invalid (key_index w ib k) Hi) as (_ & Hu & _). rewrite Hu.
  destruct (slots s !! Z.to_nat (key_index w ib k)) as [[v c]|] eqn:Hs; simpl; [|by right].
  destruct (Z.eqb_spec v (key_version w ib k)) as [->|Hne]; simpl;
    [|right; split; [done|by destruct c]].
  destruct (version_match s fl k _ _ HI Hk Hs eq_refl) as [a Ha]. simpl in Ha. subst c.
  left. unfold slot_at, set_slot. rewrite Hs. simpl.
  destruct (slot_ok_inl _ _ (Inv_slot _ _ _ _ HI Hs)) as (_ & Hvb).
  destruct (pow_split w ib Hw) as (Hp & Hpi & Hpv).
  rewrite (wrap_small w (_ + 1)) by (unfold in_range; nia).
  pose proof (Inv_remove s fl _ _ _ HI Hs) as HI'. cbv zeta in HI'. rewrite Z2Nat.id in HI' by lia.
  pose proof (elems_bounds s fl HI) as Hn. pose proof (iv_len _ _ HI).
  assert (2 ^ ib <= 2 ^ 31) by (destruct Hw; apply Z.pow_le_mono_r; lia).
  assert (0 < num_elems s).
  { pose proof (elems_bounds _ _ HI'). simpl in *. lia. }
  rewrite (u32_small (num_elems s - 1)) by lia.
  pose proof (lookup_lt_Some _ _ _ Hs).
  eexists _, _. split; [done|]. split; [exact HI'|]. split; [done|]. split; simpl.
  - eexists _, _. by apply list_lookup_insert_eq.
  - intros i Hne. by apply list_lookup_insert_ne.
  - unfold ver_at. simpl. by rewrite Hs, list_lookup_insert_eq.
  - done.
Qed.

Lemma removed_lookup s k s' k' :
  valid_key w k → valid_key w k' → is_Some (lookup k s) → removed s k s' →
  lookup k' s' = if k' =? k then None else lookup k' s.
Proof.
  intros Hk Hk' [a Ha] [(v & n & Hsl) Hoth _ _]. unfold lookup in *.
  destruct (valid_key_pack w ib Hw k Hk) as (Hkp & Hki & _).
  destruct (valid_key_pack w ib Hw k' Hk') as (Hkp' & Hki' & _).
  destruct (Z.eq_dec (key_index w ib k') (key_index w ib k)) as [Heq|Hidx].
  - rewrite Heq, Hsl. destruct (slots s !! _) as [[x [b|m]]|]; [|by destruct (k' =? k)..].
    destruct (Z.eqb_spec x (key_version w ib k)) as [->|]; [|done].
    destruct (Z.eqb_spec k' k) as [->|Hne]; [done|].
    destruct (Z.eqb_spec (key_version w ib k) (key_version w ib k')) as [Hv|]; [|done].
    exfalso. apply Hne. by rewrite Hkp, Hkp', Heq, Hv.
  - destruct (Z.eqb_spec k' k) as [->|Hne]; [done|]. by rewrite Hoth by lia.
Qed.

Lemma Inv_new : Inv (SlotMap_new w) [].
Proof.
  split; simpl; [|done|done|constructor|done|done].
  destruct (pow_split w ib Hw). lia.
Qed.

End invariant.

(** ** Iteration *)
Section iteration.
Context (w ib : Z) (Hw : widths w ib) {A : Type}.
Implicit Types (s : SlotMap A) (l : list (Slot A)).

Lemma occupied_ok (sl : Slot A) : slot_ok w ib sl → occupied sl = bool_decide (is_Some (slot_elem sl)).
Proof.
  intros [_ Hp]. unfold occupied, slot_elem. rewrite land_1, Hp. by destruct (content sl).
Qed.

Lemma drop_cons l (n : nat) sl : l !! n = Some sl → drop n l = sl :: drop (S n) l.
Proof. apply drop_S. Qed.

Lemma iterate_drop s fl (n fuel : nat) :
  Inv w ib s fl → (n ≤ length (slots s))%nat → (length (slots s) - n < fuel)%nat →
  iterate fuel s (skip_vacant (drop n (slots s)) (Z.of_nat n)) = Ok (omap slot_elem (drop n (slots s))).
Proof.
  intros HI. revert fuel. remember (length (slots s) - n)%nat as m eqn:Hm.
  revert n Hm; induction m as [|m IH]; intros n Hm fuel Hn Hf.
  { assert (n = length (slots s)) as -> by lia. rewrite drop_all. simpl.
    assert (Hend : iter_end s = Z.of_nat (length (slots s))).
    { unfold iter_end, iterator_at, num_slots. by rewrite Nat2Z.id, lookup_ge_None_2. }
    destruct fuel; simpl; by rewrite Hend, Z.eqb_refl. }
  destruct (lookup_lt_is_Some_2 (slots s) n) as [sl Hsl]; [lia|].
  pose proof (occupied_ok _ (Inv_slot w ib _ _ _ _ HI Hsl)) as Hocc.
  rewrite (drop_cons _ _ _ Hsl). simpl.
  assert (Hnext : iter_next s (Z.of_nat n) = skip_vacant (drop (S n) (slots s)) (Z.of_nat (S n))).
  { unfold iter_next. rewrite Nat2Z.id. f_equal. lia. }
  rewrite Hocc. destruct (content sl) as [a|x] eqn:Hc.
  all: assert (Hse : slot_elem sl = match content sl with inl a => Some a | inr _ => None end) by done.
  all: rewrite Hc in Hse; rewrite Hse; simpl.
  - destruct fuel as [|fuel]; [lia|]. cbn [iterate].
    assert (Hne : Z.of_nat n =? iter_end s = false).
    { apply Z.eqb_neq. unfold iter_end, iterator_at, num_slots.
      rewrite Nat2Z.id, lookup_ge_None_2 by lia. lia. }
    rewrite Hne. unfold slot_at. rewrite Nat2Z.id, Hsl. simpl. unfold slot_value. rewrite Hc. simpl.
    rewrite Hnext, IH by lia. done.
  - replace (Z.of_nat n + 1) with (Z.of_nat (S n)) by lia. apply IH; lia.
Qed.

Lemma values_spec s fl : Inv w ib s fl → values s = Ok (omap slot_elem (slots s)).
Proof.
  intros HI. unfold values, iter_begin, iterator_at.
  pose proof (iterate_drop s fl 0 (S (length (slots s))) HI ltac:(lia) ltac:(lia)) as H.
  rewrite drop_0 in H. rewrite <- H. f_equal. simpl. destruct (slots s) as [|sl l] eqn:Hs; [done|].
  simpl. destruct (occupied sl) eqn:Ho; [done|]. simpl. unfold iter_next. by rewrite Hs.
Qed.

(** The keys of the occupied slots, in index order. *)
Definition entries s : list (Z * A) :=
  omap (λ p, (λ a, (pack w ib (Z.of_nat p.1) (version p.2), a)) <$> slot_elem p.2)
    (imap (λ i sl, (i, sl)) (slots s)).

Lemma elem_of_entries s k v :
  (k, v) ∈ entries s ↔ ∃ i x, slots s !! i = Some (mk_slot x (inl v)) ∧ k = pack w ib (Z.of_nat i) x.
Proof.
  unfold entries. rewrite list_elem_of_omap. split.
  - intros ([i [x c]] & Hin & Hf). simpl in Hf. apply list_elem_of_lookup in Hin as [j Hj].
    rewrite list_lookup_imap in Hj. destruct (slots s !! j) eqn:Hs; simplify_eq/=.
    destruct c; simplify_eq/=. eauto.
  - intros (i & x & Hs & ->). exists (i, mk_slot x (inl v)). split; [|done].
    apply list_elem_of_lookup. exists i. by rewrite list_lookup_imap, Hs.
Qed.

Lemma entries_lookup s fl k v :
  Inv w ib s fl → (k, v) ∈ entries s ↔ valid_key w k ∧ lookup w ib k s = Some v.
Proof.
  intros HI. rewrite elem_of_entries. split.
  - intros (i & x & Hs & ->). destruct (slot_ok_inl w ib Hw _ _ (Inv_slot w ib _ _ _ _ HI Hs)) as [Ho Hx].
    pose proof (lookup_lt_Some _ _ _ Hs). pose proof (iv_len _ _ _ _ HI).
    split; [apply pack_valid; done || lia|].
    unfold lookup. rewrite pack_index, pack_version, Nat2Z.id, Hs by done. by rewrite Z.eqb_refl.
  - intros [Hk Hl]. destruct (valid_key_pack w ib Hw k Hk) as (Hkp & Hi & _).
    unfold lookup in Hl. destruct (slots s !! _) as [[x [a|n]]|] eqn:Hs; try done.
    destruct (Z.eqb_spec x (key_version w ib k)) as [->|]; [|done]. injection Hl as ->.
    eexists _, _. split; [exact Hs|]. rewrite Hkp at 1. f_equal. lia.
Qed.

(** [entries] numbers the slots from [n] on. *)
Definition entries_from (n : nat) l : list (Z * A) :=
  omap (λ p, (λ a, (pack w ib (Z.of_nat p.1) (version p.2), a)) <$> slot_elem p.2)
    (imap (λ i sl, ((n + i)%nat, sl)) l).

Lemma entries_from_cons n sl l :
  entries_from n (sl :: l)
  = match slot_elem sl with
    | Some a => (pack w ib (Z.of_nat n) (version sl), a) :: entries_from (S n) l
    | None => entries_from (S n) l
    end.
Proof.
  unfold entries_from. rewrite imap_cons. simpl.
  rewrite (imap_ext ((λ i sl, ((n + i)%nat, sl)) ∘ S) (λ i (sl : Slot A), ((S n + i)%nat, sl)))
    by (intros; simpl; f_equal; lia).
  rewrite Nat.add_0_r. by destruct (slot_elem sl).
Qed.

Lemma entries_values s : (entries s).*2 = omap slot_elem (slots s).
Proof.
  change (entries s) with (entries_from 0 (slots s)). generalize 0%nat.
  induction (slots s) as [|sl l IH]; intros n; [done|]. rewrite entries_from_cons. simpl.
  destruct (slot_elem sl); simpl; by rewrite IH.
Qed.

Lemma entries_from_NoDup n l :
  Forall (slot_ok w ib) l →
  NoDup (entries_from n l).*1
  ∧ ∀ k, k ∈ (entries_from n l).*1 → Z.of_nat n <= key_index w ib k.
Proof.
  revert n; induction l as [|sl l IH]; intros n Hl;
    [split; [constructor|by intros k ?%elem_of_nil]|].
  apply Forall_cons in Hl as [Hok Hl]. destruct (IH (S n) Hl) as [Hnd Hlow].
  rewrite entries_from_cons. destruct sl as [x [a|m]]; simpl.
  - destruct (slot_ok_inl w ib Hw _ _ Hok) as [_ Hx].
    assert (Hi : key_index w ib (pack w ib (Z.of_nat n) x) = Z.of_nat n) by (by apply pack_index).
    split.
    + constructor; [|done]. intros Hin%Hlow. lia.
    + intros k [->|Hin%Hlow]%elem_of_cons; lia.
  - split; [done|]. intros k Hin%Hlow. lia.
Qed.

End iteration.

(** ** Runs *)
Section runs.
Context (w ib : Z) (Hw : widths w ib) {A : Type}.
Implicit Types (s : SlotMap A) (k : Z).

(** The states of a slot map that is used through insertions, also failing
    ones, and removals; [ks] are the keys given out so far, and [live] are the
    elements inserted and not removed since, by their keys. *)
Inductive run : list Z → gmap Z A → SlotMap A → Prop :=
| run_new : run [] ∅ (SlotMap_new w)
| run_insert ks live s v k s' :
    run ks live s → emplace w ib v s = (Ok k, s') → run (k :: ks) (<[k := v]> live) s'
| run_full ks live s v s' :
    run ks live s → emplace w ib v s = (Err TT_FATAL, s') → run ks live s'
| run_remove_key ks live s k s' :
    run ks live s → valid_key w k → remove w ib k s = (Ok tt, s') → run ks (delete k live) s'.

(** The keys are distinct and none is ahead of its slot; [live] is what the map holds. *)
Definition represents ks (live : gmap Z A) s : Prop :=
  NoDup ks
  ∧ (∀ k, k ∈ ks → valid_key w k ∧ key_version w ib k <= ver_at s (Z.to_nat (key_index w ib k)))
  ∧ (∀ k, is_Some (live !! k) → k ∈ ks)
  ∧ ∀ k, valid_key w k → lookup w ib k s = live !! k.

Lemma run_Inv ks live s : run ks live s → (∃ fl, Inv w ib s fl) ∧ represents ks live s.
Proof.
  induction 1 as [|ks live s v k s' _ [[fl HI] (Hnd & Hver & Hdom & Hlive)] He
                 |ks live s v s' _ [[fl HI] Hiss] He|ks live s k s' _ [[fl HI] (Hnd & Hver & Hdom & Hlive)] Hk Hr].
  - split; [eexists; by apply Inv_new|]. split_and!; [constructor|by intros k ?%elem_of_nil|..].
    + intros k. rewrite lookup_empty. intros [? [=]].
    + intros k _. rewrite lookup_empty. by unfold lookup.
  - destruct (run_emplace w ib Hw s fl v HI)
      as [(k' & s'' & fl' & He' & HI' & Hins)|[[He' _]|(s'' & i & n & He' & _)]];
      rewrite He in He'; try congruence. injection He' as <- <-.
    split; [by exists fl'|].
    pose proof Hins as [Hk Hfr Hvac Hoth Hsl _].
    assert (Hat : ver_at s' (Z.to_nat (key_index w ib k)) = key_version w ib k)
      by (unfold ver_at; by rewrite Hsl).
    split_and!.
    + constructor; [|done]. intros [_ Hle]%Hver. lia.
    + intros k' [->|Hin]%elem_of_cons; [split; [done|lia]|].
      destruct (Hver k' Hin) as [Hk' Hle]. split; [done|].
      destruct (decide (Z.to_nat (key_index w ib k') = Z.to_nat (key_index w ib k))) as [Heq|Hne].
      * rewrite Heq in Hle |- *. lia.
      * unfold ver_at in *. by rewrite Hoth.
    + intros k' [<-|[_ Hl]]%lookup_insert_is_Some; [by left|]. right. by apply Hdom.
    + intros k' Hk'. destruct (inserted_lookup w ib Hw _ _ _ _ k' Hins Hk') as [_ ->].
      destruct (Z.eqb_spec k' k) as [->|Hne]; [by rewrite lookup_insert_eq|]. rewrite lookup_insert_ne by done. by apply Hlive.
  - destruct (run_emplace w ib Hw s fl v HI)
      as [(k' & s'' & fl' & He' & HI' & Hins)|[[He' _]|(s'' & i & n & He' & _)]];
      rewrite He in He'; try congruence. injection He' as ->. eauto.
  - assert (Hd : ∀ k', is_Some (delete k live !! k') → k' ∈ ks).
    { intros k' [_ Hv]%lookup_delete_is_Some. by apply Hdom. }
    destruct (run_remove w ib Hw s fl k HI Hk) as [(s'' & fl' & Hr' & HI' & Hl & Hrm)|[Hr' Hl]];
      rewrite Hr in Hr'; injection Hr' as <-.
    + split; [by exists fl'|]. split_and!; [done| |done|].
      * intros k' Hin. destruct (Hver k' Hin) as [Hk' Hle]. split; [done|].
        pose proof Hrm as [_ Hoth Hv _].
        destruct (decide (Z.to_nat (key_index w ib k') = Z.to_nat (key_index w ib k))) as [Heq|Hne].
        -- rewrite Heq in Hle |- *. lia.
        -- unfold ver_at in *. by rewrite Hoth.
      * intros k' Hk'. rewrite (removed_lookup w ib Hw s k s' k' Hk Hk' Hl Hrm).
        destruct (Z.eqb_spec k' k) as [->|Hne]; [by rewrite lookup_delete_eq|]. rewrite lookup_delete_ne by done. by apply Hlive.
    + split; [by exists fl|]. split_and!; [done|done|done|].
      intros k' Hk'. destruct (Z.eq_dec k' k) as [->|Hne]; [by rewrite lookup_delete_eq|]. rewrite lookup_delete_ne by done. by apply Hlive.
Qed.
End runs.

(** ** The properties *)

(** The witnesses' state: three elements, one of them removed, one slot reused. *)
Definition demo_at (n : nat) : SlotMap Z :=
  let s0 := SlotMap_new 16 in
  let s1 := (insert 16 10 42 s0).2 in
  let s2 := (insert 16 10 43 s1).2 in
  let s3 := (remove 16 10 1 s2).2 in
  let s4 := (insert 16 10 44 s3).2 in
  default s4 ([s0; s1; s2; s3] !! n).

Definition demo_live : gmap Z Z := <[3 := 44]> (delete 1 (<[65 := 43]> (<[1 := 42]> ∅))).

Lemma demo_run : run 16 10 [3; 65; 1] demo_live (demo_at 4).
Proof.
  eapply (run_insert 16 10 _ _ (demo_at 3) 44); [|by vm_compute].
  eapply (run_remove_key 16 10 _ _ (demo_at 2) 1); [|by vm_compute|by vm_compute].
  eapply (run_insert 16 10 _ _ (demo_at 1) 43); [|by vm_compute].
  eapply (run_insert 16 10 _ _ (demo_at 0) 42); [|by vm_compute].
  apply run_new.
Qed.

(** C35: a slot map is a finite map whose keys are never used again.  Whatever insertions and
    removals are run from an empty map, up to an insertion that finds the versions of its slot used up
    and asserts, the keys returned are pairwise distinct, also from those of elements
    removed long before, and [get] on any key gives the value inserted under it when
    that was not removed since, and nothing otherwise: not for a key that was removed and not
    for one that was never given out. *)
Theorem keys_distinct w ib (Hw : widths w ib) A ks live (s : SlotMap A) :
  run w ib ks live s →
  NoDup ks ∧ (∀ k, is_Some (live !! k) → k ∈ ks) ∧ ∀ k, valid_key w k → get w ib k s = Ok (live !! k).
Proof.
  intros ([fl HI] & Hnd & _ & Hdom & Hlive)%run_Inv; [|done]. split; [done|]. split; [done|].
  intros k Hk. by rewrite (get_spec w ib Hw s fl k HI Hk), Hlive.
Qed.

Lemma keys_distinct_witness :
  NoDup [3; 65; 1] ∧ (∀ k, is_Some (demo_live !! k) → k ∈ [3; 65; 1])
  ∧ ∀ k, valid_key 16 k → get 16 10 k (demo_at 4) = Ok (demo_live !! k).
Proof. apply (keys_distinct 16 10); [by constructor|exact demo_run]. Defined.

(** [emplace] returns a fresh key, under which [get] finds the new value;
    what every other key denotes does not change.  It raises [TT_FATAL] only
    when all [2^INDEX_BITS] slots are occupied, and trips the key constructor's
    assertion only when it reuses a slot whose versions are used up. *)
Theorem emplace_correct w ib (Hw : widths w ib) A ks live (s : SlotMap A) v :
  run w ib ks live s →
  (∃ k s', emplace w ib v s = (Ok k, s') ∧ valid_key w k ∧ get w ib k s = Ok None
    ∧ size s' = size s + 1
    ∧ ∀ k', valid_key w k' →
        get w ib k' s' = if k' =? k then Ok (Some v) else get w ib k' s)
  ∨ (emplace w ib v s = (Err TT_FATAL, s) ∧ size s = 2 ^ ib)
  ∨ (∃ s' i n, emplace w ib v s = (Err TT_ASSERT, s')
     ∧ slots s !! i = Some (mk_slot (2 ^ VERSION_BITS w ib) (inr n))).
Proof.
  intros ([fl HI] & _)%run_Inv; [|done].
  destruct (run_emplace w ib Hw s fl v HI) as [(k & s' & fl' & He & HI' & Hins)|Hother]; [|by right].
  left. exists k, s'. pose proof Hins as [Hk _ _ _ _ Hnum].
  destruct (inserted_lookup w ib Hw s k v s' k Hins Hk) as [Hnone _].
  split_and!; [done|done| |done|].
  - by rewrite (get_spec w ib Hw s fl k HI Hk), Hnone.
  - intros k' Hk'. destruct (inserted_lookup w ib Hw s k v s' k' Hins Hk') as [_ Heq].
    rewrite (get_spec w ib Hw s' fl' k' HI' Hk'), (get_spec w ib Hw s fl k' HI Hk'), Heq.
    by destruct (k' =? k).
Qed.

Lemma emplace_correct_witness :
  (∃ k s', emplace 16 10 7 (demo_at 4) = (Ok k, s') ∧ valid_key 16 k
    ∧ get 16 10 k (demo_at 4) = Ok None ∧ size s' = size (demo_at 4) + 1
    ∧ ∀ k', valid_key 16 k' →
        get 16 10 k' s' = if k' =? k then Ok (Some 7) else get 16 10 k' (demo_at 4))
  ∨ (emplace 16 10 7 (demo_at 4) = (Err TT_FATAL, demo_at 4) ∧ size (demo_at 4) = 2 ^ 10)
  ∨ (∃ s' i n, emplace 16 10 7 (demo_at 4) = (Err TT_ASSERT, s')
     ∧ slots (demo_at 4) !! i = Some (mk_slot (2 ^ VERSION_BITS 16 10) (inr n))).
Proof. apply (emplace_correct 16 10 (mk_widths 16 10 eq_refl eq_refl eq_refl) Z [3; 65; 1] demo_live), demo_run. Defined.

(** [remove] removes exactly the element its key denotes, and changes
    nothing when there is none. *)
Theorem remove_correct w ib (Hw : widths w ib) A ks live (s : SlotMap A) k :
  run w ib ks live s → valid_key w k →
  ∃ s', remove w ib k s = (Ok tt, s')
    ∧ (get w ib k s = Ok None → s' = s)
    ∧ (get w ib k s ≠ Ok None → size s' = size s - 1)
    ∧ ∀ k', valid_key w k' → get w ib k' s' = if k' =? k then Ok None else get w ib k' s.
Proof.
  intros ([fl HI] & _)%run_Inv Hk; [|done]. rewrite (get_spec w ib Hw s fl k HI Hk).
  destruct (run_remove w ib Hw s fl k HI Hk) as [(s' & fl' & Hr & HI' & Hl & Hrm)|[Hr Hl]].
  - exists s'. split_and!; [done|by destruct Hl as [a ->]|intros _; apply Hrm|].
    intros k' Hk'. rewrite (get_spec w ib Hw s' fl' k' HI' Hk'), (get_spec w ib Hw s fl k' HI Hk').
    rewrite (removed_lookup w ib Hw s k s' k' Hk Hk' Hl Hrm). by destruct (k' =? k).
  - exists s. split_and!; [done|done|by rewrite Hl|]. intros k' Hk'.
    destruct (Z.eqb_spec k' k) as [->|]; [|done]. by rewrite (get_spec w ib Hw s fl k HI Hk), Hl.
Qed.

Lemma remove_correct_witness :
  ∃ s', remove 16 10 65 (demo_at 4) = (Ok tt, s')
    ∧ (get 16 10 65 (demo_at 4) = Ok None → s' = demo_at 4)
    ∧ (get 16 10 65 (demo_at 4) ≠ Ok None → size s' = size (demo_at 4) - 1)
    ∧ ∀ k', valid_key 16 k' →
        get 16 10 k' s' = if k' =? 65 then Ok None else get 16 10 k' (demo_at 4).
Proof.
  apply (remove_correct 16 10 (mk_widths 16 10 eq_refl eq_refl eq_refl) Z [3; 65; 1] demo_live);
    [exact demo_run|by vm_compute].
Defined.

(** Iterating from [begin] to [end] visits every element once: the values
    are those of distinct keys, exactly the keys under which [get] finds an
    element, and [size] is their number. *)
Theorem iteration_correct w ib (Hw : widths w ib) A ks live (s : SlotMap A) :
  run w ib ks live s →
  ∃ es, values s = Ok es.*2 ∧ NoDup es.*1 ∧ size s = Z.of_nat (length es)
    ∧ ∀ k v, (k, v) ∈ es ↔ valid_key w k ∧ get w ib k s = Ok (Some v).
Proof.
  intros ([fl HI] & _)%run_Inv; [|done]. exists (entries w ib s).
  split_and!.
  - rewrite (values_spec w ib s fl HI). by rewrite entries_values.
  - apply (entries_from_NoDup w ib Hw 0), HI.
  - unfold size. by rewrite (iv_num _ _ _ _ HI), <- (entries_values w ib), length_fmap.
  - intros k v. rewrite (entries_lookup w ib Hw s fl k v HI). split; intros [Hk Hl]; split; try done.
    + by rewrite (get_spec w ib Hw s fl k HI Hk), Hl.
    + rewrite (get_spec w ib Hw s fl k HI Hk) in Hl. congruence.
Qed.

Lemma iteration_correct_witness :
  ∃ es, values (demo_at 4) = Ok es.*2 ∧ NoDup es.*1
    ∧ size (demo_at 4) = Z.of_nat (length es)
    ∧ ∀ k v, (k, v) ∈ es ↔ valid_key 16 k ∧ get 16 10 k (demo_at 4) = Ok (Some v).
Proof.
  apply (iteration_correct 16 10 (mk_widths 16 10 eq_refl eq_refl eq_refl) Z [3; 65; 1] demo_live).
  exact demo_run.
Defined.

(** After [clear] the versions start again: a key of the old generation names an
    element of the new one. *)
Example clear_reuses_keys :
  let s := (insert 16 10 7 (clear 16 (demo_at 2)).2).2 in
  (insert 16 10 42 (SlotMap_new 16)).1 = Ok 1 ∧ get 16 10 1 (demo_at 2) = Ok (Some 42)
  ∧ get 16 10 1 s = Ok (Some 7).
Proof. by vm_compute. Qed.
