(* ===== verification/WorkerConfigBuffer.v ===== *)
(** * The worker config ring buffer (tt_metal/impl/dispatch/worker_config_buffer.cpp)

    One ring of eight entries per core type, kept as the source keeps it: a
    vector per field, indexed by core type, and [entries_] indexed by slot and
    then by core type.  An index out of range is undefined behaviour, and so is
    reading [sync_count] before it is assigned, which is [None]. *)
From S2P Require Import Prelude.

Record ConfigBufferEntry := mk_entry { addr : Z; size : Z; sync_count : Z }.
Record ConfigBufferSync := mk_sync { need_sync : bool; sync_upto : option Z }.

Record WorkerConfigBufferMgr := mk_mgr {
  base_addrs_ : list Z;
  end_addrs_ : list Z;
  entries_ : list (list ConfigBufferEntry);
  alloc_index_ : list Z;
  free_index_ : list Z;
  reservation_ : list ConfigBufferEntry
}.

Definition kernel_config_entry_count : Z := 8.

Definition with_entries (e : list (list ConfigBufferEntry)) (s : WorkerConfigBufferMgr) :=
  mk_mgr (base_addrs_ s) (end_addrs_ s) e (alloc_index_ s) (free_index_ s) (reservation_ s).
Definition with_alloc (l : list Z) (s : WorkerConfigBufferMgr) :=
  mk_mgr (base_addrs_ s) (end_addrs_ s) (entries_ s) l (free_index_ s) (reservation_ s).
Definition with_free (l : list Z) (s : WorkerConfigBufferMgr) :=
  mk_mgr (base_addrs_ s) (end_addrs_ s) (entries_ s) (alloc_index_ s) l (reservation_ s).
Definition with_reservation (l : list ConfigBufferEntry) (s : WorkerConfigBufferMgr) :=
  mk_mgr (base_addrs_ s) (end_addrs_ s) (entries_ s) (alloc_index_ s) (free_index_ s) l.

(** [entries_[slot][idx]] *)
Definition entry_at (s : WorkerConfigBufferMgr) (slot : Z) (idx : nat) : outcome ConfigBufferEntry :=
  row ← at_ (entries_ s) (Z.to_nat slot); at_ row idx.
Definition set_entry (slot : Z) (idx : nat) (e : ConfigBufferEntry) (s : WorkerConfigBufferMgr)
  : WorkerConfigBufferMgr :=
  with_entries (alter (λ row, <[idx := e]> row) (Z.to_nat slot) (entries_ s)) s.

Definition WorkerConfigBufferMgr_new : WorkerConfigBufferMgr :=
  mk_mgr [] [] (replicate (Z.to_nat kernel_config_entry_count) []) [] [] [].

Definition init_add_core (base_addr size_ : Z) (s : WorkerConfigBufferMgr) : WorkerConfigBufferMgr :=
  mk_mgr (base_addrs_ s ++ [base_addr]) (end_addrs_ s ++ [u32 (base_addr + size_)])
    (imap (λ slot row, row ++ [mk_entry (if (slot =? 0)%nat then base_addr else 0) 0 0]) (entries_ s))
    (alloc_index_ s ++ [0]) (free_index_ s ++ [0]) (reservation_ s ++ [mk_entry 0 0 0]).

(** [index + 1], back to 0 at the end of the ring. *)
Definition next_slot (i : Z) : Z :=
  let j := u32 (i + 1) in if j =? kernel_config_entry_count then 0 else j.

(** [addr >= entries_[slot][idx].addr ? end_addrs_[idx] : entries_[slot][idx].addr] *)
Definition end_for (s : WorkerConfigBufferMgr) (a : Z) (slot : Z) (idx : nat) : outcome Z :=
  e ← entry_at s slot idx;
  limit ← at_ (end_addrs_ s) idx;
  Ok (if addr e <=? a then limit else addr e).

(** [while (!done)]: each retry moves the local [free_index] forward.  The result
    is the address of the reservation and the updated [sync_info]. *)
Fixpoint reserve_loop (fuel : nat) (s : WorkerConfigBufferMgr) (idx : nat)
    (size_ alloc_index free_index : Z) (sync : ConfigBufferSync)
  : outcome (Z * ConfigBufferSync) :=
  match fuel with
  | O => Err FUEL
  | S fuel =>
    head ← entry_at s alloc_index idx;
    let a := addr head in
    if size_ =? 0 then Ok (a, sync)
    else
      base ← at_ (base_addrs_ s) idx;
      limit ← at_ (end_addrs_ s) idx;
      _ ← check (size_ <=? u32 (limit - base)) TT_ASSERT;
      e0 ← end_for s a free_index idx;
      first ← entry_at s free_index idx;
      let '(a, e) := if (e0 <? u32 (a + size_)) && (e0 =? limit) then (base, addr first) else (a, e0) in
      let finish a need :=
        Ok (a, mk_sync need (Some (sync_count first))) in
      if e <? u32 (a + size_) then
        let next_free_index := next_slot free_index in
        if next_free_index =? alloc_index then finish base true
        else
          next_end ← end_for s a next_free_index idx;
          if next_end <? u32 (a + size_) then
            reserve_loop fuel s idx size_ alloc_index next_free_index sync
          else finish a true
      else if (u32 (alloc_index + 1) =? free_index)
              || ((u32 (alloc_index + 1) =? kernel_config_entry_count) && (free_index =? 0)) then
        finish a true
      else finish a (need_sync sync)
  end.

(** Enough retries to go round the ring. *)
Definition reserve_fuel : nat := S (Z.to_nat kernel_config_entry_count).

Definition reserve_core (sizes : list Z) (idx : nat) (sync : ConfigBufferSync)
  : ST WorkerConfigBufferMgr ConfigBufferSync :=
  s ← get_st;
  size_ ← lift_st (at_ sizes idx);
  free_index ← lift_st (at_ (free_index_ s) idx);
  alloc_index ← lift_st (at_ (alloc_index_ s) idx);
  old ← lift_st (at_ (reservation_ s) idx);
  _ ← put_st (with_reservation (<[idx := mk_entry (addr old) size_ (sync_count old)]> (reservation_ s)) s);
  '(a, sync) ← lift_st (reserve_loop reserve_fuel s idx size_ alloc_index free_index sync);
  _ ← put_st (with_reservation (<[idx := mk_entry a size_ (sync_count old)]> (reservation_ s)) s);
  mret sync.

(** [for (uint32_t idx = 0; idx < num_core_types; idx++)] *)
Fixpoint for_cores {A} (n : nat) (idx : nat) (body : nat → A → ST WorkerConfigBufferMgr A) (acc : A)
  : ST WorkerConfigBufferMgr A :=
  match n with
  | O => mret acc
  | S n => acc ← body idx acc; for_cores n (S idx) body acc
  end.

Definition reserve (sizes : list Z) : ST WorkerConfigBufferMgr ConfigBufferSync :=
  s ← get_st;
  _ ← check_st (length sizes =? length (reservation_ s))%nat TT_ASSERT;
  for_cores (length (reservation_ s)) 0 (reserve_core sizes) (mk_sync false None).

Definition free_core (free_up_to_sync_count : Z) (idx : nat) (_ : unit)
  : ST WorkerConfigBufferMgr unit :=
  s ← get_st;
  free_index ← lift_st (at_ (free_index_ s) idx);
  e ← lift_st (entry_at s free_index idx);
  if sync_count e <=? free_up_to_sync_count then
    alloc_index ← lift_st (at_ (alloc_index_ s) idx);
    if negb (free_index =? alloc_index) then
      put_st (with_free (<[idx := next_slot free_index]> (free_index_ s)) s)
    else mret tt
  else mret tt.

Definition free (free_up_to_sync_count : Z) : ST WorkerConfigBufferMgr unit :=
  s ← get_st;
  for_cores (length (reservation_ s)) 0 (free_core free_up_to_sync_count) tt.

Definition alloc_core (when_freeable_sync_count : Z) (idx : nat) (_ : unit)
  : ST WorkerConfigBufferMgr unit :=
  s ← get_st;
  old_alloc_index ← lift_st (at_ (alloc_index_ s) idx);
  _ ← lift_st (entry_at s old_alloc_index idx);
  r ← lift_st (at_ (reservation_ s) idx);
  _ ← modify_st (set_entry old_alloc_index idx (mk_entry (addr r) (size r) when_freeable_sync_count));
  let alloc_index := next_slot old_alloc_index in
  _ ← lift_st (entry_at s alloc_index idx);
  _ ← modify_st (set_entry alloc_index idx (mk_entry (u32 (addr r + size r)) 0 0xbabababa));
  modify_st (λ s, with_alloc (<[idx := alloc_index]> (alloc_index_ s)) s).

Definition alloc (when_freeable_sync_count : Z) : ST WorkerConfigBufferMgr unit :=
  s ← get_st;
  for_cores (length (reservation_ s)) 0 (alloc_core when_freeable_sync_count) tt.

(** The programmable core types, in the order of the hardware abstraction layer. *)
Inductive HalProgrammableCoreType := TENSIX | ACTIVE_ETH | IDLE_ETH.

Definition get_last_slot_addr (t : HalProgrammableCoreType) (s : WorkerConfigBufferMgr) : outcome Z :=
  match t with
  | IDLE_ETH => Err TT_ASSERT
  | TENSIX => r ← at_ (reservation_ s) 0; Ok (addr r)
  | ACTIVE_ETH => r ← at_ (reservation_ s) 1; Ok (addr r)
  end.

(** The use [EnqueueProgramCommand::process] makes of the manager
    (tt_metal/impl/dispatch/command_queue.cpp): reserve, free up to the sync
    count of the reservation, allocate until [sync_after]. *)
Definition enqueue_program (sizes : list Z) (sync_after : Z)
  : ST WorkerConfigBufferMgr ConfigBufferSync :=
  sync ← reserve sizes;
  upto ← lift_st (of_option UB (sync_upto sync));
  _ ← free upto;
  _ ← alloc sync_after;
  mret sync.
