(* ===== verification/WorkerConfigBufferProps.v ===== *)
(** * The worker config ring buffer, as programs are enqueued

    [enqueue_program] keeps at most one live entry per core type.  Under that
    use a reservation never overlaps the entry of the program before it, unless
    the caller is told to wait for that program.  The proofs run one loop over
    the core types at a time: [for_cores_spec] is the loop rule, [same_core] its
    frame. *)
From S2P Require Import Prelude WorkerConfigBuffer.

(** ** Slots *)
Lemma next_slot_range i : 0 <= i < 8 → 0 <= next_slot i < 8 ∧ next_slot i ≠ i.
Proof.
  intros. unfold next_slot, kernel_config_entry_count. rewrite u32_small by lia.
  destruct (Z.eqb_spec (i + 1) 8); lia.
Qed.

Lemma next_slot_spec i : 0 <= i < 8 → next_slot i = if i =? 7 then 0 else i + 1.
Proof.
  intros. unfold next_slot, kernel_config_entry_count. rewrite u32_small by lia.
  destruct (Z.eqb_spec (i + 1) 8), (Z.eqb_spec i 7); lia.
Qed.

(** All slots of a core type exist. *)
Definition full (s : WorkerConfigBufferMgr) (i : nat) : Prop :=
  ∀ slot, 0 <= slot < 8 → ∃ e, entry_at s slot i = Ok e.

Record same_core (i : nat) (s s' : WorkerConfigBufferMgr) : Prop := mk_same_core {
  sc_base : base_addrs_ s' !! i = base_addrs_ s !! i;
  sc_end : end_addrs_ s' !! i = end_addrs_ s !! i;
  sc_entry : ∀ slot, entry_at s' slot i = entry_at s slot i;
  sc_alloc : alloc_index_ s' !! i = alloc_index_ s !! i;
  sc_free : free_index_ s' !! i = free_index_ s !! i;
  sc_rsv : reservation_ s' !! i = reservation_ s !! i;
  sc_len : length (reservation_ s') = length (reservation_ s)
}.

#[export] Instance same_core_preorder i : PreOrder (same_core i).
Proof.
  split; [done|]. intros s1 s2 s3 [] []. split; congruence.
Qed.

Lemma entry_at_set s slot slot' i j e e0 :
  0 <= slot → 0 <= slot' → entry_at s slot i = Ok e0 →
  entry_at (set_entry slot i e s) slot' j
  = if (slot =? slot') && (i =? j)%nat then Ok e else entry_at s slot' j.
Proof.
  unfold entry_at, set_entry, at_. simpl. intros Hs Hs' He.
  destruct (entries_ s !! Z.to_nat slot) as [row|] eqn:Hrow; [|done]. simpl in He.
  destruct (Z.eqb_spec slot slot') as [->|Hne]; simpl.
  - rewrite list_lookup_alter_eq, Hrow. simpl.
    destruct (Nat.eqb_spec i j) as [->|Hij].
    + destruct (row !! j) eqn:Hj; [|done].
      by rewrite list_lookup_insert_eq by (by eapply lookup_lt_Some).
    + by rewrite list_lookup_insert_ne.
  - by rewrite list_lookup_alter_ne by lia.
Qed.

Lemma entry_at_set_other s slot slot' i j e :
  i ≠ j → entry_at (set_entry slot i e s) slot' j = entry_at s slot' j.
Proof.
  intros Hij. unfold entry_at, set_entry, at_. simpl.
  destruct (decide (Z.to_nat slot = Z.to_nat slot')) as [->|Hne].
  - rewrite list_lookup_alter_eq. destruct (entries_ s !! _) as [row|]; [|done]. simpl.
    by rewrite list_lookup_insert_ne.
  - by rewrite list_lookup_alter_ne.
Qed.

(** ** The loop over the core types *)
Section for_cores.
Context {A : Type} (R : A → A → Prop) `{!PreOrder R}.
Context (pre : nat → WorkerConfigBufferMgr → Prop).
Context (post : nat → A → WorkerConfigBufferMgr → Prop).
Context (pre_frame : ∀ i s s', same_core i s s' → pre i s → pre i s').
Context (post_frame : ∀ i a a' s s', same_core i s s' → R a a' → post i a s → post i a' s').

Lemma for_cores_spec n idx body acc s :
  (∀ i a s, (idx ≤ i < idx + n)%nat → pre i s →
     ∃ a' s', body i a s = (Ok a', s') ∧ post i a' s' ∧ R a a'
       ∧ (∀ j, j ≠ i → same_core j s s')) →
  (∀ i, (idx ≤ i < idx + n)%nat → pre i s) → (∀ i, (i < idx)%nat → post i acc s) →
  ∃ acc' s', for_cores n idx body acc s = (Ok acc', s') ∧ R acc acc'
    ∧ (∀ i, (i < idx + n)%nat → post i acc' s')
    ∧ (∀ j, (idx + n ≤ j)%nat → same_core j s s').
Proof.
  revert idx acc s; induction n as [|n IH]; intros idx acc s Hbody Hpre Hpost.
  { exists acc, s. split_and!; [done|done|intros i Hi; apply Hpost; lia|done]. }
  destruct (Hbody idx acc s) as (a1 & s1 & Hrun & Hp1 & HR1 & Hsame); [lia|apply Hpre; lia|].
  cbn [for_cores]. st_step Hrun.
  destruct (IH (S idx) a1 s1) as (a2 & s2 & Hrun2 & HR2 & Hpost2 & Hsame2).
  - intros i a s0 Hi. apply Hbody. lia.
  - intros i Hi. apply (pre_frame _ s); [apply Hsame; lia|apply Hpre; lia].
  - intros i Hi. destruct (decide (i = idx)) as [->|]; [done|].
    apply (post_frame _ acc _ s); [by apply Hsame|done|apply Hpost; lia].
  - exists a2, s2. split_and!; [done|by etrans| |].
    + intros i Hi. apply Hpost2. lia.
    + intros j Hj. etrans; [apply Hsame; lia|apply Hsame2; lia].
Qed.
End for_cores.

(** ** One core type *)
(** The part of the state of core type [i] the operations use.  [st] is [None]
    before the first program and [Some c] when the entry of the last program,
    freeable at sync count [c], is the only live one. *)
Record core_ok (st : option Z) (base limit : Z) (i : nat) (s : WorkerConfigBufferMgr) : Prop :=
  mk_core_ok {
  co_base : base_addrs_ s !! i = Some base;
  co_end : end_addrs_ s !! i = Some limit;
  co_full : full s i;
  co_bound : 0 <= base ∧ base <= limit ∧ limit + (limit - base) < 4294967296;
  co_slots : ∃ ai fi h f r, alloc_index_ s !! i = Some ai ∧ free_index_ s !! i = Some fi
    ∧ 0 <= ai < 8 ∧ 0 <= fi < 8 ∧ entry_at s ai i = Ok h ∧ entry_at s fi i = Ok f
    ∧ reservation_ s !! i = Some r
    ∧ match st with
      | None => fi = ai ∧ addr h = base ∧ sync_count h = 0
      | Some c => ai = next_slot fi ∧ sync_count f = c ∧ addr h = addr f + size f
                  ∧ base <= addr f ∧ 0 <= size f ∧ addr f + size f <= limit
                  ∧ addr r = addr f ∧ size r = size f
      end
}.

Lemma core_ok_frame st base limit i s s' :
  same_core i s s' → core_ok st base limit i s → core_ok st base limit i s'.
Proof.
  intros [Hb He Hen Ha Hf Hr _] [H1 H2 H3 H4 H5]. split.
  - by rewrite Hb.
  - by rewrite He.
  - intros slot Hs. rewrite Hen. by apply H3.
  - done.
  - destruct H5 as (ai & fi & h & f & r & ? & ? & ? & ? & ? & ? & ? & ?).
    exists ai, fi, h, f, r. rewrite !Hen, Ha, Hf, Hr. repeat (split; [done|]). done.
Qed.

(** Two byte ranges with no byte in common. *)
Definition disjoint_ranges (a n b m : Z) : Prop := n = 0 ∨ m = 0 ∨ a + n <= b ∨ b + m <= a.

(** The sync count [reserve] asks for. *)
Definition sync_of (st : option Z) : Z := match st with None => 0 | Some c => c end.

(** What [reserve] computes for one core type. *)
Lemma reserve_loop_ok fuel st base limit i s ai fi size_ sync :
  core_ok st base limit i s →
  alloc_index_ s !! i = Some ai → free_index_ s !! i = Some fi →
  0 <= size_ <= limit - base →
  ∃ a sync', reserve_loop (S fuel) s i size_ ai fi sync = Ok (a, sync')
    ∧ base <= a ∧ a + size_ <= limit
    ∧ (need_sync sync = true → need_sync sync' = true)
    ∧ sync_upto sync' = (if size_ =? 0 then sync_upto sync else Some (sync_of st))
    ∧ (need_sync sync' = false → ∀ r c, st = Some c → reservation_ s !! i = Some r →
       disjoint_ranges a size_ (addr r) (size r)).
Proof.
  intros [Hbase Hlimit Hfull Hbound (ai' & fi' & h & f & r & Hai & Hfi & Har & Hfr & Hh & Hf & Hr & Hst)].
  rewrite Hai, Hfi. intros [= ->] [= ->] Hsize.
  cbn [reserve_loop]. rewrite Hh. cbn [mbind outcome_bind].
  assert (Hh' : base <= addr h <= limit) by (destruct st; lia).
  destruct (Z.eqb_spec size_ 0) as [->|Hne].
  { exists (addr h), sync. split_and!; [done|lia|lia|done|done|]. intros _ r' c _ _. by left. }
  unfold end_for, at_. rewrite Hbase, Hlimit, Hf. cbn [mbind outcome_bind of_option].
  rewrite (u32_small (limit - base)) by lia.
  destruct (Z.leb_spec size_ (limit - base)) as [Hfit|]; [|lia]. cbn [check].
  rewrite !(u32_small (addr h + size_)) by lia.
  destruct (next_slot_range fi Hfr) as [Hns Hnne].
  assert (Hnext : u32 (ai + 1) = ai + 1) by (apply u32_small; lia). rewrite Hnext.
  pose proof (next_slot_spec fi Hfr) as Hnspec.
  destruct st as [c|].
  - destruct Hst as (-> & Hc & Hhd & Hlo & Hs & Hhi & Hra & Hrs).
    destruct (Z.leb_spec (addr f) (addr h)); [|lia].
    assert (Hnofull : (next_slot fi + 1 =? fi)
        || ((next_slot fi + 1 =? kernel_config_entry_count) && (fi =? 0)) = false).
    { unfold kernel_config_entry_count. rewrite Hnspec. destruct (Z.eqb_spec fi 7) as [->|]; [done|].
      apply orb_false_iff. rewrite andb_false_iff, !Z.eqb_neq. lia. }
    rewrite Hnofull, Z.eqb_refl, andb_true_r.
    destruct (Z.ltb_spec limit (addr h + size_)); cbv beta iota.
    + rewrite !(u32_small (base + size_)) by lia.
      destruct (Z.ltb_spec (addr f) (base + size_)); rewrite ?Z.eqb_refl; eexists _, _;
        (split; [reflexivity|]); simpl; split_and!; try lia; try done; try congruence.
      * intros _ r' c' _ Hr'. rewrite Hr in Hr'. injection Hr' as <-. unfold disjoint_ranges. lia.
    + rewrite !(u32_small (addr h + size_)) by lia.
      destruct (Z.ltb_spec limit (addr h + size_)); [lia|]. eexists _, _.
      (split; [reflexivity|]); simpl; split_and!; try lia; try done; try congruence.
      * intros _ r' c' _ Hr'. rewrite Hr in Hr'. injection Hr' as <-. unfold disjoint_ranges. lia.
  - destruct Hst as (-> & Hhd & Hc). assert (f = h) as -> by congruence. rewrite Z.leb_refl.
    rewrite Hhd. destruct (Z.ltb_spec limit (base + size_)); [lia|]. cbn [andb]. cbv iota.
    rewrite !(u32_small (base + size_)) by lia.
    destruct (Z.ltb_spec limit (base + size_)); [lia|].
    destruct ((ai + 1 =? ai) || _); eexists _, _; (split; [reflexivity|]); simpl;
      split_and!; try lia; try done; by rewrite ?Hc.
Qed.

(** ** The three phases of an enqueue *)
(** After [reserve]: the ring is as before and the reservation [r] is set. *)
Record reserved (st : option Z) (base limit : Z) (r : ConfigBufferEntry) (i : nat)
    (s : WorkerConfigBufferMgr) : Prop := mk_reserved {
  rs_base : base_addrs_ s !! i = Some base;
  rs_end : end_addrs_ s !! i = Some limit;
  rs_full : full s i;
  rs_bound : 0 <= base ∧ base <= limit ∧ limit + (limit - base) < 4294967296;
  rs_slots : ∃ ai fi f, alloc_index_ s !! i = Some ai ∧ free_index_ s !! i = Some fi
    ∧ 0 <= ai < 8 ∧ 0 <= fi < 8 ∧ entry_at s fi i = Ok f ∧ sync_count f = sync_of st
    ∧ ai = match st with None => fi | Some _ => next_slot fi end;
  rs_rsv : reservation_ s !! i = Some r;
  rs_fits : base <= addr r ∧ 0 <= size r ∧ addr r + size r <= limit
}.

(** After [free]: the ring is empty. *)
Record freed (base limit : Z) (r : ConfigBufferEntry) (i : nat) (s : WorkerConfigBufferMgr) : Prop :=
  mk_freed {
  fd_base : base_addrs_ s !! i = Some base;
  fd_end : end_addrs_ s !! i = Some limit;
  fd_full : full s i;
  fd_bound : 0 <= base ∧ base <= limit ∧ limit + (limit - base) < 4294967296;
  fd_slots : ∃ ai, alloc_index_ s !! i = Some ai ∧ free_index_ s !! i = Some ai ∧ 0 <= ai < 8;
  fd_rsv : reservation_ s !! i = Some r;
  fd_fits : base <= addr r ∧ 0 <= size r ∧ addr r + size r <= limit
}.

Lemma full_frame i s s' : same_core i s s' → full s i → full s' i.
Proof. intros [] H slot ?. setoid_rewrite sc_entry0. by apply H. Qed.

Lemma reserved_frame st b l r i s s' : same_core i s s' → reserved st b l r i s → reserved st b l r i s'.
Proof.
  intros Hsame [? ? Hf ? (ai & fi & f & Ha & Hfi & Har & Hfr & He & Hc & Hai) ? ?].
  pose proof (full_frame _ _ _ Hsame Hf). destruct Hsame as [Hb Hl Hen Hal Hfr' Hr _].
  split; try congruence; try done. exists ai, fi, f. rewrite Hen, Hal, Hfr'.
  repeat (split; [done|]). done.
Qed.

Lemma freed_frame b l r i s s' : same_core i s s' → freed b l r i s → freed b l r i s'.
Proof.
  intros Hsame [? ? Hf ? (ai & Ha & Hfi & Har) ? ?].
  pose proof (full_frame _ _ _ Hsame Hf). destruct Hsame as [Hb Hl Hen Hal Hfr' Hr _].
  split; try congruence; try done. exists ai. by rewrite Hal, Hfr'.
Qed.


Lemma run_reserve_core st base limit i s sizes size_ sync :
  core_ok st base limit i s → sizes !! i = Some size_ → 0 <= size_ <= limit - base →
  ∃ sync' s' r, reserve_core sizes i sync s = (Ok sync', s')
    ∧ reserved st base limit r i s' ∧ size r = size_
    ∧ (need_sync sync = true → need_sync sync' = true)
    ∧ sync_upto sync' = (if size_ =? 0 then sync_upto sync else Some (sync_of st))
    ∧ (need_sync sync' = false → ∀ r' c, st = Some c → reservation_ s !! i = Some r' →
       disjoint_ranges (addr r) (size r) (addr r') (size r'))
    ∧ (∀ j, j ≠ i → same_core j s s').
Proof.
  intros Hok Hsz Hrange. pose proof Hok as [Hbase Hlimit Hfull Hbound
    (ai & fi & h & f & old & Hai & Hfi & Har & Hfr & Hh & Hf & Hr & Hst)].
  destruct (reserve_loop_ok (Z.to_nat kernel_config_entry_count) st base limit i s ai fi size_ sync
    Hok Hai Hfi Hrange) as (a & sync' & Hrun & Hlo & Hhi & Hneed & Hupto & Hdisj).
  unfold reserve_core. rewrite run_get.
  rewrite (run_lift _ _ _ _ (at_some _ _ _ Hsz)), (run_lift _ _ _ _ (at_some _ _ _ Hfi)),
    (run_lift _ _ _ _ (at_some _ _ _ Hai)), (run_lift _ _ _ _ (at_some _ _ _ Hr)).
  rewrite run_put. unfold reserve_fuel. rewrite (run_lift _ _ _ _ Hrun). cbv beta iota.
  rewrite run_put.
  pose proof (lookup_lt_Some _ _ _ Hr).
  eexists sync', _, (mk_entry a size_ (sync_count old)). split; [reflexivity|].
  split_and!; try done.
  - split; simpl; try done.
    + exists ai, fi, f. repeat (split; [done|]). destruct st as [c|].
      * destruct Hst as (-> & Hc & _). done.
      * destruct Hst as (-> & Hhd & Hc). simpl. split; [congruence|done].
    + by rewrite list_lookup_insert_eq.
    + lia.
  - intros j Hj. split; simpl; try done; [by rewrite list_lookup_insert_ne|by rewrite length_insert].
Qed.

Lemma run_free_core st base limit r i s upto u :
  reserved st base limit r i s → upto = sync_of st →
  ∃ s', free_core upto i u s = (Ok tt, s') ∧ freed base limit r i s'
    ∧ (∀ j, j ≠ i → same_core j s s').
Proof.
  intros [Hb Hl Hfull Hbd (ai & fi & f & Hai & Hfi & Har & Hfr & Hf & Hc & Heq) Hr Hfit] ->.
  unfold free_core. rewrite run_get, (run_lift _ _ _ _ (at_some _ _ _ Hfi)), (run_lift _ _ _ _ Hf).
  rewrite Hc, Z.leb_refl, (run_lift _ _ _ _ (at_some _ _ _ Hai)).
  destruct (next_slot_range fi Hfr) as [Hns Hne]. pose proof (lookup_lt_Some _ _ _ Hfi).
  destruct st as [c|]; subst ai.
  - destruct (Z.eqb_spec fi (next_slot fi)); [congruence|]. simpl. eexists. split; [reflexivity|].
    split; [split; simpl; try done|].
    + exists (next_slot fi). by rewrite list_lookup_insert_eq.
    + intros j Hj. split; simpl; try done. by rewrite list_lookup_insert_ne.
  - rewrite Z.eqb_refl. simpl. exists s. split; [done|]. split; [|done]. split; try done. by exists fi.
Qed.

Lemma run_alloc_core base limit r i s c u :
  freed base limit r i s →
  ∃ s', alloc_core c i u s = (Ok tt, s') ∧ core_ok (Some c) base limit i s'
    ∧ reservation_ s' = reservation_ s ∧ (∀ j, j ≠ i → same_core j s s').
Proof.
  intros [Hb Hl Hfull Hbd (ai & Hai & Hfi & Har) Hr Hfit].
  destruct (Hfull ai Har) as [e He]. destruct (next_slot_range ai Har) as [Hns Hne].
  destruct (Hfull (next_slot ai) Hns) as [e' He'].
  unfold alloc_core. rewrite run_get, (run_lift _ _ _ _ (at_some _ _ _ Hai)), (run_lift _ _ _ _ He),
    (run_lift _ _ _ _ (at_some _ _ _ Hr)), run_modify_st.
  cbv zeta. rewrite (run_lift _ _ _ _ He'), run_modify_st.
  set (s1 := set_entry ai i (mk_entry (addr r) (size r) c) s).
  assert (He1 : entry_at s1 (next_slot ai) i = Ok e').
  { unfold s1. rewrite (entry_at_set s ai (next_slot ai) i i _ e); [|lia..|done].
    destruct (Z.eqb_spec ai (next_slot ai)); [congruence|done]. }
  eexists. split; [reflexivity|]. simpl. pose proof (lookup_lt_Some _ _ _ Hai).
  set (s2 := set_entry (next_slot ai) i (mk_entry (u32 (addr r + size r)) 0 0xbabababa) s1).
  assert (Hent : ∀ slot j, 0 <= slot → entry_at s2 slot j
    = if (next_slot ai =? slot) && (i =? j)%nat then Ok (mk_entry (u32 (addr r + size r)) 0 0xbabababa)
      else if (ai =? slot) && (i =? j)%nat then Ok (mk_entry (addr r) (size r) c)
      else entry_at s slot j).
  { intros slot j Hslot. unfold s2. rewrite (entry_at_set s1 _ _ _ _ _ e') by (lia || done).
    destruct ((next_slot ai =? slot) && (i =? j)%nat); [done|]. unfold s1.
    by rewrite (entry_at_set s _ _ _ _ _ e) by (lia || done). }
  assert (Hnn : ∀ slot j, entry_at (with_alloc (<[i := next_slot ai]> (alloc_index_ s2)) s2) slot j
                        = entry_at s2 slot j) by done.
  split; [split; simpl; try done|split; [done|]].
  - intros slot Hslot. rewrite Hnn, Hent by lia. repeat case_match; eauto.
  - exists (next_slot ai), ai, (mk_entry (u32 (addr r + size r)) 0 0xbabababa),
      (mk_entry (addr r) (size r) c), r. rewrite !Hnn, !Hent by lia.
    rewrite list_lookup_insert_eq by done. rewrite !Z.eqb_refl, Nat.eqb_refl. simpl.
    destruct (Z.eqb_spec (next_slot ai) ai); [congruence|]. rewrite u32_small by lia.
    split_and!; try done; lia.
  - intros j Hj. split; simpl; try done; [|by rewrite list_lookup_insert_ne].
    intros slot. rewrite Hnn. unfold s2, s1. by rewrite !entry_at_set_other by done.
Qed.

(** ** A whole enqueue *)
Definition ready (st : option Z) (cfg : list (Z * Z)) (s : WorkerConfigBufferMgr) : Prop :=
  length (reservation_ s) = length cfg
  ∧ ∀ i b l, cfg !! i = Some (b, l) → core_ok st b l i s.

Section enqueue.
Context (st : option Z) (cfg : list (Z * Z)) (sizes : list Z).
Context (Hlen : length sizes = length cfg).
Context (Hfits : ∀ i b l sz, cfg !! i = Some (b, l) → sizes !! i = Some sz → 0 <= sz <= l - b).

(** What is promised of the new reservation of core type [i]. *)
Definition placed (s0 : WorkerConfigBufferMgr) (sync : ConfigBufferSync) (i : nat)
    (b l : Z) (r : ConfigBufferEntry) : Prop :=
  sizes !! i = Some (size r)
  ∧ (size r ≠ 0 → sync_upto sync = Some (sync_of st))
  ∧ (need_sync sync = false → ∀ r' c, st = Some c → reservation_ s0 !! i = Some r' →
     disjoint_ranges (addr r) (size r) (addr r') (size r')).

Definition sync_mono (a a' : ConfigBufferSync) : Prop :=
  (need_sync a = true → need_sync a' = true)
  ∧ (sync_upto a = Some (sync_of st) → sync_upto a' = Some (sync_of st)).

#[local] Instance sync_mono_preorder : PreOrder sync_mono.
Proof. split; unfold sync_mono; [done|]. intros ???; naive_solver. Qed.

Lemma reserve_phase s :
  ready st cfg s →
  ∃ sync s', reserve sizes s = (Ok sync, s') ∧ length (reservation_ s') = length cfg
    ∧ ∀ i b l, cfg !! i = Some (b, l) → ∃ r, reserved st b l r i s' ∧ placed s sync i b l r.
Proof.
  intros [Hrl Hcores]. unfold reserve. rewrite run_get, run_check by (rewrite Hlen, Hrl; by apply Nat.eqb_eq).
  set (pre i s1 := ∃ b l, cfg !! i = Some (b, l) ∧ core_ok st b l i s1
    ∧ reservation_ s1 !! i = reservation_ s !! i).
  set (post i acc s1 := ∃ b l, cfg !! i = Some (b, l) ∧ ∃ r, reserved st b l r i s1 ∧ placed s acc i b l r).
  destruct (for_cores_spec sync_mono pre post) with (n := length (reservation_ s)) (idx := 0%nat)
    (body := reserve_core sizes) (acc := mk_sync false None) (s := s)
    as (sync & s' & Hrun & _ & Hpost & Hframe).
  - intros i s1 s2 Hsame (b & l & Hc & Hok & Hr). exists b, l.
    split_and!; [done|by eapply core_ok_frame|]. by rewrite (sc_rsv _ _ _ Hsame).
  - intros i a a' s1 s2 Hsame [Hm1 Hm2] (b & l & Hc & r & Hres & Hsz & Hup & Hd). exists b, l.
    split; [done|]. exists r. split; [by eapply reserved_frame|]. split_and!; [done|auto|].
    intros Hneed. apply Hd. destruct (need_sync a); [by rewrite Hm1 in Hneed|done].
  - intros i a s1 Hi (b & l & Hc & Hok & Hr).
    destruct (lookup_lt_is_Some_2 sizes i) as [sz Hsz]; [rewrite Hlen, <- Hrl; lia|].
    destruct (run_reserve_core st b l i s1 sizes sz a Hok Hsz (Hfits _ _ _ _ Hc Hsz))
      as (a' & s2 & r & Hrun & Hres & Hrsz & Hneed & Hup & Hd & Hframe).
    exists a', s2. split_and!; [done| | |done].
    + exists b, l. split; [done|]. exists r. split; [done|]. rewrite <- Hrsz in *.
      split_and!; [done| |].
      * intros Hz. rewrite Hup. by apply Z.eqb_neq in Hz as ->.
      * by rewrite <- Hr.
    + split; [done|]. rewrite Hup. by destruct (sz =? 0).
  - intros i Hi. destruct (lookup_lt_is_Some_2 cfg i) as [[b l] Hc]; [lia|].
    exists b, l. split_and!; auto.
  - intros i Hi. lia.
  - exists sync, s'. split; [done|]. split.
    + rewrite (sc_len _ _ _ (Hframe (length (reservation_ s)) ltac:(lia))). done.
    + intros i b l Hc. pose proof (lookup_lt_Some _ _ _ Hc).
      destruct (Hpost i) as (b' & l' & Hc' & ?); [lia|]. simplify_eq. done.
Qed.
End enqueue.

#[export] Instance trivial_preorder A : PreOrder (λ _ _ : A, True).
Proof. by split; repeat intros ?. Qed.

Lemma free_phase st cfg (rs : list ConfigBufferEntry) s :
  length (reservation_ s) = length cfg →
  (∀ i b l, cfg !! i = Some (b, l) → ∃ r, rs !! i = Some r ∧ reserved st b l r i s) →
  ∃ s', free (sync_of st) s = (Ok tt, s') ∧ length (reservation_ s') = length cfg
    ∧ ∀ i b l, cfg !! i = Some (b, l) → ∃ r, rs !! i = Some r ∧ freed b l r i s'.
Proof.
  intros Hrl Hcores. unfold free. rewrite run_get.
  set (pre i s1 := ∃ b l r, cfg !! i = Some (b, l) ∧ rs !! i = Some r ∧ reserved st b l r i s1).
  set (post i (_ : unit) s1 := ∃ b l r, cfg !! i = Some (b, l) ∧ rs !! i = Some r ∧ freed b l r i s1).
  destruct (for_cores_spec (λ _ _ : unit, True) pre post) with (n := length (reservation_ s)) (idx := 0%nat)
    (body := free_core (sync_of st)) (acc := tt) (s := s) as ([] & s' & Hrun & _ & Hpost & Hframe).
  - intros i s1 s2 Hsame (b & l & r & ? & ? & ?). exists b, l, r. split_and!; try done. by eapply reserved_frame.
  - intros i a a' s1 s2 Hsame _ (b & l & r & ? & ? & ?). exists b, l, r. split_and!; try done. by eapply freed_frame.
  - intros i u s1 _ (b & l & r & ? & ? & Hres).
    destruct (run_free_core st b l r i s1 _ u Hres eq_refl) as (s2 & Hrun & Hfd & Hframe).
    exists tt, s2. split_and!; [done| |done|done]. by exists b, l, r.
  - intros i Hi. destruct (lookup_lt_is_Some_2 cfg i) as [[b l] Hc]; [lia|].
    destruct (Hcores i b l Hc) as (r & ? & ?). by exists b, l, r.
  - intros i Hi. lia.
  - exists s'. split; [done|]. split.
    + rewrite (sc_len _ _ _ (Hframe (length (reservation_ s)) ltac:(lia))). done.
    + intros i b l Hc. pose proof (lookup_lt_Some _ _ _ Hc).
      destruct (Hpost i) as (b' & l' & r & Hc' & ? & ?); [lia|]. simplify_eq. by exists r.
Qed.

Lemma alloc_phase cfg (rs : list ConfigBufferEntry) c s :
  length (reservation_ s) = length cfg →
  (∀ i b l, cfg !! i = Some (b, l) → ∃ r, rs !! i = Some r ∧ freed b l r i s) →
  ∃ s', alloc c s = (Ok tt, s') ∧ ready (Some c) cfg s'
    ∧ ∀ i b l, cfg !! i = Some (b, l) → reservation_ s' !! i = rs !! i.
Proof.
  intros Hrl Hcores. unfold alloc. rewrite run_get.
  set (pre i s1 := ∃ b l r, cfg !! i = Some (b, l) ∧ rs !! i = Some r ∧ freed b l r i s1).
  set (post i (_ : unit) s1 := ∃ b l, cfg !! i = Some (b, l) ∧ core_ok (Some c) b l i s1
    ∧ reservation_ s1 !! i = rs !! i).
  destruct (for_cores_spec (λ _ _ : unit, True) pre post) with (n := length (reservation_ s)) (idx := 0%nat)
    (body := alloc_core c) (acc := tt) (s := s) as ([] & s' & Hrun & _ & Hpost & Hframe).
  - intros i s1 s2 Hsame (b & l & r & ? & ? & ?). exists b, l, r. split_and!; try done. by eapply freed_frame.
  - intros i a a' s1 s2 Hsame _ (b & l & ? & ? & Hr). exists b, l.
    split_and!; [done|by eapply core_ok_frame|]. by rewrite (sc_rsv _ _ _ Hsame).
  - intros i u s1 _ (b & l & r & ? & Hr & Hfd).
    destruct (run_alloc_core b l r i s1 c u Hfd) as (s2 & Hrun & Hok & Hrsv & Hframe).
    exists tt, s2. split_and!; [done| |done|done]. exists b, l. split_and!; [done|done|].
    rewrite Hrsv, Hr. apply Hfd.
  - intros i Hi. destruct (lookup_lt_is_Some_2 cfg i) as [[b l] Hc]; [lia|].
    destruct (Hcores i b l Hc) as (r & ? & ?). by exists b, l, r.
  - intros i Hi. lia.
  - exists s'. split; [done|]. split; [split|].
    + rewrite (sc_len _ _ _ (Hframe (length (reservation_ s)) ltac:(lia))). done.
    + intros i b l Hc. pose proof (lookup_lt_Some _ _ _ Hc).
      destruct (Hpost i) as (b' & l' & Hc' & ? & ?); [lia|]. simplify_eq. done.
    + intros i b l Hc. pose proof (lookup_lt_Some _ _ _ Hc).
      destruct (Hpost i) as (b' & l' & Hc' & ? & ?); [lia|]. done.
Qed.

(** ** Configuration *)
Definition configure (cores : list (Z * Z)) : WorkerConfigBufferMgr :=
  foldl (λ s c, init_add_core c.1 c.2 s) WorkerConfigBufferMgr_new cores.

(** Buffers that fit the address space twice over, so that [addr + size] cannot wrap. *)
Definition valid_core (c : Z * Z) : Prop :=
  0 <= c.1 ∧ 0 <= c.2 ∧ c.1 + c.2 + c.2 < 2 ^ 32.

Definition limits (cores : list (Z * Z)) : list (Z * Z) := (λ c, (c.1, c.1 + c.2)) <$> cores.

Record shape (n : nat) (s : WorkerConfigBufferMgr) : Prop := mk_shape {
  sh_base : length (base_addrs_ s) = n;
  sh_end : length (end_addrs_ s) = n;
  sh_alloc : length (alloc_index_ s) = n;
  sh_free : length (free_index_ s) = n;
  sh_rsv : length (reservation_ s) = n;
  sh_ring : length (entries_ s) = 8%nat;
  sh_rows : Forall (λ row, length row = n) (entries_ s)
}.

Lemma entry_at_init n s b z slot i :
  shape n s → 0 <= slot < 8 → (i ≤ n)%nat →
  entry_at (init_add_core b z s) slot i
  = if (i =? n)%nat then Ok (mk_entry (if slot =? 0 then b else 0) 0 0) else entry_at s slot i.
Proof.
  intros [_ _ _ _ _ Hring Hrows] Hslot Hi. unfold entry_at, at_, init_add_core. simpl.
  rewrite list_lookup_imap.
  destruct (lookup_lt_is_Some_2 (entries_ s) (Z.to_nat slot)) as [row Hrow]; [lia|].
  rewrite Hrow. simpl. rewrite Forall_lookup in Hrows. specialize (Hrows _ _ Hrow). simpl in Hrows.
  replace (Z.to_nat slot =? 0)%nat with (slot =? 0)
    by (apply eq_true_iff_eq; rewrite Z.eqb_eq, Nat.eqb_eq; lia).
  destruct (Nat.eqb_spec i n) as [->|Hne].
  - by rewrite <- Hrows, list_lookup_middle.
  - by rewrite lookup_app_l by lia.
Qed.

Lemma shape_init n s b z : shape n s → shape (S n) (init_add_core b z s).
Proof.
  intros [Hb He Ha Hf Hr Hring Hrows].
  split; simpl; rewrite ?length_app, ?length_imap; simpl; try lia.
  rewrite Forall_lookup in Hrows |- *. intros k row Hrow.
  rewrite list_lookup_imap in Hrow. destruct (entries_ s !! k) as [row0|] eqn:Hk; [|done].
  injection Hrow as <-. rewrite length_app, (Hrows _ _ Hk). simpl. lia.
Qed.

Lemma configure_ready cores :
  Forall valid_core cores →
  shape (length cores) (configure cores) ∧ ready None (limits cores) (configure cores).
Proof.
  unfold configure, limits. induction cores as [|c cores IH] using rev_ind; intros Hv.
  { split; [split; try done; by repeat constructor|]. split; [done|]. intros i b l Hc. done. }
  apply Forall_app in Hv as [Hv [(Hc0 & Hc1 & Hc2) _]%Forall_cons].
  change (2 ^ 32) with 4294967296 in Hc2.
  destruct (IH Hv) as [Hsh [Hl Hcores]]. rewrite foldl_app, length_app. simpl.
  rewrite Nat.add_1_r. set (s := foldl _ _ cores) in *.
  pose proof Hsh as [Hb He Ha Hf Hr _ _].
  split; [by apply shape_init|]. split; [simpl; rewrite length_app, fmap_app, length_app, Hl; done|].
  intros i b l Hi. rewrite fmap_app, lookup_app in Hi.
  destruct (((λ c, (c.1, c.1 + c.2)) <$> cores) !! i) as [[b' l']|] eqn:Hold.
  - injection Hi as -> ->. pose proof (lookup_lt_Some _ _ _ Hold) as Hlt. rewrite length_fmap in Hlt.
    destruct (Hcores i b l Hold) as [? ? Hfull ?
      (ai & fi & h & f & r & ? & ? & ? & ? & ? & ? & ? & ?)].
    assert (Hent : ∀ slot, 0 <= slot < 8 → entry_at (init_add_core c.1 c.2 s) slot i = entry_at s slot i).
    { intros slot Hslot. rewrite (entry_at_init (length cores)) by (done || lia).
      by destruct (Nat.eqb_spec i (length cores)); [lia|]. }
    split; simpl; try done; try (by apply lookup_app_l_Some).
    + intros slot Hslot. rewrite Hent by done. by apply Hfull.
    + exists ai, fi, h, f, r. rewrite !Hent by done.
      repeat (split; [by first [done|apply lookup_app_l_Some]|]). done.
  - rewrite length_fmap in Hi.
    apply lookup_ge_None in Hold. rewrite length_fmap in Hold.
    destruct (i - length cores)%nat as [|k] eqn:Hk; simpl in Hi; [|done].
    injection Hi as <- <-. assert (i = length cores) as -> by lia.
    assert (Hent : ∀ slot, 0 <= slot < 8 → entry_at (init_add_core c.1 c.2 s) slot (length cores)
                   = Ok (mk_entry (if slot =? 0 then c.1 else 0) 0 0)).
    { intros slot Hslot. rewrite (entry_at_init (length cores)) by (done || lia).
      by rewrite Nat.eqb_refl. }
    split; simpl.
    + by rewrite list_lookup_middle.
    + rewrite list_lookup_middle by done. by rewrite u32_small by lia.
    + intros slot Hslot. rewrite Hent by done. eauto.
    + lia.
    + exists 0, 0, (mk_entry c.1 0 0), (mk_entry c.1 0 0), (mk_entry 0 0 0).
      rewrite !Hent by lia. rewrite !list_lookup_middle by done. split_and!; done || lia.
Qed.

(** ** The properties *)
Definition valid_sizes (cores : list (Z * Z)) (sizes : list Z) : Prop :=
  Forall2 (λ c sz, 0 <= sz <= c.2) cores sizes ∧ Exists (λ sz, sz ≠ 0) sizes.

(** The states a command queue takes the manager through: one enqueue per
    program.  The index is [None] before the first program. *)
Inductive enqueued (cores : list (Z * Z)) : option Z → WorkerConfigBufferMgr → Prop :=
| enqueued_new : enqueued cores None (configure cores)
| enqueued_next st s sizes c sync s' :
    enqueued cores st s → valid_sizes cores sizes →
    enqueue_program sizes c s = (Ok sync, s') → enqueued cores (Some c) s'.

Lemma valid_sizes_limits cores sizes :
  valid_sizes cores sizes →
  length sizes = length (limits cores)
  ∧ (∀ i b l sz, limits cores !! i = Some (b, l) → sizes !! i = Some sz → 0 <= sz <= l - b).
Proof.
  intros [H2 _]. split; [unfold limits; rewrite length_fmap; symmetry; by eapply Forall2_length|].
  intros i b l sz Hi Hsz. unfold limits in Hi. rewrite list_lookup_fmap in Hi.
  destruct (cores !! i) as [c|] eqn:Hc; [|done]. injection Hi as <- <-.
  pose proof (Forall2_lookup_lr _ _ _ _ _ _ H2 Hc Hsz) as H. cbn in H. lia.
Qed.

Definition base_fits (b l : Z) (r : ConfigBufferEntry) : Prop := b <= addr r ∧ addr r + size r <= l.

Lemma run_enqueue st cores s sizes c :
  ready st (limits cores) s → valid_sizes cores sizes →
  ∃ sync s', enqueue_program sizes c s = (Ok sync, s') ∧ ready (Some c) (limits cores) s'
    ∧ ∀ i b l, limits cores !! i = Some (b, l) → ∃ r, reservation_ s' !! i = Some r
        ∧ base_fits b l r ∧ placed st sizes s sync i b l r.
Proof.
  intros Hready Hv. destruct (valid_sizes_limits _ _ Hv) as [Hlen Hfits].
  destruct (reserve_phase st _ sizes Hlen Hfits s Hready) as (sync & s1 & Hrun1 & Hl1 & Hres).
  assert (Hupto : sync_upto sync = Some (sync_of st)).
  { destruct Hv as [_ (sz & Hin & Hne)%Exists_exists].
    apply list_elem_of_lookup in Hin as [i Hsz].
    destruct (lookup_lt_is_Some_2 (limits cores) i) as [[b l] Hc];
      [rewrite <- Hlen; by eapply lookup_lt_Some|].
    destruct (Hres i b l Hc) as (r & _ & Hszr & Hup & _). apply Hup. simplify_eq. congruence. }
  destruct (free_phase st (limits cores) (reservation_ s1) s1 Hl1) as (s2 & Hrun2 & Hl2 & Hfreed).
  { intros i b l Hc. destruct (Hres i b l Hc) as (r & Hr & _). exists r. split; [apply Hr|done]. }
  destruct (alloc_phase (limits cores) (reservation_ s1) c s2 Hl2 Hfreed) as (s3 & Hrun3 & Hready3 & Hrsv).
  exists sync, s3. split; [|split; [done|]].
  - unfold enqueue_program. st_step Hrun1. rewrite Hupto, (run_lift _ (sync_of st)) by done.
    st_step Hrun2. by st_step Hrun3.
  - intros i b l Hc. destruct (Hres i b l Hc) as (r & Hr & Hp). exists r.
    rewrite (Hrsv i b l Hc). split; [apply Hr|]. split; [split; apply Hr|done].
Qed.

Lemma enqueued_ready cores st s :
  Forall valid_core cores → enqueued cores st s → ready st (limits cores) s.
Proof.
  intros Hv. induction 1 as [|st s sizes c sync s' _ IH Hsizes Hrun]; [by apply configure_ready|].
  destruct (run_enqueue st cores s sizes c IH Hsizes) as (sync' & s'' & Hrun' & Hready & _). congruence.
Qed.

(** C36: a program enqueue never fails, and its config space is safe: for every
    core type the reservation lies inside the buffer and, unless the enqueue
    asks for a sync, has no byte in common with the reservation of the program
    enqueued before it, which may still be running. *)
Theorem enqueue_safe cores st s sizes c :
  Forall valid_core cores → enqueued cores st s → valid_sizes cores sizes →
  ∃ sync s', enqueue_program sizes c s = (Ok sync, s')
    ∧ ∀ i b n, cores !! i = Some (b, n) →
      ∃ r, reservation_ s' !! i = Some r ∧ sizes !! i = Some (size r)
        ∧ b <= addr r ∧ addr r + size r <= b + n
        ∧ (need_sync sync = false → ∀ r', is_Some st → reservation_ s !! i = Some r' →
           disjoint_ranges (addr r) (size r) (addr r') (size r')).
Proof.
  intros Hcores Hs Hv. apply (enqueued_ready _ _ _ Hcores) in Hs.
  destruct (run_enqueue st cores s sizes c Hs Hv) as (sync & s' & Hrun & _ & Hplaced).
  exists sync, s'. split; [done|]. intros i b n Hc.
  destruct (Hplaced i b (b + n)) as (r & Hr & [Hlo Hhi] & Hsz & _ & Hd).
  { unfold limits. by rewrite list_lookup_fmap, Hc. }
  exists r. split_and!; try done. intros Hns r' [c' Hst] Hr'. by eapply Hd.
Qed.

Definition demo_cores : list (Z * Z) := [(1024, 100); (2048, 60)].

Lemma demo_sizes x y : 0 < x <= 100 → 0 <= y <= 60 → valid_sizes demo_cores [x; y].
Proof.
  intros ??. split; [|by apply Exists_cons_hd; lia].
  constructor; [simpl; lia|constructor; [simpl; lia|constructor]].
Qed.

Lemma enqueue_safe_witness :
  ∃ sync s', enqueue_program [50; 10] 2 (enqueue_program [30; 60] 1 (configure demo_cores)).2 = (Ok sync, s')
    ∧ ∀ i b n, demo_cores !! i = Some (b, n) →
      ∃ r, reservation_ s' !! i = Some r ∧ [50; 10] !! i = Some (size r)
        ∧ b <= addr r ∧ addr r + size r <= b + n
        ∧ (need_sync sync = false → ∀ r', is_Some (Some 1) →
           reservation_ (enqueue_program [30; 60] 1 (configure demo_cores)).2 !! i = Some r' →
           disjoint_ranges (addr r) (size r) (addr r') (size r')).
Proof.
  apply enqueue_safe.
  - constructor; [|constructor; [|constructor]]; unfold valid_core; simpl; lia.
  - apply (enqueued_next _ None (configure demo_cores) [30; 60] 1 (mk_sync false (Some 0)));
      [apply enqueued_new|by apply demo_sizes|vm_compute; reflexivity].
  - by apply demo_sizes.
Defined.

(** Entries of the ring between [free_index] and the one that ends the search. *)
Definition ring_distance (alloc_index free_index : Z) : Z := (alloc_index - free_index - 1) mod 8.

Lemma ring_distance_next ai fi :
  0 <= ai < 8 → 0 <= fi < 8 → next_slot fi ≠ ai →
  ring_distance ai (next_slot fi) = ring_distance ai fi - 1.
Proof.
  intros Ha Hf. rewrite next_slot_spec by done. unfold ring_distance.
  destruct (Z.eqb_spec fi 7) as [->|]; intros Hne; Z.to_euclidean_division_equations; lia.
Qed.

Lemma outcome_bind_no_fuel {A B} (o : outcome A) (k : A → outcome B) :
  o ≠ Err FUEL → (∀ a, o = Ok a → k a ≠ Err FUEL) → (o ≫= k) ≠ Err FUEL.
Proof. destruct o; simpl; [auto|congruence]. Qed.

Lemma at_no_fuel {A} (v : list A) i : at_ v i ≠ Err FUEL.
Proof. unfold at_. by destruct (v !! i). Qed.

Lemma entry_at_no_fuel s slot i : entry_at s slot i ≠ Err FUEL.
Proof. apply outcome_bind_no_fuel; [apply at_no_fuel|]. intros. apply at_no_fuel. Qed.

Lemma end_for_no_fuel s a slot i : end_for s a slot i ≠ Err FUEL.
Proof.
  apply outcome_bind_no_fuel; [apply entry_at_no_fuel|]. intros.
  apply outcome_bind_no_fuel; [apply at_no_fuel|done].
Qed.

Lemma reserve_loop_fuel fuel s i sz ai fi sync :
  0 <= ai < 8 → 0 <= fi < 8 → ring_distance ai fi < Z.of_nat fuel →
  reserve_loop fuel s i sz ai fi sync ≠ Err FUEL.
Proof.
  intros Ha. revert fi; induction fuel as [|fuel IH]; intros fi Hf Hd.
  { unfold ring_distance in Hd. pose proof (Z.mod_pos_bound (ai - fi - 1) 8). lia. }
  cbn [reserve_loop]. apply outcome_bind_no_fuel; [apply entry_at_no_fuel|intros h _].
  destruct (sz =? 0); [done|].
  apply outcome_bind_no_fuel; [apply at_no_fuel|intros b _].
  apply outcome_bind_no_fuel; [apply at_no_fuel|intros l _].
  apply outcome_bind_no_fuel; [unfold check; by case_match|intros _ _].
  apply outcome_bind_no_fuel; [apply end_for_no_fuel|intros e0 _].
  apply outcome_bind_no_fuel; [apply entry_at_no_fuel|intros f _].
  destruct (if _ : bool then _ else _) as [a e].
  destruct (e <? u32 (a + sz)); [|by case_match].
  destruct (Z.eqb_spec (next_slot fi) ai) as [|Hne]; [done|].
  apply outcome_bind_no_fuel; [apply end_for_no_fuel|intros e1 _].
  destruct (e1 <? u32 (a + sz)); [|done].
  apply IH; [by apply next_slot_range|]. rewrite ring_distance_next by done. lia.
Qed.

(** the retry loop of [reserve] ends after at most eight rounds, whatever
    the ring holds: each retry moves [free_index] one entry closer to
    [alloc_index], where the search stops. *)
Theorem reserve_loop_terminates s i sz ai fi sync :
  0 <= ai < kernel_config_entry_count → 0 <= fi < kernel_config_entry_count →
  reserve_loop reserve_fuel s i sz ai fi sync ≠ Err FUEL.
Proof.
  intros Ha Hf. apply reserve_loop_fuel; [done..|]. unfold ring_distance, reserve_fuel.
  pose proof (Z.mod_pos_bound (ai - fi - 1) 8). unfold kernel_config_entry_count. lia.
Qed.

Lemma reserve_loop_terminates_witness :
  reserve_loop reserve_fuel (configure demo_cores) 0 50 3 4 (mk_sync false None) ≠ Err FUEL.
Proof. apply reserve_loop_terminates; unfold kernel_config_entry_count; lia. Defined.

(** Beyond one live entry the ring is not safe: when the wrapped-around head
    meets the first live entry exactly, [addr >= entries_[free_index].addr]
    takes the full buffer for an empty one.  The fifth reservation is put at
    address 40 without a sync, over the second one, which is still live. *)
Example exact_fill_overlaps :
  let run :=
    _ ← reserve [40]; _ ← alloc 1; _ ← reserve [40]; _ ← alloc 2; _ ← free 1;
    _ ← reserve [30]; _ ← alloc 3; _ ← reserve [10]; _ ← alloc 4;
    sync ← reserve [10]; s ← get_st;
    mret (need_sync sync, addr <$> reservation_ s, addr <$> (entries_ s ≫= take 1), free_index_ s) in
  (run (init_add_core 0 100 WorkerConfigBufferMgr_new)).1
  = Ok (false, [40], [0; 40; 0; 30; 40; 0; 0; 0], [1]).
Proof. by vm_compute. Qed.
