(* ===== verification/CoreCoord.v ===== *)
(** * Core ranges (tt_metal/common/core_coord.h)

    [CoreCoord] is the pair type of the device driver, which is not part of
    these sources: its order [operator<] is a parameter [coord_lt] of the
    definitions that keep ranges in a [std::set].  A [std::set] is the list of
    its elements in increasing order.  Coordinates are [size_t], so sums are
    reduced to 64 bits; the loops that count in [unsigned] reduce to 32. *)
From S2P Require Import Prelude.

Record CoreCoord := mk_coord { x : Z; y : Z }.
Record CoreRange := mk_range { start_coord : CoreCoord; end_coord : CoreCoord }.

#[export] Instance CoreCoord_eq_dec : EqDecision CoreCoord.
Proof. solve_decision. Defined.
#[export] Instance CoreRange_eq_dec : EqDecision CoreRange.
Proof. solve_decision. Defined.

(** Signed coordinates, counted from the end of the grid when negative. *)
Record RelativeCoreCoord := mk_relative { rel_x : Z; rel_y : Z }.

Definition get_core_coord_from_relative (in_ : RelativeCoreCoord) (grid_size : CoreCoord) : CoreCoord :=
  mk_coord (u64 (rel_x in_ + (if rel_x in_ <? 0 then x grid_size else 0)))
           (u64 (rel_y in_ + (if rel_y in_ <? 0 then y grid_size else 0))).

(** ** CoreRange *)
Definition CoreRange_of_point (p : CoreCoord) : CoreRange := mk_range p p.

Definition CoreRange_make (s e : CoreCoord) : outcome CoreRange :=
  _ ← check ((x s <=? x e) && (y s <=? y e)) TT_ASSERT;
  Ok (mk_range s e).

Definition intersects (a b : CoreRange) : outcome (option CoreRange) :=
  let x1 := Z.max (x (start_coord a)) (x (start_coord b)) in
  let y1 := Z.max (y (start_coord a)) (y (start_coord b)) in
  let x2 := Z.min (x (end_coord a)) (x (end_coord b)) in
  let y2 := Z.min (y (end_coord a)) (y (end_coord b)) in
  if (x1 <=? x2) && (y1 <=? y2) then
    r ← CoreRange_make (mk_coord x1 y1) (mk_coord x2 y2); Ok (Some r)
  else Ok None.

Definition adjacent (a b : CoreRange) : bool :=
  let x1 := Z.max (x (start_coord a)) (x (start_coord b)) in
  let y1 := Z.max (y (start_coord a)) (y (start_coord b)) in
  let x2 := Z.min (x (end_coord a)) (x (end_coord b)) in
  let y2 := Z.min (y (end_coord a)) (y (end_coord b)) in
  ((u64 (x2 + 1) =? x1) && (y1 <=? y2)) || ((u64 (y2 + 1) =? y1) && (x1 <=? x2)).

Definition contains_range (a b : CoreRange) : bool :=
  (x (start_coord a) <=? x (start_coord b)) && (x (end_coord b) <=? x (end_coord a))
  && (y (start_coord a) <=? y (start_coord b)) && (y (end_coord b) <=? y (end_coord a)).

Definition contains_coord (a : CoreRange) (c : CoreCoord) : bool :=
  (x (start_coord a) <=? x c) && (x c <=? x (end_coord a))
  && (y (start_coord a) <=? y c) && (y c <=? y (end_coord a)).

Definition merge_ranges (a b : CoreRange) : outcome (option CoreRange) :=
  i ← intersects a b;
  if bool_decide (is_Some i) || adjacent a b then
    if (x (start_coord a) =? x (start_coord b)) && (x (end_coord a) =? x (end_coord b)) then
      r ← CoreRange_make
        (mk_coord (x (start_coord a)) (Z.min (y (start_coord a)) (y (start_coord b))))
        (mk_coord (x (end_coord a)) (Z.max (y (end_coord a)) (y (end_coord b))));
      Ok (Some r)
    else if (y (start_coord a) =? y (start_coord b)) && (y (end_coord a) =? y (end_coord b)) then
      r ← CoreRange_make
        (mk_coord (Z.min (x (start_coord a)) (x (start_coord b))) (y (start_coord a)))
        (mk_coord (Z.max (x (end_coord a)) (x (end_coord b))) (y (end_coord a)));
      Ok (Some r)
    else Ok None
  else Ok None.

Definition range_size (r : CoreRange) : Z :=
  u64 (u64 (x (end_coord r) - x (start_coord r) + 1) * u64 (y (end_coord r) - y (start_coord r) + 1)).

Definition grid_size (r : CoreRange) : CoreCoord :=
  mk_coord (u64 (x (end_coord r) - x (start_coord r) + 1)) (u64 (y (end_coord r) - y (start_coord r) + 1)).

(** [CoreIterator::operator++] *)
Definition iter_step (r : CoreRange) (c : CoreCoord) : CoreCoord :=
  if x c =? x (end_coord r) then mk_coord (x (start_coord r)) (u64 (y c + 1))
  else mk_coord (u64 (x c + 1)) (y c).
Definition range_begin (r : CoreRange) : CoreCoord := start_coord r.
Definition range_end (r : CoreRange) : CoreCoord :=
  mk_coord (x (start_coord r)) (u64 (y (end_coord r) + 1)).

(** [for (auto core : range)] *)
Fixpoint iter_range (fuel : nat) (r : CoreRange) (c : CoreCoord) : outcome (list CoreCoord) :=
  if bool_decide (c = range_end r) then Ok []
  else match fuel with
  | O => Err FUEL
  | S fuel => cs ← iter_range fuel r (iter_step r c); Ok (c :: cs)
  end.
Definition cores_of_range (r : CoreRange) : outcome (list CoreCoord) :=
  iter_range (S (Z.to_nat (range_size r))) r (range_begin r).

(** ** Enumerating cores *)
(** [for (uint32_t i = lo; i < hi; i++)] *)
Definition range_u32 (lo hi : Z) : list Z := seqZ lo (hi - lo).

Definition grid_to_cores_num (num_cores grid_size_x grid_size_y : Z) (row_wise : bool)
  : outcome (list CoreCoord) :=
  _ ← check (num_cores <=? u32 (grid_size_x * grid_size_y)) TT_ASSERT;
  Ok ((λ i, if row_wise then mk_coord (i mod grid_size_x) (i / grid_size_x)
            else mk_coord (i / grid_size_y) (i mod grid_size_y)) <$> range_u32 0 num_cores).

Definition grid_to_cores (s e : CoreCoord) (row_wise : bool) : list CoreCoord :=
  if row_wise then
    (j ← range_u32 (y s) (y e + 1); (λ i, mk_coord i j) <$> range_u32 (x s) (x e + 1))%stdpp
  else
    (i ← range_u32 (x s) (x e + 1); (λ j, mk_coord i j) <$> range_u32 (y s) (y e + 1))%stdpp.

Definition grid_to_cores_with_noop (bbox_x bbox_y grid_size_x grid_size_y : Z) (row_wise : bool)
  : outcome (list CoreCoord) :=
  _ ← check (bbox_x <? grid_size_x) TT_ASSERT;
  _ ← check (bbox_y <? grid_size_y) TT_ASSERT;
  let box_size_x := u32 (bbox_x + 1) in
  let box_size_y := u32 (bbox_y + 1) in
  Ok (((λ i, if row_wise then mk_coord (i mod box_size_x) (i / box_size_x)
             else mk_coord (i / box_size_y) (i mod box_size_y))
         <$> range_u32 0 (u32 (box_size_x * box_size_y)))
      ++ (i ← range_u32 box_size_x grid_size_x; (λ j, mk_coord i j) <$> range_u32 0 grid_size_y)
      ++ (j ← range_u32 box_size_y grid_size_y; (λ i, mk_coord i j) <$> range_u32 0 box_size_x)).

(** ** Sets of ranges *)
Section sets.
Context (coord_lt : CoreCoord → CoreCoord → bool).

Definition coord_eq (a b : CoreCoord) : bool := bool_decide (a = b).

(** [operator<] on ranges. *)
Definition range_lt (l r : CoreRange) : bool :=
  coord_lt (start_coord l) (start_coord r)
  || (coord_eq (start_coord l) (start_coord r) && coord_lt (end_coord l) (end_coord r)).

(** [std::set::insert] *)
Fixpoint set_insert (r : CoreRange) (l : list CoreRange) : list CoreRange :=
  match l with
  | [] => [r]
  | h :: t => if range_lt r h then r :: l else if range_lt h r then h :: set_insert r t else l
  end.
Definition set_insert_all (rs l : list CoreRange) : list CoreRange := foldl (λ l r, set_insert r l) l rs.
(** [std::set_difference] *)
Definition set_difference (a b : list CoreRange) : list CoreRange := filter (λ r, r ∉ b) a.

Definition no_overlap (a b : CoreRange) : bool :=
  (x (end_coord a) <? x (start_coord b)) || (x (end_coord b) <? x (start_coord a))
  || (y (end_coord a) <? y (start_coord b)) || (y (end_coord b) <? y (start_coord a)).

(** [CoreRangeSet(const std::set<CoreRange>&)]: the pair of loops over two iterators. *)
Definition CoreRangeSet_make (rs : list CoreRange) : outcome (list CoreRange) :=
  let pairs := imap (λ i r, (i, r)) rs in
  _ ← check (forallb (λ p, forallb (λ q, (p.1 =? q.1)%nat || no_overlap p.2 q.2) pairs) pairs) TT_THROW;
  Ok rs.

Definition extremes (init : Z) (rs : list CoreRange) : Z * Z * Z * Z :=
  foldl (λ '(min_x, max_x, min_y, max_y) cr,
    (Z.min min_x (x (start_coord cr)), Z.max max_x (x (end_coord cr)),
     Z.min min_y (y (start_coord cr)), Z.max max_y (y (end_coord cr)))) (init, 0, init, 0) rs.

(** [grid]: the set of [(y, x)] whose entry is [true]. *)
Definition fill_grid (rs : list CoreRange) : gset (Z * Z) :=
  foldl (λ g cr,
    foldl (λ g j,
      foldl (λ g i, {[ (j, i) ]} ∪ g) g (range_u32 (x (start_coord cr)) (x (end_coord cr) + 1)))
      g (range_u32 (y (start_coord cr)) (y (end_coord cr) + 1))) ∅ rs.

Definition grid_at (g : gset (Z * Z)) (j i : Z) : bool := bool_decide ((j, i) ∈ g).

(** [while (grid[y][x]) x++;] *)
Fixpoint run_end (fuel : nat) (g : gset (Z * Z)) (j i : Z) : outcome Z :=
  if grid_at g j i then
    match fuel with O => Err FUEL | S fuel => run_end fuel g j (u32 (i + 1)) end
  else Ok i.

(** The runs of row [j], from column [i] on. *)
Fixpoint row_ranges (fuel : nat) (g : gset (Z * Z)) (j i max_x : Z) : outcome (list CoreRange) :=
  if i <=? max_x + 1 then
    match fuel with
    | O => Err FUEL
    | S fuel =>
      if grid_at g j i then
        i' ← run_end fuel g j i;
        r ← CoreRange_make (mk_coord i j) (mk_coord (u32 (i' - 1)) j);
        rs ← row_ranges fuel g j (u32 (i' + 1)) max_x;
        Ok (r :: rs)
      else row_ranges fuel g j (u32 (i + 1)) max_x
    end
  else Ok [].

(** [for (const auto &prev_cr : crs)]: the merged ranges and what they replace. *)
Fixpoint merge_with (cr : CoreRange) (crs new_crs filter_set : list CoreRange)
  : outcome (list CoreRange * list CoreRange) :=
  match crs with
  | [] => Ok (new_crs, filter_set)
  | prev_cr :: crs =>
    merged ← merge_ranges cr prev_cr;
    match merged with
    | Some m => merge_with cr crs (set_insert m new_crs) (set_insert cr (set_insert prev_cr filter_set))
    | None => merge_with cr crs new_crs filter_set
    end
  end.

(** [for (const auto &cr : ranges)] *)
Fixpoint merge_row (ranges crs new_crs filter_set : list CoreRange)
  : outcome (list CoreRange * list CoreRange * list CoreRange) :=
  match ranges with
  | [] => Ok (crs, new_crs, filter_set)
  | cr :: ranges =>
    '(new_crs, filter_set) ← merge_with cr crs new_crs filter_set;
    merge_row ranges (set_insert cr crs) new_crs filter_set
  end.

(** [for (unsigned y = min_y; y <= max_y; y++)] *)
Fixpoint merge_rows (fuel : nat) (g : gset (Z * Z)) (j min_x max_x max_y : Z) (crs : list CoreRange)
  : outcome (list CoreRange) :=
  if j <=? max_y then
    match fuel with
    | O => Err FUEL
    | S fuel =>
      ranges ← row_ranges (Z.to_nat (max_x + 3)) g j (u32 min_x) max_x;
      '(crs, new_crs, filter_set) ← merge_row ranges crs [] [];
      merge_rows fuel g (u32 (j + 1)) min_x max_x max_y
        (set_insert_all new_crs (set_difference crs filter_set))
    end
  else Ok crs.

Definition merge (ranges_ other : list CoreRange) : outcome (list CoreRange) :=
  let crs := set_insert_all other ranges_ in
  let '(min_x, max_x, min_y, max_y) := extremes (2 ^ 64 - 1) crs in
  crs ← merge_rows (Z.to_nat (max_y + 2)) (fill_grid crs) (u32 min_y) min_x max_x max_y [];
  CoreRangeSet_make crs.

Definition core_coord_in_core_ranges (ranges_ : list CoreRange) (c : CoreCoord) : bool :=
  existsb (λ cr, contains_coord cr c) ranges_.

Fixpoint set_intersects (ranges_ : list CoreRange) (cr : CoreRange) : outcome bool :=
  match ranges_ with
  | [] => Ok false
  | l :: ranges_ =>
    i ← intersects l cr;
    if bool_decide (is_Some i) then Ok true else set_intersects ranges_ cr
  end.

Definition num_cores (ranges_ : list CoreRange) : Z :=
  foldl (λ n cr, u32 (n + range_size cr)) 0 ranges_.

Definition bounding_box (ranges_ : list CoreRange) : outcome CoreRange :=
  _ ← check (negb (length ranges_ =? 0)%nat) TT_FATAL;
  let '(min_x, max_x, min_y, max_y) := extremes (2 ^ 32 - 1) ranges_ in
  CoreRange_make (mk_coord min_x min_y) (mk_coord max_x max_y).

(** [operator==] on sets. *)
Fixpoint ranges_equal (a b : list CoreRange) : bool :=
  match a, b with
  | p :: a, q :: b => bool_decide (p = q) && ranges_equal a b
  | _, _ => true
  end.
Definition sets_equal (a b : list CoreRange) : bool :=
  (length a =? length b)%nat && ranges_equal a b.

Definition corerange_to_cores (crs : list CoreRange) (max_cores : option Z) (row_wise : bool)
  : list CoreCoord :=
  foldl (λ all_cores core_range,
    let cores := grid_to_cores (start_coord core_range) (end_coord core_range) row_wise in
    match max_cores with
    | Some max_cores =>
      if max_cores <? Z.of_nat (length all_cores + length cores) then
        all_cores ++ take (Z.to_nat (u32 (max_cores - Z.of_nat (length all_cores)))) cores
      else all_cores ++ cores
    | None => all_cores ++ cores
    end) [] crs.

End sets.
