(* ===== verification/CoreCoordProps.v ===== *)
(** * Core ranges: what the operations compute

    A range denotes its rectangle of cells, a set of ranges the union.  The main
    result is on [CoreRangeSet::merge]: the rows are scanned into runs, a run is
    joined with the rectangle above it that has the same columns, and the
    outcome covers the same cells without overlap ([merge_correct]). *)
From Stdlib Require Import Sorted.
From S2P Require Import Prelude CoreCoord.

Abbreviation xs r := (x (start_coord r)).
Abbreviation ys r := (y (start_coord r)).
Abbreviation xe r := (x (end_coord r)).
Abbreviation ye r := (y (end_coord r)).

(** Ranges with ordered corners, small enough for the 32-bit loop counters. *)
Definition good (r : CoreRange) : Prop :=
  0 <= xs r <= xe r ∧ 0 <= ys r <= ye r ∧ xe r < 2 ^ 31 ∧ ye r < 2 ^ 31.
Definition cell (r : CoreRange) (i j : Z) : Prop := xs r <= i <= xe r ∧ ys r <= j <= ye r.
Definition apart (a b : CoreRange) : Prop :=
  xe a < xs b ∨ xe b < xs a ∨ ye a < ys b ∨ ye b < ys a.
Definition covered (rs : list CoreRange) (i j : Z) : Prop := ∃ r, r ∈ rs ∧ cell r i j.

(** ** Ranges *)
Lemma contains_coord_spec r c : contains_coord r c = true ↔ cell r (x c) (y c).
Proof. unfold contains_coord, cell. rewrite !andb_true_iff, !Z.leb_le. lia. Qed.

Lemma no_overlap_spec a b : no_overlap a b = true ↔ apart a b.
Proof. unfold no_overlap, apart. rewrite !orb_true_iff, !Z.ltb_lt. lia. Qed.

Lemma apart_spec a b : good a → good b → apart a b ↔ ¬ ∃ i j, cell a i j ∧ cell b i j.
Proof.
  unfold good, apart, cell. intros Ha Hb. split; [intros H (i & j & ? & ?); lia|].
  intros H. destruct (decide (xe a < xs b)); [by left|]. destruct (decide (xe b < xs a)); [by right; left|].
  destruct (decide (ye a < ys b)); [by do 2 right; left|]. do 3 right.
  destruct (decide (ye b < ys a)); [done|]. exfalso. apply H.
  exists (Z.max (xs a) (xs b)), (Z.max (ys a) (ys b)). lia.
Qed.

Lemma CoreRange_make_good s e :
  x s <= x e → y s <= y e → CoreRange_make s e = Ok (mk_range s e).
Proof.
  intros Hx Hy. unfold CoreRange_make. apply Z.leb_le in Hx as ->. by apply Z.leb_le in Hy as ->.
Qed.

#[export] Instance apart_dec a b : Decision (apart a b).
Proof. unfold apart. apply _. Defined.

Lemma intersects_spec a b :
  good a → good b →
  intersects a b = Ok (if decide (apart a b) then None
    else Some (mk_range (mk_coord (Z.max (xs a) (xs b)) (Z.max (ys a) (ys b)))
                        (mk_coord (Z.min (xe a) (xe b)) (Z.min (ye a) (ye b))))).
Proof.
  unfold good. intros Ha Hb. unfold intersects.
  destruct (decide (apart a b)) as [Hap|Hap]; unfold apart in Hap.
  - destruct (Z.leb_spec (Z.max (xs a) (xs b)) (Z.min (xe a) (xe b))); [|done].
    destruct (Z.leb_spec (Z.max (ys a) (ys b)) (Z.min (ye a) (ye b))); [lia|done].
  - destruct (Z.leb_spec (Z.max (xs a) (xs b)) (Z.min (xe a) (xe b))); [|lia].
    destruct (Z.leb_spec (Z.max (ys a) (ys b)) (Z.min (ye a) (ye b))); [|lia].
    simpl. by rewrite CoreRange_make_good.
Qed.

(** [merge] of two ranges, without the errors. *)
Definition joined (a b : CoreRange) : option CoreRange :=
  if negb (bool_decide (apart a b)) || adjacent a b then
    if (xs a =? xs b) && (xe a =? xe b) then
      Some (mk_range (mk_coord (xs a) (Z.min (ys a) (ys b))) (mk_coord (xe a) (Z.max (ye a) (ye b))))
    else if (ys a =? ys b) && (ye a =? ye b) then
      Some (mk_range (mk_coord (Z.min (xs a) (xs b)) (ys a)) (mk_coord (Z.max (xe a) (xe b)) (ye a)))
    else None
  else None.

Lemma merge_ranges_joined a b : good a → good b → merge_ranges a b = Ok (joined a b).
Proof.
  intros Ha Hb. unfold merge_ranges. rewrite intersects_spec by done. unfold good in *.
  cbn [mbind outcome_bind]. unfold joined.
  replace (bool_decide (is_Some _)) with (negb (bool_decide (apart a b)))
    by (destruct (decide (apart a b)); [by rewrite bool_decide_eq_true_2|by rewrite bool_decide_eq_false_2]).
  destruct (negb _ || _); [|done].
  destruct (_ && _); [by rewrite CoreRange_make_good by (simpl; lia)|].
  destruct (_ && _); [by rewrite CoreRange_make_good by (simpl; lia)|done].
Qed.

(** Two ranges are joined exactly when the result covers the two and nothing else. *)
Lemma joined_cells a b m :
  good a → good b → joined a b = Some m →
  good m ∧ ∀ i j, cell m i j ↔ cell a i j ∨ cell b i j.
Proof.
  unfold good, cell, joined, adjacent, apart. intros Ha Hb.
  rewrite !(u64_small (_ + 1)) by lia.
  destruct (negb _ || _) eqn:Hor; [|done].
  assert (Hnear : ¬ apart a b ∨ (Z.min (xe a) (xe b) + 1 = Z.max (xs a) (xs b)
      ∧ Z.max (ys a) (ys b) <= Z.min (ye a) (ye b))
    ∨ (Z.min (ye a) (ye b) + 1 = Z.max (ys a) (ys b) ∧ Z.max (xs a) (xs b) <= Z.min (xe a) (xe b))).
  { apply orb_true_iff in Hor as [Hor|Hor].
    - left. by apply negb_true_iff, bool_decide_eq_false in Hor.
    - right. rewrite orb_true_iff, !andb_true_iff, !Z.eqb_eq, !Z.leb_le in Hor. done. }
  unfold apart in Hnear. clear Hor.
  destruct ((xs a =? xs b) && (xe a =? xe b)) eqn:Hx.
  { apply andb_true_iff in Hx as [Hx1%Z.eqb_eq Hx2%Z.eqb_eq]. intros [= <-]. simpl.
    split; [lia|]. intros i j. lia. }
  destruct ((ys a =? ys b) && (ye a =? ye b)) eqn:Hy; [|done].
  apply andb_true_iff in Hy as [Hy1%Z.eqb_eq Hy2%Z.eqb_eq]. intros [= <-]. simpl.
  split; [lia|]. intros i j. lia.
Qed.

Lemma joined_complete a b u :
  good a → good b → good u → apart a b →
  (∀ i j, cell u i j ↔ cell a i j ∨ cell b i j) → joined a b = Some u.
Proof.
  unfold good. change (2 ^ 31) with 2147483648. intros Ha Hb Hu Hap Hc. unfold cell in Hc.
  assert (Hbox : xs u <= Z.min (xs a) (xs b) ∧ ys u <= Z.min (ys a) (ys b)
    ∧ Z.max (xe a) (xe b) <= xe u ∧ Z.max (ye a) (ye b) <= ye u).
  { pose proof (Hc (xs a) (ys a)). pose proof (Hc (xe a) (ye a)).
    pose proof (Hc (xs b) (ys b)). pose proof (Hc (xe b) (ye b)). lia. }
  assert (Hcase : (ys a = ys b ∧ ye a = ye b ∧ ys u = ys a ∧ ye u = ye a
      ∧ xs u = Z.min (xs a) (xs b) ∧ xe u = Z.max (xe a) (xe b) ∧ (xe a + 1 = xs b ∨ xe b + 1 = xs a))
    ∨ (xs a = xs b ∧ xe a = xe b ∧ xs u = xs a ∧ xe u = xe a
      ∧ ys u = Z.min (ys a) (ys b) ∧ ye u = Z.max (ye a) (ye b) ∧ (ye a + 1 = ys b ∨ ye b + 1 = ys a))).
  { pose proof (Hc (xs u) (ys u)). pose proof (Hc (xe u) (ye u)).
    destruct Hap as [?|[?|[?|?]]]; [left|left|right|right].
    - pose proof (Hc (xs u) (ye u)). pose proof (Hc (xe u) (ys u)). pose proof (Hc (xe a + 1) (ys u)). lia.
    - pose proof (Hc (xs u) (ye u)). pose proof (Hc (xe u) (ys u)). pose proof (Hc (xe b + 1) (ys u)). lia.
    - pose proof (Hc (xs u) (ye u)). pose proof (Hc (xe u) (ys u)). pose proof (Hc (xs u) (ye a + 1)). lia.
    - pose proof (Hc (xs u) (ye u)). pose proof (Hc (xe u) (ys u)). pose proof (Hc (xs u) (ye b + 1)). lia. }
  clear Hc. unfold joined, adjacent. rewrite !(u64_small (_ + 1)) by lia.
  rewrite (proj2 (orb_true_iff _ _)).
  2:{ right. rewrite orb_true_iff, !andb_true_iff, !Z.eqb_eq, !Z.leb_le. lia. }
  destruct u as [[? ?] [? ?]], Hcase as [?|?]; simpl in *.
  - destruct ((xs a =? xs b) && (xe a =? xe b)) eqn:Hx; [lia|].
    rewrite (proj2 (andb_true_iff _ _)) by lia. repeat f_equal; lia.
  - rewrite (proj2 (andb_true_iff _ _)) by lia. repeat f_equal; lia.
Qed.

(** ** The grid *)
Lemma elem_of_range_u32 i lo hi : i ∈ range_u32 lo hi ↔ lo <= i < hi.
Proof. unfold range_u32. rewrite elem_of_seqZ. lia. Qed.

Lemma elem_of_fill_row (g : gset (Z * Z)) j l p :
  p ∈ foldl (λ g i, {[ (j, i) ]} ∪ g) g l ↔ p ∈ g ∨ (p.1 = j ∧ p.2 ∈ l).
Proof.
  revert g; induction l as [|i l IH]; intros g; simpl.
  - rewrite elem_of_nil. naive_solver.
  - rewrite IH, elem_of_union, elem_of_singleton, elem_of_cons. destruct p as [j' i']; simpl.
    naive_solver.
Qed.

Lemma elem_of_fill_range (g : gset (Z * Z)) cr l p :
  p ∈ foldl (λ g j, foldl (λ g i, {[ (j, i) ]} ∪ g) g (range_u32 (xs cr) (xe cr + 1))) g l
  ↔ p ∈ g ∨ (p.1 ∈ l ∧ xs cr <= p.2 <= xe cr).
Proof.
  revert g; induction l as [|j l IH]; intros g; simpl.
  - rewrite elem_of_nil. naive_solver.
  - rewrite IH, elem_of_fill_row, elem_of_range_u32, elem_of_cons. destruct p as [j' i']; simpl.
    assert (Hi : xs cr <= i' < xe cr + 1 ↔ xs cr <= i' <= xe cr) by lia. rewrite Hi. naive_solver.
Qed.

Lemma elem_of_fill_grid rs j i : (j, i) ∈ fill_grid rs ↔ covered rs i j.
Proof.
  unfold fill_grid, covered. assert (Hgen : ∀ g : gset (Z * Z), (j, i) ∈ foldl (λ g cr,
    foldl (λ g j, foldl (λ g i, {[ (j, i) ]} ∪ g) g (range_u32 (xs cr) (xe cr + 1)))
      g (range_u32 (ys cr) (ye cr + 1))) g rs ↔ (j, i) ∈ g ∨ ∃ r, r ∈ rs ∧ cell r i j).
  { induction rs as [|r rs IH]; intros g; simpl.
    - setoid_rewrite elem_of_nil. naive_solver.
    - rewrite IH, elem_of_fill_range, elem_of_range_u32. simpl. setoid_rewrite elem_of_cons.
      unfold cell at 2. assert (Hj : ys r <= j < ye r + 1 ↔ ys r <= j <= ye r) by lia. rewrite Hj.
      split; [intros [[?|[??]]|(r' & ? & ?)]|intros [?|(r' & [->|?] & ?)]]; eauto 6.
      unfold cell in *. naive_solver. }
  rewrite Hgen, elem_of_empty. naive_solver.
Qed.

Lemma grid_at_spec rs j i : grid_at (fill_grid rs) j i = true ↔ covered rs i j.
Proof. unfold grid_at. by rewrite bool_decide_eq_true, elem_of_fill_grid. Qed.

(** ** Scanning a row *)
(** The runs of row [j] right of column [i]: one-row ranges with gaps between them. *)
Fixpoint runs_from (j i : Z) (rs : list CoreRange) : Prop :=
  match rs with
  | [] => True
  | r :: rs => ys r = j ∧ ye r = j ∧ i <= xs r <= xe r ∧ runs_from j (xe r + 2) rs
  end.

Lemma runs_elem j l rs r :
  runs_from j l rs → r ∈ rs → ys r = j ∧ ye r = j ∧ l <= xs r <= xe r.
Proof.
  revert l; induction rs as [|r0 rs IH]; intros l; [by intros _ ?%elem_of_nil|].
  intros (? & ? & ? & Hrest) [->|Hin]%elem_of_cons; [done|].
  destruct (IH _ Hrest Hin) as (? & ? & ?). lia.
Qed.

Section scan.
Context (g : gset (Z * Z)) (j max_x : Z) (Hmax : 0 <= max_x < 2147483648).
Context (Hgrid : ∀ i, max_x < i → grid_at g j i = false).

Lemma run_end_spec fuel i :
  0 <= i → max_x + 1 - i <= Z.of_nat fuel →
  ∃ i', run_end fuel g j i = Ok i' ∧ i <= i' ∧ (grid_at g j i = true → i' <= max_x + 1)
    ∧ (∀ k, i <= k < i' → grid_at g j k = true) ∧ grid_at g j i' = false.
Proof.
  revert i; induction fuel as [|fuel IH]; intros i Hi Hf; cbn [run_end].
  - rewrite Hgrid by lia. exists i. split_and!; [done|lia|done|lia|]. apply Hgrid. lia.
  - destruct (grid_at g j i) eqn:Hg.
    + assert (i <= max_x) by (destruct (Z.le_gt_cases i max_x); [done|]; by rewrite Hgrid in Hg by lia).
      rewrite u32_small by lia.
      destruct (IH (i + 1)) as (i' & -> & Hle & Hb & Hall & Hend); [lia..|].
      exists i'. split_and!; [done|lia| | |done].
      * intros _. destruct (Z.le_gt_cases i' (max_x + 1)); [done|].
        exfalso. pose proof (Hall (max_x + 1)) as H'. rewrite Hgrid in H' by lia. by specialize (H' ltac:(lia)).
      * intros k Hk. destruct (Z.eq_dec k i) as [->|]; [done|]. apply Hall. lia.
    + exists i. split_and!; [done|lia|done|lia|done].
Qed.

Lemma row_ranges_spec fuel i :
  0 <= i <= max_x + 3 → max_x + 2 - i <= Z.of_nat fuel →
  ∃ rs, row_ranges fuel g j i max_x = Ok rs ∧ runs_from j i rs
    ∧ (∀ r, r ∈ rs → xe r <= max_x)
    ∧ ∀ k, i <= k → grid_at g j k = true ↔ ∃ r, r ∈ rs ∧ xs r <= k <= xe r.
Proof.
  revert i; induction fuel as [|fuel IH]; intros i Hi Hf.
  all: cbn [row_ranges]; destruct (Z.leb_spec i (max_x + 1)); try lia.
  all: try (exists []; split_and!; [done|done|by intros ? ?%elem_of_nil|];
    intros k Hk; rewrite Hgrid by lia; split; [done|]; by intros (? & ?%elem_of_nil & _)).
  destruct (grid_at g j i) eqn:Hg.
  - destruct (run_end_spec fuel i) as (i' & -> & Hle & Hb & Hall & Hend); [lia..|].
    specialize (Hb Hg). cbn [mbind outcome_bind].
    assert (i < i') by (destruct (Z.eq_dec i i') as [->|]; [congruence|lia]).
    rewrite !u32_small by lia. rewrite CoreRange_make_good by (simpl; lia). cbn [mbind outcome_bind].
    destruct (IH (i' + 1)) as (rs & -> & Hruns & Hxe & Hcells); [lia..|].
    eexists. split; [reflexivity|]. simpl. split_and!; try lia; try done.
    + by replace (i' - 1 + 2) with (i' + 1) by lia.
    + intros r [->|Hr]%elem_of_cons; [simpl; lia|auto].
    + intros k Hk. setoid_rewrite elem_of_cons.
      destruct (Z.lt_ge_cases k i').
      { rewrite Hall by lia. split; [|done]. intros _. eexists. split; [by left|]. simpl. lia. }
      destruct (Z.eq_dec k i') as [->|].
      { rewrite Hend. split; [done|]. intros (r & [->|Hr] & Hk'); [simpl in Hk'; lia|]. exfalso.
        destruct (runs_elem _ _ _ _ Hruns Hr). lia. }
      rewrite (Hcells k) by lia. split; intros (r & Hr & Hk'); exists r; [by eauto|].
      destruct Hr as [->|Hr]; [simpl in Hk'; lia|done].
  - rewrite u32_small by lia. destruct (IH (i + 1)) as (rs & -> & Hruns & Hxe & Hcells); [lia..|].
    exists rs. split_and!; [done| |done|].
    + destruct rs as [|r rs]; [done|]. simpl in *. split_and!; try lia; try done. apply Hruns.
    + intros k Hk. destruct (Z.eq_dec k i) as [->|]; [|apply Hcells; lia].
      rewrite Hg. split; [done|]. intros (r & Hr & Hk'). exfalso.
      destruct (runs_elem _ _ _ _ Hruns Hr). lia.
Qed.
End scan.

(** ** Ordered sets *)
(** The driver's order on coordinates is a strict total order. *)
Record coord_order (coord_lt : CoreCoord → CoreCoord → bool) : Prop := mk_coord_order {
  lt_irrefl : ∀ a, coord_lt a a = false;
  lt_trans : ∀ a b c, coord_lt a b = true → coord_lt b c = true → coord_lt a c = true;
  lt_total : ∀ a b, coord_lt a b = false → coord_lt b a = false → a = b
}.

Section sets.
Context (coord_lt : CoreCoord → CoreCoord → bool) (Hlt : coord_order coord_lt).
Abbreviation rlt := (range_lt coord_lt).
Abbreviation is_set rs := (StronglySorted (λ a b, rlt a b = true) rs).

Lemma range_lt_irrefl r : rlt r r = false.
Proof. unfold range_lt. rewrite !(lt_irrefl _ Hlt). by rewrite andb_false_r. Qed.

Lemma range_lt_total a b : rlt a b = false → rlt b a = false → a = b.
Proof.
  destruct a as [a1 a2], b as [b1 b2]. unfold range_lt, coord_eq. simpl.
  rewrite !orb_false_iff. intros [H1 H2] [H3 H4].
  pose proof (lt_total _ Hlt _ _ H1 H3) as ->. f_equal.
  rewrite bool_decide_eq_true_2 in H2, H4 by done. by apply (lt_total _ Hlt).
Qed.

Lemma range_lt_trans a b c : rlt a b = true → rlt b c = true → rlt a c = true.
Proof.
  unfold range_lt, coord_eq. rewrite !orb_true_iff, !andb_true_iff, !bool_decide_eq_true.
  intros [H1|[H1 H1']] [H2|[H2 H2']].
  - left. by eapply (lt_trans _ Hlt).
  - left. by rewrite <- H2.
  - left. by rewrite H1.
  - right. split; [congruence|]. by eapply (lt_trans _ Hlt).
Qed.

Lemma elem_of_set_insert r l r' : r' ∈ set_insert coord_lt r l ↔ r' = r ∨ r' ∈ l.
Proof.
  induction l as [|h t IH]; simpl; [by rewrite list_elem_of_singleton, elem_of_nil; naive_solver|].
  destruct (rlt r h) eqn:H1; [by rewrite elem_of_cons|].
  destruct (rlt h r) eqn:H2.
  - rewrite !elem_of_cons, IH. naive_solver.
  - rewrite (range_lt_total r h H1 H2), elem_of_cons. naive_solver.
Qed.

Lemma set_insert_is_set r l : is_set l → is_set (set_insert coord_lt r l).
Proof.
  induction l as [|h t IH]; simpl; intros Hs; [by repeat constructor|].
  apply StronglySorted_inv in Hs as Hs'. destruct Hs' as [Ht Hh].
  destruct (rlt r h) eqn:H1.
  - constructor; [done|]. constructor; [done|].
    eapply Forall_impl; [exact Hh|]. intros r' Hr'. cbn in *. by eapply range_lt_trans.
  - destruct (rlt h r) eqn:H2; [|done]. constructor; [auto|].
    apply Forall_forall. intros r' [->|Hin]%elem_of_set_insert; [done|].
    rewrite Forall_forall in Hh. by apply Hh.
Qed.

Lemma elem_of_set_insert_all rs l r' : r' ∈ set_insert_all coord_lt rs l ↔ r' ∈ rs ∨ r' ∈ l.
Proof.
  unfold set_insert_all. revert l; induction rs as [|r rs IH]; intros l; simpl.
  - rewrite elem_of_nil. naive_solver.
  - rewrite IH, elem_of_set_insert, elem_of_cons. naive_solver.
Qed.

Lemma set_insert_all_is_set rs l : is_set l → is_set (set_insert_all coord_lt rs l).
Proof.
  unfold set_insert_all. revert l; induction rs as [|r rs IH]; intros l Hl; simpl; [done|].
  by apply IH, set_insert_is_set.
Qed.

Lemma elem_of_set_difference a b r : r ∈ set_difference a b ↔ r ∈ a ∧ r ∉ b.
Proof. unfold set_difference. rewrite list_elem_of_filter. naive_solver. Qed.

Lemma set_difference_is_set a b : is_set a → is_set (set_difference a b).
Proof.
  unfold set_difference. induction a as [|r a IH]; intros Hs; [constructor|].
  apply StronglySorted_inv in Hs as [Ha Hr]. rewrite filter_cons. case_decide; [|auto].
  constructor; [auto|]. apply Forall_forall. intros r' [_ Hin]%list_elem_of_filter.
  rewrite Forall_forall in Hr. by apply Hr.
Qed.

Lemma is_set_NoDup l : is_set l → NoDup l.
Proof.
  induction l as [|r l IH]; intros Hs; [constructor|].
  apply StronglySorted_inv in Hs as [Hl Hr]. constructor; [|auto].
  intros Hin. rewrite Forall_forall in Hr. specialize (Hr _ Hin). cbn in Hr.
  by rewrite range_lt_irrefl in Hr.
Qed.

(** ** One row of the merge *)
Lemma merge_with_spec cr crs new filt :
  good cr → Forall good crs →
  ∃ new' filt', merge_with coord_lt cr crs new filt = Ok (new', filt')
    ∧ (∀ m, m ∈ new' ↔ m ∈ new ∨ ∃ p, p ∈ crs ∧ joined cr p = Some m)
    ∧ (∀ f, f ∈ filt' ↔ f ∈ filt ∨ ∃ p, p ∈ crs ∧ is_Some (joined cr p) ∧ (f = p ∨ f = cr)).
Proof.
  intros Hcr. revert new filt; induction crs as [|p crs IH]; intros new filt Hcrs; cbn [merge_with].
  { exists new, filt. split_and!; [done|..]; intros; setoid_rewrite elem_of_nil; naive_solver. }
  apply Forall_cons in Hcrs as [Hp Hcrs]. rewrite merge_ranges_joined by done.
  cbn [mbind outcome_bind]. destruct (joined cr p) as [m|] eqn:Hj.
  - destruct (IH (set_insert coord_lt m new)
      (set_insert coord_lt cr (set_insert coord_lt p filt)) Hcrs) as (new' & filt' & -> & Hn & Hf).
    exists new', filt'. split_and!; [done|..].
    + intros m'. rewrite Hn, elem_of_set_insert. setoid_rewrite elem_of_cons.
      split; [intros [[->|?]|(p' & ? & ?)]|intros [?|(p' & [->|?] & ?)]]; eauto 6.
      rewrite Hj in *. naive_solver.
    + intros f. rewrite Hf, !elem_of_set_insert. setoid_rewrite elem_of_cons.
      split; [intros [[->|[->|?]]|(p' & ? & ? & ?)]|intros [?|(p' & [->|?] & ? & [->| ->])]];
        eauto 8.
  - destruct (IH new filt Hcrs) as (new' & filt' & -> & Hn & Hf).
    exists new', filt'. split_and!; [done|..].
    + intros m'. rewrite Hn. setoid_rewrite elem_of_cons.
      split; [intros [?|(p' & ? & ?)]|intros [?|(p' & [->|?] & ?)]]; eauto 6. congruence.
    + intros f. rewrite Hf. setoid_rewrite elem_of_cons.
      split; [intros [?|(p' & ? & ? & ?)]|intros [?|(p' & [->|?] & Hsj & ?)]]; eauto 8.
      rewrite Hj in Hsj. by destruct Hsj.
Qed.

(** Ranges that cannot be joined. *)
Definition unrelated (a b : CoreRange) : Prop := joined a b = None.

Lemma merge_row_spec ranges crs new filt :
  Forall good ranges → Forall good crs → is_set crs →
  (∀ i j a b, (i < j)%nat → ranges !! i = Some a → ranges !! j = Some b → joined b a = None) →
  ∃ crs' new' filt', merge_row coord_lt ranges crs new filt = Ok (crs', new', filt')
    ∧ is_set crs'
    ∧ (∀ r, r ∈ crs' ↔ r ∈ crs ∨ r ∈ ranges)
    ∧ (∀ m, m ∈ new' ↔ m ∈ new ∨ ∃ cr p, cr ∈ ranges ∧ p ∈ crs ∧ joined cr p = Some m)
    ∧ (∀ f, f ∈ filt' ↔ f ∈ filt ∨ ∃ cr p, cr ∈ ranges ∧ p ∈ crs ∧ is_Some (joined cr p)
         ∧ (f = p ∨ f = cr)).
Proof.
  revert crs new filt; induction ranges as [|cr ranges IH]; intros crs new filt Hr Hc Hs Hun;
    cbn [merge_row].
  { exists crs, new, filt. split_and!; try done; intros; setoid_rewrite elem_of_nil; naive_solver. }
  apply Forall_cons in Hr as [Hcr Hr].
  destruct (merge_with_spec cr crs new filt Hcr Hc) as (new1 & filt1 & -> & Hn1 & Hf1).
  cbn [mbind outcome_bind].
  destruct (IH (set_insert coord_lt cr crs) new1 filt1) as (crs' & new' & filt' & -> & Hs' & Hc' & Hn' & Hf').
  - done.
  - apply Forall_forall. intros r [->|Hin]%elem_of_set_insert; [done|].
    rewrite Forall_forall in Hc. by apply Hc.
  - by apply set_insert_is_set.
  - intros i j a b Hij Ha Hb. apply (Hun (S i) (S j)); [lia|done|done].
  - assert (Hno : ∀ cr', cr' ∈ ranges → joined cr' cr = None).
    { intros cr' [k Hk]%list_elem_of_lookup. apply (Hun 0%nat (S k)); [lia|done|done]. }
    exists crs', new', filt'. split_and!; [done|done|..].
    + intros r. rewrite Hc', elem_of_set_insert, elem_of_cons. naive_solver.
    + intros m. rewrite Hn', Hn1. setoid_rewrite elem_of_set_insert. setoid_rewrite elem_of_cons.
      split; [intros [[?|(p & ? & ?)]|(cr' & p & ? & [->|?] & Hj)]|intros [?|(cr' & p & [->|?] & ? & ?)]];
        eauto 8. by rewrite Hno in Hj.
    + intros f. rewrite Hf', Hf1. setoid_rewrite elem_of_set_insert. setoid_rewrite elem_of_cons.
      split; [intros [[?|(p & ? & ? & ?)]|(cr' & p & ? & [->|?] & Hj & ?)]
             |intros [?|(cr' & p & [->|?] & ? & ? & ?)]]; eauto 10.
      rewrite Hno in Hj by done. by destruct Hj.
Qed.

(** ** The rows of the merge *)
Lemma runs_lookup j l rs i k a b :
  runs_from j l rs → (i < k)%nat → rs !! i = Some a → rs !! k = Some b → xe a + 2 <= xs b.
Proof.
  revert l i k; induction rs as [|r rs IH]; intros l i k; [done|].
  intros (? & ? & ? & Hrest) Hik Ha Hb. destruct k as [|k]; [lia|]. simpl in Hb.
  destruct i as [|i]; simpl in Ha; [|by apply (IH _ i k Hrest); [lia|..]].
  injection Ha as ->. apply list_elem_of_lookup_2 in Hb.
  destruct (runs_elem _ _ _ _ Hrest Hb). lia.
Qed.

Lemma joined_runs a b : good a → good b → ys a = ys b → ye a = ys a → ye b = ys b →
  xe a + 2 <= xs b → joined b a = None.
Proof.
  unfold good, joined, adjacent, apart. intros.
  rewrite bool_decide_eq_true_2 by (unfold apart; lia). rewrite !u64_small by lia.
  case_bool; try lia; done.
Qed.

(** A run joins only the rectangle that ends just above it and has its columns. *)
Lemma joined_above cr p m :
  good cr → good p → ye cr = ys cr → ye p < ys cr → joined cr p = Some m →
  ye p + 1 = ys cr ∧ xs p = xs cr ∧ xe p = xe cr
  ∧ m = mk_range (mk_coord (xs cr) (ys p)) (mk_coord (xe cr) (ys cr)).
Proof.
  unfold good, joined, adjacent. intros Hc Hp Hrow Hab.
  rewrite bool_decide_eq_true_2 by (unfold apart; lia). rewrite !u64_small by lia. simpl.
  case_bool; try lia; try done; intros [= <-]; split_and!; try lia; repeat f_equal; lia.
Qed.

Record row_inv (rs0 : list CoreRange) (j : Z) (crs : list CoreRange) : Prop := mk_row_inv {
  ri_set : is_set crs;
  ri_good : ∀ r, r ∈ crs → good r;
  ri_above : ∀ r, r ∈ crs → ye r < j;
  ri_cells : ∀ i k, covered crs i k ↔ covered rs0 i k ∧ k < j;
  ri_apart : ∀ a b, a ∈ crs → b ∈ crs → a ≠ b → apart a b
}.

Section row.
Context (rs0 crs runs : list CoreRange) (j lo : Z).
Context (HI : row_inv rs0 j crs) (Hruns : runs_from j lo runs).
Context (Hgood : ∀ r, r ∈ runs → good r).
Context (Hcells : ∀ i, covered rs0 i j ↔ ∃ r, r ∈ runs ∧ xs r <= i <= xe r).

Lemma runs_row r : r ∈ runs → ys r = j ∧ ye r = j.
Proof. intros Hr. by destruct (runs_elem _ _ _ _ Hruns Hr) as (? & ? & _). Qed.

Lemma runs_apart a b : a ∈ runs → b ∈ runs → a ≠ b → apart a b.
Proof.
  intros [i Hi]%list_elem_of_lookup [k Hk]%list_elem_of_lookup Hne. unfold apart.
  destruct (Nat.lt_trichotomy i k) as [Hlt'|[->|Hlt']]; [|congruence|].
  - pose proof (runs_lookup _ _ _ _ _ _ _ Hruns Hlt' Hi Hk). lia.
  - pose proof (runs_lookup _ _ _ _ _ _ _ Hruns Hlt' Hk Hi). lia.
Qed.

(** [m] is the run [cr] with the rectangle [p] above it. *)
Definition stacked (cr p m : CoreRange) : Prop :=
  cr ∈ runs ∧ p ∈ crs ∧ joined cr p = Some m.

Lemma stacked_spec cr p m :
  stacked cr p m →
  good cr ∧ good p ∧ ys cr = j ∧ ye cr = j ∧ ye p + 1 = j ∧ xs p = xs cr ∧ xe p = xe cr
  ∧ m = mk_range (mk_coord (xs cr) (ys p)) (mk_coord (xe cr) j).
Proof.
  intros (Hcr & Hp & Hj). destruct (runs_row cr Hcr) as [Hys Hye].
  pose proof (ri_above _ _ _ HI p Hp). pose proof (Hgood _ Hcr). pose proof (ri_good _ _ _ HI _ Hp).
  destruct (joined_above cr p m) as (? & ? & ? & ->); try done; try lia.
  rewrite Hys in *. by split_and!.
Qed.

(** A rectangle is joined with at most one run and a run with at most one rectangle. *)
Lemma stacked_inj cr p m cr' p' m' :
  stacked cr p m → stacked cr' p' m' → p = p' ∨ cr = cr' → m = m'.
Proof.
  intros Hs Hs' Heq. pose proof (stacked_spec _ _ _ Hs) as (Hg & Hgp & ? & ? & ? & ? & ? & ->).
  pose proof (stacked_spec _ _ _ Hs') as (Hg' & Hgp' & ? & ? & ? & ? & ? & ->).
  destruct Hs as (Hcr & Hp & _), Hs' as (Hcr' & Hp' & _). unfold good in *.
  destruct (decide (p = p')) as [->|Hpp].
  - destruct (decide (cr = cr')) as [->|Hcc]; [done|].
    destruct (runs_apart cr cr'); [done..|lia|lia].
  - destruct Heq as [->| ->]; [done|].
    destruct (ri_apart _ _ _ HI p p'); [done..|lia|lia].
Qed.

(** The ranges after the row: what was not joined, and the joined ones. *)
Definition next_row (out : list CoreRange) : Prop :=
  ∀ r, r ∈ out ↔
    (r ∈ crs ∧ ¬ ∃ cr m, stacked cr r m) ∨ (r ∈ runs ∧ ¬ ∃ p m, stacked r p m)
    ∨ ∃ cr p, stacked cr p r.

Lemma next_row_good out r : next_row out → r ∈ out → good r ∧ ye r <= j.
Proof.
  intros Hout [[Hr _]|[[Hr _]|(cr & p & Hs)]]%Hout.
  - pose proof (ri_above _ _ _ HI _ Hr). split; [by apply HI|lia].
  - destruct (runs_row r Hr). split; [auto|lia].
  - destruct (stacked_spec _ _ _ Hs) as (Hg & Hgp & ? & ? & ? & ? & ? & ->).
    unfold good in *. simpl. lia.
Qed.

Lemma next_row_cells out i k : next_row out → covered out i k ↔ covered rs0 i k ∧ k < j + 1.
Proof.
  intros Hout. assert (Hsplit : covered out i k ↔ covered crs i k ∨ covered runs i k).
  { unfold covered. split.
    - intros (r & [[Hr _]|[[Hr _]|(cr & p & Hs)]]%Hout & Hc); [by eauto..|].
      pose proof Hs as (Hcr & Hp & _).
      destruct (stacked_spec _ _ _ Hs) as (Hg & Hgp & ? & ? & ? & ? & ? & ->).
      unfold cell in *. simpl in Hc. destruct (decide (k = j)) as [->|].
      + right. exists cr. split; [done|lia].
      + left. exists p. split; [done|lia].
    - intros [(r & Hr & Hc)|(r & Hr & Hc)].
      + destruct (decide (Exists (λ cr, is_Some (joined cr r)) runs)) as [Hex|Hno].
        * apply Exists_exists in Hex as (cr & Hcr & m & Hm). exists m. split.
          { apply Hout. right; right. by exists cr, r. }
          assert (Hs : stacked cr r m) by done.
          destruct (stacked_spec _ _ _ Hs) as (? & ? & ? & ? & ? & ? & ? & ->).
          unfold cell in *. simpl. lia.
        * exists r. split; [|done]. apply Hout. left. split; [done|].
          intros (cr & m & Hcr & _ & Hm). apply Hno, Exists_exists. eauto.
      + destruct (decide (Exists (λ p, is_Some (joined r p)) crs)) as [Hex|Hno].
        * apply Exists_exists in Hex as (p & Hp & m & Hm). exists m. split.
          { apply Hout. right; right. by exists r, p. }
          assert (Hs : stacked r p m) by done.
          destruct (stacked_spec _ _ _ Hs) as (Hg & Hgp & ? & ? & ? & ? & ? & ->).
          unfold cell, good in *. simpl. lia.
        * exists r. split; [|done]. apply Hout. right; left. split; [done|].
          intros (p & m & _ & Hp & Hm). apply Hno, Exists_exists. eauto. }
  rewrite Hsplit, (ri_cells _ _ _ HI).
  assert (Hrow : covered runs i k ↔ covered rs0 i k ∧ k = j).
  { split.
    - intros (r & Hr & Hc). destruct (runs_row r Hr). unfold cell in Hc.
      assert (k = j) as -> by lia. split; [|done]. apply Hcells. exists r. split; [done|lia].
    - intros [Hc ->]. apply Hcells in Hc as (r & Hr & Hi). destruct (runs_row r Hr).
      exists r. split; [done|]. unfold cell. lia. }
  rewrite Hrow. split; [intros [[? ?]|[? ?]]; split; try done; lia|].
  intros [? ?]. destruct (decide (k = j)); [by right|left; split; [done|lia]].
Qed.

Lemma next_row_apart out a b : next_row out → a ∈ out → b ∈ out → a ≠ b → apart a b.
Proof.
  intros Hout Ha%Hout Hb%Hout Hne.
  assert (Hrr : ∀ p r, p ∈ crs → r ∈ runs → apart p r).
  { intros p r Hp Hr. destruct (runs_row r Hr). pose proof (ri_above _ _ _ HI _ Hp). unfold apart. lia. }
  assert (Hstack : ∀ cr p m c, stacked cr p m → apart p c → apart cr c → good c → apart m c).
  { intros cr p m c Hs H1 H2 Hc. destruct (stacked_spec _ _ _ Hs) as (? & ? & ? & ? & ? & ? & ? & ->).
    unfold apart, good in *. simpl. lia. }
  assert (Hsym : ∀ c d, apart c d → apart d c) by (unfold apart; intros; lia).
  assert (Hold : ∀ cr p m c, stacked cr p m → c ∈ crs → ¬ (∃ cr m, stacked cr c m) → apart m c).
  { intros cr p m c Hs Hc Hno. pose proof Hs as (Hcr & Hp & _).
    apply (Hstack cr p m c Hs); [|by apply Hsym, Hrr|by apply HI].
    apply HI; [done..|]. intros ->. apply Hno. eauto. }
  assert (Hrun : ∀ cr p m c, stacked cr p m → c ∈ runs → ¬ (∃ p m, stacked c p m) → apart m c).
  { intros cr p m c Hs Hc Hno. pose proof Hs as (Hcr & Hp & _).
    apply (Hstack cr p m c Hs); [by apply Hrr| |by apply Hgood].
    apply runs_apart; [done..|]. intros ->. apply Hno. eauto. }
  destruct Ha as [[Ha Hna]|[[Ha Hna]|(cr & p & Ha)]], Hb as [[Hb Hnb]|[[Hb Hnb]|(cr' & p' & Hb)]];
    eauto using runs_apart.
  - by apply HI.
  - pose proof Ha as (Hcr & Hp & _). pose proof Hb as (Hcr' & Hp' & _).
    apply (Hstack cr p a b Ha); [| |apply (next_row_good out); [done|apply Hout; eauto]].
    + apply Hsym. apply (Hstack cr' p' b p Hb); [|by apply Hsym, Hrr|by apply HI].
      apply HI; [done..|]. intros ->. apply Hne. by apply (stacked_inj cr p a cr' p b); auto.
    + apply Hsym. apply (Hstack cr' p' b cr Hb); [by apply Hrr| |by apply Hgood].
      apply runs_apart; [done..|]. intros ->. apply Hne. by apply (stacked_inj cr p a cr p' b); auto.
Qed.

Lemma next_row_inv out : next_row out → is_set out → row_inv rs0 (j + 1) out.
Proof.
  intros Hout Hs. split; [done|..].
  - intros r Hr. by apply (next_row_good out r).
  - intros r Hr. destruct (next_row_good out r Hout Hr). lia.
  - intros i k. by apply next_row_cells.
  - intros a b. by apply next_row_apart.
Qed.
End row.

(** ** The whole merge *)
Section rows.
Context (rs0 : list CoreRange) (min_x max_x max_y : Z).
Context (Hb : 0 <= min_x ∧ 0 <= max_x < 2147483648 ∧ 0 <= max_y < 2147483648 ∧ min_x <= max_x).
Context (Hrs : ∀ r, r ∈ rs0 → good r ∧ min_x <= xs r ∧ xe r <= max_x ∧ ye r <= max_y).

Lemma merge_rows_spec fuel j crs :
  row_inv rs0 j crs → 0 <= j <= max_y + 1 → max_y + 1 - j <= Z.of_nat fuel →
  ∃ out, merge_rows coord_lt fuel (fill_grid rs0) j min_x max_x max_y crs = Ok out
    ∧ row_inv rs0 (max_y + 1) out.
Proof.
  revert j crs; induction fuel as [|fuel IH]; intros j crs HI Hj Hf.
  all: cbn [merge_rows]; destruct (Z.leb_spec j max_y); try lia.
  all: try (exists crs; split; [done|]; by replace (max_y + 1) with j by lia).
  rewrite (u32_small min_x) by lia.
  assert (Hgrid : ∀ i, max_x < i → grid_at (fill_grid rs0) j i = false).
  { intros i Hi. apply not_true_iff_false. rewrite grid_at_spec. intros (r & Hr & Hc).
    destruct (Hrs r Hr). unfold cell in Hc. lia. }
  destruct (row_ranges_spec (fill_grid rs0) j max_x ltac:(lia) Hgrid (Z.to_nat (max_x + 3)) min_x)
    as (runs & -> & Hruns & Hxe & Hcells); [lia..|]. cbn [mbind outcome_bind].
  assert (Hgood : ∀ r, r ∈ runs → good r).
  { intros r Hr. destruct (runs_elem _ _ _ _ Hruns Hr) as (? & ? & ?). pose proof (Hxe r Hr).
    unfold good. lia. }
  assert (Hcells' : ∀ i, covered rs0 i j ↔ ∃ r, r ∈ runs ∧ xs r <= i <= xe r).
  { intros i. rewrite <- grid_at_spec. destruct (Z.le_gt_cases min_x i); [by apply Hcells|].
    split.
    - rewrite grid_at_spec. intros (r & Hr & Hc). destruct (Hrs r Hr). unfold cell in Hc. lia.
    - intros (r & Hr & Hi). destruct (runs_elem _ _ _ _ Hruns Hr) as (? & ? & ?). lia. }
  destruct (merge_row_spec runs crs [] []) as (crs' & new & filt & -> & Hs' & Hc' & Hn' & Hf').
  - by apply Forall_forall.
  - apply Forall_forall, HI.
  - apply HI.
  - intros i k a b Hik Ha Hbb. pose proof (runs_lookup _ _ _ _ _ _ _ Hruns Hik Ha Hbb).
    apply list_elem_of_lookup_2 in Ha, Hbb.
    destruct (runs_elem _ _ _ _ Hruns Ha) as (? & ? & ?), (runs_elem _ _ _ _ Hruns Hbb) as (? & ? & ?).
    apply joined_runs; auto; lia.
  - cbn [mbind outcome_bind]. rewrite u32_small by lia. apply IH; [|lia|lia].
    apply (next_row_inv rs0 crs runs j min_x HI Hruns Hgood Hcells').
    + intros r. rewrite elem_of_set_insert_all, elem_of_set_difference, Hc', Hn', Hf'.
      setoid_rewrite elem_of_nil. unfold stacked. split.
      * intros [[?|(cr & p & ? & ? & ?)]|[[Hr|Hr] Hnf]].
        -- done.
        -- right; right. by exists cr, p.
        -- left. split; [done|]. intros (cr & m & ? & ? & Hm). apply Hnf. right.
           exists cr, r. split_and!; eauto.
        -- right; left. split; [done|]. intros (p & m & ? & ? & Hm). apply Hnf. right.
           exists r, p. split_and!; eauto.
      * intros [[Hr Hno]|[[Hr Hno]|(cr & p & ? & ? & ?)]].
        -- right. split; [by left|]. intros [?|(cr & p & Hcr & Hp & [m Hm] & [->| ->])]; [done|..].
           ++ apply Hno. by exists cr, m.
           ++ destruct (runs_elem _ _ _ _ Hruns Hcr) as (? & ? & ?).
              pose proof (ri_above _ _ _ HI _ Hr). lia.
        -- right. split; [by right|]. intros [?|(cr & p & Hcr & Hp & [m Hm] & [->| ->])]; [done|..].
           ++ destruct (runs_elem _ _ _ _ Hruns Hr) as (? & ? & ?).
              pose proof (ri_above _ _ _ HI _ Hp). lia.
           ++ apply Hno. by exists p, m.
        -- left. right. by exists cr, p.
    + apply set_insert_all_is_set, set_difference_is_set. exact Hs'.
Qed.
End rows.

Lemma extremes_fold rs a b c d :
  let '(a', b', c', d') := foldl (λ '(min_x, max_x, min_y, max_y) cr,
    (Z.min min_x (xs cr), Z.max max_x (xe cr), Z.min min_y (ys cr), Z.max max_y (ye cr)))
    (a, b, c, d) rs in
  (a' <= a ∧ b <= b' ∧ c' <= c ∧ d <= d')
  ∧ (∀ r, r ∈ rs → a' <= xs r ∧ xe r <= b' ∧ c' <= ys r ∧ ye r <= d')
  ∧ (Forall good rs → 0 <= a → 0 <= c → b < 2147483648 → d < 2147483648 →
     0 <= a' ∧ 0 <= c' ∧ b' < 2147483648 ∧ d' < 2147483648).
Proof.
  revert a b c d; induction rs as [|r rs IH]; intros a b c d; simpl.
  { split_and!; try lia; [by intros ? ?%elem_of_nil]. }
  specialize (IH (Z.min a (xs r)) (Z.max b (xe r)) (Z.min c (ys r)) (Z.max d (ye r))).
  destruct (foldl _ _ rs) as [[[a' b'] c'] d']. destruct IH as (H1 & H2 & H3). split_and!; try lia.
  - intros r' [->|Hr]%elem_of_cons; [lia|by apply H2].
  - intros [Hr Hrs]%Forall_cons ????. unfold good in Hr. apply H3; [done|lia..].
Qed.

Lemma CoreRangeSet_make_ok rs :
  NoDup rs → (∀ a b, a ∈ rs → b ∈ rs → a ≠ b → apart a b) → CoreRangeSet_make rs = Ok rs.
Proof.
  intros Hnd Hap. unfold CoreRangeSet_make.
  assert (Hall : forallb (λ p, forallb (λ q, (p.1 =? q.1)%nat || no_overlap p.2 q.2)
      (imap (λ i r, (i, r)) rs)) (imap (λ i r, (i, r)) rs) = true); [|by rewrite Hall].
  apply forallb_forall. intros [i a] Ha. apply forallb_forall. intros [k b] Hb. simpl.
  apply list_elem_of_In in Ha, Hb.
  apply list_elem_of_lookup in Ha as [i' Ha], Hb as [k' Hb].
  rewrite list_lookup_imap in Ha, Hb.
  destruct (rs !! i') as [a'|] eqn:Ha'; [|done]. destruct (rs !! k') as [b'|] eqn:Hb'; [|done].
  simplify_eq/=. destruct (Nat.eqb_spec i k) as [->|Hik]; [done|]. simpl.
  apply no_overlap_spec, Hap; [by eapply list_elem_of_lookup_2..|].
  intros ->. apply Hik. by eapply NoDup_lookup.
Qed.

Lemma run_merge a b :
  is_set a → Forall good a → Forall good b →
  ∃ m, merge coord_lt a b = Ok m ∧ is_set m ∧ Forall good m
    ∧ (∀ i j, covered m i j ↔ covered a i j ∨ covered b i j)
    ∧ (∀ r r', r ∈ m → r' ∈ m → r ≠ r' → apart r r').
Proof.
  intros Hset Ha Hb. unfold merge. set (rs0 := set_insert_all coord_lt b a).
  assert (Hrs0 : Forall good rs0).
  { apply Forall_forall. intros r [Hr|Hr]%elem_of_set_insert_all; [|by rewrite Forall_forall in Ha; auto].
    rewrite Forall_forall in Hb. auto. }
  assert (Hcov : ∀ i j, covered rs0 i j ↔ covered a i j ∨ covered b i j).
  { intros i j. unfold covered, rs0. setoid_rewrite elem_of_set_insert_all. naive_solver. }
  setoid_rewrite <- Hcov. clearbody rs0. unfold extremes.
  pose proof (extremes_fold rs0 (2 ^ 64 - 1) 0 (2 ^ 64 - 1) 0) as Hext.
  destruct rs0 as [|r0 rs'] eqn:Hrs.
  { exists []. split; [by vm_compute|]. split_and!; try done; [constructor|by intros ?? ?%elem_of_nil]. }
  rewrite <- Hrs in *. assert (Hr0 : r0 ∈ rs0) by (rewrite Hrs; by left).
  destruct (foldl _ _ rs0) as [[[min_x max_x] min_y] max_y]. destruct Hext as (_ & Hbd & Hpos).
  specialize (Hpos Hrs0). change (2 ^ 64 - 1) with 18446744073709551615 in Hpos.
  destruct Hpos as (? & ? & ? & ?); [lia..|].
  pose proof (Hbd _ Hr0) as (? & ? & ? & ?). rewrite Forall_forall in Hrs0.
  pose proof (Hrs0 _ Hr0) as Hg0. unfold good in Hg0. change (2 ^ 31) with 2147483648 in Hg0.
  rewrite (u32_small min_y) by lia.
  destruct (merge_rows_spec rs0 min_x max_x max_y) with (fuel := Z.to_nat (max_y + 2)) (j := min_y)
    (crs := @nil CoreRange) as (out & -> & HI).
  - lia.
  - intros r Hr. pose proof (Hbd r Hr). split; [auto|lia].
  - split; [constructor|by intros ? ?%elem_of_nil|by intros ? ?%elem_of_nil| |by intros ?? ?%elem_of_nil].
    intros i k. split; [by intros (? & ?%elem_of_nil & _)|].
    intros [(r & Hr & Hc) Hk]. pose proof (Hbd r Hr). unfold cell in Hc. lia.
  - lia.
  - lia.
  - cbn [mbind outcome_bind]. exists out. rewrite CoreRangeSet_make_ok;
      [|by apply is_set_NoDup, HI|apply HI].
    split_and!; [done|apply HI|apply Forall_forall, HI| |apply HI].
    intros i j. rewrite (ri_cells _ _ _ HI). split; [by intros [? _]|]. intros Hc. split; [done|].
    destruct Hc as (r & Hr & Hc). pose proof (Hbd r Hr). unfold cell in Hc. lia.
Qed.

End sets.

(** ** Enumerations *)
Lemma range_u32_nil lo hi : hi <= lo → range_u32 lo hi = [].
Proof. intros. unfold range_u32. by apply seqZ_nil; lia. Qed.

Lemma range_u32_cons lo hi : lo < hi → range_u32 lo hi = lo :: range_u32 (lo + 1) hi.
Proof.
  intros. unfold range_u32. rewrite seqZ_cons by lia. f_equal. f_equal; lia.
Qed.

Lemma length_range_u32 lo hi : lo <= hi → Z.of_nat (length (range_u32 lo hi)) = hi - lo.
Proof. intros. unfold range_u32. rewrite length_seqZ. lia. Qed.

Lemma NoDup_range_u32 lo hi : NoDup (range_u32 lo hi).
Proof. apply NoDup_seqZ. Qed.

(** A nested pair of loops visits each pair once. *)
Lemma nested_NoDup (f : Z → Z → CoreCoord) (ls ks : list Z) :
  NoDup ls → NoDup ks → (∀ a b a' b', f a b = f a' b' → a = a' ∧ b = b') →
  NoDup (a ← ls; f a <$> ks).
Proof.
  intros Hls Hks Hinj. induction Hls as [|a ls Ha Hls IH]; [constructor|]. simpl.
  apply NoDup_app. split_and!; [|intros c Hc Hc'|exact IH].
  - apply NoDup_fmap_2; [|done]. intros b b' Hf. by apply Hinj in Hf as [_ ->].
  - apply list_elem_of_fmap in Hc as (b & -> & Hb).
    apply list_elem_of_bind in Hc' as (a' & Hc' & Ha').
    apply list_elem_of_fmap in Hc' as (b' & Heq & _). apply Hinj in Heq as [-> _]. done.
Qed.

Lemma nested_length (f : Z → Z → CoreCoord) (ls ks : list Z) :
  length (a ← ls; f a <$> ks) = (length ls * length ks)%nat.
Proof.
  induction ls as [|a ls IH]; [done|]. rewrite bind_cons, length_app, length_fmap, IH. done.
Qed.

Lemma grid_to_cores_spec r rw :
  good r →
  NoDup (grid_to_cores (start_coord r) (end_coord r) rw)
  ∧ (∀ c, c ∈ grid_to_cores (start_coord r) (end_coord r) rw ↔ cell r (x c) (y c))
  ∧ Z.of_nat (length (grid_to_cores (start_coord r) (end_coord r) rw)) = range_size r.
Proof.
  unfold good, cell, grid_to_cores, range_size. change (2 ^ 31) with 2147483648. intros Hg.
  split_and!.
  - destruct rw; (apply nested_NoDup; [apply NoDup_range_u32..|]);
      intros ???? [= -> ->]; done.
  - intros [i j]. simpl. destruct rw; rewrite list_elem_of_bind; split.
    + intros (j' & (i' & [= -> ->] & Hi%elem_of_range_u32)%list_elem_of_fmap & Hj%elem_of_range_u32). lia.
    + intros Hij. exists j. rewrite list_elem_of_fmap, elem_of_range_u32. split; [|lia].
      exists i. rewrite elem_of_range_u32. split; [done|lia].
    + intros (i' & (j' & [= -> ->] & Hj%elem_of_range_u32)%list_elem_of_fmap & Hi%elem_of_range_u32). lia.
    + intros Hij. exists i. rewrite list_elem_of_fmap, elem_of_range_u32. split; [|lia].
      exists j. rewrite elem_of_range_u32. split; [done|lia].
  - rewrite (u64_small (xe r - xs r + 1)), (u64_small (ye r - ys r + 1)) by lia.
    rewrite u64_small by nia.
    destruct rw; rewrite nested_length, Nat2Z.inj_mul, !length_range_u32 by lia; lia.
Qed.

(** The rows from [j] on, and the rest of row [j] from column [i] on. *)
Definition rows_from (r : CoreRange) (j : Z) : list CoreCoord :=
  j' ← range_u32 j (ye r + 1); (λ i, mk_coord i j') <$> range_u32 (xs r) (xe r + 1).
Definition rest_from (r : CoreRange) (i j : Z) : list CoreCoord :=
  ((λ i, mk_coord i j) <$> range_u32 i (xe r + 1)) ++ rows_from r (j + 1).

Lemma rows_from_unfold r j :
  rows_from r j = if j <=? ye r then rest_from r (xs r) j else [].
Proof.
  unfold rest_from, rows_from. destruct (Z.leb_spec j (ye r)).
  - rewrite (range_u32_cons j) by lia. done.
  - by rewrite (range_u32_nil j) by lia.
Qed.

Lemma rest_from_step r i j :
  good r → xs r <= i <= xe r → ys r <= j <= ye r →
  rest_from r i j = mk_coord i j ::
    (if i =? xe r then rows_from r (j + 1) else rest_from r (i + 1) j).
Proof.
  intros Hg Hi Hj. unfold rest_from. rewrite range_u32_cons by lia. simpl. f_equal.
  destruct (Z.eqb_spec i (xe r)) as [->|]; [|done]. by rewrite range_u32_nil by lia.
Qed.

Lemma iter_range_spec r fuel i j :
  good r → xs r <= i <= xe r → ys r <= j <= ye r → (length (rest_from r i j) ≤ fuel)%nat →
  iter_range fuel r (mk_coord i j) = Ok (rest_from r i j).
Proof.
  intros Hg. pose proof Hg as Hg'. unfold good in Hg'. change (2 ^ 31) with 2147483648 in Hg'.
  revert i j; induction fuel as [|fuel IH]; intros i j Hi Hj; rewrite rest_from_step by done;
    [simpl; lia|]. intros Hlen. simpl in Hlen.
  cbn [iter_range]. rewrite bool_decide_eq_false_2
    by (unfold range_end; rewrite u64_small by lia; intros [= _ ?]; lia).
  unfold iter_step. simpl. rewrite !u64_small by lia.
  destruct (Z.eqb_spec i (xe r)) as [->|].
  - rewrite rows_from_unfold in Hlen |- *. destruct (Z.leb_spec (j + 1) (ye r)).
    + by rewrite IH by (lia || done).
    + destruct fuel; cbn [iter_range];
        (rewrite bool_decide_eq_true_2; [done|]);
        unfold range_end; rewrite u64_small by lia; f_equal; lia.
  - by rewrite IH by (lia || done).
Qed.

(** [corerange_to_cores] without a bound. *)
Definition all_cores (crs : list CoreRange) (rw : bool) : list CoreCoord :=
  cr ← crs; grid_to_cores (start_coord cr) (end_coord cr) rw.

Lemma corerange_to_cores_none crs rw : corerange_to_cores crs None rw = all_cores crs rw.
Proof.
  unfold corerange_to_cores, all_cores.
  assert (Hgen : ∀ acc, foldl (λ all_cores core_range,
      all_cores ++ grid_to_cores (start_coord core_range) (end_coord core_range) rw) acc crs
    = acc ++ (cr ← crs; grid_to_cores (start_coord cr) (end_coord cr) rw)).
  { induction crs as [|cr crs IH]; intros acc; simpl; [by rewrite app_nil_r|].
    by rewrite IH, <- (assoc app). }
  apply (Hgen []).
Qed.

Lemma corerange_to_cores_some crs n rw :
  in_range 32 n → corerange_to_cores crs (Some n) rw = take (Z.to_nat n) (all_cores crs rw).
Proof.
  unfold in_range. change (2 ^ 32) with 4294967296. intros Hn.
  unfold corerange_to_cores, all_cores.
  assert (Hgen : ∀ acc, (length acc ≤ Z.to_nat n)%nat → foldl (λ all_cores core_range,
      let cores := grid_to_cores (start_coord core_range) (end_coord core_range) rw in
      if n <? Z.of_nat (length all_cores + length cores)
      then all_cores ++ take (Z.to_nat (u32 (n - Z.of_nat (length all_cores)))) cores
      else all_cores ++ cores) acc crs
    = take (Z.to_nat n) (acc ++ (cr ← crs; grid_to_cores (start_coord cr) (end_coord cr) rw))).
  { induction crs as [|cr crs IH]; intros acc Hacc.
    - simpl. rewrite app_nil_r. by rewrite take_ge by lia.
    - cbn [foldl mbind list_bind].
      set (cores := grid_to_cores (start_coord cr) (end_coord cr) rw).
      destruct (Z.ltb_spec n (Z.of_nat (length acc + length cores))); cbv zeta.
      + rewrite u32_small by lia.
        rewrite IH by (rewrite length_app, length_take; lia).
        rewrite <- (assoc app), !take_app, take_take, length_take. f_equal.
        replace (Z.to_nat n - length acc - (Z.to_nat (n - Z.of_nat (length acc)) `min` length cores))%nat
          with 0%nat by lia.
        replace (Z.to_nat n - length acc - length cores)%nat with 0%nat by lia.
        rewrite !take_0, !app_nil_r. f_equal. lia.
      + rewrite IH by (rewrite length_app; lia). by rewrite <- (assoc app). }
  apply (Hgen []). simpl. lia.
Qed.

Lemma core_coord_in_core_ranges_spec rs c :
  core_coord_in_core_ranges rs c = true ↔ covered rs (x c) (y c).
Proof.
  unfold core_coord_in_core_ranges, covered. rewrite existsb_exists.
  split; intros (r & Hr & Hc); exists r; (split; [by apply list_elem_of_In|]); by apply contains_coord_spec.
Qed.

(** ** Properties *)

(** C37: [merge] never throws: it returns ranges, in the order of the set, that
    contain exactly the cores of the two arguments and of which no two share
    a core. *)
Theorem merge_correct (coord_lt : CoreCoord → CoreCoord → bool) (a b : list CoreRange) :
  coord_order coord_lt →
  Sorted.StronglySorted (λ r r', range_lt coord_lt r r' = true) a → Forall good a → Forall good b →
  ∃ m, merge coord_lt a b = Ok m
    ∧ (∀ c, core_coord_in_core_ranges m c = core_coord_in_core_ranges a c || core_coord_in_core_ranges b c)
    ∧ Sorted.StronglySorted (λ r r', range_lt coord_lt r r' = true) m
    ∧ (∀ r r', r ∈ m → r' ∈ m → r ≠ r' → no_overlap r r' = true).
Proof.
  intros Hlt Hset Ha Hb. destruct (run_merge coord_lt Hlt a b Hset Ha Hb) as (m & -> & Hm & Hg & Hc & Hap).
  exists m. split_and!; try done.
  - intros c. apply eq_true_iff_eq.
    rewrite orb_true_iff, !core_coord_in_core_ranges_spec. apply Hc.
  - intros r r' Hr Hr' Hne. by apply no_overlap_spec, Hap.
Qed.

(** The order of pairs. *)
Definition pair_lt (a b : CoreCoord) : bool := (x a <? x b) || ((x a =? x b) && (y a <? y b)).

Lemma pair_lt_order : coord_order pair_lt.
Proof.
  split; unfold pair_lt.
  - intros [a b]; simpl. lia.
  - intros [a b] [c d] [e f]; simpl. lia.
  - intros [a b] [c d] H1 H2; simpl in *. f_equal; lia.
Qed.

Definition sample_a : list CoreRange := [mk_range (mk_coord 0 0) (mk_coord 2 1)].
Definition sample_b : list CoreRange := [mk_range (mk_coord 1 1) (mk_coord 3 2); mk_range (mk_coord 5 0) (mk_coord 5 0)].

Example merge_sample : merge pair_lt sample_a sample_b =
  Ok [mk_range (mk_coord 0 0) (mk_coord 2 0); mk_range (mk_coord 0 1) (mk_coord 3 1);
      mk_range (mk_coord 1 2) (mk_coord 3 2); mk_range (mk_coord 5 0) (mk_coord 5 0)].
Proof. vm_compute. reflexivity. Qed.


Lemma merge_correct_witness :
  ∃ m, merge pair_lt sample_a sample_b = Ok m
    ∧ (∀ c, core_coord_in_core_ranges m c
        = core_coord_in_core_ranges sample_a c || core_coord_in_core_ranges sample_b c)
    ∧ Sorted.StronglySorted (λ r r', range_lt pair_lt r r' = true) m
    ∧ (∀ r r', r ∈ m → r' ∈ m → r ≠ r' → no_overlap r r' = true).
Proof.
  apply (merge_correct pair_lt sample_a sample_b).
  - exact pair_lt_order.
  - unfold sample_a. repeat constructor.
  - unfold sample_a, good. repeat constructor; simpl; lia.
  - unfold sample_b, good. repeat constructor; simpl; lia.
Defined.

(** C38: [intersects] is the common rectangle and [merge] of two ranges, where it
    answers, the union; neither trips the constructor's assertion.  Two
    ranges that share no core and whose union is a rectangle do merge. *)
Theorem range_operations (a b : CoreRange) :
  good a → good b →
  (∃ o, intersects a b = Ok o ∧
    ∀ c, (contains_coord a c && contains_coord b c)
      = match o with Some i => contains_coord i c | None => false end)
  ∧ (∃ o, merge_ranges a b = Ok o ∧
    (∀ m c, o = Some m → contains_coord m c = contains_coord a c || contains_coord b c)
    ∧ (∀ u, good u → no_overlap a b = true →
        (∀ c, contains_coord u c = contains_coord a c || contains_coord b c) → o = Some u)).
Proof.
  intros Ha Hb. split.
  - rewrite intersects_spec by done. eexists. split; [done|]. intros c. apply eq_true_iff_eq.
    rewrite andb_true_iff, !contains_coord_spec. destruct (decide (apart a b)) as [Hap|Hap].
    + split; [|done]. intros Hc. apply apart_spec in Hap; [|done..]. destruct Hap. by exists (x c), (y c).
    + rewrite contains_coord_spec. unfold cell. simpl. lia.
  - rewrite merge_ranges_joined by done. exists (joined a b). split; [done|]. split.
    + intros m c Hm. apply eq_true_iff_eq. rewrite orb_true_iff, !contains_coord_spec.
      by apply (joined_cells a b m).
    + intros u Hu Hap%no_overlap_spec Hc. apply joined_complete; [done..|]. intros i j.
      specialize (Hc (mk_coord i j)). apply eq_iff_eq_true in Hc.
      by rewrite orb_true_iff, !contains_coord_spec in Hc.
Qed.

Lemma range_operations_witness :
  merge_ranges (mk_range (mk_coord 0 0) (mk_coord 1 1)) (mk_range (mk_coord 2 0) (mk_coord 4 1))
    = Ok (Some (mk_range (mk_coord 0 0) (mk_coord 4 1))).
Proof.
  destruct (range_operations (mk_range (mk_coord 0 0) (mk_coord 1 1)) (mk_range (mk_coord 2 0) (mk_coord 4 1)))
    as [_ (o & Ho & _ & Hu)]; [unfold good; simpl; lia..|].
  rewrite Ho, (Hu (mk_range (mk_coord 0 0) (mk_coord 4 1))); [done|unfold good; simpl; lia|done|].
  intros [i j]. apply eq_true_iff_eq. rewrite orb_true_iff, !contains_coord_spec. unfold cell. simpl. lia.
Defined.

(** Iterating over a range visits its cores row by row, each once, and stops;
    [size] is how many they are. *)
Theorem iteration_visits (r : CoreRange) :
  good r →
  ∃ cs, cores_of_range r = Ok cs
    ∧ cs = grid_to_cores (start_coord r) (end_coord r) true
    ∧ NoDup cs
    ∧ (∀ c, c ∈ cs ↔ contains_coord r c = true)
    ∧ Z.of_nat (length cs) = range_size r.
Proof.
  intros Hg. pose proof (grid_to_cores_spec r true Hg) as (Hnd & Hin & Hlen).
  assert (Hrest : rest_from r (xs r) (ys r) = grid_to_cores (start_coord r) (end_coord r) true).
  { pose proof (rows_from_unfold r (ys r)) as Hr. unfold good in Hg.
    rewrite (proj2 (Z.leb_le _ _)) in Hr by lia. by rewrite <- Hr. }
  eexists. split_and!; [|reflexivity|exact Hnd| |exact Hlen].
  - rewrite <- Hrest. destruct r as [[a b] e]. apply iter_range_spec; [done|unfold good in Hg; simpl in *; lia..|].
    rewrite Hrest. lia.
  - intros c. rewrite contains_coord_spec. apply Hin.
Qed.

Lemma iteration_visits_witness :
  ∃ cs, cores_of_range (mk_range (mk_coord 1 1) (mk_coord 2 3)) = Ok cs ∧ length cs = 6%nat.
Proof.
  destruct (iteration_visits (mk_range (mk_coord 1 1) (mk_coord 2 3))) as (cs & H & _ & _ & _ & Hl).
  { unfold good. simpl. lia. }
  exists cs. split; [exact H|]. vm_compute range_size in Hl. lia.
Defined.

(** Ranges no two of which, at different places, share a core. *)
Definition disjoint_ranges (rs : list CoreRange) : Prop :=
  ∀ i k a b, i ≠ k → rs !! i = Some a → rs !! k = Some b → no_overlap a b = true.

Lemma all_cores_spec rs rw :
  Forall good rs → disjoint_ranges rs →
  NoDup (all_cores rs rw) ∧ (∀ c, c ∈ all_cores rs rw ↔ covered rs (x c) (y c)).
Proof.
  intros Hg Hd. split.
  - induction Hg as [|r rs Hr Hg IH]; [constructor|]. unfold all_cores. rewrite bind_cons.
    apply NoDup_app. split_and!.
    + by apply grid_to_cores_spec.
    + intros c Hc Hc'. apply grid_to_cores_spec in Hc; [|done].
      apply list_elem_of_bind in Hc' as (r' & Hc' & Hr').
      rewrite Forall_forall in Hg. apply grid_to_cores_spec in Hc'; [|by apply Hg].
      apply list_elem_of_lookup in Hr' as Hk. destruct Hk as [k Hk].
      assert (Hno : no_overlap r r' = true) by (by apply (Hd 0%nat (S k))).
      apply no_overlap_spec, apart_spec in Hno; [|done|by apply Hg]. apply Hno. by exists (x c), (y c).
    + apply IH. intros i k a b Hik Ha Hb. apply (Hd (S i) (S k)); [lia|done..].
  - intros c. unfold all_cores, covered. rewrite list_elem_of_bind. rewrite Forall_forall in Hg.
    split; intros (r & H1 & H2); exists r; (split; [|]); try done.
    all: apply grid_to_cores_spec in H1 || apply (grid_to_cores_spec r rw); auto.
Qed.

Lemma num_cores_spec rs rw : Forall good rs → num_cores rs = u32 (Z.of_nat (length (all_cores rs rw))).
Proof.
  intros Hg. unfold num_cores. assert (Hgen : ∀ n, u32 n = n →
    foldl (λ n cr, u32 (n + range_size cr)) n rs = u32 (n + Z.of_nat (length (all_cores rs rw)))); [|by apply Hgen].
  induction Hg as [|r rs Hr Hg IH]; intros n Hn; [simpl; by rewrite Z.add_0_r|].
  cbn [foldl]. rewrite IH by apply u32_u32.
  unfold all_cores at 2. rewrite bind_cons, length_app, Nat2Z.inj_add.
  destruct (grid_to_cores_spec r rw Hr) as (_ & _ & ->).
  rewrite u32_add_l. f_equal. unfold all_cores. lia.
Qed.

(** [corerange_to_cores] lists each core of a set of disjoint ranges once,
    [num_cores] of them; with a bound it lists the first so many of these. *)
Theorem corerange_to_cores_correct (crs : list CoreRange) (row_wise : bool) :
  Forall good crs → disjoint_ranges crs →
  NoDup (corerange_to_cores crs None row_wise)
  ∧ (∀ c, c ∈ corerange_to_cores crs None row_wise ↔ core_coord_in_core_ranges crs c = true)
  ∧ num_cores crs = u32 (Z.of_nat (length (corerange_to_cores crs None row_wise)))
  ∧ (∀ n, in_range 32 n → corerange_to_cores crs (Some n) row_wise
      = take (Z.to_nat n) (corerange_to_cores crs None row_wise)).
Proof.
  intros Hg Hd. rewrite corerange_to_cores_none.
  destruct (all_cores_spec crs row_wise Hg Hd) as [Hnd Hin]. split_and!; [done| | |].
  - intros c. rewrite core_coord_in_core_ranges_spec. apply Hin.
  - by apply num_cores_spec.
  - intros n Hn. by apply corerange_to_cores_some.
Qed.

Lemma corerange_to_cores_correct_witness :
  num_cores sample_b = 7
  ∧ corerange_to_cores sample_b (Some 2) false = [mk_coord 1 1; mk_coord 1 2].
Proof.
  destruct (corerange_to_cores_correct sample_b false) as (_ & _ & Hn & Ht).
  - unfold sample_b, good. repeat constructor; simpl; lia.
  - intros [|[|i]] [|[|k]] a b Hik Ha Hb; try done; simpl in *; simplify_eq; done.
  - rewrite Hn, (Ht 2) by (unfold in_range; lia). by vm_compute.
Defined.

Lemma extremes_least L R B T rs a b c d :
  L <= a → b <= R → B <= c → d <= T →
  (∀ r, r ∈ rs → L <= xs r ∧ xe r <= R ∧ B <= ys r ∧ ye r <= T) →
  let '(a', b', c', d') := foldl (λ '(min_x, max_x, min_y, max_y) cr,
    (Z.min min_x (xs cr), Z.max max_x (xe cr), Z.min min_y (ys cr), Z.max max_y (ye cr)))
    (a, b, c, d) rs in
  L <= a' ∧ b' <= R ∧ B <= c' ∧ d' <= T.
Proof.
  revert a b c d; induction rs as [|r rs IH]; intros a b c d ???? Hrs; [done|]. cbn [foldl].
  pose proof (Hrs r ltac:(by left)) as (? & ? & ? & ?).
  apply IH; [lia..|]. intros r' Hr'. apply Hrs. by right.
Qed.

(** [bounding_box] of a non-empty set is the least range that contains its
    ranges; only the empty set is refused. *)
Theorem bounding_box_least (rs : list CoreRange) :
  Forall good rs →
  (rs = [] → bounding_box rs = Err TT_FATAL)
  ∧ (rs ≠ [] → ∃ bb, bounding_box rs = Ok bb
      ∧ (∀ r, r ∈ rs → contains_range bb r = true)
      ∧ (∀ bb', good bb' → (∀ r, r ∈ rs → contains_range bb' r = true) → contains_range bb' bb = true)).
Proof.
  intros Hg. split; [by intros ->|]. intros Hne. unfold bounding_box.
  destruct rs as [|r0 rs'] eqn:Hrs; [done|]. rewrite <- Hrs in *.
  assert (Hr0 : r0 ∈ rs) by (rewrite Hrs; by left). clear Hrs Hne.
  assert (Hlen : negb (length rs =? 0)%nat = true) by (destruct rs; [by apply elem_of_nil in Hr0|done]).
  rewrite Hlen. unfold extremes. cbn [check mbind outcome_bind].
  pose proof (extremes_fold rs (2 ^ 32 - 1) 0 (2 ^ 32 - 1) 0) as Hext.
  pose proof (λ L R B T, extremes_least L R B T rs (2 ^ 32 - 1) 0 (2 ^ 32 - 1) 0) as Hleast.
  destruct (foldl _ _ rs) as [[[a b] c] d]. destruct Hext as (_ & Hbd & _).
  rewrite Forall_forall in Hg. pose proof (Hbd r0 Hr0). pose proof (Hg r0 Hr0) as Hg0. unfold good in Hg0.
  rewrite CoreRange_make_good by (simpl; lia). eexists. split_and!; [done|..].
  - intros r Hr. unfold contains_range. simpl. pose proof (Hbd r Hr). lia.
  - intros bb' Hbb Hin. unfold good in Hbb. change (2 ^ 31) with 2147483648 in Hbb.
    change (2 ^ 32 - 1) with 4294967295 in Hleast.
    assert (Hin' : ∀ r, r ∈ rs → xs bb' <= xs r ∧ xe r <= xe bb' ∧ ys bb' <= ys r ∧ ye r <= ye bb').
    { intros r Hr. specialize (Hin r Hr). unfold contains_range in Hin. lia. }
    specialize (Hleast (xs bb') (xe bb') (ys bb') (ye bb') ltac:(lia) ltac:(lia) ltac:(lia) ltac:(lia) Hin').
    unfold contains_range. simpl. lia.
Qed.

Lemma bounding_box_least_witness :
  ∃ bb, bounding_box sample_b = Ok bb ∧ (∀ r, r ∈ sample_b → contains_range bb r = true).
Proof.
  destruct (bounding_box_least sample_b) as [_ H].
  - unfold sample_b, good. repeat constructor; simpl; lia.
  - destruct H as (bb & H & Hin & _); [done|]. by exists bb.
Defined.

(** ** Counting through a grid *)
Definition snake (w : Z) (row_wise : bool) (i : Z) : CoreCoord :=
  if row_wise then mk_coord (i mod w) (i / w) else mk_coord (i / w) (i mod w).
Definition lane (row_wise : bool) (c : CoreCoord) : Z := if row_wise then x c else y c.
Definition line (row_wise : bool) (c : CoreCoord) : Z := if row_wise then y c else x c.

Lemma NoDup_snake w rw i e : 0 < w → NoDup (snake w rw <$> range_u32 i e).
Proof.
  intros Hw. apply NoDup_fmap_2_strong; [|apply NoDup_range_u32].
  intros j k _ _ Heq.
  assert (H : j / w = k / w ∧ j mod w = k mod w) by (destruct rw; injection Heq; done).
  pose proof (Z.div_mod j w ltac:(lia)). pose proof (Z.div_mod k w ltac:(lia)). destruct H as [E1 E2].
  rewrite E1, E2 in *. lia.
Qed.

Lemma elem_of_snake w h rw c :
  0 < w → c ∈ snake w rw <$> range_u32 0 (w * h) ↔ 0 <= lane rw c < w ∧ 0 <= line rw c < h.
Proof.
  intros Hw. rewrite list_elem_of_fmap. setoid_rewrite elem_of_range_u32. split.
  - intros (i & -> & Hi). pose proof (Z.mod_pos_bound i w Hw).
    assert (0 <= i / w < h) by (split; [apply Z.div_pos; lia|apply Z.div_lt_upper_bound; lia]).
    destruct rw; simpl; lia.
  - intros [Hl Hr]. exists (w * line rw c + lane rw c). split; [|nia].
    destruct c as [a b], rw; simpl in *; f_equal; first
      [ by rewrite Z.mul_comm, Z.add_comm, Z.mod_add, Z.mod_small by lia
      | rewrite Z.mul_comm, Z.div_add_l, Z.div_small by lia; lia ].
Qed.

Lemma noop_cells w h gx gy :
  let noops := (i ← range_u32 w gx; (λ j, mk_coord i j) <$> range_u32 0 gy)
            ++ (j ← range_u32 h gy; (λ i, mk_coord i j) <$> range_u32 0 w) in
  0 <= w <= gx → 0 <= h <= gy →
  NoDup noops
  ∧ (∀ c, c ∈ noops ↔ 0 <= x c < gx ∧ 0 <= y c < gy ∧ ¬ (0 <= x c < w ∧ 0 <= y c < h)).
Proof.
  intros noops Hw Hh. subst noops.
  assert (Hright : ∀ c, c ∈ (i ← range_u32 w gx; (λ j, mk_coord i j) <$> range_u32 0 gy)
      ↔ w <= x c < gx ∧ 0 <= y c < gy).
  { intros [a b]. rewrite list_elem_of_bind. simpl. split.
    - by intros (? & (? & [= -> ->] & ?%elem_of_range_u32)%list_elem_of_fmap & ?%elem_of_range_u32).
    - intros [? ?]. eexists. split; [|by apply elem_of_range_u32].
      apply list_elem_of_fmap. eexists. split; [done|by apply elem_of_range_u32]. }
  assert (Hbelow : ∀ c, c ∈ (j ← range_u32 h gy; (λ i, mk_coord i j) <$> range_u32 0 w)
      ↔ h <= y c < gy ∧ 0 <= x c < w).
  { intros [a b]. rewrite list_elem_of_bind. simpl. split.
    - by intros (? & (? & [= -> ->] & ?%elem_of_range_u32)%list_elem_of_fmap & ?%elem_of_range_u32).
    - intros [? ?]. eexists. split; [|by apply elem_of_range_u32].
      apply list_elem_of_fmap. eexists. split; [done|by apply elem_of_range_u32]. }
  split.
  - apply NoDup_app. split_and!.
    + apply nested_NoDup; [apply NoDup_range_u32..|]. by intros ???? [= -> ->].
    + intros c Hc%Hright Hc'%Hbelow. lia.
    + apply nested_NoDup; [apply NoDup_range_u32..|]. by intros ???? [= -> ->].
  - intros c. rewrite elem_of_app, Hright, Hbelow. lia.
Qed.

(** [grid_to_cores_with_noop] lists every core of the grid once, the cores of
    the bounding box first, and these in the order in which the counting
    [grid_to_cores] lists them. *)
Theorem noop_enumeration (bbox_x bbox_y grid_size_x grid_size_y : Z) (row_wise : bool) :
  0 <= bbox_x < grid_size_x → 0 <= bbox_y < grid_size_y → grid_size_x * grid_size_y < 2 ^ 32 →
  let n := (bbox_x + 1) * (bbox_y + 1) in
  ∃ box noops,
    grid_to_cores_with_noop bbox_x bbox_y grid_size_x grid_size_y row_wise = Ok (box ++ noops)
    ∧ grid_to_cores_num n (bbox_x + 1) (bbox_y + 1) row_wise = Ok box
    ∧ NoDup (box ++ noops)
    ∧ (∀ c, c ∈ box ↔ 0 <= x c <= bbox_x ∧ 0 <= y c <= bbox_y)
    ∧ (∀ c, c ∈ box ++ noops ↔ 0 <= x c < grid_size_x ∧ 0 <= y c < grid_size_y).
Proof.
  change (2 ^ 32) with 4294967296. intros Hx Hy Hg n.
  assert (Hn : n <= grid_size_x * grid_size_y) by (unfold n; apply Z.mul_le_mono_nonneg; lia).
  assert (Hxy : grid_size_x <= grid_size_x * grid_size_y ∧ grid_size_y <= grid_size_x * grid_size_y) by nia.
  unfold grid_to_cores_with_noop, grid_to_cores_num.
  rewrite (proj2 (Z.ltb_lt bbox_x _)), (proj2 (Z.ltb_lt bbox_y _)) by lia. cbn [check mbind outcome_bind].
  rewrite !(u32_small (bbox_x + 1)), !(u32_small (bbox_y + 1)) by lia. fold n.
  rewrite !(u32_small n) by lia. rewrite Z.leb_refl. cbn [check mbind outcome_bind].
  set (w := if row_wise then bbox_x + 1 else bbox_y + 1).
  set (h := if row_wise then bbox_y + 1 else bbox_x + 1).
  assert (Hwh : n = w * h) by (unfold n, w, h; destruct row_wise; lia).
  match goal with |- context [?b ++ (?n1 ++ ?n2)] => set (noops := n1 ++ n2) end.
  exists (snake w row_wise <$> range_u32 0 n), noops.
  assert (Hbox : ∀ c, c ∈ snake w row_wise <$> range_u32 0 n ↔ 0 <= x c <= bbox_x ∧ 0 <= y c <= bbox_y).
  { intros c. rewrite Hwh, elem_of_snake by (unfold w; destruct row_wise; lia).
    unfold w, h; destruct row_wise; simpl; lia. }
  destruct (noop_cells (bbox_x + 1) (bbox_y + 1) grid_size_x grid_size_y) as [Hnd Hnoop]; [lia..|].
  fold noops in Hnd, Hnoop.
  split_and!.
  - f_equal. f_equal. unfold w. destruct row_wise; reflexivity.
  - f_equal. unfold w. destruct row_wise; reflexivity.
  - apply NoDup_app. split_and!; [apply NoDup_snake; unfold w; destruct row_wise; lia| |].
    + intros c Hc%Hbox Hc'%Hnoop. lia.
    + exact Hnd.
  - exact Hbox.
  - intros c. rewrite elem_of_app, Hbox, Hnoop. lia.
Qed.

Lemma noop_enumeration_witness :
  grid_to_cores_num 2 1 2 true = Ok [mk_coord 0 0; mk_coord 0 1]
  ∧ ∃ cs, grid_to_cores_with_noop 0 1 2 2 true = Ok cs ∧ NoDup cs.
Proof.
  destruct (noop_enumeration 0 1 2 2 true) as (box & noops & H & _ & Hnd & _); [lia..|].
  split; [by vm_compute|]. by eexists.
Defined.
