(* ===== verification/WorkSplit.v ===== *)
(** * Dividing work between cores (tt_metal/common/work_split.hpp)

    [uint32_t] arithmetic is reduced to 32 bits, arithmetic with a [size_t]
    operand to 64.  The sets of ranges are those of [CoreCoord], so the
    functions that build them take the driver's order on coordinates. *)
From S2P Require Import Prelude CoreCoord.

(** [for (current_size = stick_size_bytes; current_size <= max_read_size; current_size += stick_size_bytes)] *)
Fixpoint merge_sticks_loop (fuel : nat) (total_bytes stick_size_bytes max_read_size current_size sticks : Z)
  : outcome Z :=
  if current_size <=? max_read_size then
    match fuel with
    | O => Err FUEL
    | S fuel =>
      r ← umod total_bytes current_size;
      sticks ← (if r =? 0 then udiv total_bytes current_size else Ok sticks);
      merge_sticks_loop fuel total_bytes stick_size_bytes max_read_size
        (u32 (current_size + stick_size_bytes)) sticks
    end
  else Ok sticks.

Definition merge_num_sticks_to_read (num_sticks_to_read stick_size_bytes max_read_size : Z) : outcome Z :=
  let total_bytes := u32 (num_sticks_to_read * stick_size_bytes) in
  merge_sticks_loop (S (Z.to_nat max_read_size)) total_bytes stick_size_bytes max_read_size
    stick_size_bytes num_sticks_to_read.

(** [for (int i = 2; i <= num_cores_max; i++)]; [i] is compared as unsigned, and
    incrementing the greatest [int] is undefined. *)
Fixpoint max_cores_loop (fuel : nat) (num_tiles num_cores_max i num_cores : Z) : outcome Z :=
  if i <=? num_cores_max then
    match fuel with
    | O => Err FUEL
    | S fuel =>
      r ← umod num_tiles i;
      _ ← check (i <? 2 ^ 31 - 1) UB;
      max_cores_loop fuel num_tiles num_cores_max (i + 1) (if r =? 0 then i else num_cores)
    end
  else Ok num_cores.

Definition get_max_cores_divisible_by_tiles_per_core_tiles (num_tiles num_cores_max : Z) (request_even : bool)
  : outcome (Z * Z) :=
  num_cores ← max_cores_loop (Z.to_nat num_cores_max) num_tiles num_cores_max 2 1;
  let num_cores := if request_even then u32 (num_cores - num_cores mod 2) else num_cores in
  per_core_tiles_dim ← udiv num_tiles num_cores;
  r ← umod num_tiles num_cores;
  Ok (num_cores, if negb (r =? 0) then u32 (per_core_tiles_dim + 1) else per_core_tiles_dim).

(** [for (int find_divisor = start; find_divisor >= 1; find_divisor--)]; [skip] is the
    [continue]. *)
Fixpoint divisor_loop (fuel : nat) (skip : Z → bool) (val find_divisor : Z) : outcome Z :=
  if 1 <=? find_divisor then
    match fuel with
    | O => Err FUEL
    | S fuel =>
      if skip find_divisor then divisor_loop fuel skip val (find_divisor - 1)
      else
        r ← umod val find_divisor;
        if r =? 0 then Ok find_divisor else divisor_loop fuel skip val (find_divisor - 1)
    end
  else Ok 1.

Definition find_max_divisor (val start_max_div : Z) : outcome Z :=
  divisor_loop (Z.to_nat start_max_div) (λ d, (d =? 7) || (d =? 5)) val (to_i32 start_max_div).

Definition find_max_block_size (val max_block_size : Z) : outcome Z :=
  divisor_loop (Z.to_nat max_block_size) (λ _, false) val (to_i32 max_block_size).

Section sets.
Context (coord_lt : CoreCoord → CoreCoord → bool).

(** The cores from [start_core] to the end of the grid. *)
Definition total_available_cores (start_core : CoreCoord) (num_cores_x num_cores_y : Z) (row_wise : bool) : Z :=
  if row_wise then
    let t := u32 (0 + u64 (u64 (u32 (num_cores_y - 1) - y start_core) * num_cores_x)) in
    u32 (t + u64 (num_cores_x - x start_core))
  else
    let t := u32 (0 + u64 (u64 (u32 (num_cores_x - 1) - x start_core) * num_cores_y)) in
    u32 (t + u64 (num_cores_y - y start_core)).

Definition num_cores_to_corerange_set (start_core : CoreCoord) (target_num_cores : Z)
  (grid_size : CoreCoord) (row_wise : bool) : outcome (list CoreRange) :=
  let num_cores_x := u32 (x grid_size) in
  let num_cores_y := u32 (y grid_size) in
  _ ← check ((x start_core <? num_cores_x) && (y start_core <? num_cores_y)) TT_FATAL;
  _ ← check (target_num_cores <=? total_available_cores start_core num_cores_x num_cores_y row_wise) TT_FATAL;
  let all_cores_set := [] in
  let leftover_size := target_num_cores in
  let s_core := start_core in
  if row_wise then
    '(all_cores_set, leftover_size, s_core) ←
      (if negb (x s_core =? 0) && (u64 (num_cores_x - x start_core) <? leftover_size) then
         start_block ← CoreRange_make s_core (mk_coord (u32 (num_cores_x - 1)) (y s_core));
         Ok (set_insert coord_lt start_block all_cores_set,
             u32 (leftover_size - range_size start_block),
             mk_coord 0 (u64 (y s_core + 1)))
       else Ok (all_cores_set, leftover_size, s_core));
    '(all_cores_set, leftover_size, s_core) ←
      (if num_cores_x <? leftover_size then
         num_full_rows ← udiv leftover_size num_cores_x;
         full_block ← CoreRange_make s_core
           (mk_coord (u32 (num_cores_x - 1)) (u64 (y s_core + num_full_rows - 1)));
         Ok (set_insert coord_lt full_block all_cores_set,
             u32 (leftover_size - range_size full_block),
             mk_coord 0 (u64 (y s_core + num_full_rows)))
       else Ok (all_cores_set, leftover_size, s_core));
    if 0 <? leftover_size then
      leftover_block ← CoreRange_make s_core
        (mk_coord (u64 (x s_core + leftover_size - 1)) (y s_core));
      Ok (set_insert coord_lt leftover_block all_cores_set)
    else Ok all_cores_set
  else
    '(all_cores_set, leftover_size, s_core) ←
      (if negb (y s_core =? 0) && (u64 (num_cores_y - y start_core) <? leftover_size) then
         start_block ← CoreRange_make s_core (mk_coord (x s_core) (u32 (num_cores_y - 1)));
         Ok (set_insert coord_lt start_block all_cores_set,
             u32 (leftover_size - range_size start_block),
             mk_coord (u64 (x s_core + 1)) 0)
       else Ok (all_cores_set, leftover_size, s_core));
    '(all_cores_set, leftover_size, s_core) ←
      (if num_cores_y <? leftover_size then
         num_full_cols ← udiv leftover_size num_cores_y;
         full_block ← CoreRange_make s_core
           (mk_coord (u64 (x s_core + num_full_cols - 1)) (u32 (num_cores_y - 1)));
         Ok (set_insert coord_lt full_block all_cores_set,
             u32 (leftover_size - range_size full_block),
             mk_coord (u64 (x s_core + num_full_cols)) 0)
       else Ok (all_cores_set, leftover_size, s_core));
    if 0 <? leftover_size then
      leftover_block ← CoreRange_make s_core
        (mk_coord (x s_core) (u64 (y s_core + leftover_size - 1)));
      Ok (set_insert coord_lt leftover_block all_cores_set)
    else Ok all_cores_set.

(** [*s.rbegin()] *)
Definition rbegin (s : list CoreRange) : outcome CoreRange := of_option UB (last s).

(** The cores that get the smaller share. *)
Definition core_group_2 (num_cores_x num_cores_y : Z) (last_block_group_1 last_block_all_cores : CoreRange)
  (row_wise : bool) : outcome (list CoreRange) :=
  let e1 := end_coord last_block_group_1 in
  let ea := end_coord last_block_all_cores in
  if row_wise then
    if (y e1 =? y ea) && negb (x e1 =? x ea) then
      leftover_block ← CoreRange_make (mk_coord (u64 (x e1 + 1)) (y e1)) ea;
      Ok (set_insert coord_lt leftover_block [])
    else
      core_group_2_set ←
        (if negb (x e1 =? u32 (num_cores_x - 1)) then
           leftover_stick ← CoreRange_make (mk_coord (u64 (x e1 + 1)) (y e1))
             (mk_coord (u32 (num_cores_x - 1)) (y e1));
           Ok (set_insert coord_lt leftover_stick [])
         else Ok []);
      leftover_block ← CoreRange_make (mk_coord 0 (u64 (y e1 + 1))) ea;
      Ok (set_insert coord_lt leftover_block core_group_2_set)
  else
    if (x e1 =? x ea) && negb (y e1 =? y ea) then
      leftover_block ← CoreRange_make (mk_coord (x e1) (u64 (y e1 + 1))) ea;
      Ok (set_insert coord_lt leftover_block [])
    else
      core_group_2_set ←
        (if negb (y e1 =? u32 (num_cores_y - 1)) then
           leftover_stick ← CoreRange_make (mk_coord (x e1) (u64 (y e1 + 1)))
             (mk_coord (x e1) (u32 (num_cores_y - 1)));
           Ok (set_insert coord_lt leftover_stick [])
         else Ok []);
      leftover_block ← CoreRange_make (mk_coord (u64 (x e1 + 1)) 0) ea;
      Ok (set_insert coord_lt leftover_block core_group_2_set).

Record work_split := mk_split {
  target_num_cores : Z;
  all_cores : list CoreRange;
  group_1 : list CoreRange;
  group_2 : list CoreRange;
  units_per_core_group_1 : Z;
  units_per_core_group_2 : Z
}.

Definition split_work_to_cores (grid_size : CoreCoord) (units_to_divide : Z) (row_wise : bool)
  : outcome work_split :=
  let num_cores_x := u32 (x grid_size) in
  let num_cores_y := u32 (y grid_size) in
  let target := Z.min units_to_divide (u32 (num_cores_x * num_cores_y)) in
  all_cores ← num_cores_to_corerange_set (mk_coord 0 0) target grid_size row_wise;
  all_cores ← CoreRangeSet_make all_cores;
  units_1 ← udiv units_to_divide target;
  rest ← umod units_to_divide target;
  '(group_1, group_2, units_1, units_2) ←
    (if rest =? 0 then Ok (all_cores, [], units_1, 0)
     else
       group_1 ← num_cores_to_corerange_set (mk_coord 0 0) rest grid_size row_wise;
       last_block_group_1 ← rbegin group_1;
       last_block_all_cores ← rbegin all_cores;
       group_2 ← core_group_2 num_cores_x num_cores_y last_block_group_1 last_block_all_cores row_wise;
       Ok (group_1, group_2, u32 (units_1 + 1), units_1));
  group_1 ← CoreRangeSet_make group_1;
  group_2 ← CoreRangeSet_make group_2;
  Ok (mk_split target all_cores group_1 group_2 units_1 units_2).

End sets.
