(* ===== verification/WorkSplitProps.v ===== *)
(** * Dividing work between cores: what the functions compute

    A grid of [w] lanes and [h] lines is counted line by line, by rows or by
    columns.  [num_cores_to_corerange_set] covers a segment of that count
    ([filled]), and [split_work_to_cores] divides the segment in two. *)
From Stdlib Require Import Sorted.
From S2P Require Import Prelude CoreCoord CoreCoordProps WorkSplit.

(** The driver's order refines the componentwise order. *)
Definition coord_mono (coord_lt : CoreCoord → CoreCoord → bool) : Prop :=
  ∀ a b, x a <= x b → y a <= y b → a ≠ b → coord_lt a b = true.

Definition pt (rw : bool) (l k : Z) : CoreCoord := if rw then mk_coord l k else mk_coord k l.
Definition idx (rw : bool) (w : Z) (c : CoreCoord) : Z := line rw c * w + lane rw c.

Lemma lane_pt rw l k : lane rw (pt rw l k) = l.
Proof. by destruct rw. Qed.
Lemma line_pt rw l k : line rw (pt rw l k) = k.
Proof. by destruct rw. Qed.
Lemma pt_eta rw c : pt rw (lane rw c) (line rw c) = c.
Proof. by destruct rw, c. Qed.

Lemma idx_lt w a b l k : 0 <= a < w → 0 <= l <= w → b * w + a < k * w + l ↔ b < k ∨ (b = k ∧ a < l).
Proof.
  intros Ha Hl. destruct (Z.lt_trichotomy b k) as [H|[->|H]].
  - assert ((b + 1) * w <= k * w) by (apply Z.mul_le_mono_nonneg_r; lia). lia.
  - lia.
  - assert ((k + 1) * w <= b * w) by (apply Z.mul_le_mono_nonneg_r; lia). lia.
Qed.

Lemma cell_lanes rw r i j :
  cell r i j ↔ lane rw (start_coord r) <= lane rw (mk_coord i j) <= lane rw (end_coord r)
             ∧ line rw (start_coord r) <= line rw (mk_coord i j) <= line rw (end_coord r).
Proof. unfold cell. destruct rw; simpl; lia. Qed.

Lemma good_lanes rw r :
  good r ↔ 0 <= lane rw (start_coord r) <= lane rw (end_coord r)
         ∧ 0 <= line rw (start_coord r) <= line rw (end_coord r)
         ∧ lane rw (end_coord r) < 2 ^ 31 ∧ line rw (end_coord r) < 2 ^ 31.
Proof. unfold good. destruct rw; simpl; tauto. Qed.

Section fill.
Context (coord_lt : CoreCoord → CoreCoord → bool) (Hlt : coord_order coord_lt).
Abbreviation rlt := (range_lt coord_lt).
Abbreviation is_set rs := (StronglySorted (λ a b, rlt a b = true) rs).

(** [num_cores_to_corerange_set] in terms of lanes and lines. *)
Definition fill (rw : bool) (w : Z) (start : CoreCoord) (target : Z) : outcome (list CoreRange) :=
  '(rs, more, c) ←
    (if negb (lane rw start =? 0) && (u64 (w - lane rw start) <? target) then
       b ← CoreRange_make start (pt rw (u32 (w - 1)) (line rw start));
       Ok (set_insert coord_lt b [], u32 (target - range_size b), pt rw 0 (u64 (line rw start + 1)))
     else Ok ([], target, start));
  '(rs, more, c) ←
    (if w <? more then
       n ← udiv more w;
       b ← CoreRange_make c (pt rw (u32 (w - 1)) (u64 (line rw c + n - 1)));
       Ok (set_insert coord_lt b rs, u32 (more - range_size b), pt rw 0 (u64 (line rw c + n)))
     else Ok (rs, more, c));
  if 0 <? more then
    b ← CoreRange_make c (pt rw (u64 (lane rw c + more - 1)) (line rw c));
    Ok (set_insert coord_lt b rs)
  else Ok rs.

Lemma num_cores_to_corerange_set_fill start target grid rw :
  num_cores_to_corerange_set coord_lt start target grid rw =
  (_ ← check ((x start <? u32 (x grid)) && (y start <? u32 (y grid))) TT_FATAL;
   _ ← check (target <=? total_available_cores start (u32 (x grid)) (u32 (y grid)) rw) TT_FATAL;
   fill rw (u32 (lane rw grid)) start target).
Proof. by destruct rw. Qed.

Context (rw : bool) (w h : Z) (Hw : 1 <= w < 2147483648) (Hh : 1 <= h < 2147483648).
Context (Hwh : w * h < 4294967296).

Definition segment (i e : Z) (c : CoreCoord) : Prop :=
  0 <= lane rw c < w ∧ 0 <= line rw c < h ∧ i <= idx rw w c < e.

(** [rs] covers the cores counted from [i] to [e]. *)
Record fills (i e : Z) (rs : list CoreRange) : Prop := mk_fills {
  fills_set : is_set rs;
  fills_good : ∀ r, r ∈ rs → good r;
  fills_apart : ∀ a b, a ∈ rs → b ∈ rs → a ≠ b → apart a b;
  fills_cells : ∀ a b, covered rs a b ↔ segment i e (mk_coord a b)
}.

Lemma fills_nil i : fills i i [].
Proof.
  split; [constructor|by intros ? ?%elem_of_nil|by intros ?? ?%elem_of_nil|].
  intros a b. split; [by intros (? & ?%elem_of_nil & _)|]. unfold segment. lia.
Qed.

Lemma fills_insert i m e rs r :
  fills i m rs → i <= m <= e → good r → (∀ a b, cell r a b ↔ segment m e (mk_coord a b)) →
  fills i e (set_insert coord_lt r rs).
Proof.
  intros [Hset Hgood Hap Hcells] Hm Hr Hc.
  assert (Hnew : ∀ r', r' ∈ rs → apart r r').
  { intros r' Hr'. apply apart_spec; [done|by apply Hgood|]. intros (a & b & H1 & H2).
    apply Hc in H1. assert (covered rs a b) as H3%Hcells by (by exists r').
    unfold segment in *. lia. }
  split.
  - by apply set_insert_is_set.
  - intros r' [->|?]%elem_of_set_insert; auto.
  - intros a b [->|Ha]%elem_of_set_insert [->|Hb]%elem_of_set_insert Hne; auto; [done|].
    specialize (Hnew a Ha). unfold apart in *. lia.
  - intros a b. unfold covered. setoid_rewrite elem_of_set_insert; [|done..]. split.
    + intros (r' & [->|Hr'] & Hcell).
      * apply Hc in Hcell. unfold segment in *. lia.
      * assert (covered rs a b) as H3%Hcells by (by exists r'). unfold segment in *. lia.
    + intros Hs. destruct (decide (idx rw w (mk_coord a b) < m)).
      * assert (segment i m (mk_coord a b)) as (r' & ? & ?)%Hcells by (unfold segment in *; lia).
        exists r'. auto.
      * exists r. split; [by left|]. apply Hc. unfold segment in *. lia.
Qed.

Lemma cells_line l k n a b :
  0 <= l → 1 <= n → l + n <= w → 0 <= k < h →
  cell (mk_range (pt rw l k) (pt rw (l + n - 1) k)) a b
  ↔ segment (k * w + l) (k * w + l + n) (mk_coord a b).
Proof.
  intros. rewrite (cell_lanes rw). simpl. rewrite !lane_pt, !line_pt. unfold segment, idx.
  generalize (lane rw (mk_coord a b)) (line rw (mk_coord a b)). intros a' b'.
  pose proof (idx_lt w a' b' l k). pose proof (idx_lt w a' b' (l + n) k). lia.
Qed.

Lemma cells_lines k n a b :
  0 <= k → 1 <= n → k + n <= h →
  cell (mk_range (pt rw 0 k) (pt rw (w - 1) (k + n - 1))) a b
  ↔ segment (k * w) ((k + n) * w) (mk_coord a b).
Proof.
  intros. rewrite (cell_lanes rw). simpl. rewrite !lane_pt, !line_pt. unfold segment, idx.
  generalize (lane rw (mk_coord a b)) (line rw (mk_coord a b)). intros a' b'.
  pose proof (idx_lt w a' b' 0 k). pose proof (idx_lt w a' b' 0 (k + n)). lia.
Qed.

Lemma box_make c l2 k2 :
  lane rw c <= l2 → line rw c <= k2 →
  CoreRange_make c (pt rw l2 k2) = Ok (mk_range (pt rw (lane rw c) (line rw c)) (pt rw l2 k2)).
Proof.
  intros. rewrite pt_eta. apply CoreRange_make_good; unfold lane, line in *; destruct rw; simpl; lia.
Qed.

Lemma box_good l1 k1 l2 k2 :
  0 <= l1 <= l2 → l2 < 2147483648 → 0 <= k1 <= k2 → k2 < 2147483648 →
  good (mk_range (pt rw l1 k1) (pt rw l2 k2)).
Proof. intros. apply (good_lanes rw). simpl. rewrite !lane_pt, !line_pt. lia. Qed.

Lemma box_size l1 k1 l2 k2 :
  0 <= l1 <= l2 → l2 < 2147483648 → 0 <= k1 <= k2 → k2 < 2147483648 →
  range_size (mk_range (pt rw l1 k1) (pt rw l2 k2)) = (l2 - l1 + 1) * (k2 - k1 + 1).
Proof.
  intros. unfold range_size. destruct rw; simpl; rewrite (u64_small (l2 - l1 + 1)), (u64_small (k2 - k1 + 1)) by lia;
    rewrite u64_small by nia; lia.
Qed.

(** The state between the steps of [fill]: the cores up to [c] are covered and
    [more] remain. *)
Record filling (i e : Z) (rs : list CoreRange) (more : Z) (c : CoreCoord) : Prop := mk_filling {
  fg_fills : fills i (e - more) rs;
  fg_more : 0 <= more /\ i <= e - more;
  fg_lane : 0 <= lane rw c < w /\ 0 <= line rw c;
  fg_idx : idx rw w c + more = e
}.

Lemma filling_bound i e rs more c :
  filling i e rs more c → e <= w * h → 0 < more → line rw c < h.
Proof.
  intros [_ _ ? Hi] He Hm. unfold idx in Hi. destruct (Z.lt_ge_cases (line rw c) h); [done|].
  assert (h * w <= line rw c * w) by (apply Z.mul_le_mono_nonneg_r; lia). lia.
Qed.

Lemma start_step i e start :
  filling i e [] (e - i) start → e <= w * h →
  ∃ rs more c,
    (if negb (lane rw start =? 0) && (u64 (w - lane rw start) <? e - i) then
       b ← CoreRange_make start (pt rw (u32 (w - 1)) (line rw start));
       Ok (set_insert coord_lt b [], u32 (e - i - range_size b), pt rw 0 (u64 (line rw start + 1)))
     else Ok ([], e - i, start)) = Ok (rs, more, c)
    ∧ filling i e rs more c ∧ (lane rw c = 0 ∨ lane rw c + more <= w).
Proof.
  intros Hf He. pose proof Hf as [Hfs Hm Hl Hi]. rewrite u64_small by lia.
  destruct (Z.eqb_spec (lane rw start) 0); simpl; [by eexists _, _, _; auto|].
  destruct (Z.ltb_spec (w - lane rw start) (e - i)); [|eexists _, _, _; split_and!; [done..|lia]].
  pose proof (filling_bound _ _ _ _ _ Hf He ltac:(lia)) as Hk.
  rewrite u32_small by lia. rewrite box_make by lia.
  cbn [mbind outcome_bind]. rewrite box_size, u64_small by lia.
  unfold idx in Hi. eexists _, _, _. split; [done|]. rewrite lane_pt. split; [|by left].
  rewrite u32_small by nia. split.
  - apply (fills_insert _ i _ []); [|lia|apply box_good; lia|].
    + by replace (e - (e - i)) with i in Hfs by lia.
    + intros a b. pose proof (cells_line (lane rw start) (line rw start) (w - lane rw start) a b) as Hc.
      replace (lane rw start + (w - lane rw start) - 1) with (w - 1) in Hc by lia.
      rewrite Hc by lia. unfold segment. lia.
  - lia.
  - rewrite lane_pt, line_pt. lia.
  - unfold idx. rewrite lane_pt, line_pt. lia.
Qed.

Lemma lines_step i e rs more c :
  filling i e rs more c → e <= w * h → (lane rw c = 0 ∨ lane rw c + more <= w) →
  ∃ rs' more' c',
    (if w <? more then
       n ← udiv more w;
       b ← CoreRange_make c (pt rw (u32 (w - 1)) (u64 (line rw c + n - 1)));
       Ok (set_insert coord_lt b rs, u32 (more - range_size b), pt rw 0 (u64 (line rw c + n)))
     else Ok (rs, more, c)) = Ok (rs', more', c')
    ∧ filling i e rs' more' c' ∧ lane rw c' + more' <= w.
Proof.
  intros Hf He Hc. pose proof Hf as [Hfs Hm Hl Hi].
  destruct (Z.ltb_spec w more); [|by eexists _, _, _; split_and!; [done..|lia]].
  assert (H0 : lane rw c = 0) by lia. unfold idx in Hi. rewrite H0 in Hi.
  rewrite udiv_ok by lia. cbn [mbind outcome_bind].
  pose proof (Z.div_mod more w ltac:(lia)) as Hdiv. pose proof (Z.mod_pos_bound more w ltac:(lia)).
  set (n := more / w) in *. assert (1 <= n) by nia.
  assert (line rw c + n <= h) by nia.
  rewrite u32_small by lia. rewrite !u64_small by lia.
  rewrite box_make, H0 by lia. cbn [mbind outcome_bind]. rewrite box_size by lia.
  eexists _, _, _. split; [done|]. rewrite lane_pt. rewrite u32_small by nia. split; [|nia].
  split.
  - apply (fills_insert _ (e - more)); [done|nia|apply box_good; lia|].
    intros a b. rewrite cells_lines by lia. unfold segment. lia.
  - nia.
  - rewrite lane_pt, line_pt. lia.
  - unfold idx. rewrite lane_pt, line_pt. lia.
Qed.

Lemma fill_spec start target :
  0 <= lane rw start < w → 0 <= line rw start < h → 0 <= target →
  idx rw w start + target <= w * h →
  ∃ rs, fill rw w start target = Ok rs ∧ fills (idx rw w start) (idx rw w start + target) rs.
Proof.
  intros Hl Hk Ht He. set (i := idx rw w start) in *. set (e := i + target).
  assert (Hf : filling i e [] (e - i) start).
  { split; [|lia..|lia]. replace (e - (e - i)) with i by lia. apply fills_nil. }
  unfold fill. replace target with (e - i) by lia.
  destruct (start_step i e start Hf He) as (rs & more & c & -> & Hf1 & Hc). cbn [mbind outcome_bind].
  destruct (lines_step i e rs more c Hf1 He Hc) as (rs' & more' & c' & -> & Hf2 & Hc'). cbn [mbind outcome_bind].
  pose proof Hf2 as [Hfs Hm Hl' Hi]. unfold idx in Hi. destruct (Z.ltb_spec 0 more').
  - pose proof (filling_bound _ _ _ _ _ Hf2 He ltac:(lia)).
    rewrite u64_small by lia.
    rewrite box_make by lia. cbn [mbind outcome_bind]. eexists. split; [done|].
    apply (fills_insert _ (e - more')); [done|lia|apply box_good; lia|].
    intros a b. rewrite cells_line by lia. unfold segment. lia.
  - exists rs'. split; [done|]. by replace e with (e - more') by lia.
Qed.

Lemma set_insert_above b r : rlt r b = true → set_insert coord_lt b [r] = [r; b].
Proof.
  intros H. simpl. rewrite H. destruct (rlt b r) eqn:Hb; [|done].
  pose proof (range_lt_trans coord_lt Hlt _ _ _ H Hb) as Hr. by rewrite range_lt_irrefl in Hr.
Qed.

(** From the first core of the grid, the last range ends at the last core taken. *)
Lemma fill_last target :
  coord_mono coord_lt → 0 < target <= w * h →
  ∃ rs r, fill rw w (mk_coord 0 0) target = Ok rs ∧ last rs = Some r
    ∧ 0 <= lane rw (end_coord r) < w ∧ 0 <= line rw (end_coord r) < h
    ∧ idx rw w (end_coord r) = target - 1.
Proof.
  intros Hmono Ht. unfold fill.
  assert (H0 : lane rw (mk_coord 0 0) = 0 ∧ line rw (mk_coord 0 0) = 0) by (by destruct rw).
  rewrite (proj1 H0). cbn [Z.eqb negb andb mbind outcome_bind].
  pose proof (Z.div_mod target w ltac:(lia)) as Hdiv. pose proof (Z.mod_pos_bound target w ltac:(lia)).
  destruct (Z.ltb_spec w target).
  - rewrite udiv_ok by lia. cbn [mbind outcome_bind]. set (n := target / w) in *.
    assert (1 <= n <= h) by nia. rewrite (proj2 H0), u32_small by lia. rewrite !u64_small by lia.
    rewrite box_make by lia. cbn [mbind outcome_bind]. rewrite (proj1 H0), (proj2 H0), box_size by lia.
    rewrite u32_small by nia.
    replace (target - (w - 1 - 0 + 1) * (0 + n - 1 - 0 + 1)) with (target mod w) by lia.
    destruct (Z.ltb_spec 0 (target mod w)).
    + rewrite lane_pt, u64_small by lia. rewrite line_pt, box_make, lane_pt, line_pt by (rewrite ?lane_pt, ?line_pt; lia).
      cbn [mbind outcome_bind]. change (set_insert coord_lt ?b []) with [b]. rewrite set_insert_above.
      * eexists _, _. split; [done|]. cbn [last end_coord]. split; [done|].
        unfold idx. cbn [end_coord]. rewrite lane_pt, line_pt. split_and!; [lia|lia|nia|nia|lia].
      * unfold range_lt. apply orb_true_iff. left. apply Hmono; destruct rw; simpl; lia || (intros [=]; lia).
    + eexists _, _. split; [done|]. cbn [set_insert last end_coord]. split; [done|].
      unfold idx. cbn [end_coord]. rewrite lane_pt, line_pt. split_and!; nia.
  - cbn [mbind outcome_bind]. rewrite (proj2 (Z.ltb_lt 0 target)), (proj2 H0), u64_small by lia.
    rewrite (proj1 H0), box_make by lia. cbn [mbind outcome_bind set_insert].
    eexists _, _. split; [done|]. cbn [last end_coord]. split; [done|].
    unfold idx. cbn [end_coord]. rewrite lane_pt, line_pt. split_and!; lia.
Qed.

(** [core_group_2] in terms of lanes and lines. *)
Definition rest_of (e1 ea : CoreCoord) : outcome (list CoreRange) :=
  if (line rw e1 =? line rw ea) && negb (lane rw e1 =? lane rw ea) then
    b ← CoreRange_make (pt rw (u64 (lane rw e1 + 1)) (line rw e1)) ea;
    Ok (set_insert coord_lt b [])
  else
    rs ← (if negb (lane rw e1 =? u32 (w - 1)) then
            b ← CoreRange_make (pt rw (u64 (lane rw e1 + 1)) (line rw e1)) (pt rw (u32 (w - 1)) (line rw e1));
            Ok (set_insert coord_lt b [])
          else Ok []);
    b ← CoreRange_make (pt rw 0 (u64 (line rw e1 + 1))) ea;
    Ok (set_insert coord_lt b rs).

Lemma rest_of_spec e1 ea m :
  0 <= lane rw e1 < w → 0 <= line rw e1 < h → idx rw w e1 = m - 1 → m < w * h →
  0 <= lane rw ea < w → 0 <= line rw ea < h → idx rw w ea = w * h - 1 →
  ∃ rs, rest_of e1 ea = Ok rs ∧ fills m (w * h) rs.
Proof.
  intros Hl1 Hk1 Hi1 Hm Hla Hka Hia. unfold idx in Hi1, Hia.
  assert (Ha : line rw ea = h - 1 ∧ lane rw ea = w - 1) by nia. destruct Ha as [Ha1 Ha2].
  rewrite <- (pt_eta rw ea), Ha1, Ha2. unfold rest_of. rewrite lane_pt, line_pt.
  rewrite u32_small, !u64_small by lia.
  destruct (Z.eqb_spec (line rw e1) (h - 1)) as [Hk|Hk], (Z.eqb_spec (lane rw e1) (w - 1)) as [Hl|Hl];
    cbn [negb andb mbind outcome_bind]; [nia| | |];
    rewrite !box_make by (rewrite ?lane_pt, ?line_pt; lia); cbn [mbind outcome_bind];
    rewrite !lane_pt, !line_pt; (eexists; split; [done|]).
  - apply (fills_insert _ m _ []); [apply fills_nil|lia|apply box_good; lia|].
    intros a b. pose proof (cells_line (lane rw e1 + 1) (line rw e1) (w - lane rw e1 - 1) a b) as Hc.
    replace (lane rw e1 + 1 + (w - lane rw e1 - 1) - 1) with (w - 1) in Hc by lia.
    rewrite <- Hk, Hc by lia. unfold segment. nia.
  - apply (fills_insert _ m _ []); [apply fills_nil|lia|apply box_good; lia|].
    intros a b. pose proof (cells_lines (line rw e1 + 1) (h - line rw e1 - 1) a b) as Hc.
    replace (line rw e1 + 1 + (h - line rw e1 - 1) - 1) with (h - 1) in Hc by lia.
    rewrite Hc by lia. unfold segment. nia.
  - apply (fills_insert _ ((line rw e1 + 1) * w)).
    + apply (fills_insert _ m _ []); [apply fills_nil|nia|apply box_good; lia|].
      intros a b. pose proof (cells_line (lane rw e1 + 1) (line rw e1) (w - lane rw e1 - 1) a b) as Hc.
      replace (lane rw e1 + 1 + (w - lane rw e1 - 1) - 1) with (w - 1) in Hc by lia.
      rewrite Hc by lia. unfold segment. nia.
    + nia.
    + apply box_good; lia.
    + intros a b. pose proof (cells_lines (line rw e1 + 1) (h - line rw e1 - 1) a b) as Hc.
      replace (line rw e1 + 1 + (h - line rw e1 - 1) - 1) with (h - 1) in Hc by lia.
      rewrite Hc by lia. unfold segment. nia.
Qed.

Lemma elem_of_counted i e c :
  0 <= i → e <= w * h → c ∈ snake w rw <$> range_u32 i e ↔ segment i e c.
Proof.
  intros Hi He. rewrite list_elem_of_fmap. unfold segment. split.
  - intros (k & -> & Hk%elem_of_range_u32). pose proof (Z.mod_pos_bound k w ltac:(lia)).
    pose proof (Z.div_mod k w ltac:(lia)).
    assert (0 <= k / w < h) by (split; [apply Z.div_pos; lia|apply Z.div_lt_upper_bound; lia]).
    unfold idx. destruct rw; simpl; lia.
  - intros (Hl & Hk & Hc). exists (idx rw w c). split; [|by apply elem_of_range_u32].
    unfold idx, snake. rewrite Z.add_comm, Z.mod_add, Z.mod_small by lia.
    rewrite Z.div_add, Z.div_small, Z.add_0_l by lia. symmetry. by destruct rw, c.
Qed.

Lemma fills_disjoint i e rs : fills i e rs → disjoint_ranges rs.
Proof.
  intros [Hset _ Hap _] j k a b Hjk Ha Hb. apply no_overlap_spec, Hap.
  - by eapply list_elem_of_lookup_2.
  - by eapply list_elem_of_lookup_2.
  - intros ->. apply Hjk. eapply NoDup_lookup; [|done..]. by apply (is_set_NoDup coord_lt).
Qed.

Lemma fills_num_cores i e rs : 0 <= i <= e → e <= w * h → fills i e rs → num_cores rs = e - i.
Proof.
  intros Hi He Hf. pose proof Hf as [Hset Hgood Hap Hcells].
  assert (Hg : Forall good rs) by by apply Forall_forall.
  rewrite (num_cores_spec rs rw Hg).
  destruct (all_cores_spec rs rw Hg (fills_disjoint _ _ _ Hf)) as [Hnd Hin].
  rewrite (Permutation_length (l' := snake w rw <$> range_u32 i e)).
  - rewrite length_fmap, length_range_u32 by lia. apply u32_small. lia.
  - apply NoDup_Permutation; [done|apply NoDup_snake; lia|]. intros c.
    rewrite Hin, elem_of_counted, Hcells by lia. by destruct c.
Qed.

Lemma fills_make i e rs : fills i e rs → CoreRangeSet_make rs = Ok rs.
Proof.
  intros Hf. apply CoreRangeSet_make_ok; [by apply (is_set_NoDup coord_lt), Hf|apply Hf].
Qed.

Lemma fills_contains i e rs c :
  fills i e rs → core_coord_in_core_ranges rs c = true ↔ segment i e c.
Proof. intros Hf. rewrite core_coord_in_core_ranges_spec, (fills_cells _ _ _ Hf). by destruct c. Qed.
End fill.

(** ** Properties *)
(** A grid whose cores a [uint32_t] can count. *)
Definition small_grid (grid : CoreCoord) : Prop :=
  1 <= x grid < 2 ^ 31 ∧ 1 <= y grid < 2 ^ 31 ∧ x grid * y grid < 2 ^ 32.

Definition in_grid (grid c : CoreCoord) : Prop := 0 <= x c < x grid ∧ 0 <= y c < y grid.
(** The position of a core when the grid is counted by rows or by columns. *)
Definition position (grid : CoreCoord) (row_wise : bool) (c : CoreCoord) : Z :=
  if row_wise then y c * x grid + x c else x c * y grid + y c.

Lemma total_available_cores_spec start grid rw :
  small_grid grid → in_grid grid start →
  total_available_cores start (x grid) (y grid) rw = x grid * y grid - position grid rw start.
Proof.
  unfold small_grid, in_grid, total_available_cores, position.
  change (2 ^ 31) with 2147483648. change (2 ^ 32) with 4294967296. intros Hg Hs.
  assert (Hlanes : ∀ w h l k, 1 <= w → 1 <= h < 4294967296 → w * h < 4294967296 → 0 <= l < w → 0 <= k < h →
    u32 (u32 (0 + u64 (u64 (u32 (h - 1) - k) * w)) + u64 (w - l)) = w * h - (k * w + l)).
  { intros w h l k ?????. assert (0 <= (h - 1 - k) * w <= w * h - w) by nia.
    rewrite (u32_small (h - 1)), (u64_small (h - 1 - k)), (u64_small ((h - 1 - k) * w)) by nia.
    rewrite (u32_small (0 + _)), (u64_small (w - l)), u32_small by nia. lia. }
  destruct rw; rewrite Hlanes by lia; lia.
Qed.

Lemma grid_lanes rw grid :
  small_grid grid →
  1 <= lane rw grid < 2147483648 ∧ 1 <= line rw grid < 2147483648
  ∧ lane rw grid * line rw grid < 4294967296 ∧ lane rw grid * line rw grid = x grid * y grid.
Proof.
  unfold small_grid. change (2 ^ 31) with 2147483648. change (2 ^ 32) with 4294967296.
  intros ?. destruct rw; simpl; lia.
Qed.

Lemma in_grid_lanes rw grid c :
  in_grid grid c ↔ 0 <= lane rw c < lane rw grid ∧ 0 <= line rw c < line rw grid.
Proof. unfold in_grid. destruct rw; simpl; tauto. Qed.

Lemma position_idx grid rw c : position grid rw c = idx rw (lane rw grid) c.
Proof. by destruct rw. Qed.

Lemma run_corerange_set coord_lt start grid target rw :
  coord_order coord_lt → small_grid grid → in_grid grid start → 0 <= target →
  position grid rw start + target <= x grid * y grid →
  num_cores_to_corerange_set coord_lt start target grid rw = fill coord_lt rw (lane rw grid) start target
  ∧ ∃ rs, num_cores_to_corerange_set coord_lt start target grid rw = Ok rs
    ∧ fills coord_lt rw (lane rw grid) (line rw grid) (position grid rw start) (position grid rw start + target) rs.
Proof.
  intros Hlt Hg Hs Ht Hp. destruct (grid_lanes rw grid Hg) as (Hw & Hh & Hwh & Hdims).
  pose proof Hg as (? & ? & _). pose proof Hs as [??].
  pose proof (proj1 (in_grid_lanes rw _ _) Hs) as [Hl Hk].
  rewrite num_cores_to_corerange_set_fill, !u32_small by lia.
  rewrite (proj2 (Z.ltb_lt (x start) _)), (proj2 (Z.ltb_lt (y start) _)) by lia.
  cbn [andb check mbind outcome_bind]. rewrite total_available_cores_spec by done.
  rewrite (proj2 (Z.leb_le target _)) by lia. cbn [check mbind outcome_bind]. split; [done|].
  rewrite position_idx in *.
  apply (fill_spec coord_lt Hlt rw _ _ Hw Hh Hwh start target); lia.
Qed.

(** [num_cores_to_corerange_set] is refused exactly when the start is outside the
    grid or too few cores follow it; otherwise it covers the requested number
    of cores, consecutive from the start in row or column order, without overlap. *)
Theorem num_cores_to_corerange_set_correct (coord_lt : CoreCoord → CoreCoord → bool)
  (start grid : CoreCoord) (target : Z) (row_wise : bool) :
  coord_order coord_lt → small_grid grid → 0 <= x start → 0 <= y start → 0 <= target →
  let p := position grid row_wise in
  let ok := x start < x grid ∧ y start < y grid ∧ p start + target <= x grid * y grid in
  (ok → ∃ rs, num_cores_to_corerange_set coord_lt start target grid row_wise = Ok rs
     ∧ CoreRangeSet_make rs = Ok rs
     ∧ num_cores rs = target
     ∧ ∀ c, core_coord_in_core_ranges rs c = true ↔ in_grid grid c ∧ p start <= p c < p start + target)
  ∧ (¬ ok → num_cores_to_corerange_set coord_lt start target grid row_wise = Err TT_FATAL).
Proof.
  intros Hlt Hg Hx Hy Ht p ok. destruct (grid_lanes row_wise grid Hg) as (Hw & Hh & Hwh & Hdims).
  pose proof Hg as (? & ? & _). split.
  - intros (? & ? & ?). assert (Hs : in_grid grid start) by done.
    destruct (run_corerange_set coord_lt start grid target row_wise) as (_ & rs & -> & Hf); [done..|].
    assert (0 <= p start).
    { unfold p. rewrite position_idx. pose proof (proj1 (in_grid_lanes row_wise _ _) Hs). unfold idx. nia. }
    exists rs. split_and!; [done|by eapply fills_make| |].
    + pose proof (λ Hi He, fills_num_cores coord_lt Hlt row_wise _ _ Hw Hwh _ _ _ Hi He Hf). unfold p in *. lia.
    + intros c. rewrite (fills_contains _ _ _ _ _ _ _ c Hf), (in_grid_lanes row_wise).
      unfold segment, p. rewrite (position_idx _ _ c). tauto.
  - intros Hno. rewrite num_cores_to_corerange_set_fill, !u32_small by lia.
    destruct ((x start <? x grid) && (y start <? y grid)) eqn:Hin; [|done]. cbn [check mbind outcome_bind].
    rewrite total_available_cores_spec by (done || unfold in_grid; lia).
    destruct (Z.leb_spec target (x grid * y grid - position grid row_wise start)); [|done].
    destruct Hno. unfold ok, p. lia.
Qed.

(** The cores of a grid, counted by rows or columns, that [segment] speaks of. *)
Lemma split_groups coord_lt grid rw units :
  coord_order coord_lt → coord_mono coord_lt → small_grid grid → 0 < units →
  ∃ ws m, split_work_to_cores coord_lt grid units rw = Ok ws
    ∧ target_num_cores ws = Z.min units (x grid * y grid)
    ∧ 0 < m <= target_num_cores ws
    ∧ fills coord_lt rw (lane rw grid) (line rw grid) 0 (target_num_cores ws) (all_cores ws)
    ∧ fills coord_lt rw (lane rw grid) (line rw grid) 0 m (group_1 ws)
    ∧ fills coord_lt rw (lane rw grid) (line rw grid) m (target_num_cores ws) (group_2 ws)
    ∧ (m = target_num_cores ws ∧ units = target_num_cores ws * units_per_core_group_1 ws ∧ group_2 ws = []
       ∨ m = units mod target_num_cores ws
         ∧ units_per_core_group_2 ws = units / target_num_cores ws
         ∧ units_per_core_group_1 ws = u32 (units / target_num_cores ws + 1)).
Proof.
  intros Hlt Hmono Hg Hu. destruct (grid_lanes rw grid Hg) as (Hw & Hh & Hwh & Hdims).
  pose proof Hg as (Hgx & Hgy & _).
  unfold split_work_to_cores.
  rewrite (u32_small (x grid)), (u32_small (y grid)), (u32_small (_ * _)) by lia. set (n := Z.min units (x grid * y grid)).
  assert (Hn : 0 < n <= x grid * y grid) by lia.
  assert (Hset : ∀ t, 0 < t <= x grid * y grid →
    ∃ rs r, num_cores_to_corerange_set coord_lt (mk_coord 0 0) t grid rw = Ok rs
      ∧ fills coord_lt rw (lane rw grid) (line rw grid) 0 t rs
      ∧ last rs = Some r ∧ 0 <= lane rw (end_coord r) < lane rw grid
      ∧ 0 <= line rw (end_coord r) < line rw grid ∧ idx rw (lane rw grid) (end_coord r) = t - 1).
  { intros t Ht. assert (H0 : position grid rw (mk_coord 0 0) = 0) by (by destruct rw).
    destruct (run_corerange_set coord_lt (mk_coord 0 0) grid t rw) as (Heq & rs' & Hf' & Hfs);
      [done|done|unfold in_grid; simpl; lia|lia..|]. rewrite H0 in Hfs.
    destruct (fill_last coord_lt Hlt rw _ _ Hw Hh Hwh t Hmono) as (rs & r & Hf & Hr); [lia|].
    rewrite <- Heq, Hf' in Hf. injection Hf as <-. by exists rs', r. }
  destruct (Hset n Hn) as (all & ra & -> & Hall & Hlast & Hra). cbn [mbind outcome_bind].
  rewrite (fills_make _ Hlt _ _ _ _ _ _ Hall). cbn [mbind outcome_bind].
  rewrite udiv_ok, umod_ok by lia. cbn [mbind outcome_bind].
  pose proof (Z.div_mod units n ltac:(lia)) as Hdiv. pose proof (Z.mod_pos_bound units n ltac:(lia)) as Hmod.
  destruct (Z.eqb_spec (units mod n) 0) as [H0|H0]; cbn [mbind outcome_bind].
  - rewrite (fills_make _ Hlt _ _ _ _ _ _ Hall). cbn [mbind outcome_bind].
    eexists _, n. split; [done|]. cbn. split_and!; try done; try lia.
    + apply fills_nil.
    + left. split_and!; [done|lia|done].
  - assert (Hfull : n = x grid * y grid).
    { unfold n in *. destruct (Z.le_gt_cases units (x grid * y grid)); [|lia].
      rewrite Z.min_l, Z.mod_same in H0 by lia. done. }
    destruct (Hset (units mod n)) as (g1 & r1 & -> & Hg1 & Hlast1 & Hl1 & Hk1 & Hi1); [lia|].
    cbn [mbind outcome_bind]. unfold rbegin. rewrite Hlast1, Hlast. cbn [of_option mbind outcome_bind].
    assert (Hrest : core_group_2 coord_lt (x grid) (y grid) r1 ra rw
      = rest_of coord_lt rw (lane rw grid) (end_coord r1) (end_coord ra)) by (by destruct rw).
    rewrite Hrest. destruct Hra as (Hla & Hka & Hia).
    destruct (rest_of_spec coord_lt Hlt rw _ _ Hw Hh Hwh (end_coord r1) (end_coord ra) (units mod n))
      as (g2 & -> & Hg2); [done || lia..|].
    cbn [mbind outcome_bind]. rewrite (fills_make _ Hlt _ _ _ _ _ _ Hg1). cbn [mbind outcome_bind].
    rewrite (fills_make _ Hlt _ _ _ _ _ _ Hg2). cbn [mbind outcome_bind].
    eexists _, (units mod n). split; [done|]. cbn. split_and!; try done; try lia.
    by rewrite Hdims, <- Hfull in Hg2.
Qed.

(** C39: [split_work_to_cores] on at least one unit uses as many cores as there are
    units, or the whole grid; its groups are disjoint and make up those
    cores; the shares add up to the units to divide and differ by one at most.
    Dividing no units divides by zero. *)
Theorem split_work_to_cores_correct (coord_lt : CoreCoord → CoreCoord → bool)
  (grid : CoreCoord) (units : Z) (row_wise : bool) :
  coord_order coord_lt → coord_mono coord_lt → small_grid grid → 0 <= units < 2 ^ 32 →
  (units = 0 → split_work_to_cores coord_lt grid units row_wise = Err UB)
  ∧ (units ≠ 0 → ∃ ws, split_work_to_cores coord_lt grid units row_wise = Ok ws
      ∧ target_num_cores ws = Z.min units (x grid * y grid)
      ∧ num_cores (all_cores ws) = target_num_cores ws
      ∧ (∀ c, core_coord_in_core_ranges (all_cores ws) c = true → in_grid grid c)
      ∧ (∀ c, core_coord_in_core_ranges (all_cores ws) c
          = core_coord_in_core_ranges (group_1 ws) c || core_coord_in_core_ranges (group_2 ws) c)
      ∧ (∀ c, core_coord_in_core_ranges (group_1 ws) c && core_coord_in_core_ranges (group_2 ws) c = false)
      ∧ num_cores (group_1 ws) * units_per_core_group_1 ws
        + num_cores (group_2 ws) * units_per_core_group_2 ws = units
      ∧ (group_2 ws = [] ∨ units_per_core_group_1 ws = units_per_core_group_2 ws + 1)).
Proof.
  change (2 ^ 32) with 4294967296. intros Hlt Hmono Hg Hu. split.
  - intros ->. pose proof Hg as (? & ? & _). unfold split_work_to_cores.
    assert (Hp0 : position grid row_wise (mk_coord 0 0) = 0) by (by destruct row_wise).
    rewrite Z.min_l by (pose proof (u32_range (u32 (x grid) * u32 (y grid))); lia).
    destruct (run_corerange_set coord_lt (mk_coord 0 0) grid 0 row_wise) as (_ & rs & -> & Hf);
      [done|done|unfold in_grid; simpl; lia|lia|nia|].
    cbn [mbind outcome_bind]. by rewrite (fills_make _ Hlt _ _ _ _ _ _ Hf).
  - intros Hne. destruct (split_groups coord_lt grid row_wise units Hlt Hmono Hg ltac:(lia))
      as (ws & m & -> & Hn & Hm & Hall & Hg1 & Hg2 & Hshare).
    destruct (grid_lanes row_wise grid Hg) as (Hw & Hh & Hwh & Hdims).
    assert (Hq : units mod target_num_cores ws ≠ 0 →
      u32 (units / target_num_cores ws + 1) = units / target_num_cores ws + 1).
    { intros Hmod. assert (target_num_cores ws ≠ 1) by (intros Heq; by rewrite Heq, Z.mod_1_r in Hmod).
      assert (units / target_num_cores ws < units) by (apply Z.div_lt; lia).
      pose proof (Z.div_pos units (target_num_cores ws)). apply u32_small. lia. }
    pose proof (λ i e rs Hi He, fills_num_cores coord_lt Hlt row_wise _ _ Hw Hwh i e rs Hi He) as Hnum.
    exists ws. split; [done|].
    rewrite (Hnum 0 (target_num_cores ws)), (Hnum 0 m), (Hnum m (target_num_cores ws)) by (done || lia).
    pose proof (λ c, fills_contains _ _ _ _ _ _ _ c Hall) as Hca.
    pose proof (λ c, fills_contains _ _ _ _ _ _ _ c Hg1) as Hc1.
    pose proof (λ c, fills_contains _ _ _ _ _ _ _ c Hg2) as Hc2. unfold segment in *.
    split_and!; [done|lia| | | | |].
    + intros c Hc%Hca. apply (in_grid_lanes row_wise). tauto.
    + intros c. apply eq_true_iff_eq. rewrite orb_true_iff, Hca, Hc1, Hc2. lia.
    + intros c. apply not_true_iff_false. rewrite andb_true_iff, Hc1, Hc2. lia.
    + destruct Hshare as [(-> & Heq & _)|(Hme & -> & ->)]; [lia|]. rewrite Hq by lia.
      pose proof (Z.div_mod units (target_num_cores ws)) as Hdiv. rewrite <- Hme in Hdiv.
      revert Hdiv. generalize (units / target_num_cores ws). intros q Hdiv.
      specialize (Hdiv ltac:(lia)). ring_simplify. lia.
    + destruct Hshare as [(_ & _ & ?)|(Hme & -> & ->)]; [by left|right]. apply Hq. lia.
Qed.

Lemma pair_lt_mono : coord_mono pair_lt.
Proof.
  intros [a b] [c d]; unfold pair_lt; simpl. intros H1 H2 Hne.
  destruct (Z.eq_dec a c) as [->|]; [|lia]. destruct (Z.eq_dec b d) as [->|]; [done|lia].
Qed.

Lemma num_cores_to_corerange_set_correct_witness :
  ∃ rs, num_cores_to_corerange_set pair_lt (mk_coord 2 1) 13 (mk_coord 5 4) true = Ok rs ∧ num_cores rs = 13.
Proof.
  destruct (num_cores_to_corerange_set_correct pair_lt (mk_coord 2 1) (mk_coord 5 4) 13 true) as [H _].
  - exact pair_lt_order.
  - unfold small_grid. simpl. lia.
  - simpl. lia.
  - simpl. lia.
  - lia.
  - destruct H as (rs & H & _ & Hn & _); [simpl; lia|]. by exists rs.
Defined.

Lemma split_work_to_cores_correct_witness :
  ∃ ws, split_work_to_cores pair_lt (mk_coord 4 3) 29 true = Ok ws
    ∧ num_cores (group_1 ws) * units_per_core_group_1 ws
      + num_cores (group_2 ws) * units_per_core_group_2 ws = 29.
Proof.
  destruct (split_work_to_cores_correct pair_lt (mk_coord 4 3) 29 true) as [_ H].
  - exact pair_lt_order.
  - exact pair_lt_mono.
  - unfold small_grid. simpl. lia.
  - lia.
  - destruct H as (ws & H & _ & _ & _ & _ & _ & Hsum & _); [lia|]. by exists ws.
Defined.

Example split_29_units : split_work_to_cores pair_lt (mk_coord 4 3) 29 true =
  Ok (mk_split 12 [mk_range (mk_coord 0 0) (mk_coord 3 2)]
        [mk_range (mk_coord 0 0) (mk_coord 3 0); mk_range (mk_coord 0 1) (mk_coord 0 1)]
        [mk_range (mk_coord 0 2) (mk_coord 3 2); mk_range (mk_coord 1 1) (mk_coord 3 1)] 3 2).
Proof. vm_compute. reflexivity. Qed.

(** ** Divisors *)
Lemma divides_mod a b : b ≠ 0 → (b | a) ↔ a mod b = 0.
Proof. intros. by rewrite Z.mod_divide. Qed.

Lemma merge_sticks_loop_spec fuel total stick max_read cur sticks size :
  0 < stick → 0 <= total → max_read + stick < 2 ^ 32 → 0 < cur →
  max_read < cur + Z.of_nat fuel → (stick | cur) →
  (size | total) → 0 < size → sticks * size = total →
  ∃ size', merge_sticks_loop fuel total stick max_read cur sticks = Ok (total / size')
    ∧ (size' = size ∨ cur <= size' <= max_read ∧ (stick | size')) ∧ 0 < size' ∧ (size' | total)
    ∧ (∀ d, cur <= d <= max_read → (stick | d) → (d | total) → d <= size').
Proof.
  change (2 ^ 32) with 4294967296. intros Hst Ht Hm. revert cur sticks size.
  induction fuel as [|fuel IH]; intros cur sticks size Hc Hf Hdc Hd Hs Heq; cbn [merge_sticks_loop];
    (destruct (Z.leb_spec cur max_read); [try lia|]).
  1,3: exists size; replace (total / size) with sticks by (rewrite <- Heq, Z.div_mul; lia);
    split_and!; auto; lia.
  rewrite umod_ok by lia. cbn [mbind outcome_bind]. rewrite (u32_small (cur + stick)) by lia.
  assert (Hdc' : (stick | cur + stick)) by (destruct Hdc as [q ->]; exists (q + 1); lia).
  assert (Hstep : ∀ size0, size0 = cur ∨ size0 = size ∧ ¬ (cur | total) → ∀ size',
     (size' = size0 ∨ cur + stick <= size' <= max_read ∧ (stick | size')) ∧ 0 < size' ∧ (size' | total)
      ∧ (∀ d, cur + stick <= d <= max_read → (stick | d) → (d | total) → d <= size') →
     (size' = size ∨ cur <= size' <= max_read ∧ (stick | size')) ∧ 0 < size' ∧ (size' | total)
      ∧ (∀ d, cur <= d <= max_read → (stick | d) → (d | total) → d <= size')).
  { intros size0 H0 size' (Hsz & Hp & Hdv & Hmax). split_and!; [|done|done|].
    - destruct H0 as [->|[-> _]], Hsz as [->|[? ?]]; auto; right; (split; [lia|done]).
    - intros d Hd1 Hd2 Hd3. destruct (decide (cur + stick <= d)); [apply Hmax; [lia|done..]|].
      assert (d = cur) as ->.
      { destruct Hd2 as [q ->], Hdc as [k ->]. assert (q < k + 1) by nia. assert (k <= q) by nia.
        by replace q with k by lia. }
      destruct H0 as [->|[_ Hno]]; [|done]. destruct Hsz as [->|[? _]]; lia. }
  destruct (Z.eqb_spec (total mod cur) 0) as [Hr|Hr].
  - rewrite udiv_ok by lia. cbn [mbind outcome_bind].
    assert (Hct : (cur | total)) by (apply Z.mod_divide; lia).
    destruct (IH (cur + stick) (total / cur) cur) as (size' & -> & H'); [lia|lia|done|done|lia| |].
    + destruct Hct as [q ->]. rewrite Z.div_mul; lia.
    + exists size'. split; [done|]. apply (Hstep cur); [by left|done].
  - cbn [mbind outcome_bind].
    destruct (IH (cur + stick) sticks size) as (size' & -> & H'); [lia|lia|done..|].
    exists size'. split; [done|]. apply (Hstep size); [right; split; [done|]|done].
    intros Hct. apply Hr. by apply Z.mod_divide; [lia|].
Qed.

(** [merge_num_sticks_to_read] regroups the bytes to read into sticks of the
    greatest size that is a multiple of the original, divides the total and is
    no larger than the limit; the number of bytes stays the same. *)
Theorem merge_num_sticks_to_read_correct (sticks stick_size max_read : Z) :
  0 <= sticks → 0 < stick_size → sticks * stick_size < 2 ^ 32 → 0 <= max_read → max_read + stick_size < 2 ^ 32 →
  ∃ n size, merge_num_sticks_to_read sticks stick_size max_read = Ok n
    ∧ n * size = sticks * stick_size
    ∧ (stick_size | size)
    ∧ (size = stick_size ∨ size <= max_read)
    ∧ (∀ d, stick_size <= d <= max_read → (stick_size | d) → (d | sticks * stick_size) → d <= size).
Proof.
  intros H1 H2 H3 H4 H5. unfold merge_num_sticks_to_read.
  rewrite u32_small by nia.
  destruct (merge_sticks_loop_spec (S (Z.to_nat max_read)) (sticks * stick_size) stick_size max_read
    stick_size sticks stick_size) as (size & -> & Hsz & Hp & Hdv & Hmax); try done; try nia.
  - by exists sticks.
  - exists (sticks * stick_size / size), size. split_and!; [done| | | |done].
    + destruct Hdv as [q ->]. rewrite Z.div_mul; lia.
    + destruct Hsz as [->|[_ ?]]; [by exists 1; lia|done].
    + destruct Hsz as [->|[? _]]; [by left|right; lia].
Qed.

Lemma merge_num_sticks_to_read_correct_witness :
  merge_num_sticks_to_read 12 32 256 = Ok 2
  ∧ ∃ n size, merge_num_sticks_to_read 12 32 256 = Ok n ∧ n * size = 12 * 32.
Proof.
  split; [by vm_compute|].
  destruct (merge_num_sticks_to_read_correct 12 32 256) as (n & size & H & Hn & _); [lia..|]. by exists n, size.
Defined.

(** ** The largest divisors *)
Lemma divisor_loop_spec fuel skip val d :
  0 <= d <= Z.of_nat fuel → skip 1 = false →
  ∃ r, divisor_loop fuel skip val d = Ok r
    ∧ 1 <= r ∧ (r = 1 ∨ r <= d) ∧ skip r = false ∧ val mod r = 0
    ∧ (∀ k, 1 <= k <= d → skip k = false → val mod k = 0 → k <= r).
Proof.
  revert d; induction fuel as [|fuel IH]; intros d Hd Hs; cbn [divisor_loop];
    (destruct (Z.leb_spec 1 d); [try lia|]).
  1,3: exists 1; split_and!; auto; [lia|by rewrite Z.mod_1_r|lia].
  destruct (IH (d - 1)) as (r & Hr & Hr1 & Hle & Hsr & Hmod & Hmax); [lia|done|].
  assert (Hstep : skip d = true ∨ val mod d ≠ 0 →
    ∀ k, 1 <= k <= d → skip k = false → val mod k = 0 → k <= r).
  { intros Hno k Hk Hsk Hvk. destruct (decide (k = d)) as [->|]; [|apply Hmax; lia || done].
    rewrite Hsk, Hvk in Hno. by destruct Hno. }
  destruct (skip d) eqn:Hsd.
  - exists r. split_and!; auto. lia.
  - rewrite umod_ok by lia. cbn [mbind outcome_bind].
    destruct (Z.eqb_spec (val mod d) 0) as [H0|H0].
    + exists d. split_and!; auto; lia.
    + exists r. split_and!; auto. lia.
Qed.

Lemma max_cores_loop_spec fuel num_tiles max i num :
  2 <= i → max < i + Z.of_nat fuel → max < 2 ^ 31 - 1 → 1 <= num < i → (num = 1 ∨ num <= max) →
  num_tiles mod num = 0 → (∀ k, 1 <= k < i → num_tiles mod k = 0 → k <= num) →
  ∃ r, max_cores_loop fuel num_tiles max i num = Ok r
    ∧ 1 <= r ∧ (r = 1 ∨ r <= max) ∧ num_tiles mod r = 0
    ∧ (∀ k, 1 <= k <= max → num_tiles mod k = 0 → k <= r).
Proof.
  change (2 ^ 31 - 1) with 2147483647.
  revert i num; induction fuel as [|fuel IH]; intros i num Hi Hf Hm Hn Hnm Hmod Hmax; cbn [max_cores_loop];
    (destruct (Z.leb_spec i max); [try lia|]).
  1,3: exists num; split_and!; auto; [lia|intros k Hk; apply Hmax; lia].
  rewrite umod_ok by lia. cbn [mbind outcome_bind].
  rewrite (proj2 (Z.ltb_lt i _)) by lia. cbn [check mbind outcome_bind].
  apply IH; try lia.
  - destruct (Z.eqb_spec (num_tiles mod i) 0); lia.
  - destruct (Z.eqb_spec (num_tiles mod i) 0); [by right|lia].
  - by destruct (Z.eqb_spec (num_tiles mod i) 0).
  - intros k Hk Hkm. destruct (Z.eqb_spec (num_tiles mod i) 0) as [H0|H0]; [lia|].
    destruct (decide (k = i)) as [->|]; [done|]. apply Hmax; [lia|done].
Qed.

(** [find_max_block_size] is the greatest divisor up to the bound,
    [find_max_divisor] the greatest one other than 5 and 7, and
    [get_max_cores_divisible_by_tiles_per_core_tiles] takes the greatest divisor,
    made even on request, with the tiles per core rounded up; asked for an
    even count when only 1 divides, it divides by zero. *)
Theorem largest_divisors (val bound : Z) :
  0 <= val < 2 ^ 32 → 1 <= bound < 2 ^ 31 - 1 →
  (∃ d, find_max_block_size val bound = Ok d
     ∧ 1 <= d <= bound ∧ val mod d = 0 ∧ ∀ k, 1 <= k <= bound → val mod k = 0 → k <= d)
  ∧ (∃ d, find_max_divisor val bound = Ok d
     ∧ 1 <= d <= bound ∧ d ≠ 5 ∧ d ≠ 7 ∧ val mod d = 0
     ∧ ∀ k, 1 <= k <= bound → k ≠ 5 → k ≠ 7 → val mod k = 0 → k <= d)
  ∧ (∃ n, find_max_block_size val bound = Ok n
     ∧ get_max_cores_divisible_by_tiles_per_core_tiles val bound false = Ok (n, val / n)
     ∧ get_max_cores_divisible_by_tiles_per_core_tiles val bound true
       = if n =? 1 then Err UB
         else let e := n - n mod 2 in Ok (e, val / e + (if val mod e =? 0 then 0 else 1))).
Proof.
  change (2 ^ 31 - 1) with 2147483647. change (2 ^ 32) with 4294967296. intros Hv Hb.
  assert (Hi : to_i32 bound = bound).
  { unfold to_i32. rewrite u32_small by lia. by rewrite (proj2 (Z.ltb_lt bound (2 ^ 31))) by lia. }
  unfold find_max_block_size, find_max_divisor. rewrite Hi.
  destruct (divisor_loop_spec (Z.to_nat bound) (λ _, false) val bound) as (d & Hd & Hd1 & Hdb & _ & Hdm & Hdmax);
    [lia|done|].
  destruct (divisor_loop_spec (Z.to_nat bound) (λ d, (d =? 7) || (d =? 5)) val bound)
    as (f & Hf & Hf1 & Hfb & Hfs & Hfm & Hfmax); [lia|done|].
  destruct (max_cores_loop_spec (Z.to_nat bound) val bound 2 1) as (n & Hn & Hn1 & Hnb & Hnm & Hnmax);
    [lia|lia|lia|lia|lia|by rewrite Z.mod_1_r|lia|].
  assert (n = d) as ->.
  { assert (n <= d) by (apply Hdmax; lia || done). assert (d <= n) by (apply Hnmax; lia || done). lia. }
  split_and!.
  - exists d. split_and!; auto; lia.
  - exists f. split_and!; auto; try lia. intros k Hk H5 H7. apply Hfmax; lia.
  - exists d. split; [done|]. unfold get_max_cores_divisible_by_tiles_per_core_tiles. rewrite Hn.
    cbn [mbind outcome_bind]. pose proof (Z.mod_pos_bound d 2 ltac:(lia)). rewrite udiv_ok, umod_ok by lia.
    cbn [mbind outcome_bind]. rewrite Hnm, (u32_small (d - d mod 2)) by lia. split; [done|].
    destruct (Z.eqb_spec d 1) as [->|Hd']; [done|].
    assert (1 < d - d mod 2 <= d) by (pose proof (Z.div_mod d 2); lia).
    rewrite udiv_ok, umod_ok by lia. cbn [mbind outcome_bind]. cbv zeta.
    pose proof (Z.div_lt_upper_bound val (d - d mod 2) 2147483648 ltac:(lia) ltac:(nia)).
    pose proof (Z.div_pos val (d - d mod 2) ltac:(lia) ltac:(lia)).
    destruct (Z.eqb_spec (val mod (d - d mod 2)) 0); simpl; [by rewrite Z.add_0_r|by rewrite u32_small by lia].
Qed.

Lemma largest_divisors_witness :
  (∃ d, find_max_divisor 70 14 = Ok d ∧ d = 14) ∧ get_max_cores_divisible_by_tiles_per_core_tiles 7 4 true = Err UB.
Proof.
  split.
  - destruct (largest_divisors 70 14) as (_ & (d & H & _ & _ & _ & _ & Hmax) & _); [lia..|].
    exists d. split; [exact H|]. vm_compute in H. by injection H as <-.
  - by vm_compute.
Defined.
