(* ===== verification/BlockFloat.v ===== *)
(** * Block floating point (tt_metal/common/blockfloat_common.hpp, bfloat8.hpp, bfloat4.hpp)

    Sixteen numbers share an exponent; each keeps a sign and a mantissa of 7
    ([Bfp8]), 3 ([Bfp4]) or 1 ([Bfp2]) bits.  A [float] is its 32-bit pattern.
    A tile is 32 rows of 32 numbers, stored as four 16 x 16 subtiles; the nest of
    loops over [tr], [tc] and [i] is [for_each] over [tile_rows].  The packing
    code is generic in the source for all formats but [Bfp8], which has a copy.

    The unpacking code works on vectors of eight 32-bit lanes.  A lane of a
    vector instruction is the machine operation of the same name; a comparison
    mask, all ones or zero in each lane, is a boolean. *)
From S2P Require Import Prelude.

Inductive DataFormat :=
| Float32 | Float16 | Bfp8 | Bfp4 | Bfp2 | Float16_b | Bfp8_b | Bfp4_b | Bfp2_b | Lf8 | Fp8_e4m3
| Int8 | Tf32 | UInt8 | UInt16 | Int32 | UInt32 | RawUInt8 | RawUInt16 | RawUInt32 | Invalid.

#[export] Instance DataFormat_eq_dec : EqDecision DataFormat.
Proof. solve_decision. Defined.

Definition is_integer_format (format : DataFormat) : bool :=
  match format with
  | UInt32 | Int8 | UInt16 | UInt8 | Int32 | RawUInt32 | RawUInt16 | RawUInt8 => true
  | _ => false
  end.

(** [std::invalid_argument] is [TT_THROW]. *)
Definition datum_size (format : DataFormat) : outcome Z :=
  match format with
  | Bfp2 | Bfp2_b | Bfp4 | Bfp4_b | Bfp8 | Bfp8_b => Err TT_THROW
  | Float16 | Float16_b => Ok 2
  | Float32 => Ok 4
  | Tf32 => Err TT_THROW
  | Int8 | Lf8 | UInt8 => Ok 1
  | UInt16 => Ok 2
  | UInt32 => Ok 4
  | RawUInt8 => Ok 1
  | RawUInt16 => Ok 2
  | Int32 => Ok 4
  | RawUInt32 => Ok 4
  | Invalid => Err TT_THROW
  | Fp8_e4m3 => Err TT_THROW
  end.

Definition tile_size (format : DataFormat) : outcome Z :=
  match format with
  | Bfp2 | Bfp2_b => Ok (64 * 4 + 16 * 4)
  | Bfp4 | Bfp4_b => Ok (128 * 4 + 16 * 4)
  | Bfp8 | Bfp8_b => Ok (256 * 4 + 16 * 4)
  | Float16 | Float16_b => Ok (1024 * 2)
  | Float32 => Ok (1024 * 4)
  | Tf32 => Err TT_THROW
  | Int8 | Lf8 | UInt8 => Ok 1024
  | UInt16 => Ok (1024 * 2)
  | UInt32 => Ok (1024 * 4)
  | RawUInt8 => Ok 1024
  | RawUInt16 => Ok (1024 * 2)
  | Int32 => Ok (1024 * 4)
  | RawUInt32 => Ok (1024 * 4)
  | Invalid => Err TT_THROW
  | Fp8_e4m3 => Err TT_THROW
  end.

Definition is_bfp (format : DataFormat) : bool :=
  match format with Bfp2 | Bfp4 | Bfp8 | Bfp2_b | Bfp4_b | Bfp8_b => true | _ => false end.

(** ** Packing *)

(** The exponent field, rebiased to five bits with saturation in the A formats. *)
Definition rebias (se : Z) : Z := let se := se - 127 + 15 in if 31 <? se then 31 else if se <? 0 then 0 else se.

Definition get_max_exp (vec : list Z) (is_exp_a : bool) : outcome Z :=
  _ ← check (length vec =? 16)%nat TT_ASSERT;
  Ok (u8 (foldl (λ max v,
    let exp := Z.shiftr (Z.land v 0x7f800000) 23 in
    let exp := if is_exp_a then rebias exp else exp in
    if max <? exp then exp else max) 0 vec)).

Definition get_exp_dword (vec : list Z) : outcome Z :=
  _ ← check (length vec =? 4)%nat TT_ASSERT;
  Ok (foldl (λ tmp '(i, v), Z.lor tmp (Z.shiftl (Z.land v 0xff) (Z.of_nat i * 8))) 0 (imap (λ i v, (i, v)) vec)).

Definition get_byte (word index : Z) : outcome Z :=
  _ ← check (index <? 4) TT_ASSERT;
  let mask := u32 (Z.shiftl 0xff (8 * index)) in
  let masked := Z.land word mask in
  Ok (Z.shiftr masked (8 * index)).

(** [while (exp_diff > 31)] *)
Fixpoint shift_down (fuel : nat) (mantissa exp_diff : Z) : outcome Z :=
  if 31 <? exp_diff then
    match fuel with
    | O => Err FUEL
    | S fuel => shift_down fuel (Z.shiftr mantissa 31) (exp_diff - 31)
    end
  else Ok (Z.shiftr mantissa exp_diff).

Definition MANTISSA_BFP_WIDTH (BfpFormat : DataFormat) : Z :=
  match BfpFormat with Bfp2 | Bfp2_b => 1 | Bfp4 | Bfp4_b => 3 | _ => 7 end.

Definition convert_u32_to_bfp (BfpFormat : DataFormat) (truncate_bfp_mantissa : bool)
  (input shared_exp : Z) (is_exp_a : bool) : outcome Z :=
  _ ← check (is_bfp BfpFormat) TT_ASSERT;
  let W := MANTISSA_BFP_WIDTH BfpFormat in
  let MANTISSA_BFP_SHIFT := 24 - W in
  let MANTISSA_BFP_MAX_VAL := Z.shiftl 1 W - 1 in
  let EXP_MANTISSA_BMSK := Z.shiftl 1 31 - 1 in
  if Z.land input EXP_MANTISSA_BMSK =? 0 then Ok 0
  else
    let mantissa := Z.land input 0x007fffff in
    let exp := Z.shiftr (Z.land input 0x7f800000) 23 in
    let sign := Z.shiftr (Z.land input 0x80000000) 31 in
    let '(exp, mantissa) :=
      if is_exp_a then
        let se := exp - 127 + 15 in
        if 31 <? se then (31, 0x007fffff) else if se <? 0 then (0, 0) else (se, mantissa)
      else (exp, mantissa) in
    let mantissa := Z.lor (Z.shiftl 1 23) mantissa in
    mantissa ← (if exp <=? shared_exp
      then shift_down (Z.to_nat (shared_exp - exp)) mantissa (shared_exp - exp)
      else Ok mantissa);
    let mantissa :=
      if truncate_bfp_mantissa then Z.shiftr mantissa MANTISSA_BFP_SHIFT
      else
        let mantissa := u32 (mantissa + Z.shiftl 1 (MANTISSA_BFP_SHIFT - 1)) in
        let mantissa := Z.shiftr mantissa MANTISSA_BFP_SHIFT in
        if MANTISSA_BFP_MAX_VAL <? mantissa then MANTISSA_BFP_MAX_VAL else mantissa in
    let sign := if 0 =? mantissa then 0 else sign in
    Ok (u8 (Z.lor (Z.shiftl sign W) mantissa)).

Definition nums_in_dword (BfpFormat : DataFormat) : nat :=
  match BfpFormat with Bfp2 | Bfp2_b => 16 | Bfp4 | Bfp4_b => 8 | _ => 4 end.

(** [for (int i = nums_in_dword - 1; i >= 0; --i)]: the first number in the low bits. *)
Definition create_packed_bfp_packed_as_u32 (BfpFormat : DataFormat) (u32_vec : list Z) (shared_exp : Z)
  (is_exp_a : bool) : outcome Z :=
  _ ← check (is_bfp BfpFormat) TT_ASSERT;
  let nums := nums_in_dword BfpFormat in
  let bits := 32 / Z.of_nat nums in
  let mask := Z.shiftl 1 bits - 1 in
  for_each (λ i tmp_o,
    v ← at_ u32_vec i;
    conv_num ← convert_u32_to_bfp BfpFormat false v shared_exp is_exp_a;
    let tmp_o := u32 (Z.shiftl tmp_o bits) in
    Ok (Z.lor tmp_o (Z.land conv_num mask))) (reverse (seq 0 nums)) 0.

(** bfloat8.hpp has its own copy of the two functions. *)
Definition convert_u32_to_bfp8 (truncate_bfp_mantissa : bool) (input shared_exp : Z) (is_exp_a : bool) : outcome Z :=
  let EXP_MANTISSA_BMSK := Z.shiftl 1 31 - 1 in
  if Z.land input EXP_MANTISSA_BMSK =? 0 then Ok 0
  else
    let mantissa := Z.land input 0x007fffff in
    let exp := Z.shiftr (Z.land input 0x7f800000) 23 in
    let sign := Z.shiftr (Z.land input 0x80000000) 31 in
    let '(exp, mantissa) :=
      if is_exp_a then
        let se := exp - 127 + 15 in
        if 31 <? se then (31, 0x007fffff) else if se <? 0 then (0, 0) else (se, mantissa)
      else (exp, mantissa) in
    let mantissa := Z.lor (Z.shiftl 1 23) mantissa in
    mantissa ← (if exp <=? shared_exp
      then shift_down (Z.to_nat (shared_exp - exp)) mantissa (shared_exp - exp)
      else Ok mantissa);
    let mantissa :=
      if truncate_bfp_mantissa then Z.shiftr mantissa 17
      else
        let mantissa := u32 (mantissa + Z.shiftl 1 16) in
        let mantissa := Z.shiftr mantissa 17 in
        if 127 <? mantissa then 127 else mantissa in
    let sign := if 0 =? mantissa then 0 else sign in
    Ok (u8 (Z.lor (Z.shiftl sign 7) mantissa)).

Definition create_packed_bfp8_packed_as_u32 (u32_vec : list Z) (shared_exp : Z) (is_exp_a : bool) : outcome Z :=
  let nums_in_dword := 4%nat in
  let mask := Z.shiftl 1 (32 / 4) - 1 in
  for_each (λ i tmp_o,
    v ← at_ u32_vec i;
    conv_num ← convert_u32_to_bfp8 false v shared_exp is_exp_a;
    let tmp_o := u32 (Z.shiftl tmp_o (32 / 4)) in
    Ok (Z.lor tmp_o (Z.land conv_num mask))) (reverse (seq 0 nums_in_dword)) 0.

(** The rows of sixteen of a tile, in the order of its loops. *)
Definition tile_rows : list (Z * Z * Z) :=
  tr ← seqZ 0 2; tc ← seqZ 0 2; (λ i, (tr, tc, i)) <$> seqZ 0 16.

(** [v.push_back(x); if (v.size() % n == 0) { out.push_back(emit(v)); v.clear(); }] *)
Definition push_group (n : nat) (emit : list Z → outcome Z) (x : Z) (s : list Z * list Z)
  : outcome (list Z * list Z) :=
  let '(out, v) := s in
  let v := v ++ [x] in
  if (length v mod n =? 0)%nat then d ← emit v; Ok (out ++ [d], []) else Ok (out, v).

Record pack_state := mk_pack {
  packed_result : list Z;
  exponents : list Z;
  packed_data : list Z;
  data : list Z;
  fp32_element_index : Z
}.

Section pack.
Context (create_packed : list Z → Z → outcome Z) (num_mantissas_in_dword : nat).
Context (fp32_vec : list Z) (row_major_input is_exp_a : bool).

(** [for (int j = 0; j < subtile_cols; ++j)] *)
Definition read_row (tile_index : Z) (row : Z * Z * Z) (fp32_element_index : Z) : outcome (list Z * Z) :=
  let '(tr, tc, i) := row in
  for_each (λ j '(single_row, fp32_element_index),
    let '(data_index, fp32_element_index) :=
      if row_major_input
      then ((tr * 16 + i) * 32 + (tc * 16 + j) + 1024 * tile_index, fp32_element_index)
      else (fp32_element_index, fp32_element_index + 1) in
    uint32_num ← vec_at fp32_vec data_index;
    Ok (single_row ++ [uint32_num], fp32_element_index)) (seqZ 0 16) ([], fp32_element_index).

Definition pack_row (tile_index : Z) (row : Z * Z * Z) (st : pack_state) : outcome pack_state :=
  '(single_row, index) ← read_row tile_index row (fp32_element_index st);
  exp ← get_max_exp single_row is_exp_a;
  '(packed_result, exponents) ← push_group 4 get_exp_dword exp (packed_result st, exponents st);
  '(packed_data, data) ←
    for_each (push_group num_mantissas_in_dword (λ data, create_packed data exp))
      single_row (packed_data st, data st);
  Ok (mk_pack packed_result exponents packed_data data index).

Definition pack_tile (tile_index : Z) (st : pack_state) : outcome pack_state :=
  st ← for_each (pack_row tile_index) tile_rows
    (mk_pack (packed_result st) (exponents st) [] (data st) (fp32_element_index st));
  Ok (mk_pack (packed_result st ++ packed_data st) (exponents st) [] (data st) (fp32_element_index st)).

Definition pack_tiles : outcome (list Z) :=
  _ ← check (Z.of_nat (length fp32_vec) mod 1024 =? 0) TT_ASSERT;
  let num_tiles := u32 (Z.of_nat (length fp32_vec) / 1024) in
  st ← for_each pack_tile (seqZ 0 num_tiles) (mk_pack [] [] [] [] 0);
  Ok (packed_result st).
End pack.

Definition pack_fp32_vec_as_bfp_tiles (BfpFormat : DataFormat) (fp32_vec : list Z) (row_major_input is_exp_a : bool)
  : outcome (list Z) :=
  _ ← check (is_bfp BfpFormat) TT_ASSERT;
  pack_tiles (λ data exp, create_packed_bfp_packed_as_u32 BfpFormat data exp is_exp_a)
    (nums_in_dword BfpFormat) fp32_vec row_major_input is_exp_a.

Definition pack_fp32_vec_as_bfp8_tiles (fp32_vec : list Z) (row_major_input is_exp_a : bool) : outcome (list Z) :=
  pack_tiles (λ data exp, create_packed_bfp8_packed_as_u32 data exp is_exp_a) 4 fp32_vec row_major_input is_exp_a.

Definition pack_fp32_vec_as_bfp4_tiles (fp32_vec : list Z) (row_major_input is_exp_a : bool) : outcome (list Z) :=
  pack_fp32_vec_as_bfp_tiles Bfp4_b fp32_vec row_major_input is_exp_a.

Definition create_constant_vector (BfpFormat : DataFormat) (pack : list Z → bool → bool → outcome (list Z))
  (num_bytes value : Z) (is_exp_a : bool) : outcome (list Z) :=
  single_bfp_tile_size ← tile_size BfpFormat;
  _ ← check (num_bytes mod single_bfp_tile_size =? 0) TT_ASSERT;
  let num_tiles := num_bytes / single_bfp_tile_size in
  let packed_data_size := num_bytes / 4 in
  let fp32_vec := replicate (Z.to_nat (num_tiles * 1024)) value in
  packed_result ← pack fp32_vec true is_exp_a;
  _ ← check (Z.of_nat (length packed_result) =? packed_data_size) TT_ASSERT;
  Ok packed_result.

Definition create_constant_vector_of_bfp8 (num_bytes value : Z) (is_exp_a : bool) : outcome (list Z) :=
  create_constant_vector Bfp8_b pack_fp32_vec_as_bfp8_tiles num_bytes value is_exp_a.
Definition create_constant_vector_of_bfp4 (num_bytes value : Z) (is_exp_a : bool) : outcome (list Z) :=
  create_constant_vector Bfp4_b pack_fp32_vec_as_bfp4_tiles num_bytes value is_exp_a.

(** ** Unpacking *)

(** 32-bit lane operations. *)
Definition sll (a n : Z) : Z := u32 (Z.shiftl a n).
Definition srl (a n : Z) : Z := Z.shiftr a n.
Definition cmpgt (a b : Z) : bool := to_i32 b <? to_i32 a.
Definition blendv {A} (a b : A) (mask : bool) : A := if mask then b else a.
(** [_mm256_movemask_ps]: bit [k] is the mask of lane [k]. *)
Definition movemask (masks : list bool) : Z := foldr (λ b m, Z.b2z b + 2 * m) 0 masks.

(** [for (int shift_val = 0; shift_val < W; shift_val++)]: shift the mantissa until its
    top bit is set. *)
Definition normalize (W man : Z) : Z * Z :=
  foldl (λ '(man_shifted, shift_cnt) shift_val,
    let shift_mask := cmpgt man_shifted (2 ^ (W - 1)) || (man_shifted =? 2 ^ (W - 1)) in
    (blendv (sll man_shifted 1) man_shifted shift_mask, blendv (shift_val + 1) shift_cnt shift_mask))
    (man, 0) (seqZ 0 W).

Record lane_out := mk_lane {
  exp_positive : bool;
  shift_exceeds : bool;
  select_mask : bool;
  float_bits : Z
}.

(** One lane; the mantissa has [W] bits, so the constants are [2^W - 1], [2^(W-1)] and [23 - W]. *)
Definition unpack_lane (W : Z) (is_exp_a : bool) (exp_vector combined : Z) : lane_out :=
  let rebias_offset := if is_exp_a then u32 (-112) else 0 in
  let sign := srl combined W in
  let man := Z.land combined (2 ^ W - 1) in
  let select_mask := man =? 0 in
  let '(man_shifted, shift_cnt) := normalize W man in
  let man_shifted := Z.land (sll man_shifted 1) (2 ^ W - 1) in
  let man := blendv man_shifted man select_mask in
  let out_exp := blendv (u32 (exp_vector - u32 (rebias_offset + shift_cnt))) 0 select_mask in
  let sign := sll sign 31 in
  let out_exp := sll out_exp 23 in
  let man := sll man (23 - W) in
  mk_lane (cmpgt exp_vector 0) (cmpgt shift_cnt exp_vector) select_mask (Z.lor sign (Z.lor out_exp man)).

(** The assertion on eight lanes: [!] is the logical negation. *)
Definition shift_check (lanes : list lane_out) : outcome unit :=
  check (Z.land (Z.land (movemask (exp_positive <$> lanes)) (movemask (shift_exceeds <$> lanes)))
           (if movemask (select_mask <$> lanes) =? 0 then 1 else 0) =? 0) TT_ASSERT.

Section unpack.
Context (num_elements_in_dword : Z) (W : Z) (bfp_tiles : list Z) (row_major_output is_exp_a : bool).

Definition num_bfp_dwords_in_tile : Z := 1024 / num_elements_in_dword + 16.
Definition num_dwords_per_row : Z := 16 / num_elements_in_dword.

(** The fields of a word, the lowest first. *)
Definition split_word (word : Z) : list Z :=
  let bits := 32 / num_elements_in_dword in
  (λ k, srl (Z.land word (Z.shiftl (2 ^ bits - 1) (k * bits))) (k * bits)) <$> seqZ 0 num_elements_in_dword.

(** [_mm256_storeu_ps(&float_vec[i], v)] *)
Definition storeu (float_vec : list Z) (i : Z) (v : list Z) : outcome (list Z) :=
  if (0 <=? i) && (i + Z.of_nat (length v) <=? Z.of_nat (length float_vec))
  then Ok (list_inserts (Z.to_nat i) v float_vec) else Err UB.

(** The body of the loop over [j]: two words. *)
Definition unpack_block (tile_index : Z) (row : Z * Z * Z) (j : Z) (st : list Z * Z) : outcome (list Z * Z) :=
  let '(tr, tc, i) := row in
  let '(float_vec, fp32_element_index) := st in
  let subtile_r := tr * 16 + i in
  let subtile_c := tc * 16 + j in
  let data_index := tr * (32 * num_dwords_per_row) + tc * (16 * num_dwords_per_row)
                    + i * num_dwords_per_row + j / num_elements_in_dword in
  let tile_and_data_index := data_index + num_bfp_dwords_in_tile * tile_index in
  let exponent_index := Z.shiftr data_index (Z.log2 (4 * num_dwords_per_row)) + num_bfp_dwords_in_tile * tile_index in
  exp_word ← vec_at bfp_tiles exponent_index;
  let sub_word_index := Z.land (Z.shiftr tile_and_data_index (Z.log2 num_dwords_per_row)) 3 in
  exp_vector ← get_byte exp_word sub_word_index;
  first ← vec_at bfp_tiles (16 + tile_and_data_index);
  second ← vec_at bfp_tiles (16 + tile_and_data_index + 1);
  let lanes := unpack_lane W is_exp_a exp_vector <$> (split_word first ++ split_word second) in
  _ ← for_each (λ k _, shift_check (take 8 (drop (8 * k) lanes))) (seq 0 (length lanes / 8)) tt;
  let '(float_data_index, fp32_element_index) :=
    if row_major_output then (subtile_c + 32 * subtile_r + tile_index * 1024, fp32_element_index)
    else (fp32_element_index, fp32_element_index + 2 * num_elements_in_dword) in
  float_vec ← storeu float_vec float_data_index (float_bits <$> lanes);
  Ok (float_vec, fp32_element_index).

Definition unpack_row (tile_index : Z) (row : Z * Z * Z) (st : list Z * Z) : outcome (list Z * Z) :=
  for_each (λ k, unpack_block tile_index row (k * (2 * num_elements_in_dword)))
    (seqZ 0 (16 / (2 * num_elements_in_dword))) st.

Definition unpack_tiles (format : DataFormat) : outcome (list Z) :=
  let size_bytes := u32 (Z.of_nat (length bfp_tiles) * 4) in
  single_bfp_tile_size ← tile_size format;
  _ ← check (size_bytes mod single_bfp_tile_size =? 0) TT_ASSERT;
  let num_tiles := size_bytes / single_bfp_tile_size in
  '(float_vec, _) ←
    for_each (λ tile_index, for_each (unpack_row tile_index) tile_rows) (seqZ 0 num_tiles)
      (replicate (Z.to_nat (u32 (num_tiles * 1024))) 0, 0);
  Ok float_vec.
End unpack.

Definition unpack_bfp8_tiles_into_float_vec (bfp8_tiles : list Z) (row_major_output is_exp_a : bool) : outcome (list Z) :=
  unpack_tiles 4 7 bfp8_tiles row_major_output is_exp_a Bfp8_b.

Definition unpack_bfp4_tiles_into_float_vec (bfp_tiles : list Z) (row_major_output is_exp_a : bool) : outcome (list Z) :=
  unpack_tiles 8 3 bfp_tiles row_major_output is_exp_a Bfp4_b.
