(* ===== verification/BlockFloatProps.v ===== *)
(** * Block floating point: rounding and the round trip

    [quantize] and [decode] are what packing and unpacking do to one number
    under a shared exponent; [requantize] is the round trip of a row.  The
    first half relates them to the code and to the values of floats, the second
    follows the words of a tile through packing and unpacking. *)
From stdpp Require Import sorting.
From S2P Require Import Prelude BlockFloat.
(** ** Fields of a float *)
Definition frac (v : Z) : Z := v mod 2 ^ 23.
Definition expo (v : Z) : Z := v / 2 ^ 23 mod 256.
Definition sgn (v : Z) : Z := v / 2 ^ 31.

Lemma land_frac v : Z.land v 0x007fffff = frac v.
Proof. apply (Z.land_ones v 23). lia. Qed.

Lemma land_expo v : Z.shiftr (Z.land v 0x7f800000) 23 = expo v.
Proof.
  rewrite Z.shiftr_land. change (Z.shiftr 0x7f800000 23) with (Z.ones 8).
  rewrite Z.land_ones, Z.shiftr_div_pow2 by lia. done.
Qed.

Lemma land_sgn v : in_range 32 v → Z.shiftr (Z.land v 0x80000000) 31 = sgn v.
Proof.
  unfold in_range. intros Hv. rewrite Z.shiftr_land. change (Z.shiftr 0x80000000 31) with (Z.ones 1).
  rewrite Z.land_ones, Z.shiftr_div_pow2 by lia. apply Z.mod_small. unfold sgn.
  split; [apply Z.div_pos; lia|apply Z.div_lt_upper_bound; lia].
Qed.

Lemma land_magnitude v : Z.land v (Z.shiftl 1 31 - 1) = v mod 2 ^ 31.
Proof. apply (Z.land_ones v 31). lia. Qed.

Lemma frac_range v : 0 <= frac v < 8388608.
Proof. apply (Z.mod_pos_bound v (2 ^ 23)). lia. Qed.
Lemma expo_range v : 0 <= expo v < 256.
Proof. apply Z.mod_pos_bound. lia. Qed.
Lemma sgn_range v : in_range 32 v → 0 <= sgn v <= 1.
Proof.
  unfold in_range, sgn. intros. split; [apply Z.div_pos; lia|].
  apply Z.lt_succ_r, Z.div_lt_upper_bound; lia.
Qed.

Lemma float_fields v : in_range 32 v → v = sgn v * 2 ^ 31 + expo v * 2 ^ 23 + frac v.
Proof.
  intros _. unfold sgn, expo, frac.
  pose proof (Z.div_mod v (2 ^ 23) ltac:(lia)) as H1.
  pose proof (Z.div_mod (v / 2 ^ 23) 256 ltac:(lia)) as H2.
  rewrite Z.div_div in H2 by lia. change (2 ^ 23 * 256) with (2 ^ 31) in H2.
  change (2 ^ 31) with (256 * 2 ^ 23) at 2. lia.
Qed.

Lemma fields_float s e f :
  0 <= s <= 1 → 0 <= e < 256 → 0 <= f < 2 ^ 23 →
  let v := s * 2 ^ 31 + e * 2 ^ 23 + f in sgn v = s ∧ expo v = e ∧ frac v = f ∧ in_range 32 v.
Proof.
  intros Hs He Hf v. change (2 ^ 31) with (256 * 2 ^ 23) in v.
  assert (Hv : v = (s * 256 + e) * 2 ^ 23 + f) by (unfold v; lia). clearbody v.
  assert (Hq : v / 2 ^ 23 = s * 256 + e) by (rewrite Hv, Z.div_add_l, Z.div_small by lia; lia).
  unfold sgn, expo, frac. change (2 ^ 31) with (2 ^ 23 * 256). rewrite <- Z.div_div, Hq by lia.
  split_and!.
  - rewrite Z.div_add_l, Z.div_small by lia. lia.
  - rewrite Z.add_comm, Z.mod_add, Z.mod_small by lia. done.
  - rewrite Hv, Z.add_comm, Z.mod_add, Z.mod_small by lia. done.
  - unfold in_range. change (2 ^ 32) with (512 * 2 ^ 23). lia.
Qed.

(** ** One number *)
(** The exponent and the 24-bit mantissa that packing works with. *)
Definition operand (a : bool) (v : Z) : Z * Z :=
  if a then
    if 31 <? expo v - 127 + 15 then (31, 2 ^ 24 - 1)
    else if expo v - 127 + 15 <? 0 then (0, 2 ^ 23)
    else (expo v - 127 + 15, 2 ^ 23 + frac v)
  else (expo v, 2 ^ 23 + frac v).

(** Rounding a 24-bit mantissa, scaled down by [d] bits, to [W] bits. *)
Definition round_mantissa (W d m : Z) : Z := Z.min (2 ^ W - 1) ((m / 2 ^ d + 2 ^ (23 - W)) / 2 ^ (24 - W)).

Definition quantize (W : Z) (a : bool) (E v : Z) : Z :=
  if v mod 2 ^ 31 =? 0 then 0
  else let '(e, m) := operand a v in
       let q := round_mantissa W (Z.max 0 (E - e)) m in
       if q =? 0 then 0 else sgn v * 2 ^ W + q.

Lemma operand_range a v : 0 <= (operand a v).1 < 256 ∧ 8388608 <= (operand a v).2 < 16777216.
Proof.
  pose proof (frac_range v). pose proof (expo_range v). unfold operand.
  change (2 ^ 23) with 8388608. change (2 ^ 24) with 16777216. destruct a; [|simpl; lia].
  case_bool; simpl; lia.
Qed.

Lemma shift_down_spec fuel m d :
  0 <= d → d <= 31 * Z.of_nat (S fuel) → shift_down fuel m d = Ok (m / 2 ^ d).
Proof.
  revert m d; induction fuel as [|fuel IH]; intros m d Hd Hf; cbn [shift_down];
    (destruct (Z.ltb_spec 31 d); [try lia|by rewrite Z.shiftr_div_pow2]).
  rewrite IH by lia. rewrite Z.shiftr_div_pow2, Z.div_div, <- Z.pow_add_r by lia.
  do 3 f_equal. lia.
Qed.

Lemma round_mantissa_range W d m : 0 <= W < 24 → 0 <= d → 0 <= m → 0 <= round_mantissa W d m < 2 ^ W.
Proof.
  intros HW Hd Hm. unfold round_mantissa. pose proof (Z.pow_pos_nonneg 2 W ltac:(lia) ltac:(lia)).
  pose proof (Z.pow_pos_nonneg 2 (23 - W) ltac:(lia) ltac:(lia)).
  assert (0 <= (m / 2 ^ d + 2 ^ (23 - W)) / 2 ^ (24 - W)); [|lia].
  apply Z.div_pos; [|by apply Z.pow_pos_nonneg; lia].
  assert (0 <= m / 2 ^ d) by (apply Z.div_pos; [lia|by apply Z.pow_pos_nonneg]). lia.
Qed.

Lemma pow_W W : 1 <= W <= 7 → 2 <= 2 ^ W <= 128.
Proof. intros. split; [apply (Z.pow_le_mono_r 2 1); lia|apply (Z.pow_le_mono_r 2 W 7); lia]. Qed.

Lemma quantize_range W a E v : 1 <= W <= 7 → in_range 32 v → 0 <= quantize W a E v < 2 ^ W * 2.
Proof.
  intros HW Hv. pose proof (pow_W W HW). pose proof (sgn_range v Hv). unfold quantize.
  destruct (_ =? 0); [lia|]. pose proof (operand_range a v). destruct (operand a v) as [e m]; simpl in *.
  pose proof (round_mantissa_range W (Z.max 0 (E - e)) m). destruct (_ =? 0); [lia|nia].
Qed.

(** The last steps of the conversion, for a mantissa [m] with exponent [e]. *)
Definition round_and_sign (W : Z) (truncate : bool) (s E e m : Z) : outcome Z :=
  mantissa ← (if e <=? E then shift_down (Z.to_nat (E - e)) m (E - e) else Ok m);
  let mantissa :=
    if truncate then Z.shiftr mantissa (24 - W)
    else
      let mantissa := u32 (mantissa + Z.shiftl 1 (24 - W - 1)) in
      let mantissa := Z.shiftr mantissa (24 - W) in
      if Z.shiftl 1 W - 1 <? mantissa then Z.shiftl 1 W - 1 else mantissa in
  let sign := if 0 =? mantissa then 0 else s in
  Ok (u8 (Z.lor (Z.shiftl sign W) mantissa)).

Lemma round_and_sign_spec W s E e m :
  1 <= W <= 7 → 0 <= s <= 1 → 0 <= e → 8388608 <= m < 16777216 →
  round_and_sign W false s E e m =
  let q := round_mantissa W (Z.max 0 (E - e)) m in Ok (if q =? 0 then 0 else s * 2 ^ W + q).
Proof.
  intros HW Hs He Hm. unfold round_and_sign.
  assert (Hshift : (if e <=? E then shift_down (Z.to_nat (E - e)) m (E - e) else Ok m)
    = Ok (m / 2 ^ Z.max 0 (E - e))).
  { destruct (Z.leb_spec e E).
    - rewrite shift_down_spec by lia. by rewrite Z.max_r by lia.
    - by rewrite Z.max_l, Z.div_1_r by lia. }
  rewrite Hshift. cbn [mbind outcome_bind]. clear Hshift.
  set (d := Z.max 0 (E - e)). assert (Hd : 0 <= d) by lia.
  pose proof (round_mantissa_range W d m ltac:(lia) Hd ltac:(lia)) as Hq. unfold round_mantissa in *.
  assert (Hm' : 0 <= m / 2 ^ d < 16777216).
  { pose proof (Z.pow_pos_nonneg 2 d ltac:(lia) ltac:(lia)). split; [apply Z.div_pos; lia|].
    apply Z.div_lt_upper_bound; nia. }
  assert (Hhalf : 0 < 2 ^ (23 - W) <= 8388608).
  { split; [apply Z.pow_pos_nonneg; lia|]. change 8388608 with (2 ^ 23). apply Z.pow_le_mono_r; lia. }
  rewrite !Z.shiftl_mul_pow2, !Z.mul_1_l, Z.shiftr_div_pow2 by lia. replace (24 - W - 1) with (23 - W) by lia.
  rewrite u32_small by lia. set (r := (m / 2 ^ d + 2 ^ (23 - W)) / 2 ^ (24 - W)) in *.
  assert (Hmin : (if 2 ^ W - 1 <? r then 2 ^ W - 1 else r) = Z.min (2 ^ W - 1) r)
    by (destruct (Z.ltb_spec (2 ^ W - 1) r); lia).
  rewrite Hmin. clear Hmin. set (q := Z.min _ _) in *. pose proof (pow_W W HW).
  rewrite (Z.eqb_sym 0 q). destruct (Z.eqb_spec q 0) as [->|]; [by rewrite Z.mul_0_l|].
  rewrite <- (Z.shiftl_mul_pow2 s W), lor_shiftl, u8_small by nia. by rewrite Z.shiftl_mul_pow2 by lia.
Qed.

Lemma hidden_bit f : 0 <= f < 8388608 → Z.lor (Z.shiftl 1 23) f = 2 ^ 23 + f.
Proof. intros Hf. rewrite lor_shiftl by (change (2 ^ 23) with 8388608; lia). lia. Qed.

Lemma convert_spec f a E v :
  is_bfp f = true → in_range 32 v →
  convert_u32_to_bfp f false v E a = Ok (quantize (MANTISSA_BFP_WIDTH f) a E v).
Proof.
  intros Hf Hv. unfold convert_u32_to_bfp. rewrite Hf. cbn [check mbind outcome_bind].
  rewrite land_magnitude, land_frac, land_expo, land_sgn by done. unfold quantize.
  destruct (v mod 2 ^ 31 =? 0); [done|].
  assert (HW : 1 <= MANTISSA_BFP_WIDTH f <= 7) by (destruct f; simpl; lia).
  pose proof (frac_range v). pose proof (expo_range v). pose proof (sgn_range v Hv).
  pose proof (operand_range a v) as Hop. unfold operand in *.
  destruct a; [destruct (31 <? _); [|destruct (_ <? 0) eqn:?]|];
    rewrite hidden_bit by lia; simpl fst in Hop; simpl snd in Hop; apply round_and_sign_spec; lia.
Qed.

Lemma convert8_spec a E v :
  in_range 32 v → convert_u32_to_bfp8 false v E a = Ok (quantize 7 a E v).
Proof.
  intros Hv. rewrite <- (convert_spec Bfp8) by done. reflexivity.
Qed.

(** The formats that can be unpacked. *)
Definition unpacked_width (W : Z) : Prop := W = 3 ∨ W = 7.

Lemma normalize_spec W q :
  unpacked_width W → 1 <= q < 2 ^ W →
  let c := W - 1 - Z.log2 q in
  normalize W q = (q * 2 ^ c, c) ∧ 0 <= c < W ∧ 2 ^ (W - 1) <= q * 2 ^ c < 2 ^ W.
Proof.
  intros HW Hq c.
  assert (Hall : forallb (λ q, let c := W - 1 - Z.log2 q in
      bool_decide (normalize W q = (q * 2 ^ c, c)) && (0 <=? c) && (c <? W)
      && (2 ^ (W - 1) <=? q * 2 ^ c) && (q * 2 ^ c <? 2 ^ W)) (seqZ 1 (2 ^ W - 1)) = true)
    by (destruct HW as [->| ->]; vm_compute; reflexivity).
  rewrite forallb_forall in Hall. specialize (Hall q). rewrite <- list_elem_of_In, elem_of_seqZ in Hall.
  specialize (Hall ltac:(lia)). cbv zeta in Hall. fold c in Hall.
  rewrite !andb_true_iff, bool_decide_eq_true in Hall. destruct Hall as [[[[Hn ?] ?] ?] ?].
  split; [exact Hn|lia].
Qed.

Definition bias (a : bool) : Z := if a then 112 else 0.
Definition decode (W : Z) (a : bool) (E d : Z) : Z := float_bits (unpack_lane W a E d).

Lemma decode_zero W a E s :
  unpacked_width W → 0 <= s <= 1 →
  select_mask (unpack_lane W a E (s * 2 ^ W)) = true ∧ decode W a E (s * 2 ^ W) = s * 2 ^ 31.
Proof.
  intros HW Hs. assert (Hs' : s = 0 ∨ s = 1) by lia.
  destruct HW as [->| ->], Hs' as [->| ->], a; by vm_compute.
Qed.

Lemma decode_nonzero W a E s q :
  unpacked_width W → 0 <= s <= 1 → 1 <= q < 2 ^ W → 0 <= E < 256 →
  let c := W - 1 - Z.log2 q in
  let l := unpack_lane W a E (s * 2 ^ W + q) in
  select_mask l = false ∧ shift_exceeds l = (E <? c)
  ∧ (0 <= E + bias a - c < 256 →
     decode W a E (s * 2 ^ W + q)
     = s * 2 ^ 31 + (E + bias a - c) * 2 ^ 23 + (q * 2 ^ c * 2 - 2 ^ W) * 2 ^ (23 - W)).
Proof.
  intros HW Hs Hq HE c l. destruct (normalize_spec W q HW Hq) as (Hn & Hc & Hr). fold c in Hn, Hc, Hr.
  assert (HW' : 1 <= W <= 7) by (destruct HW; lia). pose proof (pow_W W HW').
  assert (H2W : 2 ^ W = 2 * 2 ^ (W - 1)) by (rewrite <- Z.pow_succ_r by lia; f_equal; lia).
  assert (Hman : Z.land (s * 2 ^ W + q) (2 ^ W - 1) = q).
  { rewrite Z.sub_1_r, <- Z.ones_equiv, Z.land_ones by lia.
    by rewrite Z.add_comm, Z.mod_add, Z.mod_small by lia. }
  assert (Hsign : srl (s * 2 ^ W + q) W = s).
  { unfold srl. rewrite Z.shiftr_div_pow2, Z.div_add_l, Z.div_small by lia. lia. }
  assert (Hexp : cmpgt c E = (E <? c)).
  { unfold cmpgt, to_i32. rewrite !u32_small by lia.
    by rewrite !(proj2 (Z.ltb_lt _ (2 ^ 31))) by (change (2 ^ 31) with 2147483648; lia). }
  unfold decode. subst l. unfold unpack_lane. cbv zeta. rewrite Hman, Hsign, Hn.
  rewrite (proj2 (Z.eqb_neq q 0)) by lia. cbn [blendv select_mask shift_exceeds float_bits].
  split_and!; [done|done|]. intros Hrange.
  assert (Hfrac : Z.land (sll (q * 2 ^ c) 1) (2 ^ W - 1) = q * 2 ^ c * 2 - 2 ^ W).
  { unfold sll. rewrite Z.shiftl_mul_pow2, u32_small, Z.sub_1_r, <- Z.ones_equiv, Z.land_ones by lia.
    change (2 ^ 1) with 2. symmetry. apply (Z.mod_unique _ _ 1); lia. }
  rewrite Hfrac.
  assert (Hbias : u32 (E - u32 ((if a then u32 (-112) else 0) + c)) = E + bias a - c).
  { rewrite u32_sub_r. destruct a; simpl bias in *.
    - replace (E - (u32 (-112) + c)) with (E - c - u32 (-112)) by lia. rewrite u32_sub_r, u32_small; lia.
    - rewrite u32_small; lia. }
  rewrite Hbias. unfold sll. rewrite !Z.shiftl_mul_pow2 by lia.
  assert (Hs31 : 2 ^ (23 - W) * 2 ^ W = 8388608) by (rewrite <- Z.pow_add_r by lia; by replace (23 - W + W) with 23 by lia).
  set (f := (q * 2 ^ c * 2 - 2 ^ W) * 2 ^ (23 - W)).
  assert (Hf : 0 <= f < 8388608).
  { unfold f. pose proof (Z.pow_pos_nonneg 2 (23 - W) ltac:(lia) ltac:(lia)). nia. }
  set (e := E + bias a - c) in *. clearbody f e.
  assert (Hs' : u32 (s * 2 ^ 31) = Z.shiftl s 31) by (rewrite Z.shiftl_mul_pow2, u32_small; lia).
  assert (He' : u32 (e * 2 ^ 23) = Z.shiftl e 23) by (rewrite Z.shiftl_mul_pow2, u32_small; lia).
  rewrite Hs', He', (u32_small f) by lia. rewrite (lor_shiftl e) by lia. rewrite lor_shiftl by lia. lia.
Qed.

(** ** Values *)
(** The magnitude of a float that is zero or normal, in units of 2^-150. *)
Definition magnitude (v : Z) : Z := if v mod 2 ^ 31 =? 0 then 0 else (2 ^ 23 + frac v) * 2 ^ expo v.

Lemma magnitude_bits v : in_range 32 v → v mod 2 ^ 31 = expo v * 2 ^ 23 + frac v.
Proof.
  intros Hv. pose proof (frac_range v). pose proof (expo_range v). pose proof (sgn_range v Hv).
  rewrite (float_fields v Hv) at 1. change (2 ^ 31) with 2147483648. change (2 ^ 23) with 8388608.
  rewrite <- Z.add_assoc, Z.add_comm, Z.mod_add, Z.mod_small by lia. done.
Qed.

(** What decoding makes of a nonzero mantissa. *)
Lemma decode_fields W a E s q :
  unpacked_width W → 0 <= s <= 1 → 1 <= q < 2 ^ W → 0 <= E < 256 →
  let c := W - 1 - Z.log2 q in
  let y := decode W a E (s * 2 ^ W + q) in
  1 <= E + bias a - c < 256 →
  in_range 32 y ∧ sgn y = s ∧ expo y = E + bias a - c ∧ y mod 2 ^ 31 ≠ 0
  ∧ 2 ^ 23 + frac y = q * 2 ^ c * 2 ^ (24 - W).
Proof.
  intros HW Hs Hq HE c y Hr. destruct (normalize_spec W q HW Hq) as (_ & Hc & Hrange). fold c in Hc, Hrange.
  destruct (decode_nonzero W a E s q HW Hs Hq HE) as (_ & _ & Hy). fold c in Hy. specialize (Hy ltac:(lia)).
  fold y in Hy. assert (HW' : 1 <= W <= 7) by (destruct HW; lia).
  assert (H2W : 2 ^ W = 2 * 2 ^ (W - 1)) by (rewrite <- Z.pow_succ_r by lia; f_equal; lia).
  assert (H23 : 2 ^ (23 - W) * 2 ^ W = 2 ^ 23) by (rewrite <- Z.pow_add_r by lia; f_equal; lia).
  assert (H24 : 2 ^ (24 - W) = 2 * 2 ^ (23 - W)) by (rewrite <- Z.pow_succ_r by lia; f_equal; lia).
  pose proof (Z.pow_pos_nonneg 2 (23 - W) ltac:(lia) ltac:(lia)).
  destruct (fields_float s (E + bias a - c) ((q * 2 ^ c * 2 - 2 ^ W) * 2 ^ (23 - W))) as (H1 & H2 & H3 & H4);
    [lia|lia|split; nia|]. rewrite <- Hy in *. split_and!; try done.
  - rewrite magnitude_bits, H2 by done. pose proof (frac_range y). change (2 ^ 23) with 8388608. lia.
  - rewrite H3, H24, <- H23. ring.
Qed.

Lemma decode_magnitude W a E s q :
  unpacked_width W → 0 <= s <= 1 → 1 <= q < 2 ^ W → 0 <= E < 256 →
  1 <= E + bias a - (W - 1 - Z.log2 q) < 256 →
  magnitude (decode W a E (s * 2 ^ W + q)) = q * 2 ^ (24 - W + E + bias a).
Proof.
  intros HW Hs Hq HE Hr. destruct (decode_fields W a E s q HW Hs Hq HE Hr) as (_ & _ & He & Hnz & Hm).
  destruct (normalize_spec W q HW Hq) as (_ & Hc & _).
  unfold magnitude. rewrite (proj2 (Z.eqb_neq _ _) Hnz), He, Hm.
  assert (1 <= W <= 7) by (destruct HW; lia).
  rewrite <- !Z.mul_assoc, <- !Z.pow_add_r by lia. do 2 f_equal. lia.
Qed.

(** The code of a decoded code is the code. *)
Lemma quantize_decode W (a : bool) E s q :
  unpacked_width W → 0 <= s <= 1 → 1 <= q < 2 ^ W → 0 <= E < (if a then 32 else 256) →
  W - 1 - Z.log2 q <= E → 1 <= E + bias a - (W - 1 - Z.log2 q) →
  let y := decode W a E (s * 2 ^ W + q) in
  (operand a y).1 = E - (W - 1 - Z.log2 q) ∧ quantize W a E y = s * 2 ^ W + q.
Proof.
  intros HW Hs Hq HE Hc1 Hr y. set (c := W - 1 - Z.log2 q) in *.
  assert (HE' : 0 <= E < 256) by (destruct a; lia).
  assert (Hr' : 1 <= E + bias a - c < 256) by (destruct (normalize_spec W q HW Hq) as (_ & ? & _);
    destruct a; simpl in *; unfold c in *; lia).
  destruct (decode_fields W a E s q HW Hs Hq HE' Hr') as (Hin & Hsgn & He & Hnz & Hm).
  fold y in Hin, Hsgn, He, Hnz, Hm. fold c in He, Hm.
  destruct (normalize_spec W q HW Hq) as (_ & Hc & _). fold c in Hc.
  assert (Hop : operand a y = (E - c, q * 2 ^ c * 2 ^ (24 - W))).
  { unfold operand. rewrite He, Hm. destruct a; simpl bias in *; [|f_equal; lia].
    rewrite (proj2 (Z.ltb_ge 31 _)), (proj2 (Z.ltb_ge _ 0)) by lia. f_equal; lia. }
  rewrite Hop. split; [done|]. unfold quantize. rewrite (proj2 (Z.eqb_neq _ _) Hnz), Hop, Hsgn.
  assert (HW' : 1 <= W <= 7) by (destruct HW; lia).
  assert (Hround : round_mantissa W (Z.max 0 (E - (E - c))) (q * 2 ^ c * 2 ^ (24 - W)) = q).
  { unfold round_mantissa. replace (Z.max 0 (E - (E - c))) with c by lia.
    replace (q * 2 ^ c * 2 ^ (24 - W)) with (q * 2 ^ (24 - W) * 2 ^ c) by ring.
    rewrite Z.div_mul by (apply Z.pow_nonzero; lia).
    rewrite Z.div_add_l by (apply Z.pow_nonzero; lia).
    rewrite (Z.div_small (2 ^ (23 - W))), Z.add_0_r, Z.min_r by (lia || (split; [|apply Z.pow_lt_mono_r]; lia)).
    done. }
  rewrite Hround, (proj2 (Z.eqb_neq q 0)) by lia. done.
Qed.

Lemma pow2_split n k : 0 <= n → 0 <= k → 2 ^ (n + k) = 2 ^ n * 2 ^ k.
Proof. intros. by apply Z.pow_add_r. Qed.

(** Rounding to the nearest multiple of [2^(24-W+d)], the upper one at a tie, unless
    that needs another bit. *)
Lemma round_mantissa_error W d m :
  1 <= W <= 7 → 0 <= d → 8388608 <= m < 16777216 →
  let q := round_mantissa W d m in
  let step := 2 ^ (24 - W + d) in
  2 * Z.abs (m - q * step) <= step ∨ (q = 2 ^ W - 1 ∧ q * step <= m < 2 ^ W * step).
Proof.
  intros HW Hd Hm q step.
  set (q0 := (m / 2 ^ d + 2 ^ (23 - W)) / 2 ^ (24 - W)).
  assert (Hq : q = Z.min (2 ^ W - 1) q0) by done. clearbody q.
  pose proof (Z.pow_pos_nonneg 2 d ltac:(lia) ltac:(lia)) as Hpd.
  pose proof (Z.pow_pos_nonneg 2 (23 - W) ltac:(lia) ltac:(lia)) as Hph.
  assert (Hk : 2 ^ (24 - W) = 2 * 2 ^ (23 - W)) by (rewrite <- Z.pow_succ_r by lia; f_equal; lia).
  assert (Hstep : step = 2 ^ (24 - W) * 2 ^ d) by (apply pow2_split; lia).
  assert (Htop : 2 ^ W * 2 ^ (24 - W) = 16777216).
  { rewrite <- Z.pow_add_r by lia. by replace (W + (24 - W)) with 24 by lia. }
  assert (Hq0 : q0 = (m + 2 ^ (23 - W) * 2 ^ d) / step).
  { unfold q0. rewrite Hstep, (Z.mul_comm (2 ^ (24 - W))), <- Z.div_div, Z.div_add by lia. done. }
  clearbody q0. pose proof (Z.div_mod (m + 2 ^ (23 - W) * 2 ^ d) step ltac:(nia)) as Hdm.
  pose proof (Z.mod_pos_bound (m + 2 ^ (23 - W) * 2 ^ d) step ltac:(nia)) as Hr.
  rewrite <- Hq0 in Hdm. set (hd := 2 ^ (23 - W) * 2 ^ d) in *.
  assert (Hs2 : step = 2 * hd) by (unfold hd; nia).
  assert (Hmax : m < 2 ^ W * step).
  { rewrite Hstep, Z.mul_assoc, Htop. nia. }
  destruct (Z.le_gt_cases q0 (2 ^ W - 1)).
  - left. rewrite Hq, Z.min_r by lia. lia.
  - right. rewrite Hq, Z.min_l by lia. split; [done|]. split; [|done].
    assert ((2 ^ W - 1) * step <= (q0 - 1) * step) by (apply Z.mul_le_mono_nonneg_r; lia). lia.
Qed.

Lemma quantize_value W a E v :
  unpacked_width W → in_range 32 v → v mod 2 ^ 31 ≠ 0 → bias a <= expo v <= E + bias a →
  0 <= E < (if a then 32 else 255) → W <= E + bias a →
  ∃ q, quantize W a E v = (if q =? 0 then 0 else sgn v * 2 ^ W + q) ∧ 0 <= q < 2 ^ W
    ∧ q = round_mantissa W (E + bias a - expo v) (2 ^ 23 + frac v)
    ∧ magnitude (decode W a E (quantize W a E v)) = q * 2 ^ (24 - W + E + bias a)
    ∧ (q = 0 ∧ decode W a E (quantize W a E v) = 0 ∨ sgn (decode W a E (quantize W a E v)) = sgn v).
Proof.
  intros HW Hv Hnz He HE HWE. pose proof (frac_range v). pose proof (sgn_range v Hv).
  assert (HE' : 0 <= E < 256) by (destruct a; lia).
  assert (HW' : 1 <= W <= 7) by (destruct HW; lia).
  assert (Hop : operand a v = (expo v - bias a, 2 ^ 23 + frac v)).
  { unfold operand. destruct a; simpl bias in *; [|f_equal; lia].
    rewrite (proj2 (Z.ltb_ge 31 _)), (proj2 (Z.ltb_ge _ 0)) by lia. f_equal; lia. }
  unfold quantize. rewrite (proj2 (Z.eqb_neq _ _) Hnz), Hop.
  replace (Z.max 0 (E - (expo v - bias a))) with (E + bias a - expo v) by lia.
  set (q := round_mantissa _ _ _).
  assert (Hq : 0 <= q < 2 ^ W) by (apply round_mantissa_range; change (2 ^ 23) with 8388608; lia).
  exists q. split; [done|]. split; [done|]. split; [done|].
  destruct (Z.eqb_spec q 0) as [->|Hq0].
  - destruct (decode_zero W a E 0 HW ltac:(lia)) as [_ Hz]. rewrite Z.mul_0_l in Hz. rewrite Hz.
    split; [by vm_compute|by left].
  - destruct (normalize_spec W q HW ltac:(lia)) as (_ & Hc & _).
    assert (Hr : 1 <= E + bias a - (W - 1 - Z.log2 q) < 256) by (destruct a; simpl in *; lia).
    split; [apply decode_magnitude; [done|lia..]|right].
    by destruct (decode_fields W a E (sgn v) q HW ltac:(lia) ltac:(lia) HE' Hr) as (_ & ? & _).
Qed.

(** ** Rows *)
Definition row_exp (a : bool) (row : list Z) : Z := foldr (λ v m, Z.max (operand a v).1 m) 0 row.
Definition requantize (W : Z) (a : bool) (row : list Z) : list Z :=
  (λ v, decode W a (row_exp a row) (quantize W a (row_exp a row) v)) <$> row.

Lemma row_exp_range a row : 0 <= row_exp a row < (if a then 32 else 256).
Proof.
  induction row as [|v row IH]; [destruct a; simpl; lia|]. simpl.
  assert (0 <= (operand a v).1 < (if a then 32 else 256)); [|destruct a; lia].
  pose proof (expo_range v). unfold operand. destruct a; simpl; [|lia]. case_bool; simpl; lia.
Qed.

Lemma row_exp_le a row v : v ∈ row → (operand a v).1 <= row_exp a row.
Proof.
  induction row as [|w row IH]; [by intros ?%elem_of_nil|].
  intros [->|Hv]%elem_of_cons; simpl; [lia|]. specialize (IH Hv). lia.
Qed.

Lemma row_exp_attained a row : row_exp a row = 0 ∨ ∃ v, v ∈ row ∧ (operand a v).1 = row_exp a row.
Proof.
  induction row as [|w row IH]; [by left|]. simpl.
  destruct (Z.max_spec (operand a w).1 (row_exp a row)) as [[_ ->]|[_ ->]].
  - destruct IH as [->|(v & Hv & <-)]; [by left|right]. exists v. split; [by right|done].
  - right. exists w. split; [by left|done].
Qed.

Lemma foldl_max {A} (f : A → Z) m l :
  foldl (λ max v, if max <? f v then f v else max) m l = Z.max m (foldr (λ v m, Z.max (f v) m) 0 l) ∨ m < 0.
Proof.
  revert m; induction l as [|v l IH]; intros m; simpl; [lia|].
  destruct (Z.ltb_spec m (f v)); [destruct (IH (f v))|destruct (IH m)]; lia.
Qed.

Lemma get_max_exp_spec a row :
  length row = 16%nat → get_max_exp row a = Ok (row_exp a row).
Proof.
  intros Hlen. unfold get_max_exp. rewrite Hlen. cbn [check Nat.eqb mbind outcome_bind]. f_equal.
  pose proof (row_exp_range a row) as Hr.
  assert (Hf : ∀ l m, foldl (λ max v,
      let exp := Z.shiftr (Z.land v 0x7f800000) 23 in
      let exp := if a then rebias exp else exp in if max <? exp then exp else max) m l
    = foldl (λ max v, if max <? (operand a v).1 then (operand a v).1 else max) m l).
  { induction l as [|v l IH]; intros m; [done|]. cbn [foldl]. rewrite IH. f_equal.
    rewrite land_expo. unfold operand, rebias. destruct a; [|done].
    destruct (31 <? _); [done|]. by destruct (_ <? 0). }
  rewrite Hf. destruct (foldl_max (λ v, (operand a v).1) 0 row) as [->|?]; [|lia].
  fold (row_exp a row). rewrite Z.max_r by lia. apply u8_small. destruct a; lia.
Qed.

(** Rows that survive the round trip: no number that is neither zero nor normal, and
    an exponent the mantissa can be normalized under. *)
Record row_ok (W : Z) (a : bool) (row : list Z) : Prop := mk_row_ok {
  ro_length : length row = 16%nat;
  ro_range : Forall (in_range 32) row;
  ro_exp : W <= row_exp a row
           ∨ row_exp a row = 0 ∧ (a = true ∨ Forall (λ v, v mod 2 ^ 31 = 0) row)
}.

Lemma round_mantissa_top W m :
  1 <= W <= 7 → 8388608 <= m → 2 ^ (W - 1) <= round_mantissa W 0 m.
Proof.
  intros HW Hm. unfold round_mantissa. rewrite Z.div_1_r.
  assert (H2W : 2 ^ W = 2 * 2 ^ (W - 1)) by (rewrite <- Z.pow_succ_r by lia; f_equal; lia).
  pose proof (Z.pow_pos_nonneg 2 (W - 1) ltac:(lia) ltac:(lia)).
  pose proof (Z.pow_pos_nonneg 2 (23 - W) ltac:(lia) ltac:(lia)).
  assert (2 ^ (W - 1) <= (m + 2 ^ (23 - W)) / 2 ^ (24 - W)); [|lia].
  apply Z.div_le_lower_bound; [apply Z.pow_pos_nonneg; lia|].
  rewrite <- Z.pow_add_r by lia. replace (24 - W + (W - 1)) with 23 by lia. change (2 ^ 23) with 8388608. lia.
Qed.

Lemma operand_zero a v : in_range 32 v → v mod 2 ^ 31 = 0 → (operand a v).1 = 0.
Proof.
  intros Hv Hz. rewrite magnitude_bits in Hz by done. pose proof (frac_range v). pose proof (expo_range v).
  assert (He : expo v = 0) by lia. unfold operand. rewrite He. by destruct a.
Qed.

Lemma code_cases W a row v :
  unpacked_width W → row_ok W a row → v ∈ row →
  (quantize W a (row_exp a row) v = 0 ∧ ((operand a v).1 = row_exp a row → row_exp a row = 0))
  ∨ ∃ s q, quantize W a (row_exp a row) v = s * 2 ^ W + q ∧ 0 <= s <= 1 ∧ 1 <= q < 2 ^ W
    ∧ W - 1 - Z.log2 q <= row_exp a row ∧ 1 <= row_exp a row + bias a - (W - 1 - Z.log2 q)
    ∧ ((operand a v).1 = row_exp a row → Z.log2 q = W - 1).
Proof.
  intros HW [_ Hin Hexp] Hv. rewrite Forall_forall in Hin. specialize (Hin v Hv).
  assert (HW' : 1 <= W <= 7) by (destruct HW; lia).
  pose proof (row_exp_le a row v Hv) as Hle. set (E := row_exp a row) in *.
  pose proof (operand_range a v) as Hop. pose proof (operand_zero a v Hin) as Hz0. unfold quantize.
  destruct (Z.eqb_spec (v mod 2 ^ 31) 0) as [H0|Hnz].
  { left. split; [done|]. intros <-. by apply Hz0. }
  clear Hz0. destruct (operand a v) as [e m]; simpl in Hop, Hle |- *.
  set (q := round_mantissa W (Z.max 0 (E - e)) m).
  assert (Hq : 0 <= q < 2 ^ W) by (apply round_mantissa_range; lia).
  assert (Htop : e = E → 2 ^ (W - 1) <= q).
  { intros ->. unfold q. replace (Z.max 0 (E - E)) with 0 by lia. apply round_mantissa_top; lia. }
  pose proof (Z.pow_pos_nonneg 2 (W - 1) ltac:(lia) ltac:(lia)).
  destruct (Z.eqb_spec q 0) as [Hq0|Hq0]; [left; split; [done|]; intros He; specialize (Htop He); lia|right].
  exists (sgn v), q. pose proof (sgn_range v Hin).
  destruct (normalize_spec W q HW ltac:(lia)) as (_ & Hc & _).
  assert (Hlog : e = E → Z.log2 q = W - 1).
  { intros He. apply Z.log2_unique; [lia|]. replace (Z.succ (W - 1)) with W by lia. lia. }
  assert (0 <= bias a) by (destruct a; simpl; lia).
  split_and!; try done; try lia.
  destruct Hexp as [?|[HE [->|Hz]]]; [lia|simpl; lia|].
  rewrite Forall_forall in Hz. by specialize (Hz v Hv).
Qed.

Lemma code_stable W a row v :
  unpacked_width W → row_ok W a row → v ∈ row →
  let E := row_exp a row in let y := decode W a E (quantize W a E v) in
  in_range 32 y ∧ quantize W a E y = quantize W a E v ∧ (operand a y).1 <= E
  ∧ ((operand a v).1 = E → (operand a y).1 = E).
Proof.
  intros HW Hrow Hv E y. pose proof (row_exp_range a row) as HE. fold E in HE.
  destruct (code_cases W a row v HW Hrow Hv) as [[Hz Htop]|(s & q & Hd & Hs & Hq & Hc & Hr & Htop)].
  - destruct (decode_zero W a E 0 HW ltac:(lia)) as [_ Hy]. rewrite !Z.mul_0_l in Hy. fold E in Hz, Htop.
    unfold y. rewrite Hz, Hy. assert (H0 : (operand a 0).1 = 0) by (by destruct a). rewrite H0.
    split_and!; [done|done|lia|]. intros He. symmetry. by apply Htop.
  - fold E in Hd, Hc, Hr, Htop. unfold y. rewrite Hd.
    destruct (normalize_spec W q HW Hq) as (_ & Hc' & _).
    destruct (quantize_decode W a E s q HW Hs Hq HE Hc Hr) as [Hop Hqd]. rewrite Hop, Hqd.
    split_and!; [|done|lia|].
    + apply decode_fields; try done; destruct a; simpl in *; lia.
    + intros He. rewrite Htop by done. lia.
Qed.

Lemma row_exp_unique a row E :
  (∀ v, v ∈ row → (operand a v).1 <= E) → 0 <= E → (E = 0 ∨ ∃ v, v ∈ row ∧ (operand a v).1 = E) →
  row_exp a row = E.
Proof.
  intros Hle HE Hex. pose proof (row_exp_range a row). destruct (row_exp_attained a row) as [H0|(v & Hv & Heq)].
  - destruct Hex as [->|(w & Hw & <-)]; [done|]. pose proof (row_exp_le a row w Hw).
    pose proof (operand_range a w). lia.
  - specialize (Hle v Hv). destruct Hex as [->|(w & Hw & <-)]; [lia|].
    pose proof (row_exp_le a row w Hw). lia.
Qed.

(** A row that has made the round trip is left as it is by another. *)
Lemma requantize_stable W a row :
  unpacked_width W → row_ok W a row →
  row_exp a (requantize W a row) = row_exp a row ∧ row_ok W a (requantize W a row)
  ∧ (∀ v, v ∈ row → let E := row_exp a row in
       quantize W a E (decode W a E (quantize W a E v)) = quantize W a E v).
Proof.
  intros HW Hrow. pose proof Hrow as [Hlen Hin Hexp].
  assert (He : row_exp a (requantize W a row) = row_exp a row).
  { apply row_exp_unique.
    - intros y (v & -> & Hv)%list_elem_of_fmap. by apply code_stable.
    - apply row_exp_range.
    - destruct (row_exp_attained a row) as [?|(v & Hv & Heq)]; [by left|right].
      eexists. split; [by apply list_elem_of_fmap; exists v|]. by apply code_stable. }
  split; [done|]. split; [|intros v Hv; by apply code_stable].
  split.
  - unfold requantize. by rewrite length_fmap.
  - apply Forall_forall. intros y (v & -> & Hv)%list_elem_of_fmap. by apply code_stable.
  - rewrite He. destruct Hexp as [?|[H0 Hz]]; [by left|right]. split; [done|].
    destruct Hz as [?|Hz]; [by left|right]. apply Forall_forall. intros y (v & -> & Hv)%list_elem_of_fmap.
    rewrite Forall_forall in Hz. unfold quantize. rewrite (Hz v Hv), Z.eqb_refl.
    destruct (decode_zero W a (row_exp a row) 0 HW ltac:(lia)) as [_ Hy]. rewrite !Z.mul_0_l in Hy. by rewrite Hy.
Qed.

(** A check for [row_ok]. *)
Definition row_okb (W : Z) (a : bool) (row : list Z) : bool :=
  (length row =? 16)%nat && forallb (λ v, (0 <=? v) && (v <? 2 ^ 32)) row
  && ((W <=? row_exp a row) || ((row_exp a row =? 0) && (a || forallb (λ v, v mod 2 ^ 31 =? 0) row))).

Lemma row_okb_ok W a row : row_okb W a row = true → row_ok W a row.
Proof.
  unfold row_okb. rewrite !andb_true_iff, orb_true_iff, andb_true_iff, orb_true_iff, !forallb_forall.
  rewrite Nat.eqb_eq. intros [[Hlen Hin] Hexp]. split; [done| |].
  - apply Forall_forall. intros v Hv%list_elem_of_In. specialize (Hin v Hv). unfold in_range. lia.
  - destruct Hexp as [?|[? Hz]]; [left; lia|right]. split; [lia|]. destruct Hz as [->|Hz]; [by left|right].
    apply Forall_forall. intros v Hv%list_elem_of_In. specialize (Hz v Hv). lia.
Qed.

Lemma row_ok_weaken W W' a row : W' <= W → row_ok W a row → row_ok W' a row.
Proof. intros HW [H1 H2 H3]. split; [done|done|]. destruct H3; [left; lia|by right]. Qed.

(** ** Properties *)

(** A normal float that shares its exponent with larger ones survives packing and
    unpacking up to half a unit of the shared exponent's mantissa, or, where
    rounding up would need another bit, as the largest mantissa; the sign is
    kept unless the result is zero. *)
Theorem quantization_error (BfpFormat : DataFormat) (is_exp_a : bool) (shared_exp v code : Z) :
  let W := MANTISSA_BFP_WIDTH BfpFormat in
  let ulp := 2 ^ (24 - W + shared_exp + bias is_exp_a) in
  unpacked_width W → is_bfp BfpFormat = true →
  in_range 32 v → v mod 2 ^ 31 ≠ 0 → bias is_exp_a <= expo v <= shared_exp + bias is_exp_a →
  0 <= shared_exp < (if is_exp_a then 32 else 255) → W <= shared_exp + bias is_exp_a →
  convert_u32_to_bfp BfpFormat false v shared_exp is_exp_a = Ok code →
  let y := float_bits (unpack_lane W is_exp_a shared_exp code) in
  (2 * Z.abs (magnitude v - magnitude y) <= ulp
   ∨ magnitude y = (2 ^ W - 1) * ulp ∧ magnitude y <= magnitude v < 2 ^ W * ulp)
  ∧ (y = 0 ∨ sgn y = sgn v).
Proof.
  intros W ulp HW Hf Hv Hnz He HE HWE Hc y. rewrite convert_spec in Hc by done. injection Hc as <-.
  fold W in y. change y with (decode W is_exp_a shared_exp (quantize W is_exp_a shared_exp v)). clear y.
  assert (HW' : 1 <= W <= 7) by (destruct HW; lia). pose proof (frac_range v).
  destruct (quantize_value W is_exp_a shared_exp v HW Hv Hnz He HE HWE) as (q & _ & Hq & Hround & Hmag & Hsgn).
  split; [|destruct Hsgn as [[_ ?]|?]; auto]. rewrite Hmag. fold ulp.
  set (d := shared_exp + bias is_exp_a - expo v) in *. set (m := 2 ^ 23 + frac v) in *.
  destruct (round_mantissa_error W d m HW') as [Herr|Herr]; [lia|unfold m; change (2 ^ 23) with 8388608; lia|..];
    rewrite <- Hround in Herr.
  all: assert (Hm : magnitude v = m * 2 ^ expo v)
    by (unfold magnitude; by rewrite (proj2 (Z.eqb_neq _ _) Hnz)).
  all: pose proof (expo_range v) as Hev; pose proof (Z.pow_pos_nonneg 2 (expo v) ltac:(lia) ltac:(lia)) as Hp.
  all: assert (Hunit : ulp = 2 ^ (24 - W + d) * 2 ^ expo v)
    by (unfold ulp; rewrite <- Z.pow_add_r by lia; f_equal; lia).
  all: rewrite Hm, Hunit; set (step := 2 ^ (24 - W + d)) in *.
  - left. replace (m * 2 ^ expo v - q * (step * 2 ^ expo v)) with ((m - q * step) * 2 ^ expo v) by ring.
    rewrite Z.abs_mul, (Z.abs_eq (2 ^ expo v)) by lia. nia.
  - right. destruct Herr as [-> Herr]. split; [ring|]. nia.
Qed.

Lemma quantization_error_witness :
  let v := 0x40490fdb in let y := float_bits (unpack_lane 7 false 130 25) in
  2 * Z.abs (magnitude v - magnitude y) <= 2 ^ 147 ∧ sgn y = sgn v.
Proof.
  intros v y. destruct (quantization_error Bfp8_b false 130 v 25) as [H1 H2].
  - by right.
  - done.
  - unfold in_range, v. lia.
  - by vm_compute.
  - vm_compute. by split.
  - lia.
  - simpl. lia.
  - by vm_compute.
  - split; [|by vm_compute]. destruct H1 as [H1|[H1 _]]; [exact H1|].
    exfalso. revert H1. by vm_compute.
Defined.

(** * Block floating point: the words of a tile

    Follows the numbers of a vector through packing and unpacking.  Both visit
    the rows of sixteen of a tile in the order [visit]; every row ends up where
    it was, so the round trip is [requantize] on each row of the vector. *)
(** ** Words *)
(** Fields of [b] bits, the first in the low bits. *)
Definition word_of (b : Z) (fields : list Z) : Z := foldr (λ f w, f + w * 2 ^ b) 0 fields.

Lemma word_of_app b l1 l2 :
  0 <= b → word_of b (l1 ++ l2) = word_of b l1 + word_of b l2 * 2 ^ (b * Z.of_nat (length l1)).
Proof.
  intros Hb. induction l1 as [|f l1 IH]; [simpl; rewrite Z.mul_0_r; lia|]. simpl app. simpl word_of.
  change (length (f :: l1)) with (S (length l1)). rewrite IH, Nat2Z.inj_succ, Z.mul_succ_r, Z.pow_add_r by lia. ring.
Qed.

Lemma word_of_range b l :
  0 <= b → Forall (λ f, 0 <= f < 2 ^ b) l → 0 <= word_of b l < 2 ^ (b * Z.of_nat (length l)).
Proof.
  intros Hb. induction 1 as [|f l Hf _ IH]; [simpl; rewrite Z.mul_0_r; simpl; lia|].
  change (length (f :: l)) with (S (length l)). simpl. rewrite Nat2Z.inj_succ, Z.mul_succ_r, Z.pow_add_r by lia.
  pose proof (Z.pow_pos_nonneg 2 (b * Z.of_nat (length l)) ltac:(lia) ltac:(lia)). nia.
Qed.

Lemma word_field b l k f :
  0 <= b → Forall (λ f, 0 <= f < 2 ^ b) l → l !! k = Some f →
  word_of b l / 2 ^ (Z.of_nat k * b) mod 2 ^ b = f.
Proof.
  intros Hb Hl Hk. rewrite <- (take_drop_middle l k f Hk). rewrite word_of_app by done.
  pose proof (lookup_lt_Some _ _ _ Hk).
  assert (Htk : length (take k l) = k) by (rewrite length_take; lia). rewrite Htk.
  pose proof (word_of_range b (take k l) Hb (Forall_take _ _ _ Hl)) as Hlow. rewrite Htk in Hlow.
  rewrite (Z.mul_comm (Z.of_nat k) b).
  rewrite Z.div_add by (apply Z.pow_nonzero; lia). rewrite Z.div_small, Z.add_0_l by done.
  simpl. rewrite Z.mod_add by (apply Z.pow_nonzero; lia). apply Z.mod_small.
  rewrite Forall_forall in Hl. apply Hl. by eapply list_elem_of_lookup_2.
Qed.

Lemma shift_field w b s :
  0 <= b → 0 <= s → Z.shiftr (Z.land w (Z.shiftl (2 ^ b - 1) s)) s = w / 2 ^ s mod 2 ^ b.
Proof.
  intros Hb Hs. rewrite Z.shiftr_land, Z.shiftr_shiftl_l, Z.sub_diag, Z.shiftl_0_r by lia.
  rewrite Z.sub_1_r, <- Z.ones_equiv, Z.land_ones, Z.shiftr_div_pow2 by lia. done.
Qed.

(** ** Grouping *)
Lemma push_more n emit xs out v :
  (length v + length xs < n)%nat → for_each (push_group n emit) xs (out, v) = Ok (out, v ++ xs).
Proof.
  revert v; induction xs as [|x xs IH]; intros v Hlen; simpl in *; [by rewrite app_nil_r|].
  rewrite length_app. simpl. rewrite Nat.mod_small by lia.
  rewrite (proj2 (Nat.eqb_neq _ 0)) by lia. cbn [mbind outcome_bind].
  rewrite IH by (rewrite length_app; simpl; lia). by rewrite <- (assoc app).
Qed.

Lemma push_full n emit c d out :
  (0 < n)%nat → length c = n → emit c = Ok d →
  for_each (push_group n emit) c (out, []) = Ok (out ++ [d], []).
Proof.
  intros Hn Hc He. destruct (exists_last (l := c)) as (c' & x & ->); [by intros ->; simpl in *; lia|].
  rewrite length_app in Hc. simpl in Hc. rewrite for_each_app, push_more by (simpl; lia).
  cbn [mbind outcome_bind for_each push_group app]. rewrite length_app. simpl length.
  replace (length c' + 1)%nat with n by lia. rewrite Nat.Div0.mod_same. cbn [Nat.eqb]. by rewrite He.
Qed.

Lemma push_chunks n m emit g xs out :
  (0 < n)%nat → length xs = (n * m)%nat → (∀ c, c ∈ chunks n m xs → emit c = Ok (g c)) →
  for_each (push_group n emit) xs (out, []) = Ok (out ++ (g <$> chunks n m xs), []).
Proof.
  intros Hn. revert xs out; induction m as [|m IH]; intros xs out Hlen He.
  - assert (xs = []) as -> by (apply nil_length_inv; lia). simpl. by rewrite app_nil_r.
  - simpl in He |- *. rewrite <- (take_drop n xs) at 1. rewrite for_each_app.
    rewrite (push_full n emit _ (g (take n xs))); [|done|rewrite length_take; lia|apply He; by left].
    cbn [mbind outcome_bind]. rewrite IH; [|rewrite length_drop; lia|intros c Hc; apply He; by right].
    by rewrite <- (assoc app).
Qed.

(** ** Exponent words *)
Lemma get_exp_dword_spec es :
  length es = 4%nat → Forall (λ e, 0 <= e < 256) es → get_exp_dword es = Ok (word_of 8 es).
Proof.
  intros Hlen He. destruct es as [|a [|b [|c [|d [|]]]]]; try done.
  unfold get_exp_dword. cbn [length Nat.eqb check mbind outcome_bind imap foldl compose]. f_equal.
  rewrite !Forall_cons in He. destruct He as (Ha & Hb & Hc & Hd & _).
  assert (Hland : ∀ e, 0 <= e < 256 → Z.land e 0xff = e).
  { intros e He. change 0xff with (Z.ones 8). rewrite Z.land_ones by lia. by apply Z.mod_small. }
  rewrite !Hland by done.
  assert (Hor : ∀ w e n, 0 <= n → 0 <= w < 2 ^ n → Z.lor w (Z.shiftl e n) = w + e * 2 ^ n).
  { intros w e n Hn Hw. rewrite Z.lor_comm, lor_shiftl by done. lia. }
  simpl Z.of_nat. rewrite Z.lor_0_l, Z.shiftl_0_r. rewrite (Hor a b), (Hor _ c), (Hor _ d) by lia.
  unfold word_of. simpl. lia.
Qed.

Lemma get_byte_spec es k e :
  length es = 4%nat → Forall (λ e, 0 <= e < 256) es → es !! k = Some e →
  get_byte (word_of 8 es) (Z.of_nat k) = Ok e.
Proof.
  intros Hlen He Hk. pose proof (lookup_lt_Some _ _ _ Hk). unfold get_byte.
  rewrite (proj2 (Z.ltb_lt _ 4)) by lia. cbn [check mbind outcome_bind]. f_equal.
  assert (Hm : u32 (Z.shiftl 0xff (8 * Z.of_nat k)) = Z.shiftl (2 ^ 8 - 1) (Z.of_nat k * 8)).
  { assert (k = 0 ∨ k = 1 ∨ k = 2 ∨ k = 3)%nat as [->|[->|[->| ->]]] by lia; by vm_compute. }
  rewrite Hm, (Z.mul_comm 8), shift_field by lia. apply word_field; [lia|done|done].
Qed.

(** ** Packing *)
(** The two formats: [n] fields of [W + 1] bits in a word. *)
Definition tile_format (n : nat) (W : Z) : Prop := (n = 4%nat ∧ W = 7) ∨ (n = 8%nat ∧ W = 3).

Lemma pack_loop (conv : Z → outcome Z) (code : Z → Z) b xs k acc :
  0 <= b → (∀ x, x ∈ xs → conv x = Ok (code x) ∧ 0 <= code x < 2 ^ b) →
  (k ≤ length xs)%nat → 0 <= acc → (acc + 1) * 2 ^ (b * Z.of_nat k) <= 2 ^ 32 →
  for_each (λ i tmp_o,
    v ← at_ xs i;
    conv_num ← conv v;
    let tmp_o := u32 (Z.shiftl tmp_o b) in
    Ok (Z.lor tmp_o (Z.land conv_num (Z.shiftl 1 b - 1)))) (reverse (seq 0 k)) acc
  = Ok (acc * 2 ^ (b * Z.of_nat k) + word_of b (code <$> take k xs)).
Proof.
  intros Hb Hcode. revert acc; induction k as [|k IH]; intros acc Hk Hacc Hfit.
  - simpl. rewrite Z.mul_0_r. f_equal. simpl. lia.
  - rewrite seq_S, reverse_snoc. cbn [for_each Nat.add].
    destruct (lookup_lt_is_Some_2 xs k ltac:(lia)) as [x Hx].
    destruct (Hcode x) as [Hc Hr]; [by eapply list_elem_of_lookup_2|].
    rewrite (at_some _ _ _ Hx). cbn [mbind outcome_bind]. rewrite Hc. cbn [mbind outcome_bind].
    rewrite Nat2Z.inj_succ, Z.mul_succ_r, Z.pow_add_r in Hfit |- * by lia.
    assert (Hpk : 1 <= 2 ^ (b * Z.of_nat k)) by (apply (Z.pow_le_mono_r 2 0); lia).
    assert (Hpb : 1 <= 2 ^ b) by (apply (Z.pow_le_mono_r 2 0); lia).
    assert (Hacc' : acc * 2 ^ b + 2 ^ b <= 2 ^ 32) by nia.
    assert (Hstep : Z.lor (u32 (Z.shiftl acc b)) (Z.land (code x) (Z.shiftl 1 b - 1)) = acc * 2 ^ b + code x).
    { rewrite u32_small by (rewrite Z.shiftl_mul_pow2 by lia; nia).
      rewrite (Z.shiftl_mul_pow2 1 b), Z.mul_1_l, Z.sub_1_r, <- Z.ones_equiv, Z.land_ones, Z.mod_small by lia.
      by apply lor_shiftl. }
    rewrite Hstep, IH by nia. f_equal.
    rewrite (take_S_r _ _ _ Hx), fmap_app, word_of_app, length_fmap, length_take by lia.
    replace (k `min` length xs)%nat with k by lia. simpl. ring.
Qed.

Lemma create_packed_spec f xs E a :
  tile_format (nums_in_dword f) (MANTISSA_BFP_WIDTH f) → is_bfp f = true →
  length xs = nums_in_dword f → Forall (in_range 32) xs →
  create_packed_bfp_packed_as_u32 f xs E a
  = Ok (word_of (MANTISSA_BFP_WIDTH f + 1) (quantize (MANTISSA_BFP_WIDTH f) a E <$> xs)).
Proof.
  intros Hf Hbfp Hlen Hin. unfold create_packed_bfp_packed_as_u32. rewrite Hbfp. cbn [check mbind outcome_bind].
  set (W := MANTISSA_BFP_WIDTH f) in *. set (n := nums_in_dword f) in *.
  assert (Hbits : 32 / Z.of_nat n = W + 1) by (destruct Hf as [[-> ->]|[-> ->]]; done).
  assert (HW : 1 <= W <= 7) by (destruct Hf as [[_ ->]|[_ ->]]; lia).
  rewrite Hbits.
  rewrite (pack_loop _ (quantize W a E) (W + 1) xs n 0); [|lia| |lia|lia|].
  - rewrite take_ge by lia. done.
  - intros x Hx. rewrite Forall_forall in Hin. rewrite convert_spec by auto. split; [done|].
    rewrite Z.pow_add_r by lia. apply quantize_range; auto.
  - destruct Hf as [[-> ->]|[-> ->]]; vm_compute; done.
Qed.

Lemma create_packed8_spec xs E a :
  length xs = 4%nat → Forall (in_range 32) xs →
  create_packed_bfp8_packed_as_u32 xs E a = Ok (word_of 8 (quantize 7 a E <$> xs)).
Proof. apply (create_packed_spec Bfp8); [by left|done]. Qed.

Lemma length_tile_rows : length tile_rows = 64%nat.
Proof. by vm_compute. Qed.

(** The rows of a vector, and the order in which the rows of a tile are visited. *)
Definition row_at (v : list Z) (g : nat) : list Z := take 16 (drop (16 * g) v).
Definition row_number (row_major : bool) (row : Z * Z * Z) : nat :=
  let '(tr, tc, i) := row in
  if row_major then Z.to_nat ((tr * 16 + i) * 2 + tc) else Z.to_nat ((tr * 2 + tc) * 16 + i).
Definition visit (row_major : bool) : list nat := row_number row_major <$> tile_rows.

Lemma visit_sequential : visit false = seq 0 64.
Proof. by vm_compute. Qed.

Lemma visit_permutation rm : visit rm ≡ₚ seq 0 64.
Proof.
  destruct rm; [|by rewrite visit_sequential].
  rewrite <- (merge_sort_Permutation (≤)%nat (visit true)).
  replace (merge_sort (≤)%nat (visit true)) with (seq 0 64) by (by vm_compute). done.
Qed.

Lemma tile_row_numbers k row :
  tile_rows !! k = Some row →
  (k < 64)%nat ∧ row_number false row = k ∧
  let '(tr, tc, i) := row in 0 <= tr < 2 ∧ 0 <= tc < 2 ∧ 0 <= i < 16
    ∧ Z.of_nat k = (tr * 2 + tc) * 16 + i ∧ Z.of_nat (row_number true row) = (tr * 16 + i) * 2 + tc.
Proof.
  intros Hk. pose proof (lookup_lt_Some _ _ _ Hk) as Hlt. rewrite length_tile_rows in Hlt.
  assert (Hseq : visit false !! k = Some (row_number false row)) by (unfold visit; by rewrite list_lookup_fmap, Hk).
  rewrite visit_sequential, lookup_seq_lt in Hseq by done. injection Hseq as Hseq.
  assert (Hin : row ∈ tile_rows) by (by eapply list_elem_of_lookup_2).
  unfold tile_rows in Hin. apply list_elem_of_bind in Hin as (tr & Hin & Htr%elem_of_seqZ).
  apply list_elem_of_bind in Hin as (tc & Hin & Htc%elem_of_seqZ).
  apply list_elem_of_fmap in Hin as (i & -> & Hi%elem_of_seqZ).
  unfold row_number in *. split; [done|]. split; [lia|]. split_and!; try lia.
Qed.

Lemma length_row_at v g : (16 * g + 16 ≤ length v)%nat → length (row_at v g) = 16%nat.
Proof. intros. unfold row_at. rewrite length_take, length_drop. lia. Qed.

Lemma row_at_range v g : Forall (in_range 32) v → Forall (in_range 32) (row_at v g).
Proof. intros. apply Forall_take. by apply Forall_drop. Qed.

(** Reading [n] consecutive numbers from position [p] on. *)
Lemma take_S_lookup {A} (v : list A) p n x :
  v !! p = Some x → take (S n) (drop p v) = x :: take n (drop (S p) v).
Proof. intros Hx. by rewrite (drop_S _ _ _ Hx). Qed.

Section pack.
Context (create : list Z → Z → outcome Z) (n : nat) (W : Z) (a : bool) (v : list Z) (rm : bool) (k : nat).
Context (Hf : tile_format n W) (Hv : Forall (in_range 32) v) (Hlen : length v = (1024 * k)%nat).
Context (Hcreate : ∀ xs E, length xs = n → Forall (in_range 32) xs →
  create xs E = Ok (word_of (W + 1) (quantize W a E <$> xs))).

(** [fp32_element_index] before row [s] of tile [t]. *)
Definition index_before (t s : nat) : Z := if rm then 0 else Z.of_nat (1024 * t + 16 * s).
(** The row that is read as row [s] of tile [t]. *)
Definition source_row (t : nat) (row : Z * Z * Z) : list Z := row_at v (64 * t + row_number rm row).

Lemma read_loop (t : nat) tr tc i p (js : nat) (j0 : Z) acc idx :
  (js ≤ 16)%nat → (p + js ≤ length v)%nat →
  (rm = true → (tr * 16 + i) * 32 + (tc * 16 + j0) + 1024 * Z.of_nat t = Z.of_nat p) →
  (rm = false → idx = Z.of_nat p) →
  for_each (λ j '(single_row, fp32_element_index),
    let '(data_index, fp32_element_index) :=
      if rm
      then ((tr * 16 + i) * 32 + (tc * 16 + j) + 1024 * Z.of_nat t, fp32_element_index)
      else (fp32_element_index, fp32_element_index + 1) in
    uint32_num ← vec_at v data_index;
    Ok (single_row ++ [uint32_num], fp32_element_index)) (seqZ j0 (Z.of_nat js)) (acc, idx)
  = Ok (acc ++ take js (drop p v), if rm then idx else idx + Z.of_nat js).
Proof.
  revert p j0 acc idx; induction js as [|js IH]; intros p j0 acc idx Hjs Hp Hrm Hnrm.
  - simpl. rewrite app_nil_r. destruct rm; [done|by rewrite Z.add_0_r].
  - rewrite seqZ_cons by lia. cbn [for_each].
    destruct (lookup_lt_is_Some_2 v p ltac:(lia)) as [x Hx]. rewrite (take_S_lookup _ _ _ _ Hx).
    assert (Hat : vec_at v (Z.of_nat p) = Ok x) by (by apply vec_at_some).
    replace (Z.pred (Z.of_nat (S js))) with (Z.of_nat js) by lia.
    destruct rm.
    + rewrite Hrm, Hat by done. cbn [mbind outcome_bind].
      rewrite (IH (S p)) by (done || lia || (intros _; specialize (Hrm eq_refl); lia)).
      by rewrite <- (assoc app).
    + rewrite Hnrm, Hat by done. cbn [mbind outcome_bind].
      rewrite (IH (S p)) by (done || lia || (intros _; lia)). rewrite <- (assoc app). do 2 f_equal. lia.
Qed.

Lemma read_row_spec (t s : nat) row :
  (t < k)%nat → tile_rows !! s = Some row →
  read_row v rm (Z.of_nat t) row (index_before t s) = Ok (source_row t row, index_before t (S s)).
Proof.
  intros Ht Hs. pose proof (tile_row_numbers s row Hs) as Hrow. unfold source_row, row_at, read_row.
  destruct row as [[tr tc] i]. destruct Hrow as (Hs64 & Hseq & Htr & Htc & Hi & Hk1 & Hk2).
  unfold index_before. change (seqZ 0 16) with (seqZ 0 (Z.of_nat 16)).
  rewrite (read_loop t tr tc i (16 * (64 * t + row_number rm (tr, tc, i)))); [|lia| | |].
  - destruct rm; simpl app; [done|]. do 2 f_equal. lia.
  - assert (row_number rm (tr, tc, i) < 64)%nat; [|lia].
    destruct rm; [|by rewrite Hseq]. lia.
  - intros ->. lia.
  - intros ->. rewrite Hseq. lia.
Qed.

Definition row_words (row : list Z) : list Z :=
  (λ c, word_of (W + 1) (quantize W a (row_exp a row) <$> c)) <$> chunks n (16 / n) row.

Lemma format_split : (0 < n)%nat ∧ (n * (16 / n) = 16)%nat.
Proof. destruct Hf as [[-> _]|[-> _]]; (split; [lia|reflexivity]). Qed.

Lemma row_data row pd :
  length row = 16%nat → Forall (in_range 32) row →
  for_each (push_group n (λ data, create data (row_exp a row))) row (pd, []) = Ok (pd ++ row_words row, []).
Proof.
  intros Hr Hin. destruct format_split as [Hn H16]. unfold row_words.
  apply (push_chunks n (16 / n)); [done|lia|]. intros c Hc. apply Hcreate.
  - eapply length_chunk; [|exact Hc]; lia.
  - apply Forall_forall. intros x Hx. rewrite Forall_forall in Hin. apply Hin.
    rewrite <- (concat_chunks n (16 / n) row) by lia. apply list_elem_of_In, in_concat.
    exists c. split; by apply list_elem_of_In.
Qed.

Lemma row_at_ok g : (g < 64 * k)%nat → length (row_at v g) = 16%nat ∧ Forall (in_range 32) (row_at v g).
Proof. intros. split; [apply length_row_at; lia|by apply row_at_range]. Qed.

Lemma source_row_ok (t s : nat) row :
  (t < k)%nat → tile_rows !! s = Some row →
  length (source_row t row) = 16%nat ∧ Forall (in_range 32) (source_row t row).
Proof.
  intros Ht Hs. apply row_at_ok. pose proof (tile_row_numbers s row Hs) as Hrow.
  destruct row as [[tr tc] i]. destruct Hrow as (Hs64 & Hseq & Htr & Htc & Hi & Hk1 & Hk2).
  assert (row_number rm (tr, tc, i) < 64)%nat; [|lia]. destruct rm; [|by rewrite Hseq]. lia.
Qed.

Lemma pack_row_spec (t s : nat) row pr ex pd :
  (t < k)%nat → tile_rows !! s = Some row →
  pack_row create n v rm a (Z.of_nat t) row (mk_pack pr ex pd [] (index_before t s)) =
  ('(pr, ex) ← push_group 4 get_exp_dword (row_exp a (source_row t row)) (pr, ex);
   Ok (mk_pack pr ex (pd ++ row_words (source_row t row)) [] (index_before t (S s)))).
Proof.
  intros Ht Hs. destruct (source_row_ok t s row Ht Hs) as [Hl Hin].
  unfold pack_row. cbn [fp32_element_index packed_result exponents packed_data data].
  rewrite read_row_spec by done. cbn [mbind outcome_bind]. rewrite get_max_exp_spec by done.
  cbn [mbind outcome_bind]. destruct (push_group _ _ _ _) as [[pr' ex']|]; [|done]. cbn [mbind outcome_bind].
  by rewrite row_data.
Qed.

Lemma pack_rows_spec (t : nat) l s pr ex pd :
  (t < k)%nat → drop s tile_rows = l →
  for_each (pack_row create n v rm a (Z.of_nat t)) l (mk_pack pr ex pd [] (index_before t s)) =
  ('(pr, ex) ← for_each (push_group 4 get_exp_dword) ((λ row, row_exp a (source_row t row)) <$> l) (pr, ex);
   Ok (mk_pack pr ex (pd ++ concat ((λ row, row_words (source_row t row)) <$> l)) []
         (index_before t (s + length l)))).
Proof.
  intros Ht. revert s pr ex pd; induction l as [|row l IH]; intros s pr ex pd Hl.
  - simpl. by rewrite app_nil_r, Nat.add_0_r.
  - assert (Hs : tile_rows !! s = Some row).
    { pose proof (lookup_drop tile_rows s 0) as Hd. by rewrite Hl, Nat.add_0_r in Hd. }
    rewrite (drop_S _ _ _ Hs) in Hl. injection Hl as Hl. cbn [for_each].
    rewrite pack_row_spec by done. rewrite !fmap_cons. cbn [for_each concat].
    destruct (push_group _ _ _ _) as [[pr' ex']|]; [|done]. cbn [mbind outcome_bind].
    rewrite (IH (S s)) by done. rewrite <- app_assoc. simpl length.
    by replace (S s + length l)%nat with (s + S (length l))%nat by lia.
Qed.

(** The words of tile [t]: its exponents, then the rows in the order they are visited. *)
Definition tile_exps (t : nat) : list Z := (λ row, row_exp a (source_row t row)) <$> tile_rows.
Definition tile_data (t : nat) : list (list Z) := (λ row, row_words (source_row t row)) <$> tile_rows.
Definition tile_words (t : nat) : list Z :=
  (word_of 8 <$> chunks 4 16 (tile_exps t)) ++ concat (tile_data t).

Lemma tile_exps_range t : Forall (λ e, 0 <= e < 256) (tile_exps t).
Proof.
  apply Forall_forall. intros e (row & -> & _)%list_elem_of_fmap.
  pose proof (row_exp_range a (source_row t row)) as Hr. clear - Hr. destruct a; lia.
Qed.

Lemma index_before_next t : index_before t 64 = index_before (S t) 0.
Proof. unfold index_before. clear. destruct rm; [done|lia]. Qed.

Lemma pack_tile_spec (t : nat) pr :
  (t < k)%nat →
  pack_tile create n v rm a (Z.of_nat t) (mk_pack pr [] [] [] (index_before t 0))
  = Ok (mk_pack (pr ++ tile_words t) [] [] [] (index_before (S t) 0)).
Proof.
  intros Ht. unfold pack_tile. cbn [fp32_element_index packed_result exponents packed_data data].
  rewrite (pack_rows_spec t tile_rows 0) by done. fold (tile_exps t). fold (tile_data t).
  rewrite (push_chunks 4 16 get_exp_dword (word_of 8)); [|lia| |].
  - cbn [mbind outcome_bind fp32_element_index packed_result exponents packed_data data].
    rewrite length_tile_rows, index_before_next. unfold tile_words. by rewrite <- (assoc app).
  - unfold tile_exps. by rewrite length_fmap, length_tile_rows.
  - intros c Hc. assert (Hl : length (tile_exps t) = 64%nat) by (unfold tile_exps; by rewrite length_fmap).
    apply get_exp_dword_spec; [by eapply (length_chunk 4 16)|].
    pose proof (tile_exps_range t) as Hr. rewrite Forall_forall in Hr. apply Forall_forall. intros e He. apply Hr.
    rewrite <- (concat_chunks 4 16 (tile_exps t)) by done. apply list_elem_of_In, in_concat.
    exists c. split; by apply list_elem_of_In.
Qed.

Lemma pack_tiles_spec :
  Z.of_nat (length v) < 2 ^ 32 →
  pack_tiles create n v rm a = Ok (concat (tile_words <$> seq 0 k)).
Proof.
  intros Hsmall. unfold pack_tiles. rewrite Hlen in Hsmall |- *.
  replace (Z.of_nat (1024 * k)) with (Z.of_nat k * 1024) in * by lia.
  rewrite Z.mod_mul, Z.div_mul by done. cbn [check Z.eqb mbind outcome_bind].
  rewrite u32_small by lia.
  assert (Hloop : ∀ m t pr, (t + m = k)%nat →
    for_each (pack_tile create n v rm a) (seqZ (Z.of_nat t) (Z.of_nat m)) (mk_pack pr [] [] [] (index_before t 0))
    = Ok (mk_pack (pr ++ concat (tile_words <$> seq t m)) [] [] [] (index_before k 0))).
  { induction m as [|m IH]; intros t pr Htm.
    - simpl. rewrite app_nil_r. by replace k with t by lia.
    - rewrite seqZ_cons by lia. cbn [for_each]. rewrite pack_tile_spec by lia. cbn [mbind outcome_bind].
      replace (Z.pred (Z.of_nat (S m))) with (Z.of_nat m) by lia.
      replace (Z.succ (Z.of_nat t)) with (Z.of_nat (S t)) by lia.
      rewrite IH by lia. rewrite <- (assoc app). done. }
  specialize (Hloop k 0%nat [] eq_refl).
  assert (H0 : index_before 0 0 = 0) by (unfold index_before; by destruct rm). rewrite H0 in Hloop.
  change (Z.of_nat 0) with 0 in Hloop. rewrite Hloop. done.
Qed.
End pack.
