(* ===== verification/BlockFloatRoundTrip.v ===== *)
(** * Block floating point: unpacking what was packed

    Unpacking reads the exponent and the mantissas of each row where packing put
    them and stores the decoded row in its place ([unpack_tiles_spec]); the
    round trip of a vector is [requantize] on each of its rows. *)
From S2P Require Import Prelude BlockFloat BlockFloatProps.

(** ** Lanes *)
Lemma movemask_none l : movemask l = 0 ↔ Forall (λ b, b = false) l.
Proof.
  induction l as [|b l IH]; [done|]. simpl. rewrite Forall_cons, <- IH.
  assert (0 <= movemask l). { clear IH. induction l as [|c l IH]; simpl; [lia|]. destruct c; simpl; lia. }
  destruct b; simpl Z.b2z; split; [lia|intros [? _]; done|lia|lia].
Qed.

Lemma shift_check_ok lanes :
  (∀ l, l ∈ lanes → select_mask l = false → shift_exceeds l = false) → shift_check lanes = Ok tt.
Proof.
  intros Hl. unfold shift_check. destruct (Z.eqb_spec (movemask (select_mask <$> lanes)) 0) as [H0|H0].
  - assert (Hm : movemask (shift_exceeds <$> lanes) = 0); [|by rewrite Hm, Z.land_0_r, Z.land_0_l].
    apply movemask_none, Forall_fmap, Forall_forall. intros l Hin. apply Hl; [done|].
    rewrite movemask_none, Forall_fmap, Forall_forall in H0. by apply H0.
  - by rewrite Z.land_0_r.
Qed.

Lemma lane_check W a row v :
  unpacked_width W → row_ok W a row → v ∈ row →
  let l := unpack_lane W a (row_exp a row) (quantize W a (row_exp a row) v) in
  select_mask l = false → shift_exceeds l = false.
Proof.
  intros HW Hrow Hv l Hs. subst l. pose proof (row_exp_range a row) as HE.
  destruct (code_cases W a row v HW Hrow Hv) as [[Hz _]|(s & q & Hd & Hsr & Hq & Hc & _)].
  - rewrite Hz in Hs. destruct (decode_zero W a (row_exp a row) 0 HW ltac:(lia)) as [Ht _].
    rewrite Z.mul_0_l in Ht. congruence.
  - rewrite Hd. assert (HE' : 0 <= row_exp a row < 256) by (destruct a; lia).
    destruct (decode_nonzero W a (row_exp a row) s q HW Hsr Hq HE') as (_ & -> & _). by apply Z.ltb_ge.
Qed.

(** ** Words *)
Lemma split_word_of n W codes :
  tile_format n W → length codes = n → Forall (λ d, 0 <= d < 2 ^ (W + 1)) codes →
  split_word (Z.of_nat n) (word_of (W + 1) codes) = codes.
Proof.
  intros Hf Hlen Hr. unfold split_word.
  assert (Hb : 32 / Z.of_nat n = W + 1) by (by destruct Hf as [[-> ->]|[-> ->]]). rewrite Hb.
  assert (HW : 0 <= W + 1) by (destruct Hf as [[_ ->]|[_ ->]]; lia).
  apply list_eq. intros i. rewrite list_lookup_fmap. destruct (decide (i < n)%nat) as [Hi|Hi].
  - rewrite lookup_seqZ_lt by lia. destruct (lookup_lt_is_Some_2 codes i ltac:(lia)) as [d Hd].
    rewrite Hd. simpl. f_equal. unfold srl. rewrite shift_field by lia. by apply word_field.
  - rewrite lookup_seqZ_ge by lia. symmetry. apply lookup_ge_None. lia.
Qed.

Section unpack.
Context (n : nat) (W : Z) (a : bool) (v : list Z) (rm : bool) (k : nat).
Context (Hf : tile_format n W) (Hlen : length v = (1024 * k)%nat).
Context (Hrows : ∀ g, (g < 64 * k)%nat → row_ok W a (row_at v g)).

Definition words : list Z := concat (tile_words n W a v rm <$> seq 0 k).
Definition tile_size_words : nat := (16 + 64 * (16 / n))%nat.

Lemma width_ok : unpacked_width W.
Proof. destruct Hf as [[_ ->]|[_ ->]]; [by right|by left]. Qed.

Lemma length_row_words row : length (row_words n W a row) = (16 / n)%nat.
Proof. unfold row_words. by rewrite length_fmap, length_chunks. Qed.

Lemma tile_data_const t : Forall (λ l, length l = (16 / n)%nat) (tile_data n W a v rm t).
Proof. apply Forall_forall. intros l (row & -> & _)%list_elem_of_fmap. apply length_row_words. Qed.

Lemma length_tile_words t : length (tile_words n W a v rm t) = tile_size_words.
Proof.
  unfold tile_words, tile_size_words. rewrite length_app, length_fmap, length_chunks.
  rewrite (length_concat_const (16 / n)) by apply tile_data_const.
  unfold tile_data. rewrite length_fmap, length_tile_rows. lia.
Qed.

Lemma length_words : length words = (tile_size_words * k)%nat.
Proof.
  unfold words. rewrite (length_concat_const tile_size_words), length_fmap, length_seq; [done|].
  apply Forall_forall. intros l (t & -> & _)%list_elem_of_fmap. apply length_tile_words.
Qed.

Lemma words_lookup t i x :
  (t < k)%nat → tile_words n W a v rm t !! i = Some x → words !! (tile_size_words * t + i)%nat = Some x.
Proof.
  intros Ht Hi. unfold words. erewrite lookup_concat_const; [exact Hi| | |].
  - apply Forall_forall. intros l (t' & -> & _)%list_elem_of_fmap. apply length_tile_words.
  - rewrite list_lookup_fmap, lookup_seq_lt by done. done.
  - rewrite <- (length_tile_words t). by eapply lookup_lt_Some.
Qed.

(** The exponent word of row [s], and the byte that holds its exponent. *)
Lemma exponent_word t s row :
  (t < k)%nat → tile_rows !! s = Some row →
  ∃ es, words !! (tile_size_words * t + s / 4)%nat = Some (word_of 8 es)
    ∧ get_byte (word_of 8 es) (Z.of_nat (s mod 4)) = Ok (row_exp a (source_row v rm t row)).
Proof.
  intros Ht Hs. pose proof (lookup_lt_Some _ _ _ Hs) as Hlt. rewrite length_tile_rows in Hlt.
  set (es := tile_exps a v rm t).
  assert (Hes : length es = 64%nat) by (unfold es, tile_exps; by rewrite length_fmap).
  pose proof (Nat.Div0.div_lt_upper_bound s 4 16 ltac:(lia)) as Hq.
  pose proof (Nat.mod_upper_bound s 4 ltac:(lia)) as Hm. pose proof (Nat.div_mod s 4 ltac:(lia)) as Hdm.
  exists (take 4 (drop (4 * (s / 4)) es)). split.
  - apply words_lookup; [done|]. unfold tile_words.
    rewrite lookup_app_l by (by rewrite length_fmap, length_chunks).
    by rewrite list_lookup_fmap, lookup_chunks.
  - apply get_byte_spec.
    + rewrite length_take, length_drop. lia.
    + apply Forall_take, Forall_drop, tile_exps_range.
    + rewrite lookup_take_lt, lookup_drop, <- Hdm by done.
      unfold es, tile_exps. by rewrite list_lookup_fmap, Hs.
Qed.

Lemma data_word t s row j :
  (t < k)%nat → tile_rows !! s = Some row → (j < 16 / n)%nat →
  let R := source_row v rm t row in
  words !! (tile_size_words * t + (16 + (16 / n * s + j)))%nat
  = Some (word_of (W + 1) (quantize W a (row_exp a R) <$> take n (drop (n * j) R))).
Proof.
  intros Ht Hs Hj R. apply words_lookup; [done|]. unfold tile_words.
  rewrite lookup_app_r by (rewrite length_fmap, length_chunks; lia).
  rewrite length_fmap, length_chunks. replace (16 + (16 / n * s + j) - 16)%nat with (16 / n * s + j)%nat by lia.
  erewrite lookup_concat_const; [|apply tile_data_const| |done].
  2:{ unfold tile_data. by rewrite list_lookup_fmap, Hs. }
  unfold row_words. by rewrite list_lookup_fmap, lookup_chunks.
Qed.

Lemma source_row_number t s row :
  (t < k)%nat → tile_rows !! s = Some row → (64 * t + row_number rm row < 64 * k)%nat.
Proof.
  clear. intros Ht Hs. pose proof (tile_row_numbers s row Hs) as Hrow. destruct row as [[tr tc] i].
  destruct Hrow as (Hs64 & Hseq & Htr & Htc & Hi & Hk1 & Hk2).
  assert (row_number rm (tr, tc, i) < 64)%nat; [|lia]. destruct rm; [|by rewrite Hseq]. lia.
Qed.

Lemma take_two {A} m p (l : list A) :
  take m (drop p l) ++ take m (drop (p + m) l) = take (m + m) (drop p l).
Proof. by rewrite <- (drop_drop l m p), take_take_drop. Qed.

Lemma checks_ok lanes m :
  (∀ l, l ∈ lanes → select_mask l = false → shift_exceeds l = false) →
  for_each (λ i _, shift_check (take 8 (drop (8 * i) lanes))) (seq 0 m) tt = Ok tt.
Proof.
  intros Hl. destruct (for_each_fold (λ i _, shift_check (take 8 (drop (8 * i) lanes))) (λ _ _, tt)
    (λ _, True) (seq 0 m) tt) as [-> _]; [done| |by destruct (foldl _ _ _)].
  intros i _ _ _. split; [|done]. apply shift_check_ok. intros l Hin. apply Hl.
  rewrite <- (take_drop (8 * i) lanes), <- (take_drop 8 (drop (8 * i) lanes)), !elem_of_app. tauto.
Qed.

(** The lanes of block [b] of a row: the numbers from [2 n b] on, decoded. *)
Lemma block_lanes row b :
  row_ok W a row → (2 * b + 1 < 16 / n)%nat →
  let E := row_exp a row in
  let codes j := split_word (Z.of_nat n) (word_of (W + 1) (quantize W a E <$> take n (drop (n * j) row))) in
  let lanes := unpack_lane W a E <$> (codes (2 * b)%nat ++ codes (2 * b + 1)%nat) in
  float_bits <$> lanes = take (n + n) (drop (2 * n * b) (requantize W a row))
  ∧ (∀ l, l ∈ lanes → select_mask l = false → shift_exceeds l = false).
Proof.
  intros Hrow Hb E codes lanes. pose proof width_ok as HW. pose proof Hrow as [Hl Hin _].
  assert (HW' : 1 <= W <= 7) by (destruct HW; lia).
  assert (Hn : (n * (16 / n) = 16)%nat) by (by destruct Hf as [[-> _]|[-> _]]).
  assert (Hcodes : ∀ j, (j < 16 / n)%nat → codes j = quantize W a E <$> take n (drop (n * j) row)).
  { intros j Hj. apply split_word_of; [done| |].
    - rewrite length_fmap, length_take, length_drop. nia.
    - apply Forall_fmap, Forall_take, Forall_drop. eapply Forall_impl; [exact Hin|].
      intros x Hx. simpl. rewrite Z.pow_add_r by lia. by apply quantize_range. }
  assert (Hlanes : lanes = (λ x, unpack_lane W a E (quantize W a E x)) <$> take (n + n) (drop (2 * n * b) row)).
  { unfold lanes. rewrite !Hcodes, <- fmap_app by lia.
    replace (n * (2 * b + 1))%nat with (n * (2 * b) + n)%nat by lia. rewrite take_two.
    replace (n * (2 * b))%nat with (2 * n * b)%nat by lia. by rewrite <- list_fmap_compose. }
  rewrite Hlanes. split.
  - rewrite <- list_fmap_compose. unfold requantize. rewrite <- fmap_drop, <- fmap_take. done.
  - intros l (x & -> & Hx)%list_elem_of_fmap. apply lane_check; [done|done|].
    rewrite <- (take_drop (2 * n * b) row), <- (take_drop (n + n) (drop (2 * n * b) row)), !elem_of_app. tauto.
Qed.

(** The indices computed for block [b] of row [s]. *)
Lemma block_indices (t s b : nat) tr tc i :
  Z.of_nat s = (tr * 2 + tc) * 16 + i → (2 * b + 1 < 16 / n)%nat →
  let N := Z.of_nat n in
  let data_index := tr * (32 * num_dwords_per_row N) + tc * (16 * num_dwords_per_row N)
    + i * num_dwords_per_row N + (Z.of_nat b * (2 * N)) / N in
  let tile_and_data_index := data_index + num_bfp_dwords_in_tile N * Z.of_nat t in
  Z.shiftr data_index (Z.log2 (4 * num_dwords_per_row N)) + num_bfp_dwords_in_tile N * Z.of_nat t
    = Z.of_nat (tile_size_words * t + s / 4)
  ∧ Z.land (Z.shiftr tile_and_data_index (Z.log2 (num_dwords_per_row N))) 3 = Z.of_nat (s mod 4)
  ∧ 16 + tile_and_data_index = Z.of_nat (tile_size_words * t + (16 + (16 / n * s + 2 * b)))
  ∧ 16 + tile_and_data_index + 1 = Z.of_nat (tile_size_words * t + (16 + (16 / n * s + (2 * b + 1)))).
Proof.
  intros Hs Hb. unfold num_dwords_per_row, num_bfp_dwords_in_tile, tile_size_words.
  destruct Hf as [[-> ->]|[-> ->]].
  - change (Z.of_nat 4) with 4 in *. change (16 / 4)%nat with 4%nat in *. change (16 / 4) with 4.
    change (1024 / 4) with 256. change (Z.log2 (4 * 4)) with 4. change (Z.log2 4) with 2. cbv zeta.
    replace (Z.of_nat b * (2 * 4)) with (Z.of_nat b * 2 * 4) by lia. rewrite Z.div_mul by lia.
    change 3 with (Z.ones 2). rewrite Z.land_ones, !Z.shiftr_div_pow2 by lia. change (2 ^ 4) with 16. change (2 ^ 2) with 4.
    replace (tr * (32 * 4) + tc * (16 * 4) + i * 4 + Z.of_nat b * 2) with (4 * Z.of_nat s + 2 * Z.of_nat b) by lia.
    rewrite Nat2Z.inj_add, Nat2Z.inj_div, Nat2Z.inj_mod. change (Z.of_nat 4) with 4.
    split_and!; Z.to_euclidean_division_equations; lia.
  - change (Z.of_nat 8) with 8 in *. change (16 / 8)%nat with 2%nat in *. change (16 / 8) with 2.
    change (1024 / 8) with 128. change (Z.log2 (4 * 2)) with 3. change (Z.log2 2) with 1. cbv zeta.
    replace (Z.of_nat b * (2 * 8)) with (Z.of_nat b * 2 * 8) by lia. rewrite Z.div_mul by lia.
    change (Z.land ?x 3) with (Z.land x (Z.ones 2)).
    rewrite Z.land_ones, !Z.shiftr_div_pow2 by lia. change (2 ^ 3) with 8. change (2 ^ 2) with 4. change (2 ^ 1) with 2.
    replace (tr * (32 * 2) + tc * (16 * 2) + i * 2 + Z.of_nat b * 2) with (2 * Z.of_nat s + 2 * Z.of_nat b) by lia.
    rewrite Nat2Z.inj_add, Nat2Z.inj_div, Nat2Z.inj_mod. change (Z.of_nat 4) with 4.
    split_and!; Z.to_euclidean_division_equations; lia.
Qed.

Lemma vec_at_pos {A} (l : list A) z i x : z = Z.of_nat i → l !! i = Some x → vec_at l z = Ok x.
Proof. intros ->. apply vec_at_some. Qed.

Lemma storeu_ok fv z p vals :
  z = Z.of_nat p → (p + length vals ≤ length fv)%nat → storeu fv z vals = Ok (list_inserts p vals fv).
Proof.
  intros -> Hp. unfold storeu. rewrite (proj2 (Z.leb_le 0 _)), (proj2 (Z.leb_le _ (Z.of_nat (length fv)))) by lia.
  by rewrite Nat2Z.id.
Qed.

(** Where row [s] of tile [t] goes, and what it holds after the round trip. *)
Definition target (t : nat) (row : Z * Z * Z) : nat := (64 * t + row_number rm row)%nat.
Definition result (g : nat) : list Z := requantize W a (row_at v g).

Lemma unpack_block_spec t s b row fv :
  (t < k)%nat → tile_rows !! s = Some row → (2 * b + 1 < 16 / n)%nat → length fv = (1024 * k)%nat →
  unpack_block (Z.of_nat n) W words rm a (Z.of_nat t) row (Z.of_nat b * (2 * Z.of_nat n))
    (fv, index_before rm t s + (if rm then 0 else Z.of_nat (2 * n * b)))
  = Ok (list_inserts (16 * target t row + 2 * n * b) (take (n + n) (drop (2 * n * b) (result (target t row)))) fv,
        index_before rm t s + (if rm then 0 else Z.of_nat (2 * n * S b))).
Proof.
  intros Ht Hs Hb Hfv. set (g := target t row).
  pose proof (source_row_number t s row Ht Hs) as Hg. fold (target t row) in Hg. fold g in Hg.
  pose proof (tile_row_numbers s row Hs) as Hrow. pose proof (Hrows g Hg) as Hok.
  destruct (exponent_word t s row Ht Hs) as (es & Hexp & Hbyte).
  pose proof (data_word t s row (2 * b) Ht Hs ltac:(lia)) as Hw0.
  pose proof (data_word t s row (2 * b + 1) Ht Hs Hb) as Hw1. cbv zeta in Hw0, Hw1.
  change (source_row v rm t row) with (row_at v g) in *.
  destruct (block_lanes (row_at v g) b Hok Hb) as [Hbits Hcheck].
  assert (Hnn : (2 * n * S b ≤ 16)%nat) by (destruct Hf as [[-> _]|[-> _]]; simpl in Hb; lia).
  destruct row as [[tr tc] i]. destruct Hrow as (Hs64 & Hseq & Htr & Htc & Hi & Hk1 & Hk2).
  destruct (block_indices t s b tr tc i Hk1 Hb) as (H1 & H2 & H3 & H4).
  unfold unpack_block. rewrite H2, (vec_at_pos _ _ _ _ H1 Hexp). cbn [mbind outcome_bind].
  rewrite Hbyte. cbn [mbind outcome_bind].
  rewrite (vec_at_pos _ _ _ _ H3 Hw0). cbn [mbind outcome_bind].
  rewrite (vec_at_pos _ _ _ _ H4 Hw1). cbn [mbind outcome_bind].
  rewrite checks_ok by exact Hcheck. cbn [mbind outcome_bind]. cbv zeta in Hbits. rewrite Hbits.
  fold (result g).
  assert (Hlen2 : length (take (n + n) (drop (2 * n * b) (result g))) = (n + n)%nat).
  { unfold result, requantize. rewrite length_take, length_drop, length_fmap, (ro_length _ _ _ Hok). lia. }
  assert (Hroom : (16 * g + 2 * n * b + length (take (n + n) (drop (2 * n * b) (result g))) ≤ length fv)%nat)
    by (rewrite Hlen2; lia).
  unfold index_before. clear Hexp Hbyte Hw0 Hw1 Hbits Hcheck H1 H2 H3 H4.
  assert (Hgv : g = (64 * t + row_number rm (tr, tc, i))%nat) by done.
  destruct rm.
  - rewrite (storeu_ok _ _ (16 * g + 2 * n * b)) by (done || lia). done.
  - rewrite (storeu_ok _ _ (16 * g + 2 * n * b)); [|lia|done]. cbn [mbind outcome_bind]. do 2 f_equal. lia.
Qed.

(** The blocks of a row, one after the other. *)
Lemma blocks_spec t s row fv m b :
  (t < k)%nat → tile_rows !! s = Some row → (2 * (b + m) ≤ 16 / n)%nat → length fv = (1024 * k)%nat →
  for_each (λ j, unpack_block (Z.of_nat n) W words rm a (Z.of_nat t) row (j * (2 * Z.of_nat n)))
    (seqZ (Z.of_nat b) (Z.of_nat m)) (fv, index_before rm t s + (if rm then 0 else Z.of_nat (2 * n * b)))
  = Ok (list_inserts (16 * target t row + 2 * n * b)
          (take (2 * n * m) (drop (2 * n * b) (result (target t row)))) fv,
        index_before rm t s + (if rm then 0 else Z.of_nat (2 * n * (b + m)))).
Proof.
  intros Ht Hs. revert fv b; induction m as [|m IH]; intros fv b Hm Hfv.
  - replace (seqZ (Z.of_nat b) (Z.of_nat 0)) with (@nil Z) by done. cbn [for_each].
    by rewrite Nat.add_0_r, Nat.mul_0_r, take_0.
  - rewrite seqZ_cons by lia. cbn [for_each].
    rewrite (unpack_block_spec t s b) by (done || lia). cbn [mbind outcome_bind].
    replace (Z.pred (Z.of_nat (S m))) with (Z.of_nat m) by lia.
    replace (Z.succ (Z.of_nat b)) with (Z.of_nat (S b)) by lia.
    rewrite IH by (rewrite ?length_inserts; lia). do 2 f_equal; [|by replace (S b + m)%nat with (b + S m)%nat by lia].
    set (Q := result (target t row)).
    assert (HQ : length Q = 16%nat).
    { unfold Q, result, requantize. rewrite length_fmap. apply ro_length with (W := W) (a := a).
      by apply Hrows, source_row_number with (s := s). }
    assert (H16 : (2 * n * (b + S m) ≤ 16)%nat) by (destruct Hf as [[-> _]|[-> _]]; simpl in Hm; lia).
    replace (2 * n * S m)%nat with ((n + n) + 2 * n * m)%nat by lia.
    rewrite <- (take_take_drop _ (n + n)), list_inserts_app_l, drop_drop, length_take, length_drop.
    replace ((n + n) `min` (length Q - 2 * n * b))%nat with (n + n)%nat by lia.
    f_equal; [lia|]. by replace (2 * n * b + (n + n))%nat with (2 * n * S b)%nat by lia.
Qed.

Lemma unpack_row_spec t s row fv :
  (t < k)%nat → tile_rows !! s = Some row → length fv = (1024 * k)%nat →
  unpack_row (Z.of_nat n) W words rm a (Z.of_nat t) row (fv, index_before rm t s)
  = Ok (list_inserts (16 * target t row) (result (target t row)) fv, index_before rm t (S s)).
Proof.
  intros Ht Hs Hfv. unfold unpack_row.
  assert (Hm : 16 / (2 * Z.of_nat n) = Z.of_nat (16 / n / 2)) by (by destruct Hf as [[-> _]|[-> _]]).
  assert (Hm' : (2 * (0 + 16 / n / 2) ≤ 16 / n)%nat) by (by destruct Hf as [[-> _]|[-> _]]; simpl; lia).
  assert (H16 : (2 * n * (16 / n / 2) = 16)%nat) by (by destruct Hf as [[-> _]|[-> _]]).
  rewrite Hm. pose proof (blocks_spec t s row fv (16 / n / 2) 0 Ht Hs Hm' Hfv) as Hb.
  replace (index_before rm t s + (if rm then 0 else Z.of_nat (2 * n * 0))) with (index_before rm t s) in Hb
    by (destruct rm; lia).
  change (Z.of_nat 0) with 0 in Hb. rewrite Hb. clear Hb.
  rewrite Nat.mul_0_r, Nat.add_0_r, drop_0, Nat.add_0_l, H16. do 2 f_equal.
  - rewrite take_ge; [done|]. unfold result, requantize. rewrite length_fmap.
    rewrite (ro_length W a) by by apply Hrows, source_row_number with (s := s). done.
  - unfold index_before. destruct rm; lia.
Qed.

(** ** The whole vector *)
Definition place (fv : list Z) (g : nat) : list Z := list_inserts (16 * g) (result g) fv.

Lemma length_place fv gs : length (foldl place fv gs) = length fv.
Proof. revert fv; induction gs as [|g gs IH]; intros fv; [done|]. simpl. rewrite IH. apply length_inserts. Qed.

Lemma unpack_rows_spec t l s fv :
  (t < k)%nat → drop s tile_rows = l → length fv = (1024 * k)%nat →
  for_each (unpack_row (Z.of_nat n) W words rm a (Z.of_nat t)) l (fv, index_before rm t s)
  = Ok (foldl place fv (target t <$> l), index_before rm t (s + length l)).
Proof.
  intros Ht. revert s fv; induction l as [|row l IH]; intros s fv Hl Hfv; [by rewrite Nat.add_0_r|].
  assert (Hs : tile_rows !! s = Some row).
  { pose proof (lookup_drop tile_rows s 0) as Hd. by rewrite Hl, Nat.add_0_r in Hd. }
  rewrite (drop_S _ _ _ Hs) in Hl. injection Hl as Hl. cbn [for_each].
  rewrite (unpack_row_spec t s) by done. cbn [mbind outcome_bind].
  rewrite IH by (rewrite ?length_inserts; done). rewrite fmap_cons. cbn [foldl length].
  by replace (S s + length l)%nat with (s + S (length l))%nat by lia.
Qed.

Lemma lookup_place fv gs g r :
  (∀ g', g' ∈ gs → (g' < 64 * k)%nat) → (g < 64 * k)%nat → (r < 16)%nat → length fv = (1024 * k)%nat →
  foldl place fv gs !! (16 * g + r)%nat
  = if decide (g ∈ gs) then result g !! r else fv !! (16 * g + r)%nat.
Proof.
  intros Hgs Hg Hr. revert fv; induction gs as [|g' gs IH]; intros fv Hfv.
  - cbn [foldl]. by rewrite decide_False by apply not_elem_of_nil.
  - assert (Hlen16 : length (result g') = 16%nat).
    { unfold result, requantize. rewrite length_fmap. apply (ro_length W a), Hrows, Hgs. by left. }
    assert (Hgs' : ∀ h, h ∈ gs → (h < 64 * k)%nat) by (intros h Hh; apply Hgs; by right).
    cbn [foldl]. rewrite (IH Hgs') by (unfold place; by rewrite length_inserts).
    destruct (decide (g ∈ gs)) as [Hin|Hin]; [by rewrite decide_True by (by right)|].
    unfold place. destruct (decide (g = g')) as [->|Hne].
    + rewrite decide_True by (by left). rewrite list_lookup_inserts by lia. f_equal. lia.
    + rewrite decide_False by (intros [?|?]%elem_of_cons; done).
      destruct (decide (g < g')%nat); [rewrite list_lookup_inserts_lt|rewrite list_lookup_inserts_ge]; [done|lia|done|lia].
Qed.

(** The order in which the rows of [m] tiles are stored. *)
Definition order (m : nat) : list nat := concat ((λ t, target t <$> tile_rows) <$> seq 0 m).

Lemma elem_of_order m g : g ∈ order m ↔ (g < 64 * m)%nat.
Proof.
  unfold order. rewrite list_elem_of_In, in_concat. split.
  - intros (l & Hl & Hg). apply list_elem_of_In, list_elem_of_fmap in Hl as (t & -> & Ht%elem_of_seq).
    apply list_elem_of_In, list_elem_of_fmap in Hg as (row & -> & Hrow).
    assert (Hv' : row_number rm row ∈ visit rm) by (apply list_elem_of_fmap; eauto).
    rewrite (visit_permutation rm), elem_of_seq in Hv'. unfold target. lia.
  - intros Hg. pose proof (Nat.div_mod g 64 ltac:(lia)) as Hdm. pose proof (Nat.mod_upper_bound g 64 ltac:(lia)).
    assert (Hv' : (g mod 64)%nat ∈ visit rm) by (rewrite (visit_permutation rm); apply elem_of_seq; lia).
    apply list_elem_of_fmap in Hv' as (row & Hrow & Hin).
    exists (target (g / 64) <$> tile_rows). split; apply list_elem_of_In, list_elem_of_fmap.
    + exists (g / 64)%nat. split; [done|]. apply elem_of_seq.
      pose proof (Nat.Div0.div_lt_upper_bound g 64 m ltac:(lia)). lia.
    + exists row. split; [|done]. unfold target. rewrite <- Hrow. lia.
Qed.

Lemma unpack_loop m t fv :
  (t + m = k)%nat → length fv = (1024 * k)%nat →
  for_each (λ tile_index, for_each (unpack_row (Z.of_nat n) W words rm a tile_index) tile_rows)
    (seqZ (Z.of_nat t) (Z.of_nat m)) (fv, index_before rm t 0)
  = Ok (foldl place fv (concat ((λ t, target t <$> tile_rows) <$> seq t m)), index_before rm k 0).
Proof.
  revert t fv; induction m as [|m IH]; intros t fv Htm Hfv.
  - by replace k with t by lia.
  - rewrite seqZ_cons by lia. cbn [for_each]. rewrite (unpack_rows_spec t tile_rows 0) by (done || lia).
    cbn [mbind outcome_bind]. rewrite length_tile_rows, Nat.add_0_l, index_before_next.
    replace (Z.pred (Z.of_nat (S m))) with (Z.of_nat m) by lia.
    replace (Z.succ (Z.of_nat t)) with (Z.of_nat (S t)) by lia.
    rewrite IH by (rewrite ?length_place; done || lia).
    cbn [seq]. rewrite fmap_cons. cbn [concat]. by rewrite foldl_app.
Qed.

Lemma rows_chunks : chunks 16 (64 * k) v = row_at v <$> seq 0 (64 * k).
Proof.
  clear. apply list_eq. intros i. rewrite list_lookup_fmap. destruct (decide (i < 64 * k)%nat) as [Hi|Hi].
  - rewrite lookup_chunks, lookup_seq_lt by done. done.
  - rewrite lookup_seq_ge, (proj2 (lookup_ge_None _ _)); [done|rewrite length_chunks; lia|lia].
Qed.

Lemma unpack_tiles_spec f :
  tile_size f = Ok (Z.of_nat (4 * tile_size_words)) → Z.of_nat (length v) * 4 < 2 ^ 32 →
  unpack_tiles (Z.of_nat n) W words rm a f = Ok (concat (requantize W a <$> chunks 16 (64 * k) v)).
Proof.
  intros Hsize Hsmall. unfold unpack_tiles. rewrite length_words, Hsize. cbn [mbind outcome_bind].
  assert (Hts : (tile_size_words ≤ 1024)%nat) by (unfold tile_size_words; destruct Hf as [[-> _]|[-> _]]; simpl; lia).
  assert (Hts0 : (0 < tile_size_words)%nat) by (unfold tile_size_words; lia).
  rewrite u32_small by nia.
  replace (Z.of_nat (tile_size_words * k) * 4) with (Z.of_nat k * Z.of_nat (4 * tile_size_words)) by lia.
  rewrite Z.mod_mul, Z.div_mul by lia. cbn [check Z.eqb mbind outcome_bind].
  rewrite u32_small by lia. replace (Z.to_nat (Z.of_nat k * 1024)) with (1024 * k)%nat by lia.
  pose proof (unpack_loop k 0 (replicate (1024 * k) 0) eq_refl) as Hloop.
  assert (H0 : index_before rm 0 0 = 0) by (unfold index_before; by destruct rm).
  rewrite H0, length_replicate in Hloop. change (Z.of_nat 0) with 0 in Hloop.
  rewrite Hloop by done. cbn [mbind outcome_bind]. f_equal. fold (order k).
  assert (Hres : Forall (λ l, length l = 16%nat) (requantize W a <$> chunks 16 (64 * k) v)).
  { rewrite rows_chunks. apply Forall_fmap, Forall_fmap, Forall_forall. intros g Hg%elem_of_seq.
    simpl. unfold requantize. rewrite length_fmap. apply (ro_length W a), Hrows. lia. }
  apply list_eq_same_length with (n := (1024 * k)%nat).
  - rewrite (length_concat_const 16), length_fmap, length_chunks by done. lia.
  - by rewrite length_place, length_replicate.
  - intros i x y Hi Hx Hy.
    pose proof (Nat.div_mod i 16 ltac:(lia)) as Hdm. pose proof (Nat.mod_upper_bound i 16 ltac:(lia)) as Hm.
    pose proof (Nat.Div0.div_lt_upper_bound i 16 (64 * k) ltac:(lia)) as Hg.
    rewrite Hdm in Hx, Hy.
    rewrite lookup_place in Hx; [|intros g; by rewrite elem_of_order|done|done|by rewrite length_replicate].
    rewrite decide_True in Hx by by apply elem_of_order.
    erewrite lookup_concat_const in Hy; [|exact Hres| |done].
    2:{ rewrite rows_chunks, !list_lookup_fmap, lookup_seq_lt by done. reflexivity. }
    unfold result in Hx. simpl in Hx, Hy. congruence.
Qed.
End unpack.

(** ** Packing again *)
Section repack.
Context (n : nat) (W : Z) (a : bool) (v : list Z) (rm : bool) (k : nat).
Context (Hf : tile_format n W) (Hlen : length v = (1024 * k)%nat).
Context (Hrows : ∀ g, (g < 64 * k)%nat → row_ok W a (row_at v g)).

Definition unpacked : list Z := concat (requantize W a <$> chunks 16 (64 * k) v).

Lemma unpacked_rows : Forall (λ l, length l = 16%nat) (requantize W a <$> chunks 16 (64 * k) v).
Proof.
  rewrite rows_chunks. apply Forall_fmap, Forall_fmap, Forall_forall. intros g Hg%elem_of_seq.
  simpl. unfold requantize. rewrite length_fmap. apply (ro_length W a), Hrows. lia.
Qed.

Lemma length_unpacked : length unpacked = (1024 * k)%nat.
Proof.
  unfold unpacked. rewrite (length_concat_const 16), length_fmap, length_chunks by apply unpacked_rows. lia.
Qed.

Lemma unpacked_row_at g : (g < 64 * k)%nat → row_at unpacked g = requantize W a (row_at v g).
Proof.
  intros Hg. unfold row_at at 1, unpacked.
  apply (take_concat_const 16); [apply unpacked_rows|].
  by rewrite rows_chunks, !list_lookup_fmap, lookup_seq_lt.
Qed.

Lemma unpacked_range : Forall (in_range 32) unpacked.
Proof.
  apply Forall_forall. intros x Hx. unfold unpacked in Hx. rewrite rows_chunks in Hx.
  apply list_elem_of_In, in_concat in Hx as (l & Hl & Hx).
  apply list_elem_of_In, list_elem_of_fmap in Hl as (l' & -> & Hl').
  apply list_elem_of_fmap in Hl' as (g & -> & Hg%elem_of_seq).
  destruct (requantize_stable W a (row_at v g)) as (_ & [_ Hin _] & _).
  - destruct Hf as [[_ ->]|[_ ->]]; [by right|by left].
  - apply Hrows. lia.
  - rewrite Forall_forall in Hin. by apply Hin, list_elem_of_In.
Qed.

Lemma tile_words_unpacked t : (t < k)%nat → tile_words n W a unpacked rm t = tile_words n W a v rm t.
Proof.
  intros Ht. assert (HW : unpacked_width W) by (destruct Hf as [[_ ->]|[_ ->]]; [by right|by left]).
  assert (Hrow : ∀ row, row ∈ tile_rows →
    row_exp a (source_row unpacked rm t row) = row_exp a (source_row v rm t row)
    ∧ row_words n W a (source_row unpacked rm t row) = row_words n W a (source_row v rm t row)).
  { intros row (s & Hs)%list_elem_of_lookup.
    pose proof (source_row_number rm k t s row Ht Hs) as Hg. unfold source_row.
    rewrite unpacked_row_at by done. set (R := row_at v (64 * t + row_number rm row)).
    destruct (requantize_stable W a R HW (Hrows _ Hg)) as (He & _ & Hq). split; [done|].
    unfold row_words. rewrite He.
    assert (Hcodes : quantize W a (row_exp a R) <$> requantize W a R = quantize W a (row_exp a R) <$> R).
    { unfold requantize. rewrite <- list_fmap_compose. apply list_fmap_ext. intros i x Hx.
      apply Hq. by eapply list_elem_of_lookup_2. }
    apply list_eq. intros j. rewrite !list_lookup_fmap.
    destruct (decide (j < 16 / n)%nat); [|by rewrite !(proj2 (lookup_ge_None (chunks _ _ _) _)) by (rewrite length_chunks; lia)].
    rewrite !lookup_chunks by done. simpl. rewrite !fmap_take, !fmap_drop, Hcodes. done. }
  unfold tile_words, tile_exps, tile_data. f_equal; [f_equal; f_equal|f_equal];
    apply list_fmap_ext; intros i row Hi; apply Hrow; by eapply list_elem_of_lookup_2.
Qed.
End repack.

(** ** The two formats *)
(** Vectors of whole tiles, small enough for the 32-bit sizes, whose rows of sixteen
    each share an exponent that leaves room for normalizing a mantissa. *)
Record packable (k : nat) (is_exp_a : bool) (v : list Z) : Prop := mk_packable {
  pk_length : length v = (1024 * k)%nat;
  pk_small : Z.of_nat (length v) * 4 < 2 ^ 32;
  pk_range : Forall (in_range 32) v;
  pk_rows : Forall (row_ok 7 is_exp_a) (chunks 16 (64 * k) v)
}.

Lemma packable_rows k a v W :
  W <= 7 → packable k a v → ∀ g, (g < 64 * k)%nat → row_ok W a (row_at v g).
Proof.
  intros HW [_ _ _ Hrows] g Hg. rewrite rows_chunks, Forall_fmap, Forall_forall in Hrows.
  apply (row_ok_weaken 7); [done|]. apply Hrows, elem_of_seq. lia.
Qed.

Lemma run_pack8 k a v rm :
  length v = (1024 * k)%nat → Z.of_nat (length v) * 4 < 2 ^ 32 → Forall (in_range 32) v →
  pack_fp32_vec_as_bfp8_tiles v rm a = Ok (words 4 7 a v rm k).
Proof.
  intros Hl Hs Hr. assert (Hf : tile_format 4 7) by (by left).
  unfold pack_fp32_vec_as_bfp8_tiles, words. apply (pack_tiles_spec _ 4 7 a v rm k Hf Hr Hl); [|lia].
  intros xs E Hx Hin. exact (create_packed8_spec xs E a Hx Hin).
Qed.

Lemma run_pack4 k a v rm :
  length v = (1024 * k)%nat → Z.of_nat (length v) * 4 < 2 ^ 32 → Forall (in_range 32) v →
  pack_fp32_vec_as_bfp4_tiles v rm a = Ok (words 8 3 a v rm k).
Proof.
  intros Hl Hs Hr. assert (Hf : tile_format 8 3) by (by right).
  unfold pack_fp32_vec_as_bfp4_tiles, pack_fp32_vec_as_bfp_tiles, words. cbn [is_bfp check mbind outcome_bind].
  apply (pack_tiles_spec _ 8 3 a v rm k Hf Hr Hl); [|lia].
  intros xs E Hx Hin. exact (create_packed_spec Bfp4_b xs E a Hf eq_refl Hx Hin).
Qed.

Lemma run_bfp8 k a v rm :
  packable k a v →
  pack_fp32_vec_as_bfp8_tiles v rm a = Ok (words 4 7 a v rm k)
  ∧ unpack_bfp8_tiles_into_float_vec (words 4 7 a v rm k) rm a = Ok (unpacked 7 a v k).
Proof.
  intros Hp. pose proof Hp as [Hl Hs Hr _]. split; [by apply run_pack8|].
  apply (unpack_tiles_spec 4 7 a v rm k (or_introl (conj eq_refl eq_refl)) Hl (packable_rows _ _ _ 7 ltac:(lia) Hp));
    [done|lia].
Qed.

Lemma run_bfp4 k a v rm :
  packable k a v →
  pack_fp32_vec_as_bfp4_tiles v rm a = Ok (words 8 3 a v rm k)
  ∧ unpack_bfp4_tiles_into_float_vec (words 8 3 a v rm k) rm a = Ok (unpacked 3 a v k).
Proof.
  intros Hp. pose proof Hp as [Hl Hs Hr _]. split; [by apply run_pack4|].
  apply (unpack_tiles_spec 8 3 a v rm k (or_intror (conj eq_refl eq_refl)) Hl (packable_rows _ _ _ 3 ltac:(lia) Hp));
    [done|lia].
Qed.

(** The words of the numbers read back are the words they were read from. *)
Lemma words_unpacked n W a v rm k :
  tile_format n W → W <= 7 → packable k a v → words n W a (unpacked W a v k) rm k = words n W a v rm k.
Proof.
  intros Hf HW Hp. pose proof (packable_rows _ _ _ W HW Hp) as Hrows. apply pk_length in Hp.
  unfold words. f_equal. apply list_fmap_ext. intros i t Ht.
  apply (tile_words_unpacked n W); [done|done|done|]. apply lookup_seq in Ht. lia.
Qed.

(** ** Properties *)

(** C40: Packing a vector of whole tiles and unpacking the words, in row-major order or
    tile by tile, gives back every row of sixteen where it was, each number
    quantized under the exponent of its row. *)
Theorem bfp_round_trip (k : nat) (row_major is_exp_a : bool) (v : list Z) :
  packable k is_exp_a v →
  (∃ w, pack_fp32_vec_as_bfp8_tiles v row_major is_exp_a = Ok w
     ∧ length w = (272 * k)%nat
     ∧ unpack_bfp8_tiles_into_float_vec w row_major is_exp_a
       = Ok (concat (requantize 7 is_exp_a <$> chunks 16 (64 * k) v)))
  ∧ (∃ w, pack_fp32_vec_as_bfp4_tiles v row_major is_exp_a = Ok w
     ∧ length w = (144 * k)%nat
     ∧ unpack_bfp4_tiles_into_float_vec w row_major is_exp_a
       = Ok (concat (requantize 3 is_exp_a <$> chunks 16 (64 * k) v))).
Proof.
  intros Hp. split.
  - destruct (run_bfp8 k is_exp_a v row_major Hp) as [Hpack Hunpack]. eexists. split; [exact Hpack|].
    split; [|exact Hunpack]. by rewrite length_words by by apply pk_length in Hp.
  - destruct (run_bfp4 k is_exp_a v row_major Hp) as [Hpack Hunpack]. eexists. split; [exact Hpack|].
    split; [|exact Hunpack]. by rewrite length_words by by apply pk_length in Hp.
Qed.

Definition sample_vector : list Z := (λ i, 0x3f800000 + i * 0x12345) <$> seqZ 0 1024.

Lemma sample_packable : packable 1 false sample_vector.
Proof.
  split.
  - by vm_compute.
  - by vm_compute.
  - unfold sample_vector. apply Forall_fmap, Forall_forall. intros i Hi%elem_of_seqZ. unfold in_range. simpl. lia.
  - apply Forall_forall. intros row Hrow. apply row_okb_ok.
    assert (Hall : forallb (row_okb 7 false) (chunks 16 (64 * 1) sample_vector) = true) by (vm_compute; reflexivity).
    rewrite forallb_forall in Hall. by apply Hall, list_elem_of_In.
Qed.

Lemma bfp_round_trip_witness :
  ∃ w, pack_fp32_vec_as_bfp8_tiles sample_vector true false = Ok w ∧ length w = 272%nat
    ∧ unpack_bfp8_tiles_into_float_vec w true false
      = Ok (concat (requantize 7 false <$> chunks 16 64 sample_vector)).
Proof.
  destruct (bfp_round_trip 1 true false sample_vector) as [H _]; [apply sample_packable|exact H].
Defined.

(** Packing is stable: the numbers read back from packed words pack to the same
    words. *)
Theorem bfp_repack (k : nat) (row_major is_exp_a : bool) (v : list Z) :
  packable k is_exp_a v →
  (∃ w u, pack_fp32_vec_as_bfp8_tiles v row_major is_exp_a = Ok w
     ∧ unpack_bfp8_tiles_into_float_vec w row_major is_exp_a = Ok u
     ∧ pack_fp32_vec_as_bfp8_tiles u row_major is_exp_a = Ok w)
  ∧ (∃ w u, pack_fp32_vec_as_bfp4_tiles v row_major is_exp_a = Ok w
     ∧ unpack_bfp4_tiles_into_float_vec w row_major is_exp_a = Ok u
     ∧ pack_fp32_vec_as_bfp4_tiles u row_major is_exp_a = Ok w).
Proof.
  intros Hp. pose proof Hp as [Hl Hs Hr _]. split.
  - pose proof (packable_rows _ _ _ 7 ltac:(lia) Hp) as Hrows. assert (Hf : tile_format 4 7) by (by left).
    destruct (run_bfp8 k is_exp_a v row_major Hp) as [Hpack Hunpack]. do 2 eexists. split_and!; [done|done|].
    rewrite <- (words_unpacked 4 7) by done.
    apply run_pack8; [by apply length_unpacked|by rewrite length_unpacked, <- Hl|].
    by apply (unpacked_range 4 7).
  - pose proof (packable_rows _ _ _ 3 ltac:(lia) Hp) as Hrows. assert (Hf : tile_format 8 3) by (by right).
    destruct (run_bfp4 k is_exp_a v row_major Hp) as [Hpack Hunpack]. do 2 eexists. split_and!; [done|done|].
    rewrite <- (words_unpacked 8 3) by done.
    apply run_pack4; [by apply length_unpacked|by rewrite length_unpacked, <- Hl|].
    by apply (unpacked_range 8 3).
Qed.

Lemma bfp_repack_witness :
  ∃ w u, pack_fp32_vec_as_bfp4_tiles sample_vector false false = Ok w
    ∧ unpack_bfp4_tiles_into_float_vec w false false = Ok u
    ∧ pack_fp32_vec_as_bfp4_tiles u false false = Ok w.
Proof.
  destruct (bfp_repack 1 false false sample_vector) as [_ H]; [apply sample_packable|exact H].
Defined.

(** The assertion of the unpacking code misses a lane whose shift exceeds its exponent
    when another lane of the eight has a zero mantissa, and when it is not lane 0. *)
Example shift_check_misses :
  let lanes codes := unpack_lane 7 false 2 <$> codes in
  shift_check (lanes [1; 0; 1; 1; 1; 1; 1; 1]) = Ok tt
  ∧ shift_check (lanes [64; 1; 1; 1; 1; 1; 1; 1]) = Ok tt
  ∧ shift_check (lanes [1; 64; 64; 64; 64; 64; 64; 64]) = Err TT_ASSERT.
Proof. by vm_compute. Qed.
