(* ===== verification/CommandQueue.v ===== *)
(** * Host side of a command queue (tt_metal/impl/dispatch/command_queue_interface.hpp)

    The L1 layout of a dispatch core ([dispatch_constants]), the two regions of
    a command queue in host memory ([SystemMemoryCQInterface]) and the manager
    that writes commands to the issue region, announces them in the prefetch
    queue and reads the completion region.  Pointers into the regions count
    16-byte words.

    What the manager does to the device and to host memory is a list of
    [effect]s; the value a poll of the device returns is an argument of the
    operation that polls.  Memory is a function from addresses to bytes. *)
From S2P Require Import Prelude Arith WorkerConfigBuffer.

(** ** Constants and enumerations *)
Definition MAX_HUGEPAGE_SIZE : Z := 2 ^ 30.
Definition MAX_DEV_CHANNEL_SIZE : Z := 2 ^ 28.
Definition DEVICES_PER_UMD_CHANNEL : Z := MAX_HUGEPAGE_SIZE / MAX_DEV_CHANNEL_SIZE.
Definition MEMCPY_ALIGNMENT : Z := 16.
Definition PREFETCH_Q_LOG_MINSIZE : Z := 4.
Definition TRANSFER_PAGE_SIZE : Z := Z.shiftl 1 12.
Definition DISPATCH_BUFFER_LOG_PAGE_SIZE : Z := 12.
Definition DISPATCH_BUFFER_SIZE_BLOCKS : Z := 4.
Definition DISPATCH_S_BUFFER_LOG_PAGE_SIZE : Z := 7.
Definition PREFETCH_D_BUFFER_LOG_PAGE_SIZE : Z := 12.
(** [sizeof(prefetch_q_entry_type)], a [uint16_t] *)
Definition sizeof_prefetch_q_entry : Z := 2.

Inductive CoreType := WORKER | ETH.
#[export] Instance CoreType_eq_dec : EqDecision CoreType.
Proof. solve_decision. Defined.

Inductive CommandQueueDeviceAddrType :=
| DEV_PREFETCH_Q_RD | DEV_PREFETCH_Q_PCIE_RD | DEV_COMPLETION_Q_WR | DEV_COMPLETION_Q_RD
| DEV_COMPLETION_Q0_LAST_EVENT | DEV_COMPLETION_Q1_LAST_EVENT | DEV_DISPATCH_MESSAGE | DEV_UNRESERVED.

Definition device_addr_types : list CommandQueueDeviceAddrType :=
  [DEV_PREFETCH_Q_RD; DEV_PREFETCH_Q_PCIE_RD; DEV_COMPLETION_Q_WR; DEV_COMPLETION_Q_RD;
   DEV_COMPLETION_Q0_LAST_EVENT; DEV_COMPLETION_Q1_LAST_EVENT; DEV_DISPATCH_MESSAGE; DEV_UNRESERVED].

Definition device_addr_index (t : CommandQueueDeviceAddrType) : nat :=
  match t with
  | DEV_PREFETCH_Q_RD => 0 | DEV_PREFETCH_Q_PCIE_RD => 1 | DEV_COMPLETION_Q_WR => 2 | DEV_COMPLETION_Q_RD => 3
  | DEV_COMPLETION_Q0_LAST_EVENT => 4 | DEV_COMPLETION_Q1_LAST_EVENT => 5 | DEV_DISPATCH_MESSAGE => 6
  | DEV_UNRESERVED => 7
  end%nat.

Inductive CommandQueueHostAddrType :=
| HOST_ISSUE_Q_RD | HOST_ISSUE_Q_WR | HOST_COMPLETION_Q_WR | HOST_COMPLETION_Q_RD | HOST_UNRESERVED.

Definition host_addr_index (t : CommandQueueHostAddrType) : Z :=
  match t with
  | HOST_ISSUE_Q_RD => 0 | HOST_ISSUE_Q_WR => 1 | HOST_COMPLETION_Q_WR => 2 | HOST_COMPLETION_Q_RD => 3
  | HOST_UNRESERVED => 4
  end.

(** What the queues read of the hardware abstraction layer and of the cluster. *)
Record Hal := mk_hal {
  host_alignment : Z;
  l1_alignment : Z;
  tensix_unreserved : Z;
  idle_eth_unreserved : Z;
  MEM_L1_SIZE : Z;
  MEM_ETH_SIZE : Z;
  is_galaxy_cluster : bool
}.

(** [((addr - 1) | (alignment - 1)) + 1] on 32 bits *)
Definition align (address alignment : Z) : Z := u32 (Z.lor (u32 (address - 1)) (u32 (alignment - 1)) + 1).

(** ** The L1 layout of a dispatch core *)
Record dispatch_constants := mk_constants {
  prefetch_q_entries : Z;
  prefetch_q_size : Z;
  max_prefetch_command_size : Z;
  cmddat_q_base : Z;
  cmddat_q_size : Z;
  scratch_db_base : Z;
  scratch_db_size : Z;
  dispatch_buffer_base : Z;
  dispatch_buffer_block_size_pages : Z;
  dispatch_buffer_pages : Z;
  prefetch_d_buffer_size : Z;
  prefetch_d_buffer_pages : Z;
  dispatch_s_buffer_size : Z;
  device_cq_addrs : list Z
}.

Definition mux_buffer_size (c : dispatch_constants) (num_hw_cqs : Z) : outcome Z :=
  udiv (prefetch_d_buffer_size c) num_hw_cqs.
Definition mux_buffer_pages (c : dispatch_constants) (num_hw_cqs : Z) : outcome Z :=
  udiv (prefetch_d_buffer_pages c) num_hw_cqs.
Definition dispatch_s_buffer_pages (c : dispatch_constants) : Z :=
  dispatch_s_buffer_size c / Z.shiftl 1 DISPATCH_S_BUFFER_LOG_PAGE_SIZE.

Definition get_device_command_queue_addr (c : dispatch_constants) (t : CommandQueueDeviceAddrType) : outcome Z :=
  let index := device_addr_index t in
  _ ← check (index <? length (device_cq_addrs c))%nat TT_ASSERT;
  at_ (device_cq_addrs c) index.

Definition get_host_command_queue_addr (hal : Hal) (t : CommandQueueHostAddrType) : Z :=
  u32 (host_addr_index t * host_alignment hal).

(** The bytes reserved at each device address. *)
Definition device_cq_addr_size (hal : Hal) (t : CommandQueueDeviceAddrType) : Z :=
  match t with
  | DEV_PREFETCH_Q_RD => 4
  | DEV_PREFETCH_Q_PCIE_RD => u32 (l1_alignment hal - 4)
  | DEV_DISPATCH_MESSAGE => 32
  | _ => l1_alignment hal
  end.

(** The loop over the device addresses: each follows the one before it. *)
Fixpoint device_cq_addrs_from (hal : Hal) (addr_ size_ : Z) (ts : list CommandQueueDeviceAddrType) : list Z :=
  match ts with
  | [] => []
  | t :: ts =>
    let next := u32 (addr_ + size_) in
    let next := match t with DEV_UNRESERVED => align next (host_alignment hal) | _ => next end in
    next :: device_cq_addrs_from hal next (device_cq_addr_size hal t) ts
  end.

(** [(size + pcie_alignment - 1) / pcie_alignment * pcie_alignment] *)
Definition pcie_round_up (size_ pcie_alignment : Z) : outcome Z :=
  q ← udiv (u32 (u32 (size_ + pcie_alignment) - 1)) pcie_alignment; Ok (u32 (q * pcie_alignment)).

Definition dispatch_constants_new (hal : Hal) (core_type : CoreType) (num_hw_cqs : Z) : outcome dispatch_constants :=
  '(entries, max_command, cmddat, scratch, block_size, prefetch_d, dispatch_s, base) ←
    (match core_type with
     | WORKER =>
       entries ← (if is_galaxy_cluster hal then udiv 1532 num_hw_cqs else Ok 1534);
       Ok (entries, 128 * 1024, 256 * 1024, 128 * 1024, 512 * 1024, 256 * 1024, 32 * 1024, tensix_unreserved hal)
     | ETH =>
       Ok (128, 32 * 1024, 64 * 1024, 19 * 1024, 128 * 1024, 128 * 1024, 32 * 1024, idle_eth_unreserved hal)
     end);
  _ ← check (2 * max_command <=? cmddat) TT_ASSERT;
  _ ← check (scratch mod 2 =? 0) TT_ASSERT;
  _ ← check (Z.land block_size (block_size - 1) =? 0) TT_ASSERT;
  let pcie_alignment := host_alignment hal in
  let addrs := base :: device_cq_addrs_from hal base (device_cq_addr_size hal DEV_PREFETCH_Q_RD) (tail device_addr_types) in
  let q_size := u32 (entries * sizeof_prefetch_q_entry) in
  unreserved ← at_ addrs (device_addr_index DEV_UNRESERVED);
  q_bytes ← pcie_round_up q_size pcie_alignment;
  let cmddat_base := u32 (unreserved + q_bytes) in
  cmddat_bytes ← pcie_round_up cmddat pcie_alignment;
  let scratch_base := u32 (cmddat_base + cmddat_bytes) in
  let l1_size := match core_type with WORKER => MEM_L1_SIZE hal | ETH => MEM_ETH_SIZE hal end in
  _ ← check (u32 (scratch_base + scratch) <? l1_size) TT_ASSERT;
  let page := Z.shiftl 1 DISPATCH_BUFFER_LOG_PAGE_SIZE in
  let dispatch_base := u32 (Z.lor (u32 (unreserved - 1)) (page - 1) + 1) in
  let block_pages := block_size / page / DISPATCH_BUFFER_SIZE_BLOCKS in
  let pages := u32 (block_pages * DISPATCH_BUFFER_SIZE_BLOCKS) in
  let dispatch_cb_end := u32 (dispatch_base + u32 (page * pages)) in
  _ ← check (dispatch_cb_end <? l1_size) TT_ASSERT;
  Ok (mk_constants entries q_size max_command cmddat_base cmddat scratch_base scratch dispatch_base block_pages pages
        prefetch_d (Z.shiftr prefetch_d PREFETCH_D_BUFFER_LOG_PAGE_SIZE) dispatch_s addrs).

(** The static members [inst], [hw_cqs] and [last_core_type]. *)
Record constants_cache := mk_cache {
  inst : option dispatch_constants;
  hw_cqs : Z;
  last_core_type : CoreType
}.

Definition no_constants : constants_cache := mk_cache None 0 WORKER.

Definition dispatch_constants_get (hal : Hal) (core_type : CoreType) (num_hw_cqs : Z)
  : ST constants_cache dispatch_constants := λ s,
  let renew := (0 <? num_hw_cqs) && (negb (num_hw_cqs =? hw_cqs s) || negb (bool_decide (core_type = last_core_type s))
                                     || match inst s with None => true | Some _ => false end) in
  let s' := if renew then mk_cache (inst s) num_hw_cqs core_type else s in
  match (if renew then c ← dispatch_constants_new hal core_type num_hw_cqs; Ok (Some c) else Ok (inst s')) with
  | Err e => (Err e, s')
  | Ok inst' =>
    let s' := mk_cache inst' (hw_cqs s') (last_core_type s') in
    ((_ ← check (0 <? hw_cqs s') TT_FATAL; of_option UB inst'), s')
  end.

(** ** Offsets of a command queue in host memory *)
Definition get_relative_cq_offset (cq_id cq_size : Z) : Z := u32 (cq_id * cq_size).
Definition get_umd_channel (channel : Z) : Z := Z.land channel 0x3.
Definition get_absolute_cq_offset (channel cq_id cq_size : Z) : Z :=
  u32 (u32 (u32 (MAX_HUGEPAGE_SIZE * get_umd_channel channel) + u32 (Z.shiftr channel 2 * MAX_DEV_CHANNEL_SIZE))
       + get_relative_cq_offset cq_id cq_size).

(** The value of a pointer read from host memory, in bytes or in words. *)
Definition cq_ptr (addr_16B : bool) (recv : Z) : Z := if addr_16B then recv else u32 (Z.shiftl recv 4).

(** The addresses the four read functions pass to [read_sysmem]; only two add the channel offset. *)
Definition cq_ptr_address (hal : Hal) (t : CommandQueueHostAddrType) (channel cq_id cq_size : Z) : Z :=
  let channel_offset := u32 (Z.shiftr channel 2 * MAX_DEV_CHANNEL_SIZE) in
  let ptr := get_host_command_queue_addr hal t in
  match t with
  | HOST_ISSUE_Q_RD | HOST_COMPLETION_Q_WR => u32 (u32 (ptr + channel_offset) + get_relative_cq_offset cq_id cq_size)
  | _ => u32 (ptr + get_relative_cq_offset cq_id cq_size)
  end.

(** ** Copying to the device *)
Definition mem : Type := Z → Z.
Definition mem_write (m : mem) (p : Z) (bytes : list Z) : mem := λ a,
  if (p <=? a) && (a <? p + Z.of_nat (length bytes)) then nth (Z.to_nat (a - p)) bytes 0 else m a.
Definition mem_read (m : mem) (p n : Z) : list Z := m <$> seqZ p n.

(** [_mm256_stream_si256] and its narrower kin: load [w] bytes, store them at an
    address aligned to the width (an unaligned streaming store faults). *)
Definition stream (w : Z) (src : list Z) (s : mem * Z * Z) : outcome (mem * Z * Z) :=
  let '(m, dst8, src8) := s in
  _ ← check (dst8 mod w =? 0) UB;
  _ ← check (src8 + w <=? Z.of_nat (length src)) UB;
  Ok (mem_write m dst8 (take (Z.to_nat w) (drop (Z.to_nat src8) src)), dst8 + w, src8 + w).

Fixpoint stream_n (k : nat) (w : Z) (src : list Z) (s : mem * Z * Z) : outcome (mem * Z * Z) :=
  match k with O => Ok s | S k => s ← stream w src s; stream_n k w src s end.

Definition inner_loop : nat := 8.
Definition inner_blk_size : Z := 256.

Definition memcpy_to_device (dst : Z) (src : list Z) (n : Z) (m : mem) : outcome mem :=
  _ ← check (dst mod MEMCPY_ALIGNMENT =? 0) TT_ASSERT;
  _ ← check (n mod 4 =? 0) TT_ASSERT;
  let num_lines := n / inner_blk_size in
  s ← for_each (λ _, stream_n inner_loop 32 src) (seqZ 0 num_lines) (m, dst, 0);
  let n := n - num_lines * inner_blk_size in
  '(m, _, _) ←
    (if 0 <? n then
       let num_lines := n / 32 in
       s ← stream_n (Z.to_nat num_lines) 32 src s;
       let n := n - num_lines * 32 in
       let num_lines := n / 16 in
       s ← stream_n (Z.to_nat num_lines) 16 src s;
       let n := n - n / 16 * 16 in
       if 0 <? n then stream_n (Z.to_nat (n / 4)) 4 src s else Ok s
     else Ok s);
  Ok m.

(** ** The regions of one command queue *)
Record SystemMemoryCQInterface := mk_interface {
  cq_start : Z;
  command_completion_region_size : Z;
  command_issue_region_size : Z;
  cq_id_ : Z;
  issue_fifo_size : Z;
  issue_fifo_limit : Z;
  offset : Z;
  issue_fifo_wr_ptr : Z;
  issue_fifo_wr_toggle : bool;
  completion_fifo_size : Z;
  completion_fifo_limit : Z;
  completion_fifo_rd_ptr : Z;
  completion_fifo_rd_toggle : bool
}.

(** [(this->cq_start + this->offset) >> 4] *)
Definition issue_fifo_start (i : SystemMemoryCQInterface) : Z := Z.shiftr (u32 (cq_start i + offset i)) 4.

Definition with_issue_wr (ptr : Z) (toggle : bool) (i : SystemMemoryCQInterface) : SystemMemoryCQInterface :=
  mk_interface (cq_start i) (command_completion_region_size i) (command_issue_region_size i) (cq_id_ i)
    (issue_fifo_size i) (issue_fifo_limit i) (offset i) ptr toggle
    (completion_fifo_size i) (completion_fifo_limit i) (completion_fifo_rd_ptr i) (completion_fifo_rd_toggle i).
Definition with_completion_rd (ptr : Z) (toggle : bool) (i : SystemMemoryCQInterface) : SystemMemoryCQInterface :=
  mk_interface (cq_start i) (command_completion_region_size i) (command_issue_region_size i) (cq_id_ i)
    (issue_fifo_size i) (issue_fifo_limit i) (offset i) (issue_fifo_wr_ptr i) (issue_fifo_wr_toggle i)
    (completion_fifo_size i) (completion_fifo_limit i) ptr toggle.
Definition with_issue_size (size_ limit : Z) (i : SystemMemoryCQInterface) : SystemMemoryCQInterface :=
  mk_interface (cq_start i) (command_completion_region_size i) (command_issue_region_size i) (cq_id_ i)
    size_ limit (offset i) (issue_fifo_wr_ptr i) (issue_fifo_wr_toggle i)
    (completion_fifo_size i) (completion_fifo_limit i) (completion_fifo_rd_ptr i) (completion_fifo_rd_toggle i).

Definition SystemMemoryCQInterface_new (hal : Hal) (channel cq_id cq_size cq_start : Z)
  : outcome SystemMemoryCQInterface :=
  let completion_size := u32 (u32 (cq_size - cq_start) / TRANSFER_PAGE_SIZE / 4 * TRANSFER_PAGE_SIZE) in
  let issue_size := u32 (u32 (cq_size - cq_start) - completion_size) in
  let offset := get_absolute_cq_offset channel cq_id cq_size in
  let issue_limit := Z.shiftr (u32 (u32 (cq_start + issue_size) + offset)) 4 in
  let completion_fifo_size := Z.shiftr completion_size 4 in
  aligned_completion ← umod completion_size (host_alignment hal);
  aligned_issue ← umod issue_size (host_alignment hal);
  _ ← check ((aligned_completion =? 0) && (aligned_issue =? 0)) TT_ASSERT;
  _ ← check (negb (issue_limit =? 0)) TT_ASSERT;
  Ok (mk_interface cq_start completion_size issue_size cq_id (Z.shiftr issue_size 4) issue_limit offset
        (Z.shiftr (u32 (cq_start + offset)) 4) false
        completion_fifo_size (u32 (issue_limit + completion_fifo_size)) issue_limit false).

(** ** The manager *)
Inductive effect :=
| write_sysmem (address value : Z)      (* host memory, at the assigned channel *)
| fast_write (address value : Z)        (* the completion read pointer of the dispatcher *)
| prefetch_q_write (address value : Z). (* an entry of the prefetch queue *)

Record SystemMemoryManager := mk_manager {
  hal_ : Hal;
  constants : dispatch_constants;
  num_hw_cqs : Z;
  completion_byte_addrs : list Z;
  cq_interfaces : list SystemMemoryCQInterface;
  cq_size : Z;
  channel_offset : Z;
  cq_to_event : list Z;
  cq_to_last_completed_event : list Z;
  prefetch_q_dev_ptrs : list Z;
  prefetch_q_dev_fences : list Z;
  bypass_enable : bool;
  bypass_buffer : list Z;
  bypass_buffer_write_offset : Z;
  config_buffer_mgr : WorkerConfigBufferMgr
}.

Definition with_interfaces (l : list SystemMemoryCQInterface) (m : SystemMemoryManager) : SystemMemoryManager :=
  mk_manager (hal_ m) (constants m) (num_hw_cqs m) (completion_byte_addrs m) l (cq_size m) (channel_offset m)
    (cq_to_event m) (cq_to_last_completed_event m) (prefetch_q_dev_ptrs m) (prefetch_q_dev_fences m)
    (bypass_enable m) (bypass_buffer m) (bypass_buffer_write_offset m) (config_buffer_mgr m).
Definition with_events (events completed : list Z) (m : SystemMemoryManager) : SystemMemoryManager :=
  mk_manager (hal_ m) (constants m) (num_hw_cqs m) (completion_byte_addrs m) (cq_interfaces m) (cq_size m)
    (channel_offset m) events completed (prefetch_q_dev_ptrs m) (prefetch_q_dev_fences m)
    (bypass_enable m) (bypass_buffer m) (bypass_buffer_write_offset m) (config_buffer_mgr m).
Definition with_prefetch_q (ptrs fences : list Z) (m : SystemMemoryManager) : SystemMemoryManager :=
  mk_manager (hal_ m) (constants m) (num_hw_cqs m) (completion_byte_addrs m) (cq_interfaces m) (cq_size m)
    (channel_offset m) (cq_to_event m) (cq_to_last_completed_event m) ptrs fences
    (bypass_enable m) (bypass_buffer m) (bypass_buffer_write_offset m) (config_buffer_mgr m).
Definition with_bypass (enable : bool) (buffer : list Z) (write_offset : Z) (m : SystemMemoryManager)
  : SystemMemoryManager :=
  mk_manager (hal_ m) (constants m) (num_hw_cqs m) (completion_byte_addrs m) (cq_interfaces m) (cq_size m)
    (channel_offset m) (cq_to_event m) (cq_to_last_completed_event m) (prefetch_q_dev_ptrs m)
    (prefetch_q_dev_fences m) enable buffer write_offset (config_buffer_mgr m).

(** [this->cq_interfaces[cq_id]], read and written *)
Definition interface_at (m : SystemMemoryManager) (cq_id : nat) : outcome SystemMemoryCQInterface :=
  at_ (cq_interfaces m) cq_id.
Definition set_interface (cq_id : nat) (i : SystemMemoryCQInterface) (m : SystemMemoryManager) : SystemMemoryManager :=
  with_interfaces (<[cq_id := i]> (cq_interfaces m)) m.

(** *** Event numbers: [int] counters, each behind its own lock *)
Definition set_event (cq_id : nat) (v : Z) (m : SystemMemoryManager) : SystemMemoryManager :=
  with_events (<[cq_id := v]> (cq_to_event m)) (cq_to_last_completed_event m) m.

(** [++] of the largest [int] is undefined. *)
Definition get_next_event (cq_id : nat) (m : SystemMemoryManager) : outcome (Z * SystemMemoryManager) :=
  e ← at_ (cq_to_event m) cq_id;
  _ ← check (e <? 2 ^ 31 - 1) UB;
  Ok (u32 (e + 1), set_event cq_id (e + 1) m).

Definition reset_event_id (cq_id : nat) (m : SystemMemoryManager) : outcome SystemMemoryManager :=
  _ ← at_ (cq_to_event m) cq_id; Ok (set_event cq_id 0 m).

Definition increment_event_id (cq_id : nat) (val : Z) (m : SystemMemoryManager) : outcome SystemMemoryManager :=
  e ← at_ (cq_to_event m) cq_id; Ok (set_event cq_id (to_i32 (u32 (u32 e + val))) m).

Definition set_last_completed_event (cq_id : nat) (event_id : Z) (m : SystemMemoryManager)
  : outcome SystemMemoryManager :=
  last ← at_ (cq_to_last_completed_event m) cq_id;
  _ ← check (u32 last <=? event_id) TT_ASSERT;
  Ok (with_events (cq_to_event m) (<[cq_id := to_i32 event_id]> (cq_to_last_completed_event m)) m).

Definition get_last_completed_event (cq_id : nat) (m : SystemMemoryManager) : outcome Z :=
  last ← at_ (cq_to_last_completed_event m) cq_id; Ok (u32 last).

(** *** Pointers *)
Definition reset (cq_id : nat) (m : SystemMemoryManager) : outcome SystemMemoryManager :=
  i ← interface_at m cq_id;
  Ok (set_interface cq_id (with_completion_rd (issue_fifo_limit i) false (with_issue_wr (issue_fifo_start i) false i)) m).

Definition set_issue_queue_size (cq_id : nat) (issue_queue_size : Z) (m : SystemMemoryManager)
  : outcome SystemMemoryManager :=
  i ← interface_at m cq_id;
  Ok (set_interface cq_id
        (with_issue_size (Z.shiftr issue_queue_size 4)
           (Z.shiftr (u32 (u32 (cq_start i + offset i) + issue_queue_size)) 4) i) m).

Definition set_bypass_mode (enable clear : bool) (m : SystemMemoryManager) : SystemMemoryManager :=
  if clear then with_bypass enable [] 0 m else with_bypass enable (bypass_buffer m) (bypass_buffer_write_offset m) m.

(** [std::move] leaves the buffer empty. *)
Definition get_bypass_data (m : SystemMemoryManager) : list Z * SystemMemoryManager :=
  (bypass_buffer m, with_bypass (bypass_enable m) [] (bypass_buffer_write_offset m) m).

Definition get_issue_queue_size (cq_id : nat) (m : SystemMemoryManager) : outcome Z :=
  i ← interface_at m cq_id; Ok (u32 (Z.shiftl (issue_fifo_size i) 4)).
Definition get_issue_queue_limit (cq_id : nat) (m : SystemMemoryManager) : outcome Z :=
  i ← interface_at m cq_id; Ok (u32 (Z.shiftl (issue_fifo_limit i) 4)).
Definition get_completion_queue_size (cq_id : nat) (m : SystemMemoryManager) : outcome Z :=
  i ← interface_at m cq_id; Ok (u32 (Z.shiftl (completion_fifo_size i) 4)).
Definition get_completion_queue_limit (cq_id : nat) (m : SystemMemoryManager) : outcome Z :=
  i ← interface_at m cq_id; Ok (u32 (Z.shiftl (completion_fifo_limit i) 4)).
Definition get_issue_queue_write_ptr (cq_id : nat) (m : SystemMemoryManager) : outcome Z :=
  if bypass_enable m then Ok (bypass_buffer_write_offset m)
  else i ← interface_at m cq_id; Ok (u32 (Z.shiftl (issue_fifo_wr_ptr i) 4)).
Definition get_completion_queue_read_ptr (cq_id : nat) (m : SystemMemoryManager) : outcome Z :=
  i ← interface_at m cq_id; Ok (u32 (Z.shiftl (completion_fifo_rd_ptr i) 4)).
Definition get_completion_queue_read_toggle (cq_id : nat) (m : SystemMemoryManager) : outcome Z :=
  i ← interface_at m cq_id; Ok (Z.b2z (completion_fifo_rd_toggle i)).

Definition wrap_issue_queue_wr_ptr (cq_id : nat) (m : SystemMemoryManager) : outcome SystemMemoryManager :=
  if bypass_enable m then Ok m
  else
    i ← interface_at m cq_id;
    Ok (set_interface cq_id (with_issue_wr (issue_fifo_start i) (negb (issue_fifo_wr_toggle i)) i) m).

Definition wrap_completion_queue_rd_ptr (cq_id : nat) (m : SystemMemoryManager) : outcome SystemMemoryManager :=
  i ← interface_at m cq_id;
  Ok (set_interface cq_id (with_completion_rd (issue_fifo_limit i) (negb (completion_fifo_rd_toggle i)) i) m).

(** *** The issue region *)

(** The result is an offset in the bypass buffer or from [cq_sysmem_start]; the
    bypass buffer, a vector of words, is kept as its bytes. *)
Definition issue_queue_reserve (cmd_size_B : Z) (cq_id : nat) (m : SystemMemoryManager)
  : outcome (Z * SystemMemoryManager) :=
  if bypass_enable m then
    let curr_size := u32 (Z.of_nat (length (bypass_buffer m)) / 4) in
    let new_size := u32 (curr_size + cmd_size_B / 4) in
    Ok (bypass_buffer_write_offset m,
        with_bypass true (resize (Z.to_nat (4 * new_size)) 0 (bypass_buffer m)) (bypass_buffer_write_offset m) m)
  else
    issue_q_write_ptr ← get_issue_queue_write_ptr cq_id m;
    command_issue_limit ← get_issue_queue_limit cq_id m;
    '(issue_q_write_ptr, m) ←
      (if command_issue_limit <? u32 (issue_q_write_ptr + align cmd_size_B (host_alignment (hal_ m))) then
         m ← wrap_issue_queue_wr_ptr cq_id m;
         ptr ← get_issue_queue_write_ptr cq_id m;
         Ok (ptr, m)
       else Ok (issue_q_write_ptr, m));
    Ok (u32 (issue_q_write_ptr - channel_offset m), m).

(** [size_in_bytes] bytes of [data]; [hugepage] is addressed from [cq_sysmem_start]. *)
Definition cq_write (data : list Z) (size_in_bytes write_ptr : Z) (s : SystemMemoryManager * mem)
  : outcome (SystemMemoryManager * mem) :=
  let '(m, hugepage) := s in
  let user_scratchspace := u32 (write_ptr - channel_offset m) in
  if bypass_enable m then
    _ ← check (size_in_bytes <=? Z.of_nat (length data)) UB;
    _ ← check (write_ptr + size_in_bytes <=? Z.of_nat (length (bypass_buffer m))) UB;
    Ok (with_bypass true (list_inserts (Z.to_nat write_ptr) (take (Z.to_nat size_in_bytes) data) (bypass_buffer m))
          (bypass_buffer_write_offset m) m, hugepage)
  else
    hugepage ← memcpy_to_device user_scratchspace data size_in_bytes hugepage;
    Ok (m, hugepage).

Definition issue_queue_push_back (push_size_B : Z) (cq_id : nat) (m : SystemMemoryManager)
  : outcome (SystemMemoryManager * list effect) :=
  if bypass_enable m then
    Ok (with_bypass true (bypass_buffer m) (u32 (bypass_buffer_write_offset m + push_size_B)) m, [])
  else
    let push_size_16B := Z.shiftr (align push_size_B (host_alignment (hal_ m))) 4 in
    i ← interface_at m cq_id;
    let issue_q_wr_ptr := get_host_command_queue_addr (hal_ m) HOST_ISSUE_Q_WR in
    let i :=
      if issue_fifo_limit i <=? u32 (issue_fifo_wr_ptr i + push_size_16B)
      then with_issue_wr (issue_fifo_start i) (negb (issue_fifo_wr_toggle i)) i
      else with_issue_wr (u32 (issue_fifo_wr_ptr i + push_size_16B)) (issue_fifo_wr_toggle i) i in
    Ok (set_interface cq_id i m,
        [write_sysmem (u32 (issue_q_wr_ptr + get_relative_cq_offset (Z.of_nat cq_id) (cq_size m))) (issue_fifo_wr_ptr i)]).

(** *** The completion region *)

(** Each poll is the value read from host memory and the exit condition then; the
    result is [None] while the loop goes on. *)
Fixpoint completion_queue_wait_loop (polls : list (Z * bool)) (i : SystemMemoryCQInterface) : option Z :=
  match polls with
  | [] => None
  | (write_ptr_and_toggle, exit_condition) :: polls =>
    let write_ptr := Z.land write_ptr_and_toggle 0x7fffffff in
    let write_toggle := Z.shiftr write_ptr_and_toggle 31 in
    if (completion_fifo_rd_ptr i =? write_ptr) && (Z.b2z (completion_fifo_rd_toggle i) =? write_toggle)
       && negb exit_condition
    then completion_queue_wait_loop polls i
    else Some write_ptr_and_toggle
  end.

Definition completion_queue_wait_front (polls : list (Z * bool)) (cq_id : nat) (m : SystemMemoryManager)
  : outcome (option Z) :=
  i ← interface_at m cq_id; Ok (completion_queue_wait_loop polls i).

(** [ptr | (toggle << 31)] *)
Definition ptr_and_toggle (ptr : Z) (toggle : bool) : Z := Z.lor ptr (u32 (Z.shiftl (Z.b2z toggle) 31)).

Definition send_completion_queue_read_ptr (cq_id : nat) (m : SystemMemoryManager) : outcome (list effect) :=
  i ← interface_at m cq_id;
  byte_addr ← at_ (completion_byte_addrs m) cq_id;
  let read_ptr_and_toggle := ptr_and_toggle (completion_fifo_rd_ptr i) (completion_fifo_rd_toggle i) in
  let completion_q_rd_ptr := get_host_command_queue_addr (hal_ m) HOST_COMPLETION_Q_RD in
  Ok [fast_write byte_addr read_ptr_and_toggle;
      write_sysmem (u32 (completion_q_rd_ptr + get_relative_cq_offset (Z.of_nat cq_id) (cq_size m))) read_ptr_and_toggle].

Definition completion_queue_pop_front (num_pages_read : Z) (cq_id : nat) (m : SystemMemoryManager)
  : outcome (SystemMemoryManager * list effect) :=
  let data_read_B := u32 (num_pages_read * TRANSFER_PAGE_SIZE) in
  let data_read_16B := Z.shiftr data_read_B 4 in
  i ← interface_at m cq_id;
  let i := with_completion_rd (u32 (completion_fifo_rd_ptr i + data_read_16B)) (completion_fifo_rd_toggle i) i in
  let i :=
    if completion_fifo_limit i <=? completion_fifo_rd_ptr i
    then with_completion_rd (issue_fifo_limit i) (negb (completion_fifo_rd_toggle i)) i else i in
  let m := set_interface cq_id i m in
  effects ← send_completion_queue_read_ptr cq_id m;
  Ok (m, effects).

(** *** The prefetch queue *)

(** [while (ptr == fence)]: the fence after the polls used, the polls left, and whether
    the loop ended. *)
Fixpoint wait_for_fetch_q_space (polls : list Z) (ptr fence : Z) : Z * list Z * bool :=
  if ptr =? fence then
    match polls with [] => (fence, [], false) | p :: polls => wait_for_fetch_q_space polls ptr p end
  else (fence, polls, true).

(** The boolean is [false] while the call still waits. *)
Definition fetch_queue_reserve_back (polls : list Z) (cq_id : nat) (m : SystemMemoryManager)
  : outcome (SystemMemoryManager * bool) :=
  if bypass_enable m then Ok (m, true)
  else
    ptr ← at_ (prefetch_q_dev_ptrs m) cq_id;
    fence ← at_ (prefetch_q_dev_fences m) cq_id;
    let '(fence, polls, done1) := wait_for_fetch_q_space polls ptr fence in
    let set ptr fence := with_prefetch_q (<[cq_id := ptr]> (prefetch_q_dev_ptrs m))
                           (<[cq_id := fence]> (prefetch_q_dev_fences m)) m in
    if negb done1 then Ok (set ptr fence, false)
    else
      prefetch_q_base ← get_device_command_queue_addr (constants m) DEV_UNRESERVED;
      let prefetch_q_limit := u32 (prefetch_q_base + u32 (prefetch_q_entries (constants m) * sizeof_prefetch_q_entry)) in
      if ptr =? prefetch_q_limit then
        let '(fence, _, done2) := wait_for_fetch_q_space polls prefetch_q_base fence in
        Ok (set prefetch_q_base fence, done2)
      else Ok (set ptr fence, true).

Definition fetch_queue_write (command_size_B : Z) (cq_id : nat) (stall_prefetcher : bool) (m : SystemMemoryManager)
  : outcome (SystemMemoryManager * list effect) :=
  _ ← check (command_size_B <=? max_prefetch_command_size (constants m)) TT_ASSERT;
  _ ← check (Z.shiftr command_size_B PREFETCH_Q_LOG_MINSIZE <? 0xFFFF) TT_ASSERT;
  if bypass_enable m then Ok (m, [])
  else
    let command_size_16B := u16 (Z.shiftr command_size_B PREFETCH_Q_LOG_MINSIZE) in
    let command_size_16B := if stall_prefetcher then u16 (Z.lor command_size_16B (Z.shiftl 1 15)) else command_size_16B in
    ptr ← at_ (prefetch_q_dev_ptrs m) cq_id;
    Ok (with_prefetch_q (<[cq_id := u32 (ptr + sizeof_prefetch_q_entry)]> (prefetch_q_dev_ptrs m))
          (prefetch_q_dev_fences m) m,
        [prefetch_q_write ptr command_size_16B]).

(** *** The constructor *)
Record Cluster := mk_cluster {
  channel : Z;                          (* get_assigned_channel_for_device *)
  host_channel_size : Z;                (* get_host_channel_size *)
  cq_size_override : option Z;          (* TT_METAL_CQ_SIZE_OVERRIDE *)
  completion_tlb : list (Z * Z);        (* get_tlb_data of each completion queue writer core *)
  kernel_config : list (Z * Z)          (* address and size per programmable core type *)
}.

(** One iteration of the loop over the queues. *)
Definition add_queue (hal : Hal) (cluster : Cluster) (core_type : CoreType) (num_hw_cqs cq_size cq_start : Z)
  (completion_q_rd_ptr prefetch_q_base : Z) (cq_id : nat) (m : SystemMemoryManager)
  : ST constants_cache SystemMemoryManager :=
  tlb ← lift_st (at_ (completion_tlb cluster) cq_id);
  rd_offset ← lift_st (umod completion_q_rd_ptr tlb.2);
  i ← lift_st (SystemMemoryCQInterface_new hal (channel cluster) (Z.of_nat cq_id) cq_size cq_start);
  c ← dispatch_constants_get hal core_type num_hw_cqs;
  let m := mk_manager hal c num_hw_cqs (completion_byte_addrs m ++ [u32 (tlb.1 + rd_offset)])
             (cq_interfaces m ++ [i]) cq_size (channel_offset m)
             (cq_to_event m) (cq_to_last_completed_event m) (prefetch_q_dev_ptrs m) (prefetch_q_dev_fences m)
             (bypass_enable m) (bypass_buffer m) (bypass_buffer_write_offset m) (config_buffer_mgr m) in
  issue_queue_size ← lift_st (get_issue_queue_size cq_id m);
  _ ← check_st (u32 (max_prefetch_command_size c * u32 (prefetch_q_entries c + 2)) <=? issue_queue_size) TT_FATAL;
  mret (with_events (cq_to_event m ++ [0]) (cq_to_last_completed_event m ++ [0])
          (with_prefetch_q (prefetch_q_dev_ptrs m ++ [prefetch_q_base])
             (prefetch_q_dev_fences m ++ [u32 (prefetch_q_base + u32 (prefetch_q_entries c * sizeof_prefetch_q_entry))]) m)).

Fixpoint add_queues (hal : Hal) (cluster : Cluster) (core_type : CoreType) (num_hw_cqs cq_size cq_start : Z)
  (completion_q_rd_ptr prefetch_q_base : Z) (cq_ids : list nat) (m : SystemMemoryManager)
  : ST constants_cache SystemMemoryManager :=
  match cq_ids with
  | [] => mret m
  | cq_id :: cq_ids =>
    m ← add_queue hal cluster core_type num_hw_cqs cq_size cq_start completion_q_rd_ptr prefetch_q_base cq_id m;
    add_queues hal cluster core_type num_hw_cqs cq_size cq_start completion_q_rd_ptr prefetch_q_base cq_ids m
  end.

Definition SystemMemoryManager_new (hal : Hal) (cluster : Cluster) (core_type : CoreType) (num_hw_cqs : Z)
  : ST constants_cache SystemMemoryManager :=
  cq_size ← (match cq_size_override cluster with
             | Some size_ => mret (u32 size_)
             | None =>
               size_ ← lift_st (udiv (host_channel_size cluster) num_hw_cqs);
               mret (if is_galaxy_cluster hal then size_ / DEVICES_PER_UMD_CHANNEL else size_)
             end);
  let channel_offset := u32 (u32 (MAX_HUGEPAGE_SIZE * get_umd_channel (channel cluster))
                             + u32 (Z.shiftr (channel cluster) 2 * MAX_DEV_CHANNEL_SIZE)) in
  c ← dispatch_constants_get hal core_type 0;
  completion_q_rd_ptr ← lift_st (get_device_command_queue_addr c DEV_COMPLETION_Q_RD);
  prefetch_q_base ← lift_st (get_device_command_queue_addr c DEV_UNRESERVED);
  let cq_start := get_host_command_queue_addr hal HOST_UNRESERVED in
  let m := mk_manager hal c num_hw_cqs [] [] cq_size channel_offset [] [] [] [] false [] 0 WorkerConfigBufferMgr_new in
  m ← add_queues hal cluster core_type num_hw_cqs cq_size cq_start completion_q_rd_ptr prefetch_q_base
        (seq 0 (Z.to_nat num_hw_cqs)) m;
  mret (mk_manager hal (constants m) num_hw_cqs (completion_byte_addrs m) (cq_interfaces m) cq_size channel_offset
          (cq_to_event m) (cq_to_last_completed_event m) (prefetch_q_dev_ptrs m) (prefetch_q_dev_fences m)
          false [] 0
          (foldl (λ b '(base, size_), init_add_core base size_ b) (config_buffer_mgr m) (kernel_config cluster))).

(** ** Launch message ring buffers *)
Definition launch_msg_buffer_num_entries : Z := 4.

Record LaunchMessageRingBufferState := mk_launch {
  multicast_cores_launch_message_wptr : Z;
  unicast_cores_launch_message_wptr : Z
}.

Definition launch_wptr (v : Z) : Z := Z.land (u32 v) (launch_msg_buffer_num_entries - 1).
Definition inc_mcast_wptr (inc_val : Z) (s : LaunchMessageRingBufferState) : LaunchMessageRingBufferState :=
  mk_launch (launch_wptr (multicast_cores_launch_message_wptr s + inc_val)) (unicast_cores_launch_message_wptr s).
Definition inc_unicast_wptr (inc_val : Z) (s : LaunchMessageRingBufferState) : LaunchMessageRingBufferState :=
  mk_launch (multicast_cores_launch_message_wptr s) (launch_wptr (unicast_cores_launch_message_wptr s + inc_val)).
Definition set_mcast_wptr (val : Z) (s : LaunchMessageRingBufferState) : LaunchMessageRingBufferState :=
  mk_launch (launch_wptr val) (unicast_cores_launch_message_wptr s).
Definition set_unicast_wptr (val : Z) (s : LaunchMessageRingBufferState) : LaunchMessageRingBufferState :=
  mk_launch (multicast_cores_launch_message_wptr s) (launch_wptr val).
Definition reset_launch_wptrs : LaunchMessageRingBufferState := mk_launch 0 0.
