(* ===== verification/CommandQueueProps.v ===== *)
(** * The host side of a command queue: memory, alignment and construction *)
From S2P Require Import Prelude CommandQueue.

(** ** Memory *)
Lemma mem_write_inside m p bytes a :
  p <= a < p + Z.of_nat (length bytes) → mem_write m p bytes a = nth (Z.to_nat (a - p)) bytes 0.
Proof.
  intros Ha. unfold mem_write. by rewrite (proj2 (Z.leb_le _ _)), (proj2 (Z.ltb_lt _ _)) by lia.
Qed.

Lemma mem_write_outside m p bytes a :
  a < p ∨ p + Z.of_nat (length bytes) <= a → mem_write m p bytes a = m a.
Proof.
  intros Ha. unfold mem_write. destruct (Z.leb_spec p a); [|done]. simpl. by rewrite (proj2 (Z.ltb_ge _ _)) by lia.
Qed.

Lemma length_mem_read m p n : length (mem_read m p n) = Z.to_nat n.
Proof. unfold mem_read. by rewrite length_fmap, length_seqZ. Qed.

Lemma mem_read_lookup m p n i :
  (i < Z.to_nat n)%nat → mem_read m p n !! i = Some (m (p + Z.of_nat i)).
Proof. intros Hi. unfold mem_read. by rewrite list_lookup_fmap, lookup_seqZ_lt by lia. Qed.

Lemma mem_read_ext m m' p n : (∀ a, p <= a < p + n → m a = m' a) → mem_read m p n = mem_read m' p n.
Proof.
  intros Hm. unfold mem_read. apply list_fmap_ext. intros i a Ha. apply list_elem_of_lookup_2, elem_of_seqZ in Ha.
  by apply Hm.
Qed.

Lemma mem_read_write_same m p bytes : mem_read (mem_write m p bytes) p (Z.of_nat (length bytes)) = bytes.
Proof.
  apply list_eq. intros i. destruct (decide (i < length bytes)%nat) as [Hi|Hi].
  - rewrite mem_read_lookup, mem_write_inside by lia.
    replace (Z.to_nat (p + Z.of_nat i - p)) with i by lia. destruct (lookup_lt_is_Some_2 bytes i Hi) as [x Hx].
    rewrite Hx. f_equal. by apply nth_lookup_Some.
  - rewrite !(proj2 (lookup_ge_None _ _)); [done|lia|rewrite length_mem_read; lia].
Qed.

Lemma mem_read_write_disjoint m p bytes q n :
  q + n <= p ∨ p + Z.of_nat (length bytes) <= q → mem_read (mem_write m p bytes) q n = mem_read m q n.
Proof. intros Hd. apply mem_read_ext. intros a Ha. apply mem_write_outside. lia. Qed.

Lemma mem_read_app m p n k : 0 <= n → 0 <= k → mem_read m p (n + k) = mem_read m p n ++ mem_read m (p + n) k.
Proof. intros Hn Hk. unfold mem_read. by rewrite seqZ_app, fmap_app by lia. Qed.

Lemma mem_write_app m p b1 b2 a :
  mem_write (mem_write m p b1) (p + Z.of_nat (length b1)) b2 a = mem_write m p (b1 ++ b2) a.
Proof.
  unfold mem_write. rewrite length_app, Nat2Z.inj_add.
  destruct (Z.leb_spec (p + Z.of_nat (length b1)) a) as [H1|H1]; simpl.
  - rewrite (proj2 (Z.leb_le p a)) by lia. simpl. rewrite Z.add_assoc.
    destruct (Z.ltb_spec a (p + Z.of_nat (length b1) + Z.of_nat (length b2))).
    + rewrite app_nth2 by lia. f_equal. lia.
    + by rewrite (proj2 (Z.ltb_ge a _)) by lia.
  - destruct (Z.leb_spec p a); simpl; [|done]. rewrite (proj2 (Z.ltb_lt a (p + _))) by lia.
    rewrite (proj2 (Z.ltb_lt a _)) by lia. by rewrite app_nth1 by lia.
Qed.

(** ** Copying to the device *)
(** Two memories that agree everywhere. *)
Definition mem_eq (m m' : mem) : Prop := ∀ a, m a = m' a.

#[export] Instance mem_eq_equivalence : Equivalence mem_eq.
Proof. split; [by intros m a|by intros m m' H a|]. intros m1 m2 m3 H H' a. by rewrite (H a). Qed.

#[export] Instance mem_write_proper : Proper (mem_eq ==> eq ==> eq ==> mem_eq) mem_write.
Proof. intros m m' H p _ <- b _ <- a. unfold mem_write. by destruct (_ && _). Qed.

#[export] Instance mem_read_proper : Proper (mem_eq ==> eq ==> eq ==> eq) mem_read.
Proof. intros m m' H p _ <- n _ <-. apply mem_read_ext. intros a _. apply H. Qed.

Definition bytes_from (src : list Z) (p n : Z) : list Z := take (Z.to_nat n) (drop (Z.to_nat p) src).

Lemma length_bytes_from src p n :
  0 <= p → 0 <= n → p + n <= Z.of_nat (length src) → Z.of_nat (length (bytes_from src p n)) = n.
Proof. intros. unfold bytes_from. rewrite length_take, length_drop. lia. Qed.

Lemma bytes_from_app src p n k :
  0 <= p → 0 <= n → 0 <= k → bytes_from src p n ++ bytes_from src (p + n) k = bytes_from src p (n + k).
Proof.
  intros. unfold bytes_from. rewrite (Z2Nat.inj_add n k), (Z2Nat.inj_add p n) by lia.
  by rewrite <- drop_drop, take_take_drop.
Qed.

(** The state of the copy after [p] bytes. *)
Definition copied (m : mem) (dst : Z) (src : list Z) (p : Z) (s : mem * Z * Z) : Prop :=
  mem_eq s.1.1 (mem_write m dst (bytes_from src 0 p)) ∧ s.1.2 = dst + p ∧ s.2 = p.

Lemma stream_n_copied k w src m dst p s :
  0 < w → dst mod w = 0 ∨ k = 0%nat → p mod w = 0 → 0 <= p → p + Z.of_nat k * w <= Z.of_nat (length src) →
  copied m dst src p s → ∃ s', stream_n k w src s = Ok s' ∧ copied m dst src (p + Z.of_nat k * w) s'.
Proof.
  intros Hw Hdst. revert p s; induction k as [|k IH]; intros p s Hpw Hp Hlen Hs.
  - exists s. split; [done|]. by replace (p + Z.of_nat 0 * w) with p by lia.
  - destruct Hdst as [Hdst|]; [|done].
    destruct s as [[m1 d] q]. destruct Hs as (Hm & Hd & Hq). simpl in Hm, Hd, Hq. subst d q.
    rewrite Nat2Z.inj_succ, Z.mul_succ_l in Hlen. cbn [stream_n stream].
    rewrite Z.add_mod, Hdst, Hpw, Z.add_0_l, Z.mod_0_l by lia. cbn [Z.eqb check mbind outcome_bind].
    rewrite (proj2 (Z.leb_le _ _)) by lia. cbn [check mbind outcome_bind].
    destruct (IH (or_introl Hdst) (p + w) (mem_write m1 (dst + p) (bytes_from src p w), dst + p + w, p + w)) as (s' & Hs' & Hc).
    + by rewrite Z.add_mod, Hpw, Z.mod_same, Z.add_0_l, Z.mod_0_l by lia.
    + lia.
    + lia.
    + split; [|split; simpl; lia]. simpl. rewrite Hm. intros a.
      pose proof (mem_write_app m dst (bytes_from src 0 p) (bytes_from src p w) a) as Happ.
      rewrite length_bytes_from in Happ by lia. pose proof (bytes_from_app src 0 p w) as Hb.
      rewrite Z.add_0_l in Hb. by rewrite Hb in Happ by lia.
    + exists s'. split; [exact Hs'|]. by replace (p + Z.of_nat (S k) * w) with (p + w + Z.of_nat k * w) by lia.
Qed.

Lemma blocks_copied l src m dst p s :
  dst mod 32 = 0 ∨ l = [] → p mod 32 = 0 → 0 <= p → p + Z.of_nat (length l) * 256 <= Z.of_nat (length src) →
  copied m dst src p s →
  ∃ s', for_each (λ _ : Z, stream_n inner_loop 32 src) l s = Ok s'
    ∧ copied m dst src (p + Z.of_nat (length l) * 256) s'.
Proof.
  intros Hdst. revert p s; induction l as [|x l IH]; intros p s Hpw Hp Hlen Hs.
  - exists s. split; [done|]. by rewrite Z.add_0_r.
  - destruct Hdst as [Hdst|]; [|done]. cbn [length] in Hlen |- *. rewrite Nat2Z.inj_succ in Hlen |- *. cbn [for_each].
    destruct (stream_n_copied inner_loop 32 src m dst p s) as (s1 & -> & H1); [lia|by left|done|lia|unfold inner_loop; lia|done|].
    cbn [mbind outcome_bind]. destruct (IH (or_introl Hdst) (p + 256) s1) as (s' & Hs' & Hc).
    + by rewrite Z.add_mod, Hpw by lia.
    + lia.
    + lia.
    + exact H1.
    + exists s'. split; [exact Hs'|]. by replace (p + Z.succ (Z.of_nat (length l)) * 256) with (p + 256 + Z.of_nat (length l) * 256) by lia.
Qed.

Lemma memcpy_spec dst src n m :
  dst mod 32 = 0 ∨ (dst mod 16 = 0 ∧ n < 32) → n mod 4 = 0 → 0 <= n <= Z.of_nat (length src) →
  ∃ m', memcpy_to_device dst src n m = Ok m' ∧ mem_eq m' (mem_write m dst (bytes_from src 0 n)).
Proof.
  intros Hdst Hn Hlen. unfold memcpy_to_device, MEMCPY_ALIGNMENT, inner_blk_size.
  assert (H16 : dst mod 16 = 0) by (destruct Hdst as [Hdst|[? _]]; [Z.to_euclidean_division_equations; lia|done]).
  rewrite H16, Hn. cbn [Z.eqb check mbind outcome_bind].
  set (q := n / 256). assert (Hq : 0 <= q ∧ q * 256 <= n < q * 256 + 256)
    by (unfold q; Z.to_euclidean_division_equations; lia).
  destruct (blocks_copied (seqZ 0 q) src m dst 0 (m, dst, 0)) as (s1 & -> & H1);
    [destruct Hdst as [|[_ ?]]; [by left|right; apply seqZ_nil; lia]|done|lia|rewrite length_seqZ; lia| |].
  { split; [|simpl; lia]. intros a. symmetry. apply mem_write_outside. simpl. lia. }
  rewrite length_seqZ, Z.add_0_l, Z2Nat.id in H1 by lia. cbn [mbind outcome_bind].
  set (r := n - q * 256) in *. destruct (Z.ltb_spec 0 r) as [Hr|Hr].
  2:{ assert (r = 0) by lia. destruct s1 as [[m1 d1] p1]. exists m1. split; [done|].
      destruct H1 as [H1 _]. by replace n with (q * 256) by lia. }
  assert (Hr4 : r mod 4 = 0) by (unfold r; Z.to_euclidean_division_equations; lia).
  set (q2 := r / 32). assert (Hq2 : 0 <= q2 ∧ q2 * 32 <= r < q2 * 32 + 32)
    by (unfold q2; Z.to_euclidean_division_equations; lia).
  destruct (stream_n_copied (Z.to_nat q2) 32 src m dst (q * 256) s1) as (s2 & -> & H2);
    [lia|destruct Hdst as [|[_ ?]]; [by left|right; lia]|Z.to_euclidean_division_equations; lia|lia|lia|done|].
  rewrite Z2Nat.id in H2 by lia. cbn [mbind outcome_bind]. set (r2 := r - q2 * 32) in *.
  set (q3 := r2 / 16). assert (Hq3 : 0 <= q3 ∧ q3 * 16 <= r2 < q3 * 16 + 16)
    by (unfold q3; Z.to_euclidean_division_equations; lia).
  destruct (stream_n_copied (Z.to_nat q3) 16 src m dst (q * 256 + q2 * 32) s2) as (s3 & -> & H3);
    [lia|by left|Z.to_euclidean_division_equations; lia|lia|lia|done|].
  rewrite Z2Nat.id in H3 by lia. cbn [mbind outcome_bind].
  destruct (Z.ltb_spec 0 (r2 - q3 * 16)) as [Hr3|Hr3].
  - set (r3 := r2 - q3 * 16) in *.
    assert (Hr34 : r3 mod 4 = 0) by (unfold r3, r2; Z.to_euclidean_division_equations; lia).
    destruct (stream_n_copied (Z.to_nat (r3 / 4)) 4 src m dst (q * 256 + q2 * 32 + q3 * 16) s3) as ([[m4 d4] p4] & -> & H4);
      [lia|left; Z.to_euclidean_division_equations; lia|Z.to_euclidean_division_equations; lia|lia
      |rewrite Z2Nat.id by (Z.to_euclidean_division_equations; lia); Z.to_euclidean_division_equations; lia|done|].
    exists m4. split; [done|]. destruct H4 as [H4 _]. rewrite Z2Nat.id in H4 by (Z.to_euclidean_division_equations; lia).
    replace n with (q * 256 + q2 * 32 + q3 * 16 + r3 / 4 * 4); [done|].
    assert (r3 / 4 * 4 = r3) by (Z.to_euclidean_division_equations; lia). lia.
  - destruct s3 as [[m3 d3] p3]. exists m3. split; [done|]. destruct H3 as [H3 _].
    by replace n with (q * 256 + q2 * 32 + q3 * 16) by lia.
Qed.

(** A 32-byte store to an address that is aligned to 16 bytes only. *)
Lemma memcpy_unaligned dst src n m :
  dst mod 32 = 16 → n mod 4 = 0 → 32 <= n <= Z.of_nat (length src) → memcpy_to_device dst src n m = Err UB.
Proof.
  intros Hdst Hn Hlen. unfold memcpy_to_device, MEMCPY_ALIGNMENT, inner_blk_size.
  assert (H16 : dst mod 16 = 0) by (Z.to_euclidean_division_equations; lia).
  rewrite H16, Hn. cbn [Z.eqb check mbind outcome_bind].
  assert (Hfail : ∀ k, stream_n (S k) 32 src (m, dst, 0) = Err UB) by (intros k; cbn [stream_n stream]; by rewrite Hdst).
  destruct (Z.lt_ge_cases n 256) as [Hs|Hl].
  - rewrite seqZ_nil by (Z.to_euclidean_division_equations; lia). cbn [for_each mbind outcome_bind].
    rewrite (Z.div_small n 256) by lia. rewrite Z.sub_0_r, (proj2 (Z.ltb_lt 0 n)) by lia.
    destruct (Z.to_nat (n / 32)) as [|k] eqn:Hk; [Z.to_euclidean_division_equations; lia|]. by rewrite Hfail.
  - rewrite seqZ_cons by (Z.to_euclidean_division_equations; lia). cbn [for_each]. unfold inner_loop. by rewrite Hfail.
Qed.

(** ** Alignment *)
Lemma lor_ones a k : 0 <= k → 0 <= a → Z.lor a (Z.ones k) = a / 2 ^ k * 2 ^ k + Z.ones k.
Proof.
  intros Hk Ha. pose proof (Z.pow_pos_nonneg 2 k ltac:(lia) Hk).
  rewrite <- (lor_shiftl (a / 2 ^ k) (Z.ones k) k) by (rewrite ?Z.ones_equiv; lia).
  rewrite <- Z.shiftr_div_pow2 by done. apply Z.bits_inj'. intros i Hi. rewrite !Z.lor_spec.
  destruct (Z.lt_ge_cases i k).
  - rewrite Z.ones_spec_low, !orb_true_r by lia. done.
  - rewrite Z.ones_spec_high, !orb_false_r, Z.shiftl_spec_high, Z.shiftr_spec by lia. f_equal. lia.
Qed.

(** [align] rounds up to a multiple of a power of two. *)
Lemma align_spec x k :
  0 <= k <= 31 → 0 <= x → x + 2 ^ k <= 2 ^ 32 → align x (2 ^ k) = (x + 2 ^ k - 1) / 2 ^ k * 2 ^ k.
Proof.
  intros Hk Hx Hfit. unfold align. pose proof (Z.pow_pos_nonneg 2 k ltac:(lia) ltac:(lia)) as Hp.
  pose proof (Z.pow_le_mono_r 2 k 31 ltac:(lia) ltac:(lia)) as H31. change (2 ^ 31) with 2147483648 in H31.
  change (2 ^ 32) with 4294967296 in Hfit.
  rewrite (u32_small (2 ^ k - 1)) by lia. replace (2 ^ k - 1) with (Z.ones k) by (rewrite Z.ones_equiv; lia).
  destruct (Z.eq_dec x 0) as [->|Hnz].
  - change (u32 (0 - 1)) with (Z.ones 32). rewrite lor_ones by (rewrite ?Z.ones_equiv; lia).
    rewrite (Z.div_small (0 + 2 ^ k - 1)) by lia. rewrite Z.mul_0_l.
    assert (Hq : Z.ones 32 / 2 ^ k * 2 ^ k + Z.ones k = Z.ones 32).
    { rewrite <- lor_ones by (rewrite ?Z.ones_equiv; lia). apply Z.bits_inj'. intros i Hi. rewrite Z.lor_spec.
      destruct (Z.lt_ge_cases i 32); [by rewrite Z.ones_spec_low by lia|].
      by rewrite !Z.ones_spec_high by lia. }
    by rewrite Hq.
  - rewrite (u32_small (x - 1)) by lia. rewrite lor_ones by lia.
    replace (x + 2 ^ k - 1) with ((x - 1) + 1 * 2 ^ k) by lia. rewrite Z.div_add by lia.
    rewrite Z.ones_equiv. pose proof (Z.mul_div_le (x - 1) (2 ^ k) Hp).
    pose proof (Z.div_pos (x - 1) (2 ^ k) ltac:(lia) Hp). rewrite u32_small by nia. lia.
Qed.

(** The two host alignments in use. *)
Definition host_aligned (a : Z) : Prop := a = 32 ∨ a = 64.

Lemma align_multiple x a : host_aligned a → 0 <= x → x mod a = 0 → x + 64 <= 2 ^ 32 → align x a = x.
Proof.
  intros [->| ->] Hx Hm Hfit.
  - change 32 with (2 ^ 5). rewrite align_spec by (lia || (change (2 ^ 5) with 32; lia)).
    change (2 ^ 5) with 32. Z.to_euclidean_division_equations; lia.
  - change 64 with (2 ^ 6). rewrite align_spec by (lia || (change (2 ^ 6) with 64; lia)).
    change (2 ^ 6) with 64. Z.to_euclidean_division_equations; lia.
Qed.
