(* ===== verification/CommandQueueThms.v ===== *)
(** * Building the queues: the L1 layout and the manager's constructor *)
From S2P Require Import Prelude WorkerConfigBuffer CommandQueue CommandQueueProps.
(** What the supported platforms have in common. *)
Record platform_ok (hal : Hal) : Prop := mk_platform {
  pf_host : host_aligned (host_alignment hal);
  pf_l1 : 4 <= l1_alignment hal <= 64;
  pf_tensix : 0 <= tensix_unreserved hal < 2 ^ 24;
  pf_eth : 0 <= idle_eth_unreserved hal < 2 ^ 24;
  pf_sizes : MEM_L1_SIZE hal < 2 ^ 24 ∧ MEM_ETH_SIZE hal < 2 ^ 24
}.

Definition l1_size_of (hal : Hal) (ct : CoreType) : Z := match ct with WORKER => MEM_L1_SIZE hal | ETH => MEM_ETH_SIZE hal end.
Definition unreserved_of (hal : Hal) (ct : CoreType) : Z :=
  match ct with WORKER => tensix_unreserved hal | ETH => idle_eth_unreserved hal end.

Definition round_to (x k : Z) : Z := (x + k - 1) / k * k.

(** Regions (start, size) in increasing order, none overlapping, between [lo] and [hi]. *)
Fixpoint chained (lo hi : Z) (regions : list (Z * Z)) : Prop :=
  match regions with
  | [] => lo <= hi
  | (p, size_) :: regions => lo <= p ∧ 0 <= size_ ∧ chained (p + size_) hi regions
  end.

Lemma chained_app lo mid hi rs rs' : chained lo mid rs → chained mid hi rs' → chained lo hi (rs ++ rs').
Proof.
  revert lo; induction rs as [|[p size_] rs IH]; intros lo; simpl.
  - intros Hlo Hrs. destruct rs' as [|[p size_] rs']; simpl in *; intuition lia.
  - intros (? & ? & ?) ?. auto.
Qed.

Lemma round_to_bounds x k : 0 <= x → 0 < k → x <= round_to x k < x + k.
Proof. intros. unfold round_to. Z.to_euclidean_division_equations. nia. Qed.

Lemma round_to_multiple x k : 0 < k → round_to x k mod k = 0.
Proof. intros. unfold round_to. apply Z.mod_mul. lia. Qed.

Lemma align_round x k : host_aligned k → 0 <= x < 2 ^ 26 → align x k = round_to x k.
Proof.
  intros [->| ->] Hx; unfold round_to.
  - change 32 with (2 ^ 5). apply align_spec; [lia|lia|]. change (2 ^ 5) with 32. lia.
  - change 64 with (2 ^ 6). apply align_spec; [lia|lia|]. change (2 ^ 6) with 64. lia.
Qed.

Lemma pcie_round_spec x k : host_aligned k → 0 <= x < 2 ^ 26 → pcie_round_up x k = Ok (round_to x k).
Proof.
  intros Hk Hx. assert (Hk' : 0 < k <= 64) by (destruct Hk; lia).
  pose proof (round_to_bounds x k ltac:(lia) ltac:(lia)) as Hr.
  unfold pcie_round_up. rewrite (u32_small (x + k)), (u32_small (x + k - 1)) by lia. rewrite udiv_ok by lia.
  cbn [mbind outcome_bind]. by rewrite u32_small by (unfold round_to in Hr; lia).
Qed.

Lemma device_addrs_spec hal base :
  platform_ok hal → 0 <= base < 2 ^ 24 →
  base :: device_cq_addrs_from hal base (device_cq_addr_size hal DEV_PREFETCH_Q_RD) (tail device_addr_types)
  = [base; base + 4; base + l1_alignment hal; base + 2 * l1_alignment hal; base + 3 * l1_alignment hal;
     base + 4 * l1_alignment hal; base + 5 * l1_alignment hal;
     round_to (base + 5 * l1_alignment hal + 32) (host_alignment hal)].
Proof.
  intros Hp Hb. pose proof (pf_l1 _ Hp). cbn [device_addr_types tail device_cq_addrs_from device_cq_addr_size].
  unwrap. rewrite align_round by (apply Hp || lia).
  do 2 f_equal. f_equal; [lia|]. f_equal; [lia|]. f_equal; [lia|]. f_equal; [lia|]. f_equal; [lia|].
  do 2 f_equal. lia.
Qed.

(** The constants as functions of the platform; every region follows the one before it
    and the last ends within L1. *)
Record constants_ok (hal : Hal) (ct : CoreType) (num_hw_cqs : Z) (c : dispatch_constants) : Prop := mk_constants_ok {
  co_entries : prefetch_q_entries c = match ct with ETH => 128 | WORKER => if is_galaxy_cluster hal then 1532 / num_hw_cqs else 1534 end;
  co_command : max_prefetch_command_size c = match ct with ETH => 32768 | WORKER => 131072 end;
  co_addrs : device_cq_addrs c =
    [unreserved_of hal ct; unreserved_of hal ct + 4; unreserved_of hal ct + l1_alignment hal;
     unreserved_of hal ct + 2 * l1_alignment hal; unreserved_of hal ct + 3 * l1_alignment hal;
     unreserved_of hal ct + 4 * l1_alignment hal; unreserved_of hal ct + 5 * l1_alignment hal;
     round_to (unreserved_of hal ct + 5 * l1_alignment hal + 32) (host_alignment hal)];
  co_q_size : prefetch_q_size c = 2 * prefetch_q_entries c;
  co_cmddat : cmddat_q_base c = round_to (unreserved_of hal ct + 5 * l1_alignment hal + 32) (host_alignment hal)
                                + round_to (prefetch_q_size c) (host_alignment hal);
  co_cmddat_size : cmddat_q_size c = 2 * max_prefetch_command_size c;
  co_scratch : scratch_db_base c = cmddat_q_base c + cmddat_q_size c;
  co_scratch_size : scratch_db_size c mod 2 = 0 ∧ 0 < scratch_db_size c;
  co_l1 : scratch_db_base c + scratch_db_size c < l1_size_of hal ct;
  co_dispatch : dispatch_buffer_base c mod 4096 = 0
    ∧ round_to (unreserved_of hal ct + 5 * l1_alignment hal + 32) (host_alignment hal) <= dispatch_buffer_base c
    ∧ dispatch_buffer_pages c = DISPATCH_BUFFER_SIZE_BLOCKS * dispatch_buffer_block_size_pages c
    ∧ dispatch_buffer_base c + 4096 * dispatch_buffer_pages c < l1_size_of hal ct;
  co_pages : 0 < dispatch_buffer_pages c
}.

Lemma lor_page x : 0 <= x → Z.lor x (Z.shiftl 1 12 - 1) + 1 = (x / 4096 + 1) * 4096.
Proof.
  intros Hx. change (Z.shiftl 1 12 - 1) with (Z.ones 12). rewrite lor_ones by lia. change (2 ^ 12) with 4096.
  change (Z.ones 12) with 4095. lia.
Qed.

Lemma dispatch_constants_new_ok hal ct num_hw_cqs c :
  platform_ok hal → 0 < num_hw_cqs → dispatch_constants_new hal ct num_hw_cqs = Ok c → constants_ok hal ct num_hw_cqs c.
Proof.
  intros Hp Hn Hnew. pose proof (pf_host _ Hp) as Ha. pose proof (pf_l1 _ Hp) as Hl1.
  assert (Ha' : 0 < host_alignment hal <= 64) by (destruct Ha as [->| ->]; lia).
  remember (unreserved_of hal ct) as B eqn:HBdef.
  remember (match ct with ETH => 128 | WORKER => if is_galaxy_cluster hal then 1532 / num_hw_cqs else 1534 end) as E eqn:HEdef.
  assert (HB : 0 <= B < 2 ^ 24) by (subst B; destruct ct; simpl; apply Hp).
  assert (HE : 0 <= E <= 1534).
  { subst E. destruct ct; [|lia]. destruct (is_galaxy_cluster hal); [|lia]. Z.to_euclidean_division_equations; nia. }
  assert (Hsizes : l1_size_of hal ct < 2 ^ 24) by (destruct (pf_sizes _ Hp); destruct ct; simpl; lia).
  remember (round_to (B + 5 * l1_alignment hal + 32) (host_alignment hal)) as U eqn:HUdef.
  pose proof (round_to_bounds (B + 5 * l1_alignment hal + 32) (host_alignment hal) ltac:(lia) ltac:(lia)) as HU.
  rewrite <- HUdef in HU.
  pose proof (round_to_bounds (2 * E) (host_alignment hal) ltac:(lia) ltac:(lia)) as HQ.
  remember (match ct with ETH => 32768 | WORKER => 131072 end) as M eqn:HMdef.
  remember (match ct with ETH => 19 * 1024 | WORKER => 128 * 1024 end) as SC eqn:HSCdef.
  remember (match ct with ETH => 128 * 1024 | WORKER => 512 * 1024 end) as BS eqn:HBSdef.
  unfold dispatch_constants_new in Hnew.
  apply bind_Ok_inv in Hnew as (t & Ht & Hnew).
  assert (Hhead : t = (E, M, 2 * M, SC, BS, match ct with ETH => 128 * 1024 | WORKER => 256 * 1024 end, 32 * 1024, B)).
  { subst. destruct ct; [|by injection Ht as <-]. destruct (is_galaxy_cluster hal); [|by injection Ht as <-].
    rewrite udiv_ok in Ht by lia. by injection Ht as <-. }
  subst t. clear Ht. cbv beta iota zeta in Hnew.
  do 3 (apply bind_Ok_inv in Hnew as (? & _ & Hnew)).
  rewrite device_addrs_spec in Hnew by done.
  apply bind_Ok_inv in Hnew as (u & Hu & Hnew). rewrite <- HUdef in Hu, Hnew. injection Hu as <-.
  unfold sizeof_prefetch_q_entry in Hnew. rewrite (u32_small (E * 2)), (Z.mul_comm E 2) in Hnew by lia.
  apply bind_Ok_inv in Hnew as (q & Hq & Hnew). rewrite pcie_round_spec in Hq by (done || lia). injection Hq as <-.
  assert (HM : 2 * M = round_to (2 * M) (host_alignment hal) ∧ 0 < M <= 131072).
  { subst M. unfold round_to. destruct Ha as [->| ->], ct; done. }
  apply bind_Ok_inv in Hnew as (k & Hk & Hnew). rewrite pcie_round_spec, <- (proj1 HM) in Hk by (done || lia).
  injection Hk as <-.
  assert (HSC : SC mod 2 = 0 ∧ 0 < SC <= 131072) by (subst SC; destruct ct; done).
  rewrite (u32_small (U + _)), (u32_small (U + _ + 2 * M)), (u32_small (U + _ + 2 * M + SC)) in Hnew by lia.
  apply bind_Ok_inv in Hnew as (? & Hfit%check_Ok_inv%Z.ltb_lt & Hnew). fold (l1_size_of hal ct) in Hfit, Hnew.
  unfold DISPATCH_BUFFER_LOG_PAGE_SIZE in Hnew. rewrite (u32_small (U - 1)), lor_page in Hnew by lia.
  remember (((U - 1) / 4096 + 1) * 4096) as D eqn:HDdef.
  assert (HD : U <= D <= U + 4096) by (subst D; Z.to_euclidean_division_equations; lia).
  remember (BS / Z.shiftl 1 12 / DISPATCH_BUFFER_SIZE_BLOCKS) as P eqn:HPdef.
  assert (HP : 0 < P <= 32) by (subst P BS; destruct ct; done).
  unfold DISPATCH_BUFFER_SIZE_BLOCKS in Hnew. change (Z.shiftl 1 12) with 4096 in Hnew.
  rewrite (u32_small D), (u32_small (P * 4)), (u32_small (4096 * _)), (u32_small (D + _)) in Hnew by lia.
  apply bind_Ok_inv in Hnew as (? & Hfit2%check_Ok_inv%Z.ltb_lt & Hnew). injection Hnew as <-.
  split; cbn [prefetch_q_entries prefetch_q_size max_prefetch_command_size cmddat_q_base cmddat_q_size scratch_db_base
    scratch_db_size dispatch_buffer_base dispatch_buffer_block_size_pages dispatch_buffer_pages device_cq_addrs];
    rewrite <- ?HBdef, <- ?HUdef; try done; try lia.
  unfold DISPATCH_BUFFER_SIZE_BLOCKS. split_and!; [subst D; by rewrite Z.mod_mul|lia..].
Qed.

(** ** The cache of constants *)
Lemma constants_get_new hal ct n c :
  0 < n → dispatch_constants_new hal ct n = Ok c →
  dispatch_constants_get hal ct n no_constants = (Ok c, mk_cache (Some c) n ct).
Proof.
  intros Hn Hc. unfold dispatch_constants_get, no_constants. cbn [hw_cqs inst last_core_type].
  rewrite orb_true_r, (proj2 (Z.ltb_lt 0 n) Hn). cbn [andb]. rewrite Hc.
  cbn [mbind outcome_bind hw_cqs]. by rewrite (proj2 (Z.ltb_lt 0 n) Hn).
Qed.

(** Once the constants of [n] queues are in the cache both calls of the constructor return them. *)
Lemma constants_get_cached hal ct n n' c :
  0 < n → n' = 0 ∨ n' = n →
  dispatch_constants_get hal ct n' (mk_cache (Some c) n ct) = (Ok c, mk_cache (Some c) n ct).
Proof.
  intros Hn Hn'. unfold dispatch_constants_get. cbn [hw_cqs inst last_core_type].
  rewrite bool_decide_true by done. cbn [negb orb].
  assert (Hr : (0 <? n') && (negb (n' =? n) || false || false) = false).
  { destruct Hn' as [->| ->]; [done|]. rewrite Z.eqb_refl. apply andb_false_r. }
  rewrite Hr. cbn [hw_cqs inst last_core_type]. by rewrite (proj2 (Z.ltb_lt 0 n) Hn).
Qed.

(** ** The regions of one queue *)
Definition queue_bytes (hal : Hal) (cluster : Cluster) (n : Z) : Z :=
  match cq_size_override cluster with
  | Some size_ => u32 size_
  | None => let size_ := host_channel_size cluster / n in
            if is_galaxy_cluster hal then size_ / DEVICES_PER_UMD_CHANNEL else size_
  end.

(** Channels are a power of two apart: four of 2^30 bytes, the devices of one 2^28 apart. *)
Definition channel_base (channel : Z) : Z := 2 ^ 30 * (channel mod 4) + 2 ^ 28 * (channel / 4).

Record config_ok (hal : Hal) (cluster : Cluster) (n : Z) : Prop := mk_config {
  cf_platform : platform_ok hal;
  cf_queues : 1 <= n <= 2;
  cf_channel : 0 <= channel cluster;
  cf_aligned : queue_bytes hal cluster n mod host_alignment hal = 0;
  cf_size : 4 * host_alignment hal + 4 * TRANSFER_PAGE_SIZE <= queue_bytes hal cluster n < 2 ^ 32;
  cf_fits : channel_base (channel cluster) + n * queue_bytes hal cluster n <= 2 ^ 32;
  cf_tlb : Z.of_nat (length (completion_tlb cluster)) = n ∧ Forall (λ t, t.2 ≠ 0) (completion_tlb cluster)
}.

Section constructor.
Context (hal : Hal) (cluster : Cluster) (ct : CoreType) (n : Z) (Hcf : config_ok hal cluster n).
Abbreviation A := (host_alignment hal).
Abbreviation Q := (queue_bytes hal cluster n).
Abbreviation chan := (channel_base (channel cluster)).

Definition completion_bytes : Z := (Q - 4 * A) / TRANSFER_PAGE_SIZE / 4 * TRANSFER_PAGE_SIZE.
Definition issue_bytes : Z := Q - 4 * A - completion_bytes.

Lemma align_bounds : 32 <= A <= 64 ∧ 64 mod A = 0 ∧ 4096 mod A = 0 ∧ A mod 16 = 0.
Proof. destruct (pf_host _ (cf_platform _ _ _ Hcf)) as [->| ->]; done. Qed.

Lemma channel_base_bounds : 0 <= chan ∧ chan mod 64 = 0.
Proof.
  pose proof (cf_channel _ _ _ Hcf). unfold channel_base. change (2 ^ 30) with (16777216 * 64). change (2 ^ 28) with (4194304 * 64).
  split; [Z.to_euclidean_division_equations; lia|].
  replace (_ + _) with ((16777216 * (channel cluster mod 4) + 4194304 * (channel cluster / 4)) * 64) by lia.
  by apply Z.mod_mul.
Qed.

Lemma region_sizes :
  4096 <= completion_bytes ∧ completion_bytes mod 4096 = 0 ∧ completion_bytes <= (Q - 4 * A) / 4 < completion_bytes + 4096
  ∧ 0 < issue_bytes ∧ issue_bytes mod A = 0.
Proof.
  pose proof align_bounds as (HA & _ & HA4 & _). pose proof (cf_size _ _ _ Hcf) as Hs. pose proof (cf_aligned _ _ _ Hcf) as Ha.
  unfold issue_bytes, completion_bytes in *. change TRANSFER_PAGE_SIZE with 4096 in *.
  split_and!; [Z.to_euclidean_division_equations; lia|by apply Z.mod_mul|Z.to_euclidean_division_equations; lia..|].
  apply Z.mod_divide in Ha, HA4; [|lia..]. apply Z.mod_divide; [lia|].
  apply Z.divide_sub_r; [apply Z.divide_sub_r|]; auto using Z.divide_mul_r, Z.divide_refl.
Qed.

Lemma absolute_offset cq_id :
  0 <= cq_id < n → get_absolute_cq_offset (channel cluster) cq_id Q = chan + cq_id * Q.
Proof.
  intros Hid. pose proof (cf_channel _ _ _ Hcf). pose proof (cf_fits _ _ _ Hcf). pose proof (cf_size _ _ _ Hcf).
  pose proof align_bounds as [HA _]. change TRANSFER_PAGE_SIZE with 4096 in *.
  assert (0 <= cq_id * Q <= (n - 1) * Q) by nia.
  unfold get_absolute_cq_offset, get_relative_cq_offset, get_umd_channel, MAX_HUGEPAGE_SIZE, MAX_DEV_CHANNEL_SIZE.
  change 0x3 with (Z.ones 2). rewrite Z.land_ones, Z.shiftr_div_pow2 by done. unfold channel_base in *. change (2 ^ 2) with 4.
  pose proof (Z.mod_pos_bound (channel cluster) 4 ltac:(lia)). pose proof (Z.div_pos (channel cluster) 4 ltac:(lia) ltac:(lia)).
  generalize dependent (channel cluster mod 4). generalize dependent (channel cluster / 4). intros q Hq r ? ?.
  unwrap. lia.
Qed.

Lemma host_unreserved : get_host_command_queue_addr hal HOST_UNRESERVED = 4 * A.
Proof. pose proof align_bounds as [? _]. unfold get_host_command_queue_addr. simpl. unwrap. lia. Qed.

(** Where queue [cq_id] begins, past its pointers. *)
Definition queue_base (cq_id : Z) : Z := 4 * A + (chan + cq_id * Q).

Definition interface_of (cq_id : Z) : SystemMemoryCQInterface :=
  let limit := (queue_base cq_id + issue_bytes) / 16 in
  mk_interface (4 * A) completion_bytes issue_bytes cq_id (issue_bytes / 16) limit (chan + cq_id * Q)
    (queue_base cq_id / 16) false (completion_bytes / 16) (limit + completion_bytes / 16) limit false.

Lemma queue_base_bounds cq_id :
  0 <= cq_id < n →
  chan + 4 * A <= queue_base cq_id ∧ queue_base cq_id + issue_bytes + completion_bytes <= 2 ^ 32 ∧ queue_base cq_id mod A = 0.
Proof.
  intros Hid. pose proof align_bounds as (HA & HA64 & _). pose proof channel_base_bounds as [Hc0 Hc64].
  pose proof (cf_fits _ _ _ Hcf) as Hfit. pose proof (cf_size _ _ _ Hcf). pose proof (cf_aligned _ _ _ Hcf) as Hal.
  change TRANSFER_PAGE_SIZE with 4096 in *.
  assert (0 <= cq_id * Q <= (n - 1) * Q) by nia.
  unfold queue_base, issue_bytes. split_and!; [lia|lia|].
  apply Z.mod_divide in HA64, Hal, Hc64; [|lia..]. apply Z.mod_divide; [lia|].
  apply Z.divide_add_r; [auto using Z.divide_mul_r, Z.divide_refl|].
  apply Z.divide_add_r; [by apply (Z.divide_trans _ 64)|by apply Z.divide_mul_r].
Qed.

Lemma interface_new_spec cq_id :
  0 <= cq_id < n → SystemMemoryCQInterface_new hal (channel cluster) cq_id Q (4 * A) = Ok (interface_of cq_id).
Proof.
  intros Hid. pose proof align_bounds as (HA & _ & HA4 & _). pose proof region_sizes as (Hc0 & Hc4 & Hc & Hi0 & Hi).
  pose proof (queue_base_bounds cq_id Hid) as (Hb0 & Hb1 & _). pose proof channel_base_bounds as [Hch _].
  pose proof (cf_size _ _ _ Hcf). change TRANSFER_PAGE_SIZE with 4096 in *.
  unfold SystemMemoryCQInterface_new. rewrite absolute_offset by done.
  unfold interface_of, queue_base in *. unfold issue_bytes in *.
  assert (0 <= cq_id * Q) by (apply Z.mul_nonneg_nonneg; lia).
  rewrite (u32_small (Q - 4 * A)) by lia. fold completion_bytes.
  rewrite (u32_small completion_bytes) by lia.
  remember completion_bytes as comp eqn:Hcomp. clear Hcomp.
  assert (Hcm : comp mod A = 0).
  { apply Z.mod_divide in Hc4, HA4; [|lia..]. apply Z.mod_divide; [lia|]. by apply (Z.divide_trans _ 4096). }
  remember (chan + cq_id * Q) as off eqn:Hoff.
  rewrite !Z.shiftr_div_pow2 by done. change (2 ^ 4) with 16.
  rewrite (u32_small (Q - 4 * A - comp)), (u32_small (4 * A + _)), (u32_small (4 * A + off)) by lia.
  rewrite (u32_small (_ + off)) by lia. unfold umod.
  rewrite (proj2 (Z.eqb_neq A 0)) by lia. cbn [mbind outcome_bind]. rewrite Hcm, Hi.
  replace (4 * A + (Q - 4 * A - comp) + off) with (4 * A + off + (Q - 4 * A - comp)) by lia.
  assert (Hl : 0 < (4 * A + off + (Q - 4 * A - comp)) / 16) by (apply Z.div_str_pos; lia).
  rewrite (proj2 (Z.eqb_neq (_ / 16) 0)) by lia. cbn [check andb negb Z.eqb mbind outcome_bind].
  do 2 f_equal. apply u32_small. Z.to_euclidean_division_equations. lia.
Qed.

Definition interface_regions (i : SystemMemoryCQInterface) : list (Z * Z) :=
  [(issue_fifo_wr_ptr i * 16, issue_fifo_size i * 16); (completion_fifo_rd_ptr i * 16, completion_fifo_size i * 16)].

Lemma interface_regions_spec cq_id :
  0 <= cq_id < n →
  interface_regions (interface_of cq_id)
  = [(queue_base cq_id, issue_bytes); (queue_base cq_id + issue_bytes, completion_bytes)].
Proof.
  intros Hid. destruct (queue_base_bounds cq_id Hid) as (_ & _ & Hb). destruct region_sizes as (_ & Hc4 & _ & _ & Hi).
  destruct align_bounds as (HA & _ & _ & HA16).
  assert (H16 : ∀ x, (host_alignment hal | x) → x / 16 * 16 = x).
  { intros x Hx. apply Z.mod_divide in HA16; [|lia]. pose proof (Z.divide_trans _ _ _ HA16 Hx) as Hd.
    apply Z.mod_divide in Hd; [|lia]. Z.to_euclidean_division_equations. lia. }
  apply Z.mod_divide in Hb, Hi; [|lia..].
  unfold interface_regions. cbn [interface_of issue_fifo_wr_ptr issue_fifo_size completion_fifo_rd_ptr completion_fifo_size].
  rewrite !H16 by auto using Z.divide_add_r. replace (completion_bytes / 16 * 16) with completion_bytes; [done|]. Z.to_euclidean_division_equations. lia.
Qed.

Lemma interfaces_chained k :
  Z.of_nat k <= n →
  ∀ lo, lo <= chan →
  chained lo (chan + Z.of_nat k * Q) (concat (interface_regions <$> ((λ k, interface_of (Z.of_nat k)) <$> seq 0 k))).
Proof.
  induction k as [|k IH]; intros Hk lo Hlo; [simpl; lia|].
  destruct (queue_base_bounds (Z.of_nat k) ltac:(lia)) as (Hb & _). destruct region_sizes as (Hc0 & _ & _ & Hi0 & _).
  destruct align_bounds as [HA _].
  rewrite seq_S, !fmap_app, concat_app. cbn [fmap list_fmap concat]. rewrite app_nil_r, interface_regions_spec by lia.
  eapply chained_app; [apply IH; lia|]. rewrite Nat2Z.inj_succ, Z.mul_succ_l. unfold queue_base, issue_bytes in *. cbn [chained Nat.add]. lia.
Qed.

(** ** The constructor, one queue at a time *)
Context (c : dispatch_constants) (Hc : constants_ok hal ct n c).

Definition prefetch_base : Z := round_to (unreserved_of hal ct + 5 * l1_alignment hal + 32) A.
Definition issue_needed : Z := max_prefetch_command_size c * (prefetch_q_entries c + 2).

(** The manager after its first [k] queues. *)
Record built (k : nat) (m : SystemMemoryManager) : Prop := mk_built {
  bu_hal : hal_ m = hal;
  bu_constants : constants m = c;
  bu_size : cq_size m = Q;
  bu_offset : channel_offset m = chan;
  bu_bypass : bypass_enable m = false;
  bu_interfaces : cq_interfaces m = (λ k, interface_of (Z.of_nat k)) <$> seq 0 k;
  bu_ptrs : prefetch_q_dev_ptrs m = replicate k prefetch_base;
  bu_fences : prefetch_q_dev_fences m = replicate k (prefetch_base + 2 * prefetch_q_entries c);
  bu_events : cq_to_event m = replicate k 0;
  bu_completed : cq_to_last_completed_event m = replicate k 0;
  bu_bytes : length (completion_byte_addrs m) = k
}.

Lemma constants_bounds :
  128 <= prefetch_q_entries c <= 1534 ∧ 0 < max_prefetch_command_size c <= 131072
  ∧ 0 <= prefetch_base < 2 ^ 25.
Proof.
  pose proof (cf_queues _ _ _ Hcf). destruct (cf_platform _ _ _ Hcf) as [_ ? ? ? _]. pose proof align_bounds as [HA _].
  rewrite (co_entries _ _ _ _ Hc), (co_command _ _ _ _ Hc). split_and!.
  1-2: destruct ct; [destruct (is_galaxy_cluster hal)|]; Z.to_euclidean_division_equations; nia.
  1-2: destruct ct; lia.
  all: unfold prefetch_base; pose proof (round_to_bounds (unreserved_of hal ct + 5 * l1_alignment hal + 32) A); destruct ct; simpl in *; lia.
Qed.

Lemma issue_size_spec cq_id m k :
  built k m → (cq_id < k)%nat → Z.of_nat cq_id < n → get_issue_queue_size cq_id m = Ok issue_bytes.
Proof.
  intros Hm Hk Hn. pose proof region_sizes as (Hc0 & Hc4 & Hcb & Hi0 & Hi). pose proof align_bounds as (HA & _ & _ & HA16).
  pose proof (cf_size _ _ _ Hcf).
  unfold get_issue_queue_size, interface_at. rewrite (bu_interfaces _ _ Hm).
  rewrite (at_some _ _ (interface_of (Z.of_nat cq_id))) by (by rewrite list_lookup_fmap, lookup_seq_lt).
  cbn [mbind outcome_bind interface_of issue_fifo_size]. f_equal.
  assert (H16 : issue_bytes mod 16 = 0).
  { apply Z.mod_divide in Hi, HA16; [|lia..]. apply Z.mod_divide; [lia|]. by apply (Z.divide_trans _ A). }
  rewrite Z.shiftl_mul_pow2 by done. change (2 ^ 4) with 16.
  replace (issue_bytes / 16 * 16) with issue_bytes by (Z.to_euclidean_division_equations; lia).
  apply u32_small. unfold issue_bytes in *. lia.
Qed.

Lemma add_queue_spec rd_ptr k m cache :
  built k m → Z.of_nat k < n → cache = mk_cache (Some c) n ct →
  ∃ m', add_queue hal cluster ct n Q (4 * A) rd_ptr prefetch_base k m cache
        = (if issue_needed <=? issue_bytes then Ok m' else Err TT_FATAL, cache)
    ∧ built (S k) m'.
Proof.
  intros Hm Hk ->. destruct (cf_tlb _ _ _ Hcf) as [Hlen Htlb]. pose proof constants_bounds as (HN & HM & HP).
  destruct (lookup_lt_is_Some_2 (completion_tlb cluster) k ltac:(lia)) as [t Ht].
  pose proof (proj1 (Forall_lookup _ _) Htlb k t Ht) as Ht0. simpl in Ht0.
  pose proof (cf_queues _ _ _ Hcf) as Hn.
  unfold add_queue.
  rewrite (run_lift _ t) by (by apply at_some). unfold umod. rewrite (proj2 (Z.eqb_neq _ _) Ht0).
  erewrite run_lift by done. rewrite (run_lift _ (interface_of (Z.of_nat k))) by (apply interface_new_spec; lia).
  rewrite (ST_bind_ok _ _ _ c (mk_cache (Some c) n ct)) by (apply constants_get_cached; lia || by right).
  cbv zeta.
  match goal with |- context [get_issue_queue_size k ?m1] => set (m1_ := m1) end.
  assert (Hm1 : get_issue_queue_size k m1_ = Ok issue_bytes).
  { pose (m2 := with_events (replicate (S k) 0) (replicate (S k) 0)
      (with_prefetch_q (replicate (S k) prefetch_base) (replicate (S k) (prefetch_base + 2 * prefetch_q_entries c)) m1_)).
    change (get_issue_queue_size k m2 = Ok issue_bytes). apply (issue_size_spec k m2 (S k)); [|lia..].
    split; cbn [m2 m1_ with_events with_prefetch_q hal_ constants cq_size channel_offset bypass_enable cq_interfaces prefetch_q_dev_ptrs
      prefetch_q_dev_fences cq_to_event cq_to_last_completed_event completion_byte_addrs]; try done; try apply Hm.
    - rewrite (bu_interfaces _ _ Hm). by rewrite seq_S, fmap_app.
    - rewrite length_app, (bu_bytes _ _ Hm). simpl. lia. }
  rewrite (run_lift _ _ _ _ Hm1). change (prefetch_q_entries c * sizeof_prefetch_q_entry) with (prefetch_q_entries c * 2).
  rewrite (u32_small (prefetch_q_entries c + 2)), (u32_small (max_prefetch_command_size c * _)) by nia.
  rewrite (u32_small (prefetch_q_entries c * 2)), (u32_small (prefetch_base + _)) by lia.
  fold issue_needed. eexists. split.
  - unfold mbind, ST_bind, check_st, check. destruct (issue_needed <=? issue_bytes); reflexivity.
  - split; unfold m1_; cbn [with_events with_prefetch_q hal_ constants cq_size channel_offset bypass_enable cq_interfaces prefetch_q_dev_ptrs
      prefetch_q_dev_fences cq_to_event cq_to_last_completed_event completion_byte_addrs]; try done; try apply Hm.
    + by rewrite (bu_interfaces _ _ Hm), seq_S, fmap_app.
    + by rewrite (bu_ptrs _ _ Hm), replicate_S_end.
    + by rewrite (bu_fences _ _ Hm), replicate_S_end, (Z.mul_comm 2).
    + by rewrite (bu_events _ _ Hm), replicate_S_end.
    + by rewrite (bu_completed _ _ Hm), replicate_S_end.
    + rewrite length_app, (bu_bytes _ _ Hm). simpl. lia.
Qed.

Lemma add_queues_spec rd_ptr j k m cache :
  built k m → Z.of_nat (k + j) = n → cache = mk_cache (Some c) n ct →
  ∃ m', add_queues hal cluster ct n Q (4 * A) rd_ptr prefetch_base (seq k j) m cache
        = (if decide (j = 0%nat ∨ issue_needed <= issue_bytes) then Ok m' else Err TT_FATAL, cache)
    ∧ built (k + j) m'.
Proof.
  intros Hm Hn Hcache. revert k m Hm Hn; induction j as [|j IH]; intros k m Hm Hn.
  - exists m. rewrite decide_True by (by left). rewrite Nat.add_0_r. done.
  - cbn [seq add_queues]. destruct (add_queue_spec rd_ptr k m cache Hm ltac:(lia) Hcache) as (m1 & Hadd & Hm1).
    destruct (IH (S k) m1 Hm1 ltac:(lia)) as (m' & Hrest & Hm'). exists m'.
    replace (k + S j)%nat with (S k + j)%nat by lia. split; [|done].
    destruct (Z.leb_spec issue_needed issue_bytes).
    + rewrite (ST_bind_ok _ _ _ _ _ Hadd), Hrest. rewrite !decide_True by (by right). done.
    + rewrite (ST_bind_err _ _ _ _ _ Hadd). by rewrite decide_False by lia.
Qed.

Lemma device_addr_spec t :
  ∃ x, get_device_command_queue_addr c t = Ok x ∧ (t = DEV_UNRESERVED → x = prefetch_base).
Proof.
  unfold get_device_command_queue_addr. rewrite (co_addrs _ _ _ _ Hc).
  destruct t; eexists; (split; [reflexivity|done]).
Qed.

Lemma constructor_spec :
  ∃ m, SystemMemoryManager_new hal cluster ct n (mk_cache (Some c) n ct)
       = (if issue_needed <=? issue_bytes then Ok m else Err TT_FATAL, mk_cache (Some c) n ct)
    ∧ built (Z.to_nat n) m.
Proof.
  set (cache := mk_cache (Some c) n ct). pose proof (cf_queues _ _ _ Hcf) as Hn.
  unfold SystemMemoryManager_new.
  rewrite (ST_bind_ok _ _ _ Q cache).
  2: { unfold queue_bytes. destruct (cq_size_override cluster); [done|].
       rewrite (run_lift _ (host_channel_size cluster / n)) by (by rewrite udiv_ok by lia).
       by destruct (is_galaxy_cluster hal). }
  cbv zeta. rewrite (ST_bind_ok _ _ _ c cache) by (apply constants_get_cached; lia || by left).
  destruct (device_addr_spec DEV_COMPLETION_Q_RD) as (rd & Hrd & _). rewrite (run_lift _ _ _ _ Hrd).
  destruct (device_addr_spec DEV_UNRESERVED) as (pb & Hpb & Hpb'). rewrite (Hpb' eq_refl) in Hpb. rewrite (run_lift _ _ _ _ Hpb).
  rewrite host_unreserved.
  assert (Hoff : u32 (u32 (MAX_HUGEPAGE_SIZE * get_umd_channel (channel cluster)) + u32 (Z.shiftr (channel cluster) 2 * MAX_DEV_CHANNEL_SIZE)) = chan).
  { pose proof (absolute_offset 0 ltac:(lia)) as H0. unfold get_absolute_cq_offset, get_relative_cq_offset in H0.
    rewrite Z.mul_0_l, (u32_small 0), Z.add_0_r, Z.add_0_r, u32_u32 in H0 by lia. exact H0. }
  rewrite Hoff.
  match goal with |- context [add_queues _ _ _ _ _ _ _ _ _ ?m0] => set (m0_ := m0) end.
  assert (Hm0 : built 0 m0_) by (by split).
  destruct (add_queues_spec rd (Z.to_nat n) 0 m0_ cache Hm0 ltac:(lia) eq_refl) as (m' & Hadd & Hm').
  destruct (Z.leb_spec issue_needed issue_bytes).
  - rewrite decide_True in Hadd by (by right). rewrite (ST_bind_ok _ _ _ _ _ Hadd).
    eexists. split; [reflexivity|]. split; try apply Hm'; done.
  - rewrite decide_False in Hadd by lia. rewrite (ST_bind_err _ _ _ _ _ Hadd). by exists m'.
Qed.
End constructor.

(** The cache starts empty; the manager is constructed after the constants were asked for. *)
Definition constructed (hal : Hal) (cluster : Cluster) (ct : CoreType) (n : Z) (m : SystemMemoryManager) : Prop :=
  ∃ c cache cache', dispatch_constants_get hal ct n no_constants = (Ok c, cache)
    ∧ SystemMemoryManager_new hal cluster ct n cache = (Ok m, cache').

Lemma constants_get_inv hal ct n c cache :
  0 < n → dispatch_constants_get hal ct n no_constants = (Ok c, cache) →
  dispatch_constants_new hal ct n = Ok c ∧ cache = mk_cache (Some c) n ct.
Proof.
  intros Hn Hget. destruct (dispatch_constants_new hal ct n) as [c'|e] eqn:Hnew.
  - rewrite (constants_get_new _ _ _ c') in Hget by done. by injection Hget as -> <-.
  - unfold dispatch_constants_get, no_constants in Hget. cbn [hw_cqs inst last_core_type] in Hget.
    rewrite orb_true_r, (proj2 (Z.ltb_lt 0 n) Hn) in Hget. cbn [andb] in Hget. by rewrite Hnew in Hget.
Qed.

Lemma constructed_built hal cluster ct n m :
  config_ok hal cluster n → constructed hal cluster ct n m →
  ∃ c, constants_ok hal ct n c ∧ built hal cluster ct n c (Z.to_nat n) m ∧ issue_needed c <= issue_bytes hal cluster n.
Proof.
  intros Hcf (c & cache & cache' & Hget & Hm). pose proof (cf_queues _ _ _ Hcf) as Hn.
  destruct (constants_get_inv hal ct n c cache ltac:(lia) Hget) as [Hnew ->].
  pose proof (dispatch_constants_new_ok hal ct n c (cf_platform _ _ _ Hcf) ltac:(lia) Hnew) as Hc.
  destruct (constructor_spec hal cluster ct n Hcf c Hc) as (m' & Hm' & Hb). rewrite Hm' in Hm.
  destruct (Z.leb_spec (issue_needed c) (issue_bytes hal cluster n)) as [He|]; [|done].
  injection Hm as -> <-. by exists c.
Qed.

(** * Host side of a command queue: theorems on copying, layout and construction *)
(** ** Copying *)
(** C6: [memcpy_to_device] on each kind of argument: it asserts 16-byte alignment of the destination
    and whole words; it copies exactly the first [n] bytes and nothing else when the destination is
    aligned to 32 bytes or fewer than 32 bytes are copied; with a destination aligned to 16 bytes
    only it faults on its first 32-byte streaming store. *)
Theorem memcpy_to_device_correct dst src n m :
  0 <= n <= Z.of_nat (length src) →
  if bool_decide (dst mod 16 ≠ 0 ∨ n mod 4 ≠ 0) then memcpy_to_device dst src n m = Err TT_ASSERT
  else if bool_decide (dst mod 32 = 0 ∨ n < 32)
  then ∃ m', memcpy_to_device dst src n m = Ok m' ∧ mem_eq m' (mem_write m dst (take (Z.to_nat n) src))
  else memcpy_to_device dst src n m = Err UB.
Proof.
  intros Hn. destruct (bool_decide_reflect (dst mod 16 ≠ 0 ∨ n mod 4 ≠ 0)) as [Hbad|Hok].
  - unfold memcpy_to_device, MEMCPY_ALIGNMENT. destruct (Z.eqb_spec (dst mod 16) 0); [|done].
    destruct (Z.eqb_spec (n mod 4) 0); [|done]. by destruct Hbad.
  - assert (H16 : dst mod 16 = 0) by lia. assert (H4 : n mod 4 = 0) by lia.
    case_bool_decide as H32.
    + destruct (memcpy_spec dst src n m ltac:(tauto) H4 Hn) as (m' & Hm & He). exists m'. split; [done|].
      unfold bytes_from in He. by rewrite drop_0 in He.
    + apply memcpy_unaligned; [|done|lia]. assert (dst mod 32 ≠ 0 ∧ 32 <= n) as [? ?] by lia.
      Z.to_euclidean_division_equations. lia.
Qed.

Lemma memcpy_to_device_correct_witness :
  (0 <= 300 <= Z.of_nat (length (seqZ 0 300)))
  ∧ ∃ m', memcpy_to_device 64 (seqZ 0 300) 300 (λ _, 255) = Ok m' ∧ m' 64 = 0 ∧ m' 363 = 299 ∧ m' 364 = 255.
Proof.
  assert (Hn : 0 <= 300 <= Z.of_nat (length (seqZ 0 300))) by (by vm_compute). split; [exact Hn|].
  destruct (memcpy_to_device_correct 64 (seqZ 0 300) 300 (λ _, 255) Hn) as (m' & Hm & He).
  exists m'. split; [exact Hm|]. by rewrite !He.
Defined.

(** ** The L1 layout *)
(** What the dispatch core keeps at the addresses, and behind the last of them. *)
Definition l1_regions (hal : Hal) (c : dispatch_constants) : list (Z * Z) :=
  zip (device_cq_addrs c)
    ((device_cq_addr_size hal <$> [DEV_PREFETCH_Q_RD; DEV_PREFETCH_Q_PCIE_RD; DEV_COMPLETION_Q_WR; DEV_COMPLETION_Q_RD;
       DEV_COMPLETION_Q0_LAST_EVENT; DEV_COMPLETION_Q1_LAST_EVENT; DEV_DISPATCH_MESSAGE]) ++ [prefetch_q_size c])
  ++ [(cmddat_q_base c, cmddat_q_size c); (scratch_db_base c, scratch_db_size c)].

(** C5: The layout of a dispatch core: the device addresses, the prefetch queue, the command data
    queue and the scratch buffer follow one another without overlap between the first unreserved
    byte and the end of L1; the command data queue holds two of the largest commands; the size of
    the largest command leaves the top bit of a prefetch queue entry free for the stall flag; and
    the dispatch buffer is page-aligned, a whole number of blocks, and within L1. *)
Theorem dispatch_constants_layout hal ct num_hw_cqs c :
  platform_ok hal → 0 < num_hw_cqs → dispatch_constants_new hal ct num_hw_cqs = Ok c →
  let base := match ct with WORKER => tensix_unreserved hal | ETH => idle_eth_unreserved hal end in
  let l1_size := match ct with WORKER => MEM_L1_SIZE hal | ETH => MEM_ETH_SIZE hal end in
  chained base l1_size (l1_regions hal c)
  ∧ 2 * max_prefetch_command_size c <= cmddat_q_size c
  ∧ Z.shiftr (max_prefetch_command_size c) PREFETCH_Q_LOG_MINSIZE < 2 ^ 15
  ∧ prefetch_q_size c = sizeof_prefetch_q_entry * prefetch_q_entries c
  ∧ dispatch_buffer_base c mod 2 ^ DISPATCH_BUFFER_LOG_PAGE_SIZE = 0
  ∧ dispatch_buffer_pages c = DISPATCH_BUFFER_SIZE_BLOCKS * dispatch_buffer_block_size_pages c
  ∧ chained base l1_size [(dispatch_buffer_base c, 2 ^ DISPATCH_BUFFER_LOG_PAGE_SIZE * dispatch_buffer_pages c)].
Proof.
  intros Hp Hn Hnew. pose proof (dispatch_constants_new_ok hal ct num_hw_cqs c Hp Hn Hnew) as Hc.
  pose proof (pf_l1 _ Hp) as Hl1. pose proof (pf_host _ Hp) as Ha.
  assert (HA : 32 <= host_alignment hal <= 64) by (destruct Ha as [->| ->]; lia).
  assert (Hbase : 0 <= unreserved_of hal ct) by (destruct ct; simpl; apply Hp).
  pose proof (round_to_bounds (unreserved_of hal ct + 5 * l1_alignment hal + 32) (host_alignment hal) ltac:(lia) ltac:(lia)) as HU.
  assert (Hsize : 0 <= prefetch_q_size c).
  { rewrite (co_q_size _ _ _ _ Hc), (co_entries _ _ _ _ Hc). destruct ct; [|lia]. destruct (is_galaxy_cluster hal); [|lia].
    pose proof (Z.div_pos 1532 num_hw_cqs). lia. }
  pose proof (round_to_bounds (prefetch_q_size c) (host_alignment hal) ltac:(lia) ltac:(lia)) as HQ.
  destruct (co_dispatch _ _ _ _ Hc) as (Hd1 & Hd2 & Hd3 & Hd4). destruct (co_scratch_size _ _ _ _ Hc) as [_ Hs].
  pose proof (co_cmddat _ _ _ _ Hc) as Hcd. pose proof (co_cmddat_size _ _ _ _ Hc) as Hcs.
  pose proof (co_scratch _ _ _ _ Hc) as Hsc. pose proof (co_l1 _ _ _ _ Hc) as Hfit.
  assert (HM : 0 < max_prefetch_command_size c ∧ Z.shiftr (max_prefetch_command_size c) PREFETCH_Q_LOG_MINSIZE < 2 ^ 15)
    by (rewrite (co_command _ _ _ _ Hc); by destruct ct).
  assert (Hpages : 0 < dispatch_buffer_pages c) by (apply (co_pages _ _ _ _ Hc)).
  fold (l1_size_of hal ct) (unreserved_of hal ct). cbv zeta. split_and!; try lia; try done.
  - unfold l1_regions. rewrite (co_addrs _ _ _ _ Hc). cbn [fmap list_fmap device_cq_addr_size app zip zip_with chained].
    rewrite (u32_small (l1_alignment hal - 4)) by lia. split_and!; lia.
  - apply Hc.
  - cbn [chained]. change (2 ^ DISPATCH_BUFFER_LOG_PAGE_SIZE) with 4096. split_and!; lia.
Qed.

Definition demo_hal : Hal := mk_hal 32 16 (100 * 1024) (100 * 1024) (1464 * 1024) (256 * 1024) false.

Lemma demo_platform : platform_ok demo_hal.
Proof. split; try done. by left. Qed.

Lemma dispatch_constants_layout_witness :
  ∃ c, dispatch_constants_new demo_hal ETH 2 = Ok c
    ∧ chained (100 * 1024) (256 * 1024) [(dispatch_buffer_base c, 4096 * dispatch_buffer_pages c)].
Proof.
  destruct (dispatch_constants_new demo_hal ETH 2) as [c|e] eqn:Hc; [|by vm_compute in Hc].
  exists c. split; [done|].
  pose proof (dispatch_constants_layout demo_hal ETH 2 c demo_platform eq_refl Hc) as H. apply H.
Defined.

(** ** The constructor *)
(** C4: The constructor of the manager, called when the constants of this many queues are in the
    cache, succeeds exactly when the issue region of a queue holds as many of the largest commands
    as the prefetch queue has entries and two more, and fails with [TT_FATAL] otherwise.  When it
    succeeds every queue's issue and completion regions lie, in the order of the queues and without
    overlap, in the memory of the device's channel. *)
Theorem SystemMemoryManager_new_outcome hal cluster ct n c :
  config_ok hal cluster n → dispatch_constants_new hal ct n = Ok c →
  let issue := issue_bytes hal cluster n in
  let needed := (prefetch_q_entries c + 2) * max_prefetch_command_size c in
  match (SystemMemoryManager_new hal cluster ct n (mk_cache (Some c) n ct)).1 with
  | Ok m => needed <= issue ∧ length (cq_interfaces m) = Z.to_nat n ∧ bypass_enable m = false
    ∧ chained (channel_base (channel cluster)) (channel_base (channel cluster) + n * queue_bytes hal cluster n)
        (concat (interface_regions <$> cq_interfaces m))
  | Err e => issue < needed ∧ e = TT_FATAL
  end.
Proof.
  intros Hcf Hnew. pose proof (cf_queues _ _ _ Hcf) as Hn.
  pose proof (dispatch_constants_new_ok hal ct n c (cf_platform _ _ _ Hcf) ltac:(lia) Hnew) as Hc.
  destruct (constructor_spec hal cluster ct n Hcf c Hc) as (m & -> & Hm). unfold issue_needed. cbv zeta.
  destruct (Z.leb_spec (max_prefetch_command_size c * (prefetch_q_entries c + 2)) (issue_bytes hal cluster n)); cbn [fst];
    [|split; [lia|done]].
  rewrite (bu_interfaces _ _ _ _ _ _ _ Hm), (bu_bypass _ _ _ _ _ _ _ Hm), length_fmap, length_seq.
  split_and!; [lia|done|done|]. 
  pose proof (interfaces_chained hal cluster n Hcf (Z.to_nat n) ltac:(clear -Hn; lia) _ (Z.le_refl _)) as H'.
  rewrite Z2Nat.id in H' by lia. exact H'.
Qed.

Definition demo_cluster (bytes : Z) : Cluster := mk_cluster 5 0 (Some bytes) [(0x1000, 0x100000); (0x1000, 0x100000)] [].

Lemma demo_config bytes :
  bytes mod 32 = 0 → 16512 <= bytes <= 2 ^ 28 → config_ok demo_hal (demo_cluster bytes) 2.
Proof.
  intros Hm Hb. assert (Hq : queue_bytes demo_hal (demo_cluster bytes) 2 = bytes) by (apply u32_small; lia).
  split; rewrite ?Hq; try done.
  - apply demo_platform.
  - change (4 * host_alignment demo_hal + 4 * TRANSFER_PAGE_SIZE) with 16512. lia.
  - change (channel_base (channel (demo_cluster bytes))) with (2 ^ 30 + 2 ^ 28). lia.
  - split; [done|by repeat constructor].
Qed.

(** Two queues of 2^26 bytes each fit a worker's prefetch queue only if the issue region is large enough. *)
Lemma SystemMemoryManager_new_outcome_witness :
  ∃ c, dispatch_constants_new demo_hal ETH 2 = Ok c
    ∧ config_ok demo_hal (demo_cluster (2 ^ 26)) 2 ∧ config_ok demo_hal (demo_cluster (2 ^ 20)) 2
    ∧ (∃ m, (SystemMemoryManager_new demo_hal (demo_cluster (2 ^ 26)) ETH 2 (mk_cache (Some c) 2 ETH)).1 = Ok m
            ∧ length (cq_interfaces m) = 2%nat)
    ∧ (SystemMemoryManager_new demo_hal (demo_cluster (2 ^ 20)) ETH 2 (mk_cache (Some c) 2 ETH)).1 = Err TT_FATAL.
Proof.
  destruct (dispatch_constants_new demo_hal ETH 2) as [c|e] eqn:Hc; [|by vm_compute in Hc].
  assert (H1 : config_ok demo_hal (demo_cluster (2 ^ 26)) 2) by (by apply demo_config).
  assert (H2 : config_ok demo_hal (demo_cluster (2 ^ 20)) 2) by (by apply demo_config).
  exists c. split; [done|]. split; [exact H1|]. split; [exact H2|].
  pose proof (SystemMemoryManager_new_outcome demo_hal (demo_cluster (2 ^ 26)) ETH 2 c H1 Hc) as Hok.
  pose proof (SystemMemoryManager_new_outcome demo_hal (demo_cluster (2 ^ 20)) ETH 2 c H2 Hc) as Herr.
  vm_compute in Hc. injection Hc as <-. split.
  - destruct (SystemMemoryManager_new demo_hal (demo_cluster (2 ^ 26)) _ _ _).1 as [m|e].
    + exists m. split; [done|]. apply Hok.
    + destruct Hok as [Hlt _]. vm_compute in Hlt. discriminate Hlt.
  - destruct (SystemMemoryManager_new demo_hal (demo_cluster (2 ^ 20)) _ _ _).1 as [m|e].
    + destruct Herr as [Hle _]. vm_compute in Hle. by destruct Hle.
    + by destruct Herr as [_ ->].
Defined.
