(* ===== verification/Prefetcher.v ===== *)
(** * The prefetcher's fetch routine (tt_metal/impl/dispatch/kernels/cq_prefetch.cpp)

    The device side of the prefetch queue: [fetch_q_get_cmds] takes the entries
    the host wrote, reads the commands they announce from host memory over PCIe
    into the command data queue in L1, and tells the host how far it got.

    A [noc_async_read] is queued in [in_flight] and its data arrive at the next
    barrier.  [fetch_q_get_cmds] is one step that sees the entries as they are
    when it runs: an entry the host writes while the routine runs makes no
    difference to the routine (it looks at an entry twice only to find the next
    one after a barrier), so such a write can be ordered before it. *)
From S2P Require Import Prelude CommandQueue.

(** ** Compile-time arguments *)
Record prefetch_args := mk_args {
  pcie_base : Z;
  pcie_size : Z;
  prefetch_q_base : Z;
  prefetch_q_bytes : Z;
  cmddat_base : Z;
  cmddat_size : Z
}.

Definition prefetch_q_end (a : prefetch_args) : Z := u32 (prefetch_q_base a + prefetch_q_bytes a).
Definition cmddat_q_end (a : prefetch_args) : Z := u32 (cmddat_base a + cmddat_size a).
Definition prefetch_q_log_minsize : Z := 4.
Definition prefetch_q_msb_mask : Z := Z.shiftl 1 15.

Inductive StallState := STALL_NEXT | STALLED | NOT_STALLED.
#[export] Instance StallState_eq_dec : EqDecision StallState.
Proof. solve_decision. Defined.

(** [fence] and [cmd_ptr] are the main loop's, [prefetch_q] the queue in L1 and
    [rd_ptr_word], [pcie_rd_ptr_word] the two words the host reads. *)
Record fetcher := mk_fetcher {
  fence : Z;
  cmd_ptr : Z;
  pcie_read_ptr : Z;
  pending_read_size : Z;
  prefetch_q_rd_ptr : Z;
  stall_state : StallState;
  prefetch_q : list Z;
  rd_ptr_word : Z;
  pcie_rd_ptr_word : Z;
  in_flight : list (Z * Z * Z);
  l1 : mem
}.

Definition with_cmd (fence_ cmd_ptr_ pending : Z) (stall : StallState) (f : fetcher) : fetcher :=
  mk_fetcher fence_ cmd_ptr_ (pcie_read_ptr f) pending (prefetch_q_rd_ptr f) stall (prefetch_q f)
    (rd_ptr_word f) (pcie_rd_ptr_word f) (in_flight f) (l1 f).
Definition with_noc (reads : list (Z * Z * Z)) (l1_ : mem) (f : fetcher) : fetcher :=
  mk_fetcher (fence f) (cmd_ptr f) (pcie_read_ptr f) (pending_read_size f) (prefetch_q_rd_ptr f) (stall_state f)
    (prefetch_q f) (rd_ptr_word f) (pcie_rd_ptr_word f) reads l1_.
Definition with_queue (entries : list Z) (f : fetcher) : fetcher :=
  mk_fetcher (fence f) (cmd_ptr f) (pcie_read_ptr f) (pending_read_size f) (prefetch_q_rd_ptr f) (stall_state f)
    entries (rd_ptr_word f) (pcie_rd_ptr_word f) (in_flight f) (l1 f).

(** The index of an entry's address in the queue. *)
Definition entry_index (a : prefetch_args) (ptr : Z) : nat := Z.to_nat ((ptr - prefetch_q_base a) / sizeof_prefetch_q_entry).

(** [noc_async_read] and [noc_async_read_barrier]; [host] is host memory at its PCIe addresses. *)
Definition noc_async_read (src dst size_ : Z) (f : fetcher) : fetcher :=
  with_noc (in_flight f ++ [(src, dst, size_)]) (l1 f) f.
Definition noc_async_read_barrier (host : mem) (f : fetcher) : fetcher :=
  with_noc [] (foldl (λ m '(src, dst, size_), mem_write m dst (mem_read host src size_)) (l1 f) (in_flight f)) f.

(** [if (fence < cmd_ptr) cmd_ptr = fence; fence += pending_read_size; pending_read_size = 0] *)
Definition take_pending (f : fetcher) : fetcher :=
  let cmd_ptr_ := if fence f <? cmd_ptr f then fence f else cmd_ptr f in
  with_cmd (u32 (fence f + pending_read_size f)) cmd_ptr_ 0 (stall_state f) f.

Definition set_stall (stall : StallState) (f : fetcher) : fetcher :=
  with_cmd (fence f) (cmd_ptr f) (pending_read_size f) stall f.
Definition set_pending (pending : Z) (f : fetcher) : fetcher :=
  with_cmd (fence f) (cmd_ptr f) pending (stall_state f) f.

Section fetch.
Context (a : prefetch_args) (preamble_size : Z) (host : mem).

Definition barrier_and_stall (f : fetcher) : fetcher :=
  set_stall STALLED (take_pending (noc_async_read_barrier host f)).

(** The size of the read issued, 0 if the command data queue is full. *)
Definition read_from_pcie (preamble : Z) (size_ : Z) (f : fetcher) : outcome (Z * fetcher) :=
  let wrap_cmddat := cmddat_q_end a <? u32 (u32 (fence f + size_) + preamble) in
  if wrap_cmddat && negb (cmd_ptr f =? fence f) then Ok (0, f)
  else
    let fence_ := if wrap_cmddat then cmddat_base a else fence f in
    let pcie_read_ptr_ :=
      if u32 (pcie_base a + pcie_size a) <? u32 (pcie_read_ptr f + size_) then pcie_base a else pcie_read_ptr f in
    let f := noc_async_read pcie_read_ptr_ (u32 (fence_ + preamble)) size_ f in
    let pcie_read_ptr_ := u32 (pcie_read_ptr_ + size_) in
    let index := entry_index a (prefetch_q_rd_ptr f) in
    _ ← at_ (prefetch_q f) index;
    let rd_ptr := u32 (prefetch_q_rd_ptr f + sizeof_prefetch_q_entry) in
    let rd_ptr := if rd_ptr =? prefetch_q_end a then prefetch_q_base a else rd_ptr in
    Ok (u32 (size_ + preamble),
        mk_fetcher fence_ (cmd_ptr f) pcie_read_ptr_ (pending_read_size f) rd_ptr (stall_state f)
          (<[index := 0]> (prefetch_q f)) (prefetch_q_rd_ptr f) pcie_read_ptr_ (in_flight f) (l1 f)).

(** [*prefetch_q_rd_ptr] as a size in bytes and a stall flag *)
Definition read_entry (f : fetcher) : outcome (Z * bool) :=
  entry ← at_ (prefetch_q f) (entry_index a (prefetch_q_rd_ptr f));
  Ok (Z.shiftl (Z.land entry (2 ^ 32 - 1 - prefetch_q_msb_mask)) prefetch_q_log_minsize,
      negb (Z.land entry prefetch_q_msb_mask =? 0)).

Definition stall_of (stall_flag : bool) : StallState := if stall_flag then STALL_NEXT else NOT_STALLED.

(** Nothing is ready and a read is pending: wait for it and look at the host again. *)
Definition fetch_after_barrier (f : fetcher) : outcome fetcher :=
  let f := take_pending (noc_async_read_barrier host f) in
  '(fetch_size, stall_flag) ← read_entry f;
  if fetch_size =? 0 then Ok f
  else
    let f := set_stall (stall_of stall_flag) f in
    if stall_flag then
      '(pending, f) ← read_from_pcie 0 fetch_size f;
      let f := set_pending pending f in
      Ok (if pending =? 0 then f else barrier_and_stall f)
    else
      '(pending, f) ← read_from_pcie preamble_size fetch_size f;
      Ok (set_pending pending f).

(** The boolean is [false] when the routine spins on an empty prefetch queue; it then
    calls itself, which is a call in the state returned. *)
Definition fetch_q_get_cmds (f : fetcher) : outcome (fetcher * bool) :=
  if decide (stall_state f = STALLED) then
    _ ← check (pending_read_size f =? 0) TT_ASSERT;
    Ok (f, true)
  else
    let cmd_ptr_ := if fence f <? cmd_ptr f then fence f else cmd_ptr f in
    let f := with_cmd (fence f) cmd_ptr_ (pending_read_size f) (stall_state f) f in
    let cmd_ready := negb (cmd_ptr f =? fence f) in
    '(fetch_size, stall_flag) ← read_entry f;
    let f := set_stall (stall_of stall_flag) f in
    '(f, stalled) ←
      (if negb (fetch_size =? 0) && (pending_read_size f =? 0) then
         '(pending, f) ← read_from_pcie preamble_size fetch_size f;
         let f := set_pending pending f in
         Ok (if stall_flag && negb (pending =? 0) then (barrier_and_stall f, true) else (f, false))
       else Ok (f, false));
    if stalled || cmd_ready then Ok (f, true)
    else if negb (pending_read_size f =? 0) then f ← fetch_after_barrier f; Ok (f, true)
    else Ok (f, false).
End fetch.

(** The main loop of [kernel_main_hd] moves [cmd_ptr] past each command it processed. *)
Definition advance (stride : Z) (f : fetcher) : fetcher :=
  with_cmd (fence f) (u32 (cmd_ptr f + stride)) (pending_read_size f) (stall_state f) f.
(** Processing an [EXEC_BUF] command ends the stall. *)
Definition end_stall (f : fetcher) : fetcher := set_stall NOT_STALLED f.

(** ** Start-up (tt_metal/impl/device/device.cpp)
    The compile-time arguments of the kernel, and its state when it starts: the host has
    cleared the prefetch queue and set the two words it reads. *)
Definition prefetch_compile_args (m : SystemMemoryManager) (channel : Z) (cq_id : nat) : outcome prefetch_args :=
  let command_queue_start_addr := get_absolute_cq_offset channel (Z.of_nat cq_id) (cq_size m) in
  let cq_start := get_host_command_queue_addr (hal_ m) HOST_UNRESERVED in
  issue_queue_size ← get_issue_queue_size cq_id m;
  q_base ← get_device_command_queue_addr (constants m) DEV_UNRESERVED;
  Ok (mk_args (u32 (command_queue_start_addr + cq_start)) issue_queue_size q_base
        (prefetch_q_size (constants m)) (cmddat_q_base (constants m)) (cmddat_q_size (constants m))).

Definition fetcher_start (a : prefetch_args) (prefetch_q_entries_ : Z) (l1_ : mem) : fetcher :=
  mk_fetcher (cmddat_base a) (cmddat_base a) (pcie_base a) 0 (prefetch_q_base a) NOT_STALLED
    (replicate (Z.to_nat prefetch_q_entries_) 0) (u32 (prefetch_q_base a + prefetch_q_bytes a)) (pcie_base a) [] l1_.
