(* ===== verification/CommandStream.v ===== *)
(** * The command stream: host and prefetcher together

    One command queue of the host ([SystemMemoryManager]) and the prefetcher
    that serves it, as a transition system.  The host sends a command the way
    command_queue.cpp does everywhere: reserve in the issue region, write the
    data in pieces, push, reserve in the prefetch queue, write the entry.  The
    prefetcher fetches and processes.  [sent] and [consumed] only record what
    the host was given to send and what the prefetcher's command processor saw. *)
From S2P Require Import Prelude CommandQueue Prefetcher.

Inductive host_phase :=
| Idle
| Reserving (size_ : Z) (stall : bool).  (* in [fetch_queue_reserve_back] *)

Record system := mk_system {
  manager : SystemMemoryManager;
  hugepage : mem;                 (* from [cq_sysmem_start] *)
  phase : host_phase;
  device : fetcher;
  sent : list (list Z * bool);
  consumed : list Z
}.

(** Host memory as the device addresses it. *)
Definition host_view (m : SystemMemoryManager) (hugepage_ : mem) : mem := λ a, hugepage_ (a - channel_offset m).

(** [cq_write] of each piece in turn, [write_ptr] moving along. *)
Fixpoint write_pieces (pieces : list (list Z)) (write_ptr : Z) (s : SystemMemoryManager * mem)
  : outcome (SystemMemoryManager * mem) :=
  match pieces with
  | [] => Ok s
  | piece :: pieces =>
    s ← cq_write piece (Z.of_nat (length piece)) write_ptr s;
    write_pieces pieces (u32 (write_ptr + Z.of_nat (length piece))) s
  end.

(** Reserve, write and push one command. *)
Definition issue_command (cq_id : nat) (pieces : list (list Z)) (s : SystemMemoryManager * mem)
  : outcome (SystemMemoryManager * mem) :=
  let size_ := Z.of_nat (length (concat pieces)) in
  '(_, m) ← issue_queue_reserve size_ cq_id s.1;
  write_ptr ← get_issue_queue_write_ptr cq_id m;
  '(m, hugepage_) ← write_pieces pieces write_ptr (m, s.2);
  '(m, _) ← issue_queue_push_back size_ cq_id m;
  Ok (m, hugepage_).

(** The device's memory after the host's writes to the prefetch queue. *)
Definition apply_effects (a : prefetch_args) (effects : list effect) (f : fetcher) : fetcher :=
  foldl (λ f e, match e with
                | prefetch_q_write address value => with_queue (<[entry_index a address := value]> (prefetch_q f)) f
                | _ => f
                end) f effects.

(** What a caller hands over: whole pieces, not too many bytes, not none. *)
Record command_ok (m : SystemMemoryManager) (pieces : list (list Z)) : Prop := mk_command_ok {
  co_pieces : Forall (λ p, Z.of_nat (length p) mod host_alignment (hal_ m) = 0) pieces;
  co_size : 0 < Z.of_nat (length (concat pieces)) <= max_prefetch_command_size (constants m)
}.

Section system.
Context (a : prefetch_args) (cq_id : nat).

Inductive step : system → system → Prop :=
| host_issue m h d sent_ consumed_ pieces stall m' h' :
  command_ok m pieces →
  issue_command cq_id pieces (m, h) = Ok (m', h') →
  step (mk_system m h Idle d sent_ consumed_)
       (mk_system m' h' (Reserving (Z.of_nat (length (concat pieces))) stall) d
          (sent_ ++ [(concat pieces, stall)]) consumed_)
| host_wait m h d sent_ consumed_ size_ stall m' :
  fetch_queue_reserve_back [rd_ptr_word d] cq_id m = Ok (m', false) →
  step (mk_system m h (Reserving size_ stall) d sent_ consumed_)
       (mk_system m' h (Reserving size_ stall) d sent_ consumed_)
| host_announce m h d sent_ consumed_ size_ stall m' m'' effects :
  fetch_queue_reserve_back [rd_ptr_word d] cq_id m = Ok (m', true) →
  fetch_queue_write size_ cq_id stall m' = Ok (m'', effects) →
  step (mk_system m h (Reserving size_ stall) d sent_ consumed_)
       (mk_system m'' h Idle (apply_effects a effects d) sent_ consumed_)
| device_fetch m h p d sent_ consumed_ d' ready :
  fetch_q_get_cmds a 0 (host_view m h) d = Ok (d', ready) →
  step (mk_system m h p d sent_ consumed_) (mk_system m h p d' sent_ consumed_)
| device_process m h p d sent_ consumed_ stride exec_buf :
  (* a command lies in the fetched data; the data of a stalled fetch end the stall, nothing else does *)
  0 < stride <= fence d - cmd_ptr d →
  (stall_state d = STALLED → cmd_ptr d + stride = fence d → exec_buf = true) →
  (exec_buf = true → stall_state d = STALLED) →
  step (mk_system m h p d sent_ consumed_)
       (mk_system m h p ((if exec_buf : bool then end_stall else id) (advance stride d)) sent_
          (consumed_ ++ mem_read (l1 d) (cmd_ptr d) stride)).

Definition reachable (s0 s : system) : Prop := rtc step s0 s.
End system.

Definition start (m : SystemMemoryManager) (a : prefetch_args) (hugepage_ l1_ : mem) : system :=
  mk_system m hugepage_ Idle (fetcher_start a (prefetch_q_entries (constants m)) l1_) [] [].
