(* ===== verification/CommandStreamHost.v ===== *)
(** * Where a ring puts commands of varying size

    A command that does not fit before the end of the ring goes to its start;
    a command that ends exactly there sends the next one to the start too.
    The commands of a window are apart if the ring holds one command more. *)
From S2P Require Import Prelude CommandQueue CommandQueueProps Prefetcher CommandStream.
Section ring.
Context (cap M : Z).

Definition place (p s : Z) : Z := if cap <? p + s then 0 else p.
(** The position after a command that ends at [e]. *)
Definition wrap_end (e : Z) : Z := if cap <=? e then 0 else e.
Definition advance_ring (p s : Z) : Z := wrap_end (place p s + s).

(** The position after the commands of the given sizes. *)
Definition ring_pos (sizes : list Z) : Z := foldl advance_ring 0 sizes.

(** The regions of the commands from position [p] on. *)
Fixpoint regions (p : Z) (sizes : list Z) : list (Z * Z) :=
  match sizes with [] => [] | s :: sizes => (place p s, s) :: regions (advance_ring p s) sizes end.

Definition fits (s : Z) : Prop := 0 < s <= M.

Lemma place_bounds p s : 0 <= p → 0 < s <= cap → 0 <= place p s ∧ place p s + s <= cap ∧ place p s <= p.
Proof. intros. unfold place. case_bool; lia. Qed.

Lemma wrap_end_bounds e : 0 <= e <= cap → 0 < cap → 0 <= wrap_end e < cap ∧ wrap_end e <= e.
Proof. intros. unfold wrap_end. case_bool; lia. Qed.

Lemma advance_ring_bounds p s : 0 <= p → 0 < s <= cap → 0 <= advance_ring p s < cap ∧ advance_ring p s <= p + s.
Proof.
  intros Hp Hs. destruct (place_bounds p s Hp Hs) as (H1 & H2 & H3).
  unfold advance_ring. destruct (wrap_end_bounds (place p s + s)); lia.
Qed.

Lemma ring_pos_app l1 l2 : ring_pos (l1 ++ l2) = foldl advance_ring (ring_pos l1) l2.
Proof. apply foldl_app. Qed.

Lemma ring_pos_snoc l s : ring_pos (l ++ [s]) = advance_ring (ring_pos l) s.
Proof. by rewrite ring_pos_app. Qed.

Context (HM : 0 < M <= cap).

Lemma ring_pos_bounds sizes : Forall fits sizes → 0 <= ring_pos sizes < cap.
Proof.
  induction sizes as [|s sizes IH] using rev_ind; [unfold ring_pos; simpl; lia|].
  intros [H1 H2]%Forall_app. rewrite ring_pos_snoc. apply advance_ring_bounds; [apply IH, H1|].
  rewrite Forall_singleton in H2. unfold fits in H2. lia.
Qed.

Lemma length_regions p sizes : length (regions p sizes) = length sizes.
Proof. revert p; induction sizes as [|s sizes IH]; intros p; simpl; [done|by rewrite IH]. Qed.

Lemma regions_lookup p sizes j s :
  sizes !! j = Some s → regions p sizes !! j = Some (place (foldl advance_ring p (take j sizes)) s, s).
Proof.
  revert p j; induction sizes as [|s' sizes IH]; intros p j Hj; [done|].
  destruct j as [|j]; [by injection Hj as ->|]. simpl in Hj |- *. by apply IH.
Qed.

(** No region ends further on than the sizes allow. *)
Lemma regions_end p sizes j o s :
  0 <= p → Forall fits sizes → regions p sizes !! j = Some (o, s) → 0 <= o ∧ o + s <= p + (Z.of_nat j + 1) * M.
Proof.
  revert p j; induction sizes as [|s' sizes IH]; intros p j Hp Hf Hj; [done|].
  apply Forall_cons in Hf as [Hs Hf]. unfold fits in Hs.
  pose proof (place_bounds p s' Hp ltac:(lia)). destruct j as [|j].
  - injection Hj as <- <-. change (Z.of_nat 0 + 1) with 1. lia.
  - simpl in Hj. pose proof (advance_ring_bounds p s' Hp ltac:(lia)).
    destruct (IH (advance_ring p s') j ltac:(lia) Hf Hj). nia.
Qed.

(** A region after a command that ends at [e] starts after it, or lies in the next lap,
    [b] commands after [e] having reached the end of the ring. *)
Lemma regions_after e sizes j o s :
  0 <= e <= cap → Forall fits sizes → regions (wrap_end e) sizes !! j = Some (o, s) →
  e <= o ∨ ∃ b, 0 <= b <= Z.of_nat j ∧ o + s <= (Z.of_nat j + 1 - b) * M ∧ cap - (b + 1) * M < e.
Proof.
  revert e j; induction sizes as [|s' sizes IH]; intros e j He Hf Hj; [done|].
  apply Forall_cons in Hf as [Hs Hf]. unfold fits in Hs.
  pose proof (wrap_end_bounds e He ltac:(lia)) as Hw.
  destruct (decide (e <= place (wrap_end e) s')) as [Hfit|Hwrap].
  - destruct j as [|j]; [injection Hj as <- <-; by left|]. simpl in Hj. unfold advance_ring in Hj.
    pose proof (place_bounds (wrap_end e) s' ltac:(lia) ltac:(lia)).
    destruct (IH (place (wrap_end e) s' + s') j ltac:(lia) Hf Hj) as [Ho|(b & Hb & Hend & Hlast)]; [left; lia|right].
    exists (b + 1). nia.
  - right. exists 0. split; [lia|].
    assert (Hlast : cap - M < e).
    { unfold place, wrap_end in Hwrap. revert Hwrap. case_bool; lia. }
    split; [|lia]. assert (H0 : place (wrap_end e) s' = 0).
    { unfold place, wrap_end in *. revert Hwrap. case_bool; lia. }
    destruct j as [|j]; [injection Hj as <- <-; rewrite H0; change (Z.of_nat 0 + 1 - 0) with 1; lia|].
    simpl in Hj. unfold advance_ring in Hj. rewrite H0 in Hj.
    pose proof (wrap_end_bounds (0 + s') ltac:(lia) ltac:(lia)).
    destruct (regions_end (wrap_end (0 + s')) sizes j o s ltac:(lia) Hf Hj). nia.
Qed.

Definition apart (r1 r2 : Z * Z) : Prop := r1.1 + r1.2 <= r2.1 ∨ r2.1 + r2.2 <= r1.1.

Lemma regions_apart_head p s sizes j r :
  0 <= p → fits s → Forall fits sizes → (Z.of_nat (length sizes) + 2) * M <= cap →
  regions (advance_ring p s) sizes !! j = Some r → apart (place p s, s) r.
Proof.
  intros Hp Hs Hf Hroom Hj. destruct r as [o s']. unfold fits in Hs.
  pose proof (place_bounds p s Hp ltac:(lia)). pose proof (lookup_lt_Some _ _ _ Hj) as Hlt.
  rewrite length_regions in Hlt. unfold advance_ring in Hj. unfold apart. simpl.
  destruct (regions_after (place p s + s) sizes j o s' ltac:(lia) Hf Hj) as [Ho|(b & Hb & Hend & Hlast)]; [by left|right]. nia.
Qed.

(** The regions [i] and [j] of a list of commands, [i] at most [n] before [j]. *)
Lemma regions_apart n sizes i j ri rj :
  Forall fits sizes → (Z.of_nat n + 2) * M <= cap → (i < j ≤ i + n)%nat →
  regions 0 sizes !! i = Some ri → regions 0 sizes !! j = Some rj → apart ri rj.
Proof.
  intros Hf Hroom Hij Hi Hj.
  pose proof (lookup_lt_Some _ _ _ Hi) as Hil. pose proof (lookup_lt_Some _ _ _ Hj) as Hjl.
  rewrite length_regions in Hil, Hjl.
  destruct (lookup_lt_is_Some_2 _ _ Hil) as [si Hsi]. destruct (lookup_lt_is_Some_2 _ _ Hjl) as [sj Hsj].
  rewrite (regions_lookup _ _ _ _ Hsi) in Hi. injection Hi as <-.
  rewrite (regions_lookup _ _ _ _ Hsj) in Hj. injection Hj as <-.
  pose proof (take_drop_middle sizes i si Hsi) as Hsplit.
  assert (Hfi : fits si) by (eapply Forall_lookup_1; eauto).
  set (rest := take (j - i) (drop (S i) sizes)).
  apply (regions_apart_head _ si rest (j - i - 1)).
  - rewrite <- Hsplit in Hf. apply Forall_app in Hf as [Hf _]. by apply ring_pos_bounds in Hf as [? _].
  - done.
  - by apply Forall_take, Forall_drop.
  - unfold rest. rewrite length_take. nia.
  - assert (Hrest : rest !! (j - i - 1)%nat = Some sj).
    { unfold rest. rewrite lookup_take_lt, lookup_drop by lia. rewrite <- Hsj. f_equal. lia. }
    rewrite (regions_lookup _ _ _ _ Hrest). do 3 f_equal.
    unfold rest. rewrite take_take, take_drop_commute. replace ((j - i - 1) `min` (j - i))%nat with (j - i - 1)%nat by lia.
    replace (S i + (j - i - 1))%nat with j by lia.
    change (advance_ring (foldl advance_ring 0 (take i sizes)) si) with (foldl advance_ring (foldl advance_ring 0 (take i sizes)) [si]).
    rewrite <- !foldl_app. f_equal.
    pose proof (take_drop_middle (take j sizes) i si ltac:(by rewrite lookup_take_lt by lia)) as Hmid.
    rewrite take_take in Hmid. replace (i `min` j)%nat with i in Hmid by lia. exact Hmid.
Qed.
End ring.

(** * The command stream: what the host's operations do

    [host_at] describes the host's queue by the numbers that matter: the
    position in the issue region and the two pointers of the prefetch queue. *)
(** The layout of one command queue: alignment, entries of the prefetch queue, largest
    command, the issue region, the channel's offset, the prefetch queue and the command
    data queue. *)
Record layout := mk_layout {
  la : Z; ln : Z; lm : Z; lsize : Z; lbase : Z; loffset : Z; lq : Z; lc : Z; lcsize : Z
}.

Record layout_ok (L : layout) : Prop := mk_layout_ok {
  lo_align : host_aligned (la L);
  lo_entries : 2 <= ln L <= 1534;
  lo_command : 0 < lm L <= 131072;
  lo_room : (ln L + 2) * lm L <= lsize L;
  lo_base : 0 <= lbase L ∧ lbase L mod la L = 0 ∧ lsize L mod la L = 0;
  lo_end : lbase L + lsize L + lm L < 2 ^ 32;
  lo_offset : 0 <= loffset L <= lbase L ∧ loffset L mod 64 = 0;
  lo_queue : 0 <= lq L ∧ lq L + 2 * ln L < 2 ^ 32;
  lo_cmddat : 0 <= lc L ∧ lm L <= lcsize L ∧ lc L + lcsize L + lm L < 2 ^ 32
}.

Section host.
Context (L : layout) (HL : layout_ok L) (cq_id : nat).

Record host_at (m : SystemMemoryManager) (pos qptr qfence : Z) : Prop := mk_host_at {
  ha_bypass : bypass_enable m = false;
  ha_align : host_alignment (hal_ m) = la L;
  ha_offset : channel_offset m = loffset L;
  ha_command : max_prefetch_command_size (constants m) = lm L;
  ha_entries : prefetch_q_entries (constants m) = ln L;
  ha_queue : get_device_command_queue_addr (constants m) DEV_UNRESERVED = Ok (lq L);
  ha_interface : ∃ i, cq_interfaces m !! cq_id = Some i ∧ u32 (cq_start i + offset i) = lbase L
    ∧ issue_fifo_limit i * 16 = lbase L + lsize L ∧ issue_fifo_wr_ptr i * 16 = lbase L + pos;
  ha_ptr : prefetch_q_dev_ptrs m !! cq_id = Some qptr;
  ha_fence : prefetch_q_dev_fences m !! cq_id = Some qfence;
  ha_pos : pos mod la L = 0
}.

Lemma host_at_set m pos qptr qfence i i' pos' :
  host_at m pos qptr qfence → cq_interfaces m !! cq_id = Some i →
  cq_start i' = cq_start i → offset i' = offset i → issue_fifo_limit i' = issue_fifo_limit i →
  issue_fifo_wr_ptr i' * 16 = lbase L + pos' → pos' mod la L = 0 →
  host_at (set_interface cq_id i' m) pos' qptr qfence.
Proof.
  intros [? ? ? ? ? ? (i0 & Hi0 & Hs & Hl & _) ? ? ?] Hi H1 H2 H3 H4 H5. rewrite Hi in Hi0. injection Hi0 as <-.
  split; try done. exists i'. rewrite H1, H2, H3. split; [|done]. simpl.
  apply list_lookup_insert_eq. by eapply lookup_lt_Some.
Qed.

Lemma mod_zero : 0 mod la L = 0.
Proof. apply Z.mod_0_l. destruct (lo_align L HL); lia. Qed.

Lemma mod_add_zero x y : x mod la L = 0 → y mod la L = 0 → (x + y) mod la L = 0.
Proof. intros Hx Hy. rewrite Z.add_mod, Hx, Hy by (destruct (lo_align L HL); lia). apply mod_zero. Qed.

Lemma start_16 x : 0 <= x → x mod la L = 0 → Z.shiftr x 4 * 16 = x.
Proof.
  intros Hx Hm. rewrite Z.shiftr_div_pow2 by done. change (2 ^ 4) with 16.
  destruct (lo_align L HL) as [Ha|Ha]; rewrite Ha in Hm; Z.to_euclidean_division_equations; lia.
Qed.

Lemma shiftl_16 x : 0 <= x → x * 16 < 2 ^ 32 → u32 (Z.shiftl x 4) = x * 16.
Proof. intros. rewrite Z.shiftl_mul_pow2 by done. apply u32_small. change (2 ^ 4) with 16. lia. Qed.

Definition size_ok (s : Z) : Prop := 0 < s <= lm L ∧ s mod la L = 0.

Lemma align_size s : size_ok s → align s (la L) = s.
Proof.
  intros [Hs Hm]. pose proof (lo_command L HL). apply align_multiple; [apply HL|lia|done|lia].
Qed.

Lemma write_ptr_spec m pos qptr qfence :
  host_at m pos qptr qfence → 0 <= pos <= lsize L → get_issue_queue_write_ptr cq_id m = Ok (lbase L + pos).
Proof.
  intros [Hb ? ? ? ? ? (i & Hi & _ & _ & Hp) ? ? ?] Hpos. pose proof (lo_end L HL). pose proof (lo_base L HL).
  pose proof (lo_command L HL).
  unfold get_issue_queue_write_ptr, interface_at. rewrite Hb, (at_some _ _ _ Hi). cbn [mbind outcome_bind].
  f_equal. rewrite shiftl_16; lia.
Qed.

Lemma reserve_spec m pos qptr qfence s :
  host_at m pos qptr qfence → 0 <= pos < lsize L → size_ok s →
  ∃ m' r, issue_queue_reserve s cq_id m = Ok (r, m') ∧ host_at m' (place (lsize L) pos s) qptr qfence
    ∧ r = lbase L + place (lsize L) pos s - loffset L.
Proof.
  intros Hm Hpos Hs. pose proof Hm as [Hb Ha Ho _ _ _ (i & Hi & Hst & Hl & Hp) _ _ Hpm].
  pose proof (lo_end L HL). destruct (lo_base L HL) as (Hb0 & Hba & Hsa). pose proof (lo_command L HL).
  pose proof (lo_offset L HL). destruct Hs as [Hs Hsm].
  unfold issue_queue_reserve. rewrite Hb, (write_ptr_spec m pos qptr qfence) by (done || lia).
  cbn [mbind outcome_bind]. unfold get_issue_queue_limit, interface_at. rewrite (at_some _ _ _ Hi).
  cbn [mbind outcome_bind]. rewrite Ha, align_size by done. rewrite shiftl_16, Hl by lia.
  rewrite (u32_small (_ + s)) by lia. unfold place. destruct (Z.ltb_spec (lbase L + lsize L) (lbase L + pos + s)).
  - unfold wrap_issue_queue_wr_ptr, interface_at. rewrite Hb, (at_some _ _ _ Hi). cbn [mbind outcome_bind].
    set (m' := set_interface _ _ _).
    assert (Hm' : host_at m' 0 qptr qfence).
    { eapply host_at_set; [done|done|done|done|done| |]; simpl. unfold issue_fifo_start. rewrite Hst, start_16 by done. lia.
      apply Z.mod_0_l. destruct (lo_align L HL); lia. }
    rewrite (write_ptr_spec m' 0 qptr qfence) by (done || lia). cbn [mbind outcome_bind].
    exists m'. eexists. split; [done|]. rewrite (proj2 (Z.ltb_lt _ _)) by lia. split; [done|].
    rewrite (ha_offset _ _ _ _ Hm'). apply u32_small. lia.
  - cbn [mbind outcome_bind]. exists m. eexists. split; [done|]. rewrite (proj2 (Z.ltb_ge _ _)) by lia. split; [done|].
    rewrite Ho. apply u32_small. lia.
Qed.

Lemma write_pieces_spec m pos qptr qfence pieces p h :
  host_at m pos qptr qfence → Forall (λ p, Z.of_nat (length p) mod la L = 0) pieces →
  loffset L <= p → p mod la L = 0 → p + Z.of_nat (length (concat pieces)) < 2 ^ 32 →
  ∃ h', write_pieces pieces p (m, h) = Ok (m, h') ∧ mem_eq h' (mem_write h (p - loffset L) (concat pieces)).
Proof.
  intros Hm Hps. pose proof (lo_offset L HL) as [[Hoff0 _] Hoff]. revert p h; induction Hps as [|piece pieces Hp Hps IH]; intros p h Hop Hpa Hfit.
  - exists h. split; [done|]. intros x. symmetry. apply mem_write_outside. simpl. lia.
  - cbn [write_pieces concat] in Hfit |- *. rewrite length_app, Nat2Z.inj_add in Hfit. unfold cq_write.
    rewrite (ha_bypass _ _ _ _ Hm), (ha_offset _ _ _ _ Hm), (u32_small (p - _)) by (pose proof (lo_offset L HL); lia).
    assert (Hpo : (p - loffset L) mod 32 = 0 ∧ Z.of_nat (length piece) mod 4 = 0).
    { destruct (lo_align L HL) as [Ha|Ha]; rewrite Ha in *; split; Z.to_euclidean_division_equations; lia. }
    destruct Hpo as [Hpo Hl4].
    destruct (memcpy_spec (p - loffset L) piece (Z.of_nat (length piece)) h (or_introl Hpo) Hl4 ltac:(lia)) as (h1 & Hcp & Heq).
    rewrite Hcp. cbn [mbind outcome_bind]. unfold bytes_from in Heq. rewrite Nat2Z.id, drop_0, firstn_all in Heq.
    destruct (IH (u32 (p + Z.of_nat (length piece))) h1) as (h' & Hw & Heq').
    + rewrite u32_small by lia. lia.
    + rewrite u32_small by lia. by apply mod_add_zero.
    + rewrite u32_small by lia. lia.
    + exists h'. split; [exact Hw|]. rewrite Heq', Heq. rewrite u32_small by lia. intros x.
      replace (p + Z.of_nat (length piece) - loffset L) with ((p - loffset L) + Z.of_nat (length piece)) by lia.
      apply mem_write_app.
Qed.

Lemma push_spec m pos qptr qfence s :
  host_at m pos qptr qfence → 0 <= pos → pos + s <= lsize L → size_ok s →
  ∃ m' e, issue_queue_push_back s cq_id m = Ok (m', e) ∧ host_at m' (wrap_end (lsize L) (pos + s)) qptr qfence.
Proof.
  intros Hm Hpos Hfit Hs. pose proof Hm as [Hb Ha Ho _ _ _ (i & Hi & Hst & Hl & Hp) _ _ Hpm].
  pose proof (lo_end L HL). destruct (lo_base L HL) as (Hb0 & Hba & Hsa). pose proof (lo_command L HL).
  destruct (proj1 Hs) as [Hs0 Hs1].
  unfold issue_queue_push_back, interface_at. rewrite Hb, (at_some _ _ _ Hi), Ha, align_size by done. cbn [mbind outcome_bind].
  assert (H16 : Z.shiftr s 4 * 16 = s) by (apply start_16; [lia|apply Hs]).
  rewrite (u32_small (_ + Z.shiftr s 4)) by lia.
  unfold wrap_end. destruct (Z.leb_spec (issue_fifo_limit i) (issue_fifo_wr_ptr i + Z.shiftr s 4));
    (do 2 eexists; split; [done|]).
  - rewrite (proj2 (Z.leb_le _ _)) by lia. eapply host_at_set; try done; simpl.
    unfold issue_fifo_start. rewrite Hst, start_16 by done. lia.
  - rewrite (proj2 (Z.leb_gt _ _)) by lia. eapply host_at_set; try done; simpl; [lia|].
    by apply mod_add_zero; [|apply Hs].
Qed.

Lemma issue_command_spec m h pos qptr qfence pieces :
  host_at m pos qptr qfence → 0 <= pos < lsize L → command_ok m pieces →
  let s := Z.of_nat (length (concat pieces)) in
  size_ok s ∧
  ∃ m' h', issue_command cq_id pieces (m, h) = Ok (m', h')
    ∧ host_at m' (advance_ring (lsize L) pos s) qptr qfence
    ∧ mem_eq h' (mem_write h (lbase L + place (lsize L) pos s - loffset L) (concat pieces)).
Proof.
  intros Hm Hpos [Hps Hsz] s. rewrite (ha_align _ _ _ _ Hm) in Hps. rewrite (ha_command _ _ _ _ Hm) in Hsz.
  assert (Hs : size_ok s).
  { split; [done|]. unfold s. clear - Hps HL. destruct (lo_align L HL) as [Ha|Ha]; rewrite Ha in *;
      induction Hps as [|p ps Hp _ IH]; [done| |done|]; simpl; rewrite length_app, Nat2Z.inj_add, Z.add_mod, Hp, IH by lia; done. }
  split; [done|]. pose proof (lo_end L HL). destruct (lo_base L HL) as (Hb0 & Hba & Hsa). pose proof (lo_command L HL).
  pose proof (lo_room L HL). pose proof (lo_entries L HL). pose proof (lo_offset L HL). destruct (proj1 Hs) as [Hs0 Hs1].
  destruct (place_bounds (lsize L) pos s ltac:(lia) ltac:(nia)) as (Hp0 & Hp1 & _).
  unfold issue_command. cbn [fst snd]. fold s.
  destruct (reserve_spec m pos qptr qfence s Hm Hpos Hs) as (m1 & r & -> & Hm1 & _). cbn [mbind outcome_bind].
  rewrite (write_ptr_spec m1 _ _ _ Hm1) by lia. cbn [mbind outcome_bind].
  destruct (write_pieces_spec m1 _ qptr qfence pieces (lbase L + place (lsize L) pos s) h Hm1 Hps) as (h' & -> & Hh).
  - lia.
  - apply mod_add_zero; [done|]. apply (ha_pos _ _ _ _ Hm1).
  - lia.
  - cbn [mbind outcome_bind].
    destruct (push_spec m1 _ qptr qfence s Hm1 ltac:(lia) ltac:(lia) Hs) as (m2 & e & -> & Hm2).
    exists m2, h'. done.
Qed.

(** ** The prefetch queue *)
Definition slots : nat := Z.to_nat (ln L).
Definition slot (j : nat) : Z := lq L + 2 * Z.of_nat (j mod slots).
Definition queue_end : Z := lq L + 2 * ln L.
(** The word the device shows after [d] entries. *)
Definition rd_word (d : nat) : Z := match d with O => queue_end | S d => slot d end.

(** The host, having announced [h] commands and seen [f] of them taken, has room. *)
Definition room (h f : nat) : Prop := match f with O => (h ≤ slots)%nat | S f => (h ≤ f + slots)%nat end.
Definition qptr_ok (h f : nat) (qptr : Z) : Prop :=
  (qptr = slot h ∧ (h = 0 ∨ h mod slots ≠ 0 ∨ 0 < f)%nat) ∨ ((0 < h ∧ h mod slots = 0)%nat ∧ qptr = queue_end).

Lemma slots_pos : (2 ≤ slots)%nat ∧ Z.of_nat slots = ln L.
Proof. unfold slots. pose proof (lo_entries L HL). lia. Qed.

Lemma slot_range j : lq L <= slot j < queue_end ∧ slot j + 2 <= queue_end.
Proof.
  unfold slot, queue_end. destruct slots_pos as [H2 He]. pose proof (Nat.mod_upper_bound j slots ltac:(lia)). lia.
Qed.

Lemma slot_eq i j : slot i = slot j ↔ (i mod slots = j mod slots)%nat.
Proof. unfold slot. lia. Qed.

(** Counters that share a slot are a whole number of laps apart. *)
Lemma same_slot i j : (i ≤ j)%nat → (i mod slots = j mod slots)%nat → i = j ∨ (i + slots ≤ j)%nat.
Proof.
  intros Hij Hm. destruct slots_pos as [H2 _].
  pose proof (Nat.div_mod i slots ltac:(lia)). pose proof (Nat.div_mod j slots ltac:(lia)).
  destruct (decide (i / slots = j / slots)%nat) as [He|He]; [left; nia|right; nia].
Qed.

Lemma slot_next h : slot h + 2 = (if (S h mod slots =? 0)%nat then queue_end else slot (S h)).
Proof.
  destruct slots_pos as [H2 He]. unfold slot, queue_end.
  pose proof (Nat.mod_upper_bound h slots ltac:(lia)) as Hb. pose proof (Nat.div_mod h slots ltac:(lia)) as Hd.
  destruct (decide (S (h mod slots) = slots)) as [Hl|Hl].
  - assert (S h mod slots = 0)%nat as ->; [|simpl; lia].
    rewrite Hd at 1. replace (S (slots * (h / slots) + h mod slots))%nat with (0 + S (h / slots) * slots)%nat by nia.
    rewrite Nat.Div0.mod_add. by apply Nat.Div0.mod_0_l.
  - assert (S h mod slots = S (h mod slots))%nat as ->; [|simpl; lia].
    rewrite Hd at 1. replace (S (slots * (h / slots) + h mod slots))%nat with (S (h mod slots) + (h / slots) * slots)%nat by lia.
    rewrite Nat.Div0.mod_add. apply Nat.mod_small. lia.
Qed.

Lemma room_mono h f d : (f ≤ d)%nat → room h f → room h d.
Proof. unfold room. destruct f, d; lia. Qed.

(** An entry is free if the pointer is not where the fence is. *)
Lemma room_next h f : (f ≤ h)%nat → room h f → qptr_ok h f (slot h) → slot h ≠ rd_word f → room (S h) f.
Proof.
  intros Hf Hr Hq Hne. destruct slots_pos as [H2 He]. destruct f as [|f]; simpl in *.
  - destruct Hq as [[_ Hq]|[_ Hq]]; [|pose proof (slot_range h); lia].
    destruct (decide (h = slots)) as [->|]; [|lia]. rewrite Nat.Div0.mod_same in Hq. lia.
  - destruct (decide (h = f + slots)%nat) as [->|]; [|lia].
    exfalso. apply Hne, slot_eq. rewrite <- (Nat.mul_1_l slots) at 1. apply Nat.Div0.mod_add.
Qed.

(** What the first loop of [fetch_queue_reserve_back] leaves. *)
Lemma wait_spec ptr f d :
  ∃ f' rest, (f' = f ∧ rest = [rd_word d] ∧ ptr ≠ rd_word f ∨ f' = d ∧ rest = [])
    ∧ wait_for_fetch_q_space [rd_word d] ptr (rd_word f) = (rd_word f', rest, negb (ptr =? rd_word f')).
Proof.
  simpl. destruct (Z.eqb_spec ptr (rd_word f)) as [He|He].
  - exists d, []. split; [by right|]. by destruct (Z.eqb_spec ptr (rd_word d)).
  - exists f, [rd_word d]. split; [by left|]. by destruct (Z.eqb_spec ptr (rd_word f)).
Qed.

Lemma host_at_queue m pos qptr qfence qptr' qfence' :
  host_at m pos qptr qfence →
  host_at (with_prefetch_q (<[cq_id := qptr']> (prefetch_q_dev_ptrs m)) (<[cq_id := qfence']> (prefetch_q_dev_fences m)) m)
    pos qptr' qfence'.
Proof.
  intros [? ? ? ? ? ? ? Hp Hf ?]. split; try done; simpl; apply list_lookup_insert_eq; by eapply lookup_lt_Some.
Qed.

(** One poll of [fetch_queue_reserve_back]: it ends only with room for an entry; it goes on
    only after seeing all the device has done. *)
Lemma reserve_back_spec m pos qptr h f d :
  host_at m pos qptr (rd_word f) → qptr_ok h f qptr → (f ≤ d ≤ h)%nat → room h f →
  ∃ m' f' qptr' done_, fetch_queue_reserve_back [rd_word d] cq_id m = Ok (m', done_)
    ∧ host_at m' pos qptr' (rd_word f') ∧ (f ≤ f' ≤ d)%nat ∧ room h f' ∧ qptr_ok h f' qptr'
    ∧ (if done_ then qptr' = slot h ∧ room (S h) f' else f' = d ∧ qptr' = rd_word d).
Proof.
  intros Hm Hq Hfd Hr. pose proof Hm as [Hb _ _ _ Hn Hbase _ Hp Hf _]. pose proof (lo_queue L HL) as [Hlq Hlq2].
  pose proof (lo_entries L HL) as Hln.
  unfold fetch_queue_reserve_back. rewrite Hb, (at_some _ _ _ Hp), (at_some _ _ _ Hf). cbn [mbind outcome_bind].
  destruct (wait_spec qptr f d) as (f1 & rest & Hrest & ->). cbv beta iota.
  assert (Hf1 : (f ≤ f1 ≤ d)%nat) by (destruct Hrest as [(-> & _)|[-> _]]; lia).
  assert (Hr1 : room h f1) by (eapply room_mono; [|exact Hr]; lia).
  assert (Hq1 : qptr_ok h f1 qptr) by (destruct Hq as [[-> ?]|?]; [left; split; [done|lia]|by right]).
  destruct (Z.eqb_spec qptr (rd_word f1)) as [He|He]; cbn [negb].
  { do 4 eexists. split; [done|]. split; [by eapply host_at_queue|].
    destruct Hrest as [(-> & _ & ?)|[-> _]]; [done|]. split_and!; try done; lia. }
  rewrite Hbase. cbn [mbind outcome_bind]. rewrite Hn. unfold sizeof_prefetch_q_entry.
  rewrite (u32_small (ln L * 2)), (u32_small (lq L + _)) by lia.
  destruct (Z.eqb_spec qptr (lq L + ln L * 2)) as [Hend|Hend].
  - (* at the end of the queue: the second loop *)
    assert (Hf0 : (0 < f1)%nat) by (destruct f1; [exfalso; apply He; simpl; unfold queue_end; lia|lia]).
    assert (Hz : (0 < h ∧ h mod slots = 0)%nat).
    { destruct Hq as [[-> _]|[? _]]; [|done]. pose proof (slot_range h). unfold queue_end in *. lia. }
    assert (Hslot : slot h = lq L) by (unfold slot; rewrite (proj2 Hz); lia).
    assert (Hfin : ∀ f', (f1 ≤ f' ≤ d)%nat → room h f' ∧ qptr_ok h f' (lq L)).
    { intros f' Hf'. split; [eapply room_mono; [|exact Hr1]; lia|left; split; [done|lia]]. }
    destruct Hrest as [(-> & -> & _)|[-> ->]].
    + destruct (wait_spec (lq L) f d) as (f2 & rest2 & Hrest2 & ->). cbv beta iota.
      assert (Hf2 : (f ≤ f2 ≤ d)%nat) by (destruct Hrest2 as [(-> & _)|[-> _]]; lia).
      destruct (Hfin f2 ltac:(lia)) as [Hr2 Hq2]. do 4 eexists. split; [done|]. split; [by eapply host_at_queue|].
      destruct (Z.eqb_spec (lq L) (rd_word f2)) as [He2|He2]; cbn [negb].
      * destruct Hrest2 as [(-> & _ & ?)|[-> _]]; [done|]. split_and!; try done; lia.
      * split_and!; try done; try lia. apply room_next; [lia|done|by rewrite Hslot|by rewrite Hslot].
    + destruct (Hfin d ltac:(lia)) as [Hr2 Hq2]. simpl. destruct (Z.eqb_spec (lq L) (rd_word d)) as [He2|He2];
        (do 4 eexists; split; [done|]; split; [by eapply host_at_queue|]).
      * split_and!; try done; lia.
      * split_and!; try done; try lia. apply room_next; [lia|done|by rewrite Hslot|by rewrite Hslot].
  - assert (qptr = slot h) as ->.
    { destruct Hq as [[-> _]|[_ ->]]; [done|]. unfold queue_end in Hend. lia. }
    do 4 eexists. split; [done|]. split; [by eapply host_at_queue|]. split_and!; try done; try lia.
    apply room_next; [lia|done|done|done].
Qed.

(** A size and a flag as an entry of the queue. *)
Definition entry_of (s : Z) (stall : bool) : Z := s / 16 + (if stall then 2 ^ 15 else 0).

Lemma entry_or_stall e : 0 <= e < 2 ^ 15 → Z.lor e (Z.shiftl 1 15) = e + 2 ^ 15.
Proof. intros He. rewrite Z.lor_comm, lor_shiftl by lia. lia. Qed.

Lemma fetch_queue_write_spec m pos qfence h s stall :
  host_at m pos (slot h) qfence → size_ok s →
  ∃ m', fetch_queue_write s cq_id stall m = Ok (m', [prefetch_q_write (slot h) (entry_of s stall)])
    ∧ host_at m' pos (slot h + 2) qfence.
Proof.
  intros Hm Hs. pose proof Hm as [Hb _ _ Hc _ _ _ Hp Hf _]. destruct (proj1 Hs) as [Hs0 Hs1].
  pose proof (lo_command L HL). pose proof (lo_queue L HL). pose proof (slot_range h).
  unfold fetch_queue_write, PREFETCH_Q_LOG_MINSIZE. rewrite Hc, Hb, (proj2 (Z.leb_le s _)) by done. cbn [check mbind outcome_bind].
  rewrite Z.shiftr_div_pow2 by done. change (2 ^ 4) with 16.
  assert (Hd : 0 <= s / 16 <= 8192) by (Z.to_euclidean_division_equations; lia).
  rewrite (proj2 (Z.ltb_lt _ _)) by lia. cbn [check mbind outcome_bind].
  rewrite (u16_small (s / 16)), (at_some _ _ _ Hp) by lia. cbn [mbind outcome_bind].
  unfold sizeof_prefetch_q_entry, queue_end in *. rewrite (u32_small (slot h + 2)) by lia.
  eexists. split.
  - unfold entry_of. destruct stall; [|by rewrite Z.add_0_r].
    rewrite entry_or_stall, u16_small by (change (2 ^ 15) with 32768; lia). done.
  - destruct Hm as [? ? ? ? ? ? ? ? ? ?]. split; try done. simpl. apply list_lookup_insert_eq. by eapply lookup_lt_Some.
Qed.
End host.
