(* ===== verification/CommandStreamDevice.v ===== *)
(** * The command stream: what the prefetcher does

    [device_at] describes the prefetcher by three counters: the commands read
    completely, those whose read was issued and those the host announced. *)
From S2P Require Import Prelude CommandQueue CommandQueueProps CommandStreamHost Prefetcher CommandStream.

(** The compile-time arguments of a layout. *)
Definition args_of (L : layout) : prefetch_args := mk_args (lbase L) (lsize L) (lq L) (ln L * 2) (lc L) (lcsize L).

(** Sizes of the commands, and their data. *)
Definition size_of (c : list Z * bool) : Z := Z.of_nat (length c.1).
Definition sizes (cmds : list (list Z * bool)) : list Z := size_of <$> cmds.
Definition bytes (cmds : list (list Z * bool)) : list Z := concat (fst <$> cmds).

Lemma bytes_app l1 l2 : bytes (l1 ++ l2) = bytes l1 ++ bytes l2.
Proof. unfold bytes. by rewrite fmap_app, concat_app. Qed.

Lemma bytes_take_S cmds j c : cmds !! j = Some c → bytes (take (S j) cmds) = bytes (take j cmds) ++ c.1.
Proof. intros Hc. rewrite (take_S_r _ _ _ Hc), bytes_app. unfold bytes. simpl. by rewrite app_nil_r. Qed.

Section device.
Context (L : layout) (HL : layout_ok L).
Abbreviation a := (args_of L).
Abbreviation cmddat_end := (lc L + lcsize L).

Context (cmds : list (list Z * bool)) (Hcmds : Forall (λ c, size_ok L (size_of c)) cmds).

(** Where command [j] lies in the issue region. *)
Definition region_of (j : nat) (s : Z) : Z := place (lsize L) (ring_pos (lsize L) (take j (sizes cmds))) s.

Record queue_at (d h : nat) (f : fetcher) : Prop := mk_queue_at {
  qa_rd : prefetch_q_rd_ptr f = slot L d;
  qa_word : rd_ptr_word f = rd_word L d;
  qa_pcie : ∃ e, pcie_read_ptr f = lbase L + e ∧ 0 <= e <= lsize L
    ∧ wrap_end (lsize L) e = ring_pos (lsize L) (take d (sizes cmds));
  qa_len : length (prefetch_q f) = slots L;
  qa_entries : ∀ j c, (d ≤ j < h)%nat → cmds !! j = Some c →
    prefetch_q f !! (j mod slots L)%nat = Some (entry_of (size_of c) c.2);
  qa_free : ∀ k, (k < slots L)%nat → (∀ j, (d ≤ j < h)%nat → (j mod slots L)%nat ≠ k) → prefetch_q f !! k = Some 0
}.

(** The command data queue: what was consumed and what is left of [c] commands. *)
Record data_at (c : nat) (consumed : list Z) (f : fetcher) : Prop := mk_data_at {
  da_cmd : lc L <= cmd_ptr f <= cmddat_end;
  da_fence : lc L <= fence f <= cmddat_end;
  da_bytes : consumed ++ mem_read (l1 f) (cmd_ptr f) (fence f - cmd_ptr f) = bytes (take c cmds)
}.

(** Command [c] is on its way to the fence. *)
Record flight_of (c : nat) (f : fetcher) : Prop := mk_flight {
  fl_read : ∃ cmd, cmds !! c = Some cmd ∧ in_flight f = [(lbase L + region_of c (size_of cmd), fence f, size_of cmd)]
    ∧ pending_read_size f = size_of cmd ∧ fence f + size_of cmd <= cmddat_end
}.

Definition idle_noc (f : fetcher) : Prop := in_flight f = [] ∧ pending_read_size f = 0.

Lemma cmd_size j c : cmds !! j = Some c → size_ok L (size_of c).
Proof. intros Hc. rewrite Forall_lookup in Hcmds. by eapply Hcmds. Qed.

Lemma entry_index_slot j : entry_index a (slot L j) = (j mod slots L)%nat.
Proof. unfold entry_index, slot, sizeof_prefetch_q_entry. simpl. replace (_ - _) with (Z.of_nat (j mod slots L) * 2) by lia. rewrite Z.div_mul; lia. Qed.

Lemma read_entry_some d h f c :
  queue_at d h f → (d < h)%nat → cmds !! d = Some c → read_entry a f = Ok (size_of c, c.2).
Proof.
  intros Hq Hd Hc. destruct (cmd_size _ _ Hc) as [Hs Hm]. pose proof (lo_command L HL).
  unfold read_entry. rewrite (qa_rd _ _ _ Hq), entry_index_slot, (at_some _ _ _ (qa_entries _ _ _ Hq d c ltac:(lia) Hc)).
  cbn [mbind outcome_bind]. unfold entry_of, prefetch_q_msb_mask, prefetch_q_log_minsize.
  assert (H16 : size_of c / 16 * 16 = size_of c).
  { destruct (lo_align L HL) as [Ha|Ha]; rewrite Ha in Hm; Z.to_euclidean_division_equations; lia. }
  assert (Hr : 0 <= size_of c / 16 < 2 ^ 15) by (change (2 ^ 15) with 32768; lia).
  set (e := size_of c / 16) in *.
  assert (Hlow : ∀ b : bool, Z.land (e + (if b then 2 ^ 15 else 0)) (2 ^ 32 - 1 - Z.shiftl 1 15) = e
                  ∧ Z.land (e + (if b then 2 ^ 15 else 0)) (Z.shiftl 1 15) = (if b then 2 ^ 15 else 0)).
  { intros b. replace (e + (if b then 2 ^ 15 else 0)) with (Z.lor (Z.shiftl (Z.b2z b) 15) e)
      by (rewrite lor_shiftl by lia; destruct b; simpl; lia).
    replace e with (e mod 2 ^ 15) at 1 2 3 by (by apply Z.mod_small).
    split; apply Z.bits_inj'; intros i Hi; rewrite Z.land_spec, Z.lor_spec.
    - change (2 ^ 32 - 1 - Z.shiftl 1 15) with (Z.lor (Z.shiftl (Z.ones 16) 16) (Z.ones 15)). rewrite Z.lor_spec.
      destruct (Z.lt_ge_cases i 15).
      + rewrite Z.shiftl_spec_low, Z.ones_spec_low, orb_true_r, andb_true_r by lia. done.
      + rewrite Z.mod_pow2_bits_high by lia. rewrite orb_false_r. destruct (decide (i = 15)) as [->|]; [by rewrite andb_false_r|].
        rewrite Z.shiftl_spec_high by lia. destruct b; simpl Z.b2z; [|by rewrite Z.bits_0].
        rewrite (Z.bits_above_log2 1) by (simpl; lia). done.
    - destruct (Z.lt_ge_cases i 15).
      + rewrite (Z.shiftl_spec_low 1), andb_false_r by lia. destruct b; [|by rewrite Z.bits_0].
        symmetry. apply Z.pow2_bits_false. lia.
      + rewrite Z.mod_pow2_bits_high, orb_false_r, !Z.shiftl_spec_high by lia.
        destruct b; simpl Z.b2z; [|by rewrite !Z.bits_0]. rewrite andb_diag.
        change (2 ^ 15) with (Z.shiftl 1 15). by rewrite Z.shiftl_spec_high by lia. }
  destruct (Hlow c.2) as [-> ->]. rewrite Z.shiftl_mul_pow2 by done. change (2 ^ 4) with 16. rewrite H16.
  do 2 f_equal. by destruct c.2.
Qed.

Lemma read_entry_none d f : queue_at d d f → read_entry a f = Ok (0, false).
Proof.
  intros Hq. destruct (slots_pos L HL) as [H2 _]. unfold read_entry. rewrite (qa_rd _ _ _ Hq), entry_index_slot.
  rewrite (at_some _ _ 0); [done|]. apply (qa_free _ _ _ Hq); [|lia]. by apply Nat.mod_upper_bound; lia.
Qed.

Lemma place_wrap_end e s : 0 <= e <= lsize L → 0 < s <= lsize L → place (lsize L) (wrap_end (lsize L) e) s = place (lsize L) e s.
Proof. intros He Hs. unfold place, wrap_end. case_bool; lia. Qed.

(** One read issued, or none because the command data queue is full. *)
Lemma read_from_pcie_spec d h f c :
  queue_at d h f → (d < h)%nat → (h ≤ d + slots L)%nat → cmds !! d = Some c → lc L <= fence f <= cmddat_end →
  ∃ n f', read_from_pcie a 0 (size_of c) f = Ok (n, f')
    ∧ ((n = 0 ∧ f' = f ∧ cmd_ptr f ≠ fence f)
       ∨ (n = size_of c ∧ queue_at (S d) h f'
          ∧ in_flight f' = in_flight f ++ [(lbase L + region_of d (size_of c), fence f', size_of c)]
          ∧ lc L <= fence f' ∧ fence f' + size_of c <= cmddat_end
          ∧ cmd_ptr f' = cmd_ptr f ∧ l1 f' = l1 f ∧ stall_state f' = stall_state f
          ∧ (fence f' = fence f ∨ cmd_ptr f = fence f ∧ fence f' = lc L))).
Proof.
  intros Hq Hd Hh Hc Hfence. destruct (cmd_size _ _ Hc) as [Hs Hm]. pose proof (lo_command L HL).
  pose proof (lo_cmddat L HL) as (Hlc & Hlm & Hlend). pose proof (lo_base L HL) as (Hb0 & _). pose proof (lo_end L HL).
  pose proof (lo_room L HL). pose proof (lo_entries L HL). pose proof (lo_queue L HL) as [Hlq Hlq2].
  destruct (qa_pcie _ _ _ Hq) as (e & He & Her & Hepos). set (s := size_of c) in *.
  assert (Hroom : s <= lsize L) by nia.
  assert (Hplace : place (lsize L) e s = region_of d s) by (unfold region_of; by rewrite <- Hepos, place_wrap_end by lia).
  destruct (place_bounds (lsize L) e s ltac:(lia) ltac:(lia)) as (Hp0 & Hp1 & _).
  assert (Hpcie : (if lbase L + lsize L <? lbase L + e + s then lbase L else lbase L + e) = lbase L + region_of d s).
  { rewrite <- Hplace. unfold place. case_bool; lia. }
  unfold read_from_pcie, cmddat_q_end, prefetch_q_end. rewrite !Z.add_0_r.
  cbn [cmddat_base cmddat_size args_of pcie_base pcie_size prefetch_q_base prefetch_q_bytes].
  rewrite u32_u32, (u32_small (fence f + s)), (u32_small (lc L + lcsize L)) by lia.
  rewrite He, (u32_small (lbase L + e + s)), (u32_small (lbase L + lsize L)), (u32_small (lq L + _)), Hpcie by lia.
  destruct ((cmddat_end <? fence f + s) && negb (cmd_ptr f =? fence f)) eqn:Hfull.
  { apply andb_true_iff in Hfull as [_ Hne%negb_true_iff%Z.eqb_neq]. do 2 eexists. split; [done|by left]. }
  set (F := if cmddat_end <? fence f + s then lc L else fence f).
  assert (HF : lc L <= F ∧ F + s <= cmddat_end ∧ (F = fence f ∨ cmd_ptr f = fence f ∧ F = lc L)).
  { unfold F. revert Hfull. destruct (Z.ltb_spec cmddat_end (fence f + s)), (Z.eqb_spec (cmd_ptr f) (fence f));
      simpl; intros; try done; split_and!; try lia; auto. }
  destruct HF as (HF0 & HF1 & HF2). rewrite (u32_small F), (u32_small s) by lia.
  rewrite Hplace in Hp1. rewrite Hplace in Hp0. rewrite (u32_small (lbase L + region_of d s + s)) by lia.
  unfold noc_async_read. cbn [with_noc prefetch_q_rd_ptr prefetch_q cmd_ptr pending_read_size stall_state in_flight l1].
  rewrite (qa_rd _ _ _ Hq), entry_index_slot.
  rewrite (at_some _ _ _ (qa_entries _ _ _ Hq d c ltac:(lia) Hc)). cbn [mbind outcome_bind].
  pose proof (slot_range L HL d) as Hslot. pose proof (slot_next L HL d) as Hnext. unfold queue_end in Hslot.
  unfold sizeof_prefetch_q_entry. rewrite (u32_small (slot L d + 2)) by lia.
  do 2 eexists. split; [reflexivity|]. right. split; [done|]. split; [|split_and!; done || (cbn; lia)].
  split; cbn [prefetch_q_rd_ptr rd_ptr_word pcie_read_ptr prefetch_q].
  - rewrite Hnext. destruct (Nat.eqb_spec (S d mod slots L) 0) as [Hz|Hz].
    + unfold queue_end. rewrite (proj2 (Z.eqb_eq _ _)) by lia. unfold slot. rewrite Hz. lia.
    + pose proof (slot_range L HL (S d)). unfold queue_end in *. by rewrite (proj2 (Z.eqb_neq _ _)) by lia.
  - done.
  - exists (region_of d s + s). split; [lia|]. split; [lia|].
    rewrite (take_S_r _ _ s) by (unfold sizes; by rewrite list_lookup_fmap, Hc).
    by rewrite ring_pos_snoc.
  - by rewrite length_insert, (qa_len _ _ _ Hq).
  - intros j cj Hj Hcj. rewrite list_lookup_insert_ne; [by apply (qa_entries _ _ _ Hq); [lia|]|].
    intros Heq. destruct (same_slot L HL d j ltac:(lia) Heq); lia.
  - intros k Hk Hno. destruct (decide (k = d mod slots L)%nat) as [->|Hne].
    + apply list_lookup_insert_eq. by rewrite (qa_len _ _ _ Hq).
    + rewrite list_lookup_insert_ne by done. apply (qa_free _ _ _ Hq); [done|]. intros j Hj.
      destruct (decide (j = d)) as [->|]; [done|]. apply Hno. lia.
Qed.

Lemma queue_at_ext d h f f' :
  prefetch_q_rd_ptr f' = prefetch_q_rd_ptr f → rd_ptr_word f' = rd_ptr_word f →
  pcie_read_ptr f' = pcie_read_ptr f → prefetch_q f' = prefetch_q f → queue_at d h f → queue_at d h f'.
Proof. intros H1 H2 H3 H4 [? ? ? ? ? ?]. split; by rewrite ?H1, ?H2, ?H3, ?H4. Qed.

Lemma data_at_ext c consumed_ f f' :
  cmd_ptr f' = cmd_ptr f → fence f' = fence f → l1 f' = l1 f → data_at c consumed_ f → data_at c consumed_ f'.
Proof. intros H1 H2 H3 [? ? ?]. split; by rewrite ?H1, ?H2, ?H3. Qed.

Context (host : mem).
(** Host memory still holds command [j]. *)
Definition holds (j : nat) : Prop :=
  ∀ c, cmds !! j = Some c → mem_read host (lbase L + region_of j (size_of c)) (size_of c) = c.1.

Lemma mem_read_nil m p n : n <= 0 → mem_read m p n = [].
Proof. clear. intros Hn. unfold mem_read. by rewrite seqZ_nil. Qed.

(** The pending read arrives: the data of one more command are ready. *)
Lemma take_pending_spec c d h consumed_ f :
  flight_of c f → data_at c consumed_ f → holds c → queue_at d h f →
  let f' := take_pending (noc_async_read_barrier host f) in
  idle_noc f' ∧ data_at (S c) consumed_ f' ∧ cmd_ptr f' < fence f' ∧ stall_state f' = stall_state f ∧ queue_at d h f'.
Proof.
  intros [(cmd & Hcmd & Hin & Hpend & Hfit)] [Hcp Hfe Hby] Hholds Hq f'.
  destruct (cmd_size _ _ Hcmd) as [Hs _]. pose proof (lo_cmddat L HL) as (Hlc & Hlm & Hlend). pose proof (lo_command L HL).
  set (s := size_of cmd) in *.
  assert (Hl1 : l1 f' = mem_write (l1 f) (fence f) cmd.1).
  { unfold f', take_pending, noc_async_read_barrier. rewrite Hin. simpl.
    pose proof (Hholds cmd Hcmd) as Hhc. fold s in Hhc. by rewrite Hhc. }
  assert (Hfence : fence f' = fence f + s).
  { unfold f', take_pending, noc_async_read_barrier. simpl. rewrite Hpend, u32_small; lia. }
  assert (Hcmdp : cmd_ptr f' = Z.min (cmd_ptr f) (fence f)).
  { unfold f', take_pending, noc_async_read_barrier. simpl. case_bool; lia. }
  split; [done|]. split; [|split; [lia|split; [done|by eapply queue_at_ext; [..|exact Hq]]]].
  split; [lia|lia|]. rewrite (bytes_take_S _ _ _ Hcmd), <- Hby, <- app_assoc. f_equal.
  rewrite Hl1, Hfence, Hcmdp.
  assert (Hdata : mem_read (mem_write (l1 f) (fence f) cmd.1) (fence f) s = cmd.1) by apply mem_read_write_same.
  destruct (Z.le_ge_cases (cmd_ptr f) (fence f)).
  - rewrite Z.min_l by done. replace (fence f + s - cmd_ptr f) with ((fence f - cmd_ptr f) + s) by lia.
    rewrite mem_read_app by lia. f_equal; [apply mem_read_write_disjoint; lia|].
    by replace (cmd_ptr f + (fence f - cmd_ptr f)) with (fence f) by lia.
  - rewrite Z.min_r by done. replace (fence f + s - fence f) with s by lia. rewrite Hdata.
    by rewrite (mem_read_nil _ (cmd_ptr f)) by lia.
Qed.

(** ** [fetch_q_get_cmds] *)
Record device_at (c d h : nat) (consumed_ : list Z) (f : fetcher) : Prop := mk_device_at {
  dv_queue : queue_at d h f;
  dv_data : data_at c consumed_ f;
  dv_ready : cmd_ptr f <= fence f;
  dv_flight : (d = c ∧ idle_noc f) ∨ (d = S c ∧ flight_of c f);
  dv_stalled : stall_state f = STALLED → d = c ∧ cmd_ptr f < fence f
}.

(** After a read was issued in a state without pending reads. *)
Lemma issued_flight c h consumed_ f n f' cmd :
  cmds !! c = Some cmd → data_at c consumed_ f → cmd_ptr f <= fence f → idle_noc f →
  in_flight f' = in_flight f ++ [(lbase L + region_of c (size_of cmd), fence f', size_of cmd)] →
  lc L <= fence f' → fence f' + size_of cmd <= cmddat_end → cmd_ptr f' = cmd_ptr f → l1 f' = l1 f →
  (fence f' = fence f ∨ cmd_ptr f = fence f ∧ fence f' = lc L) → n = size_of cmd → queue_at (S c) h f' →
  flight_of c (set_pending n f') ∧ data_at c consumed_ (set_pending n f') ∧ queue_at (S c) h (set_pending n f').
Proof.
  intros Hcmd [Hcp Hfe Hby] Hready [Hin _] Hin' Hf0 Hf1 Hcp' Hl1 Hor -> Hq. rewrite Hin in Hin'.
  destruct (cmd_size _ _ Hcmd) as [Hs _].
  split; [split; by exists cmd|]. split; [|by eapply queue_at_ext; [..|exact Hq]].
  split; cbn; [lia|lia|]. rewrite Hcp', Hl1, <- Hby. f_equal. destruct Hor as [->|[He Hlc]]; [done|].
  by rewrite !mem_read_nil by lia.
Qed.

(** The part after the first barrier. *)
Lemma fetch_after_barrier_spec c h consumed_ f :
  flight_of c f → data_at c consumed_ f → queue_at (S c) h f → (S c ≤ h)%nat → (h ≤ length cmds)%nat →
  (h ≤ S c + slots L)%nat → stall_state f ≠ STALLED → (∀ j, (c ≤ j < h)%nat → holds j) →
  ∃ f' c' d', fetch_after_barrier a 0 host f = Ok f' ∧ device_at c' d' h consumed_ f' ∧ (S c ≤ c')%nat ∧ (c' ≤ d' ≤ h)%nat.
Proof.
  intros Hfl Hda Hq Hc Hh Hslots Hst Hhold.
  destruct (take_pending_spec c (S c) h consumed_ f Hfl Hda (Hhold c ltac:(lia)) Hq) as (Hidle & Hd & Hlt & Hst1 & Hq1).
  unfold fetch_after_barrier. set (f1 := take_pending _) in *. clearbody f1.
  destruct (decide (S c = h)) as [<-|Hne].
  { rewrite (read_entry_none (S c) f1 Hq1). cbn [mbind outcome_bind Z.eqb]. exists f1, (S c), (S c). split; [done|].
    split; [|lia]. split; [done|done|lia|by left|]. rewrite Hst1. done. }
  destruct (lookup_lt_is_Some_2 cmds (S c) ltac:(lia)) as [cmd Hcmd]. destruct (cmd_size _ _ Hcmd) as [Hs _].
  rewrite (read_entry_some (S c) h f1 cmd Hq1 ltac:(lia) Hcmd). cbn [mbind outcome_bind].
  rewrite (proj2 (Z.eqb_neq _ 0)) by lia.
  set (f2 := set_stall (stall_of cmd.2) f1).
  assert (Hq2 : queue_at (S c) h f2) by (by eapply queue_at_ext; [..|exact Hq1]).
  destruct (read_from_pcie_spec (S c) h f2 cmd Hq2 ltac:(lia) Hslots Hcmd (da_fence _ _ _ Hd)) as (n & f3 & Hread & Hcases).
  assert (Hnot : stall_state f2 ≠ STALLED) by (simpl; by destruct cmd.2).
  rewrite Hread. cbn [mbind outcome_bind].
  destruct Hcases as [(-> & -> & Hfull)|(Hn & Hq3 & Hin3 & Hf30 & Hf31 & Hc3 & Hl3 & Hs3 & Hor)].
  - (* no room: the entry stays *)
    assert (Hno : device_at (S c) (S c) h consumed_ (set_pending 0 f2)).
    { split; [by eapply queue_at_ext; [..|exact Hq1]|by eapply data_at_ext; [..|exact Hd]|simpl; lia| |done].
      left. split; [done|]. split; [apply Hidle|done]. }
    destruct cmd.2 eqn:Hflag; cbn [Z.eqb]; (eexists _, (S c), (S c); split; [done|]; split; [exact Hno|lia]).
  - destruct (issued_flight (S c) h consumed_ f2 n f3 cmd) as (Hfl4 & Hd4 & Hq4);
      [done|by eapply data_at_ext; [..|exact Hd]|simpl; lia|done..|].
    destruct cmd.2 eqn:Hflag.
    + rewrite (proj2 (Z.eqb_neq n 0)) by lia.
      destruct (take_pending_spec (S c) (S (S c)) h consumed_ _ Hfl4 Hd4 (Hhold (S c) ltac:(lia)) Hq4)
        as (Hidle5 & Hd5 & Hlt5 & _ & Hq5).
      eexists _, (S (S c)), (S (S c)). split; [done|]. split; [|lia]. unfold barrier_and_stall.
      split; [by eapply queue_at_ext; [..|exact Hq5]|by eapply data_at_ext; [..|exact Hd5]|simpl in *; lia|by left|].
      by intros _.
    + eexists _, (S c), (S (S c)). split; [done|]. split; [|lia].
      split; [done|done| |by right|]; simpl; rewrite ?Hs3; [|done]. simpl in *.
      destruct Hor as [->|?]; lia.
Qed.

(** The state in which the routine looks at the queue. *)
Definition looking (stall_flag : bool) (f : fetcher) : fetcher :=
  set_stall (stall_of stall_flag) (with_cmd (fence f) (if fence f <? cmd_ptr f then fence f else cmd_ptr f)
                                     (pending_read_size f) (stall_state f) f).

Lemma looking_at c d h consumed_ b f :
  device_at c d h consumed_ f →
  cmd_ptr (looking b f) = cmd_ptr f ∧ device_at c d h consumed_ (looking b f) ∧ stall_state (looking b f) ≠ STALLED.
Proof.
  intros [Hq Hd Hr Hf Hs].
  assert (Hc : cmd_ptr (looking b f) = cmd_ptr f) by (simpl; case_bool; lia).
  split; [done|]. split; [|by destruct b].
  split; [by eapply queue_at_ext; [..|exact Hq]|by eapply data_at_ext; [..|exact Hd]|by rewrite Hc| |by destruct b].
  destruct Hf as [[? ?]|[? [Hf]]]; [by left|right]. split; [done|]. by split.
Qed.

Lemma pending_iff c d h consumed_ f :
  device_at c d h consumed_ f → (pending_read_size f =? 0) = bool_decide (d = c).
Proof.
  intros [_ _ _ [[-> [_ ->]]|[-> [(cmd & Hcmd & _ & -> & _)]]] _]; [by rewrite bool_decide_true|].
  destruct (cmd_size _ _ Hcmd) as [Hs _]. rewrite bool_decide_false by lia. apply Z.eqb_neq. lia.
Qed.

Lemma read_entry_at c d h consumed_ f :
  device_at c d h consumed_ f → (d ≤ h ≤ length cmds)%nat →
  ∃ size_ flag, read_entry a f = Ok (size_, flag)
    ∧ ((d = h ∧ size_ = 0 ∧ flag = false) ∨ (d < h)%nat ∧ ∃ cmd, cmds !! d = Some cmd ∧ size_ = size_of cmd ∧ flag = cmd.2).
Proof.
  intros [Hq _ _ _ _] Hd. destruct (decide (d = h)) as [->|Hne].
  - exists 0, false. split; [by apply (read_entry_none h)|by left].
  - destruct (lookup_lt_is_Some_2 cmds d ltac:(lia)) as [cmd Hcmd]. exists (size_of cmd), cmd.2.
    split; [by apply (read_entry_some d h); [|lia|]|right]. split; [lia|by exists cmd].
Qed.

Lemma fetch_spec c d h consumed_ f :
  device_at c d h consumed_ f → (d ≤ h ≤ length cmds)%nat → (h ≤ d + slots L)%nat → (∀ j, (c ≤ j < h)%nat → holds j) →
  ∃ f' ready c' d', fetch_q_get_cmds a 0 host f = Ok (f', ready) ∧ device_at c' d' h consumed_ f'
    ∧ (c ≤ c')%nat ∧ (d ≤ d' ≤ h)%nat ∧ (cmd_ptr f = fence f → (c < h)%nat → (c < c')%nat).
Proof.
  intros Hf Hd Hslots Hhold. unfold fetch_q_get_cmds.
  destruct (decide (stall_state f = STALLED)) as [Hst|Hst].
  { destruct (dv_stalled _ _ _ _ _ Hf Hst) as [-> Hlt]. rewrite (pending_iff _ _ _ _ _ Hf), bool_decide_true by done.
    exists f, true, c, c. split; [done|]. split_and!; try done; lia. }
  set (f0 := with_cmd _ _ _ _ f).
  assert (Hre : read_entry a f0 = read_entry a f) by done.
  destruct (read_entry_at _ _ _ _ _ Hf Hd) as (size_ & flag & Hread & Hcases).
  rewrite Hre, Hread. cbn [mbind outcome_bind].
  destruct (looking_at c d h consumed_ flag f Hf) as (Hcp & Hl & Hns).
  change (set_stall (stall_of flag) f0) with (looking flag f).
  assert (Hrd : negb (cmd_ptr f0 =? fence f0) = negb (cmd_ptr f =? fence f)) by (by rewrite <- Hcp).
  rewrite Hrd, (pending_iff _ _ _ _ _ Hl). clear Hrd Hre f0. set (f1 := looking flag f) in *.
  assert (Hfe : fence f1 = fence f) by done. clearbody f1.
  assert (Hcf := dv_flight _ _ _ _ _ Hl).
  destruct Hcf as [[-> Hidle]|[-> Hfl]].
  2:{ (* a read is pending *)
      rewrite bool_decide_false, andb_false_r by lia. cbn [mbind outcome_bind orb].
      destruct (Z.eqb_spec (cmd_ptr f) (fence f)) as [Hr|Hr]; cbn [negb].
      - rewrite (pending_iff _ _ _ _ _ Hl), bool_decide_false by lia. cbn [negb].
        destruct (fetch_after_barrier_spec c h consumed_ f1) as (f' & c' & d' & -> & Hf' & Hc' & Hd');
          [done|apply Hl|apply Hl|lia|lia|done|done|done|].
        cbn [mbind outcome_bind]. exists f', true, c', d'. split; [done|]. split_and!; try done; lia.
      - exists f1, true, c, (S c). split; [done|]. split_and!; try done; lia. }
  rewrite bool_decide_true by done.
  destruct Hcases as [(-> & -> & ->)|(Hlt & cmd & Hcmd & -> & ->)].
  { cbn [Z.eqb negb andb mbind outcome_bind orb].
    destruct (negb (cmd_ptr f =? fence f)) eqn:Hr; [exists f1, true, h, h; split; [done|]; split_and!; try done; lia|].
    rewrite (pending_iff _ _ _ _ _ Hl), bool_decide_true by done. cbn [negb].
    exists f1, false, h, h. split; [done|]. split_and!; try done; lia. }
  destruct (cmd_size _ _ Hcmd) as [Hs _]. rewrite (proj2 (Z.eqb_neq (size_of cmd) 0)) by lia. cbn [negb andb].
  destruct (read_from_pcie_spec c h f1 cmd (dv_queue _ _ _ _ _ Hl) Hlt Hslots Hcmd (da_fence _ _ _ (dv_data _ _ _ _ _ Hl)))
    as (n & f2 & -> & Hres). cbn [mbind outcome_bind].
  destruct Hres as [(-> & -> & Hfull)|(Hn & Hq2 & Hin2 & Hf20 & Hf21 & Hc2 & Hl2 & Hs2 & Hor)].
  - rewrite Hcp, Hfe in Hfull. rewrite (proj2 (Z.eqb_neq (cmd_ptr f) (fence f)) Hfull). cbn [Z.eqb negb andb].
    rewrite andb_false_r. cbn [orb mbind outcome_bind]. exists (set_pending 0 f1), true, c, c. split; [done|].
    split; [|split_and!; try done; lia]. destruct Hl as [Hq1 Hd1 Hr1 Hf1 Hs1].
    split; [by eapply queue_at_ext; [..|exact Hq1]|by eapply data_at_ext; [..|exact Hd1]|done| |done].
    left. split; [done|]. split; [apply Hidle|done].
  - destruct (issued_flight c h consumed_ f1 n f2 cmd) as (Hfl3 & Hd3 & Hq3); try done; [apply Hl|apply Hl|].
    assert (Hn0 : n ≠ 0) by lia. rewrite (proj2 (Z.eqb_neq n 0) Hn0). cbn [negb]. rewrite andb_true_r.
    set (f3 := set_pending n f2) in *.
    assert (Hst3 : stall_state f3 ≠ STALLED) by (unfold f3; simpl; by rewrite Hs2).
    assert (Hp3 : pending_read_size f3 = n) by done.
    assert (Hc3 : cmd_ptr f3 = cmd_ptr f ∧ (fence f3 = fence f ∨ cmd_ptr f = fence f ∧ fence f3 = lc L)).
    { unfold f3. simpl. rewrite Hc2, Hcp. split; [done|]. rewrite Hcp, Hfe in Hor. exact Hor. }
    clearbody f3. destruct cmd.2; cbn [mbind outcome_bind orb].
    + destruct (take_pending_spec c (S c) h consumed_ f3 Hfl3 Hd3 (Hhold c ltac:(lia)) Hq3) as (Hidle4 & Hd4 & Hlt4 & _ & Hq4).
      eexists _, true, (S c), (S c). split; [done|]. split; [|split_and!; lia]. unfold barrier_and_stall.
      split; [by eapply queue_at_ext; [..|exact Hq4]|by eapply data_at_ext; [..|exact Hd4]|simpl in *; lia|by left|by intros _].
    + destruct (Z.eqb_spec (cmd_ptr f) (fence f)) as [Hr|Hr]; cbn [negb].
      * rewrite Hp3, (proj2 (Z.eqb_neq n 0) Hn0). cbn [negb].
        destruct (fetch_after_barrier_spec c h consumed_ f3) as (f' & c' & d' & -> & Hf' & Hc' & Hd');
          [done|done|done|lia|lia|lia|done|done|].
        cbn [mbind outcome_bind]. exists f', true, c', d'. split; [done|]. split_and!; try done; lia.
      * exists f3, true, c, (S c). split; [done|]. split; [|split_and!; try done; lia].
        split; [done|done| |by right|done]. destruct Hc3 as [-> [->|[? _]]]; [|lia].
        apply (dv_ready _ _ _ _ _ Hf).
Qed.
End device.
