(* ===== verification/CommandStreamInv.v ===== *)
(** * The command stream: the invariant of host and prefetcher

    [c] commands read completely, [d] reads issued, [h] commands announced and
    [f] of the reads seen by the host: [f <= d <= h], one read in flight at most.
    The commands from [c] on lie untouched in host memory, because a window of
    one command more than the prefetch queue has entries fits in the issue
    region. *)
From S2P Require Import Prelude CommandQueue CommandQueueProps CommandStreamHost Prefetcher CommandStream CommandStreamDevice CommandQueueThms.
Section invariant.
Context (L : layout) (HL : layout_ok L) (cq_id : nat).
Abbreviation a := (args_of L).

Definition phase_at (h : nat) (cmds : list (list Z * bool)) (p : host_phase) : Prop :=
  match p with
  | Idle => h = length cmds
  | Reserving size_ stall => length cmds = S h ∧ ∃ c, cmds !! h = Some c ∧ size_ = size_of c ∧ stall = c.2
  end.

Record Inv (c d h f : nat) (s : system) : Prop := mk_Inv {
  iv_cmds : Forall (λ c, size_ok L (size_of c)) (sent s);
  iv_phase : phase_at h (sent s) (phase s);
  iv_order : (f ≤ d ≤ h)%nat ∧ (c ≤ d ≤ S c)%nat;
  iv_room : room L h f;
  iv_host : ∃ qptr, host_at L cq_id (manager s) (ring_pos (lsize L) (sizes (sent s))) qptr (rd_word L f) ∧ qptr_ok L h f qptr;
  iv_device : device_at L (sent s) c d h (consumed s) (device s);
  iv_memory : ∀ j, (c ≤ j < length (sent s))%nat → holds L (sent s) (host_view (manager s) (hugepage s)) j
}.

Lemma announced_sent c d h f s : Inv c d h f s → (h ≤ length (sent s))%nat.
Proof. intros Hs. pose proof (iv_phase _ _ _ _ _ Hs) as Hp. destruct (phase s); simpl in Hp; lia. Qed.

Lemma room_slots h f d : (f ≤ d)%nat → room L h f → (h ≤ d + slots L)%nat.
Proof. destruct f; simpl; lia. Qed.

Lemma host_view_read m hp p n :
  channel_offset m = loffset L → mem_read (host_view m hp) p n = mem_read hp (p - loffset L) n.
Proof.
  intros Ho. unfold mem_read, host_view. rewrite Ho.
  apply list_eq. intros i. rewrite !list_lookup_fmap. destruct (decide (Z.of_nat i < n)).
  - rewrite !lookup_seqZ_lt by lia. simpl. f_equal. f_equal. lia.
  - by rewrite !lookup_seqZ_ge by lia.
Qed.

(** ** A command more does not change what is said of the others *)
Lemma region_of_app cmds x j s : (j ≤ length cmds)%nat → region_of L (cmds ++ [x]) j s = region_of L cmds j s.
Proof.
  intros Hj. unfold region_of, sizes. rewrite fmap_app, take_app_le by (by rewrite length_fmap). done.
Qed.

Lemma device_at_app cmds x c d h consumed_ f :
  (d ≤ h ≤ length cmds)%nat → device_at L cmds c d h consumed_ f → device_at L (cmds ++ [x]) c d h consumed_ f.
Proof.
  intros Hd [[Hrd Hw Hp Hlen He Hfr] [Hc Hf Hb] Hr Hfl Hst].
  assert (Hc' : (c ≤ d)%nat) by (destruct Hfl as [[-> _]|[-> _]]; lia).
  split; [|split| |destruct Hfl as [?|[-> Hfl]]; [by left|right]|]; try done.
  - split; try done.
    + unfold sizes. rewrite fmap_app, take_app_le by (rewrite length_fmap; lia). exact Hp.
    + intros j cmd Hj Hcmd. rewrite lookup_app_l in Hcmd by lia. by apply He.
  - rewrite take_app_le by lia. done.
  - split; [done|]. destruct Hfl as [(cmd & Hcmd & Hin & Hpend & Hfit)]. split. exists cmd.
    rewrite lookup_app_l by lia. by rewrite region_of_app by lia.
Qed.

(** ** The regions of a window *)
Lemma sizes_fit cmds : Forall (λ c, size_ok L (size_of c)) cmds → Forall (fits (lm L)) (sizes cmds).
Proof. intros Hc. apply Forall_fmap. eapply Forall_impl; [exact Hc|]. intros c [Hs _]. exact Hs. Qed.

Lemma room_enough : 0 < lm L <= lsize L ∧ (Z.of_nat (slots L) + 2) * lm L <= lsize L.
Proof.
  destruct (slots_pos L HL) as [H2 ->]. pose proof (lo_room L HL). pose proof (lo_command L HL). pose proof (lo_entries L HL). nia.
Qed.

Lemma window_apart cmds j cj x :
  Forall (λ c, size_ok L (size_of c)) cmds → size_ok L (size_of x) → cmds !! j = Some cj →
  (length cmds ≤ j + slots L)%nat →
  apart (region_of L cmds j (size_of cj), size_of cj) (region_of L cmds (length cmds) (size_of x), size_of x).
Proof.
  intros Hc Hx Hj Hw. destruct room_enough as [HM Hroom]. pose proof (lookup_lt_Some _ _ _ Hj).
  assert (Hj' : (cmds ++ [x]) !! j = Some cj) by (by rewrite lookup_app_l).
  assert (Hx' : (cmds ++ [x]) !! length cmds = Some x) by (by apply list_lookup_middle).
  rewrite <- (region_of_app cmds x j), <- (region_of_app cmds x (length cmds)) by lia.
  apply (regions_apart (lsize L) (lm L) HM (slots L) (sizes (cmds ++ [x])) j (length cmds)).
  - apply sizes_fit, Forall_app. by split; [|apply Forall_singleton].
  - done.
  - lia.
  - apply regions_lookup. unfold sizes. by rewrite list_lookup_fmap, Hj'.
  - apply regions_lookup. unfold sizes. by rewrite list_lookup_fmap, Hx'.
Qed.

(** ** The steps *)
Lemma step_issue c d h f s pieces stall :
  Inv c d h f s → phase s = Idle → command_ok (manager s) pieces →
  ∃ m' h', issue_command cq_id pieces (manager s, hugepage s) = Ok (m', h')
    ∧ Inv c d h f (mk_system m' h' (Reserving (Z.of_nat (length (concat pieces))) stall) (device s)
                     (sent s ++ [(concat pieces, stall)]) (consumed s)).
Proof.
  intros Hs Hidle Hok. pose proof Hs as [Hc Hp [Ho1 Ho2] Hr (qptr & Hm & Hq) Hd Hmem].
  rewrite Hidle in Hp. simpl in Hp.
  destruct room_enough as [HM Hroom].
  pose proof (ring_pos_bounds (lsize L) (lm L) HM (sizes (sent s)) (sizes_fit _ Hc)) as Hpos.
  set (x := (concat pieces, stall)).
  destruct (issue_command_spec L HL cq_id _ (hugepage s) _ _ _ pieces Hm Hpos Hok) as (Hsx & m' & h' & Hissue & Hm' & Hh').
  change (Z.of_nat (length (concat pieces))) with (size_of x) in *.
  exists m', h'. split; [done|]. split; cbn [manager hugepage phase device sent consumed phase_at].
  - apply Forall_app. split; [done|]. by apply Forall_singleton.
  - rewrite length_app. split; [simpl; lia|]. exists x. split; [|done]. rewrite Hp. by apply list_lookup_middle.
  - done.
  - done.
  - exists qptr. split; [|done]. unfold sizes. rewrite fmap_app. change (size_of <$> [x]) with [size_of x]. by rewrite ring_pos_snoc.
  - apply device_at_app; [lia|done].
  - intros j Hj cj Hcj. rewrite host_view_read by apply Hm'. rewrite Hh'.
    assert (Hreg : place (lsize L) (ring_pos (lsize L) (sizes (sent s))) (size_of x) = region_of L (sent s) (length (sent s)) (size_of x)).
    { unfold region_of. by rewrite take_ge by (unfold sizes; by rewrite length_fmap). }
    rewrite Hreg. rewrite length_app in Hj. simpl in Hj. rewrite region_of_app by lia.
    destruct (decide (j = length (sent s))) as [->|Hne].
    + rewrite list_lookup_middle in Hcj by done. injection Hcj as <-.
      rewrite <- Z.add_sub_assoc, Z.add_sub_assoc. apply mem_read_write_same.
    + rewrite lookup_app_l in Hcj by lia.
      rewrite mem_read_write_disjoint.
      * rewrite <- (host_view_read (manager s)) by apply Hm. apply Hmem; [lia|done].
      * change (Z.of_nat (length (concat pieces))) with (size_of x).
        destruct (window_apart (sent s) j cj x Hc Hsx Hcj) as [?|?]; [|simpl in *; lia..].
        unfold room in Hr. destruct f; lia.
Qed.

Lemma poll_spec c d h f s size_ stall :
  Inv c d h f s → phase s = Reserving size_ stall →
  ∃ m' done_, fetch_queue_reserve_back [rd_ptr_word (device s)] cq_id (manager s) = Ok (m', done_)
    ∧ if done_
      then ∃ m'' e, fetch_queue_write size_ cq_id stall m' = Ok (m'', e)
        ∧ ∃ f', Inv c d (S h) f' (mk_system m'' (hugepage s) Idle (apply_effects a e (device s)) (sent s) (consumed s))
      else Inv c d h d (mk_system m' (hugepage s) (phase s) (device s) (sent s) (consumed s)) ∧ d ≠ h.
Proof.
  intros Hs Hph. pose proof Hs as [Hc Hp [Ho1 Ho2] Hr (qptr & Hm & Hq) Hd Hmem].
  rewrite Hph in Hp |- *. destruct Hp as [Hlen (x & Hx & -> & ->)].
  destruct (slots_pos L HL) as [H2 _]. pose proof (cmd_size L (sent s) Hc _ _ Hx) as Hsx.
  pose proof (dv_queue _ _ _ _ _ _ _ Hd) as [Hrd Hw Hpc Hql He Hfr].
  rewrite Hw. destruct (reserve_back_spec L HL cq_id _ _ qptr h f d Hm Hq ltac:(lia) Hr)
    as (m' & f' & qptr' & done_ & -> & Hm' & Hf' & Hr' & Hq' & Hdone).
  exists m', done_. split; [done|]. destruct done_.
  - destruct Hdone as [-> HrS].
    destruct (fetch_queue_write_spec L HL cq_id m' _ _ h (size_of x) x.2 Hm' Hsx) as (m'' & -> & Hm'').
    do 2 eexists. split; [done|]. exists f'. unfold apply_effects. cbn [foldl].
    rewrite entry_index_slot by done.
    assert (HSd : (S h ≤ d + slots L)%nat) by (eapply room_slots; [|exact HrS]; lia).
    split; cbn [manager hugepage phase device sent consumed phase_at]; try done.
    + lia.
    + exists (slot L h + 2). split; [done|]. rewrite (slot_next L HL h).
      destruct (Nat.eqb_spec (S h mod slots L) 0); [right; split; [lia|done]|left; split; [done|lia]].
    + destruct Hd as [_ Hda Hrdy Hfl Hst].
      split; [|by destruct Hda|done| |done].
      * split; cbn [with_queue prefetch_q_rd_ptr rd_ptr_word pcie_read_ptr prefetch_q]; try done.
        -- by rewrite length_insert.
        -- intros j cj Hj Hcj. destruct (decide (j = h)) as [->|Hne].
           ++ rewrite Hx in Hcj. injection Hcj as <-. apply list_lookup_insert_eq. rewrite Hql. apply Nat.mod_upper_bound. lia.
           ++ rewrite list_lookup_insert_ne; [apply He; [lia|done]|]. intros Heq.
              destruct (same_slot L HL j h ltac:(lia) (eq_sym Heq)); lia.
        -- intros k Hk Hno. rewrite list_lookup_insert_ne by (apply (Hno h); lia). apply Hfr; [done|].
           intros j Hj. apply Hno. lia.
      * destruct Hfl as [?|[? [Hfl]]]; [by left|right; split; [done|by split]].
    + intros j Hj cj Hcj. specialize (Hmem j Hj cj Hcj).
      rewrite host_view_read in Hmem |- * by (apply Hm || apply Hm''). exact Hmem.
  - destruct Hdone as [-> ->]. split.
    + split; cbn [manager hugepage phase device sent consumed phase_at]; try done; [split; [done|by exists x]|lia|by exists (rd_word L d)|].
      intros j Hj cj Hcj. specialize (Hmem j Hj cj Hcj).
      rewrite host_view_read in Hmem |- * by (apply Hm || apply Hm'). exact Hmem.
    + intros ->. destruct h as [|h]; simpl in *.
      * destruct Hq' as [[Hq' _]|[? _]]; [|lia]. pose proof (slot_range L HL 0). lia.
      * destruct Hq' as [[Hq' _]|[_ Hq']]; [|pose proof (slot_range L HL h); lia].
        apply slot_eq in Hq'; [|done..]. destruct (same_slot L HL h (S h) ltac:(lia) Hq'); lia.
Qed.

Lemma step_fetch c d h f s :
  Inv c d h f s →
  ∃ dev ready c' d', fetch_q_get_cmds a 0 (host_view (manager s) (hugepage s)) (device s) = Ok (dev, ready)
    ∧ Inv c' d' h f (mk_system (manager s) (hugepage s) (phase s) dev (sent s) (consumed s))
    ∧ (cmd_ptr (device s) = fence (device s) → (c < h)%nat → (c < c')%nat).
Proof.
  intros Hs. pose proof (announced_sent _ _ _ _ _ Hs) as Hh. pose proof Hs as [Hc Hp [Ho1 Ho2] Hr Hm Hd Hmem].
  destruct (fetch_spec L HL (sent s) Hc (host_view (manager s) (hugepage s)) c d h (consumed s) (device s) Hd)
    as (dev & ready & c' & d' & Hf & Hd' & Hc' & Hdd & Hprog).
  - lia.
  - eapply room_slots; [|exact Hr]. lia.
  - intros j Hj. apply Hmem. lia.
  - exists dev, ready, c', d'. split; [done|]. split; [|done]. split; cbn [manager hugepage phase device sent consumed phase_at]; try done.
    + destruct (dv_flight _ _ _ _ _ _ _ Hd') as [[-> _]|[-> _]]; lia.
    + intros j Hj. apply Hmem. lia.
Qed.

Lemma step_process c d h f s stride exec_buf :
  Inv c d h f s → 0 < stride <= fence (device s) - cmd_ptr (device s) →
  (stall_state (device s) = STALLED → cmd_ptr (device s) + stride = fence (device s) → exec_buf = true) →
  Inv c d h f (mk_system (manager s) (hugepage s) (phase s)
                 ((if exec_buf : bool then end_stall else id) (advance stride (device s))) (sent s)
                 (consumed s ++ mem_read (l1 (device s)) (cmd_ptr (device s)) stride)).
Proof.
  intros Hs Hst Hex. pose proof Hs as [Hc Hp Ho Hr Hm Hd Hmem]. split; cbn [manager hugepage phase device sent consumed phase_at]; try done.
  set (dv := device s) in *. destruct Hd as [Hq [Hcp Hfe Hby] Hready Hfl Hstall].
  pose proof (lo_cmddat L HL) as (Hlc & Hlm & Hlend). pose proof (lo_command L HL).
  assert (Hadv : u32 (cmd_ptr dv + stride) = cmd_ptr dv + stride) by (apply u32_small; lia).
  assert (Hpost : device_at L (sent s) c d h (consumed s ++ mem_read (l1 dv) (cmd_ptr dv) stride) (advance stride dv)
                  ∨ exec_buf = true).
  { destruct exec_buf; [by right|left]. split; [by eapply queue_at_ext; [..|exact Hq]| |simpl; lia| |].
    - split; simpl; [lia|done|]. rewrite Hadv, <- app_assoc, <- mem_read_app by lia.
      by replace (stride + (fence dv - (cmd_ptr dv + stride))) with (fence dv - cmd_ptr dv) by lia.
    - destruct Hfl as [?|[? [Hfl]]]; [by left|right; split; [done|by split]].
    - simpl. intros Hstd. destruct (Hstall Hstd). split; [done|]. rewrite Hadv.
      destruct (decide (cmd_ptr dv + stride = fence dv)); [|lia]. by specialize (Hex Hstd e). }
  destruct exec_buf; [|by destruct Hpost].
  split; [by eapply queue_at_ext; [..|exact Hq]| |simpl; lia| |done].
  - split; simpl; [lia|done|]. rewrite Hadv, <- app_assoc, <- mem_read_app by lia.
    by replace (stride + (fence dv - (cmd_ptr dv + stride))) with (fence dv - cmd_ptr dv) by lia.
  - destruct Hfl as [?|[? [Hfl]]]; [by left|right; split; [done|by split]].
Qed.

Lemma step_Inv c d h f s s' : Inv c d h f s → step a cq_id s s' → ∃ c' d' h' f', Inv c' d' h' f' s'.
Proof.
  intros Hs Hstep. destruct Hstep.
  - destruct (step_issue _ _ _ _ _ pieces stall Hs eq_refl H) as (m1 & h1 & Hi & HI). simpl in Hi.
    rewrite H0 in Hi. injection Hi as <- <-. eauto.
  - destruct (poll_spec _ _ _ _ _ _ _ Hs eq_refl) as (m1 & b & Hi & HI). simpl in Hi.
    rewrite H in Hi. injection Hi as <- <-. destruct HI as [HI _]. eauto.
  - destruct (poll_spec _ _ _ _ _ _ _ Hs eq_refl) as (m1 & b & Hi & HI). simpl in Hi.
    rewrite H in Hi. injection Hi as <- <-. destruct HI as (m2 & e & Hw & f' & HI).
    rewrite H0 in Hw. injection Hw as <- <-. eauto.
  - destruct (step_fetch _ _ _ _ _ Hs) as (dv & r & c' & d1 & Hf & HI & _). simpl in Hf.
    rewrite H in Hf. injection Hf as <- <-. eauto.
  - do 4 eexists. by apply (step_process _ _ _ _ _ stride exec_buf Hs).
Qed.

Lemma stream_reachable_Inv s0 s :
  (∃ c d h f, Inv c d h f s0) → reachable a cq_id s0 s → ∃ c d h f, Inv c d h f s.
Proof.
  intros H0 Hr. induction Hr as [|s1 s2 s3 H12 _ IH]; [done|]. apply IH.
  destruct H0 as (c & d & h & f & H0). by eapply step_Inv.
Qed.
End invariant.

(** * The command stream: where it starts

    A manager that its constructor returned and a prefetcher with the
    compile-time arguments derived from it satisfy the invariant, for every
    queue of the manager. *)
Section start.
Context (hal : Hal) (cluster : Cluster) (ct : CoreType) (n : Z) (Hcf : config_ok hal cluster n).
Context (c : dispatch_constants) (Hc : constants_ok hal ct n c).
Context (Henough : issue_needed c <= issue_bytes hal cluster n).
Context (cq_id : nat) (Hid : Z.of_nat cq_id < n).

Definition layout_of : layout :=
  mk_layout (host_alignment hal) (prefetch_q_entries c) (max_prefetch_command_size c) (issue_bytes hal cluster n)
    (queue_base hal cluster n (Z.of_nat cq_id)) (channel_base (channel cluster)) (prefetch_base hal ct)
    (cmddat_q_base c) (cmddat_q_size c).

Lemma layout_of_ok : layout_ok layout_of.
Proof.
  pose proof (cf_platform _ _ _ Hcf) as Hp.
  destruct (constants_bounds hal cluster ct n Hcf c Hc) as (HN & HM & HP).
  destruct (queue_base_bounds hal cluster n Hcf (Z.of_nat cq_id) ltac:(lia)) as (Hb0 & Hb1 & Hb2).
  destruct (region_sizes hal cluster n Hcf) as (Hc0 & Hc4 & Hcb & Hi0 & Hi).
  destruct (channel_base_bounds hal cluster n Hcf) as [Hch Hch64]. pose proof (align_bounds hal cluster n Hcf) as (HA & _ & _ & _).
  assert (HM' : 32768 <= max_prefetch_command_size c) by (rewrite (co_command _ _ _ _ Hc); destruct ct; lia).
  pose proof (co_q_size _ _ _ _ Hc). pose proof (co_cmddat_size _ _ _ _ Hc) as Hcs. pose proof (co_scratch _ _ _ _ Hc).
  pose proof (co_scratch_size _ _ _ _ Hc). pose proof (co_l1 _ _ _ _ Hc) as Hl1. pose proof (co_cmddat _ _ _ _ Hc) as Hcd.
  assert (Hl1' : l1_size_of hal ct < 2 ^ 24) by (destruct (pf_sizes _ Hp); destruct ct; simpl; lia).
  pose proof (round_to_bounds (prefetch_q_size c) (host_alignment hal) ltac:(lia) ltac:(lia)).
  unfold issue_needed in Henough. fold (prefetch_base hal ct) in Hcd.
  split; cbn [layout_of la ln lm lsize lbase loffset lq lc lcsize].
  - apply Hp.
  - lia.
  - lia.
  - lia.
  - split_and!; [lia|done|done].
  - unfold issue_bytes in Hi0, Hb1, Henough |- *.
    remember (completion_bytes hal cluster n) as comp. remember (queue_bytes hal cluster n) as Q.
    assert (130 * max_prefetch_command_size c <= max_prefetch_command_size c * (prefetch_q_entries c + 2)) by nia.
    assert (4 * (comp + 4096) > Q - 4 * host_alignment hal) by (clear -Hcb; Z.to_euclidean_division_equations; lia).
    lia.
  - split; [lia|done].
  - lia.
  - lia.
Qed.

Lemma host_at_start m :
  built hal cluster ct n c (Z.to_nat n) m →
  host_at layout_of cq_id m 0 (prefetch_base hal ct) (rd_word layout_of 0).
Proof.
  intros Hm. destruct (queue_base_bounds hal cluster n Hcf (Z.of_nat cq_id) ltac:(lia)) as (Hb0 & Hb1 & Hb2).
  destruct (align_bounds hal cluster n Hcf) as (HA & _ & _ & HA16). destruct (region_sizes hal cluster n Hcf) as (Hc0 & Hc4 & Hcb & Hi0 & Hi).
  destruct (channel_base_bounds hal cluster n Hcf) as [Hch _].
  assert (H16 : ∀ x, x mod host_alignment hal = 0 → x / 16 * 16 = x).
  { intros x Hx. apply Z.mod_divide in Hx, HA16; [|lia..].
    pose proof (Z.divide_trans _ _ _ HA16 Hx) as Hd. apply Z.mod_divide in Hd; [|lia]. Z.to_euclidean_division_equations. lia. }
  split; cbn [layout_of la ln lm lsize lbase loffset lq lc lcsize].
  - apply Hm.
  - by rewrite (bu_hal _ _ _ _ _ _ _ Hm).
  - apply Hm.
  - by rewrite (bu_constants _ _ _ _ _ _ _ Hm).
  - by rewrite (bu_constants _ _ _ _ _ _ _ Hm).
  - rewrite (bu_constants _ _ _ _ _ _ _ Hm).
    destruct (device_addr_spec hal ct n c Hc DEV_UNRESERVED) as (x & -> & Hx). by rewrite (Hx eq_refl).
  - exists (interface_of hal cluster n (Z.of_nat cq_id)). rewrite (bu_interfaces _ _ _ _ _ _ _ Hm), list_lookup_fmap, lookup_seq_lt by lia.
    cbn [fmap option_fmap option_map interface_of cq_start offset issue_fifo_limit issue_fifo_wr_ptr]. split_and!.
    + done.
    + apply u32_small. unfold queue_base in *. lia.
    + apply H16. apply Z.mod_divide in Hb2, Hi; [|lia..]. apply Z.mod_divide; [lia|]. by apply Z.divide_add_r.
    + rewrite Z.add_0_r. by apply H16.
  - rewrite (bu_ptrs _ _ _ _ _ _ _ Hm). apply lookup_replicate_2. lia.
  - rewrite (bu_fences _ _ _ _ _ _ _ Hm). apply lookup_replicate_2. lia.
  - apply Z.mod_0_l. lia.
Qed.

Lemma compile_args_spec m :
  built hal cluster ct n c (Z.to_nat n) m → prefetch_compile_args m (channel cluster) cq_id = Ok (args_of layout_of).
Proof.
  intros Hm. destruct (queue_base_bounds hal cluster n Hcf (Z.of_nat cq_id) ltac:(lia)) as (Hb0 & Hb1 & _).
  destruct (channel_base_bounds hal cluster n Hcf) as [Hch _]. destruct (align_bounds hal cluster n Hcf) as (HA & _).
  destruct (region_sizes hal cluster n Hcf) as (Hc0 & _ & _ & Hi0 & _).
  unfold prefetch_compile_args.
  rewrite (issue_size_spec hal cluster ct n Hcf c cq_id m (Z.to_nat n) Hm) by lia.
  rewrite (bu_constants _ _ _ _ _ _ _ Hm), (bu_size _ _ _ _ _ _ _ Hm), (bu_hal _ _ _ _ _ _ _ Hm).
  destruct (device_addr_spec hal ct n c Hc DEV_UNRESERVED) as (x & -> & Hx). rewrite (Hx eq_refl).
  cbn [mbind outcome_bind]. rewrite (absolute_offset hal cluster n Hcf), (host_unreserved hal cluster n Hcf) by lia.
  unfold args_of. cbn [layout_of la ln lm lsize lbase loffset lq lc lcsize]. rewrite (co_q_size _ _ _ _ Hc).
  unfold queue_base in *. rewrite (u32_small (_ + 4 * _)) by lia. do 2 f_equal; lia.
Qed.

Lemma start_Inv m hugepage_ l1_ :
  built hal cluster ct n c (Z.to_nat n) m → Inv layout_of cq_id 0 0 0 0 (start m (args_of layout_of) hugepage_ l1_).
Proof.
  intros Hm. pose proof layout_of_ok as HL. pose proof (lo_cmddat _ HL) as (Hlc & Hlm & Hlend). pose proof (lo_command _ HL).
  pose proof (lo_base _ HL) as (Hb0 & _). pose proof (lo_entries _ HL). pose proof (lo_queue _ HL). pose proof (lo_end _ HL).
  pose proof (lo_room _ HL).
  assert (Hsz : 0 < lsize layout_of) by nia.
  unfold start. split; cbn [manager hugepage phase device sent consumed phase_at]; try done.
  - lia.
  - unfold room. lia.
  - exists (prefetch_base hal ct). split; [by apply host_at_start|].
    left. unfold slot. rewrite Nat.Div0.mod_0_l. split; [cbn [layout_of lq]; lia|lia].
  - unfold fetcher_start. split; cbn [cmd_ptr fence stall_state]; [| |lia|by left|done].
    + split; cbn [prefetch_q_rd_ptr rd_ptr_word pcie_read_ptr prefetch_q args_of prefetch_q_base prefetch_q_bytes pcie_base].
      * unfold slot. rewrite Nat.Div0.mod_0_l. lia.
      * cbn [rd_word]. unfold queue_end. rewrite u32_small by lia. lia.
      * exists 0. split; [lia|]. split; [lia|]. unfold wrap_end. by case_bool; [lia|].
      * rewrite length_replicate. unfold slots. cbn [layout_of ln]. by rewrite (bu_constants _ _ _ _ _ _ _ Hm).
      * intros j cmd Hj. lia.
      * intros k Hk _. apply lookup_replicate_2. rewrite (bu_constants _ _ _ _ _ _ _ Hm). exact Hk.
    + split; cbn [cmd_ptr fence l1 args_of cmddat_base]; [lia|lia|]. by rewrite mem_read_nil by lia.
Qed.
End start.
