(* ===== verification/CommandStreamProps.v ===== *)
(** * The command stream: what it guarantees

    Every theorem starts from a manager its constructor returned, the
    prefetcher's arguments derived from it, and any contents of memory. *)
From S2P Require Import Prelude CommandQueue CommandQueueProps CommandQueueThms CommandStreamHost Prefetcher CommandStream CommandStreamDevice CommandStreamInv.

(** Queue [cq_id] of a device: its manager and the arguments of its prefetcher. *)
Record booted (hal : Hal) (cluster : Cluster) (ct : CoreType) (n : Z) (m : SystemMemoryManager) (cq_id : nat)
  (a : prefetch_args) : Prop := mk_booted {
  bt_config : config_ok hal cluster n;
  bt_queue : Z.of_nat cq_id < n;
  bt_manager : constructed hal cluster ct n m;
  bt_args : prefetch_compile_args m (channel cluster) cq_id = Ok a
}.

Lemma booted_layout hal cluster ct n m cq_id a :
  booted hal cluster ct n m cq_id a →
  ∃ L, layout_ok L ∧ a = args_of L ∧ ∀ hugepage_ l1_, Inv L cq_id 0 0 0 0 (start m a hugepage_ l1_).
Proof.
  intros [Hcf Hid Hm Ha]. destruct (constructed_built _ _ _ _ _ Hcf Hm) as (c & Hc & Hb & He). exists (layout_of hal cluster ct n c cq_id).
  rewrite (compile_args_spec hal cluster ct n Hcf c Hc cq_id Hid m Hb) in Ha. injection Ha as <-.
  split; [by apply layout_of_ok|]. split; [done|]. intros. by eapply start_Inv.
Qed.

(** ** Runs that empty the stream *)
Section drain.
Context (L : layout) (HL : layout_ok L) (cq_id : nat).
Abbreviation a := (args_of L).

Definition same_host (s s' : system) : Prop := manager s' = manager s ∧ phase s' = phase s ∧ sent s' = sent s.

Lemma process_all c d h f s :
  Inv L cq_id c d h f s →
  ∃ s', rtc (step a cq_id) s s' ∧ same_host s s' ∧ Inv L cq_id c d h f s' ∧ cmd_ptr (device s') = fence (device s').
Proof.
  intros Hs. pose proof (dv_ready _ _ _ _ _ _ _ (iv_device _ _ _ _ _ _ _ Hs)) as Hready.
  destruct (decide (cmd_ptr (device s) = fence (device s))) as [He|Hne].
  { exists s. split_and!; try done. }
  set (stride := fence (device s) - cmd_ptr (device s)).
  set (exec_buf := bool_decide (stall_state (device s) = STALLED)).
  assert (Hex : exec_buf = true → stall_state (device s) = STALLED) by apply bool_decide_eq_true_1.
  assert (Hex' : stall_state (device s) = STALLED → cmd_ptr (device s) + stride = fence (device s) → exec_buf = true)
    by (intros; by apply bool_decide_eq_true_2).
  pose proof (step_process L HL cq_id c d h f s stride exec_buf Hs ltac:(lia) Hex') as Hs'.
  pose proof (da_fence _ _ _ _ _ (dv_data _ _ _ _ _ _ _ (iv_device _ _ _ _ _ _ _ Hs))) as Hf.
  pose proof (lo_cmddat L HL) as (? & ? & ?). pose proof (lo_command L HL).
  eexists. split; [|split; [|split; [exact Hs'|]]].
  - apply rtc_once. destruct s. by apply device_process; [lia|..].
  - by split.
  - cbn [device]. assert (Hadv : cmd_ptr (advance stride (device s)) = fence (device s)).
    { unfold advance. cbn [with_cmd cmd_ptr]. rewrite u32_small; lia. }
    by destruct exec_buf.
Qed.

Lemma drain c d h f s :
  Inv L cq_id c d h f s →
  ∃ d' s', rtc (step a cq_id) s s' ∧ same_host s s' ∧ Inv L cq_id h d' h f s' ∧ consumed s' = bytes (take h (sent s)).
Proof.
  intros Hs. remember (h - c)%nat as k eqn:Hk. revert c d s Hs Hk; induction k as [k IH] using lt_wf_ind; intros c d s Hs Hk.
  destruct (process_all c d h f s Hs) as (s1 & Hr1 & (Hm1 & Hp1 & Hs1) & HI1 & He1).
  pose proof (iv_order _ _ _ _ _ _ _ HI1) as [Ho1 Ho2].
  destruct (decide (c = h)) as [->|Hne].
  - exists d, s1. split_and!; try done. rewrite <- Hs1.
    pose proof (da_bytes _ _ _ _ _ (dv_data _ _ _ _ _ _ _ (iv_device _ _ _ _ _ _ _ HI1))) as <-.
    by rewrite He1, Z.sub_diag, mem_read_nil, app_nil_r by lia.
  - destruct (step_fetch L HL cq_id c d h f s1 HI1) as (dev & ready & c' & d' & Hf & HI2 & Hprog).
    destruct (iv_order _ _ _ _ _ _ _ HI2) as [Ho3 Ho4].
    destruct (decide (c < h)%nat) as [Hlt|]; [|lia]. specialize (Hprog He1 Hlt).
    destruct (IH (h - c')%nat ltac:(lia) c' d' _ HI2 eq_refl) as (d2 & s2 & Hr2 & (Hm2 & Hp2 & Hs2) & HI & Hcons).
    cbn [manager phase sent] in Hm2, Hp2, Hs2, Hcons. exists d2, s2. split_and!.
    + etrans; [exact Hr1|]. eapply rtc_l; [|exact Hr2]. destruct s1. by eapply device_fetch.
    + repeat split; congruence.
    + done.
    + by rewrite Hcons, Hs1.
Qed.

Lemma finish c d h f s :
  Inv L cq_id c d h f s →
  ∃ s', rtc (step a cq_id) s s' ∧ phase s' = Idle ∧ sent s' = sent s ∧ consumed s' = bytes (sent s).
Proof.
  intros Hs. destruct (drain c d h f s Hs) as (d1 & s1 & Hr1 & (Hm1 & Hp1 & Hs1) & HI1 & Hc1).
  pose proof (iv_phase _ _ _ _ _ _ _ HI1) as Hph. destruct (phase s1) as [|size_ stall] eqn:Hphase; simpl in Hph.
  - exists s1. split_and!; try done. rewrite Hc1, <- Hs1, Hph. by rewrite firstn_all.
  - destruct (poll_spec L HL cq_id h d1 h f s1 size_ stall HI1 Hphase) as (m' & done_ & Hpoll & Hres).
    destruct (iv_order _ _ _ _ _ _ _ HI1) as [Ho1 Ho2]. destruct done_; [|lia].
    destruct Hres as (m'' & e & Hw & f' & HI2).
    destruct (drain h d1 (S h) f' _ HI2) as (d2 & s2 & Hr2 & (Hm2 & Hp2 & Hs2) & HI & Hc2).
    cbn [manager phase sent] in Hm2, Hp2, Hs2, Hc2. exists s2. split_and!.
    + etrans; [exact Hr1|]. eapply rtc_l; [|exact Hr2]. destruct s1. simpl in *. subst. by eapply host_announce.
    + done.
    + congruence.
    + destruct Hph as [Hl _]. rewrite Hc2, Hs1. f_equal. apply take_ge. rewrite <- Hs1, Hl. lia.
Qed.
End drain.

(** ** A concrete queue *)
Definition demo_hal : Hal := mk_hal 32 16 (100 * 1024) (100 * 1024) (1464 * 1024) (256 * 1024) false.
Definition demo_cluster : Cluster := mk_cluster 0 (2 ^ 30) None [(0x1000, 0x100000)] [].
Definition demo_data : list Z := seqZ 0 64.

Lemma demo_stream_config : config_ok demo_hal demo_cluster 1.
Proof. repeat split; try done; try (by left). by repeat constructor. Qed.

Lemma demo_booted : ∃ m a, booted demo_hal demo_cluster WORKER 1 m 0 a ∧ command_ok m [take 32 demo_data; drop 32 demo_data].
Proof.
  do 2 eexists. split; [split; [exact demo_stream_config|done| |]|].
  - do 3 eexists. split; [vm_compute; reflexivity|vm_compute; reflexivity].
  - vm_compute. reflexivity.
  - split; [|done]. by repeat constructor.
Qed.

(** One command issued, announced, fetched and processed. *)
Lemma demo_stream hugepage_ l1_ :
  ∃ m a s1 s2, booted demo_hal demo_cluster WORKER 1 m 0 a
    ∧ reachable a 0 (start m a hugepage_ l1_) s1 ∧ phase s1 = Reserving 64 false ∧ consumed s1 = []
    ∧ reachable a 0 (start m a hugepage_ l1_) s2 ∧ phase s2 = Idle ∧ consumed s2 = demo_data.
Proof.
  destruct demo_booted as (m & a & Hb & Hok). destruct (booted_layout _ _ _ _ _ _ _ Hb) as (L & HL & -> & HI).
  destruct (step_issue L HL 0 _ _ _ _ _ _ false (HI hugepage_ l1_) eq_refl Hok) as (m' & h' & Hi & HI').
  destruct (finish L HL 0 _ _ _ _ _ HI') as (s' & Hr & Hp & Hs & Hc).
  do 4 eexists. split; [exact Hb|].
  assert (H1 : reachable (args_of L) 0 (start m (args_of L) hugepage_ l1_) _) by (apply rtc_once; by eapply host_issue).
  split; [exact H1|]. split; [done|]. split; [done|]. split; [unfold reachable in *; etrans; [exact H1|exact Hr]|]. split; [done|].
  rewrite Hc. done.
Qed.

(** ** The theorems *)
(** C1: Order and integrity of the command stream.  Whatever host and prefetcher do, in any
    interleaving and over any number of wraps of the issue region, the prefetch queue and the
    command data queue, the bytes the command processor saw are the first of the bytes the host
    was given to send: nothing is lost, repeated, reordered or overwritten before it is read. *)
Theorem command_stream_in_order hal cluster ct n m cq_id a hugepage_ l1_ s :
  booted hal cluster ct n m cq_id a → reachable a cq_id (start m a hugepage_ l1_) s →
  consumed s `prefix_of` bytes (sent s).
Proof.
  intros Hb Hr. destruct (booted_layout _ _ _ _ _ _ _ Hb) as (L & HL & -> & HI).
  destruct (stream_reachable_Inv L HL cq_id _ _ ltac:(do 4 eexists; apply HI) Hr) as (c & d & h & f & Hs).
  pose proof (da_bytes _ _ _ _ _ (dv_data _ _ _ _ _ _ _ (iv_device _ _ _ _ _ _ _ Hs))) as Hby.
  rewrite <- (take_drop c (sent s)), bytes_app, <- Hby, <- app_assoc. by eexists.
Qed.

Lemma command_stream_in_order_witness :
  ∃ m a s, booted demo_hal demo_cluster WORKER 1 m 0 a ∧ reachable a 0 (start m a (λ _, 0) (λ _, 0)) s
    ∧ consumed s = demo_data ∧ consumed s `prefix_of` bytes (sent s).
Proof.
  destruct (demo_stream (λ _, 0) (λ _, 0)) as (m & a & s1 & s & Hb & _ & _ & _ & Hr & _ & Hc).
  exists m, a, s. split; [done|]. split; [done|]. split; [done|].
  apply (command_stream_in_order demo_hal demo_cluster WORKER 1 m 0 a (λ _, 0) (λ _, 0) s); done.
Defined.

(** C3: No operation of the protocol fails in a reachable state: the prefetcher's routine always
    returns; an idle host can issue every well-formed command; a waiting host's poll returns and,
    when it ends the wait, the entry can be written. *)
Theorem command_stream_safe hal cluster ct n m cq_id a hugepage_ l1_ s :
  booted hal cluster ct n m cq_id a → reachable a cq_id (start m a hugepage_ l1_) s →
  (∃ d ready, fetch_q_get_cmds a 0 (host_view (manager s) (hugepage s)) (device s) = Ok (d, ready))
  ∧ match phase s with
    | Idle => ∀ pieces, command_ok (manager s) pieces →
        ∃ m' h', issue_command cq_id pieces (manager s, hugepage s) = Ok (m', h')
    | Reserving size_ stall =>
        ∃ m' ended, fetch_queue_reserve_back [rd_ptr_word (device s)] cq_id (manager s) = Ok (m', ended)
          ∧ (ended = true → ∃ m'' effects, fetch_queue_write size_ cq_id stall m' = Ok (m'', effects))
    end.
Proof.
  intros Hb Hr. destruct (booted_layout _ _ _ _ _ _ _ Hb) as (L & HL & -> & HI).
  destruct (stream_reachable_Inv L HL cq_id _ _ ltac:(do 4 eexists; apply HI) Hr) as (c & d & h & f & Hs). split.
  - destruct (step_fetch L HL cq_id _ _ _ _ _ Hs) as (dev & ready & _ & _ & Hf & _). by exists dev, ready.
  - destruct (phase s) as [|size_ stall] eqn:Hp.
    + intros pieces Hok. destruct (step_issue L HL cq_id _ _ _ _ _ pieces false Hs Hp Hok) as (m' & h' & Hi & _).
      by exists m', h'.
    + destruct (poll_spec L HL cq_id _ _ _ _ _ _ _ Hs Hp) as (m' & ended & Hpoll & Hres).
      exists m', ended. split; [done|]. intros ->. destruct Hres as (m'' & e & Hw & _). by exists m'', e.
Qed.

Lemma command_stream_safe_witness :
  ∃ m a s, booted demo_hal demo_cluster WORKER 1 m 0 a ∧ phase s = Reserving 64 false
    ∧ ∃ m' ended, fetch_queue_reserve_back [rd_ptr_word (device s)] 0 (manager s) = Ok (m', ended).
Proof.
  destruct (demo_stream (λ _, 0) (λ _, 0)) as (m & a & s & s2 & Hb & Hr & Hp & _).
  exists m, a, s. split; [done|]. split; [done|].
  pose proof (proj2 (command_stream_safe demo_hal demo_cluster WORKER 1 m 0 a (λ _, 0) (λ _, 0) s Hb Hr)) as H.
  rewrite Hp in H. destruct H as (m' & ended & H & _). by exists m', ended.
Defined.

(** C2: The protocol never gets stuck.  From every reachable state a run of the prefetcher and of
    the waiting host leads to a state in which the host is idle again and every byte it was given
    has been processed. *)
Theorem command_stream_delivers hal cluster ct n m cq_id a hugepage_ l1_ s :
  booted hal cluster ct n m cq_id a → reachable a cq_id (start m a hugepage_ l1_) s →
  ∃ s', reachable a cq_id s s' ∧ phase s' = Idle ∧ sent s' = sent s ∧ consumed s' = bytes (sent s).
Proof.
  intros Hb Hr. destruct (booted_layout _ _ _ _ _ _ _ Hb) as (L & HL & -> & HI).
  destruct (stream_reachable_Inv L HL cq_id _ _ ltac:(do 4 eexists; apply HI) Hr) as (c & d & h & f & Hs).
  by eapply finish.
Qed.

Lemma command_stream_delivers_witness :
  ∃ m a s s', booted demo_hal demo_cluster WORKER 1 m 0 a ∧ phase s = Reserving 64 false ∧ consumed s = []
    ∧ reachable a 0 s s' ∧ phase s' = Idle ∧ consumed s' = bytes (sent s).
Proof.
  destruct (demo_stream (λ _, 0) (λ _, 0)) as (m & a & s & s2 & Hb & Hr & Hp & Hc & _).
  destruct (command_stream_delivers demo_hal demo_cluster WORKER 1 m 0 a (λ _, 0) (λ _, 0) s Hb Hr) as (s' & Hr' & Hi & _ & Hc').
  by exists m, a, s, s'.
Defined.
