(* ===== verification/CompletionQueue.v ===== *)
(** * The completion queue (kernels/cq_dispatch.cpp, impl/dispatch/command_queue.cpp)

    The dispatcher writes what the host asked for, a response at a time, into
    the completion region of host memory and publishes its write pointer; the
    host's reader thread waits, copies the data to the user and publishes its
    read pointer.  Both pointers count 16-byte words and carry a toggle in their
    top bit.  A response begins with the dispatch command itself.

    Waiting loops are one round each: the functions say whether the loop ends. *)
From S2P Require Import Prelude Arith CommandQueue.

Definition sizeof_CQDispatchCmd : Z := 16.

(** ** The dispatcher's side *)
Record completion_args := mk_completion_args {
  command_queue_base_addr : Z;
  completion_queue_base_addr : Z;
  completion_queue_size : Z;
  completion_queue_page_size : Z
}.

Definition completion_queue_end_addr (a : completion_args) : Z :=
  u32 (completion_queue_base_addr a + completion_queue_size a).
Definition completion_queue_size_16B (a : completion_args) : Z := Z.shiftr (completion_queue_size a) 4.
Definition completion_queue_page_size_16B (a : completion_args) : Z := Z.shiftr (completion_queue_page_size a) 4.
Definition completion_queue_end_addr_16B (a : completion_args) : Z := Z.shiftr (completion_queue_end_addr a) 4.
Definition completion_queue_base_addr_16B (a : completion_args) : Z := Z.shiftr (completion_queue_base_addr a) 4.

(** The write interface, the two words in L1, and the word of the write pointer in host memory. *)
Record dispatcher := mk_dispatcher {
  completion_fifo_wr_ptr : Z;
  completion_fifo_wr_toggle : Z;
  completion_rd_word : Z;
  completion_wr_word : Z;
  host_wr_word : Z
}.

Definition ptr_of (word : Z) : Z := Z.land word 0x7fffffff.
Definition toggle_of (word : Z) : Z := Z.shiftr word 31.
(** [not x] of an integer *)
Definition not_toggle (t : Z) : Z := if t =? 0 then 1 else 0.

Definition available_space (a : completion_args) (d : dispatcher) : Z :=
  let completion_rd_ptr := ptr_of (completion_rd_word d) in
  let completion_rd_toggle := toggle_of (completion_rd_word d) in
  if negb (completion_rd_toggle =? completion_fifo_wr_toggle d)
  then u32 (completion_rd_ptr - completion_fifo_wr_ptr d)
  else u32 (completion_queue_size_16B a - u32 (completion_fifo_wr_ptr d - completion_rd_ptr)).

Definition completion_queue_reserve_back (a : completion_args) (num_pages : Z) (d : dispatcher) : bool :=
  let data_size_16B := u32 (num_pages * completion_queue_page_size_16B a) in
  negb (available_space a d <? data_size_16B).

Definition notify_host_of_completion_queue_write_pointer (d : dispatcher) : dispatcher :=
  let completion_wr_ptr_and_toggle := Z.lor (completion_fifo_wr_ptr d) (u32 (Z.shiftl (completion_fifo_wr_toggle d) 31)) in
  mk_dispatcher (completion_fifo_wr_ptr d) (completion_fifo_wr_toggle d) (completion_rd_word d)
    completion_wr_ptr_and_toggle completion_wr_ptr_and_toggle.

Definition completion_queue_push_back (a : completion_args) (num_pages : Z) (d : dispatcher) : dispatcher :=
  let push_size_16B := u32 (num_pages * completion_queue_page_size_16B a) in
  let wr_ptr := u32 (completion_fifo_wr_ptr d + push_size_16B) in
  notify_host_of_completion_queue_write_pointer
    (if completion_queue_end_addr_16B a <=? wr_ptr
     then mk_dispatcher (u32 (u32 (wr_ptr - completion_queue_end_addr_16B a) + completion_queue_base_addr_16B a))
            (not_toggle (completion_fifo_wr_toggle d)) (completion_rd_word d) (completion_wr_word d) (host_wr_word d)
     else mk_dispatcher wr_ptr (completion_fifo_wr_toggle d) (completion_rd_word d) (completion_wr_word d) (host_wr_word d)).

(** One round of [process_write_host_h]: how much of a response of which [length_] bytes are left is
    sent when [available_data] bytes have arrived in the dispatch buffer, and the write to host memory. *)
Definition xfer_size (length_ available_data : Z) : Z := if available_data <? length_ then available_data else length_.
Definition xfer_pages (a : completion_args) (xfer : Z) : outcome Z :=
  udiv (u32 (u32 (xfer + completion_queue_page_size a) - 1)) (completion_queue_page_size a).

Definition write_to_host (a : completion_args) (data : list Z) (xfer : Z) (d : dispatcher) (host : mem) : mem :=
  let completion_queue_write_addr := u32 (Z.shiftl (completion_fifo_wr_ptr d) 4) in
  if completion_queue_end_addr a <? u32 (completion_queue_write_addr + xfer) then
    let last_chunk_size := u32 (completion_queue_end_addr a - completion_queue_write_addr) in
    let host := mem_write host completion_queue_write_addr (take (Z.to_nat last_chunk_size) data) in
    mem_write host (completion_queue_base_addr a)
      (take (Z.to_nat (u32 (xfer - last_chunk_size))) (drop (Z.to_nat last_chunk_size) data))
  else mem_write host completion_queue_write_addr (take (Z.to_nat xfer) data).

(** ** The host's side *)
Record ReadBufferDescriptor := mk_read {
  page_size : Z;
  padded_page_size : Z;
  buffer_page_mapping : option (list (option Z));  (* dev_page_to_host_page_mapping_ *)
  dst : Z;
  dst_offset : Z;
  num_pages_read : Z;
  cur_dev_page_id : Z
}.

Definition pad_size_bytes (r : ReadBufferDescriptor) : Z := u32 (padded_page_size r - page_size r).

(** The variables of [copy_into_user_space] that live across the rounds of its loop, and user memory. *)
Record copy_state := mk_copy {
  contig_dst_offset : Z;
  remaining_bytes_to_read : Z;
  dev_page_id : Z;
  remaining_bytes_of_nonaligned_page : Z;
  host_page_id : option Z;
  offset_in_completion_q_data : Z;
  user : mem
}.

Definition copy_start (r : ReadBufferDescriptor) (user_ : mem) : copy_state :=
  mk_copy (dst_offset r) (u32 (u32 (num_pages_read r * padded_page_size r) + sizeof_CQDispatchCmd)) (cur_dev_page_id r)
    0 None sizeof_CQDispatchCmd user_.

Definition read_sysmem (host : mem) (to size_ from : Z) (user_ : mem) : mem := mem_write user_ to (mem_read host from size_).

Section copy.
Context (host : mem) (r : ReadBufferDescriptor) (bytes_xfered completion_q_read_ptr : Z).

(** The rest of a page whose beginning an earlier round copied: bytes to copy, bytes to move on by,
    what is left of the page and where the next round begins. *)
Definition finish_page (src_offset_bytes rem off : Z) : Z * Z * Z * Z :=
  let num_bytes_remaining := u32 (bytes_xfered - src_offset_bytes) in
  let num_bytes_to_copy := Z.min rem num_bytes_remaining in
  let rem := u32 (rem - num_bytes_to_copy) in
  if rem =? 0 then
    let rem_bytes_in_cq := u32 (num_bytes_remaining - num_bytes_to_copy) in
    if pad_size_bytes r <=? rem_bytes_in_cq then (num_bytes_to_copy, u32 (num_bytes_to_copy + pad_size_bytes r), rem, off)
    else (num_bytes_to_copy, num_bytes_to_copy, rem, u32 (pad_size_bytes r - rem_bytes_in_cq))
  else (num_bytes_to_copy, num_bytes_to_copy, rem, off).

(** The last page of the round, of which the rest may come in the next one. *)
Definition last_page (src_offset_bytes off : Z) : Z * Z * Z * Z :=
  let num_bytes_remaining := u32 (bytes_xfered - src_offset_bytes) in
  let num_bytes_to_copy := Z.min num_bytes_remaining (page_size r) in
  let rem := u32 (page_size r - num_bytes_to_copy) in
  (num_bytes_to_copy, padded_page_size r, rem, if rem =? 0 then u32 (padded_page_size r - num_bytes_remaining) else off).

Definition is_last (src_offset_bytes : Z) : bool := bytes_xfered <=? u32 (src_offset_bytes + padded_page_size r).

(** Pages with padding to consecutive places. *)
Fixpoint copy_pages (fuel : nat) (contiguous_dst src_offset_bytes dst_offset_bytes : Z) (s : copy_state)
  : outcome copy_state :=
  if src_offset_bytes <? bytes_xfered then
    match fuel with
    | O => Err FUEL
    | S fuel =>
      let rem := remaining_bytes_of_nonaligned_page s in
      let off := offset_in_completion_q_data s in
      let '(num_bytes_to_copy, src_offset_increment, rem, off) :=
        if 0 <? rem then finish_page src_offset_bytes rem off
        else if is_last src_offset_bytes then last_page src_offset_bytes off
        else (page_size r, padded_page_size r, rem, off) in
      copy_pages fuel contiguous_dst (u32 (src_offset_bytes + src_offset_increment)) (u32 (dst_offset_bytes + num_bytes_to_copy))
        (mk_copy (u32 (contig_dst_offset s + num_bytes_to_copy)) (remaining_bytes_to_read s) (dev_page_id s) rem (host_page_id s) off
           (read_sysmem host (contiguous_dst + dst_offset_bytes) num_bytes_to_copy (u32 (completion_q_read_ptr + src_offset_bytes)) (user s)))
    end
  else Ok s.

(** Pages to the places of a page mapping; a page without a place is skipped. *)
Fixpoint copy_mapped (fuel : nat) (mapping : list (option Z)) (src_offset_bytes dst_offset_bytes num_bytes_to_copy : Z)
  (s : copy_state) : outcome copy_state :=
  if src_offset_bytes <? bytes_xfered then
    match fuel with
    | O => Err FUEL
    | S fuel =>
      let rem := remaining_bytes_of_nonaligned_page s in
      let off := offset_in_completion_q_data s in
      '(num_bytes_to_copy, src_offset_increment, rem, off, dev_page, host_page, dst_offset_bytes) ←
        (if 0 <? rem then
           let '(n, inc, rem, off') := finish_page src_offset_bytes rem off in
           let off' := if (rem =? 0) && (pad_size_bytes r <=? u32 (u32 (bytes_xfered - src_offset_bytes) - n)) then 0 else off' in
           Ok (n, inc, rem, off', if rem =? 0 then u32 (dev_page_id s + 1) else dev_page_id s, host_page_id s, dst_offset_bytes)
         else
           host_page ← at_ mapping (Z.to_nat (dev_page_id s));
           let to := match host_page with Some h => u32 (h * page_size r) | None => dst_offset_bytes end in
           if is_last src_offset_bytes then
             let '(n, inc, rem, off) := last_page src_offset_bytes off in
             Ok (n, inc, rem, off, if rem =? 0 then u32 (dev_page_id s + 1) else dev_page_id s, host_page, to)
           else Ok (page_size r, padded_page_size r, rem, off, u32 (dev_page_id s + 1), host_page, to));
      let user_ := match host_page with
                   | None => user s
                   | Some _ => read_sysmem host (dst r + dst_offset_bytes) num_bytes_to_copy
                                 (u32 (completion_q_read_ptr + src_offset_bytes)) (user s)
                   end in
      copy_mapped fuel mapping (u32 (src_offset_bytes + src_offset_increment)) dst_offset_bytes num_bytes_to_copy
        (mk_copy (contig_dst_offset s) (remaining_bytes_to_read s) dev_page rem host_page off user_)
    end
  else
    Ok (mk_copy (u32 (dst_offset_bytes + num_bytes_to_copy)) (remaining_bytes_to_read s) (dev_page_id s)
          (remaining_bytes_of_nonaligned_page s) (host_page_id s) (offset_in_completion_q_data s) (user s)).

(** One round of the loop of [copy_into_user_space], for the bytes it found. *)
Definition copy_chunk (s : copy_state) : outcome copy_state :=
  let remaining := u32 (remaining_bytes_to_read s - bytes_xfered) in
  let off := offset_in_completion_q_data s in
  let next contig user_ := mk_copy contig remaining (dev_page_id s) (remaining_bytes_of_nonaligned_page s) (host_page_id s) 0 user_ in
  match buffer_page_mapping r with
  | None =>
    if page_size r =? padded_page_size r then
      let data_bytes_xfered := u32 (bytes_xfered - off) in
      Ok (next (u32 (contig_dst_offset s + data_bytes_xfered))
            (read_sysmem host (dst r + contig_dst_offset s) data_bytes_xfered (u32 (completion_q_read_ptr + off)) (user s)))
    else copy_pages (Z.to_nat bytes_xfered) (dst r + contig_dst_offset s) off 0 (next (contig_dst_offset s) (user s))
  | Some mapping => copy_mapped (Z.to_nat bytes_xfered) mapping off (contig_dst_offset s) 0 (next (contig_dst_offset s) (user s))
  end.
End copy.

(** What a round finds, from the word it polled. *)
Definition bytes_avail_in_completion_queue (limit completion_q_read_ptr completion_q_read_toggle word : Z) : Z :=
  let completion_q_write_ptr := u32 (Z.shiftl (ptr_of word) 4) in
  let completion_q_write_toggle := toggle_of word in
  if (completion_q_read_ptr <? completion_q_write_ptr) && (completion_q_write_toggle =? completion_q_read_toggle)
  then u32 (completion_q_write_ptr - completion_q_read_ptr)
  else u32 (limit - completion_q_read_ptr).

(** A round of [copy_into_user_space] after its wait returned [word]. *)
Definition copy_round (cq_id : nat) (host : mem) (r : ReadBufferDescriptor) (word : Z) (m : SystemMemoryManager) (s : copy_state)
  : outcome (SystemMemoryManager * list effect * copy_state) :=
  read_ptr ← get_completion_queue_read_ptr cq_id m;
  read_toggle ← get_completion_queue_read_toggle cq_id m;
  limit ← get_completion_queue_limit cq_id m;
  let bytes_xfered := Z.min (remaining_bytes_to_read s) (bytes_avail_in_completion_queue limit read_ptr read_toggle word) in
  num_pages_xfered ← MathUtil.div_up bytes_xfered TRANSFER_PAGE_SIZE;
  s ← copy_chunk host r bytes_xfered read_ptr s;
  '(m, effects) ← completion_queue_pop_front num_pages_xfered cq_id m;
  Ok (m, effects, s).

(** [dispatch_cmd_and_event[sizeof(CQDispatchCmd) / sizeof(uint32_t)]], little-endian *)
Definition word_at (host : mem) (p : Z) : Z :=
  foldr (λ b w, b + 256 * w) 0 (mem_read host p 4).

Definition read_event (cq_id : nat) (host : mem) (event_id global_offset : Z) (m : SystemMemoryManager)
  : outcome (SystemMemoryManager * list effect) :=
  read_ptr ← get_completion_queue_read_ptr cq_id m;
  let event_completed := word_at host (u32 (read_ptr + sizeof_CQDispatchCmd)) in
  _ ← check (event_completed =? event_id) TT_ASSERT;
  '(m, effects) ← completion_queue_pop_front 1 cq_id m;
  m ← set_last_completed_event cq_id (u32 (global_offset + event_id)) m;
  Ok (m, effects).
