(* ===== verification/CompletionRead.v ===== *)
(** * Copying a response to the user

    The rounds of [copy_into_user_space] cut a response at multiples of the
    transfer page size, which have nothing to do with the pages of the buffer.
    A state of the copy is described by a position in the response: page [k] of
    the buffer, [m] bytes into it. *)
From S2P Require Import Prelude CommandQueue CommandQueueProps CompletionQueue.
(** ** Bytes of a response *)
Lemma bytes_from_split src p n k :
  0 <= p → 0 <= k <= n → bytes_from src p n = bytes_from src p k ++ bytes_from src (p + k) (n - k).
Proof. intros. rewrite bytes_from_app by lia. f_equal. lia. Qed.

Lemma bytes_from_sub src p n i k :
  0 <= p → 0 <= i → 0 <= k → i + k <= n → bytes_from (bytes_from src p n) i k = bytes_from src (p + i) k.
Proof.
  intros. unfold bytes_from. rewrite skipn_firstn_comm, take_take, drop_drop. f_equal; [lia|]. f_equal. lia.
Qed.

Lemma mem_read_sub m p n i k :
  0 <= i → 0 <= k → i + k <= n → mem_read m (p + i) k = bytes_from (mem_read m p n) i k.
Proof.
  intros. replace n with (i + (k + (n - i - k))) by lia. rewrite mem_read_app, mem_read_app by lia.
  unfold bytes_from. rewrite drop_app_length', take_app_length' by (rewrite length_mem_read; lia). done.
Qed.

(** Writing [k] bytes more where [m] bytes were written. *)
Lemma write_more u p src i m k :
  0 <= i → 0 <= m → 0 <= k → i + m + k <= Z.of_nat (length src) →
  mem_eq (mem_write (mem_write u p (bytes_from src i m)) (p + m) (bytes_from src (i + m) k))
    (mem_write u p (bytes_from src i (m + k))).
Proof.
  intros Hi Hm Hk Hl a. pose proof (mem_write_app u p (bytes_from src i m) (bytes_from src (i + m) k) a) as H.
  rewrite length_bytes_from, bytes_from_app in H by lia. exact H.
Qed.

(** ** What a read means *)
Record read_ok (r : ReadBufferDescriptor) : Prop := mk_read_ok {
  ro_page : 0 < page_size r <= padded_page_size r ∧ padded_page_size r < 2 ^ 32;
  ro_pad : padded_page_size r - page_size r <= 4096;
  ro_bytes : 0 <= num_pages_read r ∧ num_pages_read r * padded_page_size r + sizeof_CQDispatchCmd < 2 ^ 32;
  (* no padding is cut by the end of a round that began inside its page *)
  ro_cut : padded_page_size r <= 4096 ∨ (padded_page_size r mod 32 = 0 ∧ padded_page_size r - page_size r <= 16)
}.

Definition response_size (r : ReadBufferDescriptor) : Z := sizeof_CQDispatchCmd + num_pages_read r * padded_page_size r.

(** Page [k] of a response, without its padding. *)
Definition page_of (r : ReadBufferDescriptor) (response : list Z) (k : Z) : list Z :=
  bytes_from response (sizeof_CQDispatchCmd + k * padded_page_size r) (page_size r).

(** The pages one after the other; or each at the place the mapping gives it, in the order of the device. *)
Definition write_page (r : ReadBufferDescriptor) (mapping : list (option Z)) (response : list Z) (k m : Z) (u : mem) : mem :=
  match mapping !! Z.to_nat (cur_dev_page_id r + k) with
  | Some (Some h) => mem_write u (dst r + h * page_size r) (bytes_from response (sizeof_CQDispatchCmd + k * padded_page_size r) m)
  | _ => u
  end.

#[export] Instance write_page_proper r mapping resp k m : Proper (mem_eq ==> mem_eq) (write_page r mapping resp k m).
Proof. intros u u' H. unfold write_page. destruct (_ !! _) as [[h|]|]; [by rewrite H|done..]. Qed.

Definition read_result (r : ReadBufferDescriptor) (response : list Z) (u : mem) : mem :=
  match buffer_page_mapping r with
  | None => mem_write u (dst r + dst_offset r) (concat (page_of r response <$> seqZ 0 (num_pages_read r)))
  | Some mapping => foldl (λ u k, write_page r mapping response k (page_size r) u) u (seqZ 0 (num_pages_read r))
  end.

#[export] Instance read_result_proper r resp : Proper (mem_eq ==> mem_eq) (read_result r resp).
Proof.
  intros u u' H. unfold read_result. destruct (buffer_page_mapping r) as [mapping|]; [|by rewrite H].
  generalize (seqZ 0 (num_pages_read r)). intros l. revert u u' H. induction l as [|k l IH]; intros u u' H; simpl; [done|].
  apply IH. by rewrite H.
Qed.

(** Where the pages go fits 32-bit offsets. *)
Definition places_ok (r : ReadBufferDescriptor) : Prop :=
  match buffer_page_mapping r with
  | None => 0 <= dst_offset r ∧ dst_offset r + num_pages_read r * page_size r < 2 ^ 32
  | Some mapping => 0 <= cur_dev_page_id r ∧ cur_dev_page_id r + num_pages_read r <= Z.of_nat (length mapping) < 2 ^ 32
      ∧ ∀ h, Some h ∈ mapping → 0 <= h ∧ (h + 1) * page_size r < 2 ^ 32
  end.

(** ** What a round does with a page *)
Section pages.
Context (r : ReadBufferDescriptor) (Hr : read_ok r) (N : Z) (HN : 0 < N < 2 ^ 32).
Abbreviation P := (page_size r).
Abbreviation W := (padded_page_size r).

(** What is left of a page of which [m] bytes were seen, and how much padding comes after them. *)
Definition left_of (m : Z) : Z := if (0 <? m) && (m <? P) then P - m else 0.
Definition skip_of (m : Z) : Z := if P <=? m then W - m else 0.

Lemma left_skip_end : left_of W = 0 ∧ skip_of W = 0 ∧ left_of 0 = 0 ∧ skip_of 0 = 0.
Proof.
  pose proof (ro_page _ Hr). unfold left_of, skip_of. rewrite (proj2 (Z.ltb_ge W P)), andb_false_r, (proj2 (Z.leb_le P W)) by lia.
  rewrite (proj2 (Z.leb_gt P 0)) by lia. split_and!; done || lia.
Qed.

Lemma pad_spec : pad_size_bytes r = W - P.
Proof. pose proof (ro_page _ Hr). unfold pad_size_bytes. apply u32_small. lia. Qed.

(** No padding of a page that began before the round is cut by its end. *)
Definition uncut (m : Z) : Prop := (P <= m → W - m <= N) ∧ (0 < m < P → N <= P - m ∨ W - m <= N).

Lemma last_page_spec src :
  0 <= src < N → N <= src + W →
  last_page r N src 0 = (Z.min (N - src) P, W, left_of (N - src), skip_of (N - src)).
Proof.
  intros Hs HN'. pose proof (ro_page _ Hr). unfold last_page, left_of, skip_of.
  rewrite (u32_small (N - src)), (u32_small (P - _)), (u32_small (W - _)) by lia.
  destruct (Z.ltb_spec (N - src) P) as [Hlt|Hge]; rewrite ?andb_true_r, ?andb_false_r.
  - rewrite (proj2 (Z.ltb_lt 0 (N - src))), (proj2 (Z.leb_gt P (N - src))), (proj2 (Z.eqb_neq _ 0)), Z.min_l by lia. done.
  - rewrite (proj2 (Z.leb_le P (N - src))), Z.min_r, Z.sub_diag by lia. done.
Qed.

Lemma finish_page_spec m :
  0 < m < P → uncut m →
  (N <= P - m ∧ finish_page r N 0 (left_of m) 0 = (N, N, left_of (m + N), skip_of (m + N)))
  ∨ (W - m <= N ∧ finish_page r N 0 (left_of m) 0 = (P - m, W - m, 0, 0)).
Proof.
  intros Hm [_ Hcut]. specialize (Hcut Hm). pose proof (ro_page _ Hr).
  unfold finish_page, skip_of.
  assert (HlP : left_of m = P - m) by (unfold left_of; by rewrite (proj2 (Z.ltb_lt 0 m)), (proj2 (Z.ltb_lt m P)) by lia).
  rewrite HlP, Z.sub_0_r, (u32_small N), pad_spec by lia. set (j := Z.min (P - m) N). rewrite (u32_small (P - m - j)) by lia.
  unfold left_of. rewrite (proj2 (Z.ltb_lt 0 (m + N))) by lia. cbn [andb].
  destruct (Z.eqb_spec (P - m - j) 0) as [Hall|Hpart].
  - rewrite (u32_small (N - j)) by lia. destruct (Z.leb_spec (W - P) (N - j)).
    + right. split; [lia|]. rewrite (u32_small (j + _)) by lia. rewrite !pair_eq; split_and!; lia.
    + left. split; [lia|]. rewrite (u32_small (W - P - _)), (proj2 (Z.ltb_ge (m + N) P)), (proj2 (Z.leb_le P (m + N))) by lia.
      rewrite !pair_eq; split_and!; lia.
  - left. split; [lia|]. rewrite (proj2 (Z.ltb_lt (m + N) P)), (proj2 (Z.leb_gt P (m + N))) by lia. rewrite !pair_eq; split_and!; lia.
Qed.

End pages.

Section copy.
Context (r : ReadBufferDescriptor) (Hr : read_ok r) (response : list Z) (Hlen : Z.of_nat (length response) = response_size r).
Context (u0 : mem).
Abbreviation P := (page_size r).
Abbreviation W := (padded_page_size r).
Abbreviation n := (num_pages_read r).

Definition unpadded : list Z := concat (page_of r response <$> seqZ 0 n).

Lemma length_page k : 0 <= k < n → Z.of_nat (length (page_of r response k)) = P.
Proof.
  intros Hk. pose proof (ro_page _ Hr). unfold page_of, response_size, sizeof_CQDispatchCmd in *.
  assert ((k + 1) * W <= n * W) by nia. apply length_bytes_from; nia.
Qed.

Lemma pages_const : Forall (λ l, length l = Z.to_nat P) (page_of r response <$> seqZ 0 n).
Proof.
  apply Forall_fmap, Forall_forall. intros k Hk%elem_of_seqZ. simpl. pose proof (length_page k ltac:(lia)). lia.
Qed.

Lemma length_unpadded : Z.of_nat (length unpadded) = n * P.
Proof.
  destruct (ro_bytes _ Hr). pose proof (ro_page _ Hr). unfold unpadded. rewrite (length_concat_const _ _ pages_const), length_fmap, length_seqZ. lia.
Qed.

Lemma unpadded_bytes k m j :
  0 <= k < n → 0 <= m → 0 <= j → m + j <= P →
  bytes_from unpadded (k * P + m) j = bytes_from response (sizeof_CQDispatchCmd + k * W + m) j.
Proof.
  intros Hk Hm Hj Hmj. pose proof (ro_page _ Hr).
  assert (Hpage : bytes_from unpadded (k * P) P = page_of r response k).
  { unfold bytes_from, unpadded. replace (Z.to_nat (k * P)) with (Z.to_nat P * Z.to_nat k)%nat by nia.
    apply take_concat_const; [apply pages_const|]. rewrite list_lookup_fmap, lookup_seqZ_lt by lia. simpl. f_equal. f_equal. lia. }
  rewrite <- (bytes_from_sub unpadded (k * P) P m j) by nia. rewrite Hpage. unfold page_of, sizeof_CQDispatchCmd.
  by rewrite bytes_from_sub by nia.
Qed.

(** ** Positions *)
Lemma pos_div k m : 0 <= m < W → (k * W + m) / W = k ∧ (k * W + m) mod W = m.
Proof.
  intros Hm. split; [rewrite Z.div_add_l, (Z.div_small m) by lia; lia|].
  by rewrite Z.add_comm, Z.mod_add, Z.mod_small by lia.
Qed.

(** A copy to consecutive places that is [m] bytes into page [k]. *)
Record copied_to (k m : Z) (s : copy_state) : Prop := mk_copied_to {
  ct_contig : contig_dst_offset s = dst_offset r + (k * P + Z.min m P);
  ct_left : remaining_bytes_of_nonaligned_page s = left_of r m;
  ct_skip : offset_in_completion_q_data s = skip_of r m;
  ct_user : mem_eq (user s) (mem_write u0 (dst r + dst_offset r) (bytes_from unpadded 0 (k * P + Z.min m P)))
}.

Lemma extend_user u k m j :
  0 <= k < n → 0 <= m → 0 <= j → m + j <= P →
  mem_eq u (mem_write u0 (dst r + dst_offset r) (bytes_from unpadded 0 (k * P + m))) →
  mem_eq (mem_write u (dst r + dst_offset r + (k * P + m)) (bytes_from response (sizeof_CQDispatchCmd + k * W + m) j))
    (mem_write u0 (dst r + dst_offset r) (bytes_from unpadded 0 (k * P + (m + j)))).
Proof.
  intros Hk Hm Hj Hmj Hu. pose proof (ro_page _ Hr). pose proof length_unpadded.
  assert (k * P + P <= n * P) by nia.
  rewrite Hu, <- (unpadded_bytes k m j) by lia.
  pose proof (write_more u0 (dst r + dst_offset r) unpadded 0 (k * P + m) j) as Hwm. rewrite Z.add_0_l in Hwm.
  rewrite Hwm by nia. by rewrite Z.add_assoc.
Qed.

(** ** A round *)
Context (host : mem) (N rd p : Z).
Context (HN : 0 < N) (Hp : 0 <= p) (HpN : p + N <= response_size r) (Hrd : 0 <= rd) (Hrd' : rd + N <= 2 ^ 32).
Context (Hhost : mem_read host rd N = bytes_from response p N).

Lemma read_at src j :
  0 <= src < N → 0 <= j → src + j <= N → mem_read host (u32 (rd + src)) j = bytes_from response (p + src) j.
Proof.
  intros Hs Hj Hsj. rewrite u32_small by lia. rewrite (mem_read_sub host rd N src j), Hhost by lia. by rewrite bytes_from_sub by lia.
Qed.

(** A page of which [j] bytes more are copied. *)
Lemma copied_more k m j s s' off :
  copied_to k m s → 0 <= k < n → 0 <= m → 0 <= j → m + j <= P →
  contig_dst_offset s' = contig_dst_offset s + j →
  remaining_bytes_of_nonaligned_page s' = left_of r (m + off) → offset_in_completion_q_data s' = skip_of r (m + off) →
  Z.min (m + off) P = m + j →
  user s' = mem_write (user s) (dst r + contig_dst_offset s) (bytes_from response (sizeof_CQDispatchCmd + k * W + m) j) →
  copied_to k (m + off) s'.
Proof.
  intros [Hc _ _ Hu] Hk Hm Hj Hmj Hc' Hl' Hs' Hmin Hu'. rewrite (Z.min_l m P) in Hc, Hu by lia. split; rewrite ?Hmin.
  - lia.
  - done.
  - done.
  - rewrite Hu', Hc, Z.add_assoc. apply extend_user; [done|lia..|done].
Qed.

(** A page copied completely is the beginning of the next. *)
Lemma copied_next k s : copied_to k W s → copied_to (k + 1) 0 s.
Proof.
  pose proof (ro_page _ Hr) as Hpg. destruct (left_skip_end r Hr) as (H1 & H2 & H3 & H4). intros [Hc Hl Hs Hu]. rewrite Z.min_r in Hc, Hu by lia.
  split; rewrite ?Z.min_l by lia.
  - lia.
  - by rewrite Hl, H1, H3.
  - by rewrite Hs, H2, H4.
  - rewrite Hu. by replace ((k + 1) * P + 0) with (k * P + P) by lia.
Qed.

(** The state a round ends in. *)
Definition round_end (s s' : copy_state) : Prop :=
  remaining_bytes_to_read s' = remaining_bytes_to_read s
  ∧ ∃ k m, p + N = sizeof_CQDispatchCmd + k * W + m ∧ 0 <= m < W ∧ 0 <= k ∧ copied_to k m s'.

Lemma round_end_at k m s s' :
  remaining_bytes_to_read s' = remaining_bytes_to_read s →
  p + N = sizeof_CQDispatchCmd + k * W + m → 0 <= m <= W → 0 <= k → copied_to k m s' → round_end s s'.
Proof.
  intros Hrem Hpos Hm Hk Hs. split; [done|]. destruct (decide (m = W)) as [->|].
  - exists (k + 1), 0. pose proof (ro_page _ Hr). split_and!; try lia. by apply copied_next.
  - exists k, m. split_and!; try done; lia.
Qed.

Lemma copy_pages_loop fuel src k contiguous_dst dst_off s :
  (Z.to_nat (N - src) <= fuel)%nat → 0 <= src <= N → p + src = sizeof_CQDispatchCmd + k * W → 0 <= k →
  0 <= dst_offset r ∧ dst_offset r + n * P < 2 ^ 32 →
  copied_to k 0 s → contiguous_dst + dst_off = dst r + contig_dst_offset s → 0 <= dst_off <= contig_dst_offset s →
  ∃ s', copy_pages host r N rd fuel contiguous_dst src dst_off s = Ok s' ∧ round_end s s'.
Proof.
  intros Hfuel Hsrc Hpos Hk Hd. pose proof (ro_page _ Hr) as Hpg. pose proof (ro_bytes _ Hr) as [Hn0 Hnb].
  unfold response_size in HpN. revert fuel src k dst_off s Hfuel Hsrc Hpos Hk.
  induction fuel as [|fuel IH]; intros src k dst_off s Hfuel Hsrc Hpos Hk Hs Hdst Hoff.
  { cbn [copy_pages]. rewrite (proj2 (Z.ltb_ge src N)) by lia. exists s. split; [done|]. apply (round_end_at k 0); done || lia. }
  cbn [copy_pages]. destruct (Z.ltb_spec src N) as [Hlt|Hge].
  2:{ exists s. split; [done|]. apply (round_end_at k 0); done || lia. }
  assert (Hkn : k < n) by nia.
  assert (HkW : (k + 1) * W <= n * W) by nia. assert (HkP : (k + 1) * P <= n * P) by nia.
  destruct (left_skip_end r Hr) as (HlW & HsW & Hl0 & Hs0).
  pose proof Hs as [Hc Hl Hsk _]. rewrite Z.min_l in Hc by lia. rewrite Hl0 in Hl. rewrite Hs0 in Hsk.
  rewrite Hl, Hsk. cbn [Z.ltb Z.compare].
  unfold is_last. rewrite (u32_small (src + W)) by lia.
  destruct (Z.leb_spec N (src + W)) as [Hlast|Hmore].
  - rewrite last_page_spec by (done || lia). set (nb := Z.min (N - src) P).
    rewrite (u32_small (src + W)), (u32_small (dst_off + nb)), (u32_small (contig_dst_offset s + nb)) by lia.
    set (s' := mk_copy _ _ _ _ _ _ _).
    assert (Hs' : copied_to k (N - src) s').
    { apply (copied_more k 0 nb s s' (N - src) Hs); rewrite ?Z.add_0_l; try done; try lia.
      unfold s', read_sysmem. cbn [user]. rewrite read_at by lia. rewrite Hdst. do 2 f_equal. lia. }
    exists s'. split; [|apply (round_end_at k (N - src)); done || lia].
    destruct fuel; cbn [copy_pages]; by rewrite (proj2 (Z.ltb_ge (src + W) N)) by lia.
  - rewrite (u32_small (src + W)), (u32_small (dst_off + P)), (u32_small (contig_dst_offset s + P)) by lia. set (s' := mk_copy _ _ _ _ _ _ _).
    assert (Hs' : copied_to (k + 1) 0 s').
    { apply copied_next. apply (copied_more k 0 P s s' W Hs); rewrite ?Z.add_0_l, ?HlW, ?HsW; try done; try lia.
      unfold s', read_sysmem. cbn [user]. rewrite read_at by lia. rewrite Hdst. do 2 f_equal. lia. }
    destruct (IH (src + W) (k + 1) (dst_off + P) s') as (s2 & Hs2 & Hend); try done; try lia.
    + cbn [s' contig_dst_offset]. lia.
    + cbn [s' contig_dst_offset]. lia.
    + exists s2. split; [exact Hs2|]. exact Hend.
Qed.
(** The variables at the start of a round: the offset of the first page is read and cleared. *)
Definition cleared (s : copy_state) : copy_state :=
  mk_copy (contig_dst_offset s) (remaining_bytes_to_read s) (dev_page_id s) (remaining_bytes_of_nonaligned_page s) (host_page_id s) 0 (user s).

Lemma copy_pages_round k m s :
  copied_to k m s → p = sizeof_CQDispatchCmd + k * W + m → 0 <= m < W → 0 <= k → uncut r N m →
  0 <= dst_offset r ∧ dst_offset r + n * P < 2 ^ 32 →
  ∃ s', copy_pages host r N rd (Z.to_nat N) (dst r + contig_dst_offset s) (offset_in_completion_q_data s) 0 (cleared s) = Ok s'
    ∧ round_end s s'.
Proof.
  intros Hs Hpos Hm Hk Hcut Hd. pose proof (ro_page _ Hr) as Hpg. pose proof (ro_bytes _ Hr) as [Hn0 Hnb].
  unfold response_size in HpN. assert (Hkn : k < n) by nia.
  assert (HkW : (k + 1) * W <= n * W) by nia. assert (HkP : (k + 1) * P <= n * P) by nia. assert (0 <= k * P) by nia.
  destruct (left_skip_end r Hr) as (HlW & HsW & Hl0 & Hs0). pose proof Hs as [Hc Hl Hsk Hu].
  destruct (decide (0 < m < P)) as [Hmid|Hmid].
  - (* the rest of page k *)
    assert (HsP : skip_of r m = 0) by (unfold skip_of; by rewrite (proj2 (Z.leb_gt P m)) by lia).
    assert (HlP : 0 < left_of r m) by (unfold left_of; rewrite (proj2 (Z.ltb_lt 0 m)), (proj2 (Z.ltb_lt m P)) by lia; simpl; lia).
    rewrite Z.min_l in Hc by lia. rewrite Hsk, HsP. destruct (Z.to_nat N) as [|fuel] eqn:Hfuel; [lia|]. cbn [copy_pages].
    rewrite (proj2 (Z.ltb_lt 0 N)) by lia. cbn [cleared remaining_bytes_of_nonaligned_page offset_in_completion_q_data].
    rewrite Hl, (proj2 (Z.ltb_lt 0 (left_of r m))) by done.
    destruct (finish_page_spec r Hr N ltac:(lia) m Hmid Hcut) as [[HNm ->]|[HNm ->]];
      rewrite !Z.add_0_l, (u32_small (_ + _)) by (cbn [cleared contig_dst_offset]; lia).
    + rewrite (u32_small N) by lia. set (s1 := mk_copy _ _ _ _ _ _ _). exists s1.
      split; [destruct fuel; cbn [copy_pages]; by rewrite Z.ltb_irrefl|]. apply (round_end_at k (m + N)); [done|lia|lia|lia|].
      apply (copied_more k m N s s1 N Hs); try done; try lia.
      unfold s1, read_sysmem. cbn [cleared user contig_dst_offset]. rewrite read_at by lia. rewrite !Z.add_0_r. do 2 f_equal. lia.
    + rewrite (u32_small (P - m)), (u32_small (W - m)) by lia. set (s1 := mk_copy _ _ _ _ _ _ _).
      assert (Hs1 : copied_to (k + 1) 0 s1).
      { apply copied_next. replace W with (m + (W - m)) by lia.
        apply (copied_more k m (P - m) s s1 (W - m) Hs); replace (m + (W - m)) with W by lia; try done; try lia.
        unfold s1, read_sysmem. cbn [cleared user contig_dst_offset]. rewrite read_at by lia. rewrite !Z.add_0_r. do 2 f_equal. lia. }
      destruct (copy_pages_loop fuel (W - m) (k + 1) (dst r + contig_dst_offset s) (P - m) s1) as (s2 & Hs2 & Hend); try done; try lia.
      * cbn [s1 cleared contig_dst_offset]. lia.
      * cbn [s1 cleared contig_dst_offset]. lia.
      * exists s2. split; [exact Hs2|exact Hend].
  - (* the beginning of a page, past the padding of page k *)
    assert (Hl' : left_of r m = 0).
    { unfold left_of. destruct (Z.ltb_spec 0 m), (Z.ltb_spec m P); done || lia. }
    assert (Hcl : copied_to (if P <=? m then k + 1 else k) 0 (cleared s) ∧ 0 <= skip_of r m <= N
      ∧ p + skip_of r m = sizeof_CQDispatchCmd + (if P <=? m then k + 1 else k) * W).
    { destruct Hcut as [Hcut1 _]. unfold skip_of. destruct (Z.leb_spec P m) as [HPm|HPm].
      - split; [|split; [lia|lia]]. rewrite Z.min_r in Hc, Hu by lia. apply copied_next. split; cbn [cleared contig_dst_offset
          remaining_bytes_of_nonaligned_page offset_in_completion_q_data user]; rewrite ?Z.min_r by lia; congruence || done.
      - assert (m = 0) as -> by lia. split; [|split; lia]. split; cbn [cleared contig_dst_offset
          remaining_bytes_of_nonaligned_page offset_in_completion_q_data user]; congruence || done. }
    destruct Hcl as (Hcl & Hskip & Hsrc). rewrite Hsk.
    destruct (copy_pages_loop (Z.to_nat N) (skip_of r m) _ (dst r + contig_dst_offset s) 0 (cleared s) ltac:(lia) Hskip Hsrc
      ltac:(case_match; lia) Hd Hcl) as (s2 & Hs2 & Hend).
    + cbn [cleared contig_dst_offset]. lia.
    + cbn [cleared contig_dst_offset]. lia.
    + exists s2. split; [exact Hs2|exact Hend].
Qed.
End copy.

(** * Copying a response to the places of a page mapping *)
Section mapped.
Context (r : ReadBufferDescriptor) (Hr : read_ok r) (response : list Z) (Hlen : Z.of_nat (length response) = response_size r).
Context (mapping : list (option Z)) (Hdev : 0 <= cur_dev_page_id r)
  (Hmap : cur_dev_page_id r + num_pages_read r <= Z.of_nat (length mapping) < 2 ^ 32)
  (Hplace : ∀ h, Some h ∈ mapping → 0 <= h ∧ (h + 1) * page_size r < 2 ^ 32).
Context (u0 : mem).
Abbreviation P := (page_size r).
Abbreviation W := (padded_page_size r).
Abbreviation n := (num_pages_read r).
Abbreviation write_page := (write_page r mapping response).

Definition place (k : Z) : option Z := default None (mapping !! Z.to_nat (cur_dev_page_id r + k)).

Lemma at_place k : 0 <= k < n → at_ mapping (Z.to_nat (cur_dev_page_id r + k)) = Ok (place k).
Proof.
  intros Hk. unfold place. destruct (lookup_lt_is_Some_2 mapping (Z.to_nat (cur_dev_page_id r + k)) ltac:(lia)) as [x Hx].
  by rewrite Hx, (at_some _ _ _ Hx).
Qed.

Lemma place_offset_bounds k h : place k = Some h → 0 <= h ∧ (h + 1) * P < 2 ^ 32.
Proof.
  unfold place. destruct (mapping !! _) as [x|] eqn:Hx; simpl; [|done]. intros ->. apply Hplace. by apply list_elem_of_lookup_2 in Hx.
Qed.

Lemma write_page_place k m u :
  write_page k m u = match place k with
                     | Some h => mem_write u (dst r + h * P) (bytes_from response (sizeof_CQDispatchCmd + k * W) m)
                     | None => u
                     end.
Proof. unfold write_page, place. by destruct (mapping !! _) as [[h|]|]. Qed.

Lemma write_page_0 k u : mem_eq (write_page k 0 u) u.
Proof. rewrite write_page_place. destruct (place k); [|done]. intros a. apply mem_write_outside. simpl. lia. Qed.

Lemma write_page_more k m j u u' h :
  0 <= k < n → 0 <= m → 0 <= j → m + j <= P → place k = Some h → mem_eq u' (write_page k m u) →
  mem_eq (mem_write u' (dst r + (h * P + m)) (bytes_from response (sizeof_CQDispatchCmd + k * W + m) j)) (write_page k (m + j) u).
Proof.
  intros Hk Hm Hj Hmj Hh ->. rewrite !write_page_place, Hh. pose proof (ro_page _ Hr).
  unfold response_size, sizeof_CQDispatchCmd in *. assert ((k + 1) * W <= n * W) by nia.
  rewrite Z.add_assoc. apply write_more; nia.
Qed.

Lemma write_page_none k m j u u' : place k = None → mem_eq u' (write_page k m u) → mem_eq u' (write_page k (m + j) u).
Proof. intros Hk. by rewrite !write_page_place, Hk. Qed.

(** User memory when the pages before [k] are copied. *)
Definition pages_to (k : Z) : mem := foldl (λ u k, write_page k P u) u0 (seqZ 0 k).

Lemma pages_to_next k : 0 <= k → pages_to (k + 1) = write_page k P (pages_to k).
Proof.
  intros Hk. unfold pages_to. rewrite seqZ_app, foldl_app by lia. change (seqZ (0 + k) 1) with [0 + k]. done.
Qed.

(** A copy by a mapping that is [m] bytes into page [k]. *)
Record mapped_to (k m : Z) (s : copy_state) : Prop := mk_mapped_to {
  mt_dev : dev_page_id s = cur_dev_page_id r + k + (if P <=? m then 1 else 0);
  mt_left : remaining_bytes_of_nonaligned_page s = left_of r m;
  mt_skip : offset_in_completion_q_data s = skip_of r m;
  mt_host : 0 < m < P → host_page_id s = place k ∧ ∀ h, place k = Some h → contig_dst_offset s = h * P + m;
  mt_user : mem_eq (user s) (write_page k (Z.min m P) (pages_to k))
}.

Lemma mapped_next k s : 0 <= k → mapped_to k W s → mapped_to (k + 1) 0 s.
Proof.
  pose proof (ro_page _ Hr) as Hpg. destruct (left_skip_end r Hr) as (H1 & H2 & H3 & H4). intros Hk [Hd Hl Hs _ Hu].
  rewrite (proj2 (Z.leb_le P W)) in Hd by lia. rewrite Z.min_r in Hu by lia. split.
  - rewrite (proj2 (Z.leb_gt P 0)) by lia. lia.
  - by rewrite Hl, H1, H3.
  - by rewrite Hs, H2, H4.
  - lia.
  - rewrite Z.min_l, write_page_0, pages_to_next by lia. done.
Qed.

Context (host : mem) (N rd p : Z).
Context (HN : 0 < N) (Hp : 0 <= p) (HpN : p + N <= response_size r) (Hrd : 0 <= rd) (Hrd' : rd + N <= 2 ^ 32).
Context (Hhost : mem_read host rd N = bytes_from response p N).

Definition mapped_end (s s' : copy_state) : Prop :=
  remaining_bytes_to_read s' = remaining_bytes_to_read s
  ∧ ∃ k m, p + N = sizeof_CQDispatchCmd + k * W + m ∧ 0 <= m < W ∧ 0 <= k ∧ mapped_to k m s'.

Lemma mapped_end_at k m s s' :
  remaining_bytes_to_read s' = remaining_bytes_to_read s →
  p + N = sizeof_CQDispatchCmd + k * W + m → 0 <= m <= W → 0 <= k → mapped_to k m s' → mapped_end s s'.
Proof.
  intros Hrem Hpos Hm Hk Hs. split; [done|]. destruct (decide (m = W)) as [->|].
  - exists (k + 1), 0. pose proof (ro_page _ Hr). split_and!; try lia. by apply mapped_next.
  - exists k, m. split_and!; try done; lia.
Qed.

(** The state left by the end of the loop. *)
Definition finished (d j : Z) (s : copy_state) : copy_state :=
  mk_copy (u32 (d + j)) (remaining_bytes_to_read s) (dev_page_id s) (remaining_bytes_of_nonaligned_page s) (host_page_id s)
    (offset_in_completion_q_data s) (user s).

Lemma copy_mapped_end fuel src d j s : N <= src → copy_mapped host r N rd fuel mapping src d j s = Ok (finished d j s).
Proof. intros Hs. destruct fuel; cbn [copy_mapped]; by rewrite (proj2 (Z.ltb_ge src N)) by lia. Qed.

Lemma finished_0 k d j s : mapped_to k 0 s → mapped_to k 0 (finished d j s).
Proof. intros [? ? ? _ ?]. split; try done. lia. Qed.

(** The bytes a round copies of page [k]. *)
Lemma user_more k m j off d src u :
  0 <= k < n → 0 <= m → 0 <= j → m + j <= P → Z.min (m + off) P = m + j →
  mem_eq u (write_page k m (pages_to k)) → 0 <= src < N → src + j <= N → p + src = sizeof_CQDispatchCmd + k * W + m →
  (∀ h, place k = Some h → d = h * P + m) →
  mem_eq match place k with None => u | Some _ => read_sysmem host (dst r + d) j (u32 (rd + src)) u end
    (write_page k (Z.min (m + off) P) (pages_to k)).
Proof.
  intros Hk Hm Hj Hmj Hmin Hu Hsrc HsN Hpos Hd. rewrite Hmin. destruct (place k) as [h|] eqn:Hh.
  - unfold read_sysmem. rewrite (read_at response host N rd p) by (done || lia). rewrite Hpos, (Hd h) by done.
    by apply write_page_more.
  - by apply write_page_none.
Qed.

Lemma copy_mapped_loop fuel src k d j s :
  (Z.to_nat (N - src) <= fuel)%nat → 0 <= src <= N → p + src = sizeof_CQDispatchCmd + k * W → 0 <= k →
  mapped_to k 0 s → ∃ s', copy_mapped host r N rd fuel mapping src d j s = Ok s' ∧ mapped_end s s'.
Proof.
  intros Hfuel Hsrc Hpos Hk. pose proof (ro_page _ Hr) as Hpg. pose proof (ro_bytes _ Hr) as [Hn0 Hnb].
  unfold response_size in HpN. revert src k d j s Hfuel Hsrc Hpos Hk.
  induction fuel as [|fuel IH]; intros src k d j s Hfuel Hsrc Hpos Hk Hs.
  { exists (finished d j s). split; [apply copy_mapped_end; lia|]. apply (mapped_end_at k 0); try done; try lia. by apply finished_0. }
  destruct (Z.lt_ge_cases src N) as [Hlt|Hge].
  2:{ exists (finished d j s). split; [apply copy_mapped_end; lia|]. apply (mapped_end_at k 0); try done; try lia. by apply finished_0. }
  assert (Hkn : k < n) by nia. assert (HkW : (k + 1) * W <= n * W) by nia.
  destruct (left_skip_end r Hr) as (HlW & HsW & Hl0 & Hs0).
  pose proof Hs as [Hdv Hl Hsk _ Hu]. rewrite Hl0 in Hl. rewrite Hs0 in Hsk. rewrite (proj2 (Z.leb_gt P 0)), Z.add_0_r in Hdv by lia.
  rewrite Z.min_l in Hu by lia.
  cbn [copy_mapped]. rewrite (proj2 (Z.ltb_lt src N)), Hl, Hsk by lia. cbn [Z.ltb Z.compare].
  rewrite Hdv, at_place by lia. cbn [mbind outcome_bind].
  set (to := match place k with Some h => u32 (h * P) | None => d end).
  assert (Hto : ∀ h, place k = Some h → to = h * P + 0).
  { intros h Hh. unfold to. rewrite Hh. destruct (place_offset_bounds k h Hh). rewrite u32_small; nia. }
  unfold is_last. rewrite (u32_small (src + W)) by lia. destruct (Z.leb_spec N (src + W)) as [Hlast|Hmore].
  - rewrite (last_page_spec r Hr N) by (done || lia). cbn [mbind outcome_bind]. set (nb := Z.min (N - src) P).
    rewrite (u32_small (src + W)) by lia. rewrite copy_mapped_end by lia. eexists. split; [reflexivity|].
    apply (mapped_end_at k (N - src)); try done; try lia. split; cbn [finished dev_page_id remaining_bytes_of_nonaligned_page
      offset_in_completion_q_data host_page_id contig_dst_offset user].
    + unfold left_of. destruct (Z.leb_spec P (N - src)).
      * rewrite (proj2 (Z.ltb_ge (N - src) P)), andb_false_r by lia. simpl. rewrite u32_small; lia.
      * rewrite (proj2 (Z.ltb_lt (N - src) P)), (proj2 (Z.ltb_lt 0 (N - src))) by lia. simpl.
        rewrite (proj2 (Z.eqb_neq (P - (N - src)) 0)) by lia. lia.
    + done.
    + done.
    + intros Hm. split; [done|]. intros h Hh. destruct (place_offset_bounds k h Hh). rewrite (Hto h Hh). rewrite u32_small by nia. lia.
    + rewrite <- (Z.add_0_l (N - src)) at 1. apply user_more; rewrite ?Z.add_0_l; try done; lia.
  - cbn [mbind outcome_bind]. rewrite (u32_small (src + W)) by lia. set (s' := mk_copy _ _ _ _ _ _ _).
    destruct (IH (src + W) (k + 1) to P s') as (s2 & Hs2 & Hend); [lia|lia|lia|lia| |].
    { apply mapped_next; [lia|]. split; cbn [s' finished dev_page_id remaining_bytes_of_nonaligned_page
        offset_in_completion_q_data host_page_id contig_dst_offset user].
      - rewrite (proj2 (Z.leb_le P W)), u32_small by lia. lia.
      - by rewrite HlW.
      - by rewrite HsW.
      - lia.
      - rewrite <- (Z.add_0_l W) at 1. apply user_more; rewrite ?Z.add_0_l; try done; lia. }
    exists s2. split; [exact Hs2|]. exact Hend.
Qed.

Lemma copy_mapped_round k m s :
  mapped_to k m s → p = sizeof_CQDispatchCmd + k * W + m → 0 <= m < W → 0 <= k → uncut r N m →
  ∃ s', copy_mapped host r N rd (Z.to_nat N) mapping (offset_in_completion_q_data s) (contig_dst_offset s) 0 (cleared s) = Ok s'
    ∧ mapped_end s s'.
Proof.
  intros Hs Hpos Hm Hk Hcut. pose proof (ro_page _ Hr) as Hpg. pose proof (ro_bytes _ Hr) as [Hn0 Hnb].
  unfold response_size in HpN. assert (Hkn : k < n) by nia. assert (HkW : (k + 1) * W <= n * W) by nia.
  destruct (left_skip_end r Hr) as (HlW & HsW & Hl0 & Hs0). pose proof Hs as [Hdv Hl Hsk Hh Hu].
  destruct (decide (0 < m < P)) as [Hmid|Hmid].
  - (* the rest of page k *)
    specialize (Hh Hmid). destruct Hh as [Hhp Hc]. rewrite Z.min_l in Hu by lia. rewrite (proj2 (Z.leb_gt P m)), Z.add_0_r in Hdv by lia.
    assert (HsP : skip_of r m = 0) by (unfold skip_of; by rewrite (proj2 (Z.leb_gt P m)) by lia).
    assert (HlP : left_of r m = P - m) by (unfold left_of; by rewrite (proj2 (Z.ltb_lt 0 m)), (proj2 (Z.ltb_lt m P)) by lia).
    rewrite Hsk, HsP. destruct (Z.to_nat N) as [|fuel] eqn:Hfuel; [lia|]. cbn [copy_mapped].
    rewrite (proj2 (Z.ltb_lt 0 N)) by lia. cbn [cleared remaining_bytes_of_nonaligned_page offset_in_completion_q_data dev_page_id
      host_page_id contig_dst_offset user remaining_bytes_to_read].
    rewrite Hl, HlP, (proj2 (Z.ltb_lt 0 (P - m))), <- HlP by lia.
    assert (HNb : 0 < N < 2 ^ 32) by lia.
    destruct (finish_page_spec r Hr N HNb m Hmid Hcut) as [[HNm ->]|[HNm ->]]; cbn [mbind outcome_bind]; rewrite !Z.add_0_l, Hhp.
    + rewrite (u32_small N) by lia. rewrite copy_mapped_end by lia. eexists. split; [reflexivity|].
      apply (mapped_end_at k (m + N)); try done; try lia. split; cbn [finished dev_page_id remaining_bytes_of_nonaligned_page
        offset_in_completion_q_data host_page_id contig_dst_offset user].
      * unfold left_of. destruct (Z.leb_spec P (m + N)).
        -- rewrite (proj2 (Z.ltb_ge (m + N) P)), andb_false_r by lia. simpl. rewrite u32_small; lia.
        -- rewrite (proj2 (Z.ltb_lt (m + N) P)), (proj2 (Z.ltb_lt 0 (m + N))) by lia. simpl.
           rewrite (proj2 (Z.eqb_neq (P - (m + N)) 0)) by lia. lia.
      * done.
      * rewrite Z.sub_0_r, (u32_small N), Z.sub_diag, (pad_spec r Hr), (u32_small 0) by lia.
        destruct (Z.eqb_spec (left_of r (m + N)) 0), (Z.leb_spec (W - P) 0); simpl; try done.
        unfold skip_of. destruct (Z.leb_spec P (m + N)); lia.
      * intros Hm'. split; [done|]. intros h Hh'. destruct (place_offset_bounds k h Hh'). rewrite (Hc h Hh'), u32_small by nia. lia.
      * apply user_more; try done; lia.
    + rewrite (u32_small (W - m)) by lia. set (s1 := mk_copy _ _ _ _ _ _ _).
      destruct (copy_mapped_loop fuel (W - m) (k + 1) (contig_dst_offset s) (P - m) s1) as (s2 & Hs2 & Hend); [lia|lia|lia|lia| |].
      * apply mapped_next; [lia|]. split; cbn [s1 finished dev_page_id remaining_bytes_of_nonaligned_page
          offset_in_completion_q_data host_page_id contig_dst_offset user].
        -- rewrite Z.eqb_refl, (proj2 (Z.leb_le P W)), u32_small by lia. lia.
        -- by rewrite HlW.
        -- rewrite HsW. by destruct (_ && _).
        -- lia.
        -- replace W with (m + (W - m)) at 1 by lia. apply user_more; try done; lia.
      * exists s2. split; [exact Hs2|]. exact Hend.
  - (* the beginning of a page, past the padding of page k *)
    destruct Hcut as [Hcut1 _].
    assert (Hl' : left_of r m = 0).
    { unfold left_of. destruct (Z.ltb_spec 0 m), (Z.ltb_spec m P); done || lia. }
    assert (Hcl : mapped_to (if P <=? m then k + 1 else k) 0 (cleared s) ∧ 0 <= skip_of r m <= N
      ∧ p + skip_of r m = sizeof_CQDispatchCmd + (if P <=? m then k + 1 else k) * W).
    { unfold skip_of. destruct (Z.leb_spec P m) as [HPm|HPm].
      - split; [|split; lia]. apply mapped_next; [lia|]. split; cbn [cleared dev_page_id remaining_bytes_of_nonaligned_page
          offset_in_completion_q_data host_page_id contig_dst_offset user].
        + rewrite (proj2 (Z.leb_le P W)) by lia. done.
        + congruence.
        + done.
        + lia.
        + rewrite Z.min_r in Hu |- * by lia. done.
      - assert (m = 0) as -> by lia. split; [|split; lia]. split; cbn [cleared dev_page_id remaining_bytes_of_nonaligned_page
          offset_in_completion_q_data host_page_id contig_dst_offset user]; try done.
        + rewrite (proj2 (Z.leb_gt P 0)) by lia. done. }
    destruct Hcl as (Hcl & Hskip & Hsrc). rewrite Hsk.
    destruct (copy_mapped_loop (Z.to_nat N) (skip_of r m) _ (contig_dst_offset s) 0 (cleared s) ltac:(lia) Hskip Hsrc
      ltac:(case_match; lia) Hcl) as (s2 & Hs2 & Hend).
    exists s2. split; [exact Hs2|]. exact Hend.
Qed.
End mapped.

(** * A round of [copy_into_user_space], for every kind of read *)
(** The bytes a round finds: rounds end at multiples of the transfer page size, or with the response. *)
Record chunk_ok (r : ReadBufferDescriptor) (p N : Z) : Prop := mk_chunk_ok {
  ck_pos : 0 < N ∧ 0 <= p ∧ p mod 4096 = 0;
  ck_fits : p + N <= response_size r;
  ck_end : p + N = response_size r ∨ (p + N) mod 4096 = 0
}.

Lemma chunk_size r p N : read_ok r → chunk_ok r p N → 4096 <= N ∨ p + N = response_size r.
Proof. intros Hr [[? [? Hp]] _ [?|He]]; [by right|left]. Z.to_euclidean_division_equations. lia. Qed.

Lemma chunk_uncut r p N k m :
  read_ok r → chunk_ok r p N → p = sizeof_CQDispatchCmd + k * padded_page_size r + m → 0 <= m < padded_page_size r →
  0 <= k → uncut r N m.
Proof.
  intros Hr Hck Hp Hm Hk. pose proof (chunk_size r p N Hr Hck) as HN. destruct Hck as [(HN0 & Hp0 & Hpm) Hfit Hend].
  destruct (ro_page _ Hr) as [Hpg _]. pose proof (ro_pad _ Hr). unfold response_size, sizeof_CQDispatchCmd in *.
  set (W := padded_page_size r) in *. set (P := page_size r) in *.
  assert (HkW1 : (k + 1) * W <= num_pages_read r * W) by (apply Z.mul_le_mono_nonneg_r; [lia|]; apply Z.le_succ_l; nia).
  destruct HN as [HN|HL].
  2:{ split; intros; [lia|right; lia]. }
  split; [lia|]. intros HmP. destruct Hend as [HL|He].
  { right. lia. }
  destruct (ro_cut _ Hr) as [Hc|[Hc Hpad]]; fold W in Hc; [right; lia|]. fold W P in Hpad.
  destruct (Z.le_gt_cases N (P - m)) as [|HPN]; [by left|right].
  assert (HkW : (k * W) mod 32 = 0) by (rewrite Z.mul_mod, Hc, Z.mul_0_r by lia; done).
  destruct (Z.le_gt_cases (W - m) N) as [|HWN]; [done|exfalso].
  set (kW := k * W) in *. clearbody kW W P. Z.to_euclidean_division_equations. lia.
Qed.

(** ** Pages without padding *)
Section aligned.
Context (r : ReadBufferDescriptor) (Hr : read_ok r) (response : list Z) (Hlen : Z.of_nat (length response) = response_size r).
Context (Hpad : page_size r = padded_page_size r) (u0 : mem).
Abbreviation n := (num_pages_read r).
Abbreviation W := (padded_page_size r).

Lemma unpadded_aligned : unpadded r response = bytes_from response sizeof_CQDispatchCmd (n * W).
Proof.
  destruct (ro_bytes _ Hr) as [Hn _]. pose proof (ro_page _ Hr). unfold unpadded.
  cut (∀ j, 0 <= j → concat (page_of r response <$> seqZ 0 j) = bytes_from response sizeof_CQDispatchCmd (j * W)); [auto|].
  apply natlike_ind; [done|]. intros j Hj IH. rewrite <- Z.add_1_r, seqZ_app, fmap_app, concat_app, IH by lia.
  rewrite Z.add_0_l. change (seqZ j 1) with [j]. cbn [fmap list_fmap concat]. rewrite app_nil_r. unfold page_of. rewrite Hpad.
  unfold sizeof_CQDispatchCmd. rewrite bytes_from_app by nia. f_equal. lia.
Qed.

(** [q] bytes copied *)
Record copied_bytes (q : Z) (s : copy_state) : Prop := mk_copied_bytes {
  cb_contig : contig_dst_offset s = dst_offset r + q;
  cb_skip : offset_in_completion_q_data s = 0;
  cb_user : mem_eq (user s) (mem_write u0 (dst r + dst_offset r) (bytes_from response sizeof_CQDispatchCmd q))
}.

Lemma aligned_round host N rd p q s :
  0 <= q → 0 <= N → p = sizeof_CQDispatchCmd + q → p + N <= response_size r → 0 <= rd → rd + N < 2 ^ 32 →
  0 <= dst_offset r ∧ dst_offset r + n * page_size r < 2 ^ 32 →
  mem_read host rd N = bytes_from response p N →
  mem_eq (user s) (mem_write u0 (dst r + dst_offset r) (bytes_from response sizeof_CQDispatchCmd q)) →
  contig_dst_offset s = dst_offset r + q →
  mem_eq (read_sysmem host (dst r + contig_dst_offset s) N rd (user s))
    (mem_write u0 (dst r + dst_offset r) (bytes_from response sizeof_CQDispatchCmd (q + N)))
  ∧ u32 (contig_dst_offset s + N) = dst_offset r + (q + N).
Proof.
  intros Hq HN Hp Hfit Hrd Hrd' Hd Hh Hu Hc. destruct (ro_bytes _ Hr). unfold response_size in *. rewrite Hpad in Hd. split.
  - unfold read_sysmem. rewrite Hh, Hu, Hc, Hp, Z.add_assoc. apply write_more; unfold sizeof_CQDispatchCmd in *; lia.
  - rewrite u32_small; unfold sizeof_CQDispatchCmd in *; lia.
Qed.
End aligned.

(** ** All reads *)
Section read.
Context (r : ReadBufferDescriptor) (Hr : read_ok r) (Hplaces : places_ok r).
Context (response : list Z) (Hlen : Z.of_nat (length response) = response_size r) (u0 : mem).
Abbreviation P := (page_size r).
Abbreviation W := (padded_page_size r).

Definition in_page (state : Z → Z → copy_state → Prop) (p : Z) (s : copy_state) : Prop :=
  ∃ k m, p = sizeof_CQDispatchCmd + k * W + m ∧ 0 <= m < W ∧ 0 <= k ∧ state k m s.

Definition reading_at (p : Z) (s : copy_state) : Prop :=
  match buffer_page_mapping r with
  | None => if P =? W then sizeof_CQDispatchCmd <= p ∧ copied_bytes r response u0 (p - sizeof_CQDispatchCmd) s
            else in_page (copied_to r response u0) p s
  | Some mapping => in_page (mapped_to r response mapping u0) p s
  end.

(** The copy after [p] bytes of the response. *)
Definition reading (p : Z) (s : copy_state) : Prop :=
  remaining_bytes_to_read s = response_size r - p ∧ if decide (p = 0) then s = copy_start r u0 else reading_at p s.

Lemma reading_start : reading 0 (copy_start r u0).
Proof.
  destruct (ro_bytes _ Hr) as [Hn Hb]. pose proof (ro_page _ Hr). split; [|by rewrite decide_True].
  unfold copy_start, response_size, sizeof_CQDispatchCmd in *. cbn [remaining_bytes_to_read].
  rewrite (u32_small (_ * _)), u32_small by nia. lia.
Qed.

Lemma reading_done s : reading (response_size r) s → mem_eq (user s) (read_result r response u0).
Proof.
  intros [_ Hs]. destruct (ro_bytes _ Hr) as [Hn Hb]. pose proof (ro_page _ Hr).
  assert (Hne : response_size r ≠ 0) by (unfold response_size, sizeof_CQDispatchCmd; nia). rewrite decide_False in Hs by done.
  assert (Hend : ∀ k m, response_size r = sizeof_CQDispatchCmd + k * W + m → 0 <= m < W → k = num_pages_read r ∧ m = 0).
  { unfold response_size. intros k m Heq Hm. assert (k = num_pages_read r); [|subst; split; [done|lia]].
    destruct (Z.lt_trichotomy k (num_pages_read r)) as [?|[?|?]]; [nia|done|nia]. }
  unfold read_result, places_ok, reading_at in *. destruct (buffer_page_mapping r) as [mapping|].
  - destruct Hs as (k & m & Hp & Hm & _ & [_ _ _ _ Hu]). destruct (Hend k m Hp Hm) as [-> ->].
    rewrite Hu, Z.min_l, write_page_0 by lia. done.
  - fold (unpadded r response). destruct (Z.eqb_spec P W) as [Heq|].
    + destruct Hs as [_ [_ _ Hu]]. rewrite Hu, unpadded_aligned by done. unfold response_size. by rewrite Z.add_simpl_l.
    + destruct Hs as (k & m & Hp & Hm & _ & [_ _ _ Hu]). destruct (Hend k m Hp Hm) as [-> ->].
      rewrite Hu, Z.min_l, Z.add_0_r by lia. unfold bytes_from. rewrite drop_0, take_ge; [done|].
      pose proof (length_unpadded r Hr response Hlen). lia.
Qed.

Lemma copied_start rem : copied_to r response u0 0 0 (mk_copy (dst_offset r) rem (cur_dev_page_id r) 0 None 0 u0).
Proof.
  pose proof (ro_page _ Hr). destruct (left_skip_end r Hr) as (_ & _ & H3 & H4). split; simpl; rewrite ?Z.min_l by lia; try done; try lia.
  intros a. symmetry. apply mem_write_outside. simpl. lia.
Qed.

Lemma mapped_start mapping rem : mapped_to r response mapping u0 0 0 (mk_copy (dst_offset r) rem (cur_dev_page_id r) 0 None 0 u0).
Proof.
  pose proof (ro_page _ Hr). destruct (left_skip_end r Hr) as (_ & _ & H3 & H4).
  split; simpl; rewrite ?Z.min_l, ?(proj2 (Z.leb_gt P 0)) by lia; try done; try lia.
  by rewrite write_page_0.
Qed.

Lemma copy_chunk_spec host N rd p s :
  chunk_ok r p N → reading p s → 0 <= rd → rd + N < 2 ^ 32 → mem_read host rd N = bytes_from response p N →
  ∃ s', copy_chunk host r N rd s = Ok s' ∧ reading (p + N) s'.
Proof.
  intros Hck Hs Hrd Hrd' Hh. pose proof (chunk_size r p N Hr Hck) as HN4.
  pose proof Hck as [(HN & Hp & _) Hfit _]. destruct (ro_bytes _ Hr) as [Hn Hb]. pose proof (ro_page _ Hr) as Hpg.
  destruct Hs as [Hrem Hs].
  cut (∃ s', copy_chunk host r N rd s = Ok s' ∧ remaining_bytes_to_read s' = response_size r - (p + N) ∧ reading_at (p + N) s').
  { intros (s' & ? & ? & ?). exists s'. split; [done|]. split; [done|]. by rewrite decide_False by lia. }
  assert (H16 : p = 0 → sizeof_CQDispatchCmd <= N).
  { intros ->. unfold response_size, sizeof_CQDispatchCmd in *. nia. }
  assert (Hsz : sizeof_CQDispatchCmd = 16) by done.
  assert (Hrem' : u32 (remaining_bytes_to_read s - N) = response_size r - (p + N)).
  { rewrite Hrem, u32_small; [lia|]. unfold response_size in *. lia. }
  set (s0 := mk_copy (contig_dst_offset s) (u32 (remaining_bytes_to_read s - N)) (dev_page_id s) (remaining_bytes_of_nonaligned_page s)
    (host_page_id s) (offset_in_completion_q_data s) (user s)).
  unfold copy_chunk. unfold places_ok, reading_at in *. destruct (buffer_page_mapping r) as [mapping|] eqn:Hmapping.
  - destruct Hplaces as (Hdev & Hmap & Hpl).
    assert (Hround : ∃ s', copy_mapped host r N rd (Z.to_nat N) mapping (offset_in_completion_q_data s) (contig_dst_offset s) 0 (cleared s0) = Ok s'
      ∧ mapped_end r response mapping u0 N p s0 s').
    { destruct (decide (p = 0)) as [->|Hp0].
      - specialize (H16 eq_refl). subst s. destruct (copy_mapped_loop r Hr response Hlen mapping Hdev Hmap Hpl u0 host N rd 0 HN Hp Hfit Hrd ltac:(lia) Hh
          (Z.to_nat N) sizeof_CQDispatchCmd 0 (dst_offset r) 0 (cleared s0)) as (s' & Hs' & He); try done; try lia.
        + by apply mapped_start.
        + exists s'. split; [exact Hs'|exact He].
      - destruct Hs as (k & m & Hpos & Hm & Hk & Hst). 
        apply (copy_mapped_round r Hr response Hlen mapping Hdev Hmap Hpl u0 host N rd p HN Hp Hfit Hrd ltac:(lia) Hh k m s0);
          try done; [by destruct Hst|by eapply chunk_uncut]. }
    destruct Hround as (s' & Hs' & Hrem2 & Hend). exists s'. split; [exact Hs'|]. split; [by rewrite Hrem2|done].
  - destruct (Z.eqb_spec P W) as [Hpad|Hpad].
    + eexists. split; [reflexivity|]. cbn [remaining_bytes_to_read]. split; [done|].
      set (off := offset_in_completion_q_data s).
      assert (Hoff : 0 <= off <= N ∧ sizeof_CQDispatchCmd <= p + off ∧ contig_dst_offset s = dst_offset r + (p + off - sizeof_CQDispatchCmd)
        ∧ mem_eq (user s) (mem_write u0 (dst r + dst_offset r) (bytes_from response sizeof_CQDispatchCmd (p + off - sizeof_CQDispatchCmd)))).
      { unfold off. destruct (decide (p = 0)) as [->|Hp0].
        - specialize (H16 eq_refl). subst s. cbn [copy_start offset_in_completion_q_data contig_dst_offset user].
          split_and!; try lia. intros a. symmetry. apply mem_write_outside. simpl. lia.
        - destruct Hs as [Hp16 [Hc Hsk Hu]]. rewrite Hsk, Z.add_0_r. split_and!; done || lia. }
      destruct Hoff as (Hoff & Hp16 & Hc & Hu). rewrite (u32_small (N - off)), (u32_small (rd + off)) by lia.
      destruct (aligned_round r Hr response Hlen Hpad u0 host (N - off) (rd + off) (p + off) (p + off - sizeof_CQDispatchCmd) s)
        as [Hu' Hc']; try done; try lia.
      { rewrite (mem_read_sub host rd N off), Hh by lia. by rewrite bytes_from_sub by lia. }
      split; [lia|]. split; cbn [contig_dst_offset offset_in_completion_q_data user]; [rewrite Hc'; lia|done|].
      rewrite Hu'. by replace (p + off - sizeof_CQDispatchCmd + (N - off)) with (p + N - sizeof_CQDispatchCmd) by lia.
    + assert (Hround : ∃ s', copy_pages host r N rd (Z.to_nat N) (dst r + contig_dst_offset s) (offset_in_completion_q_data s) 0 (cleared s0) = Ok s'
        ∧ round_end r response u0 N p s0 s').
      { destruct (decide (p = 0)) as [->|Hp0].
        - specialize (H16 eq_refl). subst s. destruct (copy_pages_loop r Hr response Hlen u0 host N rd 0 Hp Hfit Hrd ltac:(lia) Hh (Z.to_nat N)
            sizeof_CQDispatchCmd 0 (dst r + dst_offset r) 0 (cleared s0)) as (s' & Hs' & He); try done; try lia.
          + by apply copied_start.
          + cbn [s0 cleared copy_start contig_dst_offset]. lia.
          + cbn [s0 cleared copy_start contig_dst_offset]. lia.
          + exists s'. split; [exact Hs'|exact He].
        - destruct Hs as (k & m & Hpos & Hm & Hk & Hst).
          apply (copy_pages_round r Hr response Hlen u0 host N rd p HN Hp Hfit Hrd ltac:(lia) Hh k m s0);
            try done; [by destruct Hst|by eapply chunk_uncut]. }
      destruct Hround as (s' & Hs' & Hrem2 & Hend). exists s'. split; [exact Hs'|]. split; [by rewrite Hrem2|done].
Qed.
End read.
