(* ===== verification/CompletionStream.v ===== *)
(** * The completion stream: dispatcher and reader thread together

    One completion queue as a transition system: the host asks for reads of
    buffers and for events, the dispatcher answers them in order, a piece at a
    time as data arrive in its buffer, and the host's reader thread
    ([read_completion_queue]) takes the answers in order, copying what a poll
    found.  The data of a piece and the write pointer that publishes it are two
    steps, as are the reader's poll and its copying. *)
From S2P Require Import Prelude CommandQueue Prefetcher CompletionQueue.

Definition EVENT_PADDED_SIZE : Z := 16.

(** What waits in [issued_completion_q_reads]. *)
Inductive request :=
| ReadBuffer (r : ReadBufferDescriptor)
| ReadEvent (event_id global_offset : Z).

Definition response_length (q : request) : Z :=
  match q with
  | ReadBuffer r => sizeof_CQDispatchCmd + num_pages_read r * padded_page_size r
  | ReadEvent _ _ => sizeof_CQDispatchCmd + EVENT_PADDED_SIZE
  end.

(** What the device answers: any data of the right length; for an event, its number. *)
Definition answers (q : request) (data : list Z) : Prop :=
  Z.of_nat (length data) = response_length q ∧ Forall (λ b, 0 <= b < 256) data
  ∧ match q with
    | ReadBuffer _ => True
    | ReadEvent event_id _ => foldr (λ b w, b + 256 * w) 0 (take 4 (drop 16 data)) = event_id
    end.

(** The dispatcher: between responses, with the rest of a response to send, or with pages written
    that are not published yet. *)
Inductive sending :=
| Ready
| Sending (data : list Z)
| Written (num_pages : Z) (data : list Z).

(** The reader: between requests, in the loop of [copy_into_user_space], or after its poll there. *)
Inductive reader :=
| Idling
| Copying (r : ReadBufferDescriptor) (s : copy_state)
| Polled (r : ReadBufferDescriptor) (s : copy_state) (word : Z).

Record completion_system := mk_completion {
  cs_manager : SystemMemoryManager;
  cs_host : mem;              (* host memory at the device's addresses *)
  cs_dispatcher : dispatcher;
  cs_sending : sending;
  cs_reader : reader;
  cs_user : mem;
  cs_requests : list request;
  cs_responses : list (list Z);
  cs_finished : nat
}.

(** The host's write of its read pointer, seen by the dispatcher. *)
Definition apply_rd_effects (effects : list effect) (d : dispatcher) : dispatcher :=
  foldl (λ d e, match e with
                | fast_write _ value =>
                  mk_dispatcher (completion_fifo_wr_ptr d) (completion_fifo_wr_toggle d) value (completion_wr_word d) (host_wr_word d)
                | _ => d
                end) d effects.

Definition after_push (data : list Z) : sending := match data with [] => Ready | _ => Sending data end.

(** A round of copying ended: the request is finished when nothing is left to read. *)
Definition after_round (r : ReadBufferDescriptor) (s : copy_state) (user_ : mem) (finished_ : nat) : reader * mem * nat :=
  if remaining_bytes_to_read s =? 0 then (Idling, user s, S finished_) else (Copying r s, user_, finished_).

Section system.
Context (a : completion_args) (cq_id : nat).

(** [completion_queue_wait_front] ends with this word. *)
Definition poll_ends (m : SystemMemoryManager) (d : dispatcher) (word : Z) : Prop :=
  completion_queue_wait_front [(host_wr_word d, false)] cq_id m = Ok (Some word).

Inductive completion_step : completion_system → completion_system → Prop :=
| host_requests m h d sd rd u qs rs fin q :
  completion_step (mk_completion m h d sd rd u qs rs fin) (mk_completion m h d sd rd u (qs ++ [q]) rs fin)
| dispatcher_begins m h d rd u qs rs fin q data :
  qs !! length rs = Some q → answers q data →
  completion_step (mk_completion m h d Ready rd u qs rs fin) (mk_completion m h d (Sending data) rd u qs (rs ++ [data]) fin)
| dispatcher_writes m h d data rd u qs rs fin available num_pages :
  (* whole pages have arrived, or all that is left *)
  0 < available <= completion_queue_page_size a * dispatch_buffer_pages (constants m) →
  available mod completion_queue_page_size a = 0 ∨ Z.of_nat (length data) <= available →
  let xfer := xfer_size (Z.of_nat (length data)) available in
  xfer_pages a xfer = Ok num_pages → completion_queue_reserve_back a num_pages d = true →
  completion_step (mk_completion m h d (Sending data) rd u qs rs fin)
    (mk_completion m (write_to_host a data xfer d h) d (Written num_pages (drop (Z.to_nat xfer) data)) rd u qs rs fin)
| dispatcher_pushes m h d num_pages data rd u qs rs fin :
  completion_step (mk_completion m h d (Written num_pages data) rd u qs rs fin)
    (mk_completion m h (completion_queue_push_back a num_pages d) (after_push data) rd u qs rs fin)
| reader_starts m h d sd u qs rs fin r word :
  qs !! fin = Some (ReadBuffer r) → poll_ends m d word →
  completion_step (mk_completion m h d sd Idling u qs rs fin) (mk_completion m h d sd (Copying r (copy_start r u)) u qs rs fin)
| reader_polls m h d sd r s u qs rs fin word :
  poll_ends m d word →
  completion_step (mk_completion m h d sd (Copying r s) u qs rs fin) (mk_completion m h d sd (Polled r s word) u qs rs fin)
| reader_copies m h d sd r s word u qs rs fin m' effects s' :
  copy_round cq_id h r word m s = Ok (m', effects, s') →
  completion_step (mk_completion m h d sd (Polled r s word) u qs rs fin)
    (let '(rd', u', fin') := after_round r s' u fin in mk_completion m' h (apply_rd_effects effects d) sd rd' u' qs rs fin')
| reader_takes_event m h d sd u qs rs fin event_id global_offset word m' effects :
  qs !! fin = Some (ReadEvent event_id global_offset) → poll_ends m d word →
  read_event cq_id h event_id global_offset m = Ok (m', effects) →
  completion_step (mk_completion m h d sd Idling u qs rs fin)
    (mk_completion m' h (apply_rd_effects effects d) sd Idling u qs rs (S fin)).

Definition completion_reachable (s0 s : completion_system) : Prop := rtc completion_step s0 s.
End system.

(** ** Start-up (tt_metal/impl/device/device.cpp, kernels/cq_dispatch.cpp) *)
Definition dispatch_compile_args (m : SystemMemoryManager) (channel : Z) (cq_id : nat) : outcome completion_args :=
  let command_queue_start_addr := get_absolute_cq_offset channel (Z.of_nat cq_id) (cq_size m) in
  let cq_start := get_host_command_queue_addr (hal_ m) HOST_UNRESERVED in
  let issue_queue_start_addr := u32 (command_queue_start_addr + cq_start) in
  issue_queue_size ← get_issue_queue_size cq_id m;
  completion_queue_size_ ← get_completion_queue_size cq_id m;
  Ok (mk_completion_args command_queue_start_addr (u32 (issue_queue_start_addr + issue_queue_size)) completion_queue_size_
        (Z.shiftl 1 DISPATCH_BUFFER_LOG_PAGE_SIZE)).

(** The words the host writes before the kernel starts, and what the kernel makes of them. *)
Definition dispatcher_start (completion_queue_start_addr : Z) : dispatcher :=
  let completion_queue_start_addr_16B := Z.shiftr completion_queue_start_addr 4 in
  mk_dispatcher (ptr_of completion_queue_start_addr_16B) (toggle_of completion_queue_start_addr_16B)
    completion_queue_start_addr_16B completion_queue_start_addr_16B completion_queue_start_addr_16B.

Definition completion_start (m : SystemMemoryManager) (a : completion_args) (host user_ : mem) : completion_system :=
  mk_completion m host (dispatcher_start (completion_queue_base_addr a)) Ready Idling user_ [] [] 0.
