(* ===== verification/CompletionHost.v ===== *)
(** * The ring of completion pages: pointers, toggles, space

    Both sides count pages from the start; a pointer is the count modulo the
    size of the ring and its toggle the parity of the lap. *)
From S2P Require Import Prelude CommandQueue CommandQueueProps CompletionQueue CompletionStream Arith.
Record ring := mk_ring { rbase : Z; rpages : Z }.

Record ring_ok (L : ring) : Prop := mk_ring_ok {
  rk_base : 0 <= rbase L ∧ rbase L mod 16 = 0;
  rk_pages : 0 < rpages L;
  (* a write to the last pages is computed without overflow *)
  rk_end : rbase L + 4096 * rpages L + 2 ^ 24 <= 2 ^ 32
}.

Section ring.
Context (L : ring) (HL : ring_ok L).
Abbreviation T := (rpages L).

Definition ptr_at (n : Z) : Z := rbase L / 16 + 256 * (n mod T).
Definition toggle_at (n : Z) : Z := n / T mod 2.
Definition word_for (n : Z) : Z := ptr_at n + toggle_at n * 2 ^ 31.

Lemma base_16 : rbase L / 16 * 16 = rbase L ∧ 0 <= rbase L / 16 ∧ rbase L / 16 + 256 * T < 2 ^ 28.
Proof. destruct (rk_base L HL). pose proof (rk_pages L HL). pose proof (rk_end L HL). Z.to_euclidean_division_equations. lia. Qed.

Lemma ptr_bounds n : 0 <= ptr_at n < 2 ^ 28 ∧ 0 <= n mod T < T.
Proof. pose proof base_16. pose proof (rk_pages L HL). pose proof (Z.mod_pos_bound n T). unfold ptr_at. lia. Qed.

Lemma toggle_bounds n : toggle_at n = 0 ∨ toggle_at n = 1.
Proof. unfold toggle_at. pose proof (Z.mod_pos_bound (n / T) 2). lia. Qed.

Lemma word_decode p t : 0 <= p < 2 ^ 31 → t = 0 ∨ t = 1 → ptr_of (p + t * 2 ^ 31) = p ∧ toggle_of (p + t * 2 ^ 31) = t.
Proof.
  intros Hp Ht. unfold ptr_of, toggle_of. change 0x7fffffff with (Z.ones 31). rewrite Z.land_ones, Z.shiftr_div_pow2 by done.
  rewrite Z.mod_add, Z.mod_small, Z.div_add, Z.div_small by lia. done.
Qed.

Lemma word_parts n : ptr_of (word_for n) = ptr_at n ∧ toggle_of (word_for n) = toggle_at n.
Proof. pose proof (ptr_bounds n). apply word_decode; [lia|apply toggle_bounds]. Qed.

Lemma word_encode p t : 0 <= p < 2 ^ 31 → t = 0 ∨ t = 1 → Z.lor p (u32 (Z.shiftl t 31)) = p + t * 2 ^ 31.
Proof.
  intros Hp Ht. rewrite Z.lor_comm. rewrite u32_small by (rewrite Z.shiftl_mul_pow2 by done; lia).
  rewrite lor_shiftl by lia. lia.
Qed.

(** Laps of two counts at most a ring apart. *)
Lemma laps r w :
  0 <= r <= w → w <= r + T →
  (w / T = r / T ∧ w mod T = r mod T + (w - r)) ∨ (w / T = r / T + 1 ∧ w mod T = r mod T + (w - r) - T).
Proof.
  intros Hr Hw. pose proof (rk_pages L HL). pose proof (Z.mod_pos_bound r T). pose proof (Z.mod_pos_bound w T).
  pose proof (Z.div_mod r T). pose proof (Z.div_mod w T). assert (w / T = r / T ∨ w / T = r / T + 1) as [He|He] by nia; nia.
Qed.

Lemma toggle_next n k : n / T = k → toggle_at n = k mod 2.
Proof. unfold toggle_at. by intros ->. Qed.

Lemma toggles r w :
  0 <= r <= w → w <= r + T → toggle_at w = toggle_at r ∧ w mod T = r mod T + (w - r) ∨ toggle_at w ≠ toggle_at r ∧ w mod T = r mod T + (w - r) - T.
Proof.
  intros Hr Hw. destruct (laps r w Hr Hw) as [[He Hm]|[He Hm]]; [left|right]; (split; [|done]); unfold toggle_at; rewrite He; [done|].
  Z.to_euclidean_division_equations. lia.
Qed.

(** ** The dispatcher *)
Record args_match (a : completion_args) : Prop := mk_args_match {
  am_base : completion_queue_base_addr a = rbase L;
  am_size : completion_queue_size a = 4096 * T;
  am_page : completion_queue_page_size a = 4096
}.

Context (a : completion_args) (Ha : args_match a).

Lemma args_16B :
  completion_queue_end_addr a = rbase L + 4096 * T ∧ completion_queue_size_16B a = 256 * T ∧ completion_queue_page_size_16B a = 256
  ∧ completion_queue_end_addr_16B a = rbase L / 16 + 256 * T ∧ completion_queue_base_addr_16B a = rbase L / 16.
Proof.
  destruct Ha as [Hb Hs Hp]. pose proof base_16. pose proof (rk_end L HL). destruct (rk_base L HL). pose proof (rk_pages L HL).
  assert (He : completion_queue_end_addr a = rbase L + 4096 * T) by (unfold completion_queue_end_addr; rewrite Hb, Hs; apply u32_small; lia).
  unfold completion_queue_size_16B, completion_queue_page_size_16B, completion_queue_end_addr_16B, completion_queue_base_addr_16B.
  rewrite He, Hb, Hs, Hp, !Z.shiftr_div_pow2 by done. change (2 ^ 4) with 16.
  split_and!; try done; Z.to_euclidean_division_equations; lia.
Qed.

(** The dispatcher published [w] pages and knows that [r] were read. *)
Record dispatcher_at (w r : Z) (d : dispatcher) : Prop := mk_dispatcher_at {
  da_ptr : completion_fifo_wr_ptr d = ptr_at w;
  da_toggle : completion_fifo_wr_toggle d = toggle_at w;
  da_rd : completion_rd_word d = word_for r;
  da_host : host_wr_word d = word_for w
}.

Lemma space_spec w r d : dispatcher_at w r d → 0 <= r <= w → w <= r + T → available_space a d = 256 * (T - (w - r)).
Proof.
  intros [Hp Ht Hr _] Hrw Hw. unfold available_space. destruct (word_parts r) as [Hpr Htr]. rewrite Hr, Hpr, Htr, Hp, Ht.
  pose proof (ptr_bounds r) as [_ ?]. pose proof (ptr_bounds w) as [_ ?]. pose proof (rk_end L HL). destruct (rk_base L HL).
  destruct args_16B as (_ & -> & _). unfold ptr_at.
  destruct (toggles r w Hrw Hw) as [[He Hm]|[He Hm]].
  - rewrite (proj2 (Z.eqb_eq _ _)) by done. cbn [negb]. rewrite (u32_small (rbase L / 16 + 256 * (w mod T) - _)) by lia. rewrite u32_small; lia.
  - rewrite (proj2 (Z.eqb_neq _ _)) by (intros ?; by apply He). cbn [negb]. rewrite u32_small; lia.
Qed.

Lemma reserve_pages_spec w r d k :
  dispatcher_at w r d → 0 <= r <= w → w <= r + T → 0 <= k < 2 ^ 20 →
  completion_queue_reserve_back a k d = bool_decide (w + k <= r + T).
Proof.
  intros Hd Hr Hw Hk. unfold completion_queue_reserve_back. rewrite (space_spec w r d Hd Hr Hw).
  destruct args_16B as (_ & _ & -> & _). rewrite (u32_small (k * 256)) by lia.
  destruct (Z.ltb_spec (256 * (T - (w - r))) (k * 256)); case_bool_decide; simpl; done || lia.
Qed.

Lemma push_pages_spec w r d k :
  dispatcher_at w r d → 0 <= w → 0 <= k <= T → dispatcher_at (w + k) r (completion_queue_push_back a k d).
Proof.
  intros [Hp Ht Hr Hh] Hw Hk. pose proof base_16. pose proof (ptr_bounds w) as [Hbw Hmw]. pose proof (ptr_bounds (w + k)) as [Hbk Hmk].
  pose proof (toggle_bounds (w + k)) as Htk. pose proof (toggle_bounds w) as Htw. pose proof (rk_end L HL). destruct (rk_base L HL).
  unfold completion_queue_push_back. destruct args_16B as (_ & _ & -> & -> & ->). rewrite (u32_small (k * 256)), Hp, Ht by lia.
  assert (Hpush : ∀ p t, p = ptr_at (w + k) → t = toggle_at (w + k) →
    dispatcher_at (w + k) r (notify_host_of_completion_queue_write_pointer (mk_dispatcher p t (completion_rd_word d) (completion_wr_word d) (host_wr_word d)))).
  { intros p t -> ->. split; simpl; try done. rewrite word_encode; [done|lia|done]. }
  destruct (laps w (w + k) ltac:(lia) ltac:(lia)) as [[He Hm]|[He Hm]]; unfold ptr_at in *; rewrite (u32_small (_ + k * 256)) by lia.
  - rewrite (proj2 (Z.leb_gt _ _)) by lia. apply Hpush; [lia|]. unfold toggle_at. by rewrite He.
  - rewrite (proj2 (Z.leb_le _ _)) by lia.
    rewrite (u32_small (rbase L / 16 + 256 * (w mod T) + k * 256 - _)) by lia. rewrite u32_small by lia.
    apply Hpush; [lia|]. unfold not_toggle, toggle_at in *. rewrite He.
    clear -Htw. destruct Htw as [Ht| Ht]; rewrite Ht; simpl; Z.to_euclidean_division_equations; lia.
Qed.

(** ** Bytes *)

(** Where byte [g] of the stream lies. *)
Definition ring_addr (g : Z) : Z := rbase L + g mod (4096 * T).

Lemma mod_at y i M k : 0 <= y mod M + i - k * M < M → (y + i) mod M = y mod M + i - k * M.
Proof.
  intros Hv. symmetry. apply (Z.mod_unique_pos _ _ (y / M + k)); [done|]. pose proof (Z.div_mod y M). lia.
Qed.

Lemma mod_page n : (4096 * n) mod (4096 * T) = 4096 * (n mod T).
Proof. pose proof (rk_pages L HL). apply Zmult_mod_distr_l. Qed.

Lemma ring_addr_at n i k :
  0 <= 4096 * (n mod T) + i - k * (4096 * T) < 4096 * T → ring_addr (4096 * n + i) = rbase L + (4096 * (n mod T) + i - k * (4096 * T)).
Proof. intros Hi. unfold ring_addr. rewrite <- mod_page in *. by rewrite (mod_at _ _ _ k) by done. Qed.

Lemma ptr_addr n : u32 (Z.shiftl (ptr_at n) 4) = rbase L + 4096 * (n mod T).
Proof.
  pose proof (ptr_bounds n) as [Hb Hm]. pose proof base_16. pose proof (rk_end L HL).
  rewrite Z.shiftl_mul_pow2 by done. change (2 ^ 4) with 16. unfold ptr_at in *. rewrite u32_small; lia.
Qed.

Lemma nth_take_lt (l : list Z) n i : (i < n)%nat → nth i (take n l) 0 = nth i l 0.
Proof. intros Hi. rewrite !nth_lookup. by rewrite lookup_take_lt by done. Qed.

Lemma nth_drop_add (l : list Z) n i : nth i (drop n l) 0 = nth (n + i) l 0.
Proof. rewrite !nth_lookup. by rewrite lookup_drop. Qed.

(** A piece of a response goes to the next bytes of the ring; the bytes before it stay, as many as the ring holds. *)
Lemma write_spec w r d data xfer host :
  dispatcher_at w r d → 0 <= xfer <= 2 ^ 24 → xfer <= 4096 * T → xfer <= Z.of_nat (length data) →
  (∀ i, 0 <= i < xfer → write_to_host a data xfer d host (ring_addr (4096 * w + i)) = nth (Z.to_nat i) data 0)
  ∧ ∀ i, xfer - 4096 * T <= i < 0 → write_to_host a data xfer d host (ring_addr (4096 * w + i)) = host (ring_addr (4096 * w + i)).
Proof.
  intros [Hp _ _ _] Hx HxT Hlen. pose proof (ptr_bounds w) as [_ Hm]. pose proof (rk_end L HL). destruct (rk_base L HL).
  destruct args_16B as (He & _). unfold write_to_host. rewrite Hp, ptr_addr, He, (am_base a Ha).
  rewrite (u32_small (_ + xfer)), (u32_small (_ - (_ + _))) by lia.
  set (x := 4096 * (w mod T)) in *.
  assert (Hadd : ∀ i k, 0 <= x + i - k * (4096 * T) < 4096 * T → ring_addr (4096 * w + i) = rbase L + (x + i - k * (4096 * T)))
    by (intros i k; apply ring_addr_at).
  destruct (Z.ltb_spec (rbase L + 4096 * T) (rbase L + x + xfer)) as [Hwrap|Hfit].
  - replace (rbase L + 4096 * T - (rbase L + x)) with (4096 * T - x) by lia. set (c := 4096 * T - x) in *.
    rewrite (u32_small (xfer - c)) by lia.
    split; intros i Hi.
    + destruct (Z.lt_ge_cases i c).
      * rewrite (Hadd i 0), mem_write_outside, mem_write_inside by (rewrite ?length_take, ?length_drop; lia).
        rewrite nth_take_lt by lia. f_equal. lia.
      * rewrite (Hadd i 1), mem_write_inside by (rewrite ?length_take, ?length_drop; lia).
        rewrite nth_take_lt, nth_drop_add by lia. f_equal. lia.
    + assert (0 <= x + i) by lia. rewrite (Hadd i 0) by lia. by rewrite !mem_write_outside by (rewrite ?length_take, ?length_drop; lia).
  - split; intros i Hi.
    + rewrite (Hadd i 0), mem_write_inside by (rewrite ?length_take; lia). rewrite nth_take_lt by lia. f_equal. lia.
    + destruct (Z.lt_ge_cases (x + i) 0).
      * rewrite (Hadd i (-1)) by lia. by rewrite mem_write_outside by (rewrite ?length_take; lia).
      * rewrite (Hadd i 0) by lia. by rewrite mem_write_outside by (rewrite ?length_take; lia).
Qed.

(** What the host reads up to the end of the ring. *)
Lemma read_spec host r bytes :
  (∀ i, 0 <= i < Z.of_nat (length bytes) → host (ring_addr (4096 * r + i)) = nth (Z.to_nat i) bytes 0) →
  Z.of_nat (length bytes) <= 4096 * (T - r mod T) →
  mem_read host (rbase L + 4096 * (r mod T)) (Z.of_nat (length bytes)) = bytes.
Proof.
  intros Hb Hlen. pose proof (ptr_bounds r) as [_ Hm].
  apply list_eq_same_length with (n := length bytes); [done|by rewrite length_mem_read, Nat2Z.id|].
  intros i x y Hi Hx Hy. rewrite mem_read_lookup in Hx by lia. injection Hx as <-.
  specialize (Hb (Z.of_nat i) ltac:(lia)). rewrite (ring_addr_at r _ 0) in Hb by lia.
  rewrite Nat2Z.id, nth_lookup, Hy in Hb. simpl in Hb. rewrite <- Hb. f_equal. lia.
Qed.
End ring.

(** * The host's side of the completion ring *)
Section host.
Context (L : ring) (HL : ring_ok L) (cq_id : nat).
Abbreviation T := (rpages L).

(** The manager read [n] pages of the ring. *)
Record manager_at (n : Z) (m : SystemMemoryManager) : Prop := mk_manager_at {
  ma_interface : ∃ i, cq_interfaces m !! cq_id = Some i ∧ completion_fifo_rd_ptr i = ptr_at L n
    ∧ Z.b2z (completion_fifo_rd_toggle i) = toggle_at L n
    ∧ issue_fifo_limit i = rbase L / 16 ∧ completion_fifo_limit i = rbase L / 16 + 256 * T;
  ma_byte_addr : is_Some (completion_byte_addrs m !! cq_id);
  ma_pages : 1 <= dispatch_buffer_pages (constants m) ∧ 4096 * dispatch_buffer_pages (constants m) <= 2 ^ 24
}.

Lemma host_pointers n m :
  manager_at n m →
  get_completion_queue_read_ptr cq_id m = Ok (rbase L + 4096 * (n mod T))
  ∧ get_completion_queue_read_toggle cq_id m = Ok (toggle_at L n)
  ∧ get_completion_queue_limit cq_id m = Ok (rbase L + 4096 * T).
Proof.
  intros [(i & Hi & Hp & Ht & _ & Hl) _ _]. pose proof (rk_pages L HL). pose proof (rk_end L HL). pose proof (base_16 L HL).
  unfold get_completion_queue_read_ptr, get_completion_queue_read_toggle, get_completion_queue_limit, interface_at.
  rewrite (at_some _ _ _ Hi). cbn [mbind outcome_bind]. rewrite Hp, Ht, Hl, (ptr_addr L HL). split_and!; try done.
  f_equal. rewrite Z.shiftl_mul_pow2 by done. change (2 ^ 4) with 16. rewrite u32_small; lia.
Qed.

(** A poll ends the wait when there are pages the host has not read. *)
Lemma wait_front_spec n w m d word :
  manager_at n m → dispatcher_at L w n d → 0 <= n <= w → w <= n + T →
  poll_ends cq_id m d word ↔ word = word_for L w ∧ n < w.
Proof.
  intros [(i & Hi & Hp & Ht & _ & _) _ _] [_ _ _ Hw] Hn Hwn. destruct (word_parts L HL w) as [Hpw Htw].
  unfold poll_ends, completion_queue_wait_front, interface_at. rewrite (at_some _ _ _ Hi). cbn [mbind outcome_bind completion_queue_wait_loop].
  fold (ptr_of (host_wr_word d)). fold (toggle_of (host_wr_word d)). rewrite Hw, Hpw, Htw, Hp, Ht.
  pose proof (rk_pages L HL) as HT. rewrite andb_true_r.
  assert (Heq : (ptr_at L n =? ptr_at L w) && (toggle_at L n =? toggle_at L w) = bool_decide (n = w)).
  { unfold ptr_at. case_bool_decide as Hnw; [subst; by rewrite !Z.eqb_refl|]. apply andb_false_iff.
    destruct (toggles L HL n w Hn Hwn) as [[_ Hm]|[He _]]; [left|right]; apply Z.eqb_neq; lia. }
  rewrite Heq. case_bool_decide as Hnw; split.
  - done.
  - lia.
  - intros [= <-]. split; [done|lia].
  - by intros [-> _].
Qed.

Lemma avail_spec n w :
  0 <= n < w → w <= n + T →
  bytes_avail_in_completion_queue (rbase L + 4096 * T) (rbase L + 4096 * (n mod T)) (toggle_at L n) (word_for L w)
  = 4096 * Z.min (w - n) (T - n mod T).
Proof.
  intros Hn Hw. destruct (word_parts L HL w) as [Hpw Htw]. unfold bytes_avail_in_completion_queue. rewrite Hpw, Htw, (ptr_addr L HL).
  pose proof (rk_pages L HL) as HT. pose proof (rk_end L HL). destruct (rk_base L HL). pose proof (ptr_bounds L HL n) as [_ Hm]. pose proof (ptr_bounds L HL w) as [_ Hm'].
  destruct (toggles L HL n w ltac:(lia) Hw) as [[He Hmod]|[He Hmod]].
  - rewrite He, Z.eqb_refl, (proj2 (Z.ltb_lt _ _)) by lia. cbn [andb]. rewrite u32_small; lia.
  - rewrite (proj2 (Z.eqb_neq _ _) He), andb_false_r. rewrite u32_small; lia.
Qed.

(** Taking pages up to the end of the ring: the new read pointer reaches the dispatcher. *)
Lemma pop_spec n k w m d :
  manager_at n m → dispatcher_at L w n d → 0 <= n → 0 <= k → n mod T + k <= T →
  ∃ m' effects, completion_queue_pop_front k cq_id m = Ok (m', effects)
    ∧ manager_at (n + k) m' ∧ dispatcher_at L w (n + k) (apply_rd_effects effects d)
    ∧ cq_to_last_completed_event m' = cq_to_last_completed_event m ∧ constants m' = constants m.
Proof.
  intros [(i & Hi & Hp & Ht & Hil & Hl) [x Hx] Hpages] [Hdp Hdt _ Hdh] Hn Hk Hfit.
  pose proof (base_16 L HL). pose proof (ptr_bounds L HL n) as [_ Hm]. pose proof (rk_end L HL). destruct (rk_base L HL).
  pose proof (ptr_bounds L HL (n + k)) as [Hb Hm']. pose proof (toggle_bounds L (n + k)) as Htb. pose proof (toggle_bounds L n) as Htn.
  unfold completion_queue_pop_front, interface_at. rewrite (at_some _ _ _ Hi). cbn [mbind outcome_bind].
  change TRANSFER_PAGE_SIZE with 4096. rewrite (u32_small (k * 4096)), Z.shiftr_div_pow2 by lia. change (2 ^ 4) with 16.
  replace (k * 4096 / 16) with (256 * k) by (Z.to_euclidean_division_equations; lia).
  cbn [with_completion_rd completion_fifo_rd_ptr completion_fifo_limit]. rewrite Hp, Hl.
  rewrite (u32_small (ptr_at L n + _)) by (unfold ptr_at in *; lia).
  cbv zeta. match goal with |- context [set_interface cq_id ?x m] => set (i' := x) end.
  assert (Hi' : completion_fifo_rd_ptr i' = ptr_at L (n + k) ∧ Z.b2z (completion_fifo_rd_toggle i') = toggle_at L (n + k)
    ∧ issue_fifo_limit i' = rbase L / 16 ∧ completion_fifo_limit i' = rbase L / 16 + 256 * T).
  { pose proof (rk_pages L HL) as HT. unfold i', ptr_at in *.
    destruct (laps L HL n (n + k) ltac:(lia) ltac:(lia)) as [[He Hmod]|[He Hmod]].
    - rewrite (proj2 (Z.leb_gt _ _)) by lia.
      cbn [with_completion_rd completion_fifo_rd_ptr completion_fifo_rd_toggle issue_fifo_limit completion_fifo_limit].
      rewrite Ht. unfold toggle_at. rewrite He. split_and!; done || lia.
    - rewrite (proj2 (Z.leb_le _ _)) by lia.
      cbn [with_completion_rd completion_fifo_rd_ptr completion_fifo_rd_toggle issue_fifo_limit completion_fifo_limit].
      split_and!; [lia| |done|done]. unfold toggle_at in *. rewrite He. clear -Ht.
      destruct (completion_fifo_rd_toggle i); simpl in *; Z.to_euclidean_division_equations; lia. }
  clearbody i'. destruct Hi' as (Hp' & Ht' & Hil' & Hl'). set (m1 := set_interface cq_id i' m).
  assert (Hi1 : cq_interfaces m1 !! cq_id = Some i').
  { unfold m1, set_interface. cbn [with_interfaces cq_interfaces]. apply list_lookup_insert_eq. by eapply lookup_lt_Some. }
  unfold send_completion_queue_read_ptr, interface_at. rewrite (at_some _ _ _ Hi1). cbn [mbind outcome_bind].
  rewrite (at_some _ _ x) by done. cbn [mbind outcome_bind]. do 2 eexists. split; [done|]. split_and!; [|  |done|done].
  - split; [exists i'; split_and!; done|by exists x|done].
  - unfold apply_rd_effects. cbn [foldl]. split; cbn [completion_fifo_wr_ptr completion_fifo_wr_toggle completion_rd_word host_wr_word]; try done.
    unfold ptr_and_toggle. rewrite Hp', Ht', word_encode by lia. done.
Qed.
End host.
