(* ===== verification/CompletionInv.v ===== *)
(** * The invariant of the completion stream *)
From S2P Require Import Prelude Arith CommandQueue CommandQueueProps CompletionQueue CompletionRead CompletionStream CompletionHost.

(** The fields of a state that is given field by field. *)
Ltac fields := cbn [cs_manager cs_host cs_dispatcher cs_sending cs_reader cs_user cs_requests cs_responses cs_finished] in *.

(** ** Requests *)
Definition event_value (q : request) : option Z :=
  match q with ReadBuffer _ => None | ReadEvent event_id global_offset => Some (global_offset + event_id) end.

Definition request_ok (q : request) : Prop :=
  match q with
  | ReadBuffer r => read_ok r ∧ places_ok r
  | ReadEvent event_id global_offset => 0 <= event_id ∧ 0 <= global_offset ∧ global_offset + event_id < 2 ^ 31
  end.

(** Well-formed requests, the events in increasing order. *)
Record requests_ok (qs : list request) : Prop := mk_requests_ok {
  rq_each : Forall request_ok qs;
  rq_events : ∀ i j q q' v v', (i < j)%nat → qs !! i = Some q → qs !! j = Some q' →
    event_value q = Some v → event_value q' = Some v' → v <= v'
}.

(** User memory after the first [k] requests. *)
Definition result (u : mem) (answer : request * list Z) : mem :=
  match answer.1 with ReadBuffer r => read_result r answer.2 u | ReadEvent _ _ => u end.
Definition results (qs : list request) (rs : list (list Z)) (k : nat) (u : mem) : mem := foldl result u (take k (zip qs rs)).

Definition npages (n : Z) : Z := (n + 4095) / 4096.
(** The page of the stream that response [j] begins with. *)
Definition start_page (qs : list request) (j : nat) : Z := foldr (λ q n, npages (response_length q) + n) 0 (take j qs).

Lemma npages_bounds n k : 4096 * (k - 1) < n <= 4096 * k ↔ npages n = k.
Proof. unfold npages. Z.to_euclidean_division_equations. lia. Qed.

Lemma response_length_pos q : request_ok q → 16 <= response_length q < 2 ^ 32.
Proof.
  destruct q as [r|]; simpl; [|done]. intros [Hr _]. destruct (ro_bytes _ Hr). pose proof (ro_page _ Hr).
  unfold sizeof_CQDispatchCmd in *. nia.
Qed.

Lemma start_page_S qs j q : qs !! j = Some q → start_page qs (S j) = start_page qs j + npages (response_length q).
Proof.
  intros Hq. unfold start_page. rewrite (take_S_r _ _ _ Hq), foldr_app. cbn [foldr]. 
  generalize (take j qs). intros l. induction l as [|q' l IH]; simpl; lia.
Qed.

Lemma start_page_app qs qs' j : (j <= length qs)%nat → start_page (qs ++ qs') j = start_page qs j.
Proof. intros. unfold start_page. by rewrite take_app_le. Qed.

Lemma start_page_step qs j q :
  Forall request_ok qs → qs !! j = Some q → start_page qs j + 1 <= start_page qs (S j).
Proof.
  intros Hqs Hq. rewrite (start_page_S _ _ _ Hq). pose proof (response_length_pos q (proj1 (Forall_lookup _ _) Hqs _ _ Hq)).
  pose proof (proj2 (npages_bounds (response_length q) _) eq_refl). lia.
Qed.

Lemma start_page_mono qs j k :
  Forall request_ok qs → (j <= k)%nat → (k <= length qs)%nat → start_page qs j + Z.of_nat (k - j) <= start_page qs k.
Proof.
  intros Hqs Hjk. induction Hjk as [|k Hjk IH]; intros Hk; [lia|].
  destruct (lookup_lt_is_Some_2 qs k ltac:(lia)) as [q Hq]. pose proof (start_page_step _ _ _ Hqs Hq). specialize (IH ltac:(lia)). lia.
Qed.

Lemma start_page_0 qs : start_page qs 0 = 0.
Proof. done. Qed.

Lemma results_S qs rs k q resp u :
  qs !! k = Some q → rs !! k = Some resp → results qs rs (S k) u = result (results qs rs k u) (q, resp).
Proof.
  intros Hq Hr. unfold results. rewrite (take_S_r _ _ (q, resp)), foldl_app by (by apply lookup_zip_with_Some; eauto 10). done.
Qed.

Lemma results_app qs qs' rs rs' k u :
  (k <= length qs)%nat → (k <= length rs)%nat → results (qs ++ qs') (rs ++ rs') k u = results qs rs k u.
Proof.
  intros Hq Hr. unfold results. f_equal. rewrite !zip_with_take. by rewrite !take_app_le.
Qed.

(** ** The invariant *)
Section invariant.
Context (L : ring) (HL : ring_ok L) (cq_id : nat) (a : completion_args) (Ha : args_match L a) (u0 : mem).
Abbreviation T := (rpages L).

(** The bytes of the responses between pages [lo] and [hi] of the stream are in host memory. *)
Definition stored (host : mem) (qs : list request) (rs : list (list Z)) (lo hi : Z) : Prop :=
  ∀ j resp i, rs !! j = Some resp → 0 <= i < Z.of_nat (length resp) →
    4096 * lo <= 4096 * start_page qs j + i < 4096 * hi → host (ring_addr L (4096 * start_page qs j + i)) = nth (Z.to_nat i) resp 0.

(** The last response is sent up to page [w] of the stream; [data] is the rest of it. *)
Definition partly (qs : list request) (rs : list (list Z)) (w : Z) (data : list Z) : Prop :=
  ∃ j resp, length rs = S j ∧ rs !! j = Some resp ∧ start_page qs j <= w <= start_page qs (S j)
    ∧ data = drop (Z.to_nat (4096 * (w - start_page qs j))) resp.

Definition sending_at (W V : Z) (qs : list request) (rs : list (list Z)) (sd : sending) : Prop :=
  match sd with
  | Ready => V = W ∧ W = start_page qs (length rs)
  | Sending data => V = W ∧ data ≠ [] ∧ partly qs rs W data
  | Written k data => V = W + k ∧ 0 < k ∧ partly qs rs V data
  end.

(** The reader is [p] bytes into the response of read [r]. *)
Definition copying_at (R : Z) (qs : list request) (rs : list (list Z)) (fin : nat) (u : mem) (r : ReadBufferDescriptor) (c : copy_state) : Prop :=
  ∃ resp p, qs !! fin = Some (ReadBuffer r) ∧ rs !! fin = Some resp ∧ 0 <= p < response_size r ∧ p mod 4096 = 0
    ∧ R = start_page qs fin + p / 4096 ∧ reading r resp u p c.

Definition reader_at (R W : Z) (qs : list request) (rs : list (list Z)) (fin : nat) (u : mem) (rd : reader) : Prop :=
  match rd with
  | Idling => R = start_page qs fin
  | Copying r c => copying_at R qs rs fin u r c
  | Polled r c word => copying_at R qs rs fin u r c ∧ ∃ w, word = word_for L w ∧ R < w <= W
  end.

(** [R] pages read, [W] announced, [V] written. *)
Record completion_inv (R W V : Z) (s : completion_system) : Prop := mk_completion_inv {
  ci_order : 0 <= R <= W ∧ W <= V ∧ V <= R + T;
  ci_requests : requests_ok (cs_requests s);
  ci_manager : manager_at L cq_id R (cs_manager s);
  ci_event : ∃ last, cq_to_last_completed_event (cs_manager s) !! cq_id = Some last
    ∧ (last = 0 ∨ ∃ j q, (j < cs_finished s)%nat ∧ cs_requests s !! j = Some q ∧ event_value q = Some last);
  ci_dispatcher : dispatcher_at L W R (cs_dispatcher s);
  ci_answers : ∀ j resp, cs_responses s !! j = Some resp → ∃ q, cs_requests s !! j = Some q ∧ answers q resp;
  ci_finished : (cs_finished s <= length (cs_responses s))%nat;
  ci_sending : sending_at W V (cs_requests s) (cs_responses s) (cs_sending s);
  ci_reader : reader_at R W (cs_requests s) (cs_responses s) (cs_finished s) (cs_user s) (cs_reader s);
  ci_stored : stored (cs_host s) (cs_requests s) (cs_responses s) R V;
  ci_user : mem_eq (cs_user s) (results (cs_requests s) (cs_responses s) (cs_finished s) u0)
}.

Lemma answered_length R W V s : completion_inv R W V s → (length (cs_responses s) <= length (cs_requests s))%nat.
Proof.
  intros Hs. destruct (cs_responses s) as [|x l] eqn:Hrs using rev_ind; [simpl; lia|]. clear IHl.
  destruct (ci_answers _ _ _ _ Hs (length l) x) as (q & Hq & _); [rewrite Hrs; by apply list_lookup_middle|].
  apply lookup_lt_Some in Hq. rewrite length_app. simpl. lia.
Qed.

Lemma answered_size R W V s j resp :
  completion_inv R W V s → cs_responses s !! j = Some resp →
  ∃ q, cs_requests s !! j = Some q ∧ request_ok q ∧ answers q resp ∧ Z.of_nat (length resp) = response_length q
    ∧ start_page (cs_requests s) (S j) = start_page (cs_requests s) j + npages (Z.of_nat (length resp)).
Proof.
  intros Hs Hj. destruct (ci_answers _ _ _ _ Hs j resp Hj) as (q & Hq & Han). exists q.
  pose proof (proj1 (Forall_lookup _ _) (rq_each _ (ci_requests _ _ _ _ Hs)) _ _ Hq). pose proof Han as [Hlen _].
  split_and!; try done. rewrite Hlen. by apply start_page_S.
Qed.

(** What was announced belongs to responses. *)
Lemma announced_answered R W V s : completion_inv R W V s → V <= start_page (cs_requests s) (length (cs_responses s)).
Proof.
  intros Hs. pose proof (ci_sending _ _ _ _ Hs) as Hsd. unfold sending_at in Hsd. destruct (cs_sending s) as [|data|k data].
  - lia.
  - destruct Hsd as (-> & _ & j & resp & -> & _ & ? & _). lia.
  - destruct Hsd as (_ & _ & j & resp & -> & _ & ? & _). lia.
Qed.

(** With a page announced that the reader did not take, the response it comes to is there. *)
Lemma next_answered R W V s :
  completion_inv R W V s → R < W → start_page (cs_requests s) (cs_finished s) <= R →
  ∃ q resp, cs_requests s !! cs_finished s = Some q ∧ cs_responses s !! cs_finished s = Some resp
    ∧ request_ok q ∧ answers q resp ∧ Z.of_nat (length resp) = response_length q.
Proof.
  intros Hs HRW HR. pose proof (announced_answered _ _ _ _ Hs). pose proof (ci_finished _ _ _ _ Hs). pose proof (ci_order _ _ _ _ Hs).
  destruct (cs_responses s !! cs_finished s) as [resp|] eqn:Hresp.
  - destruct (answered_size _ _ _ _ _ _ Hs Hresp) as (q & ? & ? & ? & ? & _). by exists q, resp.
  - apply lookup_ge_None in Hresp. assert (He : cs_finished s = length (cs_responses s)) by lia. rewrite He in HR. lia.
Qed.
End invariant.
