(* ===== verification/CompletionSteps.v ===== *)
(** * The steps of host and dispatcher keep the invariant *)
From S2P Require Import Prelude Arith CommandQueue CommandQueueProps CompletionQueue CompletionRead CompletionStream CompletionHost CompletionInv.
Section steps.
Context (L : ring) (HL : ring_ok L) (cq_id : nat) (a : completion_args) (Ha : args_match L a) (u0 : mem).
Abbreviation T := (rpages L).
Abbreviation Inv := (completion_inv L cq_id u0).

Lemma copying_app R qs qs' rs rs' fin u r c :
  (fin <= length qs)%nat → copying_at R qs rs fin u r c → copying_at R (qs ++ qs') (rs ++ rs') fin u r c.
Proof.
  intros Hfin (resp & p & Hq & Hr & Hp & Hp0 & HR & Hc). exists resp, p. rewrite start_page_app by done.
  split_and!; try done; try lia; by apply lookup_app_l_Some.
Qed.

Lemma reader_app R W qs qs' rs rs' fin u rd :
  (fin <= length qs)%nat → reader_at L R W qs rs fin u rd → reader_at L R W (qs ++ qs') (rs ++ rs') fin u rd.
Proof.
  intros Hfin. destruct rd; cbn [reader_at].
  - by rewrite start_page_app.
  - by apply copying_app.
  - intros [? ?]. split; [by apply copying_app|done].
Qed.

Lemma inv_requests R W V m h d sd rd u qs rs fin q :
  Inv R W V (mk_completion m h d sd rd u qs rs fin) → requests_ok (qs ++ [q]) →
  Inv R W V (mk_completion m h d sd rd u (qs ++ [q]) rs fin).
Proof.
  intros Hs Hq. pose proof (answered_length _ _ _ _ _ _ _ Hs) as Hlen. simpl in Hlen. pose proof (ci_finished _ _ _ _ _ _ _ Hs) as Hfin. simpl in Hfin.
  assert (Hpart : ∀ w data, partly qs rs w data → partly (qs ++ [q]) rs w data).
  { intros w data (j & resp & Hj & Hl & Hw & Hd). exists j, resp. rewrite !start_page_app by lia. done. }
  destruct Hs as [Ho _ Hm (last & Hlast & Hev) Hd Han _ Hsd Hrd Hst Hu]. simpl in *. split; simpl; try done.
  - exists last. split; [done|]. destruct Hev as [|(j & q' & ? & ? & ?)]; [by left|right]. exists j, q'. split_and!; try done. by apply lookup_app_l_Some.
  - intros j resp Hj. destruct (Han j resp Hj) as (q' & ? & ?). exists q'. split; [by apply lookup_app_l_Some|done].
  - destruct sd; simpl in *; [by rewrite start_page_app|destruct Hsd as (? & ? & ?); eauto..].
  - rewrite <- (app_nil_r rs). apply reader_app; [lia|done].
  - intros j resp i Hj. rewrite start_page_app by (apply lookup_lt_Some in Hj; lia). by apply Hst.
  - rewrite <- (app_nil_r rs), results_app by lia. done.
Qed.

Lemma inv_begins R W V m h d rd u qs rs fin q data :
  Inv R W V (mk_completion m h d Ready rd u qs rs fin) → qs !! length rs = Some q → answers q data →
  Inv R W V (mk_completion m h d (Sending data) rd u qs (rs ++ [data]) fin).
Proof.
  intros Hs Hq Han. destruct (ci_sending _ _ _ _ _ _ _ Hs) as [HV HW]. pose proof (ci_finished _ _ _ _ _ _ _ Hs) as Hfin. simpl in HV, HW, Hfin.
  pose proof (proj1 (Forall_lookup _ _) (rq_each _ (ci_requests _ _ _ _ _ _ _ Hs)) _ _ Hq) as Hok.
  pose proof (response_length_pos q Hok). pose proof Han as [Hlen _].
  pose proof (lookup_lt_Some _ _ _ Hq).
  pose proof (start_page_step _ _ _ (rq_each _ (ci_requests _ _ _ _ _ _ _ Hs)) Hq) as Hnext. simpl in Hnext.
  destruct Hs as [Ho Hqs Hm Hev Hd Hans _ _ Hrd Hst Hu]. simpl in *. split; simpl; try done.
  - intros j resp [Hj|[Hge Hj]]%lookup_app_Some; [eauto|]. apply list_lookup_singleton_Some in Hj as [Hj0 <-].
    replace j with (length rs) in * by lia. eauto.
  - rewrite length_app. simpl. lia.
  - split_and!; [done|intros ->; simpl in Hlen; lia|]. exists (length rs), data. rewrite length_app, Nat.add_comm. simpl.
    split_and!; [done|by apply list_lookup_middle|lia..|]. by rewrite HW, Z.sub_diag.
  - rewrite <- (app_nil_r qs). apply reader_app; [lia|done].
  - intros j resp i [Hj|[Hge Hj]]%lookup_app_Some; [by apply Hst|]. apply list_lookup_singleton_Some in Hj as [Hj0 <-].
    replace j with (length rs) in * by lia. lia.
  - rewrite <- (app_nil_r qs), results_app by lia. done.
Qed.

(** The pages of a piece of a response. *)
Lemma piece_pages available (data : list Z) k :
  0 < available <= 2 ^ 24 → available mod 4096 = 0 ∨ Z.of_nat (length data) <= available → data ≠ [] →
  let xfer := xfer_size (Z.of_nat (length data)) available in
  xfer_pages a xfer = Ok k →
  0 < xfer <= 2 ^ 24 ∧ xfer <= Z.of_nat (length data) ∧ k = npages xfer ∧ (xfer = Z.of_nat (length data) ∨ xfer = 4096 * k).
Proof.
  intros Hav Hwhole Hne xfer Hk. assert (Hlen : 0 < Z.of_nat (length data)) by (destruct data; simpl; [done|lia]).
  assert (Hx : xfer = Z.min available (Z.of_nat (length data))) by (unfold xfer, xfer_size; case_bool; lia).
  clearbody xfer. unfold xfer_pages in Hk. rewrite (am_page L a Ha), (u32_small (xfer + 4096)), (u32_small (xfer + 4096 - 1)), udiv_ok in Hk by lia.
  injection Hk as Hk. replace (xfer + 4096 - 1) with (xfer + 4095) in Hk by lia. fold (npages xfer) in Hk. split_and!; [lia..|done|].
  destruct (Z.le_gt_cases (Z.of_nat (length data)) available); [left; lia|right].
  destruct Hwhole as [Hm|]; [|lia]. unfold npages in Hk. Z.to_euclidean_division_equations. lia.
Qed.

(** Responses before the last one end before it begins. *)
Lemma before_last R W V s j resp i w :
  Inv R W V s → cs_responses s !! j = Some resp → (S j < length (cs_responses s))%nat → 0 <= i < Z.of_nat (length resp) →
  start_page (cs_requests s) (pred (length (cs_responses s))) <= w → 4096 * start_page (cs_requests s) j + i < 4096 * w.
Proof.
  intros Hs Hj Hlast Hi Hw. destruct (answered_size _ _ _ _ _ _ _ _ _ Hs Hj) as (q & _ & _ & _ & _ & HS).
  pose proof (start_page_mono (cs_requests s) (S j) (pred (length (cs_responses s))) (rq_each _ (ci_requests _ _ _ _ _ _ _ Hs)) ltac:(lia)) as Hmono.
  pose proof (answered_length _ _ _ _ _ _ _ Hs). pose proof (proj2 (npages_bounds (Z.of_nat (length resp)) _) eq_refl). lia.
Qed.

Lemma inv_writes R W V m h d data rd u qs rs fin available k :
  Inv R W V (mk_completion m h d (Sending data) rd u qs rs fin) →
  0 < available <= completion_queue_page_size a * dispatch_buffer_pages (constants m) →
  available mod completion_queue_page_size a = 0 ∨ Z.of_nat (length data) <= available →
  let xfer := xfer_size (Z.of_nat (length data)) available in
  xfer_pages a xfer = Ok k → completion_queue_reserve_back a k d = true →
  Inv R W (W + k) (mk_completion m (write_to_host a data xfer d h) d (Written k (drop (Z.to_nat xfer) data)) rd u qs rs fin) ∧ 0 < k.
Proof.
  intros Hs Hav Hwhole xfer Hk Hres. pose proof (ci_sending _ _ _ _ _ _ _ Hs) as (HV & Hne & j & resp & Hlast & Hresp & Hw & Hdata). simpl in HV, Hlast, Hresp, Hw, Hdata.
  pose proof (ma_pages _ _ _ _ (ci_manager _ _ _ _ _ _ _ Hs)) as Hpages. simpl in Hpages. rewrite (am_page L a Ha) in Hav, Hwhole.
  pose proof (ci_order _ _ _ _ _ _ _ Hs) as Ho. pose proof (ci_dispatcher _ _ _ _ _ _ _ Hs) as Hd. simpl in Hd.
  destruct (piece_pages available data k ltac:(lia) Hwhole Hne Hk) as (Hx & Hxl & Hkx & Hxk). fold xfer in Hx, Hxl, Hkx, Hxk.
  pose proof (proj2 (npages_bounds xfer k) (eq_sym Hkx)) as Hkb.
  rewrite (reserve_pages_spec L HL a Ha W R d k Hd) in Hres by lia. apply bool_decide_eq_true in Hres.
  destruct (write_spec L HL a Ha W R d data xfer h Hd) as [Hin Hout]; [lia..|].
  destruct (answered_size _ _ _ _ _ _ _ _ _ Hs Hresp) as (q & _ & _ & _ & _ & HS). simpl in HS.
  pose proof (proj2 (npages_bounds (Z.of_nat (length resp)) _) eq_refl) as Hnp.
  assert (Hlen : Z.of_nat (length data) = Z.of_nat (length resp) - 4096 * (W - start_page qs j)).
  { assert (length data ≠ 0)%nat by (destruct data; done). rewrite Hdata, length_drop in *. lia. }
  split; [|lia].
  assert (Hbefore := λ j resp i, before_last R W V _ j resp i W Hs). simpl in Hbefore. rewrite Hlast in Hbefore. simpl in Hbefore.
  destruct Hs as [_ Hqs Hm Hev _ Hans Hfin _ Hrd Hst Hu]. simpl in *. split; simpl; try done.
  - lia.
  - split_and!; [done|lia|]. exists j, resp. split_and!; [done..|lia|destruct Hxk; lia|].
    rewrite Hdata, drop_drop. destruct Hxk as [Hxk|Hxk]; [|f_equal; lia].
    rewrite !drop_ge; [done|lia|lia].
  - intros j' resp' i Hj' Hi Hpos. destruct (Z.lt_ge_cases (4096 * start_page qs j' + i) (4096 * W)) as [Hold|Hnew].
    + replace (4096 * start_page qs j' + i) with (4096 * W + (4096 * start_page qs j' + i - 4096 * W)) by lia.
      rewrite Hout by lia. replace (4096 * W + (4096 * start_page qs j' + i - 4096 * W)) with (4096 * start_page qs j' + i) by lia.
      apply Hst; [done|lia..].
    + destruct (decide (j' = j)) as [->|Hne'].
      2:{ pose proof (lookup_lt_Some _ _ _ Hj'). specialize (Hbefore j' resp' i Hj' ltac:(lia) Hi). lia. }
      rewrite Hresp in Hj'. injection Hj' as <-.
      replace (4096 * start_page qs j + i) with (4096 * W + (4096 * start_page qs j + i - 4096 * W)) by lia.
      rewrite Hin by (destruct Hxk; lia). rewrite Hdata, nth_drop_add. f_equal. lia.
Qed.

Lemma inv_pushes R W V m h d k data rd u qs rs fin :
  Inv R W V (mk_completion m h d (Written k data) rd u qs rs fin) →
  Inv R V V (mk_completion m h (completion_queue_push_back a k d) (after_push data) rd u qs rs fin) ∧ W < V.
Proof.
  intros Hs. pose proof (ci_sending _ _ _ _ _ _ _ Hs) as (HV & Hk & j & resp & Hlast & Hresp & Hw & Hdata). simpl in *.
  destruct (answered_size _ _ _ _ _ _ _ _ _ Hs Hresp) as (q & _ & _ & _ & _ & HS). simpl in HS.
  pose proof (proj2 (npages_bounds (Z.of_nat (length resp)) _) eq_refl) as Hnp.
  pose proof (ci_order _ _ _ _ _ _ _ Hs) as Ho. split; [|lia].
  destruct Hs as [_ Hqs Hm Hev Hd Hans Hfin _ Hrd Hst Hu]. simpl in *. split; simpl; try done.
  - lia.
  - subst V. apply (push_pages_spec L HL a Ha W R d k Hd); lia.
  - destruct data as [|x data]; simpl.
    + split; [done|]. rewrite Hlast. pose proof (f_equal length Hdata) as Hl. rewrite length_drop in Hl. simpl in Hl. lia.
    + split_and!; [done..|]. by exists j, resp.
  - destruct rd as [| |r c word]; simpl in *; try done. destruct Hrd as [? (w & ? & ?)]. split; [done|]. exists w. split; [done|lia].
Qed.
End steps.

(** * The reader's steps keep the invariant, and never fail *)
Lemma div_up_pages n : 0 < n < 2 ^ 32 - 4096 → MathUtil.div_up n TRANSFER_PAGE_SIZE = Ok (npages n).
Proof.
  intros Hn. unfold MathUtil.div_up. change TRANSFER_PAGE_SIZE with 4096. cbn [Z.ltb Z.compare check mbind outcome_bind].
  rewrite (u32_small (n + 4096)), (u32_small (n + 4096 - 1)) by lia. unfold npages. do 2 f_equal. lia.
Qed.

Section reader.
Context (L : ring) (HL : ring_ok L) (cq_id : nat) (u0 : mem).
Abbreviation T := (rpages L).
Abbreviation Inv := (completion_inv L cq_id u0).

(** What lies between the read pointer and the last page announced, up to the end of the ring. *)
Lemma response_read R W V s j resp p n :
  Inv R W V s → cs_responses s !! j = Some resp → 0 <= p → p mod 4096 = 0 → R = start_page (cs_requests s) j + p / 4096 →
  0 <= n → p + n <= Z.of_nat (length resp) → n <= 4096 * (V - R) → n <= 4096 * (T - R mod T) →
  mem_read (cs_host s) (rbase L + 4096 * (R mod T)) n = bytes_from resp p n.
Proof.
  intros Hs Hj Hp Hp0 HR Hn Hlen HV HT. pose proof (length_bytes_from resp p n Hp Hn Hlen) as Hl. rewrite <- Hl at 1.
  apply (read_spec L HL); [|lia]. rewrite Hl. intros i Hi. unfold bytes_from. rewrite nth_take_lt, nth_drop_add by lia.
  replace (4096 * R + i) with (4096 * start_page (cs_requests s) j + (p + i)) by (Z.to_euclidean_division_equations; lia).
  rewrite (ci_stored _ _ _ _ _ _ _ Hs j resp (p + i) Hj) by (Z.to_euclidean_division_equations; lia). f_equal. lia.
Qed.

Lemma inv_starts R W V m h d sd u qs rs fin r word :
  Inv R W V (mk_completion m h d sd Idling u qs rs fin) → qs !! fin = Some (ReadBuffer r) → poll_ends cq_id m d word →
  Inv R W V (mk_completion m h d sd (Copying r (copy_start r u)) u qs rs fin).
Proof.
  intros Hs Hq Hpoll. pose proof (ci_order _ _ _ _ _ _ _ Hs) as Ho. pose proof (ci_reader _ _ _ _ _ _ _ Hs) as HR. fields; cbn [reader_at] in *.
  apply (wait_front_spec L HL cq_id R W m d word (ci_manager _ _ _ _ _ _ _ Hs) (ci_dispatcher _ _ _ _ _ _ _ Hs)) in Hpoll as [_ HRW]; [|lia..].
  destruct (next_answered _ _ _ _ _ _ _ Hs HRW) as (q & resp & Hq' & Hresp & Hok & _ & Hlen); fields; cbn [reader_at] in *; [lia|].
  rewrite Hq in Hq'. injection Hq' as <-. destruct Hok as [Hr Hpl]. pose proof (response_length_pos (ReadBuffer r) (conj Hr Hpl)) as Hpos.
  destruct Hs as [_ Hqs Hm Hev Hd Hans Hfin Hsd _ Hst Hu]. fields; cbn [reader_at] in *. split; fields; cbn [reader_at] in *; try done.
  exists resp, 0. change (response_length (ReadBuffer r)) with (response_size r) in Hpos. split_and!; try done.
  - lia.
  - by rewrite Z.add_0_r.
  - by apply reading_start.
Qed.

Lemma inv_polls R W V m h d sd r c u qs rs fin word :
  Inv R W V (mk_completion m h d sd (Copying r c) u qs rs fin) → poll_ends cq_id m d word →
  Inv R W V (mk_completion m h d sd (Polled r c word) u qs rs fin).
Proof.
  intros Hs Hpoll. pose proof (ci_order _ _ _ _ _ _ _ Hs) as Ho.
  apply (wait_front_spec L HL cq_id R W m d word (ci_manager _ _ _ _ _ _ _ Hs) (ci_dispatcher _ _ _ _ _ _ _ Hs)) in Hpoll as [-> HRW]; [|lia..].
  destruct Hs as [_ Hqs Hm Hev Hd Hans Hfin Hsd Hc Hst Hu]. fields; cbn [reader_at] in *. split; fields; cbn [reader_at] in *; try done.
  split; [done|]. exists W. split; [done|lia].
Qed.

Lemma copy_round_spec R W V m h d sd r c word u qs rs fin :
  Inv R W V (mk_completion m h d sd (Polled r c word) u qs rs fin) →
  ∃ m' effects c' k, copy_round cq_id h r word m c = Ok (m', effects, c') ∧ 0 < k
    ∧ remaining_bytes_to_read c' < remaining_bytes_to_read c
    ∧ let '(rd', u', fin') := after_round r c' u fin in
      Inv (R + k) W V (mk_completion m' h (apply_rd_effects effects d) sd rd' u' qs rs fin').
Proof.
  intros Hs. pose proof (ci_order _ _ _ _ _ _ _ Hs) as Ho.
  pose proof (ci_reader _ _ _ _ _ _ _ Hs) as [(resp & p & Hq & Hresp & Hp & Hp0 & HR & Hread) (w & -> & Hw)]. fields; cbn [reader_at] in *.
  destruct (answered_size _ _ _ _ _ _ _ _ _ Hs Hresp) as (q & Hq' & Hok & _ & Hlen & HS). fields. rewrite Hq in Hq'. injection Hq' as <-.
  destruct Hok as [Hr Hpl].
  pose proof (response_length_pos (ReadBuffer r) (conj Hr Hpl)) as Hsz. change (response_length (ReadBuffer r)) with (response_size r) in Hsz, Hlen.
  pose proof (ci_manager _ _ _ _ _ _ _ Hs) as Hm. pose proof (ci_dispatcher _ _ _ _ _ _ _ Hs) as Hd. fields; cbn [reader_at] in *.
  pose proof (rk_end L HL). destruct (rk_base L HL). pose proof (rk_pages L HL) as HT. pose proof (ptr_bounds L HL R) as [_ HRT].
  destruct (host_pointers L HL cq_id R m Hm) as (Hptr & Htog & Hlim).
  unfold copy_round. rewrite Hptr, Htog, Hlim. cbn [mbind outcome_bind].
  rewrite (avail_spec L HL R w) by lia. rewrite (proj1 Hread).
  set (N := Z.min (response_size r - p) _).
  assert (HN : 0 < N <= response_size r - p ∧ N <= 4096 * (w - R) ∧ N <= 4096 * (T - R mod T)
    ∧ (p + N = response_size r ∨ (p + N) mod 4096 = 0)).
  { unfold N. split_and!; [lia..|]. destruct (Z.le_gt_cases (response_size r - p) (4096 * Z.min (w - R) (T - R mod T))); [left; lia|right].
    rewrite Z.min_r by lia. Z.to_euclidean_division_equations. lia. }
  clearbody N. destruct HN as (HN & HNw & HNT & HNe).
  rewrite div_up_pages by lia. cbn [mbind outcome_bind].
  destruct (copy_chunk_spec r Hr Hpl resp Hlen u h N (rbase L + 4096 * (R mod T)) p c) as (c' & -> & Hread'); [by split; [lia..|done]|done|lia|lia| |].
  { apply (response_read R W V _ fin resp p N Hs Hresp); cbn; lia. }
  cbn [mbind outcome_bind].
  pose proof (proj2 (npages_bounds N _) eq_refl) as Hk.
  destruct (pop_spec L HL cq_id R (npages N) W m d Hm Hd) as (m' & effects & -> & Hm' & Hd' & Hlast & _); [lia..|].
  cbn [mbind outcome_bind]. exists m', effects, c', (npages N). split; [done|]. split; [lia|].
  split; [rewrite (proj1 Hread'); lia|].
  assert (HR' : R + npages N <= W) by lia.
  destruct Hs as [_ Hqs _ Hev _ Hans Hfin Hsd _ Hst Hu]. fields; cbn [reader_at] in *.
  assert (Hst' : stored L h qs rs (R + npages N) V) by (intros j rj i Hj Hi Hpos; apply Hst; [done|lia..]).
  unfold after_round. rewrite (proj1 Hread'). destruct (Z.eqb_spec (response_size r - (p + N)) 0) as [Hdone|Hmore].
  - split; fields; cbn [reader_at] in *; rewrite ?Hlast; try done.
    + lia.
    + destruct Hev as (last & ? & [->|(j & q & ? & ? & ?)]); [exists 0; split; [done|by left]|]. exists last. split; [done|right].
      exists j, q. split; [lia|done].
    + by apply lookup_lt_Some in Hresp.
    + rewrite HS, Hlen, HR. unfold npages. Z.to_euclidean_division_equations. lia.
    + assert (Hd2 : reading r resp u (response_size r) c') by (by replace (response_size r) with (p + N) by lia).
      rewrite (reading_done r Hr Hpl resp Hlen u c' Hd2), (results_S qs rs fin _ resp u0 Hq Hresp). cbn. by rewrite Hu.
  - split; fields; cbn [reader_at] in *; rewrite ?Hlast; try done.
    + lia.
    + exists resp, (p + N). split_and!; try done; [lia..| |].
      * destruct HNe; [lia|done].
      * rewrite HR. unfold npages. Z.to_euclidean_division_equations. lia.
Qed.

Lemma read_event_spec R W V m h d sd u qs rs fin event_id global_offset word :
  Inv R W V (mk_completion m h d sd Idling u qs rs fin) → qs !! fin = Some (ReadEvent event_id global_offset) → poll_ends cq_id m d word →
  ∃ m' effects k, read_event cq_id h event_id global_offset m = Ok (m', effects) ∧ 0 < k
    ∧ get_last_completed_event cq_id m' = Ok (global_offset + event_id)
    ∧ Inv (R + k) W V (mk_completion m' h (apply_rd_effects effects d) sd Idling u qs rs (S fin)).
Proof.
  intros Hs Hq Hpoll. pose proof (ci_order _ _ _ _ _ _ _ Hs) as Ho. pose proof (ci_reader _ _ _ _ _ _ _ Hs) as HR. fields; cbn [reader_at] in *.
  apply (wait_front_spec L HL cq_id R W m d word (ci_manager _ _ _ _ _ _ _ Hs) (ci_dispatcher _ _ _ _ _ _ _ Hs)) in Hpoll as [_ HRW]; [|lia..].
  destruct (next_answered _ _ _ _ _ _ _ Hs HRW) as (q & resp & Hq' & Hresp & Hok & Han & Hlen); fields; cbn [reader_at] in *; [lia|].
  rewrite Hq in Hq'. injection Hq' as <-. destruct Hok as (He & Hg & Heg). destruct Han as (_ & _ & Hid). change (response_length _) with 32 in Hlen.
  destruct (answered_size _ _ _ _ _ _ _ _ _ Hs Hresp) as (_ & _ & _ & _ & _ & HS). fields; cbn [reader_at] in *. rewrite Hlen in HS. change (npages 32) with 1 in HS.
  pose proof (ci_manager _ _ _ _ _ _ _ Hs) as Hm. pose proof (ci_dispatcher _ _ _ _ _ _ _ Hs) as Hd. fields; cbn [reader_at] in *.
  pose proof (rk_end L HL). destruct (rk_base L HL). pose proof (rk_pages L HL) as HT. pose proof (ptr_bounds L HL R) as [_ HRT].
  destruct (host_pointers L HL cq_id R m Hm) as (Hptr & _ & _).
  unfold read_event. rewrite Hptr. cbn [mbind outcome_bind].
  assert (Hword : word_at h (u32 (rbase L + 4096 * (R mod T) + sizeof_CQDispatchCmd)) = event_id).
  { unfold sizeof_CQDispatchCmd. rewrite u32_small by lia. unfold word_at. rewrite (mem_read_sub h _ 32 16 4) by lia.
    pose proof (response_read R W V _ fin resp 0 32 Hs Hresp) as Hread. fields. rewrite Hread by first [done|change (0 / 4096) with 0; rewrite ?Hlen; lia].
    rewrite bytes_from_sub by lia. exact Hid. }
  rewrite Hword, Z.eqb_refl. cbn [check mbind outcome_bind].
  destruct (pop_spec L HL cq_id R 1 W m d Hm Hd) as (m' & effects & -> & Hm' & Hd' & Hlast & _); [lia..|].
  cbn [mbind outcome_bind]. unfold set_last_completed_event.
  destruct Hs as [_ Hqs _ (last & Hl & Hev) _ Hans Hfin Hsd _ Hst Hu]. fields; cbn [reader_at] in *.
  assert (Hle : 0 <= last <= global_offset + event_id).
  { destruct Hev as [->|(j & q & Hj & Hqj & Hv)]; [lia|].
    pose proof (proj1 (Forall_lookup _ _) (rq_each _ Hqs) _ _ Hqj) as Hqok. destruct q as [|e g]; [done|]. cbn in Hqok. injection Hv as <-.
    pose proof (rq_events _ Hqs j fin _ _ _ _ Hj Hqj Hq eq_refl eq_refl). lia. }
  rewrite Hlast, (at_some _ _ _ Hl). cbn [mbind outcome_bind]. rewrite (u32_small last), (u32_small (global_offset + event_id)) by lia.
  rewrite (proj2 (Z.leb_le _ _)) by lia. cbn [check mbind outcome_bind]. do 2 eexists. exists 1. split; [done|]. split; [done|].
  assert (Hset : <[cq_id:=to_i32 (global_offset + event_id)]> (cq_to_last_completed_event m) !! cq_id = Some (global_offset + event_id)).
  { rewrite list_lookup_insert_eq by (by eapply lookup_lt_Some). f_equal. unfold to_i32.
    rewrite (u32_small (global_offset + event_id)), (proj2 (Z.ltb_lt _ _)) by lia. done. }
  split.
  { unfold get_last_completed_event. cbn [with_events cq_to_last_completed_event].
    rewrite (at_some _ _ _ Hset). cbn [mbind outcome_bind]. by rewrite u32_small by lia. }
  split; fields; cbn [reader_at] in *; try done.
  - lia.
  - destruct Hm'. split; done.
  - exists (global_offset + event_id). split; [exact Hset|].
    right. exists fin, (ReadEvent event_id global_offset). split; [lia|done].
  - by apply lookup_lt_Some in Hresp.
  - lia.
  - intros j rj i Hj Hi Hpos; apply Hst; [done|lia..].
  - rewrite (results_S qs rs fin _ resp u0 Hq Hresp). done.
Qed.
End reader.
