(* ===== verification/CompletionProps.v ===== *)
(** * Runs of the completion stream: preservation, progress, termination *)
From S2P Require Import Prelude Arith CommandQueue CommandQueueProps CompletionQueue CompletionRead CompletionStream CompletionHost CompletionInv CompletionSteps CommandQueueThms CommandStreamProps.
Lemma requests_ok_prefix qs qs' : requests_ok (qs ++ qs') → requests_ok qs.
Proof.
  intros [Hall Hev]. apply Forall_app in Hall as [Hall _]. split; [done|]. intros i j q q' v v' Hij Hi Hj.
  apply (Hev i j q q' v v' Hij); by apply lookup_app_l_Some.
Qed.

(** A step that is not a new request. *)
Definition internal (a : completion_args) (cq_id : nat) (s s' : completion_system) : Prop :=
  completion_step a cq_id s s' ∧ cs_requests s' = cs_requests s.

Definition all_finished (s : completion_system) : Prop := cs_finished s = length (cs_requests s) ∧ cs_reader s = Idling.

Section run.
Context (L : ring) (HL : ring_ok L) (cq_id : nat) (a : completion_args) (Ha : args_match L a) (u0 : mem).
Abbreviation T := (rpages L).
Abbreviation Inv := (completion_inv L cq_id u0).

Definition reader_index (rd : reader) : Z := match rd with Idling => 0 | Copying _ _ => 1 | Polled _ _ _ => 2 end.

(** What is left to do. *)
Definition work (R W V : Z) (s : completion_system) : Z :=
  let total := start_page (cs_requests s) (length (cs_requests s)) in
  3 * (total - R) + (2 - reader_index (cs_reader s)) + (total - W) + (total - V)
  + (Z.of_nat (length (cs_requests s)) - Z.of_nat (length (cs_responses s))).

Lemma work_nonneg R W V s : Inv R W V s → 0 <= work R W V s.
Proof.
  intros Hs. pose proof (answered_length _ _ _ _ _ _ _ Hs) as Hlen. pose proof (announced_answered _ _ _ _ _ _ _ Hs).
  pose proof (start_page_mono (cs_requests s) _ _ (rq_each _ (ci_requests _ _ _ _ _ _ _ Hs)) Hlen ltac:(done)).
  pose proof (ci_order _ _ _ _ _ _ _ Hs). unfold work. destruct (cs_reader s); simpl; lia.
Qed.

Lemma step_keeps R W V s s' :
  Inv R W V s → completion_step a cq_id s s' → requests_ok (cs_requests s') →
  ∃ R' W' V', Inv R' W' V' s' ∧ (cs_requests s' = cs_requests s → work R' W' V' s' < work R W V s).
Proof.
  intros Hs Hstep Hqs. destruct Hstep; fields.
  - exists R, W, V. split; [by apply inv_requests|]. intros Heq. apply (f_equal length) in Heq. rewrite length_app in Heq. simpl in Heq. lia.
  - exists R, W, V. split; [by eapply inv_begins|]. intros _. unfold work. fields. rewrite length_app. simpl. lia.
  - destruct (inv_writes L HL cq_id a Ha u0 R W V _ _ _ _ _ _ _ _ _ _ _ Hs H H0 H1 H2) as [HI Hk]. 
    pose proof (ci_sending _ _ _ _ _ _ _ Hs) as [HV _]. fields. exists R, W, (W + num_pages). split; [exact HI|]. intros _. unfold work. fields. lia.
  - destruct (inv_pushes L HL cq_id a Ha u0 R W V _ _ _ _ _ _ _ _ _ _ Hs) as [HI HW]. exists R, V, V. split; [exact HI|].
    intros _. unfold work. fields. lia.
  - exists R, W, V. split; [by eapply inv_starts|]. intros _. unfold work. fields. simpl. lia.
  - exists R, W, V. split; [by eapply inv_polls|]. intros _. unfold work. fields. simpl. lia.
  - destruct (copy_round_spec L HL cq_id u0 R W V _ _ _ _ _ _ _ _ _ _ _ Hs) as (m2 & e2 & c2 & k & Hcr & Hk & _ & HI).
    rewrite H in Hcr. injection Hcr as <- <- <-. exists (R + k), W, V.
    destruct (after_round r s' u fin) as [[rd' u'] fin'] eqn:Har. split; [exact HI|]. intros _. unfold work. fields.
    destruct rd'; simpl; lia.
  - destruct (read_event_spec L HL cq_id u0 R W V _ _ _ _ _ _ _ _ _ _ _ Hs H H0) as (m2 & e2 & k & Hre & Hk & _ & HI).
    rewrite H1 in Hre. injection Hre as <- <-. exists (R + k), W, V. split; [exact HI|]. intros _. unfold work. fields. simpl. lia.
Qed.

Lemma requests_grow s s' : completion_step a cq_id s s' → cs_requests s `prefix_of` cs_requests s'.
Proof.
  intros Hstep. destruct Hstep; fields; try done; [by eexists|].
  by destruct (after_round r s' u fin) as [[rd' u'] fin'].
Qed.

Lemma reachable_keeps s0 s :
  (∃ R W V, Inv R W V s0) → completion_reachable a cq_id s0 s → requests_ok (cs_requests s) → ∃ R W V, Inv R W V s.
Proof.
  intros H0 Hr. revert s Hr. apply (rtc_ind_r (λ s, requests_ok (cs_requests s) → ∃ R W V, Inv R W V s)); [done|].
  intros s1 s2 _ Hstep IH Hqs. destruct (requests_grow _ _ Hstep) as [qs Hpre].
  destruct IH as (R & W & V & Hs); [rewrite Hpre in Hqs; by eapply requests_ok_prefix|].
  destruct (step_keeps R W V s1 s2 Hs Hstep Hqs) as (R' & W' & V' & Hs' & _). by exists R', W', V'.
Qed.

(** The device can answer every request. *)
Lemma answer_exists q : request_ok q → ∃ data, answers q data.
Proof.
  intros Hq. pose proof (response_length_pos q Hq) as Hlen. destruct q as [r|event_id global_offset].
  - exists (replicate (Z.to_nat (response_length (ReadBuffer r))) 0). split; [rewrite length_replicate; lia|].
    split; [|done]. by apply Forall_replicate.
  - destruct Hq as (He & Hg & Heg).
    exists (replicate 16 0 ++ [event_id mod 256; event_id / 256 mod 256; event_id / 256 / 256 mod 256; event_id / 256 / 256 / 256] ++ replicate 12 0).
    split; [done|]. split.
    + repeat (apply Forall_cons; split); try apply Forall_nil; try done; Z.to_euclidean_division_equations; lia.
    + cbn [replicate app drop take foldr]. Z.to_euclidean_division_equations. lia.
Qed.

Lemma progress R W V s : Inv R W V s → all_finished s ∨ ∃ s', internal a cq_id s s'.
Proof.
  intros Hs. pose proof (ci_order _ _ _ _ _ _ _ Hs) as Ho. pose proof (rq_each _ (ci_requests _ _ _ _ _ _ _ Hs)) as Hqs.
  pose proof (ci_reader _ _ _ _ _ _ _ Hs) as Hrd. pose proof (answered_length _ _ _ _ _ _ _ Hs) as Hlen.
  destruct s as [m h d sd rd u qs rs fin]. fields.
  destruct (decide (R < W)) as [HRW|HRW].
  { right. assert (Hpoll : poll_ends cq_id m d (word_for L W)).
    { apply (wait_front_spec L HL cq_id R W m d _ (ci_manager _ _ _ _ _ _ _ Hs) (ci_dispatcher _ _ _ _ _ _ _ Hs)); [lia..|done]. }
    destruct rd as [|r c|r c word].
    - destruct (next_answered _ _ _ _ _ _ _ Hs HRW) as (q & resp & Hq & _); fields; [rewrite Hrd; done|]. destruct q as [r|event_id global_offset].
      + eexists. split; [by eapply reader_starts|done].
      + destruct (read_event_spec L HL cq_id u0 R W V _ _ _ _ _ _ _ _ _ _ _ Hs Hq Hpoll) as (m2 & e2 & k & Hre & _).
        eexists. split; [by eapply reader_takes_event|done].
    - eexists. split; [by eapply reader_polls|done].
    - destruct (copy_round_spec L HL cq_id u0 R W V _ _ _ _ _ _ _ _ _ _ _ Hs) as (m2 & e2 & c2 & k & Hcr & _).
      eexists. split; [by eapply reader_copies|]. by destruct (after_round r c2 u fin) as [[? ?] ?]. }
  assert (HR : R = W) by lia. pose proof (ci_sending _ _ _ _ _ _ _ Hs) as Hsd. fields. destruct sd as [|data|k data]; cbn [sending_at] in Hsd.
  - destruct Hsd as [_ HW]. destruct (qs !! length rs) as [q|] eqn:Hq.
    { right. pose proof (proj1 (Forall_lookup _ _) Hqs _ _ Hq) as Hok. destruct (answer_exists q Hok) as [data Hdata].
      eexists. split; [by eapply dispatcher_begins|done]. }
    left. apply lookup_ge_None in Hq. pose proof (ci_finished _ _ _ _ _ _ _ Hs) as Hfin. fields.
    assert (Hcopy : ∀ r c, copying_at R qs rs fin u r c → False).
    { intros r c (resp & p & Hqf & Hresp & Hp & _ & HRp & _). apply lookup_lt_Some in Hresp. pose proof (start_page_S _ _ _ Hqf) as HS.
      pose proof (start_page_mono qs (S fin) (length rs) Hqs ltac:(lia) Hlen). pose proof (proj2 (npages_bounds (response_length (ReadBuffer r)) _) eq_refl) as Hnp.
      change (response_length (ReadBuffer r)) with (response_size r) in *. Z.to_euclidean_division_equations. lia. }
    destruct rd as [|r c|r c word]; cbn [reader_at] in Hrd; [|by apply Hcopy in Hrd|destruct Hrd as [Hrd _]; by apply Hcopy in Hrd].
    split; [|done]. fields. destruct (decide (fin = length rs)) as [->|]; [lia|].
    pose proof (start_page_mono qs fin (length rs) Hqs Hfin Hlen). lia.
  - destruct Hsd as (HV & Hne & _). right. pose proof (ma_pages _ _ _ _ (ci_manager _ _ _ _ _ _ _ Hs)) as Hpages. fields.
    assert (Hl : 0 < Z.of_nat (length data)) by (destruct data; simpl; [done|lia]).
    set (x := xfer_size (Z.of_nat (length data)) 4096).
    assert (Hx : 0 < x <= 4096) by (unfold x, xfer_size; case_bool; lia).
    assert (Hk : xfer_pages a x = Ok 1).
    { unfold xfer_pages. rewrite (am_page L a Ha), (u32_small (x + 4096)), (u32_small (x + 4096 - 1)), udiv_ok by lia. f_equal.
      Z.to_euclidean_division_equations. lia. }
    pose proof (rk_pages L HL).
    assert (Hres : completion_queue_reserve_back a 1 d = true).
    { rewrite (reserve_pages_spec L HL a Ha W R d 1 (ci_dispatcher _ _ _ _ _ _ _ Hs)) by lia. apply bool_decide_eq_true_2. lia. }
    eexists. split; [eapply (dispatcher_writes a cq_id m h d data rd u qs rs fin 4096 1)|done]; rewrite ?(am_page L a Ha); try done; [lia|by left].
  - right. eexists. split; [by apply dispatcher_pushes|done].
Qed.

(** Without new requests every run ends, and it ends with all requests finished. *)
Lemma run_terminates R W V s : Inv R W V s → sn (internal a cq_id) s.
Proof.
  intros Hs. remember (Z.to_nat (work R W V s)) as k eqn:Hk. revert R W V s Hs Hk.
  induction k as [k IH] using lt_wf_ind. intros R W V s Hs ->. constructor. intros s' [Hstep Hqs].
  destruct (step_keeps R W V s s' Hs Hstep) as (R' & W' & V' & Hs' & Hw); [rewrite Hqs; apply Hs|]. specialize (Hw Hqs).
  pose proof (work_nonneg _ _ _ _ Hs'). pose proof (work_nonneg _ _ _ _ Hs). eapply IH; [|exact Hs'|done]. lia.
Qed.

Lemma internal_reachable s s' :
  rtc (internal a cq_id) s s' → completion_reachable a cq_id s s' ∧ cs_requests s' = cs_requests s.
Proof.
  induction 1 as [|s s1 s' [H1 Hq] _ [IH IHq]]; [split; [apply rtc_refl|done]|]. split; [by eapply rtc_l|congruence].
Qed.

Lemma run_finishes R W V s : Inv R W V s → ∃ s', rtc (internal a cq_id) s s' ∧ all_finished s'.
Proof.
  intros Hs. pose proof (run_terminates R W V s Hs) as Hsn. revert R W V Hs. induction Hsn as [s _ IH]. intros R W V Hs.
  destruct (progress R W V s Hs) as [Hfin|[s1 H1]]; [by exists s|].
  destruct (step_keeps R W V s s1 Hs (proj1 H1)) as (R1 & W1 & V1 & Hs1 & _); [rewrite (proj2 H1); apply Hs|].
  destruct (IH s1 H1 R1 W1 V1 Hs1) as (s' & Hr & Hf). exists s'. split; [by eapply rtc_l|done].
Qed.
End run.

(** * The completion stream: what it guarantees

    Every theorem starts from a manager its constructor returned, the
    dispatcher's arguments derived from it, and any contents of memory. *)
(** Queue [cq_id] of a device whose regions end at least 16 MB before the end of the address space:
    the dispatcher computes addresses past the end of its region on 32 bits. *)
Record completion_booted (hal : Hal) (cluster : Cluster) (ct : CoreType) (n : Z) (m : SystemMemoryManager) (cq_id : nat)
  (a : completion_args) : Prop := mk_completion_booted {
  cm_config : config_ok hal cluster n;
  cm_queue : Z.of_nat cq_id < n;
  cm_manager : constructed hal cluster ct n m;
  cm_args : dispatch_compile_args m (channel cluster) cq_id = Ok a;
  cm_end : channel_base (channel cluster) + n * queue_bytes hal cluster n + 2 ^ 24 <= 2 ^ 32
}.

Section start.
Context (hal : Hal) (cluster : Cluster) (ct : CoreType) (n : Z) (Hcf : config_ok hal cluster n).
Context (c : dispatch_constants) (Hc : constants_ok hal ct n c).
Context (cq_id : nat) (Hid : Z.of_nat cq_id < n).
Context (Hend : channel_base (channel cluster) + n * queue_bytes hal cluster n + 2 ^ 24 <= 2 ^ 32).

Definition ring_of : ring :=
  mk_ring (queue_base hal cluster n (Z.of_nat cq_id) + issue_bytes hal cluster n) (completion_bytes hal cluster n / 4096).

Lemma region_ends :
  queue_base hal cluster n (Z.of_nat cq_id) + issue_bytes hal cluster n + completion_bytes hal cluster n + 2 ^ 24 <= 2 ^ 32.
Proof. pose proof (cf_size _ _ _ Hcf). change TRANSFER_PAGE_SIZE with 4096 in *. pose proof (align_bounds hal cluster n Hcf). unfold queue_base, issue_bytes. nia. Qed.

Lemma ring_of_ok : ring_ok ring_of.
Proof.
  destruct (queue_base_bounds hal cluster n Hcf (Z.of_nat cq_id) ltac:(lia)) as (Hb0 & _ & Hb2). pose proof region_ends.
  destruct (region_sizes hal cluster n Hcf) as (Hc0 & Hc4 & _ & Hi0 & Hi). destruct (channel_base_bounds hal cluster n Hcf) as [Hch _].
  destruct (align_bounds hal cluster n Hcf) as (HA & _ & _ & HA16).
  split; cbn [ring_of rbase rpages].
  - split; [lia|]. apply Z.mod_divide in Hb2, Hi, HA16; [|lia..]. apply Z.mod_divide; [lia|].
    apply (Z.divide_trans _ (host_alignment hal)); [done|]. by apply Z.divide_add_r.
  - Z.to_euclidean_division_equations. lia.
  - Z.to_euclidean_division_equations. lia.
Qed.

Context (m : SystemMemoryManager) (Hm : built hal cluster ct n c (Z.to_nat n) m).

Lemma own_interface : cq_interfaces m !! cq_id = Some (interface_of hal cluster n (Z.of_nat cq_id)).
Proof. rewrite (bu_interfaces _ _ _ _ _ _ _ Hm), list_lookup_fmap, lookup_seq_lt by lia. done. Qed.

Lemma completion_args_spec : ∃ a, dispatch_compile_args m (channel cluster) cq_id = Ok a ∧ args_match ring_of a.
Proof.
  destruct (queue_base_bounds hal cluster n Hcf (Z.of_nat cq_id) ltac:(lia)) as (Hb0 & Hb1 & _). pose proof region_ends.
  destruct (channel_base_bounds hal cluster n Hcf) as [Hch _]. destruct (align_bounds hal cluster n Hcf) as (HA & _).
  destruct (region_sizes hal cluster n Hcf) as (Hc0 & Hc4 & _ & Hi0 & _).
  unfold dispatch_compile_args. rewrite (issue_size_spec hal cluster ct n Hcf c cq_id m (Z.to_nat n) Hm) by lia.
  unfold get_completion_queue_size, interface_at. rewrite (at_some _ _ _ own_interface). cbn [mbind outcome_bind].
  eexists. split; [done|]. rewrite (bu_size _ _ _ _ _ _ _ Hm), (bu_hal _ _ _ _ _ _ _ Hm), (absolute_offset hal cluster n Hcf), (host_unreserved hal cluster n Hcf) by lia.
  unfold queue_base in *. split; cbn [ring_of rbase rpages completion_queue_base_addr completion_queue_size completion_queue_page_size interface_of completion_fifo_size].
  - unfold queue_base. rewrite (u32_small (_ + 4 * _)), u32_small by lia. lia.
  - rewrite Z.shiftl_mul_pow2 by done. change (2 ^ 4) with 16. rewrite u32_small; Z.to_euclidean_division_equations; lia.
  - done.
Qed.

Lemma completion_start_inv a host user_ :
  args_match ring_of a → completion_inv ring_of cq_id user_ 0 0 0 (completion_start m a host user_).
Proof.
  intros Ha. pose proof ring_of_ok as HL. pose proof (rk_pages _ HL) as HT. pose proof (base_16 _ HL) as (Hb16 & Hb0 & Hb28).
  assert (Hptr : ptr_at ring_of 0 = rbase ring_of / 16) by (unfold ptr_at; rewrite Z.mod_0_l; lia).
  assert (Htog : toggle_at ring_of 0 = 0) by (unfold toggle_at; by rewrite Z.div_0_l by lia).
  assert (Hword : Z.shiftr (completion_queue_base_addr a) 4 = word_for ring_of 0).
  { rewrite (am_base _ _ Ha), Z.shiftr_div_pow2 by done. unfold word_for. rewrite Hptr, Htog. change (2 ^ 4) with 16. lia. }
  destruct (region_sizes hal cluster n Hcf) as (_ & Hc4 & _).
  unfold completion_start, dispatcher_start. rewrite Hword. destruct (word_parts _ HL 0) as [-> ->].
  split; fields; cbn [reader_at sending_at]; try done.
  - lia.
  - split.
    + exists (interface_of hal cluster n (Z.of_nat cq_id)). split; [apply own_interface|].
      rewrite Hptr, Htog. cbn [interface_of completion_fifo_rd_ptr completion_fifo_rd_toggle issue_fifo_limit completion_fifo_limit ring_of rbase rpages].
      split_and!; try done. Z.to_euclidean_division_equations. lia.
    + apply lookup_lt_is_Some. rewrite (bu_bytes _ _ _ _ _ _ _ Hm). lia.
    + rewrite (bu_constants _ _ _ _ _ _ _ Hm). pose proof (co_pages _ _ _ _ Hc). destruct (co_dispatch _ _ _ _ Hc) as (_ & Hd & _ & Hd').
      destruct (pf_sizes _ (cf_platform _ _ _ Hcf)). pose proof (constants_bounds hal cluster ct n Hcf c Hc) as (_ & _ & HP). unfold prefetch_base in HP.
      destruct ct; simpl in *; lia.
  - exists 0. split; [|by left]. rewrite (bu_completed _ _ _ _ _ _ _ Hm). apply lookup_replicate_2. lia.
Qed.
End start.

Lemma completion_booted_ring hal cluster ct n m cq_id a :
  completion_booted hal cluster ct n m cq_id a →
  ∃ L, ring_ok L ∧ args_match L a ∧ ∀ host user_, completion_inv L cq_id user_ 0 0 0 (completion_start m a host user_).
Proof.
  intros [Hcf Hid Hm Ha Hend]. destruct (constructed_built _ _ _ _ _ Hcf Hm) as (c & Hc & Hb & _).
  exists (ring_of hal cluster n cq_id). split; [by apply ring_of_ok|].
  destruct (completion_args_spec hal cluster ct n Hcf c cq_id Hid Hend m Hb) as (a' & Ha' & Hmatch). rewrite Ha in Ha'. injection Ha' as <-.
  split; [done|]. intros. by eapply completion_start_inv.
Qed.

(** ** A concrete queue *)
Definition demo_completion (m : SystemMemoryManager) (a : completion_args) : completion_system :=
  completion_start m a (λ _, 0) (λ _, 0).

(** A read of three pages of 24 bytes, padded to 32, to address 5000, and an event. *)
Definition demo_read : ReadBufferDescriptor := mk_read 24 32 None 5000 0 3 0.
Definition demo_requests : list request := [ReadBuffer demo_read; ReadEvent 1 0].

Lemma demo_requests_ok : requests_ok demo_requests.
Proof.
  split.
  - apply Forall_cons. split; [|by repeat constructor]. split; [split|]; simpl; unfold sizeof_CQDispatchCmd; try lia. unfold places_ok. simpl. lia.
  - intros [|[|i]] [|[|j]] q q' v v' Hij Hi Hj Hv Hv'; simpl in *; try lia; try done. injection Hi as <-. done.
Qed.

Lemma demo_completion_booted : ∃ m a, completion_booted demo_hal demo_cluster WORKER 1 m 0 a.
Proof.
  do 2 eexists. split; [exact demo_stream_config|done| | |].
  - do 3 eexists. split; [vm_compute; reflexivity|vm_compute; reflexivity].
  - vm_compute. reflexivity.
  - vm_compute. done.
Qed.

(** Both requests made, then everything carried out. *)
Lemma demo_completion_run :
  ∃ m a s1 s2, completion_booted demo_hal demo_cluster WORKER 1 m 0 a
    ∧ completion_reachable a 0 (demo_completion m a) s1 ∧ cs_requests s1 = demo_requests ∧ cs_finished s1 = 0%nat
    ∧ rtc (internal a 0) s1 s2 ∧ all_finished s2 ∧ cs_finished s2 = 2%nat.
Proof.
  destruct demo_completion_booted as (m & a & Hb). destruct (completion_booted_ring _ _ _ _ _ _ _ Hb) as (L & HL & Ha & HI).
  specialize (HI (λ _, 0) (λ _, 0)). fold (demo_completion m a) in HI. unfold demo_completion in *.
  set (s1 := mk_completion m (λ _, 0) (dispatcher_start (completion_queue_base_addr a)) Ready Idling (λ _, 0) demo_requests [] 0).
  assert (H1 : completion_reachable a 0 (completion_start m a (λ _, 0) (λ _, 0)) s1).
  { eapply rtc_l; [apply host_requests with (q := ReadBuffer demo_read)|]. apply rtc_once.
    apply host_requests with (q := ReadEvent 1 0) (qs := [ReadBuffer demo_read]). }
  destruct (reachable_keeps L HL 0 a Ha (λ _, 0) _ s1 ltac:(do 3 eexists; exact HI) H1 demo_requests_ok) as (R & W & V & Hs1).
  destruct (run_finishes L HL 0 a Ha (λ _, 0) R W V s1 Hs1) as (s2 & Hr & Hf).
  destruct (internal_reachable 0 a _ _ Hr) as [Hr2 Hq].
  exists m, a, s1, s2. do 6 (split; [done|]). destruct Hf as [-> _]. by rewrite Hq.
Qed.

(** A run that finishes a read goes through a poll. *)
Lemma passes_poll cq_id a r s s' :
  rtc (internal a cq_id) s s' → cs_requests s !! 0%nat = Some (ReadBuffer r) → cs_finished s = 0%nat → cs_finished s' ≠ 0%nat →
  ∃ s1 r1 c word, rtc (internal a cq_id) s s1 ∧ cs_reader s1 = Polled r1 c word.
Proof.
  induction 1 as [s|s s2 s' H12 Hr IH]; intros Hq H0 Hne; [done|]. pose proof H12 as [Hstep Hqs].
  destruct (decide (cs_finished s2 = 0%nat)) as [H2|H2].
  { destruct IH as (s1 & r1 & c & word & H1 & Hp); [by rewrite Hqs|done|done|]. exists s1, r1, c, word. split; [by eapply rtc_l|done]. }
  destruct Hstep; fields; try (by destruct H2).
  - by exists (mk_completion m h d sd (Polled r0 s word) u qs rs fin), r0, s, word.
  - subst fin. rewrite Hq in *. done.
Qed.

(** ** The theorems *)
(** C7: Integrity of what the host reads back, for reads whose padding no round cuts.  The requests
    are well formed ([requests_ok]); in particular ([ro_cut]) pages have at most 4096 bytes with their
    padding, or at most 16 bytes of padding, so that no piece of a response ends within the padding of
    a page that an earlier piece began; at the end of this file is what the code does otherwise.  Then, however
    dispatcher and reader interleave, into whatever pieces a response is cut by arriving data, polls
    and the end of the ring, and over any number of wraps: whenever the reader is between requests,
    user memory holds exactly what the responses to the finished requests say, page by page without
    padding and at the places of the page mapping, and nothing else was written. *)
Theorem completion_reads_correct hal cluster ct n m cq_id a host user_ s :
  completion_booted hal cluster ct n m cq_id a → completion_reachable a cq_id (completion_start m a host user_) s →
  requests_ok (cs_requests s) → cs_reader s = Idling →
  mem_eq (cs_user s) (results (cs_requests s) (cs_responses s) (cs_finished s) user_).
Proof.
  intros Hb Hr Hqs _. destruct (completion_booted_ring _ _ _ _ _ _ _ Hb) as (L & HL & Ha & HI).
  destruct (reachable_keeps L HL cq_id a Ha user_ _ s ltac:(do 3 eexists; apply HI) Hr Hqs) as (R & W & V & Hs). apply Hs.
Qed.

Lemma completion_reads_correct_witness :
  ∃ m a s, completion_booted demo_hal demo_cluster WORKER 1 m 0 a ∧ completion_reachable a 0 (demo_completion m a) s
    ∧ cs_requests s = demo_requests ∧ cs_finished s = 2%nat
    ∧ mem_eq (cs_user s) (results (cs_requests s) (cs_responses s) (cs_finished s) (λ _, 0)).
Proof.
  destruct demo_completion_run as (m & a & s1 & s & Hb & Hr1 & Hq1 & _ & Hrun & [_ Hi] & Hf).
  destruct (internal_reachable 0 a _ _ Hrun) as [Hr Hq]. rewrite Hq1 in Hq.
  assert (Hreach : completion_reachable a 0 (demo_completion m a) s) by (unfold completion_reachable in *; by etrans).
  exists m, a, s. do 4 (split; [done|]).
  apply (completion_reads_correct demo_hal demo_cluster WORKER 1 m 0 a (λ _, 0) (λ _, 0) s); [done..| |done].
  rewrite Hq. exact demo_requests_ok.
Defined.

(** C9: For well-formed requests ([requests_ok]) no operation of the protocol fails in a
    reachable state: a reader that polled copies a round of the response, of which less is left then; a
    reader whose wait for an event ended finds the number it expects in the response, and records it as the last completed event. *)
Theorem completion_stream_safe hal cluster ct n m cq_id a host user_ s :
  completion_booted hal cluster ct n m cq_id a → completion_reachable a cq_id (completion_start m a host user_) s →
  requests_ok (cs_requests s) →
  match cs_reader s with
  | Idling => ∀ event_id global_offset word,
      cs_requests s !! cs_finished s = Some (ReadEvent event_id global_offset) →
      poll_ends cq_id (cs_manager s) (cs_dispatcher s) word →
      ∃ m' effects, read_event cq_id (cs_host s) event_id global_offset (cs_manager s) = Ok (m', effects)
        ∧ get_last_completed_event cq_id m' = Ok (global_offset + event_id)
  | Copying _ _ => True
  | Polled r c word =>
      ∃ m' effects c', copy_round cq_id (cs_host s) r word (cs_manager s) c = Ok (m', effects, c')
        ∧ remaining_bytes_to_read c' < remaining_bytes_to_read c
  end.
Proof.
  intros Hb Hr Hqs. destruct (completion_booted_ring _ _ _ _ _ _ _ Hb) as (L & HL & Ha & HI).
  destruct (reachable_keeps L HL cq_id a Ha user_ _ s ltac:(do 3 eexists; apply HI) Hr Hqs) as (R & W & V & Hs).
  destruct s as [m1 h d sd rd u qs rs fin]. fields. destruct rd as [|r c|r c word]; [|done|].
  - intros e g word Hq Hpoll. destruct (read_event_spec L HL cq_id user_ R W V _ _ _ _ _ _ _ _ _ _ _ Hs Hq Hpoll) as (m' & ef & k & He & _ & Hl & _).
    by exists m', ef.
  - destruct (copy_round_spec L HL cq_id user_ R W V _ _ _ _ _ _ _ _ _ _ _ Hs) as (m' & ef & c' & k & Hc & _ & Hl & _). by exists m', ef, c'.
Qed.

Lemma completion_stream_safe_witness :
  ∃ m a s r c word, completion_booted demo_hal demo_cluster WORKER 1 m 0 a ∧ cs_requests s = demo_requests ∧ cs_reader s = Polled r c word
    ∧ ∃ m' effects c', copy_round 0 (cs_host s) r word (cs_manager s) c = Ok (m', effects, c')
        ∧ remaining_bytes_to_read c' < remaining_bytes_to_read c.
Proof.
  destruct demo_completion_run as (m & a & s1 & s2 & Hb & Hr1 & Hq1 & Hf1 & Hrun & _ & Hf).
  destruct (passes_poll 0 a demo_read s1 s2 Hrun ltac:(by rewrite Hq1) Hf1) as (s & r & c & word & Hr & Hp); [by rewrite Hf|].
  destruct (internal_reachable 0 a _ _ Hr) as [Hr' Hq'].
  exists m, a, s, r, c, word. split; [done|]. split; [by rewrite Hq'|]. split; [done|].
  pose proof (completion_stream_safe demo_hal demo_cluster WORKER 1 m 0 a (λ _, 0) (λ _, 0) s Hb ltac:(unfold completion_reachable in *; by etrans)
    ltac:(rewrite Hq', Hq1; exact demo_requests_ok)) as Hsafe.
  rewrite Hp in Hsafe. exact Hsafe.
Defined.

(** C8: For well-formed requests ([requests_ok]) the protocol never gets stuck and always
    gets done.  From every reachable state every run
    of dispatcher and reader without new requests ends, under any schedule; and where it ends all
    requests are finished and the reader is between requests. *)
Theorem completion_stream_terminates hal cluster ct n m cq_id a host user_ s :
  completion_booted hal cluster ct n m cq_id a → completion_reachable a cq_id (completion_start m a host user_) s →
  requests_ok (cs_requests s) →
  sn (internal a cq_id) s
  ∧ ∀ s', rtc (internal a cq_id) s s' → nf (internal a cq_id) s' → all_finished s'.
Proof.
  intros Hb Hr Hqs. destruct (completion_booted_ring _ _ _ _ _ _ _ Hb) as (L & HL & Ha & HI).
  destruct (reachable_keeps L HL cq_id a Ha user_ _ s ltac:(do 3 eexists; apply HI) Hr Hqs) as (R & W & V & Hs).
  split; [by eapply run_terminates|]. intros s' Hrun Hnf. destruct (internal_reachable cq_id a _ _ Hrun) as [Hr' Hq'].
  rewrite <- Hq' in Hqs.
  destruct (reachable_keeps L HL cq_id a Ha user_ s s' ltac:(do 3 eexists; exact Hs) Hr' Hqs) as (R' & W' & V' & Hs').
  destruct (progress L HL cq_id a Ha user_ R' W' V' s' Hs') as [Hf|[s2 H2]]; [done|]. destruct Hnf. by exists s2.
Qed.

Lemma completion_stream_terminates_witness :
  ∃ m a s, completion_booted demo_hal demo_cluster WORKER 1 m 0 a ∧ completion_reachable a 0 (demo_completion m a) s
    ∧ cs_requests s = demo_requests ∧ cs_finished s = 0%nat ∧ sn (internal a 0) s.
Proof.
  destruct demo_completion_run as (m & a & s & s2 & Hb & Hr & Hq & Hf & _).
  exists m, a, s. do 4 (split; [done|]).
  refine (proj1 (completion_stream_terminates demo_hal demo_cluster WORKER 1 m 0 a (λ _, 0) (λ _, 0) s Hb Hr _)).
  rewrite Hq. exact demo_requests_ok.
Defined.

(** * Padding that the end of a round cuts

    [read_ok] asks that the end of a round never falls into the padding of a
    page that an earlier round began, for which pages of at most 4096 bytes or
    of at most 16 bytes of padding are enough.  Without it the copy goes wrong. *)
(** Rounds of [copy_into_user_space] that find the given numbers of bytes, the queue not wrapping. *)
Fixpoint copy_rounds (host : mem) (r : ReadBufferDescriptor) (completion_q_read_ptr : Z) (rounds : list Z) (s : copy_state)
  : outcome copy_state :=
  match rounds with
  | [] => Ok s
  | bytes_xfered :: rounds =>
    s ← copy_chunk host r bytes_xfered completion_q_read_ptr s;
    copy_rounds host r (completion_q_read_ptr + bytes_xfered) rounds s
  end.

(** A page of 8172 bytes, padded to 8192, read to address 0; host memory holds [a mod 251] at
    address [a], user memory -1. *)
Definition cut_read : ReadBufferDescriptor := mk_read 8172 8192 None 0 0 1 0.
Definition user_byte (rounds : list Z) (address : Z) : outcome Z :=
  s ← copy_rounds (λ a, a mod 251) cut_read 0 rounds (copy_start cut_read (λ _, -1)); Ok (user s address).

(** A read of that page in one round is right, in rounds of 4096 bytes it overruns the page. *)
Example cut_read_rounds :
  user_byte [8192; 16] 8172 = Ok (-1) ∧ user_byte [4096; 4096; 16] 8172 = Ok (8188 mod 251).
Proof. split; vm_compute; reflexivity. Qed.


