(* ===== verification/AllocatorAlgorithm.v ===== *)
(** * What an allocation algorithm promises (impl/allocator/algorithms/allocator_algorithm.hpp)

    [Algorithm] is the abstract base class as a type class of operations.
    [AlgorithmLaws] is its contract: a state stands for the map of its live
    blocks, from the address of a block to its size, and every operation is
    described on that map.  The bank managers are verified against this
    interface; the free list discharges it in [FreeListAlgorithm]. *)
From S2P Require Import Prelude FreeList.

Module Algorithm.

Class Algorithm (A : Type) := {
  max_size_bytes : A → Z;
  lowest_occupied_address : A → option Z;
  available_addresses : Z → ST A (list (Z * Z));
  allocate : Z → bool → Z → ST A (option Z);
  allocate_at_address : Z → Z → ST A (option Z);
  deallocate : Z → ST A unit;
  clear : ST A unit;
  get_statistics : ST A Statistics;
  dump_blocks : ST A (list dump_row)
}.

End Algorithm.

(** ** Live blocks *)
(** The memory an algorithm hands out, and the granularity of its blocks. *)
Record region := mk_region { r_base : Z; r_size : Z; r_min : Z; r_gran : Z }.

Record region_ok (r : region) : Prop := mk_region_ok {
  ro_gran : 0 < r_gran r;
  ro_base : 0 <= r_base r;
  ro_size : 0 <= r_size r;
  ro_min : 0 < r_min r;
  ro_base_gran : (r_gran r | r_base r);
  ro_size_gran : (r_gran r | r_size r);
  ro_end : r_base r + r_size r < 2 ^ 64
}.

(** Address of a live block ↦ its size. *)
Abbreviation live := (gmap Z Z).

Definition apart (a sz b sz' : Z) : Prop := a + sz <= b ∨ b + sz' <= a.
Definition within (r : region) (a sz : Z) : Prop :=
  r_base r <= a ∧ a + sz <= r_base r + r_size r.
(** [sz] bytes at [a] touch no live block. *)
Definition has_room (m : live) (a sz : Z) : Prop :=
  ∀ b sz', m !! b = Some sz' → apart a sz b sz'.
(** [sz] bytes at [a] are free memory of the region. *)
Definition room_at (r : region) (m : live) (a sz : Z) : Prop := within r a sz ∧ has_room m a sz.

Definition wf_block (r : region) (a sz : Z) : Prop :=
  0 < sz ∧ within r a sz ∧ (r_gran r | a) ∧ (r_gran r | sz).

(** Live blocks lie in the region, are aligned and never overlap. *)
Record wf_live (r : region) (m : live) : Prop := mk_wf_live {
  wl_block : ∀ a sz, m !! a = Some sz → wf_block r a sz;
  wl_apart : ∀ a sz b sz', m !! a = Some sz → m !! b = Some sz' → a ≠ b → apart a sz b sz'
}.

(** The size of the block a request gets. *)
Definition block_size (r : region) (size_bytes : Z) : Z :=
  (Z.max size_bytes (r_min r) + r_gran r - 1) / r_gran r * r_gran r.
Definition request_ok (r : region) (size_bytes : Z) : Prop :=
  0 <= size_bytes ∧ Z.max size_bytes (r_min r) + r_gran r <= 2 ^ 64.

(** No room for the block lies before it in the direction of the search. *)
Definition extremal (bottom_up : bool) (r : region) (m : live) (a sz : Z) : Prop :=
  ∀ b, room_at r m b sz → if bottom_up then a <= b else b <= a.

(** The smallest address of a live block. *)
Definition is_lowest (m : live) (o : option Z) : Prop :=
  match o with
  | None => m = ∅
  | Some a => is_Some (m !! a) ∧ ∀ b, is_Some (m !! b) → a <= b
  end.

Lemma apart_sym a sz b sz' : apart a sz b sz' → apart b sz' a sz.
Proof. unfold apart. lia. Qed.

Lemma block_size_spec r size_bytes :
  region_ok r → 0 <= size_bytes →
  0 < block_size r size_bytes ∧ size_bytes <= block_size r size_bytes
  ∧ (r_gran r | block_size r size_bytes) ∧ block_size r size_bytes < Z.max size_bytes (r_min r) + r_gran r.
Proof.
  intros [Hg _ _ Hm _ _ _] H0. unfold block_size.
  set (z := Z.max _ _). assert (size_bytes <= z ∧ 0 < z) by lia.
  pose proof (Z.div_mod (z + r_gran r - 1) (r_gran r)).
  pose proof (Z.mod_pos_bound (z + r_gran r - 1) (r_gran r) Hg).
  split_and!; [lia|lia|apply Z.divide_factor_r|lia].
Qed.

Lemma wf_live_empty r : wf_live r ∅.
Proof. by split; intros *; rewrite lookup_empty. Qed.

Lemma wf_live_insert r m a sz :
  wf_live r m → wf_block r a sz → has_room m a sz → wf_live r (<[a:=sz]> m).
Proof.
  intros [H1 H2] Hb Hr. split.
  - intros b sz' [[<- <-]|[_ ?]]%lookup_insert_Some; [done|by apply H1].
  - intros b sb c sc [[<- <-]|[? Hb']]%lookup_insert_Some [[<- <-]|[? Hc']]%lookup_insert_Some Hne;
      [done|by apply Hr|by apply apart_sym, Hr|by eapply H2].
Qed.

Lemma wf_live_delete r m a : wf_live r m → wf_live r (delete a m).
Proof.
  intros [H1 H2]. split.
  - intros b sz [_ ?]%lookup_delete_Some. by apply H1.
  - intros b sb c sc [_ ?]%lookup_delete_Some [_ ?]%lookup_delete_Some. by apply H2.
Qed.

(** Room is not where a live block is. *)
Lemma has_room_fresh r m a sz : wf_live r m → 0 < sz → has_room m a sz → m !! a = None.
Proof.
  intros Hwf Hsz Hr. destruct (m !! a) as [sz'|] eqn:Ha; [|done]. exfalso.
  destruct (wl_block _ _ Hwf _ _ Ha) as [? _]. destruct (Hr _ _ Ha); lia.
Qed.

(** ** The contract *)
Class AlgorithmLaws (A : Type) `{Alg : Algorithm.Algorithm A} := {
  (** [rep tracked s m]: state [s] has the live blocks [m]; if [tracked], its
      lowest occupied address is up to date. *)
  rep : bool → A → live → Prop;
  reg : A → region;
  (** It searches by first fit. *)
  first_fit : A → bool;

  rep_region t s m : rep t s m → region_ok (reg s);
  rep_wf t s m : rep t s m → wf_live (reg s) m;
  rep_weaken s m : rep true s m → rep false s m;
  max_size_law s : Algorithm.max_size_bytes s = r_size (reg s);

  allocate_law t s m size_bytes bottom_up limit :
    rep t s m → request_ok (reg s) size_bytes →
    let sz := block_size (reg s) size_bytes in
    (Algorithm.allocate size_bytes bottom_up limit s = (Ok None, s) ∧ ∀ a, ¬ room_at (reg s) m a sz)
    ∨ ∃ a s', Algorithm.allocate size_bytes bottom_up limit s
              = (if a <? limit then Err TT_THROW else Ok (Some a), s')
      ∧ room_at (reg s) m a sz ∧ (r_gran (reg s) | a)
      ∧ (first_fit s = true → extremal bottom_up (reg s) m a sz)
      ∧ rep t s' (<[a:=sz]> m) ∧ reg s' = reg s ∧ first_fit s' = first_fit s;

  deallocate_law t s m a :
    rep t s m → in_range 64 a →
    ∃ s', Algorithm.deallocate a s = (Ok tt, s')
      ∧ rep t s' (delete a m) ∧ reg s' = reg s ∧ first_fit s' = first_fit s;

  clear_law t s m :
    rep t s m →
    ∃ s', Algorithm.clear s = (Ok tt, s')
      ∧ rep false s' ∅ ∧ reg s' = reg s ∧ first_fit s' = first_fit s;

  lowest_law s m : rep true s m → is_lowest m (Algorithm.lowest_occupied_address s)
}.

#[export] Hint Resolve rep_region rep_wf wf_live_empty wf_live_insert wf_live_delete : cpp.

(** Addresses and sizes of live blocks are machine integers. *)
Lemma rep_bounds `{AlgorithmLaws A} t s m a sz :
  rep t s m → m !! a = Some sz → 0 <= a ∧ 0 < sz ∧ a + sz < 2 ^ 64.
Proof.
  intros Hs Ha. destruct (wl_block _ _ (rep_wf _ _ _ Hs) _ _ Ha) as (? & [? ?] & _ & _).
  destruct (rep_region _ _ _ Hs). lia.
Qed.
