(* ===== verification/FreeListAlgorithm.v ===== *)
(** * The free list is an allocation algorithm

    The live blocks of a free list are its used segments.  A list over an empty
    region (a device opened without small-L1 or trace memory has two) is a
    single empty free block, which no request fits. *)
From stdpp Require Import sorting.
From S2P Require Import Prelude FreeList FreeListOps FreeListThms FreeListProps AllocatorAlgorithm.

#[export] Instance FreeList_Algorithm : Algorithm.Algorithm FreeList := {|
  Algorithm.max_size_bytes := max_size_bytes;
  Algorithm.lowest_occupied_address := lowest_occupied_address;
  Algorithm.available_addresses := available_addresses;
  Algorithm.allocate := allocate;
  Algorithm.allocate_at_address := allocate_at_address;
  Algorithm.deallocate := deallocate;
  Algorithm.clear := clear;
  Algorithm.get_statistics := get_statistics;
  Algorithm.dump_blocks := dump_blocks
|}.

(** ** The map of live blocks *)
Definition live_of (o : Z) (l : list seg) (m : live) : Prop :=
  ∀ a sz, m !! a = Some sz ↔ (a - o, sz) ∈ allocs l.

Definition reg_of (s : FreeList) : region :=
  mk_region (offset_bytes s) (max_size_bytes s) (min_allocation_size s) (alignment s).

(** A free list over no memory at all. *)
Record empty_list (s : FreeList) : Prop := mk_empty_list {
  el_max : max_size_bytes s = 0;
  el_region : region_ok (reg_of s);
  el_rep : ∃ p, Rep s [mk_seg p 0 0 true];
  el_lowest : lowest_occupied_address_ s = None
}.

Definition list_rep (tracked : bool) (s : FreeList) (m : live) : Prop :=
  (∃ l, Inv s l ∧ (tracked = true → lowest_ok s l) ∧ live_of (offset_bytes s) l m)
  ∨ (empty_list s ∧ m = ∅).

Lemma cfg_region s : cfg_ok s → region_ok (reg_of s).
Proof. intros []. split; simpl; done || lia. Qed.

Lemma live_of_seg o l m a sz :
  live_of o l m → m !! a = Some sz ↔ ∃ x, x ∈ l ∧ sfree x = false ∧ a = saddr x + o ∧ ssize x = sz.
Proof.
  intros Hm. rewrite (Hm a sz), elem_of_allocs. split; intros (x & ? & ? & ? & ?); exists x; split_and!; try done; lia.
Qed.

(** Segments of a tiling do not overlap. *)
Lemma tiles_apart a l e x y :
  tiles a l e → x ∈ l → y ∈ l → saddr x ≠ saddr y → apart (saddr x) (ssize x) (saddr y) (ssize y).
Proof.
  revert a; induction l as [|z l IH]; intros a; simpl; [set_solver|].
  intros (Hz & Hs & Hl) Hx Hy Hne. unfold apart.
  apply elem_of_cons in Hx as [->|Hx], Hy as [->|Hy]; [done| | |by eapply IH].
  - eapply tiles_elem in Hl; [|apply Hy]. lia.
  - eapply tiles_elem in Hl; [|apply Hx]. lia.
Qed.

(** Free memory lies inside one free segment, free neighbours being merged. *)
Lemma room_in_free b a0 l e a sz :
  tiles a0 l e → coalesced b l → a0 <= a → a + sz <= e → 0 < sz →
  (∀ x, x ∈ l → sfree x = false → apart a sz (saddr x) (ssize x)) →
  ∃ x, x ∈ l ∧ sfree x = true ∧ saddr x <= a ∧ a + sz <= saddr x + ssize x.
Proof.
  revert a0 b; induction l as [|x l IH]; intros a0 b; cbn [tiles coalesced]; [lia|].
  intros (Hx & Hs & Ht) [_ Hc] Ha He Hsz Hroom. destruct (Z.le_gt_cases (a0 + ssize x) a) as [Hge|Hlt].
  { destruct (IH _ _ Ht Hc Hge He Hsz) as (y & ? & ?); [|by exists y; split; [right|]].
    intros y Hy. apply Hroom. by right. }
  assert (Hxf : sfree x = true).
  { destruct (sfree x) eqn:Hf; [done|]. destruct (Hroom x ltac:(by left) Hf); lia. }
  exists x. split; [by left|]. split_and!; [done|lia|]. rewrite Hx.
  destruct (Z.le_gt_cases (a + sz) (a0 + ssize x)) as [|Hgt]; [done|exfalso].
  destruct l as [|y l]; cbn [tiles coalesced] in Ht, Hc; [lia|]. destruct Ht as (Hy & Hys & _), Hc as [Hyf _].
  rewrite Hxf in Hyf. simpl in Hyf. destruct (Hroom y ltac:(set_solver) Hyf); lia.
Qed.

Lemma live_of_insert o l l' m a sz :
  live_of o l m → m !! (a + o) = None →
  (∃ k1 k2, allocs l = k1 ++ k2 ∧ allocs l' = k1 ++ (a, sz) :: k2) →
  live_of o l' (<[a + o := sz]> m).
Proof.
  intros Hm Hno (k1 & k2 & Hl & Hl') b sb. rewrite lookup_insert_Some, (Hm b sb), Hl, Hl', !elem_of_app, elem_of_cons.
  split; [intros [[<- <-]|[_ []]]; [right; left; f_equal; lia|by left|by do 2 right]|].
  assert (Hin : (b - o, sb) ∈ k1 ∨ (b - o, sb) ∈ k2 → (a + o ≠ b ∧ ((b - o, sb) ∈ k1 ∨ (b - o, sb) ∈ k2))).
  { intros Hin. split; [|done]. intros <-. assert (m !! (a + o) = Some sb); [|congruence].
    apply Hm. by rewrite Hl, elem_of_app. }
  intros [?|[[= <- <-]|?]]; [right; by apply Hin; left|left; split; lia|right; by apply Hin; right].
Qed.

Lemma live_of_delete o l1 x l2 m e :
  tiles 0 (l1 ++ x :: l2) e → NoDup (l1 ++ x :: l2) → sfree x = false → live_of o (l1 ++ x :: l2) m →
  live_of o (free_segment l1 x l2) (delete (saddr x + o) m).
Proof.
  intros Ht Hnd Hx Hm b sb.
  rewrite lookup_delete_Some, (Hm b sb), free_segment_allocs, (allocs_used l1 x l2 Hx), !elem_of_app, elem_of_cons.
  split; [intros [? [?|[[=]|?]]]; [by left|lia|by right]|].
  intros Hin. split; [|by destruct Hin as [?|?]; [left|right; right]]. intros <-.
  assert (∃ y, (y ∈ l1 ∨ y ∈ l2) ∧ saddr y = saddr x) as (y & Hy & Hyx).
  { destruct Hin as [(y & ? & _ & ? & _)%elem_of_allocs|(y & ? & _ & ? & _)%elem_of_allocs]; exists y;
      (split; [by auto|lia]). }
  assert (y = x) as -> by (eapply tiles_addr_inj; [exact Ht|set_solver|set_solver|done]).
  apply NoDup_app in Hnd as (_ & Hd & [Hnx _]%NoDup_cons). destruct Hy; [|done].
  by apply (Hd x); [|left].
Qed.

Lemma live_of_wf s l m : Inv s l → live_of (offset_bytes s) l m → wf_live (reg_of s) m.
Proof.
  intros HI Hm. split.
  - intros a sz (x & Hx & _ & -> & <-)%(live_of_seg _ _ _ _ _ Hm).
    destruct (Inv_bounds _ _ _ HI Hx) as (?&?&?&?&?). unfold wf_block, within. simpl.
    split_and!; [done|lia|lia| |].
    + apply Z.divide_add_r; [by eapply Inv_addr_aligned|apply HI].
    + pose proof (inv_aligned _ _ HI) as Hal. rewrite Forall_forall in Hal. by apply Hal.
  - intros a sa b sb (x & Hx & _ & -> & <-)%(live_of_seg _ _ _ _ _ Hm)
      (y & Hy & _ & -> & <-)%(live_of_seg _ _ _ _ _ Hm) Hne.
    destruct (tiles_apart _ _ _ x y (inv_tiles _ _ HI)); [done..|lia| |]; unfold apart; lia.
Qed.

(** Free memory of the region is inside a free segment. *)
Lemma room_segment s l m a sz :
  Inv s l → live_of (offset_bytes s) l m → 0 < sz → room_at (reg_of s) m a sz →
  ∃ x, x ∈ l ∧ sfree x = true ∧ saddr x + offset_bytes s <= a
       ∧ a + sz <= saddr x + ssize x + offset_bytes s.
Proof.
  intros HI Hm Hsz [[H1 H2] Hr]. simpl in *.
  destruct (room_in_free false 0 l (max_size_bytes s) (a - offset_bytes s) sz) as (x & ? & ? & ? & ?);
    [apply HI|apply HI|lia|lia|done| |exists x; split_and!; try done; lia].
  intros x Hx Hf. destruct (Hr (saddr x + offset_bytes s) (ssize x)); [|unfold apart; lia..].
  apply (live_of_seg _ _ _ _ _ Hm). by exists x.
Qed.

Lemma room_of_free s l m x a sz :
  Inv s l → live_of (offset_bytes s) l m → x ∈ l → sfree x = true → 0 < sz →
  saddr x <= a → a + sz <= saddr x + ssize x → room_at (reg_of s) m (a + offset_bytes s) sz.
Proof.
  intros HI Hm Hx Hf Hsz Ha He. destruct (Inv_bounds _ _ _ HI Hx) as (?&?&?&?&?). split.
  - unfold within. simpl. lia.
  - intros b sb (y & Hy & Hyf & -> & <-)%(live_of_seg _ _ _ _ _ Hm).
    destruct (Z.eq_dec (saddr x) (saddr y)) as [Heq|Hne].
    { assert (x = y) by (eapply tiles_addr_inj; [apply HI|done..]). congruence. }
    destruct (tiles_apart _ _ _ x y (inv_tiles _ _ HI)); [done..| |]; unfold apart; lia.
Qed.

(** ** First fit goes to the end of the free memory it searches from *)
Definition precedes (x y : seg) : Prop := saddr x + ssize x <= saddr y.

Lemma tiles_sorted a l e : tiles a l e → StronglySorted precedes l.
Proof.
  revert a; induction l as [|x l IH]; intros a; [constructor|]. intros (Hx & Hs & Ht).
  constructor; [by eapply IH|]. apply Forall_forall. intros y Hy.
  pose proof (tiles_elem _ _ _ _ Ht Hy). unfold precedes. lia.
Qed.

Lemma frees_sorted a l e : tiles a l e → StronglySorted precedes (frees l).
Proof.
  intros Ht%tiles_sorted. revert Ht. induction 1 as [|x l _ IH Hx]; simpl; [constructor|].
  destruct (sfree x); [|done]. constructor; [done|]. rewrite Forall_forall in *.
  intros y [Hy _]%elem_of_frees. by apply Hx.
Qed.

Lemma pick_first_extremal s l m bu sz x :
  Inv s l → live_of (offset_bytes s) l m → 0 < sz → pick FIRST sz bu l = Some x →
  extremal bu (reg_of s) m (saddr x + alloc_offset bu x sz + offset_bytes s) sz.
Proof.
  intros HI Hm Hsz (k1 & k2 & Hfl & Hle & Hk1)%pick_first_some b Hb.
  destruct (room_segment _ _ _ _ _ HI Hm Hsz Hb) as (y & Hy & Hyf & Hyl & Hyr).
  assert (Hin : y ∈ free_order bu l) by by apply elem_of_free_order.
  pose proof (frees_sorted _ _ _ (inv_tiles _ _ HI)) as Hso.
  rewrite Hfl, elem_of_app, elem_of_cons in Hin.
  destruct Hin as [Hin|[->|Hin]]; [|unfold alloc_offset; destruct bu; lia|].
  { rewrite Forall_forall in Hk1. specialize (Hk1 _ Hin). simpl in Hk1. lia. }
  unfold free_order in Hfl. unfold alloc_offset. destruct bu.
  - rewrite Hfl in Hso. apply StronglySorted_app in Hso as (_ & _ & Hso).
    apply StronglySorted_inv in Hso as [_ Hso]. rewrite Forall_forall in Hso. specialize (Hso _ Hin).
    unfold precedes in Hso. destruct (Inv_bounds s l x HI) as (?&?&?&?&?); [|lia].
    apply (elem_of_free_order true). unfold free_order. rewrite Hfl. set_solver.
  - apply (f_equal reverse) in Hfl. rewrite reverse_involutive, reverse_app, reverse_cons, <- (assoc app) in Hfl.
    rewrite Hfl in Hso. apply StronglySorted_app in Hso as (Hso & _ & _).
    assert (precedes y x) as Hp by (apply Hso; [by apply elem_of_reverse|set_solver]). unfold precedes in Hp. lia.
Qed.

(** ** The operations on the map of live blocks *)
Lemma list_new max_size offset align_ s :
  region_ok (mk_region offset max_size align_ align_) →
  FreeList_new max_size offset align_ align_ FIRST = (Ok tt, s) →
  list_rep true s ∅ ∧ reg_of s = mk_region offset max_size align_ align_ ∧ search_policy_ s = FIRST.
Proof.
  intros Hr Hnew. pose proof Hr as [H1 H2 H3 H4 H5 H6 H7]. simpl in *.
  assert (Hs : s = (init (mk_free_list max_size offset align_ align_ None FIRST ∅ 0%nat None None None None)).2).
  { unfold FreeList_new in Hnew. rewrite run_check in Hnew by (apply Z.eqb_eq, Z.mod_divide; [lia|done]).
    by injection Hnew as <-. }
  split; [|by subst]. destruct (Z.eq_dec max_size 0) as [->|Hpos].
  - right. split; [|done]. subst s. split; simpl; try done. exists 0%nat.
    constructor; simpl; try done; [apply NoDup_singleton|apply Forall_singleton; lia].
  - left. eapply FreeList_new_Inv in Hnew as [HI Hl]; [|by split_and!; try lia].
    eexists. split; [done|]. split; [done|]. intros a sz. rewrite lookup_empty. by rewrite elem_of_nil.
Qed.

Lemma same_reg s s' : same_cfg s s' → reg_of s' = reg_of s.
Proof. intros [H1 H2 H3 H4 _]. unfold reg_of. by rewrite H1, H2, H3, H4. Qed.

Definition is_first (s : FreeList) : bool := match search_policy_ s with FIRST => true | BEST => false end.

Lemma same_first s s' : same_cfg s s' → is_first s' = is_first s.
Proof. intros [_ _ _ _ H]. unfold is_first. by rewrite H. Qed.

Lemma list_region t s m : list_rep t s m → region_ok (reg_of s).
Proof. intros [(l & HI & _)|[[] _]]; [|done]. apply cfg_region, HI. Qed.

Lemma empty_alloc s size_bytes bu limit :
  empty_list s → request_ok (reg_of s) size_bytes → allocate size_bytes bu limit s = (Ok None, s).
Proof.
  intros [_ Hr [p HR] _] [H0 Hb]. destruct (block_size_spec _ size_bytes Hr H0) as (Hsz & _ & _ & Hlt).
  destruct Hr as [Hg _ _ Hm _ _ _]. simpl in *.
  unfold allocate. rewrite run_get.
  assert (alloc_size_of s size_bytes = block_size (reg_of s) size_bytes) as ->.
  { unfold alloc_size_of, align. replace (if size_bytes <? min_allocation_size s then _ else _)
      with (Z.max size_bytes (min_allocation_size s)) by (case_bool; lia).
    unfold block_size in *. simpl in *. cbv zeta. rewrite (u64_small (_ - 1)) by lia. apply u64_small. lia. }
  cbv zeta. st_step (run_search s _ (block_size (reg_of s) size_bytes) bu HR).
  assert (Hfit : (block_size (reg_of s) size_bytes <=? 0) = false) by (apply Z.leb_gt; lia).
  destruct (pick _ _ _ _) as [x|] eqn:Hp; [|done].
  apply pick_some in Hp as (->%list_elem_of_singleton & _ & Hle). simpl in Hle. lia.
Qed.

Lemma list_allocate t s m size_bytes bu limit :
  list_rep t s m → request_ok (reg_of s) size_bytes →
  let sz := block_size (reg_of s) size_bytes in
  (allocate size_bytes bu limit s = (Ok None, s) ∧ ∀ a, ¬ room_at (reg_of s) m a sz)
  ∨ ∃ a s', allocate size_bytes bu limit s = (if a <? limit then Err TT_THROW else Ok (Some a), s')
    ∧ room_at (reg_of s) m a sz ∧ (alignment s | a)
    ∧ (is_first s = true → extremal bu (reg_of s) m a sz)
    ∧ list_rep t s' (<[a:=sz]> m) ∧ reg_of s' = reg_of s ∧ is_first s' = is_first s.
Proof.
  intros Hs Hv sz. destruct (block_size_spec _ size_bytes (list_region _ _ _ Hs)) as (Hsz & _ & Hszd & _); [apply Hv|].
  fold sz in Hsz, Hszd. destruct Hs as [(l & HI & Hlow & Hm)|[Hs ->]].
  2:{ left. split; [by apply empty_alloc|]. intros a [[Ha1 Ha2] _]. destruct Hs as [Hmax _ _ _]. simpl in *. lia. }
  pose proof (run_allocate s l size_bytes bu limit HI Hv) as H. cbv zeta in H.
  change (request_size s size_bytes) with sz in H.
  destruct (pick _ sz bu l) as [x|] eqn:Hp.
  - right. destruct H as (l1 & l2 & s' & -> & Hrun & [HI' Hlow' Hcfg Hallocs (y & Hy & Hyf & Hya & Hye)]).
    set (a := saddr x + alloc_offset bu x sz) in *.
    pose proof (room_of_free s _ m y a sz HI Hm Hy Hyf Hsz Hya Hye) as Hroom.
    exists (a + offset_bytes s), s'. split_and!; [done|done| | | |by apply same_reg|by apply same_first].
    + apply pick_some in Hp as (Hx & _ & _).
      apply Z.divide_add_r; [|apply HI]. unfold a, alloc_offset.
      pose proof (Inv_addr_aligned _ _ _ HI Hx). pose proof (inv_aligned _ _ HI) as Hal.
      rewrite Forall_forall in Hal. specialize (Hal x Hx). simpl in *.
      destruct bu; [by rewrite Z.add_0_r|]. by apply Z.divide_add_r; [|apply Z.divide_sub_r].
    + unfold is_first. intros Hfirst. destruct (search_policy_ s) eqn:Hpol; [done|].
      by apply (pick_first_extremal s (l1 ++ x :: l2) m bu sz x).
    + left. eexists. split; [done|]. split; [by auto|]. rewrite (cfg_offset _ _ Hcfg).
      eapply live_of_insert; [exact Hm| |exact Hallocs].
      exact (has_room_fresh _ _ _ _ (live_of_wf _ _ _ HI Hm) Hsz (proj2 Hroom)).
  - left. split; [done|]. intros a Ha. destruct (room_segment _ _ _ _ _ HI Hm Hsz Ha) as (x & Hx & Hf & ? & ?).
    pose proof (pick_none _ _ _ _ _ Hp Hx Hf). lia.
Qed.

Lemma list_deallocate t s m a :
  list_rep t s m → in_range 64 a →
  ∃ s', deallocate a s = (Ok tt, s')
    ∧ list_rep t s' (delete a m) ∧ reg_of s' = reg_of s ∧ is_first s' = is_first s.
Proof.
  intros [(l & HI & Hlow & Hm)|[Hs ->]] Ha.
  - destruct (run_deallocate_cases s l a HI Ha) as [(l1 & x & l2 & s' & -> & Hf & -> & Hrun & HI' & Hlow' & Hcfg)|[Hno Hrun]].
    + exists s'. split_and!; [done| |by apply same_reg|by apply same_first].
      left. eexists. split; [done|]. split; [by auto|]. rewrite (cfg_offset _ _ Hcfg).
      eapply live_of_delete; [apply HI|by eapply Inv_NoDup|done|done].
    + exists s. split_and!; [done| |done|done]. left. exists l. split_and!; [done|done|].
      rewrite delete_id; [done|]. destruct (m !! a) as [sz|] eqn:Hma; [|done].
      apply (live_of_seg _ _ _ _ _ Hm) in Hma as (x & Hx & Hf & -> & _). by destruct (Hno x Hx Hf).
  - exists s. split_and!; [|right; by rewrite delete_id|done|done].
    destruct Hs as [Hmax _ [p HR] _]. unfold deallocate. rewrite run_get. cbv zeta.
    st_step (run_find_block s _ (u64 (a - offset_bytes s)) HR). cbn [find_addr saddr].
    destruct (0 =? _); simpl; [|done]. by st_step (run_is_allocated s [] _ [] HR).
Qed.

Lemma list_clear t s m :
  list_rep t s m →
  ∃ s', clear s = (Ok tt, s') ∧ list_rep false s' ∅ ∧ reg_of s' = reg_of s ∧ is_first s' = is_first s.
Proof.
  intros [(l & HI & _)|[[Hmax Hr [p HR] Hlow] _]].
  - destruct (run_clear s l HI) as (s' & Hrun & HI' & Hcfg). exists s'.
    split_and!; [done| |by apply same_reg|by apply same_first]. left. eexists. split; [done|]. split; [done|].
    intros a sz. rewrite lookup_empty. by rewrite elem_of_nil.
  - eexists. split; [done|]. split_and!; [|done|done]. right. split; [|done]. split; simpl; try done.
    exists (fresh_loc s). constructor; simpl; try done.
    + rewrite lookup_insert_eq, Hmax. by split.
    + apply NoDup_singleton.
    + apply Forall_singleton. lia.
Qed.

Lemma allocs_sorted a l e : tiles a l e → StronglySorted Z.lt (fst <$> allocs l).
Proof.
  intros Ht. unfold allocs. revert a Ht; induction l as [|x l IH]; intros a; [constructor|].
  intros (Hx & Hs & Ht). cbn [useds]. destruct (sfree x); [by eapply IH|]. cbn. constructor; [by eapply IH|].
  apply Forall_forall. intros b (p & -> & (y & -> & [Hy _]%elem_of_useds)%list_elem_of_fmap)%list_elem_of_fmap.
  pose proof (tiles_elem _ _ _ _ Ht Hy). simpl. lia.
Qed.

Lemma list_lowest s m : list_rep true s m → is_lowest m (lowest_occupied_address s).
Proof.
  intros [(l & HI & Hlow & Hm)|[[Hmax _ _ Hlow] ->]]; unfold lowest_occupied_address; [|by rewrite Hlow].
  rewrite (Hlow eq_refl). pose proof (allocs_sorted _ _ _ (inv_tiles _ _ HI)) as Hso.
  destruct (allocs l) as [|[a n] k] eqn:Ha; simpl.
  - apply map_eq. intros a. rewrite lookup_empty. destruct (m !! a) as [sz|] eqn:Hma; [|done].
    apply (Hm a sz) in Hma. rewrite Ha in Hma. by apply elem_of_nil in Hma.
  - assert (Hin : (a, n) ∈ allocs l) by (rewrite Ha; by left).
    pose proof Hin as (x & Hx & _ & Hxa & _)%elem_of_allocs. destruct (Inv_bounds _ _ _ HI Hx) as (?&?&?&?&?).
    rewrite u64_small by lia. split.
    + exists n. apply (Hm _ n). by replace (a + offset_bytes s - offset_bytes s) with a by lia.
    + intros b [sb Hb%(Hm b sb)]. rewrite Ha, elem_of_cons in Hb. destruct Hb as [[= <- _]|Hb]; [lia|].
      apply StronglySorted_inv in Hso as [_ Hso]. rewrite Forall_forall in Hso.
      specialize (Hso (b - offset_bytes s) ltac:(apply list_elem_of_fmap; by exists (b - offset_bytes s, sb))). simpl in Hso. lia.
Qed.

Lemma list_wf t s m : list_rep t s m → wf_live (reg_of s) m.
Proof. intros [(l & HI & _ & Hm)|[_ ->]]; [by eapply live_of_wf|apply wf_live_empty]. Qed.

Lemma list_weaken s m : list_rep true s m → list_rep false s m.
Proof. intros [(l & HI & Hl & Hm)|[Hs ->]]; [left; by exists l|by right]. Qed.

(** The free list keeps the contract. *)
#[export] Instance FreeList_AlgorithmLaws : AlgorithmLaws FreeList := {|
  rep := list_rep;
  reg := reg_of;
  first_fit := is_first;
  rep_region := list_region;
  rep_wf := list_wf;
  rep_weaken := list_weaken;
  max_size_law s := eq_refl;
  allocate_law := list_allocate;
  deallocate_law := list_deallocate;
  clear_law := list_clear;
  lowest_law := list_lowest
|}.
