(* ===== verification/BankManager.v ===== *)
(** * Bank managers (impl/allocator/allocator.cpp, class BankManager)

    A buffer is allocated at the same address in every bank it is spread over, so
    one allocation algorithm serves all banks of a memory; banks that share a core
    are told apart by an offset.  The methods are those of any [Algorithm]; the
    constructors create a first-fit free list.  The order in which a
    [std::unordered_set] is visited is an argument of the operations that
    traverse one. *)
From S2P Require Import Prelude FreeList Arith CoreCoord AllocatorAlgorithm FreeListAlgorithm.

(** impl/buffers/buffer_constants.hpp *)
Inductive BufferType := DRAM | L1 | SYSTEM_MEMORY | L1_SMALL | TRACE.

#[export] Instance BufferType_eq_dec : EqDecision BufferType.
Proof. solve_decision. Defined.

(** [std::unordered_map::insert]: a key that is present keeps its value. *)
Definition map_insert {K} `{Countable K} {V} (k : K) (v : V) (m : gmap K V) : gmap K V :=
  match m !! k with Some _ => m | None => <[k := v]> m end.

(** detail/util.hpp *)
Definition SizeBytesPerBank (size_bytes page_size_bytes num_banks alignment_bytes : Z) : outcome Z :=
  _ ← check ((0 <? page_size_bytes) && (size_bytes mod page_size_bytes =? 0)) TT_ASSERT;
  let num_pages := size_bytes / page_size_bytes in
  num_equally_distributed_pages ←
    (if num_pages =? 1 then Ok 1
     else q ← udiv (u64 (num_pages - 1)) num_banks; Ok (u64 (1 + q)));
  aligned ← MathUtil.round_up (u32 page_size_bytes) alignment_bytes;
  Ok (u64 (num_equally_distributed_pages * aligned)).

Definition is_pow2_num_banks (num_banks : Z) : bool :=
  negb (num_banks =? 0) && (Z.land num_banks (u32 (num_banks - 1)) =? 0).

Definition acceptable_num_non_pow2_mem_banks : list Z := [12; 56; 70; 80; 94; 124; 130; 140].

Definition validate_num_banks (num_banks : Z) (buffer_type : BufferType) : outcome unit :=
  check (is_pow2_num_banks num_banks
         || bool_decide (num_banks ∈ acceptable_num_non_pow2_mem_banks)
         || bool_decide (buffer_type = L1_SMALL)) TT_THROW.

Record BankManager (A : Type) := mk_bank_manager {
  buffer_type_ : BufferType;
  allocated_buffers_ : gset Z;
  bank_id_to_bank_offset_ : gmap Z Z;
  allocator_ : option A;
  interleaved_address_limit_ : Z;
  alignment_bytes_ : Z
}.
Arguments mk_bank_manager {A}.
Arguments buffer_type_ {A}.
Arguments allocated_buffers_ {A}.
Arguments bank_id_to_bank_offset_ {A}.
Arguments allocator_ {A}.
Arguments interleaved_address_limit_ {A}.
Arguments alignment_bytes_ {A}.

(** [BankManager() {}]: the fields without a constructor hold any value. *)
Record garbage := mk_garbage { any_type : BufferType; any_limit : Z; any_alignment : Z }.
Definition BankManager_default {A} (g : garbage) : BankManager A :=
  mk_bank_manager (any_type g) ∅ ∅ None (any_limit g) (any_alignment g).

Section bank_manager.
Context {A : Type} `{Alg : Algorithm.Algorithm A}.

Definition set_allocator (a : option A) (b : BankManager A) : BankManager A :=
  mk_bank_manager (buffer_type_ b) (allocated_buffers_ b) (bank_id_to_bank_offset_ b) a
    (interleaved_address_limit_ b) (alignment_bytes_ b).
Definition set_allocated (l : gset Z) (b : BankManager A) : BankManager A :=
  mk_bank_manager (buffer_type_ b) l (bank_id_to_bank_offset_ b) (allocator_ b)
    (interleaved_address_limit_ b) (alignment_bytes_ b).
Definition set_offsets (m : gmap Z Z) (b : BankManager A) : BankManager A :=
  mk_bank_manager (buffer_type_ b) (allocated_buffers_ b) m (allocator_ b)
    (interleaved_address_limit_ b) (alignment_bytes_ b).

Definition has_allocator (b : BankManager A) : bool := bool_decide (is_Some (allocator_ b)).

(** A call through the pointer [allocator_]. *)
Definition with_allocator {B} (f : ST A B) : ST (BankManager A) B := λ b,
  match allocator_ b with
  | None => (Err UB, b)
  | Some a => let '(r, a') := f a in (r, set_allocator (Some a') b)
  end.

Definition num_banks (b : BankManager A) : Z := u32 (Z.of_nat (base.size (bank_id_to_bank_offset_ b))).

Definition bank_size (b : BankManager A) : outcome Z :=
  match allocator_ b with
  | None => Err TT_ASSERT
  | Some a =>
    let max_size_bytes_u64 := Algorithm.max_size_bytes a in
    if 2 ^ 64 - 1 <? max_size_bytes_u64 then Err TT_THROW else Ok max_size_bytes_u64
  end.

Definition validate_bank_id (b : BankManager A) (bank_id : Z) : outcome unit :=
  check (bool_decide (is_Some (bank_id_to_bank_offset_ b !! bank_id))) TT_FATAL.

Definition bank_offset (b : BankManager A) (bank_id : Z) : outcome Z :=
  _ ← validate_bank_id b bank_id;
  of_option OUT_OF_RANGE (bank_id_to_bank_offset_ b !! bank_id).

(** The number of banks a request is spread over. *)
Definition request_banks (b : BankManager A) (compute_grid_size : CoreCoord) (num_shards : option Z)
  : outcome Z :=
  match num_shards with
  | Some n =>
    _ ← check (n <=? u64 (x compute_grid_size * y compute_grid_size)) TT_FATAL; Ok n
  | None => Ok (num_banks b)
  end.

(** The address below which an interleaved L1 buffer may not lie. *)
Definition request_limit (b : BankManager A) (num_shards : option Z) : outcome Z :=
  if bool_decide (num_shards = None) && bool_decide (buffer_type_ b = L1) then
    _ ← check (0 <? interleaved_address_limit_ b) TT_FATAL; Ok (interleaved_address_limit_ b)
  else Ok 0.

Definition allocate_buffer (size page_size : Z) (bottom_up : bool) (compute_grid_size : CoreCoord)
    (num_shards : option Z) : ST (BankManager A) Z :=
  b ← get_st;
  banks ← lift_st (request_banks b compute_grid_size num_shards);
  size_per_bank ← lift_st (SizeBytesPerBank size page_size banks (alignment_bytes_ b));
  address_limit ← lift_st (request_limit b num_shards);
  _ ← check_st (has_allocator b) TT_ASSERT;
  address ← with_allocator (Algorithm.allocate size_per_bank bottom_up address_limit);
  match address with
  | None => throw_st TT_THROW
  | Some a => _ ← modify_st (λ b, set_allocated ({[a]} ∪ allocated_buffers_ b) b); mret a
  end.

Definition deallocate_buffer (address : Z) : ST (BankManager A) unit :=
  with_allocator (Algorithm.deallocate address).

Fixpoint deallocate_each (addrs : list Z) : ST (BankManager A) unit :=
  match addrs with
  | [] => mret tt
  | a :: addrs => _ ← with_allocator (Algorithm.deallocate a); deallocate_each addrs
  end.

Definition deallocate_all (visit : gset Z → list Z) : ST (BankManager A) unit :=
  b ← get_st; deallocate_each (visit (allocated_buffers_ b)).

Definition clear : ST (BankManager A) unit :=
  b ← get_st;
  if has_allocator b then with_allocator Algorithm.clear else mret tt.

(** [~BankManager()]: what is left of the object. *)
Definition destroy (visit : gset Z → list Z) : ST (BankManager A) unit :=
  _ ← deallocate_all visit;
  modify_st (λ b, set_allocator None (set_offsets ∅ (set_allocated ∅ b))).

(** [this = std::move(that)]: the new values of [this] and [that]. *)
Definition move_assign (this that : BankManager A) : BankManager A * BankManager A :=
  (mk_bank_manager (buffer_type_ that) (allocated_buffers_ that) (bank_id_to_bank_offset_ that)
     (allocator_ that) (interleaved_address_limit_ that) (alignment_bytes_ that),
   set_allocator None that).

Definition lowest_occupied_address (b : BankManager A) (bank_id : Z) : outcome (option Z) :=
  match allocator_ b with
  | None => Ok None
  | Some a =>
    match Algorithm.lowest_occupied_address a with
    | None => Ok None
    | Some lowest => offset ← bank_offset b bank_id; Ok (Some (u64 (lowest + offset)))
    end
  end.

Definition get_statistics : ST (BankManager A) Statistics :=
  b ← get_st;
  if has_allocator b then with_allocator Algorithm.get_statistics else mret (mk_stats 0 0 0 0 []).

Definition dump_blocks : ST (BankManager A) (list dump_row) :=
  b ← get_st;
  if has_allocator b then with_allocator Algorithm.dump_blocks else mret [].

End bank_manager.

(** ** Constructors *)
Definition init_allocator (size_bytes alignment_bytes offset : Z) (b : BankManager FreeList)
  : outcome (BankManager FreeList) :=
  let '(r, a) := FreeList_new size_bytes offset alignment_bytes alignment_bytes FIRST in
  _ ← r; Ok (set_allocator (Some a) b).

(** [for (bank_offset : bank_offsets) { map.insert({bank_id, bank_offset}); bank_id++; }] *)
Fixpoint index_offsets (bank_id : Z) (bank_offsets : list Z) (m : gmap Z Z) : gmap Z Z :=
  match bank_offsets with
  | [] => m
  | o :: bank_offsets => index_offsets (u32 (bank_id + 1)) bank_offsets (map_insert bank_id o m)
  end.

Definition BankManager_map (buffer_type : BufferType) (bank_id_to_bank_offset : gmap Z Z)
    (size_bytes interleaved_address_limit alignment_bytes alloc_offset : Z)
  : outcome (BankManager FreeList) :=
  let b := mk_bank_manager buffer_type ∅ bank_id_to_bank_offset None interleaved_address_limit
             alignment_bytes in
  _ ← validate_num_banks (num_banks b) buffer_type;
  init_allocator size_bytes alignment_bytes alloc_offset b.

Definition BankManager_vector (buffer_type : BufferType) (bank_offsets : list Z)
    (size_bytes alignment_bytes alloc_offset : Z) : outcome (BankManager FreeList) :=
  let b := mk_bank_manager buffer_type ∅ (index_offsets 0 bank_offsets ∅) None 0 alignment_bytes in
  _ ← validate_num_banks (num_banks b) buffer_type;
  init_allocator size_bytes alignment_bytes alloc_offset b.
