(* ===== verification/Allocator.v ===== *)
(** * The device memory allocator (impl/allocator/allocator.cpp, l1_banking_allocator.cpp)

    Four bank managers, one per kind of memory, and the maps between banks, DRAM
    channels and cores.  A constructor that throws leaves no object, so the
    functions that build an allocator return an [outcome]; the operations on one
    are in the monad [ST].  [std::shuffle] with a default engine is a parameter:
    only that it permutes its argument is used. *)
From S2P Require Import Prelude FreeList Arith CoreCoord AllocatorAlgorithm FreeListAlgorithm BankManager.

#[export] Instance CoreCoord_countable : Countable CoreCoord.
Proof.
  apply (inj_countable' (λ c, (x c, y c)) (λ p, mk_coord p.1 p.2)). by intros [].
Defined.

#[export] Instance BufferType_countable : Countable BufferType.
Proof.
  apply (inj_countable'
    (λ t, match t with DRAM => 0 | L1 => 1 | SYSTEM_MEMORY => 2 | L1_SMALL => 3 | TRACE => 4 end)
    (λ n, if n =? 0 then DRAM else if n =? 1 then L1 else if n =? 2 then SYSTEM_MEMORY
          else if n =? 3 then L1_SMALL else TRACE)).
  by intros [].
Defined.

(** ** impl/allocator/allocator_types.hpp *)
Inductive AllocCoreType := Dispatch | StorageOnly | ComputeOnly | ComputeAndStore | Invalid.

#[export] Instance AllocCoreType_eq_dec : EqDecision AllocCoreType.
Proof. solve_decision. Defined.

Record AllocatorConfig := mk_config {
  num_dram_channels : Z;
  dram_bank_size : Z;
  dram_bank_offsets : list Z;
  dram_unreserved_base : Z;
  l1_unreserved_base : Z;
  worker_grid_size : CoreCoord;
  worker_l1_size : Z;
  storage_core_bank_size : option Z;
  l1_small_size : Z;
  trace_region_size : Z;
  core_type_from_noc_coord_table : gmap CoreCoord AllocCoreType;
  worker_log_to_physical_routing_x : gmap Z Z;
  worker_log_to_physical_routing_y : gmap Z Z;
  l1_bank_remap : list Z;
  compute_grid_size : CoreCoord;
  alignment : Z
}.

(** [AllocatorConfig::reset] *)
Definition config_reset (c : AllocatorConfig) : AllocatorConfig :=
  mk_config (num_dram_channels c) (dram_bank_size c) [] (dram_unreserved_base c)
    (l1_unreserved_base c) (worker_grid_size c) (worker_l1_size c) (storage_core_bank_size c)
    (l1_small_size c) (trace_region_size c) ∅ ∅ ∅ [] (compute_grid_size c) (alignment c).

(** The allocation callbacks of an [AllocDescriptor]. *)
Definition alloc_func : Type :=
  AllocatorConfig → Z → Z → bool → option Z → ST (BankManager FreeList) Z.
Record AllocDescriptor := mk_descriptor { dram_alloc : alloc_func; l1_alloc : alloc_func }.

Definition base_alloc : alloc_func := λ config size page_size bottom_up num_shards,
  BankManager.allocate_buffer size page_size bottom_up (compute_grid_size config) num_shards.

Record Allocator := mk_allocator {
  allocations_unsafe : bool;
  dram_manager : BankManager FreeList;
  l1_manager : BankManager FreeList;
  l1_small_manager : BankManager FreeList;
  trace_buffer_manager : BankManager FreeList;
  bank_id_to_dram_channel : gmap Z Z;
  dram_channel_to_bank_ids : gmap Z (list Z);
  bank_id_to_logical_core : gmap Z CoreCoord;
  logical_core_to_bank_ids : gmap BufferType (gmap CoreCoord (list Z));
  config : AllocatorConfig;
  descriptor : AllocDescriptor
}.

(** Field assignments. *)
Definition set_unsafe (u : bool) (a : Allocator) : Allocator :=
  mk_allocator u (dram_manager a) (l1_manager a) (l1_small_manager a) (trace_buffer_manager a)
    (bank_id_to_dram_channel a) (dram_channel_to_bank_ids a) (bank_id_to_logical_core a)
    (logical_core_to_bank_ids a) (config a) (descriptor a).
Definition set_dram_manager (b : BankManager FreeList) (a : Allocator) : Allocator :=
  mk_allocator (allocations_unsafe a) b (l1_manager a) (l1_small_manager a) (trace_buffer_manager a)
    (bank_id_to_dram_channel a) (dram_channel_to_bank_ids a) (bank_id_to_logical_core a)
    (logical_core_to_bank_ids a) (config a) (descriptor a).
Definition set_l1_manager (b : BankManager FreeList) (a : Allocator) : Allocator :=
  mk_allocator (allocations_unsafe a) (dram_manager a) b (l1_small_manager a) (trace_buffer_manager a)
    (bank_id_to_dram_channel a) (dram_channel_to_bank_ids a) (bank_id_to_logical_core a)
    (logical_core_to_bank_ids a) (config a) (descriptor a).
Definition set_l1_small_manager (b : BankManager FreeList) (a : Allocator) : Allocator :=
  mk_allocator (allocations_unsafe a) (dram_manager a) (l1_manager a) b (trace_buffer_manager a)
    (bank_id_to_dram_channel a) (dram_channel_to_bank_ids a) (bank_id_to_logical_core a)
    (logical_core_to_bank_ids a) (config a) (descriptor a).
Definition set_trace_manager (b : BankManager FreeList) (a : Allocator) : Allocator :=
  mk_allocator (allocations_unsafe a) (dram_manager a) (l1_manager a) (l1_small_manager a) b
    (bank_id_to_dram_channel a) (dram_channel_to_bank_ids a) (bank_id_to_logical_core a)
    (logical_core_to_bank_ids a) (config a) (descriptor a).
Definition set_channels (b : gmap Z Z) (c : gmap Z (list Z)) (a : Allocator) : Allocator :=
  mk_allocator (allocations_unsafe a) (dram_manager a) (l1_manager a) (l1_small_manager a)
    (trace_buffer_manager a) b c (bank_id_to_logical_core a)
    (logical_core_to_bank_ids a) (config a) (descriptor a).
Definition set_cores (b : gmap Z CoreCoord) (c : gmap BufferType (gmap CoreCoord (list Z)))
    (a : Allocator) : Allocator :=
  mk_allocator (allocations_unsafe a) (dram_manager a) (l1_manager a) (l1_small_manager a)
    (trace_buffer_manager a) (bank_id_to_dram_channel a) (dram_channel_to_bank_ids a) b c
    (config a) (descriptor a).
Definition set_config (c : AllocatorConfig) (a : Allocator) : Allocator :=
  mk_allocator (allocations_unsafe a) (dram_manager a) (l1_manager a) (l1_small_manager a)
    (trace_buffer_manager a) (bank_id_to_dram_channel a) (dram_channel_to_bank_ids a)
    (bank_id_to_logical_core a) (logical_core_to_bank_ids a) c (descriptor a).

(** [logical_core_to_bank_ids[buffer_type].insert({core, ids})] *)
Definition insert_bank_ids (t : BufferType) (core : CoreCoord) (ids : list Z)
    (m : gmap BufferType (gmap CoreCoord (list Z))) : gmap BufferType (gmap CoreCoord (list Z)) :=
  <[t := map_insert core ids (default ∅ (m !! t))]> m.

(** ** One bank per DRAM channel *)
Fixpoint dram_offsets (n : nat) (channel_id : Z) (offsets : list Z) : outcome (list Z) :=
  match n with
  | O => Ok []
  | S n =>
    o ← vec_at offsets channel_id;
    rest ← dram_offsets n (channel_id + 1) offsets;
    Ok (to_i32 o :: rest)
  end.

Fixpoint insert_channels (t : BufferType) (n : nat) (bank_id : Z) (a : Allocator) : Allocator :=
  match n with
  | O => a
  | S n =>
    insert_channels t n (bank_id + 1)
      (set_cores (bank_id_to_logical_core a)
         (insert_bank_ids t (mk_coord bank_id 0) [bank_id] (logical_core_to_bank_ids a))
         (set_channels (map_insert bank_id bank_id (bank_id_to_dram_channel a))
            (map_insert bank_id [bank_id] (dram_channel_to_bank_ids a)) a))
  end.

Definition init_one_bank_per_channel (a : Allocator) (alloc_config : AllocatorConfig)
  : outcome Allocator :=
  let n := Z.to_nat (num_dram_channels alloc_config) in
  let size := u64 (u64 (dram_bank_size alloc_config - dram_unreserved_base alloc_config)
                   - trace_region_size alloc_config) in
  offsets ← dram_offsets n 0 (dram_bank_offsets alloc_config);
  dram ← BankManager_vector DRAM offsets size (alignment alloc_config)
           (dram_unreserved_base alloc_config);
  let a := insert_channels DRAM n 0 (set_dram_manager dram a) in
  trace ← BankManager_vector TRACE offsets (trace_region_size alloc_config) (alignment alloc_config)
            (u64 (size + dram_unreserved_base alloc_config));
  Ok (insert_channels TRACE n 0 (set_trace_manager trace a)).

(** ** One bank per L1 *)
(** The cores of a grid, in the order of [for y { for x { ... } }]. *)
Definition grid_cores (grid : CoreCoord) : list CoreCoord :=
  row ← seqZ 0 (y grid); (λ col, mk_coord col row) <$> seqZ 0 (x grid).

Fixpoint insert_cores (t : BufferType) (cores : list CoreCoord) (bank_id : Z) (a : Allocator)
  : Allocator :=
  match cores with
  | [] => a
  | core :: cores =>
    insert_cores t cores (u32 (bank_id + 1))
      (set_cores (map_insert bank_id core (bank_id_to_logical_core a))
         (insert_bank_ids t core [bank_id] (logical_core_to_bank_ids a)) a)
  end.

Definition init_one_bank_per_l1 (a : Allocator) (alloc_config : AllocatorConfig) : outcome Allocator :=
  _ ← check (l1_small_size alloc_config =? 0) TT_ASSERT;
  let num_l1_banks := u32 (y (worker_grid_size alloc_config) * x (worker_grid_size alloc_config)) in
  let l1_bank_size := u64 (worker_l1_size alloc_config - l1_unreserved_base alloc_config) in
  l1 ← BankManager_vector L1 (replicate (Z.to_nat num_l1_banks) 0) l1_bank_size
         (alignment alloc_config) (l1_unreserved_base alloc_config);
  Ok (insert_cores L1 (grid_cores (worker_grid_size alloc_config)) 0 (set_l1_manager l1 a)).

(** ** Banks of compute and storage cores *)
Record num_banks_t := mk_num_banks {
  total : Z; num_l1_banks : Z; num_l1_small_banks : Z; per_storage_core : Z
}.

Definition num_in_category (core_allocation_types : gmap CoreCoord AllocCoreType) (t : AllocCoreType) : Z :=
  Z.of_nat (length (filter (λ p, p.2 = t) (map_to_list core_allocation_types))).

Definition compute_total_and_storage_only_num_l1_banks (c : AllocatorConfig) : outcome num_banks_t :=
  let num_compute_and_storage_cores :=
    num_in_category (core_type_from_noc_coord_table c) ComputeAndStore in
  let num_storage_only_cores := num_in_category (core_type_from_noc_coord_table c) StorageOnly in
  num_banks_per_storage_core ←
    (if 0 <? num_storage_only_cores then
       bank_size ← of_option TT_ASSERT (storage_core_bank_size c);
       r ← umod (worker_l1_size c) bank_size;
       _ ← check (r =? 0) TT_ASSERT;
       q ← udiv (worker_l1_size c) bank_size;
       Ok (u32 q)
     else Ok 0);
  let num_l1_small_banks := if 0 <? l1_small_size c then num_compute_and_storage_cores else 0 in
  let num_l1_banks :=
    u32 (num_compute_and_storage_cores + u32 (num_banks_per_storage_core * num_storage_only_cores)) in
  Ok (mk_num_banks (u32 (num_l1_banks + num_l1_small_banks)) num_l1_banks num_l1_small_banks
        num_banks_per_storage_core).

Definition logical_to_noc_coord (c : AllocatorConfig) (logical_core : CoreCoord) : outcome CoreCoord :=
  px ← of_option TT_ASSERT (worker_log_to_physical_routing_x c !! to_i32 (x logical_core));
  py ← of_option TT_ASSERT (worker_log_to_physical_routing_y c !! to_i32 (y logical_core));
  let noc_core := mk_coord (u64 px) (u64 py) in
  _ ← check (bool_decide (is_Some (core_type_from_noc_coord_table c !! noc_core))) TT_ASSERT;
  Ok noc_core.

Definition core_type (c : AllocatorConfig) (logical_core : CoreCoord) : outcome AllocCoreType :=
  noc_core ← logical_to_noc_coord c logical_core;
  of_option OUT_OF_RANGE (core_type_from_noc_coord_table c !! noc_core).

(** What the loops over the cores build: the banks of every core, the core and
    the offset of every bank, and the next bank. *)
Record bank_maps := mk_bank_maps {
  core_banks : gmap BufferType (gmap CoreCoord (list Z));
  bank_core : gmap Z CoreCoord;
  bank_offsets : gmap Z Z;
  next_bank : Z
}.

Definition storage_bank_offset (c : AllocatorConfig) (per_storage_core storage_bank_index : Z) : outcome Z :=
  bank_size ← of_option BAD_OPTIONAL (storage_core_bank_size c);
  if negb (bank_size =? worker_l1_size c) then
    let storage_core_offset := u32 (storage_bank_index * bank_size) in
    Ok (storage_core_offset - bank_size)
  else
    _ ← check (per_storage_core =? 1) TT_THROW; Ok 0.

(** One bank of a storage core: the loop's state and the ids so far. *)
Definition storage_bank_step (c : AllocatorConfig) (shuffled_bank_id : list Z) (per_storage_core : Z)
    (logical_core : CoreCoord) (storage_bank_index : Z) (s : bank_maps * list Z)
  : outcome (bank_maps * list Z) :=
  let '(m, bank_ids) := s in
  remapped_bank_id ← at_ shuffled_bank_id (Z.to_nat (next_bank m));
  bank_offset_bytes ← storage_bank_offset c per_storage_core storage_bank_index;
  Ok (mk_bank_maps (core_banks m) (map_insert remapped_bank_id logical_core (bank_core m))
        (map_insert remapped_bank_id bank_offset_bytes (bank_offsets m)) (u32 (next_bank m + 1)),
      bank_ids ++ [remapped_bank_id]).

Definition l1_core_step (c : AllocatorConfig) (shuffled_bank_id : list Z) (per_storage_core : Z)
    (logical_core : CoreCoord) (m : bank_maps) : outcome bank_maps :=
  t ← core_type c logical_core;
  match t with
  | ComputeAndStore =>
    remapped_bank_id ← at_ shuffled_bank_id (Z.to_nat (next_bank m));
    Ok (mk_bank_maps (insert_bank_ids L1 logical_core [remapped_bank_id] (core_banks m))
          (map_insert remapped_bank_id logical_core (bank_core m))
          (map_insert remapped_bank_id 0 (bank_offsets m)) (u32 (next_bank m + 1)))
  | StorageOnly =>
    '(m, bank_ids) ← for_each (storage_bank_step c shuffled_bank_id per_storage_core logical_core)
                       (seqZ 0 per_storage_core) (m, []);
    Ok (mk_bank_maps (insert_bank_ids L1 logical_core bank_ids (core_banks m)) (bank_core m)
          (bank_offsets m) (next_bank m))
  | _ => Ok m
  end.

Definition l1_small_core_step (c : AllocatorConfig) (logical_core : CoreCoord) (m : bank_maps)
  : outcome bank_maps :=
  t ← core_type c logical_core;
  if bool_decide (t = ComputeAndStore) then
    Ok (mk_bank_maps (insert_bank_ids L1_SMALL logical_core [next_bank m] (core_banks m))
          (map_insert (next_bank m) logical_core (bank_core m))
          (map_insert (next_bank m) 0 (bank_offsets m)) (u32 (next_bank m + 1)))
  else Ok m.

(** hw/inc/*/dev_mem_map.h *)
Definition MEM_MAILBOX_BASE : Z := 16.

Section shuffle.
(** [std::shuffle] with [std::default_random_engine(0)]. *)
Context (shuffle : list Z → list Z).

Definition assign_banks (c : AllocatorConfig) (num_l1_banks : Z) : outcome (list Z) :=
  if bool_decide (l1_bank_remap c = []) then Ok (shuffle (seqZ 0 num_l1_banks))
  else _ ← check (num_l1_banks =? Z.of_nat (length (l1_bank_remap c))) TT_ASSERT; Ok (l1_bank_remap c).

Definition init_compute_and_storage_l1_bank_manager (a : Allocator) (c : AllocatorConfig)
  : outcome Allocator :=
  banks ← compute_total_and_storage_only_num_l1_banks c;
  shuffled_bank_id ← assign_banks c (num_l1_banks banks);
  m ← for_each (l1_core_step c shuffled_bank_id (per_storage_core banks)) (grid_cores (worker_grid_size c))
        (mk_bank_maps (logical_core_to_bank_ids a) (bank_id_to_logical_core a) ∅ 0);
  _ ← check (next_bank m =? Z.of_nat (length shuffled_bank_id)) TT_ASSERT;
  small ←
    (let m0 := mk_bank_maps (core_banks m) (bank_core m) ∅ (next_bank m) in
     if 0 <? l1_small_size c then
       _ ← check (0 <? num_l1_small_banks banks) TT_ASSERT;
       for_each (l1_small_core_step c) (grid_cores (worker_grid_size c)) m0
     else Ok m0);
  let num_offsets := Z.of_nat (base.size (bank_offsets m)) in
  let num_small_offsets := Z.of_nat (base.size (bank_offsets small)) in
  _ ← check (num_offsets =? num_l1_banks banks) TT_ASSERT;
  _ ← check (num_small_offsets =? num_l1_small_banks banks) TT_ASSERT;
  _ ← check (num_offsets + num_small_offsets =? total banks) TT_ASSERT;
  units ← udiv (u32 (MEM_MAILBOX_BASE + alignment c - 1)) (alignment c);
  let storage_core_unreserved_base := u32 (units * alignment c) in
  let l1_bank_size := match storage_core_bank_size c with
                      | Some b => b
                      | None => u64 (worker_l1_size c - l1_unreserved_base c)
                      end in
  let interleaved_address_limit :=
    u64 (u64 (worker_l1_size c - l1_bank_size) + storage_core_unreserved_base) in
  let allocatable_l1_size := u64 (u64 (worker_l1_size c - l1_unreserved_base c) - l1_small_size c) in
  l1 ← BankManager_map L1 (bank_offsets m) allocatable_l1_size interleaved_address_limit (alignment c)
         (l1_unreserved_base c);
  let small_interleaved_address_limit := u64 (worker_l1_size c - l1_small_size c) in
  let small_alloc_offset := u64 (l1_unreserved_base c + allocatable_l1_size) in
  _ ← check (u64 (l1_unreserved_base c + l1_small_size c) <=? worker_l1_size c) TT_ASSERT;
  l1_small ← BankManager_map L1_SMALL (bank_offsets small) (l1_small_size c)
               small_interleaved_address_limit (alignment c) small_alloc_offset;
  Ok (set_l1_small_manager l1_small (set_l1_manager l1 (set_cores (bank_core small) (core_banks small) a))).

(** ** Construction *)
(** [g t] is what the uninitialised fields of the manager of [t] hold. *)
Definition Allocator_new (g : BufferType → garbage) (alloc_config : AllocatorConfig)
    (d : AllocDescriptor) (dram_init l1_init : Allocator → AllocatorConfig → outcome Allocator)
  : outcome Allocator :=
  let a := mk_allocator false (BankManager_default (g DRAM)) (BankManager_default (g L1))
             (BankManager_default (g L1_SMALL)) (BankManager_default (g TRACE)) ∅ ∅ ∅ ∅ alloc_config d in
  a ← dram_init a alloc_config;
  a ← l1_init a alloc_config;
  _ ← check (bool_decide (bank_id_to_dram_channel a ≠ ∅) && bool_decide (dram_channel_to_bank_ids a ≠ ∅))
        TT_ASSERT;
  _ ← check (bool_decide (bank_id_to_logical_core a ≠ ∅)) TT_ASSERT;
  Ok a.

Definition BasicAllocator (g : BufferType → garbage) (c : AllocatorConfig) : outcome Allocator :=
  Allocator_new g c (mk_descriptor base_alloc base_alloc) init_one_bank_per_channel init_one_bank_per_l1.

Definition L1BankingAllocator (g : BufferType → garbage) (c : AllocatorConfig) : outcome Allocator :=
  Allocator_new g c (mk_descriptor base_alloc base_alloc) init_one_bank_per_channel
    init_compute_and_storage_l1_bank_manager.

End shuffle.
