(* ===== verification/AllocatorOps.v ===== *)
(** * Operations of the device allocator (impl/allocator/allocator.cpp)

    Every operation selects the bank manager of a kind of memory and calls it. *)
From S2P Require Import Prelude FreeList CoreCoord AllocatorAlgorithm FreeListAlgorithm BankManager Allocator.

(** llrt/hal.hpp *)
Inductive HalMemType := Hal_L1 | Hal_DRAM | Hal_HOST | Hal_COUNT.

Definition get_unreserved_base_address (a : Allocator) (mem_type : HalMemType) : outcome Z :=
  match mem_type with
  | Hal_DRAM => Ok (dram_unreserved_base (config a))
  | Hal_L1 => Ok (l1_unreserved_base (config a))
  | _ => Err TT_THROW
  end.

(** The manager a [switch] over the buffer type selects. *)
Definition manager_of (a : Allocator) (t : BufferType) : outcome (BankManager FreeList) :=
  match t with
  | DRAM => Ok (dram_manager a)
  | L1 => Ok (l1_manager a)
  | L1_SMALL => Ok (l1_small_manager a)
  | TRACE => Ok (trace_buffer_manager a)
  | SYSTEM_MEMORY => Err TT_THROW
  end.

Definition set_manager (t : BufferType) (b : BankManager FreeList) (a : Allocator) : Allocator :=
  match t with
  | DRAM => set_dram_manager b a
  | L1 => set_l1_manager b a
  | L1_SMALL => set_l1_small_manager b a
  | TRACE => set_trace_manager b a
  | SYSTEM_MEMORY => a
  end.

(** [switch (buffer_type)] around a call to the selected manager. *)
Definition on_manager {B} (t : BufferType) (f : ST (BankManager FreeList) B) : ST Allocator B := λ a,
  match manager_of a t with
  | Err e => (Err e, a)
  | Ok b => let '(r, b') := f b in (r, set_manager t b' a)
  end.

Definition num_banks (a : Allocator) (t : BufferType) : outcome Z :=
  b ← manager_of a t; Ok (BankManager.num_banks b).

Definition bank_size (a : Allocator) (t : BufferType) : outcome Z :=
  b ← manager_of a t; BankManager.bank_size b.

Definition dram_channel_from_bank_id (a : Allocator) (bank_id : Z) : outcome Z :=
  _ ← check (bool_decide (is_Some (bank_id_to_dram_channel a !! bank_id))) TT_ASSERT;
  of_option OUT_OF_RANGE (bank_id_to_dram_channel a !! bank_id).

Definition logical_core_from_bank_id (a : Allocator) (bank_id : Z) : outcome CoreCoord :=
  _ ← check (bool_decide (is_Some (bank_id_to_logical_core a !! bank_id))) TT_ASSERT;
  of_option OUT_OF_RANGE (bank_id_to_logical_core a !! bank_id).

Definition bank_offset (a : Allocator) (t : BufferType) (bank_id : Z) : outcome Z :=
  b ← manager_of a t; o ← BankManager.bank_offset b bank_id; Ok (to_i32 o).

Definition bank_ids_from_dram_channel (a : Allocator) (dram_channel : Z) : outcome (list Z) :=
  _ ← check (bool_decide (is_Some (dram_channel_to_bank_ids a !! dram_channel))) TT_THROW;
  of_option OUT_OF_RANGE (dram_channel_to_bank_ids a !! dram_channel).

Definition bank_ids_from_logical_core (a : Allocator) (t : BufferType) (logical_core : CoreCoord)
  : outcome (list Z) :=
  m ← of_option OUT_OF_RANGE (logical_core_to_bank_ids a !! t);
  _ ← check (bool_decide (is_Some (m !! logical_core))) TT_THROW;
  of_option OUT_OF_RANGE (m !! logical_core).

Definition get_statistics (t : BufferType) : ST Allocator Statistics :=
  on_manager t BankManager.get_statistics.

Definition dump_memory_blocks (t : BufferType) : ST Allocator (list dump_row) :=
  on_manager t BankManager.dump_blocks.

Definition lowest_occupied_l1_address (a : Allocator) (bank_id : Z) : outcome (option Z) :=
  BankManager.lowest_occupied_address (l1_manager a) bank_id.

Definition mark_allocations_unsafe : ST Allocator unit := modify_st (set_unsafe true).
Definition mark_allocations_safe : ST Allocator unit := modify_st (set_unsafe false).

(** [verify_safe_allocation] only logs: its flag is the warning it prints. *)
Definition verify_safe_allocation (a : Allocator) (warning_generated : bool) : bool :=
  allocations_unsafe a && negb warning_generated.

Definition allocate_buffer (size page_size : Z) (t : BufferType) (bottom_up : bool)
    (num_shards : option Z) : ST Allocator Z :=
  a ← get_st;
  match t with
  | DRAM | TRACE =>
    on_manager t (dram_alloc (descriptor a) (config a) size page_size bottom_up num_shards)
  | L1 => on_manager t (l1_alloc (descriptor a) (config a) size page_size bottom_up num_shards)
  | L1_SMALL =>
    _ ← check_st (bool_decide (is_Some num_shards)) TT_FATAL;
    on_manager t (l1_alloc (descriptor a) (config a) size page_size bottom_up num_shards)
  | SYSTEM_MEMORY => throw_st TT_THROW
  end.

Definition deallocate_buffer (address : Z) (t : BufferType) : ST Allocator unit :=
  on_manager t (BankManager.deallocate_buffer address).

(** [visit] is the order in which a set of addresses is traversed. *)
Definition deallocate_buffers (visit : gset Z → list Z) : ST Allocator unit :=
  _ ← on_manager DRAM (BankManager.deallocate_all visit);
  _ ← on_manager L1 (BankManager.deallocate_all visit);
  _ ← on_manager L1_SMALL (BankManager.deallocate_all visit);
  on_manager TRACE (BankManager.deallocate_all visit).

Definition clear : ST Allocator unit :=
  _ ← on_manager DRAM BankManager.clear;
  _ ← on_manager L1 BankManager.clear;
  _ ← on_manager L1_SMALL BankManager.clear;
  on_manager TRACE BankManager.clear.

(** [Allocator::reset] *)
Definition reset : ST Allocator unit :=
  _ ← modify_st (λ a, set_cores ∅ ((λ _, ∅) <$> logical_core_to_bank_ids a) (set_channels ∅ ∅ a));
  _ ← clear;
  modify_st (λ a, set_config (config_reset (config a)) a).
