(* ===== verification/DeviceAllocator.v ===== *)
(** * The device's view of its allocator (impl/device/device.cpp)

    The methods of [Device] that reach the allocator; [None] is a device whose
    allocator is not there yet.  All of them check that first, but for
    [deallocate_buffers], which follows the null pointer. *)
From S2P Require Import Prelude FreeList CoreCoord AllocatorAlgorithm FreeListAlgorithm BankManager Allocator AllocatorOps.

Definition check_allocator_is_initialized (d : option Allocator) : outcome Allocator :=
  of_option TT_THROW d.

Definition num_banks (d : option Allocator) (t : BufferType) : outcome Z :=
  a ← check_allocator_is_initialized d; AllocatorOps.num_banks a t.

Definition bank_size (d : option Allocator) (t : BufferType) : outcome Z :=
  a ← check_allocator_is_initialized d; s ← AllocatorOps.bank_size a t; Ok (u32 s).

Definition dram_channel_from_bank_id (d : option Allocator) (bank_id : Z) : outcome Z :=
  a ← check_allocator_is_initialized d; AllocatorOps.dram_channel_from_bank_id a bank_id.

Definition bank_offset (d : option Allocator) (t : BufferType) (bank_id : Z) : outcome Z :=
  a ← check_allocator_is_initialized d; AllocatorOps.bank_offset a t bank_id.

Definition logical_core_from_bank_id (d : option Allocator) (bank_id : Z) : outcome CoreCoord :=
  a ← check_allocator_is_initialized d; AllocatorOps.logical_core_from_bank_id a bank_id.

Definition bank_ids_from_dram_channel (d : option Allocator) (dram_channel : Z) : outcome (list Z) :=
  a ← check_allocator_is_initialized d; AllocatorOps.bank_ids_from_dram_channel a dram_channel.

Definition bank_ids_from_logical_core (d : option Allocator) (t : BufferType) (logical_core : CoreCoord)
  : outcome (list Z) :=
  a ← check_allocator_is_initialized d; AllocatorOps.bank_ids_from_logical_core a t logical_core.

Definition get_allocator_alignment (d : option Allocator) : outcome Z :=
  a ← check_allocator_is_initialized d; Ok (alignment (config a)).

Definition get_l1_small_size (d : option Allocator) : outcome Z :=
  a ← check_allocator_is_initialized d; Ok (l1_small_size (config a)).

(** The operations that change the allocator, or need its store. *)
Definition on_allocator {B} (no_allocator : error) (f : ST Allocator B) : ST (option Allocator) B := λ d,
  match d with
  | None => (Err no_allocator, None)
  | Some a => let '(r, a') := f a in (r, Some a')
  end.

Definition get_memory_allocation_statistics (t : BufferType) : ST (option Allocator) Statistics :=
  on_allocator TT_THROW (AllocatorOps.get_statistics t).

Definition dump_memory_blocks (t : BufferType) : ST (option Allocator) (list dump_row) :=
  on_allocator TT_THROW (AllocatorOps.dump_memory_blocks t).

Definition deallocate_buffers (visit : gset Z → list Z) : ST (option Allocator) unit :=
  on_allocator UB (AllocatorOps.deallocate_buffers visit).
