(* ===== verification/BankManagerProps.v ===== *)
(** * Bank managers implement an abstract bank

    An abstract bank is the map of live blocks and the set of addresses that
    [allocate_buffer] ever returned.  Every operation of a manager whose
    algorithm keeps the contract of [AlgorithmLaws] is one step of it. *)
From S2P Require Import Prelude FreeList Arith CoreCoord AllocatorAlgorithm FreeListAlgorithm BankManager.

(** ** The abstract bank *)
(** What the operations of a manager do not change. *)
Record bank_static := mk_static {
  st_type : BufferType; st_banks : Z; st_limit : Z; st_align : Z; st_region : region
}.

Record abank := mk_abank { ab_live : live; ab_returned : gset Z }.

(** The checks of a request, and the size per bank and the limit they give. *)
Definition request (c : bank_static) (grid : CoreCoord) (size page_size : Z) (num_shards : option Z)
  : outcome (Z * Z) :=
  banks ← match num_shards with
          | Some n => _ ← check (n <=? u64 (x grid * y grid)) TT_FATAL; Ok n
          | None => Ok (st_banks c)
          end;
  n ← SizeBytesPerBank size page_size banks (st_align c);
  limit ← (if bool_decide (num_shards = None) && bool_decide (st_type c = L1)
           then _ ← check (0 <? st_limit c) TT_FATAL; Ok (st_limit c) else Ok 0);
  Ok (n, limit).

(** A request that passes the checks, for a block of [sz] bytes.  A block below
    the limit is reported as an error, and stays allocated. *)
Inductive bank_alloc (r : region) (bottom_up : bool) (limit sz : Z) : abank → outcome Z → abank → Prop :=
| bank_alloc_ok m L a :
    room_at r m a sz → (r_gran r | a) → extremal bottom_up r m a sz → limit <= a →
    bank_alloc r bottom_up limit sz (mk_abank m L) (Ok a) (mk_abank (<[a := sz]> m) ({[a]} ∪ L))
| bank_alloc_full m L :
    (∀ a, ¬ room_at r m a sz) →
    bank_alloc r bottom_up limit sz (mk_abank m L) (Err TT_THROW) (mk_abank m L)
| bank_alloc_below m L a :
    room_at r m a sz → (r_gran r | a) → extremal bottom_up r m a sz → a < limit →
    bank_alloc r bottom_up limit sz (mk_abank m L) (Err TT_THROW) (mk_abank (<[a := sz]> m) L).

Definition bank_free (a : Z) (s : abank) : abank := mk_abank (delete a (ab_live s)) (ab_returned s).
(** Everything that was ever returned is freed. *)
Definition bank_free_all (s : abank) : abank :=
  mk_abank (filter (λ p, p.1 ∉ ab_returned s) (ab_live s)) (ab_returned s).
Definition bank_clear (s : abank) : abank := mk_abank ∅ (ab_returned s).

Lemma bank_alloc_wf r bu limit sz s o s' :
  region_ok r → 0 < sz → (r_gran r | sz) →
  bank_alloc r bu limit sz s o s' → wf_live r (ab_live s) → wf_live r (ab_live s').
Proof.
  intros Hr Hsz Hd. destruct 1 as [m L a [Hw Hm]|m L|m L a [Hw Hm]]; simpl; intros Hwf; [|done|];
    by apply wf_live_insert.
Qed.

(** ** Helpers *)
Lemma delete_each_filter (l : list Z) (m : live) :
  foldl (λ m a, delete a m) m l = filter (λ p, p.1 ∉ l) m.
Proof.
  revert m; induction l as [|a l IH]; intros m; simpl.
  - symmetry. apply map_filter_id. intros i v _. simpl. by apply not_elem_of_nil.
  - rewrite IH. apply map_eq. intros b. apply option_eq. intros v.
    rewrite !map_lookup_filter_Some, lookup_delete_Some. simpl. rewrite not_elem_of_cons. naive_solver.
Qed.

Section laws.
Context {A : Type} `{Laws : AlgorithmLaws A}.

(** A manager stands for an abstract bank. *)
Record bm_rep (c : bank_static) (t : bool) (b : BankManager A) (s : abank) : Prop := mk_bm_rep {
  br_alg : ∃ a, allocator_ b = Some a ∧ rep t a (ab_live s) ∧ reg a = st_region c ∧ first_fit a = true;
  br_returned : allocated_buffers_ b = ab_returned s;
  br_range : ∀ a, a ∈ ab_returned s → in_range 64 a;
  br_type : buffer_type_ b = st_type c;
  br_banks : num_banks b = st_banks c;
  br_limit : interleaved_address_limit_ b = st_limit c;
  br_align : alignment_bytes_ b = st_align c
}.

Lemma run_with_allocator {B} (f : ST A B) b a r a' :
  allocator_ b = Some a → f a = (r, a') →
  with_allocator f b = (r, set_allocator (Some a') b).
Proof. intros Ha Hf. unfold with_allocator. by rewrite Ha, Hf. Qed.

(** A step of the algorithm that keeps its region. *)
Lemma bm_rep_step c t t' b s m' a' :
  bm_rep c t b s → rep t' a' m' → reg a' = st_region c → first_fit a' = true →
  bm_rep c t' (set_allocator (Some a') b) (mk_abank m' (ab_returned s)).
Proof. intros [_ ? ? ? ? ? ?] ? ? ?. split; try done. by exists a'. Qed.

Lemma bm_rep_wf c t b s : bm_rep c t b s → region_ok (st_region c) ∧ wf_live (st_region c) (ab_live s).
Proof. intros [(a & _ & Ha & <- & _) _ _ _ _ _ _]. eauto using rep_region, rep_wf. Qed.

Lemma bm_rep_weaken c b s t : bm_rep c true b s → bm_rep c t b s.
Proof.
  intros [(a & ? & Ha & ? & ?) ? ? ? ? ? ?]. split; try done. exists a. split_and!; try done.
  destruct t; [done|by apply rep_weaken].
Qed.

Lemma has_allocator_rep c t b s : bm_rep c t b s → has_allocator b = true.
Proof. intros [(a & Ha & _) _ _ _ _ _ _]. unfold has_allocator. rewrite Ha. by apply bool_decide_eq_true. Qed.

Lemma request_code c t b s grid size page_size num_shards :
  bm_rep c t b s →
  request c grid size page_size num_shards
  = (banks ← request_banks b grid num_shards;
     n ← SizeBytesPerBank size page_size banks (alignment_bytes_ b);
     limit ← request_limit b num_shards; Ok (n, limit)).
Proof.
  intros [_ _ _ Ht Hb Hl Ha]. unfold request, request_banks, request_limit. by rewrite Ht, Hb, Hl, Ha.
Qed.

Lemma run_allocate_err c t b s size page_size bu grid shards e :
  bm_rep c t b s → request c grid size page_size shards = Err e →
  allocate_buffer size page_size bu grid shards b = (Err e, b).
Proof.
  intros Hs. rewrite (request_code _ _ _ _ _ _ _ _ Hs). unfold allocate_buffer. rewrite run_get.
  destruct (request_banks _ _ _) as [n|] eqn:Hn; cbn; [|by intros [= ->]].
  rewrite (run_lift _ n) by done.
  destruct (SizeBytesPerBank _ _ _ _) as [k|] eqn:Hk; cbn; [|by intros [= ->]].
  rewrite (run_lift _ k) by done. destruct (request_limit _ _) as [l|] eqn:Hl; cbn; [done|].
  by intros [= ->].
Qed.

Lemma run_allocate_buffer c t b s size page_size bu grid shards n limit :
  bm_rep c t b s → request c grid size page_size shards = Ok (n, limit) → request_ok (st_region c) n →
  ∃ o b' s', allocate_buffer size page_size bu grid shards b = (o, b')
    ∧ bank_alloc (st_region c) bu limit (block_size (st_region c) n) s o s' ∧ bm_rep c t b' s'.
Proof.
  intros Hs Hreq Hn. rewrite (request_code _ _ _ _ _ _ _ _ Hs) in Hreq. unfold allocate_buffer. rewrite run_get.
  apply bind_Ok_inv in Hreq as (banks & Hbanks & Hreq). rewrite (run_lift _ _ _ _ Hbanks).
  apply bind_Ok_inv in Hreq as (n' & Hsize & Hreq). rewrite (run_lift _ _ _ _ Hsize).
  apply bind_Ok_inv in Hreq as (l' & Hlimit & [= -> ->]). rewrite (run_lift _ _ _ _ Hlimit).
  rewrite run_check by (by eapply has_allocator_rep). pose proof Hs as [(a & Ha & Hrep & Hreg & Hff) Hret _ _ _ _ _].
  rewrite <- Hreg in Hn. pose proof (allocate_law t a (ab_live s) n bu limit Hrep Hn) as H. cbv zeta in H.
  rewrite Hreg in H. destruct s as [m L]. simpl in *.
  destruct H as [[Hrun Hno]|(ad & a' & Hrun & Hroom & Hd & Hext & Hrep' & Hreg' & Hff')].
  - st_step (run_with_allocator _ _ _ _ _ Ha Hrun). eexists _, _, _. split; [done|]. split; [by apply bank_alloc_full|].
    by apply (bm_rep_step c t t b (mk_abank m L)).
  - specialize (Hext Hff). pose proof (bm_rep_step c t t b _ _ a' Hs Hrep' Hreg' ltac:(congruence)) as Hs'. simpl in Hs'.
    destruct (Z.ltb_spec ad limit).
    + rewrite (ST_bind_err _ _ _ _ _ (run_with_allocator _ _ _ _ _ Ha Hrun)). eexists _, _, _. split; [done|].
      split; [by eapply bank_alloc_below|done].
    + st_step (run_with_allocator _ _ _ _ _ Ha Hrun). eexists _, _, _. split; [done|].
      split; [by apply bank_alloc_ok|]. destruct Hs' as [Halg Hr Hin ? ? ? ?]. simpl in *.
      split; simpl; try done; [by rewrite Hr|].
      intros a0 [->%elem_of_singleton|]%elem_of_union; [|by apply Hin].
      destruct Halg as (a1 & [= <-] & Hr1 & _).
      assert (Hl : (<[ad := block_size (st_region c) n]> m) !! ad = Some (block_size (st_region c) n))
        by by rewrite lookup_insert_eq.
      destruct (rep_bounds _ _ _ _ _ Hr1 Hl). unfold in_range. lia.
Qed.

Lemma run_deallocate_buffer c t b s a :
  bm_rep c t b s → in_range 64 a →
  ∃ b', deallocate_buffer a b = (Ok tt, b') ∧ bm_rep c t b' (bank_free a s).
Proof.
  intros Hs Ha. pose proof Hs as [(al & Hal & Hrep & Hreg & Hff) _ _ _ _ _ _].
  destruct (deallocate_law _ _ _ _ Hrep Ha) as (a' & Hrun & Hrep' & Hreg' & Hff').
  eexists. split; [by apply (run_with_allocator _ _ _ _ _ Hal Hrun)|].
  apply (bm_rep_step c t t b s); [done..|congruence|congruence].
Qed.

Lemma run_deallocate_each c t b s l :
  bm_rep c t b s → (∀ a, a ∈ l → in_range 64 a) →
  ∃ b', deallocate_each l b = (Ok tt, b')
    ∧ bm_rep c t b' (mk_abank (foldl (λ m a, delete a m) (ab_live s) l) (ab_returned s)).
Proof.
  revert b s; induction l as [|a l IH]; intros b s Hs Hl; [exists b; split; [done|]; by destruct s|].
  destruct (run_deallocate_buffer c t b s a Hs) as (b1 & Hrun & Hs1); [apply Hl; by left|].
  simpl. st_step Hrun. destruct (IH b1 _ Hs1) as (b2 & ? & ?); [intros ? ?; apply Hl; by right|]. by exists b2.
Qed.

Lemma run_deallocate_all c t b s visit :
  bm_rep c t b s → (∀ l, visit l ≡ₚ elements l) →
  ∃ b', deallocate_all visit b = (Ok tt, b') ∧ bm_rep c t b' (bank_free_all s).
Proof.
  intros Hs Hv. unfold deallocate_all. rewrite run_get. pose proof (br_returned _ _ _ _ Hs) as Hret.
  destruct (run_deallocate_each c t b s (visit (allocated_buffers_ b)) Hs) as (b' & Hrun & Hs').
  - intros a Ha. rewrite Hv, elem_of_elements, Hret in Ha. by eapply br_range.
  - exists b'. split; [done|]. rewrite delete_each_filter in Hs'. unfold bank_free_all.
    replace (filter (λ p, p.1 ∉ ab_returned s) (ab_live s))
      with (filter (λ p, p.1 ∉ visit (allocated_buffers_ b)) (ab_live s)); [done|].
    apply map_filter_ext. intros a v _. simpl. by rewrite Hv, elem_of_elements, Hret.
Qed.

Lemma run_bank_clear c t b s :
  bm_rep c t b s → ∃ b', clear b = (Ok tt, b') ∧ bm_rep c false b' (bank_clear s).
Proof.
  intros Hs. pose proof Hs as [(al & Hal & Hrep & Hreg & Hff) _ _ _ _ _ _].
  destruct (clear_law _ _ _ Hrep) as (a' & Hrun & Hrep' & Hreg' & Hff').
  unfold clear. rewrite run_get, (has_allocator_rep _ _ _ _ Hs). eexists.
  split; [by apply (run_with_allocator _ _ _ _ _ Hal Hrun)|].
  apply (bm_rep_step c t false b s); [done..|congruence|congruence].
Qed.

Lemma bank_size_rep c t b s : bm_rep c t b s → bank_size b = Ok (r_size (st_region c)).
Proof.
  intros [(a & Ha & Hrep & Hreg & _) _ _ _ _ _ _]. unfold bank_size. rewrite Ha, max_size_law, Hreg. cbv zeta.
  apply rep_region in Hrep. rewrite Hreg in Hrep. destruct Hrep.
  by rewrite (proj2 (Z.ltb_ge _ _)) by lia.
Qed.

End laws.
