(* ===== verification/AllocatorL1.v ===== *)
(** * A freshly built allocator: managers and DRAM banks

    What the constructors of a bank manager return, and that
    [init_one_bank_per_channel] splits every DRAM bank in the memory for buffers
    and the trace region above it, bank [i] being channel [i]. *)
From S2P Require Import Prelude FreeList FreeListProps Arith CoreCoord AllocatorAlgorithm FreeListAlgorithm BankManager BankManagerProps Allocator FreeListThms.
(** ** Loops and maps *)
Lemma for_each_inv {X S} (body : X → S → outcome S) (P : list X → S → Prop) (l : list X) (s : S) :
  P [] s →
  (∀ done v rest s, l = done ++ v :: rest → P done s → ∃ s', body v s = Ok s' ∧ P (done ++ [v]) s') →
  ∃ s', for_each body l s = Ok s' ∧ P l s'.
Proof.
  intros H0 Hstep. assert (H : ∀ rest done s, l = done ++ rest → P done s →
    ∃ s', for_each body rest s = Ok s' ∧ P l s'); [|by apply (H l [])].
  clear H0 s. induction rest as [|v rest IH]; intros done s Hl Hs; [rewrite app_nil_r in Hl; subst; by exists s|].
  destruct (Hstep done v rest s Hl Hs) as (s1 & Hrun & Hs1). simpl. rewrite Hrun. cbn.
  apply (IH (done ++ [v])); [|done]. by rewrite <- (assoc app).
Qed.

Lemma map_insert_Some {K} `{Countable K} {V} (k : K) (v : V) (m : gmap K V) i w :
  map_insert k v m !! i = Some w ↔ m !! i = Some w ∨ (i = k ∧ m !! k = None ∧ v = w).
Proof.
  unfold map_insert. destruct (m !! k) as [u|] eqn:Hk.
  - split; [by left|]. by intros [?|(_ & ? & _)].
  - rewrite lookup_insert_Some. destruct (decide (i = k)) as [->|]; naive_solver.
Qed.

Lemma map_insert_fresh {K} `{Countable K} {V} (k : K) (v : V) (m : gmap K V) :
  m !! k = None → map_insert k v m = <[k := v]> m.
Proof. intros Hk. unfold map_insert. by rewrite Hk. Qed.

Lemma map_insert_there {K} `{Countable K} {V} (k : K) (v w : V) (m : gmap K V) :
  m !! k = Some w → map_insert k v m = m.
Proof. intros Hk. unfold map_insert. by rewrite Hk. Qed.

(** Inserting in order keeps the first of two entries with one key. *)
Lemma list_to_map_snoc_insert {K} `{Countable K} {V} (l : list (K * V)) k v :
  (list_to_map (l ++ [(k, v)]) : gmap K V) = map_insert k v (list_to_map l).
Proof.
  apply map_eq. intros i. apply option_eq. intros w. rewrite map_insert_Some.
  induction l as [|[k' v'] l IH]; simpl.
  - rewrite lookup_insert_Some, !lookup_empty. naive_solver.
  - rewrite !lookup_insert_Some, lookup_insert_None, IH. destruct (decide (k' = i)); naive_solver.
Qed.

(** ** Constructors of a manager *)
Lemma run_init_allocator size_bytes align_ offset b :
  region_ok (mk_region offset size_bytes align_ align_) →
  ∃ a, init_allocator size_bytes align_ offset b = Ok (set_allocator (Some a) b)
    ∧ rep true a ∅ ∧ reg a = mk_region offset size_bytes align_ align_ ∧ first_fit a = true.
Proof.
  intros Hr. pose proof Hr as [? ? ? ? ? ? ?]. simpl in *. unfold init_allocator.
  destruct (FreeList_new _ _ _ _ _) as [r a] eqn:Hnew.
  assert (r = Ok tt) as ->.
  { unfold FreeList_new in Hnew. rewrite run_check in Hnew by (apply Z.eqb_eq, Z.mod_divide; [lia|done]).
    by injection Hnew as <-. }
  exists a. split; [done|]. destruct (list_new _ _ _ _ Hr Hnew) as (? & ? & Hp). split_and!; [done|done|].
  cbn. unfold is_first. by rewrite Hp.
Qed.

(** Bank ids are the indices of the offsets. *)
Lemma index_offsets_spec b l m :
  0 <= b → b + Z.of_nat (length l) <= 2 ^ 32 → (∀ k, b <= k → m !! k = None) →
  (∀ k, index_offsets b l m !! k = if k <? b then m !! k else l !! Z.to_nat (k - b))
  ∧ base.size (index_offsets b l m) = (base.size m + length l)%nat.
Proof.
  revert b m; induction l as [|o l IH]; intros b m Hb Hlen Hm; simpl.
  - split; [|lia]. intros k. destruct (Z.ltb_spec k b); [done|]. by apply Hm.
  - cbn [length] in Hlen. rewrite (map_insert_fresh b o m) by (by apply Hm).
    destruct (decide (l = [])) as [->|Hne].
    { simpl. split; [|rewrite map_size_insert_None by (by apply Hm); lia].
      intros k. destruct (Z.ltb_spec k b); [by rewrite lookup_insert_ne by lia|].
      destruct (Z.eq_dec k b) as [->|].
      - by rewrite lookup_insert_eq, Z.sub_diag.
      - rewrite lookup_insert_ne by lia. rewrite Hm by lia.
        destruct (Z.to_nat (k - b)) as [|i] eqn:Hi; [lia|]. done. }
    assert (0 < Z.of_nat (length l)) by (destruct l; [done|simpl; lia]).
    rewrite u32_small by lia. destruct (IH (b + 1) (<[b := o]> m)) as [Hk Hs]; [lia|lia| |].
    { intros k Hk. rewrite lookup_insert_ne by lia. apply Hm. lia. }
    split; [|rewrite Hs, map_size_insert_None by (by apply Hm); lia].
    intros k. rewrite Hk. destruct (Z.ltb_spec k (b + 1)), (Z.ltb_spec k b); try lia.
    + by rewrite lookup_insert_ne by lia.
    + replace k with b by lia. by rewrite lookup_insert_eq, Z.sub_diag.
    + by replace (Z.to_nat (k - b)) with (S (Z.to_nat (k - (b + 1)))) by lia.
Qed.

Definition fresh_bank : abank := mk_abank ∅ ∅.

Lemma run_BankManager_map t offsets size_bytes limit align_ offset :
  region_ok (mk_region offset size_bytes align_ align_) →
  validate_num_banks (u32 (Z.of_nat (base.size offsets))) t = Ok tt →
  ∃ b, BankManager_map t offsets size_bytes limit align_ offset = Ok b
    ∧ bm_rep (mk_static t (u32 (Z.of_nat (base.size offsets))) limit align_
                (mk_region offset size_bytes align_ align_)) true b fresh_bank
    ∧ bank_id_to_bank_offset_ b = offsets.
Proof.
  intros Hr Hv. unfold BankManager_map. cbv zeta.
  change (num_banks (mk_bank_manager t ∅ offsets None limit align_ : BankManager FreeList))
    with (u32 (Z.of_nat (base.size offsets))).
  rewrite Hv. cbn.
  destruct (run_init_allocator size_bytes align_ offset (mk_bank_manager t ∅ offsets None limit align_) Hr)
    as (a & Hrun & Hrep & Hreg & Hff).
  eexists. split; [exact Hrun|]. split; [|done]. split; try done. by exists a.
Qed.

Lemma run_BankManager_vector t offsets size_bytes align_ offset :
  region_ok (mk_region offset size_bytes align_ align_) →
  Z.of_nat (length offsets) < 2 ^ 32 → validate_num_banks (Z.of_nat (length offsets)) t = Ok tt →
  ∃ b, BankManager_vector t offsets size_bytes align_ offset = Ok b
    ∧ bm_rep (mk_static t (Z.of_nat (length offsets)) 0 align_
                (mk_region offset size_bytes align_ align_)) true b fresh_bank
    ∧ ∀ k, bank_id_to_bank_offset_ b !! k = if k <? 0 then None else offsets !! Z.to_nat k.
Proof.
  intros Hr Hlen Hv. destruct (index_offsets_spec 0 offsets ∅) as [Hk Hs]; [lia|lia|by intros; rewrite lookup_empty|].
  assert (Hn : u32 (Z.of_nat (base.size (index_offsets 0 offsets ∅))) = Z.of_nat (length offsets)).
  { rewrite Hs, map_size_empty. apply u32_small. lia. }
  destruct (run_BankManager_map t (index_offsets 0 offsets ∅) size_bytes 0 align_ offset Hr) as (b & Hrun & Hb & Ho).
  { by rewrite Hn. }
  exists b. rewrite Hn in Hb. split_and!; [done|done|]. intros k. rewrite Ho, Hk, Z.sub_0_r.
  destruct (k <? 0); [|done]. by rewrite lookup_empty.
Qed.

(** ** DRAM *)
Lemma run_dram_offsets n ch offsets :
  0 <= ch → (Z.to_nat ch + n <= length offsets)%nat →
  dram_offsets n ch offsets = Ok (to_i32 <$> take n (drop (Z.to_nat ch) offsets)).
Proof.
  revert ch; induction n as [|n IH]; intros ch Hch Hlen; [by rewrite take_0|].
  simpl. destruct (lookup_lt_is_Some_2 offsets (Z.to_nat ch)) as [o Ho]; [lia|].
  rewrite <- (Z2Nat.id ch) at 1 by done. rewrite (vec_at_some _ _ _ Ho). cbn.
  rewrite IH by lia. cbn. rewrite (drop_S _ _ _ Ho).
  replace (Z.to_nat (ch + 1)) with (S (Z.to_nat ch)) by lia. done.
Qed.

(** Inserting the banks of the channels leaves everything but the maps alone. *)
Record same_but_maps (a a' : Allocator) : Prop := mk_same_but_maps {
  sm_unsafe : allocations_unsafe a' = allocations_unsafe a;
  sm_dram : dram_manager a' = dram_manager a;
  sm_l1 : l1_manager a' = l1_manager a;
  sm_small : l1_small_manager a' = l1_small_manager a;
  sm_trace : trace_buffer_manager a' = trace_buffer_manager a;
  sm_cores : bank_id_to_logical_core a' = bank_id_to_logical_core a;
  sm_config : config a' = config a;
  sm_descriptor : descriptor a' = descriptor a
}.

(** Bank [i] is channel [i], for the first [n] channels. *)
Record channel_maps (n : Z) (a : Allocator) : Prop := mk_channel_maps {
  cm_channel : ∀ k, bank_id_to_dram_channel a !! k = if (0 <=? k) && (k <? n) then Some k else None;
  cm_banks : ∀ k, dram_channel_to_bank_ids a !! k = if (0 <=? k) && (k <? n) then Some [k] else None
}.

Lemma channel_insert {V} (f : Z → V) (m : gmap Z V) (n b k : Z) :
  0 <= b → (∀ k, m !! k = if (0 <=? k) && (k <? n) then Some (f k) else None) →
  b <= n → map_insert b (f b) m !! k = if (0 <=? k) && (k <? Z.max n (b + 1)) then Some (f k) else None.
Proof.
  intros Hb Hm Hn. destruct (Z.eq_dec b n) as [->|].
  - rewrite map_insert_fresh by (rewrite Hm, Z.ltb_irrefl; by rewrite andb_false_r).
    destruct (Z.eq_dec k n) as [->|].
    + rewrite lookup_insert_eq. by rewrite (proj2 (Z.leb_le 0 n)), (proj2 (Z.ltb_lt n _)) by lia.
    + rewrite lookup_insert_ne, Hm by lia. destruct (Z.leb_spec 0 k); simpl; [|done].
      destruct (Z.ltb_spec k n), (Z.ltb_spec k (Z.max n (n + 1))); done || lia.
  - rewrite (map_insert_there _ _ (f b)), Hm.
    + by replace (Z.max n (b + 1)) with n by lia.
    + rewrite Hm. by rewrite (proj2 (Z.leb_le 0 b)), (proj2 (Z.ltb_lt b n)) by lia.
Qed.

Lemma no_index k : (0 <=? k) && (k <? 0) = false.
Proof. destruct (Z.leb_spec 0 k), (Z.ltb_spec k 0); done || lia. Qed.

(** Core [(i, 0)] has bank [i] of memory [t], for the first [n] banks. *)
Definition core_map (t : BufferType) (n : Z) (a : Allocator) : Prop :=
  ∀ core, default ∅ (logical_core_to_bank_ids a !! t) !! core
          = if (y core =? 0) && ((0 <=? x core) && (x core <? n)) then Some [x core] else None.

Lemma core_map_insert t n a k :
  0 <= n → core_map t n a →
  default ∅ (insert_bank_ids t (mk_coord n 0) [n] (logical_core_to_bank_ids a) !! t) !! k
  = if (y k =? 0) && ((0 <=? x k) && (x k <? n + 1)) then Some [x k] else None.
Proof.
  intros Hn Hm. unfold insert_bank_ids. rewrite lookup_insert_eq. cbn [default from_option]. unfold id at 1.
  rewrite map_insert_fresh by (rewrite Hm; cbn [x y]; by rewrite Z.ltb_irrefl, !andb_false_r).
  destruct (decide (k = mk_coord n 0)) as [->|Hne].
  - rewrite lookup_insert_eq. cbn [x y].
    by rewrite (proj2 (Z.leb_le 0 n)), (proj2 (Z.ltb_lt n _)) by lia.
  - rewrite lookup_insert_ne, Hm by done. destruct k as [kx ky]. cbn [x y].
    destruct (Z.eqb_spec ky 0) as [->|]; [|done]. destruct (Z.leb_spec 0 kx); [|done]. cbn [andb].
    destruct (Z.ltb_spec kx n), (Z.ltb_spec kx (n + 1)); try done; [lia|].
    destruct Hne. f_equal. lia.
Qed.

Lemma insert_channels_spec t n b c a :
  0 <= b → b <= c → channel_maps c a → core_map t b a →
  let a' := insert_channels t n b a in
  same_but_maps a a' ∧ channel_maps (Z.max c (b + Z.of_nat n)) a' ∧ core_map t (b + Z.of_nat n) a'
  ∧ (∀ t', t' ≠ t → logical_core_to_bank_ids a' !! t' = logical_core_to_bank_ids a !! t').
Proof.
  revert b c a; induction n as [|n IH]; intros b c a Hb Hc Hcm Hco; cbn [insert_channels]; cbv zeta.
  { rewrite Z.add_0_r, Z.max_l by lia. split_and!; [by constructor|done..]. }
  set (a1 := set_cores _ _ _).
  destruct (IH (b + 1) (Z.max c (b + 1)) a1) as (H1 & H2 & H3 & H4); [lia|lia| | |].
  - destruct Hcm as [Hch Hba]. unfold a1. split; intros k; cbn.
    + by apply (channel_insert id).
    + by apply (channel_insert (λ k, [k])).
  - intros k. by apply core_map_insert.
  - cbv zeta in *. split_and!.
    + destruct H1. by constructor.
    + by replace (Z.max c (b + Z.of_nat (S n))) with (Z.max (Z.max c (b + 1)) (b + 1 + Z.of_nat n)) by lia.
    + by replace (b + Z.of_nat (S n)) with (b + 1 + Z.of_nat n) by lia.
    + intros t' Ht'. rewrite H4 by done. unfold a1, insert_bank_ids. cbn. by rewrite lookup_insert_ne.
Qed.

(** The DRAM part of a configuration: every channel has an offset, the reserved
    bytes and the trace region fit a bank, and all are aligned. *)
Record dram_config_ok (c : AllocatorConfig) : Prop := mk_dram_config_ok {
  dc_channels : 0 < num_dram_channels c < 2 ^ 32;
  dc_offsets : num_dram_channels c <= Z.of_nat (length (dram_bank_offsets c));
  dc_banks : validate_num_banks (num_dram_channels c) DRAM = Ok tt;
  dc_align : 0 < alignment c;
  dc_base : 0 <= dram_unreserved_base c;
  dc_trace : 0 <= trace_region_size c;
  dc_size : dram_unreserved_base c + trace_region_size c <= dram_bank_size c < 2 ^ 64;
  dc_base_align : (alignment c | dram_unreserved_base c);
  dc_trace_align : (alignment c | trace_region_size c);
  dc_size_align : (alignment c | dram_bank_size c)
}.

Definition dram_bytes (c : AllocatorConfig) : Z :=
  dram_bank_size c - dram_unreserved_base c - trace_region_size c.

Definition dram_static (c : AllocatorConfig) : bank_static :=
  mk_static DRAM (num_dram_channels c) 0 (alignment c)
    (mk_region (dram_unreserved_base c) (dram_bytes c) (alignment c) (alignment c)).
Definition trace_static (c : AllocatorConfig) : bank_static :=
  mk_static TRACE (num_dram_channels c) 0 (alignment c)
    (mk_region (dram_unreserved_base c + dram_bytes c) (trace_region_size c) (alignment c) (alignment c)).

Lemma dram_regions_ok c :
  dram_config_ok c → region_ok (st_region (dram_static c)) ∧ region_ok (st_region (trace_static c)).
Proof.
  intros [? ? ? ? ? ? ? ? ? ?]. unfold dram_bytes.
  split; split; cbn; unfold dram_bytes; try lia; try done.
  - by apply Z.divide_sub_r; [apply Z.divide_sub_r|].
  - replace (_ + _) with (dram_bank_size c - trace_region_size c) by lia. by apply Z.divide_sub_r.
Qed.

(** Bank [i] of a DRAM manager starts at the offset of channel [i]. *)
Definition dram_bank_offset (c : AllocatorConfig) (k : Z) : option Z :=
  if k <? 0 then None else (to_i32 <$> take (Z.to_nat (num_dram_channels c)) (dram_bank_offsets c)) !! Z.to_nat k.

(** What [init_one_bank_per_channel] builds. *)
Record dram_built (c : AllocatorConfig) (a0 a : Allocator) : Prop := mk_dram_built {
  db_dram : bm_rep (dram_static c) true (dram_manager a) fresh_bank;
  db_trace : bm_rep (trace_static c) true (trace_buffer_manager a) fresh_bank;
  db_dram_offsets : ∀ k, bank_id_to_bank_offset_ (dram_manager a) !! k = dram_bank_offset c k;
  db_trace_offsets : ∀ k, bank_id_to_bank_offset_ (trace_buffer_manager a) !! k = dram_bank_offset c k;
  db_channels : channel_maps (num_dram_channels c) a;
  db_cores : ∀ t, t = DRAM ∨ t = TRACE → core_map t (num_dram_channels c) a;
  db_no_l1 : ∀ t, t ≠ DRAM → t ≠ TRACE → logical_core_to_bank_ids a !! t = None;
  db_bank_core : bank_id_to_logical_core a = ∅;
  db_l1 : l1_manager a = l1_manager a0;
  db_small : l1_small_manager a = l1_small_manager a0;
  db_unsafe : allocations_unsafe a = allocations_unsafe a0;
  db_config : config a = config a0;
  db_descriptor : descriptor a = descriptor a0
}.

Lemma run_init_one_bank_per_channel c a0 :
  dram_config_ok c →
  bank_id_to_dram_channel a0 = ∅ → dram_channel_to_bank_ids a0 = ∅ →
  bank_id_to_logical_core a0 = ∅ → logical_core_to_bank_ids a0 = ∅ →
  ∃ a, init_one_bank_per_channel a0 c = Ok a ∧ dram_built c a0 a.
Proof.
  intros Hc E1 E2 E3 E4. pose proof Hc as [Hn Ho Hv Hal Hb Ht Hs ? ? ?].
  destruct (dram_regions_ok c Hc) as [Hr1 Hr2].
  unfold init_one_bank_per_channel. cbv zeta.
  rewrite (u64_small (dram_bank_size c - dram_unreserved_base c)),
    (u64_small (_ - trace_region_size c)) by lia. fold (dram_bytes c).
  rewrite run_dram_offsets by lia. cbn. rewrite drop_0.
  set (offs := to_i32 <$> take (Z.to_nat (num_dram_channels c)) (dram_bank_offsets c)).
  assert (Hlen : Z.of_nat (length offs) = num_dram_channels c) by (unfold offs; rewrite length_fmap, length_take; lia).
  destruct (run_BankManager_vector DRAM offs (dram_bytes c) (alignment c) (dram_unreserved_base c))
    as (bd & -> & Hbd & Hod); [done|lia|by rewrite Hlen|].
  rewrite (u64_small (dram_bytes c + _)) by (unfold dram_bytes; lia).
  destruct (run_BankManager_vector TRACE offs (trace_region_size c) (alignment c) (dram_bytes c + dram_unreserved_base c))
    as (bt & Hrt & Hbt & Hot); [by rewrite Z.add_comm|lia|by rewrite Hlen|].
  cbn. rewrite Hrt. cbn. rewrite Hlen in Hbd, Hbt.
  assert (H0 : channel_maps 0 (set_dram_manager bd a0)).
  { split; intros k; cbn; by rewrite ?E1, ?E2, lookup_empty, no_index. }
  assert (H0' : core_map DRAM 0 (set_dram_manager bd a0)).
  { intros [kx ky]. cbn [x y]. rewrite no_index, andb_false_r.
    cbn. by rewrite E4, lookup_empty. }
  destruct (insert_channels_spec DRAM (Z.to_nat (num_dram_channels c)) 0 0 _ ltac:(lia) ltac:(lia) H0 H0') as (S1 & C1 & D1 & O1).
  cbv zeta in *. set (a1 := insert_channels DRAM _ 0 _) in *.
  rewrite Z2Nat.id, !Z.add_0_l, Z.max_r in * by lia.
  destruct (insert_channels_spec TRACE (Z.to_nat (num_dram_channels c)) 0 (num_dram_channels c) (set_trace_manager bt a1))
    as (S2 & C2 & D2 & O2); [lia|lia|by destruct C1|  |].
  { intros [kx ky]. cbn [x y]. rewrite no_index, andb_false_r.
    cbn [set_trace_manager logical_core_to_bank_ids]. rewrite O1 by done. cbn. by rewrite E4, lookup_empty. }
  cbv zeta in *. rewrite Z2Nat.id, !Z.add_0_l, Z.max_l in * by lia.
  set (a2 := insert_channels TRACE _ 0 _) in *. exists a2. split; [done|].
  destruct S1, S2. cbn in *. split; try congruence.
  - by rewrite sm_dram1, sm_dram0.
  - rewrite sm_trace1. unfold trace_static. by rewrite (Z.add_comm (dram_unreserved_base c)).
  - intros k. rewrite sm_dram1, sm_dram0, Hod. done.
  - intros k. rewrite sm_trace1, Hot. done.
  - intros t [->| ->]; [|done]. intros k. rewrite O2 by done. apply D1.
  - intros t H1 H2. rewrite O2, O1 by done. cbn. by rewrite E4, lookup_empty.
Qed.

(** * A freshly built allocator: banks of compute and storage cores

    [init_compute_and_storage_l1_bank_manager] walks the grid and gives every
    compute core one bank and every storage core [per_storage_core] banks, in the
    order of a permutation of the bank ids; the small-L1 banks of the compute
    cores follow.  [slots] is that walk as a list: bank [sh !! i] belongs to
    [slots !! i]. *)
(** ** The slots of the grid *)
Definition banked (c : AllocatorConfig) (core : CoreCoord) : bool :=
  match core_type c core with Ok ComputeAndStore | Ok StorageOnly => true | _ => false end.

(** The offset of bank [k] of a storage core. *)
Definition storage_offset (c : AllocatorConfig) (k : Z) : Z :=
  match storage_core_bank_size c with
  | Some b => if b =? worker_l1_size c then 0 else k * b - b
  | None => 0
  end.

(** The offsets of the banks of a core. *)
Definition core_slots (c : AllocatorConfig) (per : Z) (core : CoreCoord) : list (CoreCoord * Z) :=
  match core_type c core with
  | Ok ComputeAndStore => [(core, 0)]
  | Ok StorageOnly => (λ k, (core, storage_offset c k)) <$> seqZ 0 per
  | _ => []
  end.
Definition small_slots (c : AllocatorConfig) (core : CoreCoord) : list (CoreCoord * Z) :=
  match core_type c core with Ok ComputeAndStore => [(core, 0)] | _ => [] end.

Abbreviation slots c per cores := (cores ≫= core_slots c per).
Abbreviation smalls c cores := (cores ≫= small_slots c).

(** The banks of [core] among the slots [sl] named by [sh]. *)
Definition ids_of (sh : list Z) (sl : list (CoreCoord * Z)) (core : CoreCoord) : list Z :=
  fst <$> filter (λ p, p.2.1 = core) (zip sh sl).

(** The state of the loops when the banks of [sl] are inserted; the offsets are
    those of the banks from the [k0]-th on. *)
Record maps_for (k0 : nat) (sh : list Z) (sl : list (CoreCoord * Z)) (m : bank_maps) : Prop := mk_maps_for {
  mf_next : next_bank m = Z.of_nat (length sl);
  mf_core : bank_core m = list_to_map ((λ p, (p.1, p.2.1)) <$> zip sh sl);
  mf_offset : bank_offsets m = list_to_map ((λ p, (p.1, p.2.2)) <$> drop k0 (zip sh sl))
}.

Lemma zip_snoc (sh : list Z) (sl : list (CoreCoord * Z)) id s :
  sh !! length sl = Some id → zip sh (sl ++ [s]) = zip sh sl ++ [(id, s)].
Proof.
  revert sh; induction sl as [|s' sl IH]; intros [|i sh] H; simpl in *; simplify_eq; [by destruct sh|].
  by rewrite IH.
Qed.

Lemma zip_length_lt (sh : list Z) (sl : list (CoreCoord * Z)) id :
  sh !! length sl = Some id → length (zip sh sl) = length sl.
Proof. intros H%lookup_lt_Some. rewrite length_zip_with. lia. Qed.

Lemma maps_for_snoc k0 sh sl m cb id core o :
  maps_for k0 sh sl m → sh !! length sl = Some id → (k0 <= length sl)%nat → Z.of_nat (length sh) < 2 ^ 32 →
  maps_for k0 sh (sl ++ [(core, o)])
    (mk_bank_maps cb (map_insert id core (bank_core m)) (map_insert id o (bank_offsets m)) (u32 (next_bank m + 1))).
Proof.
  intros [Hn Hc Ho] Hid Hk Hlen. pose proof (lookup_lt_Some _ _ _ Hid). split; cbn.
  - rewrite Hn, length_app. simpl. rewrite u32_small by lia. lia.
  - rewrite (zip_snoc _ _ _ _ Hid), fmap_app. simpl. by rewrite list_to_map_snoc_insert, Hc.
  - rewrite (zip_snoc _ _ _ _ Hid), drop_app_le by (by rewrite (zip_length_lt _ _ _ Hid)).
    rewrite fmap_app. simpl. by rewrite list_to_map_snoc_insert, Ho.
Qed.

Lemma ids_of_snoc sh sl id core o k :
  sh !! length sl = Some id →
  ids_of sh (sl ++ [(core, o)]) k = ids_of sh sl k ++ (if decide (core = k) then [id] else []).
Proof.
  intros Hid. unfold ids_of. rewrite (zip_snoc _ _ _ _ Hid), filter_app, fmap_app. f_equal.
  rewrite filter_cons, filter_nil. simpl. by case_decide.
Qed.

(** A core without slots has no banks. *)
Lemma ids_of_none sh sl core : (∀ s, s ∈ sl → s.1 ≠ core) → ids_of sh sl core = [].
Proof.
  unfold ids_of. revert sh; induction sl as [|s sl IH]; intros [|i sh] H; simpl; try done.
  rewrite filter_cons. case_decide as Hd; [by destruct (H s); [left|]|]. apply IH. intros s' Hs'. apply H. by right.
Qed.

Lemma core_slots_core c per core s : s ∈ core_slots c per core → s.1 = core.
Proof.
  unfold core_slots. destruct (core_type c core) as [[]|]; try by intros ?%elem_of_nil.
  - by intros (k & -> & _)%list_elem_of_fmap.
  - by intros ->%list_elem_of_singleton.
Qed.

Lemma small_slots_core c core s : s ∈ small_slots c core → s.1 = core.
Proof.
  unfold small_slots. destruct (core_type c core) as [[]|]; try by intros ?%elem_of_nil.
  by intros ->%list_elem_of_singleton.
Qed.

(** The banks the loop has recorded for memory [t]: those of the cores in
    [done] that satisfy [f]. *)
Definition banks_for (t : BufferType) (f : CoreCoord → bool) (ids : CoreCoord → list Z) (done : list CoreCoord)
    (cb : gmap BufferType (gmap CoreCoord (list Z))) : Prop :=
  ∀ k, default ∅ (cb !! t) !! k = if bool_decide (k ∈ done) && f k then Some (ids k) else None.

Lemma banks_for_skip t f ids ids' done core cb :
  f core = false → (∀ k, k ∈ done → ids' k = ids k) → banks_for t f ids done cb →
  banks_for t f ids' (done ++ [core]) cb.
Proof.
  intros Hf Hids Hb k. rewrite Hb. destruct (decide (k ∈ done)) as [Hk|Hk].
  - by rewrite !bool_decide_eq_true_2, Hids by set_solver.
  - rewrite (bool_decide_eq_false_2 _ Hk). simpl. case_bool_decide as Hin; [|done].
    apply elem_of_app in Hin as [?| ->%list_elem_of_singleton]; [done|]. by rewrite Hf.
Qed.

Lemma banks_for_insert t f ids ids' done core l cb :
  f core = true → core ∉ done → ids' core = l → (∀ k, k ∈ done → ids' k = ids k) → banks_for t f ids done cb →
  banks_for t f ids' (done ++ [core]) (insert_bank_ids t core l cb).
Proof.
  intros Hf Hnew Hl Hids Hb k. unfold insert_bank_ids. rewrite lookup_insert_eq. cbn [default from_option]. unfold id.
  rewrite map_insert_fresh by (by rewrite Hb, bool_decide_eq_false_2).
  destruct (decide (k = core)) as [->|Hne].
  - by rewrite lookup_insert_eq, bool_decide_eq_true_2, Hf, Hl by set_solver.
  - rewrite lookup_insert_ne, Hb by done. destruct (decide (k ∈ done)) as [Hk|Hk].
    + by rewrite !bool_decide_eq_true_2, Hids by set_solver.
    + by rewrite !bool_decide_eq_false_2 by set_solver.
Qed.

Lemma insert_bank_ids_other t t' core l cb : t' ≠ t → insert_bank_ids t core l cb !! t' = cb !! t'.
Proof. intros. unfold insert_bank_ids. by rewrite lookup_insert_ne. Qed.

(** ** Valid configurations *)
#[export] Instance error_eq_dec : EqDecision error.
Proof. solve_decision. Defined.
#[export] Instance outcome_eq_dec {T} `{EqDecision T} : EqDecision (outcome T).
Proof. solve_decision. Defined.

Definition cores (c : AllocatorConfig) : list CoreCoord := grid_cores (worker_grid_size c).
(** How many cores of the grid have type [t]. *)
Definition count_type (c : AllocatorConfig) (t : AllocCoreType) : Z :=
  Z.of_nat (length (filter (λ core, core_type c core = Ok t) (cores c))).

Definition per_core (c : AllocatorConfig) : Z :=
  match storage_core_bank_size c with
  | Some b => if 0 <? count_type c StorageOnly then worker_l1_size c / b else 0
  | None => 0
  end.
Definition l1_banks (c : AllocatorConfig) : Z :=
  count_type c ComputeAndStore + per_core c * count_type c StorageOnly.
Definition small_banks (c : AllocatorConfig) : Z :=
  if 0 <? l1_small_size c then count_type c ComputeAndStore else 0.

(** The L1 part of a configuration: every core of the grid is typed, no other
    core is a compute or a storage core, storage banks divide L1, and the L1
    left by the reserved bytes holds the small region. *)
Record l1_config_ok (c : AllocatorConfig) : Prop := mk_l1_config_ok {
  lc_typed : ∀ core, core ∈ cores c → ∃ t, core_type c core = Ok t;
  lc_compute : num_in_category (core_type_from_noc_coord_table c) ComputeAndStore = count_type c ComputeAndStore;
  lc_storage : num_in_category (core_type_from_noc_coord_table c) StorageOnly = count_type c StorageOnly;
  lc_storage_size : 0 < count_type c StorageOnly →
    ∃ b, storage_core_bank_size c = Some b ∧ (b | worker_l1_size c);
  lc_bank_size : ∀ b, storage_core_bank_size c = Some b → 0 < b <= worker_l1_size c;
  lc_valid : validate_num_banks (l1_banks c) L1 = Ok tt;
  lc_count : l1_banks c + small_banks c < 2 ^ 32;
  lc_remap : l1_bank_remap c = [] ∨ l1_bank_remap c ≡ₚ seqZ 0 (l1_banks c);
  lc_align : 0 < alignment c < 2 ^ 31;
  lc_size : worker_l1_size c < 2 ^ 31;
  lc_base : 0 <= l1_unreserved_base c;
  lc_small : 0 <= l1_small_size c;
  lc_fits : l1_unreserved_base c + l1_small_size c <= worker_l1_size c;
  lc_small_compute : 0 < l1_small_size c → 0 < count_type c ComputeAndStore;
  lc_base_align : (alignment c | l1_unreserved_base c);
  lc_small_align : (alignment c | l1_small_size c);
  lc_size_align : (alignment c | worker_l1_size c)
}.

Lemma NoDup_grid grid : NoDup (grid_cores grid).
Proof.
  unfold grid_cores. set (rows := seqZ 0 (y grid)). assert (Hrows : NoDup rows) by apply NoDup_seqZ.
  clearbody rows. induction Hrows as [|r rows Hr Hnd IH]; [constructor|]. rewrite bind_cons. apply NoDup_app. split_and!.
  - apply NoDup_fmap_2; [|apply NoDup_seqZ]. by intros a b [= ->].
  - intros core (i & -> & _)%list_elem_of_fmap (r' & (j & [= _ ->] & _)%list_elem_of_fmap & Hr')%list_elem_of_bind. done.
  - done.
Qed.

Lemma elem_of_grid grid core :
  core ∈ grid_cores grid ↔ 0 <= x core < x grid ∧ 0 <= y core < y grid.
Proof.
  unfold grid_cores. rewrite list_elem_of_bind. split.
  - intros (r & (i & -> & Hi%elem_of_seqZ)%list_elem_of_fmap & Hr%elem_of_seqZ). cbn. lia.
  - intros [Hx Hy]. exists (y core). split; [|apply elem_of_seqZ; lia].
    apply list_elem_of_fmap. exists (x core). split; [by destruct core|]. apply elem_of_seqZ. lia.
Qed.

Section walk.
Context (c : AllocatorConfig) (Hc : l1_config_ok c).
Abbreviation per := (per_core c).

Lemma per_core_spec :
  0 < count_type c StorageOnly →
  ∃ b, storage_core_bank_size c = Some b ∧ 0 < b ∧ worker_l1_size c = per * b ∧ 0 < per < 2 ^ 32.
Proof.
  intros Hs. destruct (lc_storage_size c Hc Hs) as (b & Hb & q & Hq). exists b.
  destruct (lc_bank_size c Hc b Hb). pose proof (lc_size c Hc). unfold per_core. rewrite Hb, (proj2 (Z.ltb_lt _ _) Hs).
  rewrite Hq, Z.div_mul by lia. split_and!; try done; nia.
Qed.

Lemma per_core_nonneg : 0 <= per.
Proof.
  unfold per_core. destruct (storage_core_bank_size c) as [b|] eqn:Hb; [|done].
  destruct (lc_bank_size c Hc b Hb). destruct (0 <? _); [|done]. apply Z.div_pos; lia.
Qed.

Lemma count_type_elem core t : core ∈ cores c → core_type c core = Ok t → 0 < count_type c t.
Proof.
  intros Hin Ht. unfold count_type. assert (core ∈ filter (λ k, core_type c k = Ok t) (cores c)) as Hf
    by by apply list_elem_of_filter. destruct (filter _ _); [by apply elem_of_nil in Hf|]. simpl. lia.
Qed.

Lemma run_storage_bank_offset core k :
  core ∈ cores c → core_type c core = Ok StorageOnly → 0 <= k < per →
  storage_bank_offset c per k = Ok (storage_offset c k).
Proof.
  intros Hin Ht Hk. destruct (per_core_spec (count_type_elem _ _ Hin Ht)) as (b & Hb & Hb0 & Hw & Hp).
  pose proof (lc_size c Hc). unfold storage_bank_offset, storage_offset. rewrite Hb. cbn.
  destruct (Z.eqb_spec b (worker_l1_size c)) as [Heq|]; cbn.
  - assert (per = 1) as -> by nia. done.
  - by rewrite u32_small by nia.
Qed.

Context (sh shuffled : list Z) (Hsh : Z.of_nat (length sh) < 2 ^ 32)
  (Hpre : ∀ i, (i < length shuffled)%nat → sh !! i = shuffled !! i) (Hle : (length shuffled <= length sh)%nat).

Lemma sh_lookup i : (i < length shuffled)%nat → ∃ id, sh !! i = Some id ∧ at_ shuffled i = Ok id.
Proof.
  intros Hi. destruct (lookup_lt_is_Some_2 shuffled i Hi) as [id Hid]. exists id.
  split; [by rewrite Hpre|by apply at_some].
Qed.

Lemma run_storage_banks core sl m :
  core ∈ cores c → core_type c core = Ok StorageOnly →
  maps_for 0 sh sl m → (∀ s, s ∈ sl → s.1 ≠ core) →
  (length sl + Z.to_nat per <= length shuffled)%nat →
  ∃ m', for_each (storage_bank_step c shuffled per core) (seqZ 0 per) (m, [])
        = Ok (m', ids_of sh (sl ++ core_slots c per core) core)
    ∧ maps_for 0 sh (sl ++ core_slots c per core) m' ∧ core_banks m' = core_banks m.
Proof.
  intros Hin Ht Hm Hsl Hlen.
  set (new ks := (λ k : Z, (core, storage_offset c k)) <$> ks : list (CoreCoord * Z)).
  destruct (for_each_inv (storage_bank_step c shuffled per core)
    (λ ks s, maps_for 0 sh (sl ++ new ks) s.1 ∧ s.2 = ids_of sh (sl ++ new ks) core
             ∧ core_banks s.1 = core_banks m) (seqZ 0 per) (m, [])) as ([m' ids] & Hrun & Hm' & Hids & Hcb).
  - unfold new. simpl. rewrite app_nil_r. split_and!; [done| |done]. by rewrite ids_of_none.
  - intros ks k rest [m1 ids] Hks (Hm1 & Hids & Hcb). cbn [fst snd] in *. unfold storage_bank_step.
    assert (Hlks : (length ks < Z.to_nat per)%nat).
    { apply (f_equal length) in Hks. rewrite length_seqZ, length_app in Hks. simpl in Hks. lia. }
    assert (Hk : 0 <= k < per).
    { assert (k ∈ seqZ 0 per) as ?%elem_of_seqZ by (rewrite Hks; set_solver). lia. }
    rewrite (mf_next _ _ _ _ Hm1), Nat2Z.id.
    destruct (sh_lookup (length (sl ++ new ks))) as (id & Hid & ->).
    { unfold new. rewrite length_app, length_fmap. lia. }
    cbn. rewrite (run_storage_bank_offset core k) by done. cbn. eexists. split; [done|]. cbn [fst snd].
    unfold new. rewrite fmap_app, (assoc app). simpl. fold (new ks). split_and!; [|by rewrite Hids, (ids_of_snoc _ _ _ _ _ _ Hid), decide_True|done].
    rewrite <- (mf_next _ _ _ _ Hm1). eapply maps_for_snoc; [done|done|lia|done].
  - cbn [fst snd] in *. exists m'. unfold core_slots. rewrite Ht. fold (new (seqZ 0 per)). by rewrite Hrun, Hids.
Qed.

Lemma slots_length_prefix done rest :
  (length (slots c per done) <= length (slots c per (done ++ rest)))%nat.
Proof. rewrite bind_app, length_app. lia. Qed.

Lemma slots_elem cs s : s ∈ slots c per cs → s.1 ∈ cs.
Proof. intros (k & Hs & Hk)%list_elem_of_bind. by rewrite (core_slots_core _ _ _ _ Hs). Qed.

(** A core's banks do not change when other cores get theirs. *)
Lemma ids_of_stable sl new core k :
  (length (sl ++ new) <= length sh)%nat → (∀ s, s ∈ new → s.1 = core) → k ≠ core →
  ids_of sh (sl ++ new) k = ids_of sh sl k.
Proof.
  clear -sh. revert sl; induction new as [|s new IH]; intros sl Hlen Hnew Hk; [by rewrite app_nil_r|].
  rewrite (cons_middle s sl new), (assoc app), IH.
  - destruct (lookup_lt_is_Some_2 sh (length sl)) as [id Hid]; [rewrite length_app in Hlen; simpl in Hlen; lia|].
    destruct s as [core' o]. rewrite (ids_of_snoc _ _ id) by done. rewrite decide_False; [by rewrite app_nil_r|].
    pose proof (Hnew (core', o) ltac:(by left)) as E. simpl in E. congruence.
  - by rewrite <- (assoc app).
  - intros s' Hs'. apply Hnew. by right.
  - done.
Qed.

(** The state after the cores in [done]. *)
Definition l1_walked (cb0 : gmap BufferType (gmap CoreCoord (list Z))) (done : list CoreCoord) (m : bank_maps) : Prop :=
  maps_for 0 sh (slots c per done) m
  ∧ banks_for L1 (banked c) (ids_of sh (slots c per done)) done (core_banks m)
  ∧ ∀ t, t ≠ L1 → core_banks m !! t = cb0 !! t.

Lemma run_l1_core_step cb0 done core rest m :
  cores c = done ++ core :: rest → (length (slots c per (cores c)) <= length shuffled)%nat →
  l1_walked cb0 done m →
  ∃ m', l1_core_step c shuffled per core m = Ok m' ∧ l1_walked cb0 (done ++ [core]) m'.
Proof.
  intros Hcores Hlen (Hm & Hb & Ho). assert (Hin : core ∈ cores c) by (rewrite Hcores; set_solver).
  assert (Hnew : core ∉ done).
  { pose proof (NoDup_grid (worker_grid_size c)) as Hnd. fold (cores c) in Hnd. rewrite Hcores in Hnd.
    apply NoDup_app in Hnd as (_ & Hd & _). intros H. by apply (Hd core H); left. }
  destruct (lc_typed c Hc core Hin) as [t Ht]. unfold l1_core_step. rewrite Ht. cbn.
  assert (Hsl : slots c per (done ++ [core]) = slots c per done ++ core_slots c per core)
    by (rewrite bind_app; cbn; by rewrite app_nil_r).
  assert (Hfit : (length (slots c per done ++ core_slots c per core) <= length shuffled)%nat).
  { rewrite <- Hsl. etrans; [|exact Hlen]. rewrite Hcores, (cons_middle core done rest), (assoc app). apply slots_length_prefix. }
  assert (Hfresh : ∀ s, s ∈ slots c per done → s.1 ≠ core).
  { by intros s Hs%slots_elem <-. }
  assert (Hstable : ∀ k, k ∈ done → ids_of sh (slots c per (done ++ [core])) k = ids_of sh (slots c per done) k).
  { intros k Hk. rewrite Hsl. apply (ids_of_stable _ _ core); [lia|by apply core_slots_core|]. by intros ->. }
  assert (Hskip : banked c core = false → core_slots c per core = [] → l1_walked cb0 (done ++ [core]) m).
  { intros Hf Hnil. split_and!; [by rewrite Hsl, Hnil, app_nil_r| |done].
    by apply (banks_for_skip _ _ (ids_of sh (slots c per done))). }
  assert (Hs : core_slots c per core = match t with
      | ComputeAndStore => [(core, 0)]
      | StorageOnly => (λ k, (core, storage_offset c k)) <$> seqZ 0 per | _ => [] end)
    by (unfold core_slots; rewrite Ht; by destruct t).
  assert (Hbk : banked c core = match t with ComputeAndStore | StorageOnly => true | _ => false end)
    by (unfold banked; rewrite Ht; by destruct t).
  destruct t; try (exists m; split; [done|]; by apply Hskip).
  - destruct (run_storage_banks core (slots c per done) m Hin Ht Hm Hfresh) as (m' & Hrun & Hm' & Hcb).
    { rewrite length_app, Hs, length_fmap, length_seqZ in Hfit. lia. }
    rewrite Hrun. cbn. eexists. split; [done|]. rewrite <- Hsl in *. split_and!.
    + by destruct Hm'.
    + cbn. rewrite Hcb. by apply (banks_for_insert _ _ (ids_of sh (slots c per done))).
    + intros t Ht'. cbn. by rewrite insert_bank_ids_other, Hcb, Ho.
  - rewrite Hs, length_app in Hfit. simpl in Hfit.
    destruct (sh_lookup (length (slots c per done)) ltac:(lia)) as (id & Hid & Hat).
    rewrite (mf_next _ _ _ _ Hm), Nat2Z.id, Hat. cbn. eexists. split; [done|]. split_and!.
    + rewrite Hsl, Hs, <- (mf_next _ _ _ _ Hm). by apply maps_for_snoc; [| |lia|].
    + apply (banks_for_insert _ _ (ids_of sh (slots c per done))); [done|done| |done|done].
      by rewrite Hsl, Hs, (ids_of_snoc _ _ _ _ _ _ Hid), decide_True, ids_of_none.
    + intros t Ht'. cbn. by rewrite insert_bank_ids_other, Ho.
Qed.

Lemma run_l1_walk m0 :
  (length (slots c per (cores c)) <= length shuffled)%nat →
  bank_core m0 = ∅ → bank_offsets m0 = ∅ → next_bank m0 = 0 → core_banks m0 !! L1 = None →
  ∃ m, for_each (l1_core_step c shuffled per) (cores c) m0 = Ok m ∧ l1_walked (core_banks m0) (cores c) m.
Proof.
  intros Hlen H1 H2 H3 H4. apply (for_each_inv _ (l1_walked (core_banks m0))).
  - split_and!; [|intros k; rewrite H4; cbn; by rewrite lookup_empty|done]. cbn.
    split; cbn; [done|by rewrite H1; destruct sh|by rewrite H2; destruct sh].
  - intros done core rest m Hcores Hm. by eapply run_l1_core_step.
Qed.

End walk.

(** ** The small-L1 banks come after those of L1 *)
Definition computes (c : AllocatorConfig) (core : CoreCoord) : bool :=
  bool_decide (core_type c core = Ok ComputeAndStore).

Section small_walk.
Context (c : AllocatorConfig) (Hc : l1_config_ok c).
Context (sh : list Z) (n1 : nat) (sl1 : list (CoreCoord * Z)) (Hn1 : length sl1 = n1).
Context (Hsh : Z.of_nat (length sh) < 2 ^ 32)
  (Hseq : ∀ i, (n1 <= i < length sh)%nat → sh !! i = Some (Z.of_nat i)).

Definition small_walked (cb0 : gmap BufferType (gmap CoreCoord (list Z))) (done : list CoreCoord) (m : bank_maps) : Prop :=
  maps_for n1 sh (sl1 ++ smalls c done) m
  ∧ banks_for L1_SMALL (computes c) (ids_of (drop n1 sh) (smalls c done)) done (core_banks m)
  ∧ ∀ t, t ≠ L1_SMALL → core_banks m !! t = cb0 !! t.

Lemma run_small_core_step cb0 done core rest m :
  cores c = done ++ core :: rest → (n1 + length (smalls c (cores c)) <= length sh)%nat →
  small_walked cb0 done m →
  ∃ m', l1_small_core_step c core m = Ok m' ∧ small_walked cb0 (done ++ [core]) m'.
Proof.
  intros Hcores Hlen (Hm & Hb & Ho). assert (Hin : core ∈ cores c) by (rewrite Hcores; set_solver).
  assert (Hnew : core ∉ done).
  { pose proof (NoDup_grid (worker_grid_size c)) as Hnd. fold (cores c) in Hnd. rewrite Hcores in Hnd.
    apply NoDup_app in Hnd as (_ & Hd & _). intros H. by apply (Hd core H); left. }
  destruct (lc_typed c Hc core Hin) as [t Ht]. unfold l1_small_core_step. rewrite Ht. cbn.
  assert (Hsl : smalls c (done ++ [core]) = smalls c done ++ small_slots c core)
    by (rewrite bind_app; cbn; by rewrite app_nil_r).
  assert (Hfit : (n1 + length (smalls c done ++ small_slots c core) <= length sh)%nat).
  { rewrite <- Hsl. rewrite Hcores, (cons_middle core done rest), (assoc app), bind_app, length_app in Hlen. lia. }
  assert (Hdrop : ∀ i, (n1 + i < length sh)%nat → drop n1 sh !! i = Some (Z.of_nat (n1 + i))).
  { intros i Hi. rewrite lookup_drop. apply Hseq. lia. }
  assert (Hstable : ∀ k, k ∈ done → ids_of (drop n1 sh) (smalls c (done ++ [core])) k = ids_of (drop n1 sh) (smalls c done) k).
  { intros k Hk. rewrite Hsl. apply ids_of_stable with (core := core); [|by apply small_slots_core|by intros ->].
    rewrite length_drop. lia. }
  assert (Hs : small_slots c core = match t with ComputeAndStore => [(core, 0)] | _ => [] end)
    by (unfold small_slots; rewrite Ht; by destruct t).
  assert (Hbk : computes c core = bool_decide (t = ComputeAndStore)).
  { unfold computes. rewrite Ht. apply bool_decide_ext. split; [by intros [= ->]|by intros ->]. }
  destruct (decide (t = ComputeAndStore)) as [->|Hne].
  - rewrite Hs, length_app in Hfit. simpl in Hfit. cbn.
    pose proof (Hdrop (length (smalls c done)) ltac:(lia)) as Hid.
    assert (Hnext : next_bank m = Z.of_nat (n1 + length (smalls c done))).
    { rewrite (mf_next _ _ _ _ Hm), length_app, Hn1. done. }
    eexists. split; [done|]. rewrite <- Hnext in Hid. split_and!.
    + rewrite Hsl, Hs, (assoc app). apply maps_for_snoc; [done| |rewrite length_app; lia|done].
      rewrite Hseq by (rewrite length_app; lia). by rewrite <- (mf_next _ _ _ _ Hm).
    + apply (banks_for_insert _ _ (ids_of (drop n1 sh) (smalls c done))); [by rewrite Hbk|done| |done|done].
      rewrite Hsl, Hs, (ids_of_snoc _ _ _ _ _ _ Hid), decide_True by done.
      rewrite ids_of_none; [done|]. intros s (k & Hsk & Hk)%list_elem_of_bind. rewrite (small_slots_core _ _ _ Hsk). by intros ->.
    + intros t Ht'. cbn. by rewrite insert_bank_ids_other, Ho.
  - rewrite bool_decide_eq_false_2 by done. exists m. split; [done|].
    assert (Hnil : small_slots c core = []) by (rewrite Hs; by destruct t).
    split_and!; [by rewrite Hsl, Hnil, app_nil_r| |done].
    apply (banks_for_skip _ _ (ids_of (drop n1 sh) (smalls c done))); [|done|done].
    by rewrite Hbk, bool_decide_eq_false_2.
Qed.

Lemma run_small_walk m0 :
  (n1 + length (smalls c (cores c)) <= length sh)%nat →
  maps_for n1 sh sl1 m0 → core_banks m0 !! L1_SMALL = None →
  ∃ m, for_each (l1_small_core_step c) (cores c) m0 = Ok m ∧ small_walked (core_banks m0) (cores c) m.
Proof.
  intros Hlen H1 H2. apply (for_each_inv _ (small_walked (core_banks m0))).
  - cbn. split_and!; [by rewrite app_nil_r| |done]. intros k. rewrite H2. cbn. by rewrite lookup_empty.
  - intros done core rest m Hcores Hm. by eapply run_small_core_step.
Qed.
End small_walk.
