(* ===== verification/AllocatorInit.v ===== *)
(** * A freshly built allocator

    [L1BankingAllocator] succeeds on every valid configuration; its managers are
    empty, each over its own part of DRAM or L1, and the tables of banks, cores
    and offsets are those of the walk over the grid. *)
From S2P Require Import Prelude FreeList FreeListThms Arith CoreCoord AllocatorAlgorithm FreeListAlgorithm BankManager BankManagerProps Allocator AllocatorL1.

(** ** Counting banks *)
Lemma length_slots c cs :
  (∀ core, core ∈ cs → ∃ t, core_type c core = Ok t) → 0 <= per_core c →
  Z.of_nat (length (slots c (per_core c) cs))
  = Z.of_nat (length (filter (λ core, core_type c core = Ok ComputeAndStore) cs))
    + per_core c * Z.of_nat (length (filter (λ core, core_type c core = Ok StorageOnly) cs)).
Proof.
  intros Ht Hp. induction cs as [|core cs IH]; [cbn; lia|].
  rewrite bind_cons, length_app, !filter_cons, Nat2Z.inj_add, IH by (intros; apply Ht; by right).
  destruct (Ht core ltac:(by left)) as [t Hcore]. unfold core_slots. rewrite Hcore.
  destruct t; repeat case_decide; simplify_eq; rewrite ?length_fmap, ?length_seqZ; cbn [length]; lia.
Qed.

Lemma length_smalls c cs :
  length (smalls c cs) = length (filter (λ core, core_type c core = Ok ComputeAndStore) cs).
Proof.
  induction cs as [|core cs IH]; [done|]. rewrite bind_cons, length_app, filter_cons, IH.
  unfold small_slots. destruct (core_type c core) as [[]|]; case_decide; simplify_eq; done.
Qed.

Lemma run_compute_total c :
  l1_config_ok c →
  compute_total_and_storage_only_num_l1_banks c
  = Ok (mk_num_banks (l1_banks c + small_banks c) (l1_banks c) (small_banks c) (per_core c)).
Proof.
  intros Hc. pose proof (lc_count c Hc) as Hcnt.
  assert (Hnn : 0 <= count_type c ComputeAndStore ∧ 0 <= count_type c StorageOnly) by (unfold count_type; lia).
  pose proof (per_core_nonneg c Hc) as Hp.
  assert (Hsm : 0 <= small_banks c) by (unfold small_banks; destruct (0 <? l1_small_size c); lia).
  unfold compute_total_and_storage_only_num_l1_banks. rewrite (lc_compute c Hc), (lc_storage c Hc). cbv zeta.
  match goal with |- (?m ≫= _) = _ => assert (m = Ok (per_core c)) as -> end.
  { destruct (Z.ltb_spec 0 (count_type c StorageOnly)) as [Hs|Hs].
    - destruct (per_core_spec c Hc Hs) as (b & Hb & Hb0 & Hw & Hr). rewrite Hb. cbn.
      rewrite umod_ok, udiv_ok by lia. cbn. rewrite Hw, Z_mod_mult, Z.div_mul by lia. cbn. by rewrite u32_small by lia.
    - unfold per_core. destruct (storage_core_bank_size c); [|done]. by rewrite (proj2 (Z.ltb_ge _ _)) by lia. }
  cbn. unfold l1_banks in *. fold (small_banks c).
  rewrite (u32_small (per_core c * _)), (u32_small (count_type c ComputeAndStore + _)), u32_small by nia. done.
Qed.

(** ** The parts of L1 *)
Definition l1_bytes (c : AllocatorConfig) : Z := worker_l1_size c - l1_unreserved_base c - l1_small_size c.
(** The interleaved buffers of L1 lie in its top [l1_bank_bytes]. *)
Definition l1_bank_bytes (c : AllocatorConfig) : Z :=
  match storage_core_bank_size c with Some b => b | None => worker_l1_size c - l1_unreserved_base c end.
(** Where the memory of a storage core starts. *)
Definition storage_base (c : AllocatorConfig) : Z := FreeListThms.round_up_to MEM_MAILBOX_BASE (alignment c).
Definition l1_limit (c : AllocatorConfig) : Z := worker_l1_size c - l1_bank_bytes c + storage_base c.

Definition l1_static (c : AllocatorConfig) : bank_static :=
  mk_static L1 (l1_banks c) (l1_limit c) (alignment c)
    (mk_region (l1_unreserved_base c) (l1_bytes c) (alignment c) (alignment c)).
Definition small_static (c : AllocatorConfig) : bank_static :=
  mk_static L1_SMALL (small_banks c) (worker_l1_size c - l1_small_size c) (alignment c)
    (mk_region (l1_unreserved_base c + l1_bytes c) (l1_small_size c) (alignment c) (alignment c)).

Lemma l1_regions_ok c :
  l1_config_ok c → region_ok (st_region (l1_static c)) ∧ region_ok (st_region (small_static c)).
Proof.
  intros Hc. destruct Hc. unfold l1_static, small_static, l1_bytes.
  split; split; cbn; try lia; try done.
  - by apply Z.divide_sub_r; [apply Z.divide_sub_r|].
  - replace (_ + _) with (worker_l1_size c - l1_small_size c) by lia. by apply Z.divide_sub_r.
Qed.

Lemma storage_base_spec c :
  l1_config_ok c → 0 < storage_base c < 16 + alignment c ∧ (alignment c | storage_base c).
Proof.
  intros Hc. pose proof (lc_align c Hc). unfold storage_base.
  destruct (round_up_spec MEM_MAILBOX_BASE (alignment c)) as [? ?]; [lia|]. unfold MEM_MAILBOX_BASE in *. split; [lia|done].
Qed.

Lemma l1_bank_bytes_spec c : l1_config_ok c → 0 <= l1_bank_bytes c <= worker_l1_size c.
Proof.
  intros Hc. pose proof (lc_bank_size c Hc). destruct Hc. unfold l1_bank_bytes.
  destruct (storage_core_bank_size c) as [b|]; [specialize (H b eq_refl)|]; lia.
Qed.

(** ** The tables *)
Definition core_entries (sh : list Z) (sl : list (CoreCoord * Z)) : list (Z * CoreCoord) :=
  (λ p, (p.1, p.2.1)) <$> zip sh sl.
Definition offset_entries (sh : list Z) (sl : list (CoreCoord * Z)) : list (Z * Z) :=
  (λ p, (p.1, p.2.2)) <$> zip sh sl.

Definition l1_slots (c : AllocatorConfig) : list (CoreCoord * Z) := slots c (per_core c) (cores c).
Definition l1_small_slots (c : AllocatorConfig) : list (CoreCoord * Z) :=
  if 0 <? l1_small_size c then smalls c (cores c) else [].

(** The tables of an allocator whose L1 banks are assigned in the order [sh]. *)
Record bank_tables (c : AllocatorConfig) (sh : list Z) (a : Allocator) : Prop := mk_bank_tables {
  bt_ids : sh ≡ₚ seqZ 0 (l1_banks c);
  bt_core : bank_id_to_logical_core a
            = list_to_map (core_entries (sh ++ seqZ (l1_banks c) (small_banks c)) (l1_slots c ++ l1_small_slots c));
  bt_offset : bank_id_to_bank_offset_ (l1_manager a) = list_to_map (offset_entries sh (l1_slots c));
  bt_small_offset : bank_id_to_bank_offset_ (l1_small_manager a)
            = list_to_map (offset_entries (seqZ (l1_banks c) (small_banks c)) (l1_small_slots c));
  bt_l1 : banks_for L1 (banked c) (ids_of sh (l1_slots c)) (cores c) (logical_core_to_bank_ids a);
  bt_small : banks_for L1_SMALL (λ k, (0 <? l1_small_size c) && computes c k)
               (ids_of (seqZ (l1_banks c) (small_banks c)) (l1_small_slots c)) (cores c)
               (logical_core_to_bank_ids a)
}.

(** What [init_compute_and_storage_l1_bank_manager] builds. *)
Record l1_built (c : AllocatorConfig) (a0 a : Allocator) : Prop := mk_l1_built {
  lb_l1 : bm_rep (l1_static c) true (l1_manager a) fresh_bank;
  lb_small : bm_rep (small_static c) true (l1_small_manager a) fresh_bank;
  lb_tables : ∃ sh, bank_tables c sh a;
  lb_dram : dram_manager a = dram_manager a0;
  lb_trace : trace_buffer_manager a = trace_buffer_manager a0;
  lb_channel : bank_id_to_dram_channel a = bank_id_to_dram_channel a0;
  lb_banks : dram_channel_to_bank_ids a = dram_channel_to_bank_ids a0;
  lb_cores : ∀ t, t ≠ L1 → t ≠ L1_SMALL → logical_core_to_bank_ids a !! t = logical_core_to_bank_ids a0 !! t;
  lb_unsafe : allocations_unsafe a = allocations_unsafe a0;
  lb_config : config a = config a0;
  lb_descriptor : descriptor a = descriptor a0
}.

Lemma zip_app_exact (l1 l2 : list Z) (k1 k2 : list (CoreCoord * Z)) :
  length l1 = length k1 → zip (l1 ++ l2) (k1 ++ k2) = zip l1 k1 ++ zip l2 k2.
Proof. intros. by apply zip_with_app. Qed.

Lemma zip_longer (l1 l2 : list Z) (k : list (CoreCoord * Z)) :
  length l1 = length k → zip (l1 ++ l2) k = zip l1 k.
Proof.
  intros H. rewrite <- (app_nil_r k) at 1. rewrite zip_app_exact by done. destruct l2; by rewrite app_nil_r.
Qed.

Lemma fst_zip (l : list Z) (k : list (CoreCoord * Z)) : length l = length k → (zip l k).*1 = l.
Proof. intros H. apply fst_zip. lia. Qed.

Lemma entries_fst (l : list Z) (k : list (CoreCoord * Z)) :
  length l = length k → (core_entries l k).*1 = l ∧ (offset_entries l k).*1 = l.
Proof.
  intros H. unfold core_entries, offset_entries. rewrite <- !list_fmap_compose.
  change (fst ∘ (λ p : Z * (CoreCoord * Z), (p.1, p.2.1))) with (fst : Z * (CoreCoord * Z) → Z).
  change (fst ∘ (λ p : Z * (CoreCoord * Z), (p.1, p.2.2))) with (fst : Z * (CoreCoord * Z) → Z).
  by rewrite fst_zip.
Qed.

Lemma size_offsets (l : list Z) (k : list (CoreCoord * Z)) :
  NoDup l → length l = length k → base.size (list_to_map (offset_entries l k) : gmap Z Z) = length l.
Proof.
  intros Hnd H. destruct (entries_fst l k H) as [_ Hf].
  rewrite map_size_list_to_map by by rewrite Hf. unfold offset_entries. rewrite length_fmap, length_zip_with. lia.
Qed.

Section init.
Context (shuffle : list Z → list Z) (Hshuffle : ∀ l, shuffle l ≡ₚ l).
Context (c : AllocatorConfig) (Hc : l1_config_ok c).

Lemma l1_banks_nonneg : 0 <= l1_banks c ∧ 0 <= small_banks c.
Proof.
  pose proof (per_core_nonneg c Hc). unfold l1_banks, small_banks, count_type.
  split; [lia|]. destruct (0 <? l1_small_size c); lia.
Qed.

Lemma length_l1_slots : length (l1_slots c) = Z.to_nat (l1_banks c).
Proof.
  pose proof (length_slots c (cores c) (lc_typed c Hc) (per_core_nonneg c Hc)) as H.
  unfold l1_slots, l1_banks, count_type. lia.
Qed.

Lemma length_l1_small_slots : length (l1_small_slots c) = Z.to_nat (small_banks c).
Proof.
  unfold l1_small_slots, small_banks. destruct (0 <? l1_small_size c); [|done].
  rewrite length_smalls. unfold count_type. lia.
Qed.

Lemma run_assign_banks :
  ∃ sh, assign_banks shuffle c (l1_banks c) = Ok sh ∧ sh ≡ₚ seqZ 0 (l1_banks c).
Proof.
  unfold assign_banks. case_bool_decide as Hr; [by eexists|].
  destruct (lc_remap c Hc) as [?|Hp]; [done|]. exists (l1_bank_remap c). split; [|done].
  rewrite (Permutation_length Hp), length_seqZ, Z2Nat.id, Z.eqb_refl by apply l1_banks_nonneg. done.
Qed.

Lemma length_assigned sh : sh ≡ₚ seqZ 0 (l1_banks c) → length sh = Z.to_nat (l1_banks c).
Proof. intros Hp. by rewrite Hp, length_seqZ. Qed.

Lemma all_ids_NoDup sh :
  sh ≡ₚ seqZ 0 (l1_banks c) → NoDup (sh ++ seqZ (l1_banks c) (small_banks c)).
Proof.
  intros Hp. rewrite Hp. change (seqZ (l1_banks c)) with (seqZ (0 + l1_banks c)).
  rewrite <- seqZ_app by apply l1_banks_nonneg. apply NoDup_seqZ.
Qed.

Lemma all_ids_length sh :
  sh ≡ₚ seqZ 0 (l1_banks c) →
  length (sh ++ seqZ (l1_banks c) (small_banks c)) = Z.to_nat (l1_banks c + small_banks c).
Proof.
  intros Hp. rewrite length_app, length_assigned, length_seqZ by done. pose proof l1_banks_nonneg. lia.
Qed.

Lemma all_ids_small sh i :
  sh ≡ₚ seqZ 0 (l1_banks c) →
  (Z.to_nat (l1_banks c) <= i < length (sh ++ seqZ (l1_banks c) (small_banks c)))%nat →
  (sh ++ seqZ (l1_banks c) (small_banks c)) !! i = Some (Z.of_nat i).
Proof.
  intros Hp Hi. rewrite all_ids_length in Hi by done. pose proof l1_banks_nonneg.
  rewrite lookup_app_r by (rewrite length_assigned by done; lia). rewrite length_assigned by done.
  apply lookup_seqZ. lia.
Qed.

(** The loop over the cores, and the one for the small banks. *)
Lemma run_walks sh m0 :
  sh ≡ₚ seqZ 0 (l1_banks c) →
  bank_core m0 = ∅ → bank_offsets m0 = ∅ → next_bank m0 = 0 →
  core_banks m0 !! L1 = None → core_banks m0 !! L1_SMALL = None →
  let all := sh ++ seqZ (l1_banks c) (small_banks c) in
  ∃ m small, for_each (l1_core_step c sh (per_core c)) (cores c) m0 = Ok m
    ∧ next_bank m = l1_banks c
    ∧ bank_offsets m = list_to_map (offset_entries sh (l1_slots c))
    ∧ (if 0 <? l1_small_size c then
         for_each (l1_small_core_step c) (cores c) (mk_bank_maps (core_banks m) (bank_core m) ∅ (next_bank m))
       else Ok (mk_bank_maps (core_banks m) (bank_core m) ∅ (next_bank m))) = Ok small
    ∧ bank_offsets small = list_to_map (offset_entries (seqZ (l1_banks c) (small_banks c)) (l1_small_slots c))
    ∧ bank_core small = list_to_map (core_entries all (l1_slots c ++ l1_small_slots c))
    ∧ banks_for L1 (banked c) (ids_of sh (l1_slots c)) (cores c) (core_banks small)
    ∧ banks_for L1_SMALL (λ k, (0 <? l1_small_size c) && computes c k)
        (ids_of (seqZ (l1_banks c) (small_banks c)) (l1_small_slots c)) (cores c) (core_banks small)
    ∧ ∀ t, t ≠ L1 → t ≠ L1_SMALL → core_banks small !! t = core_banks m0 !! t.
Proof.
  intros Hp E1 E2 E3 E4 E5 all. pose proof (all_ids_length sh Hp) as Hlen. fold all in Hlen.
  pose proof (lc_count c Hc) as Hcnt. pose proof l1_banks_nonneg as Hnn. pose proof (length_assigned sh Hp) as Hls.
  pose proof length_l1_slots as Hsl. pose proof length_l1_small_slots as Hss.
  assert (Hdrop : drop (Z.to_nat (l1_banks c)) all = seqZ (l1_banks c) (small_banks c))
    by (unfold all; by rewrite drop_app_length').
  assert (Hzip : zip all (l1_slots c) = zip sh (l1_slots c)) by (apply zip_longer; lia).
  assert (Hpre : ∀ i, (i < length sh)%nat → all !! i = sh !! i) by (intros i Hi; unfold all; by rewrite lookup_app_l).
  destruct (run_l1_walk c Hc all sh ltac:(lia) Hpre ltac:(lia) m0 ltac:(fold (l1_slots c); lia) E1 E2 E3 E4)
    as (m & Hrun & Hm & Hb & Ho).
  fold (l1_slots c) in *. exists m.
  assert (Hids : ids_of all (l1_slots c) = ids_of sh (l1_slots c)) by (unfold ids_of; by rewrite Hzip).
  assert (Hoff : bank_offsets m = list_to_map (offset_entries sh (l1_slots c))).
  { rewrite (mf_offset _ _ _ _ Hm), drop_0, Hzip. done. }
  assert (Hnext : next_bank m = l1_banks c) by (rewrite (mf_next _ _ _ _ Hm), Hsl; lia).
  unfold l1_small_slots in *. destruct (Z.ltb_spec 0 (l1_small_size c)) as [Hpos|Hneg].
  - assert (H0 : maps_for (Z.to_nat (l1_banks c)) all (l1_slots c) (mk_bank_maps (core_banks m) (bank_core m) ∅ (next_bank m))).
    { split; cbn; [by rewrite (mf_next _ _ _ _ Hm)|by rewrite (mf_core _ _ _ _ Hm)|].
      rewrite Hzip, drop_ge; [done|]. rewrite length_zip_with. lia. }
    destruct (run_small_walk c Hc all (Z.to_nat (l1_banks c)) (l1_slots c) Hsl ltac:(lia)
      (λ i, all_ids_small sh i Hp) _ ltac:(lia) H0) as (small & Hrs & Hms & Hbs & Hos); [cbn; by rewrite Ho|].
    + exists small. cbn in Hos. split_and!; try done.
      * rewrite (mf_offset _ _ _ _ Hms). unfold offset_entries. rewrite <- Hdrop.
        rewrite <- (take_drop (Z.to_nat (l1_banks c)) all) at 1. rewrite zip_app_exact by (rewrite length_take; lia).
        rewrite drop_app_length' by (rewrite length_zip_with, length_take; lia). done.
      * by rewrite (mf_core _ _ _ _ Hms).
      * intros k. rewrite Hos by done. by rewrite <- Hids.
      * by rewrite <- Hdrop.
      * intros t H1 H2. rewrite Hos, Ho by done. done.
  - assert (Hz : small_banks c = 0) by (unfold small_banks; by rewrite (proj2 (Z.ltb_ge _ _)) by lia).
    eexists. cbn [length] in *. split_and!; try done; cbn.
    + by rewrite Hz.
    + rewrite app_nil_r. by rewrite (mf_core _ _ _ _ Hm).
    + intros k. by rewrite <- Hids.
    + intros k. rewrite Ho, E5 by done. cbn. by rewrite lookup_empty, andb_false_r.
    + intros t H1 H2. by rewrite Ho.
Qed.

Lemma sizes_of_tables sh :
  sh ≡ₚ seqZ 0 (l1_banks c) →
  Z.of_nat (base.size (list_to_map (offset_entries sh (l1_slots c)) : gmap Z Z)) = l1_banks c
  ∧ Z.of_nat (base.size (list_to_map (offset_entries (seqZ (l1_banks c) (small_banks c)) (l1_small_slots c)) : gmap Z Z))
    = small_banks c.
Proof.
  intros Hp. pose proof l1_banks_nonneg. split.
  - rewrite size_offsets, length_assigned; [lia|done| |].
    + rewrite Hp. apply NoDup_seqZ.
    + by rewrite length_assigned, length_l1_slots.
  - rewrite size_offsets, length_seqZ; [lia|apply NoDup_seqZ|]. by rewrite length_seqZ, length_l1_small_slots.
Qed.

Lemma run_init_compute_and_storage a0 :
  bank_id_to_logical_core a0 = ∅ →
  logical_core_to_bank_ids a0 !! L1 = None → logical_core_to_bank_ids a0 !! L1_SMALL = None →
  ∃ a, init_compute_and_storage_l1_bank_manager shuffle a0 c = Ok a ∧ l1_built c a0 a.
Proof.
  intros E1 E2 E3. destruct l1_banks_nonneg as [Hn1 Hn2]. pose proof (lc_count c Hc).
  destruct run_assign_banks as (sh & Hsh & Hp). destruct (sizes_of_tables sh Hp) as [Hz1 Hz2].
  destruct (run_walks sh (mk_bank_maps (logical_core_to_bank_ids a0) (bank_id_to_logical_core a0) ∅ 0) Hp)
    as (m & small & Hm & Hnext & Hoff & Hsm & Hoffs & Hcore & Hb1 & Hb2 & Ho); [done..|].
  unfold init_compute_and_storage_l1_bank_manager. rewrite (run_compute_total c Hc). cbn. rewrite Hsh. cbn.
  fold (cores c). rewrite Hm. cbn. rewrite Hnext, (length_assigned sh Hp), Z2Nat.id, Z.eqb_refl by done. cbn.
  rewrite Hnext in Hsm.
  match goal with |- ∃ _, (?e ≫= _) = _ ∧ _ => assert (e = Ok small) as -> end.
  { destruct (Z.ltb_spec 0 (l1_small_size c)) as [Hpos|]; [|done].
    rewrite (proj2 (Z.ltb_lt 0 (small_banks c))); [done|].
    unfold small_banks. rewrite (proj2 (Z.ltb_lt _ _) Hpos). by apply (lc_small_compute c Hc). }
  cbn. rewrite Hoff, Hz1, Hoffs, Hz2, !Z.eqb_refl. cbn.
  destruct (storage_base_spec c Hc) as [Hsb _]. pose proof (l1_bank_bytes_spec c Hc) as Hbb.
  destruct (l1_regions_ok c Hc) as [Hr1 Hr2]. pose proof (lc_align c Hc).
  rewrite udiv_ok by lia. cbn. rewrite (u32_small (16 + _ - 1)) by lia.
  change (16 + alignment c - 1) with (MEM_MAILBOX_BASE + alignment c - 1).
  fold (FreeListThms.round_up_to MEM_MAILBOX_BASE (alignment c)). fold (storage_base c).
  pose proof (lc_size c Hc). pose proof (lc_base c Hc). pose proof (lc_small c Hc). pose proof (lc_fits c Hc).
  rewrite (u32_small (storage_base c)) by lia. rewrite (u64_small (worker_l1_size c - l1_unreserved_base c)) by lia.
  fold (l1_bank_bytes c). rewrite (u64_small (_ - l1_bank_bytes c)), (u64_small (_ + storage_base c)) by lia.
  fold (l1_limit c). rewrite (u64_small (_ - l1_small_size c)) by lia. fold (l1_bytes c).
  rewrite (u64_small (l1_bytes c)) by (unfold l1_bytes; lia).
  destruct (run_BankManager_map L1 (list_to_map (offset_entries sh (l1_slots c))) (l1_bytes c) (l1_limit c) (alignment c)
    (l1_unreserved_base c) Hr1) as (b1 & -> & Hb1' & Ho1).
  { rewrite Hz1, u32_small by lia. apply (lc_valid c Hc). }
  cbn. rewrite (u64_small (_ + l1_small_size c)) by lia. rewrite (proj2 (Z.leb_le _ _) (lc_fits c Hc)). cbn.
  rewrite (u64_small (_ + l1_bytes c)) by (unfold l1_bytes; lia).
  destruct (run_BankManager_map L1_SMALL
    (list_to_map (offset_entries (seqZ (l1_banks c) (small_banks c)) (l1_small_slots c))) (l1_small_size c)
    (worker_l1_size c - l1_small_size c) (alignment c) (l1_unreserved_base c + l1_bytes c) Hr2) as (b2 & -> & Hb2' & Ho2).
  { unfold validate_num_banks. by rewrite orb_true_r. }
  cbn. eexists. split; [done|]. rewrite Hz1, u32_small in Hb1' by lia. rewrite Hz2, u32_small in Hb2' by lia.
  split; try done.
  exists sh. by split.
Qed.
End init.

(** ** The constructor *)
Record alloc_config_ok (c : AllocatorConfig) : Prop := mk_alloc_config_ok {
  ac_dram : dram_config_ok c;
  ac_l1 : l1_config_ok c
}.

(** The allocator right after construction. *)
Record allocator_built (c : AllocatorConfig) (a : Allocator) : Prop := mk_allocator_built {
  ab_dram : bm_rep (dram_static c) true (dram_manager a) fresh_bank;
  ab_l1 : bm_rep (l1_static c) true (l1_manager a) fresh_bank;
  ab_small : bm_rep (small_static c) true (l1_small_manager a) fresh_bank;
  ab_trace : bm_rep (trace_static c) true (trace_buffer_manager a) fresh_bank;
  ab_dram_offsets : ∀ k, bank_id_to_bank_offset_ (dram_manager a) !! k = dram_bank_offset c k;
  ab_trace_offsets : ∀ k, bank_id_to_bank_offset_ (trace_buffer_manager a) !! k = dram_bank_offset c k;
  ab_channels : channel_maps (num_dram_channels c) a;
  ab_dram_cores : ∀ t, t = DRAM ∨ t = TRACE → core_map t (num_dram_channels c) a;
  ab_tables : ∃ sh, bank_tables c sh a;
  ab_unsafe : allocations_unsafe a = false;
  ab_config : config a = c;
  ab_descriptor : descriptor a = mk_descriptor base_alloc base_alloc
}.

Lemma l1_banks_pos c : l1_config_ok c → 0 < l1_banks c.
Proof.
  intros Hc. destruct (l1_banks_nonneg c Hc) as [H _]. destruct (Z.eq_dec (l1_banks c) 0) as [Hz|]; [|lia].
  pose proof (lc_valid c Hc) as Hv. by rewrite Hz in Hv.
Qed.

Lemma run_L1BankingAllocator shuffle g c :
  (∀ l, shuffle l ≡ₚ l) → alloc_config_ok c →
  ∃ a, L1BankingAllocator shuffle g c = Ok a ∧ allocator_built c a.
Proof.
  intros Hs [Hd Hl]. unfold L1BankingAllocator, Allocator_new.
  set (a0 := mk_allocator _ _ _ _ _ _ _ _ _ _ _).
  destruct (run_init_one_bank_per_channel c a0 Hd) as (a1 & -> & []); [done..|]. cbn.
  destruct (run_init_compute_and_storage shuffle Hs c Hl a1) as (a2 & -> & [? ? (sh & Ht) ? ? ? ? ? ? ? ?]);
    [done|by apply db_no_l1|by apply db_no_l1|]. cbn.
  assert (Hch : channel_maps (num_dram_channels c) a2) by (destruct db_channels; split; by intros k; rewrite ?lb_channel0, ?lb_banks0).
  assert (H0 : (0 <=? 0) && (0 <? num_dram_channels c) = true).
  { destruct (dc_channels c Hd). by rewrite (proj2 (Z.ltb_lt _ _)) by lia. }
  rewrite (bool_decide_eq_true_2 (bank_id_to_dram_channel a2 ≠ ∅)), (bool_decide_eq_true_2 (dram_channel_to_bank_ids a2 ≠ ∅)).
  2,3: intros E; pose proof (cm_channel _ _ Hch 0) as E1; pose proof (cm_banks _ _ Hch 0) as E2;
    rewrite H0 in E1, E2; rewrite E, lookup_empty in *; done.
  cbn. rewrite bool_decide_eq_true_2.
  2:{ rewrite (bt_core _ _ _ Ht). intros E. apply (f_equal base.size) in E.
      pose proof (l1_banks_pos c Hl) as Hpos. destruct (l1_banks_nonneg c Hl).
      pose proof (length_l1_slots c Hl). pose proof (length_l1_small_slots c).
      pose proof (all_ids_length c Hl sh (bt_ids _ _ _ Ht)) as Hlen.
      destruct (entries_fst (sh ++ seqZ (l1_banks c) (small_banks c)) (l1_slots c ++ l1_small_slots c)) as [Hf _].
      { rewrite Hlen, length_app. lia. }
      rewrite map_size_list_to_map, map_size_empty in E by (rewrite Hf; apply all_ids_NoDup; [done|apply Ht]).
      apply (f_equal length) in Hf. rewrite length_fmap, E, Hlen in Hf. lia. }
  cbn. eexists. split; [done|]. split; rewrite ?lb_dram0, ?lb_trace0; try (done || congruence).
  - intros t Htt k. rewrite lb_cores0 by (by destruct Htt as [->| ->]). by apply db_cores.
  - by exists sh.
  - by rewrite lb_unsafe0, db_unsafe.
  - by rewrite lb_config0, db_config.
  - by rewrite lb_descriptor0, db_descriptor.
Qed.
