(* ===== verification/AllocatorTables.v ===== *)
(** * The allocator refines an abstract machine

    The machine keeps an abstract bank per kind of memory and says what each call
    may return and how the banks change; it leaves open which free block a
    request gets, except that it lies at the end of the free memory the search
    starts from.  [sim] relates a state of the allocator to one of the machine;
    every call of the allocator is a step of the machine. *)
From S2P Require Import Prelude FreeList Arith CoreCoord AllocatorAlgorithm FreeListAlgorithm BankManager BankManagerProps Allocator AllocatorOps AllocatorL1 AllocatorInit.
(** ** Calls *)
Inductive call :=
| AllocateBuffer (size page_size : Z) (t : BufferType) (bottom_up : bool) (num_shards : option Z)
| DeallocateBuffer (address : Z) (t : BufferType)
| DeallocateBuffers
| ClearAll
| MarkAllocations (unsafe : bool).

Definition run_call (visit : gset Z → list Z) (k : call) : ST Allocator (option Z) :=
  match k with
  | AllocateBuffer size page_size t bottom_up num_shards =>
    a ← allocate_buffer size page_size t bottom_up num_shards; mret (Some a)
  | DeallocateBuffer address t => _ ← deallocate_buffer address t; mret None
  | DeallocateBuffers => _ ← deallocate_buffers visit; mret None
  | ClearAll => _ ← clear; mret None
  | MarkAllocations u => _ ← (if u then mark_allocations_unsafe else mark_allocations_safe); mret None
  end.

(** What each call of a list returns, and the state at the end. *)
Fixpoint run_calls (visit : gset Z → list Z) (ks : list call) (a : Allocator)
  : list (outcome (option Z)) * Allocator :=
  match ks with
  | [] => ([], a)
  | k :: ks =>
    let '(r, a) := run_call visit k a in let '(rs, a) := run_calls visit ks a in (r :: rs, a)
  end.

(** ** The machine *)
Definition machine : Type := BufferType → abank.
Definition upd (M : machine) (t : BufferType) (s : abank) : machine := λ t', if decide (t' = t) then s else M t'.

(** What the managers were built with; there is none for system memory. *)
Definition static_of (c : AllocatorConfig) (t : BufferType) : bank_static :=
  match t with
  | DRAM | SYSTEM_MEMORY => dram_static c
  | L1 => l1_static c
  | L1_SMALL => small_static c
  | TRACE => trace_static c
  end.
Abbreviation region_of c t := (st_region (static_of c t)).

Definition some_address (o : outcome Z) : outcome (option Z) :=
  match o with Ok a => Ok (Some a) | Err e => Err e end.

Inductive step (c : AllocatorConfig) : call → outcome (option Z) → machine → machine → Prop :=
| step_alloc_system size page_size bu shards M :
    step c (AllocateBuffer size page_size SYSTEM_MEMORY bu shards) (Err TT_THROW) M M
| step_alloc_small size page_size bu M :
    step c (AllocateBuffer size page_size L1_SMALL bu None) (Err TT_FATAL) M M
| step_alloc_rejected size page_size t bu shards e M :
    t ≠ SYSTEM_MEMORY → (t = L1_SMALL → shards ≠ None) →
    request (static_of c t) (compute_grid_size c) size page_size shards = Err e →
    step c (AllocateBuffer size page_size t bu shards) (Err e) M M
| step_alloc size page_size t bu shards n limit o s M :
    t ≠ SYSTEM_MEMORY → (t = L1_SMALL → shards ≠ None) →
    request (static_of c t) (compute_grid_size c) size page_size shards = Ok (n, limit) →
    bank_alloc (region_of c t) bu limit (block_size (region_of c t) n) (M t) o s →
    step c (AllocateBuffer size page_size t bu shards) (some_address o) M (upd M t s)
| step_free_system a M : step c (DeallocateBuffer a SYSTEM_MEMORY) (Err TT_THROW) M M
| step_free a t M :
    t ≠ SYSTEM_MEMORY → step c (DeallocateBuffer a t) (Ok None) M (upd M t (bank_free a (M t)))
| step_free_all M M' :
    (∀ t, t ≠ SYSTEM_MEMORY → M' t = bank_free_all (M t)) → step c DeallocateBuffers (Ok None) M M'
| step_clear M M' :
    (∀ t, t ≠ SYSTEM_MEMORY → M' t = bank_clear (M t)) → step c ClearAll (Ok None) M M'
| step_mark u M : step c (MarkAllocations u) (Ok None) M M.

(** A run of the machine: calls, what they return, the state at the end. *)
Inductive steps (c : AllocatorConfig) : list call → list (outcome (option Z)) → machine → machine → Prop :=
| steps_nil M : steps c [] [] M M
| steps_cons k ks r rs M M1 M2 :
    step c k r M M1 → steps c ks rs M1 M2 → steps c (k :: ks) (r :: rs) M M2.

(** A call whose arguments do not overflow the address arithmetic. *)
Definition valid_call (c : AllocatorConfig) (k : call) : Prop :=
  match k with
  | AllocateBuffer size page_size t _ shards =>
    ∀ n limit, request (static_of c t) (compute_grid_size c) size page_size shards = Ok (n, limit) →
               request_ok (region_of c t) n
  | DeallocateBuffer a _ => in_range 64 a
  | _ => True
  end.

(** ** Simulation *)
Record sim (c : AllocatorConfig) (a : Allocator) (M : machine) : Prop := mk_sim {
  sim_banks : ∀ t b, manager_of a t = Ok b → bm_rep (static_of c t) false b (M t);
  sim_config : config a = c;
  sim_descriptor : descriptor a = mk_descriptor base_alloc base_alloc
}.

Lemma built_sim c a : allocator_built c a → sim c a (λ _, fresh_bank).
Proof. intros []. split; try done. intros [] b; intros [= <-]; by apply bm_rep_weaken. Qed.

Lemma manager_set a t b t' :
  t ≠ SYSTEM_MEMORY → manager_of (set_manager t b a) t' = if decide (t' = t) then Ok b else manager_of a t'.
Proof. by destruct t, t'. Qed.

Lemma manager_exists a t : t ≠ SYSTEM_MEMORY → ∃ b, manager_of a t = Ok b.
Proof. destruct t; try done; by eexists. Qed.

Lemma set_manager_other a t b :
  config (set_manager t b a) = config a ∧ descriptor (set_manager t b a) = descriptor a.
Proof. by destruct t. Qed.

(** A call to the manager of [t] that is a step of its abstract bank. *)
Lemma sim_on_manager {B} c a M t (f : ST (BankManager FreeList) B) b r b' s :
  sim c a M → manager_of a t = Ok b → f b = (r, b') → bm_rep (static_of c t) false b' s →
  ∃ a', on_manager t f a = (r, a') ∧ sim c a' (upd M t s).
Proof.
  intros [Hb Hc Hd] Hm Hf Hs. unfold on_manager. rewrite Hm, Hf. eexists. split; [done|].
  destruct (set_manager_other a t b') as [E1 E2]. split; [|by rewrite E1|by rewrite E2].
  intros t' bt. rewrite manager_set by (by intros ->). unfold upd. case_decide as Heq; [subst; by intros [= <-]|apply Hb].
Qed.

Lemma upd_same M t s : upd M t s t = s.
Proof. unfold upd. by rewrite decide_True. Qed.
Lemma upd_other M t s t' : t' ≠ t → upd M t s t' = M t'.
Proof. intros. unfold upd. by rewrite decide_False. Qed.

(** The machines of [sim] matter only up to pointwise equality. *)
Lemma sim_ext c a M M' : (∀ t, t ≠ SYSTEM_MEMORY → M t = M' t) → sim c a M → sim c a M'.
Proof.
  intros HM [Hb Hc Hd]. split; try done. intros t b Ht. rewrite <- HM by (by intros ->). by apply Hb.
Qed.

(** One operation on each of the four managers. *)
Lemma sim_each c a M (f : ST (BankManager FreeList) unit) (g : abank → abank) :
  sim c a M →
  (∀ t b s, bm_rep (static_of c t) false b s → ∃ b', f b = (Ok tt, b') ∧ bm_rep (static_of c t) false b' (g s)) →
  ∃ a', (_ ← on_manager DRAM f; _ ← on_manager L1 f; _ ← on_manager L1_SMALL f; on_manager TRACE f) a = (Ok tt, a')
    ∧ sim c a' (λ t, g (M t)).
Proof.
  intros Hs Hf.
  assert (Hone : ∀ a M t, sim c a M → t ≠ SYSTEM_MEMORY →
    ∃ a', on_manager t f a = (Ok tt, a') ∧ sim c a' (upd M t (g (M t)))).
  { intros a1 M1 t H1 Ht. destruct (manager_exists a1 t Ht) as [b Hb].
    destruct (Hf t b (M1 t) (sim_banks _ _ _ H1 t b Hb)) as (b' & Hrun & Hb'). by eapply sim_on_manager. }
  destruct (Hone a M DRAM Hs) as (a1 & R1 & H1); [done|]. st_step R1.
  destruct (Hone _ _ L1 H1) as (a2 & R2 & H2); [done|]. st_step R2.
  destruct (Hone _ _ L1_SMALL H2) as (a3 & R3 & H3); [done|]. st_step R3.
  destruct (Hone _ _ TRACE H3) as (a4 & R4 & H4); [done|]. exists a4. split; [done|].
  eapply sim_ext; [|exact H4]. intros t Ht. unfold upd. by destruct t.
Qed.

Lemma run_alloc c a M size page_size t bu shards :
  sim c a M → valid_call c (AllocateBuffer size page_size t bu shards) →
  ∃ o a' M', allocate_buffer size page_size t bu shards a = (o, a')
    ∧ step c (AllocateBuffer size page_size t bu shards) (some_address o) M M' ∧ sim c a' M'.
Proof.
  intros Hs Hv. pose proof (sim_config _ _ _ Hs) as Hcfg. pose proof (sim_descriptor _ _ _ Hs) as Hd.
  assert (Hgo : t ≠ SYSTEM_MEMORY → (t = L1_SMALL → shards ≠ None) →
    ∃ o a' M', on_manager t (base_alloc (config a) size page_size bu shards) a = (o, a')
      ∧ step c (AllocateBuffer size page_size t bu shards) (some_address o) M M' ∧ sim c a' M').
  { intros Ht Hsm. destruct (manager_exists a t Ht) as [b Hb]. pose proof (sim_banks _ _ _ Hs t b Hb) as Hrep.
    rewrite Hcfg. unfold base_alloc. simpl in Hv.
    destruct (request (static_of c t) (compute_grid_size c) size page_size shards) as [[n limit]|e] eqn:Hreq.
    - destruct (run_allocate_buffer _ _ _ _ _ _ bu _ _ _ _ Hrep Hreq (Hv n limit eq_refl)) as (o & b' & s' & Hrun & Hal & Hrep').
      destruct (sim_on_manager _ _ _ _ _ _ _ _ _ Hs Hb Hrun Hrep') as (a' & Ha' & Hs').
      exists o, a', (upd M t s'). split_and!; [done|by eapply step_alloc|done].
    - pose proof (run_allocate_err _ _ _ _ _ _ bu _ _ _ Hrep Hreq) as Hrun.
      destruct (sim_on_manager _ _ _ _ _ _ _ _ _ Hs Hb Hrun Hrep) as (a' & Ha' & Hs').
      exists (Err e), a', M. split_and!; [done|by apply step_alloc_rejected|].
      eapply sim_ext; [|exact Hs']. intros t' _. unfold upd. case_decide; by subst. }
  unfold allocate_buffer. rewrite run_get, Hd. cbn [dram_alloc l1_alloc].
  destruct t; try (by apply Hgo).
  - exists (Err TT_THROW), a, M. split_and!; [done|apply step_alloc_system|done].
  - destruct shards as [n|].
    + rewrite run_check by done. by apply Hgo.
    + exists (Err TT_FATAL), a, M. split_and!; [done|apply step_alloc_small|done].
Qed.

(** Every call is a step of the machine. *)
Lemma run_call_step visit c a M k :
  (∀ l, visit l ≡ₚ elements l) → sim c a M → valid_call c k →
  ∃ r a' M', run_call visit k a = (r, a') ∧ step c k r M M' ∧ sim c a' M'.
Proof.
  intros Hvis Hs Hv. destruct k as [size page_size t bu shards|addr t| | |u]; cbn [run_call].
  - destruct (run_alloc _ _ _ _ _ _ bu _ Hs Hv) as (o & a' & M' & Hrun & Hst & Hs').
    exists (some_address o), a', M'. split_and!; [|done|done]. unfold mbind, ST_bind. rewrite Hrun. by destruct o.
  - destruct (decide (t = SYSTEM_MEMORY)) as [->|Ht].
    + exists (Err TT_THROW), a, M. split_and!; [done|constructor|done].
    + destruct (manager_exists a t Ht) as [b Hb].
      destruct (run_deallocate_buffer _ _ _ _ addr (sim_banks _ _ _ Hs t b Hb) Hv) as (b' & Hrun & Hrep).
      destruct (sim_on_manager _ _ _ _ _ _ _ _ _ Hs Hb Hrun Hrep) as (a' & Ha' & Hs').
      unfold deallocate_buffer. st_step Ha'. eexists _, _, _. split_and!; [done|by constructor|done].
  - destruct (sim_each c a M (deallocate_all visit) bank_free_all Hs) as (a' & Hrun & Hs').
    { intros t b s Hb. by apply run_deallocate_all. }
    unfold deallocate_buffers. st_step Hrun. eexists _, _, _. split_and!; [done|by constructor|done].
  - destruct (sim_each c a M BankManager.clear bank_clear Hs) as (a' & Hrun & Hs').
    { intros t b s Hb. by eapply run_bank_clear. }
    unfold clear. st_step Hrun. eexists _, _, _. split_and!; [done|by constructor|done].
  - eexists (Ok None), _, M. split_and!; [by destruct u|constructor|].
    destruct Hs as [Hb Hc Hd]. split; [|done|done]. intros t b Ht. apply Hb. by destruct t.
Qed.

Lemma run_calls_steps visit c ks a M :
  (∀ l, visit l ≡ₚ elements l) → sim c a M → Forall (valid_call c) ks →
  ∃ rs a' M', run_calls visit ks a = (rs, a') ∧ steps c ks rs M M' ∧ sim c a' M'.
Proof.
  intros Hvis. revert a M; induction ks as [|k ks IH]; intros a M Hs Hv; [by exists [], a, M; split_and!; [|constructor|]|].
  apply Forall_cons in Hv as [Hk Hks]. destruct (run_call_step visit c a M k Hvis Hs Hk) as (r & a1 & M1 & Hrun & Hst & Hs1).
  destruct (IH a1 M1 Hs1 Hks) as (rs & a2 & M2 & Hrun2 & Hst2 & Hs2).
  exists (r :: rs), a2, M2. cbn [run_calls]. rewrite Hrun, Hrun2. split_and!; [done|by econstructor|done].
Qed.

(** * The tables of banks, cores and offsets

    No operation changes the tables, and the tables of a valid configuration are
    consistent: every bank has one core, every core has its banks, and the
    offsets are those of the banks' positions. *)
(** ** No operation changes the tables *)
Definition keeps {S T B} (obs : S → T) (f : ST S B) : Prop := ∀ s, obs (f s).2 = obs s.

Section keeps.
Context {S T : Type} (obs : S → T).

Lemma keeps_ret {B} (r : B) : keeps obs (mret r).
Proof. done. Qed.
Lemma keeps_get : keeps obs get_st.
Proof. done. Qed.
Lemma keeps_lift {B} (o : outcome B) : keeps obs (lift_st o).
Proof. done. Qed.
Lemma keeps_check b e : keeps obs (check_st b e).
Proof. done. Qed.
Lemma keeps_throw {B} e : keeps obs (throw_st e : ST S B).
Proof. done. Qed.
Lemma keeps_modify (f : S → S) : (∀ s, obs (f s) = obs s) → keeps obs (modify_st f).
Proof. intros Hf s. apply Hf. Qed.
Lemma keeps_bind {B D} (m : ST S B) (k : B → ST S D) :
  keeps obs m → (∀ b, keeps obs (k b)) → keeps obs (m ≫= k).
Proof.
  intros Hm Hk s. unfold mbind, ST_bind. specialize (Hm s). destruct (m s) as [[b|e] s1]; [|done].
  cbn in Hm. by rewrite Hk.
Qed.
End keeps.

#[export] Hint Resolve keeps_ret keeps_get keeps_lift keeps_check keeps_throw keeps_modify keeps_bind : cpp.

Abbreviation keeps_offsets f := (keeps bank_id_to_bank_offset_ f).

Section manager.
Context {A : Type} `{Algorithm.Algorithm A}.

Lemma keeps_with_allocator {B} (f : ST A B) : keeps_offsets (with_allocator f).
Proof. intros b. unfold with_allocator. destruct (allocator_ b) as [a|]; [|done]. by destruct (f a). Qed.
#[local] Hint Resolve keeps_with_allocator : cpp.

Lemma keeps_allocate size page_size bu grid shards :
  keeps_offsets (BankManager.allocate_buffer (A := A) size page_size bu grid shards).
Proof.
  unfold BankManager.allocate_buffer. repeat (apply keeps_bind; [solve [auto with cpp]|intros ?]).
  case_match; auto with cpp.
Qed.

Lemma keeps_deallocate_all visit : keeps_offsets (deallocate_all (A := A) visit).
Proof.
  apply keeps_bind; [auto with cpp|]. intros b. generalize (visit (allocated_buffers_ b)) as l.
  induction l as [|a l IH]; cbn [deallocate_each]; [auto with cpp|]. apply keeps_bind; auto with cpp.
Qed.

Lemma keeps_clear : keeps_offsets (BankManager.clear (A := A)).
Proof. apply keeps_bind; [auto with cpp|]. intros b. case_match; auto with cpp. Qed.
End manager.

(** Everything about banks that the lookups read. *)
Definition tables (a : Allocator) :=
  (bank_id_to_dram_channel a, dram_channel_to_bank_ids a, bank_id_to_logical_core a, logical_core_to_bank_ids a,
   (bank_id_to_bank_offset_ (dram_manager a), bank_id_to_bank_offset_ (l1_manager a),
    bank_id_to_bank_offset_ (l1_small_manager a), bank_id_to_bank_offset_ (trace_buffer_manager a))).

Lemma keeps_on_manager {B} t (f : ST (BankManager FreeList) B) : keeps_offsets f → keeps tables (on_manager t f).
Proof.
  intros Hf a. unfold on_manager. destruct (manager_of a t) as [b|e] eqn:Hm; [|done].
  specialize (Hf b). destruct (f b) as [r b']. cbn in *. unfold tables. by destruct t; simplify_eq/=; rewrite Hf.
Qed.

Lemma keeps_base_alloc t c size page_size bu shards :
  keeps tables (on_manager t (base_alloc c size page_size bu shards)).
Proof. apply keeps_on_manager, keeps_allocate. Qed.
Lemma keeps_free t a : keeps tables (on_manager t (BankManager.deallocate_buffer a)).
Proof. apply keeps_on_manager, keeps_with_allocator. Qed.
Lemma keeps_free_all t visit : keeps tables (on_manager t (deallocate_all visit)).
Proof. apply keeps_on_manager, keeps_deallocate_all. Qed.
Lemma keeps_clear_all t : keeps tables (on_manager t BankManager.clear).
Proof. apply keeps_on_manager, keeps_clear. Qed.
#[local] Hint Resolve keeps_free keeps_free_all keeps_clear_all : cpp.

Lemma keeps_run_call visit k a :
  descriptor a = mk_descriptor base_alloc base_alloc → tables (run_call visit k a).2 = tables a.
Proof.
  intros Hd. destruct k as [size page_size t bu shards|addr t| | |u]; cbn [run_call].
  - assert (Ha : tables (allocate_buffer size page_size t bu shards a).2 = tables a).
    { unfold allocate_buffer. rewrite run_get, Hd. cbn [dram_alloc l1_alloc].
      destruct t; try done; try apply keeps_base_alloc. unfold mbind, ST_bind, check_st.
      destruct shards as [n|]; [apply keeps_base_alloc|done]. }
    unfold mbind, ST_bind. by destruct (allocate_buffer _ _ _ _ _ a) as [[r|e] a1].
  - apply (keeps_bind tables (deallocate_buffer addr t)); [apply keeps_free|auto with cpp].
  - apply (keeps_bind tables (deallocate_buffers visit)); [|auto with cpp].
    repeat (apply keeps_bind; [apply keeps_free_all|intros _]). apply keeps_free_all.
  - apply (keeps_bind tables clear); [|auto with cpp].
    repeat (apply keeps_bind; [apply keeps_clear_all|intros _]). apply keeps_clear_all.
  - by destruct u.
Qed.

(** ** Reachable states *)
Definition machine_wf (c : AllocatorConfig) (M : machine) : Prop :=
  ∀ t, t ≠ SYSTEM_MEMORY → wf_live (region_of c t) (ab_live (M t)).

(** The states that valid calls on a new allocator reach. *)
Definition reachable (c : AllocatorConfig) (a : Allocator) : Prop :=
  ∃ shuffle g visit a0 ks,
    (∀ l, shuffle l ≡ₚ l) ∧ (∀ l, visit l ≡ₚ elements l)
    ∧ L1BankingAllocator shuffle g c = Ok a0 ∧ Forall (valid_call c) ks
    ∧ (run_calls visit ks a0).2 = a.

Lemma sim_wf c a M : sim c a M → machine_wf c M.
Proof.
  intros Hs t Ht. destruct (manager_exists a t Ht) as [b Hb].
  by destruct (bm_rep_wf _ _ _ _ (sim_banks _ _ _ Hs t b Hb)).
Qed.

Lemma run_calls_tables visit c ks a M :
  (∀ l, visit l ≡ₚ elements l) → sim c a M → Forall (valid_call c) ks →
  tables (run_calls visit ks a).2 = tables a.
Proof.
  intros Hvis. revert a M; induction ks as [|k ks IH]; intros a M Hs Hv; [done|].
  apply Forall_cons in Hv as [Hk Hks]. cbn [run_calls].
  destruct (run_call_step visit c a M k Hvis Hs Hk) as (r & a1 & M1 & Hrun & _ & Hs1).
  pose proof (keeps_run_call visit k a (sim_descriptor _ _ _ Hs)) as Ht. rewrite Hrun in Ht |- *. cbn in Ht.
  specialize (IH a1 M1 Hs1 Hks). destruct (run_calls visit ks a1) as [rs a2]. cbn in *. congruence.
Qed.

Lemma reachable_spec c a :
  alloc_config_ok c → reachable c a →
  ∃ M a0, sim c a M ∧ allocator_built c a0 ∧ tables a = tables a0.
Proof.
  intros Hc (shuffle & g & visit & a0 & ks & Hsh & Hvis & Hnew & Hks & <-).
  destruct (run_L1BankingAllocator shuffle g c Hsh Hc) as (a0' & Hnew' & Hb).
  rewrite Hnew in Hnew'. injection Hnew' as <-. pose proof (built_sim _ _ Hb) as Hs.
  pose proof (run_calls_tables visit c ks a0 _ Hvis Hs Hks) as Ht.
  destruct (run_calls_steps visit c ks a0 _ Hvis Hs Hks) as (rs & a1 & M1 & Hrun & _ & Hs1).
  rewrite Hrun in Ht |- *. by exists M1, a0.
Qed.

(** ** Reading the tables *)
Lemma bank_tables_eq c sh a a0 : tables a = tables a0 → bank_tables c sh a0 → bank_tables c sh a.
Proof. unfold tables. intros [= ? ? H1 H2 ? H3 H4 ?] []. split; by rewrite ?H1, ?H2, ?H3, ?H4. Qed.

(** The entries of [core] among the banks [sh] of the slots [sl]. *)
Definition entries_of (sh : list Z) (sl : list (CoreCoord * Z)) (core : CoreCoord) : list (Z * (CoreCoord * Z)) :=
  filter (λ p, p.2.1 = core) (zip sh sl).

Lemma entries_snd sh sl core :
  length sh = length sl → (entries_of sh sl core).*2 = filter (λ s, s.1 = core) sl.
Proof.
  unfold entries_of. revert sh; induction sl as [|s sl IH]; intros [|i sh] H; simpl in *; try done.
  rewrite !filter_cons. simpl. case_decide; simpl; by rewrite IH by lia.
Qed.

Section filter_slots.
Context (f : CoreCoord → list (CoreCoord * Z)) (Hf : ∀ k s, s ∈ f k → s.1 = k).

Lemma filter_core_slots core k : filter (λ s, s.1 = core) (f k) = if decide (k = core) then f k else [].
Proof.
  specialize (Hf k). induction (f k) as [|s l IH]; [by case_decide|].
  rewrite filter_cons, IH by (intros; apply Hf; by right). rewrite (Hf s) by by left. by repeat case_decide.
Qed.

Lemma filter_slots_none cs core : core ∉ cs → filter (λ s, s.1 = core) (cs ≫= f) = [].
Proof.
  induction cs as [|k cs IH]; [done|]. intros [Hne Hin]%not_elem_of_cons.
  by rewrite bind_cons, filter_app, filter_core_slots, decide_False, IH.
Qed.

Lemma filter_slots cs core : NoDup cs → core ∈ cs → filter (λ s, s.1 = core) (cs ≫= f) = f core.
Proof.
  induction 1 as [|k cs Hk Hnd IH]; [by intros ?%elem_of_nil|].
  rewrite bind_cons, filter_app, filter_core_slots. intros [->|Hin]%elem_of_cons.
  - by rewrite decide_True, filter_slots_none, app_nil_r.
  - rewrite IH by done. by rewrite decide_False by (by intros ->).
Qed.
End filter_slots.

(** Position [i]: bank [sh !! i] is on the core of slot [i], at its offset. *)
Section entries.
Context (sh : list Z) (sl : list (CoreCoord * Z)) (Hlen : length sh = length sl) (Hnd : NoDup sh).

Lemma entry_core id core o :
  (id, (core, o)) ∈ zip sh sl → (list_to_map (core_entries sh sl) : gmap Z CoreCoord) !! id = Some core.
Proof.
  intros Hin. apply elem_of_list_to_map.
  - by rewrite (proj1 (entries_fst sh sl Hlen)).
  - unfold core_entries. apply list_elem_of_fmap. by exists (id, (core, o)).
Qed.

Lemma entry_offset id core o :
  (id, (core, o)) ∈ zip sh sl → (list_to_map (offset_entries sh sl) : gmap Z Z) !! id = Some o.
Proof.
  intros Hin. apply elem_of_list_to_map.
  - by rewrite (proj2 (entries_fst sh sl Hlen)).
  - unfold offset_entries. apply list_elem_of_fmap. by exists (id, (core, o)).
Qed.

Lemma ids_of_entry id core : id ∈ ids_of sh sl core ↔ ∃ o, (id, (core, o)) ∈ zip sh sl.
Proof.
  unfold ids_of. rewrite list_elem_of_fmap. split.
  - intros ([id' [core' o]] & -> & [Hc Hin]%list_elem_of_filter). cbn in *. subst. by exists o.
  - intros (o & Hin). exists (id, (core, o)). split; [done|]. by apply list_elem_of_filter.
Qed.

Lemma entry_exists id : id ∈ sh → ∃ core o, (id, (core, o)) ∈ zip sh sl.
Proof.
  intros (i & Hi)%list_elem_of_lookup. pose proof (lookup_lt_Some _ _ _ Hi).
  destruct (lookup_lt_is_Some_2 sl i) as [[core o] Ho]; [lia|]. exists core, o.
  apply list_elem_of_lookup. exists i. apply lookup_zip_with_Some. eauto.
Qed.

(** The banks of a core, in order, with their offsets. *)
Lemma ids_of_offsets core k id :
  ids_of sh sl core !! k = Some id →
  ∃ o, filter (λ s, s.1 = core) sl !! k = Some (core, o) ∧ (id, (core, o)) ∈ zip sh sl.
Proof.
  unfold ids_of. fold (entries_of sh sl core). rewrite list_lookup_fmap, fmap_Some.
  intros ([id' [core' o]] & Hk & ->). pose proof (list_elem_of_lookup_2 _ _ _ Hk) as [Hc Hin]%list_elem_of_filter.
  cbn in *. subst core'. exists o. split; [|done].
  by rewrite <- (entries_snd sh sl core Hlen), list_lookup_fmap, Hk.
Qed.

Lemma length_ids_of core : length (ids_of sh sl core) = length (filter (λ s, s.1 = core) sl).
Proof. rewrite <- (entries_snd sh sl core Hlen). unfold ids_of, entries_of. by rewrite !length_fmap. Qed.

Lemma NoDup_ids_of core : NoDup (ids_of sh sl core).
Proof.
  unfold ids_of. apply (sublist_NoDup _ sh); [done|].
  rewrite <- (fst_zip sh sl Hlen) at 2. apply fmap_sublist, sublist_filter.
Qed.
End entries.
