(* ===== verification/AllocatorProps.v ===== *)
(** * What the users of the device allocator rely on *)
From S2P Require Import Prelude FreeList Arith CoreCoord AllocatorAlgorithm FreeListAlgorithm BankManager BankManagerProps Allocator AllocatorOps AllocatorL1 AllocatorInit AllocatorTables.

(** ** A small device: four compute cores and two storage cores of two banks *)
Definition demo_config : AllocatorConfig :=
  mk_config 2 1073741824 [0; 536870912] 1024 98304 (mk_coord 3 2) 1048576 (Some 524288) 32768 65536
    (list_to_map [(mk_coord 1 1, ComputeAndStore); (mk_coord 2 1, ComputeAndStore); (mk_coord 3 1, ComputeAndStore);
                  (mk_coord 1 2, ComputeAndStore); (mk_coord 2 2, StorageOnly); (mk_coord 3 2, StorageOnly);
                  (mk_coord 0 0, Invalid)])
    (list_to_map [(0, 1); (1, 2); (2, 3)]) (list_to_map [(0, 1); (1, 2)]) [] (mk_coord 3 1) 32.

Definition demo_garbage : BufferType → garbage := λ t, mk_garbage t 7 5.
Definition demo_allocator : outcome Allocator := L1BankingAllocator (@reverse Z) demo_garbage demo_config.
Definition demo_state : Allocator :=
  ret_or (mk_allocator false (BankManager_default (demo_garbage DRAM)) (BankManager_default (demo_garbage L1))
    (BankManager_default (demo_garbage L1_SMALL)) (BankManager_default (demo_garbage TRACE)) ∅ ∅ ∅ ∅ demo_config
    (mk_descriptor base_alloc base_alloc)) demo_allocator.


Lemma divides_demo n : n mod 32 = 0 → (32 | n).
Proof. intros. by apply Z.mod_divide. Qed.

Lemma demo_dram_ok : dram_config_ok demo_config.
Proof.
  constructor; cbn [demo_config num_dram_channels dram_bank_offsets length alignment dram_unreserved_base
    trace_region_size dram_bank_size]; try lia; try (by apply divides_demo). reflexivity.
Qed.

Lemma demo_l1_ok : l1_config_ok demo_config.
Proof.
  constructor.
  - intros core Hin. destruct (core_type demo_config core) as [t|] eqn:E; [by exists t|]. exfalso. revert E.
    assert (Hall : forallb (λ k, match core_type demo_config k with Ok _ => true | Err _ => false end) (cores demo_config) = true)
      by (vm_compute; reflexivity).
    rewrite forallb_forall in Hall. specialize (Hall core). rewrite <- list_elem_of_In in Hall. specialize (Hall Hin).
    by destruct (core_type demo_config core).
  - vm_compute. reflexivity.
  - vm_compute. reflexivity.
  - intros _. exists 524288. split; [reflexivity|]. by exists 2.
  - intros b [= <-]. by split.
  - vm_compute. reflexivity.
  - vm_compute. reflexivity.
  - by left.
  - by split.
  - reflexivity.
  - by vm_compute.
  - by vm_compute.
  - by vm_compute.
  - intros _. vm_compute. reflexivity.
  - by apply divides_demo.
  - by apply divides_demo.
  - by apply divides_demo.
Qed.

Lemma demo_config_ok : alloc_config_ok demo_config.
Proof. split; [apply demo_dram_ok|apply demo_l1_ok]. Qed.

Lemma perm_reverse (l : list Z) : reverse l ≡ₚ l.
Proof. apply reverse_Permutation. Qed.

Lemma demo_state_eq : L1BankingAllocator (@reverse Z) demo_garbage demo_config = Ok demo_state.
Proof.
  destruct (run_L1BankingAllocator _ demo_garbage demo_config perm_reverse demo_config_ok) as (a & Ha & _).
  unfold demo_state, demo_allocator. by rewrite Ha.
Qed.

(** The calls of the witnesses: buffers of every kind, an interleaved buffer too
    large for the storage banks, and a deallocation. *)
Definition demo_calls : list call :=
  [AllocateBuffer 8192 1024 L1 false None; AllocateBuffer 8192 1024 L1 false (Some 3);
   AllocateBuffer 557056 557056 L1 false None; AllocateBuffer 4096 2048 DRAM true None;
   AllocateBuffer 4096 2048 TRACE false None; AllocateBuffer 64 64 L1_SMALL false (Some 1);
   DeallocateBuffer 1014784 L1; AllocateBuffer 1024 1024 L1 false None].

(** A test for [valid_call]. *)
Definition valid_callb (c : AllocatorConfig) (k : call) : bool :=
  match k with
  | AllocateBuffer size page_size t _ shards =>
    match request (static_of c t) (compute_grid_size c) size page_size shards with
    | Ok (n, _) => (0 <=? n) && (Z.max n (r_min (region_of c t)) + r_gran (region_of c t) <=? 18446744073709551616)
    | Err _ => true
    end
  | DeallocateBuffer a _ => (0 <=? a) && (a <? 18446744073709551616)
  | _ => true
  end.

Lemma alloc_callb_sound c k : valid_callb c k = true → valid_call c k.
Proof.
  destruct k; simpl; try done.
  - intros H n limit Hr. rewrite Hr in H. apply andb_true_iff in H as [?%Z.leb_le ?%Z.leb_le]. by split.
  - intros [?%Z.leb_le ?%Z.ltb_lt]%andb_true_iff. by split.
Qed.

Lemma valid_calls_sound c ks : forallb (valid_callb c) ks = true → Forall (valid_call c) ks.
Proof.
  induction ks as [|k ks IH]; simpl; [constructor|]. intros [Hk Hks]%andb_true_iff.
  constructor; [by apply alloc_callb_sound|by apply IH].
Qed.

(** ** Refinement *)

(** C23: the allocator refines the abstract machine of [AllocatorTables].  On
    every valid configuration, whatever permutation [std::shuffle] computes and
    whatever order sets are visited in, the constructor returns an allocator,
    every list of valid calls on it terminates, and what the calls return is a
    run of the machine: each allocation gets free, aligned memory of its region,
    next to the end the search starts from, or fails as the machine allows. *)
Theorem allocator_refines shuffle visit g c :
  (∀ l, shuffle l ≡ₚ l) → (∀ l, visit l ≡ₚ elements l) → alloc_config_ok c →
  ∃ a, L1BankingAllocator shuffle g c = Ok a
    ∧ ∀ ks, Forall (valid_call c) ks →
      ∃ rs a' M, run_calls visit ks a = (rs, a') ∧ steps c ks rs (λ _, fresh_bank) M ∧ sim c a' M.
Proof.
  intros Hs Hv Hc. destruct (run_L1BankingAllocator shuffle g c Hs Hc) as (a & Ha & Hb).
  exists a. split; [done|]. intros ks Hks. by apply run_calls_steps; [|apply built_sim|].
Qed.

Lemma allocator_refines_witness :
  ∃ a, L1BankingAllocator (@reverse Z) demo_garbage demo_config = Ok a
    ∧ ∀ ks, Forall (valid_call demo_config) ks →
      ∃ rs a' M, run_calls elements ks a = (rs, a')
        ∧ steps demo_config ks rs (λ _, fresh_bank) M ∧ sim demo_config a' M.
Proof. apply (allocator_refines _ elements demo_garbage demo_config perm_reverse); [done|apply demo_config_ok]. Defined.

(** ** Live buffers *)
(** The buffers alive after a list of calls: kind and address ↦ bytes per bank,
    and whether it is interleaved. *)
Abbreviation buffers := (gmap (BufferType * Z) (Z * bool)).

Definition record_call (c : AllocatorConfig) (k : call) (r : outcome (option Z)) (h : buffers) : buffers :=
  match k, r with
  | AllocateBuffer size page_size t _ shards, Ok (Some a) =>
    match request (static_of c t) (compute_grid_size c) size page_size shards with
    | Ok (n, _) => <[(t, a) := (block_size (region_of c t) n, bool_decide (shards = None))]> h
    | Err _ => h
    end
  | DeallocateBuffer a t, Ok _ => delete (t, a) h
  | DeallocateBuffers, Ok _ | ClearAll, Ok _ => ∅
  | _, _ => h
  end.

Fixpoint record_calls (c : AllocatorConfig) (ks : list call) (rs : list (outcome (option Z))) (h : buffers) : buffers :=
  match ks, rs with
  | k :: ks, r :: rs => record_calls c ks rs (record_call c k r h)
  | _, _ => h
  end.

(** The memory a kind of buffer lies in: DRAM banks, or L1. *)
Definition in_dram (t : BufferType) : bool := match t with DRAM | TRACE => true | _ => false end.
Definition memory_of (c : AllocatorConfig) (t : BufferType) : Z * Z :=
  if in_dram t then (dram_unreserved_base c, dram_bank_size c) else (l1_unreserved_base c, worker_l1_size c).

(** The recorded buffers are live blocks of the machine. *)
Record recorded (c : AllocatorConfig) (h : buffers) (M : machine) : Prop := mk_recorded {
  rd_live : ∀ t a sz i, h !! (t, a) = Some (sz, i) → t ≠ SYSTEM_MEMORY ∧ ab_live (M t) !! a = Some sz;
  rd_limit : ∀ a sz, h !! (L1, a) = Some (sz, true) → l1_limit c <= a
}.

Lemma request_limit_l1 c grid size page_size n limit :
  request (l1_static c) grid size page_size None = Ok (n, limit) → limit = l1_limit c.
Proof.
  unfold request. intros (b & _ & (n' & _ & (l & Hl & [= -> ->])%bind_Ok_inv)%bind_Ok_inv)%bind_Ok_inv.
  cbn in Hl. by apply bind_Ok_inv in Hl as (u & _ & [= <-]).
Qed.

Lemma recorded_empty c M : recorded c ∅ M.
Proof. split; intros *; by rewrite lookup_empty. Qed.

Lemma recorded_insert c h M t a sz i L :
  t ≠ SYSTEM_MEMORY → recorded c h M → (t = L1 → i = true → l1_limit c <= a) →
  (∀ sz', ab_live (M t) !! a ≠ Some sz') →
  recorded c (<[(t, a) := (sz, i)]> h) (upd M t (mk_abank (<[a := sz]> (ab_live (M t))) L)).
Proof.
  intros Ht [Hl Hlim] Hi Hno. split.
  - intros t' a' sz' i' [[[= -> ->] [= -> ->]]|[Hne Hin]]%lookup_insert_Some.
    + split; [done|]. rewrite upd_same. cbn. by rewrite lookup_insert_eq.
    + destruct (Hl _ _ _ _ Hin) as [Ht' Hlive]. split; [done|].
      destruct (decide (t' = t)) as [->|]; [|by rewrite upd_other].
      rewrite upd_same. cbn. rewrite lookup_insert_ne; [done|]. intros ->. by destruct (Hno sz').
  - intros a' sz' [[[= -> ->] [= _ ->]]|[_ Hin]]%lookup_insert_Some; [by apply Hi|by eapply Hlim].
Qed.

(** A step that keeps the recorded blocks of every kind. *)
Lemma recorded_mono c h M M' :
  (∀ t a sz i, h !! (t, a) = Some (sz, i) → t ≠ SYSTEM_MEMORY → ab_live (M t) !! a = Some sz → ab_live (M' t) !! a = Some sz) →
  recorded c h M → recorded c h M'.
Proof.
  intros HM [Hl Hlim]. split; [|done]. intros t a sz i Hin. destruct (Hl _ _ _ _ Hin). eauto.
Qed.

Lemma recorded_delete c h M t a :
  recorded c h M → recorded c (delete (t, a) h) (upd M t (bank_free a (M t))).
Proof.
  intros [Hl Hlim]. split.
  - intros t' a' sz i [Hne Hin]%lookup_delete_Some. destruct (Hl _ _ _ _ Hin) as [Ht' Hlive]. split; [done|].
    destruct (decide (t' = t)) as [->|]; [|by rewrite upd_other].
    rewrite upd_same. cbn. rewrite lookup_delete_ne; [done|]. congruence.
  - intros a' sz [_ Hin]%lookup_delete_Some. by eapply Hlim.
Qed.

Lemma request_nonneg c grid size page_size shards n limit :
  request c grid size page_size shards = Ok (n, limit) → 0 <= n.
Proof.
  unfold request. intros (b & _ & (n' & Hn & (l & _ & [= -> _])%bind_Ok_inv)%bind_Ok_inv)%bind_Ok_inv.
  unfold SizeBytesPerBank in Hn. apply bind_Ok_inv in Hn as (_ & _ & Hn).
  apply bind_Ok_inv in Hn as (k & _ & Hn). apply bind_Ok_inv in Hn as (r & _ & [= <-]). apply u64_range.
Qed.

Lemma regions_ok c t : alloc_config_ok c → region_ok (region_of c t).
Proof.
  intros [Hd Hl]. destruct (dram_regions_ok c Hd), (l1_regions_ok c Hl). by destruct t.
Qed.

Lemma room_not_live r m a sz sz' : wf_live r m → 0 < sz → has_room m a sz → m !! a ≠ Some sz'.
Proof. intros Hwf Hsz Hr. by rewrite (has_room_fresh _ _ _ _ Hwf Hsz Hr). Qed.

Lemma recorded_step c k r M M' h :
  alloc_config_ok c → machine_wf c M → step c k r M M' → recorded c h M → recorded c (record_call c k r h) M'.
Proof.
  intros Hc Hwf Hstep Hh. inversion Hstep as
    [| | |size page_size t bu shards n limit o s M0 Ht Hsm Hreq Hal| |a t M0 Ht| | |]; subst; try exact Hh.
  - destruct (block_size_spec (region_of c t) n (regions_ok c t Hc)) as (Hsz & _); [by eapply request_nonneg|].
    specialize (Hwf t Ht). inversion Hal as [m L a [_ Hroom] _ _ Hlim Hm|m L Hno Hm|m L a [_ Hroom] _ _ Hlim Hm];
      subst; cbn [record_call some_address].
    + rewrite Hreq. rewrite <- Hm in Hwf. cbn [ab_live] in Hwf.
      pose proof (recorded_insert c h M t a (block_size (region_of c t) n) (bool_decide (shards = None)) ({[a]} ∪ L) Ht Hh) as Hins.
      rewrite <- Hm in Hins. apply Hins; [|intros sz'; by eapply room_not_live].
      intros -> ->%bool_decide_eq_true. by rewrite <- (request_limit_l1 _ _ _ _ _ _ Hreq).
    + eapply recorded_mono; [|exact Hh]. intros t' a sz i _ _ Hl. unfold upd. case_decide; [subst|done]. by rewrite Hm.
    + eapply recorded_mono; [|exact Hh]. intros t' b sz i _ _ Hl. unfold upd. case_decide; [subst|done]. cbn.
      rewrite <- Hm in Hl, Hwf. cbn in Hl, Hwf. rewrite lookup_insert_ne; [done|]. intros ->.
      by eapply room_not_live.
  - by apply recorded_delete.
  - apply recorded_empty.
  - apply recorded_empty.
Qed.

Lemma run_calls_recorded visit c ks a M h :
  (∀ l, visit l ≡ₚ elements l) → alloc_config_ok c → sim c a M → Forall (valid_call c) ks → recorded c h M →
  ∃ rs a' M', run_calls visit ks a = (rs, a') ∧ sim c a' M' ∧ recorded c (record_calls c ks rs h) M'.
Proof.
  intros Hvis Hc. revert a M h; induction ks as [|k ks IH]; intros a M h Hs Hv Hh; [by exists [], a, M|].
  apply Forall_cons in Hv as [Hk Hks].
  destruct (run_call_step visit c a M k Hvis Hs Hk) as (r & a1 & M1 & Hrun & Hst & Hs1).
  pose proof (recorded_step c k r M M1 h Hc (sim_wf _ _ _ Hs) Hst Hh) as Hh1.
  destruct (IH a1 M1 _ Hs1 Hks Hh1) as (rs & a2 & M2 & Hrun2 & Hs2 & Hh2).
  exists (r :: rs), a2, M2. cbn [run_calls]. by rewrite Hrun, Hrun2.
Qed.

(** Blocks of two regions of one memory, which do not overlap. *)
Lemma memory_regions_apart c t t' a sz a' sz' :
  alloc_config_ok c → t ≠ SYSTEM_MEMORY → t' ≠ SYSTEM_MEMORY → t ≠ t' → in_dram t = in_dram t' →
  within (region_of c t) a sz → within (region_of c t') a' sz' → apart a sz a' sz'.
Proof.
  intros _ Ht Ht' Hne Hm. unfold within, apart.
  destruct t, t'; try done; cbn; unfold l1_bytes, dram_bytes; lia.
Qed.

Lemma region_memory c t :
  alloc_config_ok c → t ≠ SYSTEM_MEMORY →
  (memory_of c t).1 <= r_base (region_of c t)
  ∧ r_base (region_of c t) + r_size (region_of c t) <= (memory_of c t).2.
Proof.
  intros [[] []] Ht. destruct t; try done; cbn; unfold l1_bytes, dram_bytes; lia.
Qed.

(** A recorded buffer lies in its memory, and two in one memory do not overlap. *)
Lemma recorded_block c h M :
  alloc_config_ok c → machine_wf c M → recorded c h M →
  ∀ t ad sz i, h !! (t, ad) = Some (sz, i) →
  (memory_of c t).1 <= ad ∧ 0 < sz ∧ ad + sz <= (memory_of c t).2
  ∧ (alignment c | ad) ∧ (alignment c | sz) ∧ (t = L1 → i = true → l1_limit c <= ad).
Proof.
  intros Hc Hwf [Hl Hlim] t ad sz i Hin. destruct (Hl _ _ _ _ Hin) as [Ht Hlive].
  destruct (wl_block _ _ (Hwf t Ht) _ _ Hlive) as (? & [? ?] & Hd1 & Hd2). destruct (region_memory c t Hc Ht).
  split_and!; [lia|lia|lia| | |intros -> ->; by eapply Hlim]; by destruct t.
Qed.

Lemma recorded_apart c h M :
  alloc_config_ok c → machine_wf c M → recorded c h M →
  ∀ t ad sz i t' ad' sz' i', h !! (t, ad) = Some (sz, i) → h !! (t', ad') = Some (sz', i') →
  in_dram t = in_dram t' → (t, ad) ≠ (t', ad') → apart ad sz ad' sz'.
Proof.
  intros Hc Hwf [Hl Hlim] t ad sz i t' ad' sz' i' H1 H2 Hm Hne.
  destruct (Hl _ _ _ _ H1) as [Ht Hl1], (Hl _ _ _ _ H2) as [Ht' Hl2].
  destruct (decide (t = t')) as [<-|Htt].
  - eapply wl_apart; [by apply Hwf|done|done|congruence].
  - destruct (wl_block _ _ (Hwf t Ht) _ _ Hl1) as (_ & Hw1 & _), (wl_block _ _ (Hwf t' Ht') _ _ Hl2) as (_ & Hw2 & _).
    by eapply (memory_regions_apart c t t').
Qed.

(** C24: live buffers never overlap.  After any list of valid calls on a new
    allocator, take the buffers that were returned and not freed: each lies in
    the memory of its kind, clear of the reserved bytes at its start, and is
    aligned in address and size; two of them in DRAM, trace buffers included, or
    two in L1, small ones included, share no byte of a bank; and an interleaved
    L1 buffer lies in the part of L1 that storage cores have. *)
Theorem live_buffers_disjoint shuffle visit g c a ks rs a' :
  (∀ l, shuffle l ≡ₚ l) → (∀ l, visit l ≡ₚ elements l) → alloc_config_ok c →
  L1BankingAllocator shuffle g c = Ok a → Forall (valid_call c) ks → run_calls visit ks a = (rs, a') →
  let h := record_calls c ks rs ∅ in
  (∀ t ad sz i, h !! (t, ad) = Some (sz, i) →
     (memory_of c t).1 <= ad ∧ 0 < sz ∧ ad + sz <= (memory_of c t).2
     ∧ (alignment c | ad) ∧ (alignment c | sz) ∧ (t = L1 → i = true → l1_limit c <= ad))
  ∧ (∀ t ad sz i t' ad' sz' i', h !! (t, ad) = Some (sz, i) → h !! (t', ad') = Some (sz', i') →
     in_dram t = in_dram t' → (t, ad) ≠ (t', ad') → apart ad sz ad' sz').
Proof.
  intros Hs Hv Hc Ha Hks Hrun h. destruct (run_L1BankingAllocator shuffle g c Hs Hc) as (a0 & Ha0 & Hb).
  rewrite Ha in Ha0. injection Ha0 as <-.
  destruct (run_calls_recorded visit c ks a _ ∅ Hv Hc (built_sim _ _ Hb) Hks (recorded_empty _ _))
    as (rs' & a'' & M & Hrun' & Hsim & Hh).
  rewrite Hrun in Hrun'. injection Hrun' as <- <-. fold h in Hh. pose proof (sim_wf _ _ _ Hsim) as Hwf. split.
  - intros t ad sz i. by apply (recorded_block c h M Hc Hwf Hh).
  - intros t ad sz i t' ad' sz' i'. by apply (recorded_apart c h M Hc Hwf Hh).
Qed.

Lemma live_buffers_disjoint_witness :
  let rs := (run_calls elements demo_calls demo_state).1 in
  let h := record_calls demo_config demo_calls rs ∅ in
  h !! (DRAM, 1024) = Some (2048, true) ∧ h !! (TRACE, 1073739776) = Some (2048, true)
  ∧ apart 1024 2048 1073739776 2048.
Proof.
  intros rs h.
  assert (H1 : h !! (DRAM, 1024) = Some (2048, true)) by (vm_compute; reflexivity).
  assert (H2 : h !! (TRACE, 1073739776) = Some (2048, true)) by (vm_compute; reflexivity).
  split_and!; [exact H1|exact H2|].
  eapply (live_buffers_disjoint (@reverse Z) elements demo_garbage demo_config demo_state demo_calls rs
    (run_calls elements demo_calls demo_state).2 perm_reverse);
    [done|apply demo_config_ok|apply demo_state_eq|by apply valid_calls_sound; vm_compute|apply surjective_pairing
    |exact H1|exact H2|done|done].
Defined.

(** ** Failed allocations *)
(** [m] are the live blocks of the manager of [t]. *)
Definition live_blocks (a : Allocator) (t : BufferType) (m : live) : Prop :=
  ∃ b al tracked, manager_of a t = Ok b ∧ allocator_ b = Some al ∧ rep tracked al m.

Lemma sim_live c a M t : sim c a M → t ≠ SYSTEM_MEMORY → live_blocks a t (ab_live (M t)).
Proof.
  intros Hs Ht. destruct (manager_exists a t Ht) as [b Hb].
  destruct (sim_banks _ _ _ Hs t b Hb) as [(al & Hal & Hrep & _) _ _ _ _ _ _]. by exists b, al, false.
Qed.

Lemma sim_returned c a M : sim c a M → allocated_buffers_ (l1_manager a) = ab_returned (M L1).
Proof. intros Hs. by destruct (sim_banks _ _ _ Hs L1 _ eq_refl). Qed.

Lemma request_limit_other c t grid size page_size shards n limit :
  (t ≠ L1 ∨ shards ≠ None) → request (static_of c t) grid size page_size shards = Ok (n, limit) →
  t ≠ SYSTEM_MEMORY → limit = 0.
Proof.
  unfold request. intros Hor (b & _ & (n' & _ & (l & Hl & [= -> ->])%bind_Ok_inv)%bind_Ok_inv)%bind_Ok_inv Ht.
  destruct shards as [k|]; cbn in Hl; [by injection Hl as <-|].
  destruct Hor as [Hor|]; [|done]. destruct t; cbn in Hl; first [done|by injection Hl as <-].
Qed.

(** C25: what a failed allocation leaves behind.  In every reachable state an
    allocation that raises an exception changes no live block of its memory,
    with one exception: an interleaved L1 buffer whose block lies below the
    limit.  Its block stays allocated although no address was returned.
    [deallocate_buffers] frees the addresses the manager ever returned, so it
    does not free the block, provided that no earlier allocation had returned
    the same address (a manager never forgets one, also when it is freed). *)
Theorem allocate_failure c visit a size page_size t bu shards e a' :
  (∀ l, visit l ≡ₚ elements l) → alloc_config_ok c → reachable c a → t ≠ SYSTEM_MEMORY →
  valid_call c (AllocateBuffer size page_size t bu shards) →
  allocate_buffer size page_size t bu shards a = (Err e, a') →
  ∃ m, live_blocks a t m ∧
    (live_blocks a' t m
     ∨ t = L1 ∧ shards = None ∧ e = TT_THROW
       ∧ ∃ ad n, m !! ad = None ∧ 0 < n ∧ ad < l1_limit c ∧ live_blocks a' L1 (<[ad := n]> m)
         ∧ (ad ∉ allocated_buffers_ (l1_manager a) →
            ∃ a'' m'', deallocate_buffers visit a' = (Ok tt, a'') ∧ live_blocks a'' L1 m'' ∧ m'' !! ad = Some n)).
Proof.
  intros Hvis Hc Hreach Ht Hv Hrun. destruct (reachable_spec c a Hc Hreach) as (M & _ & Hs & _).
  exists (ab_live (M t)). split; [by eapply sim_live|].
  destruct (run_alloc c a M size page_size t bu shards Hs Hv) as (o & a1 & M1 & Hrun' & Hst & Hs1).
  rewrite Hrun in Hrun'. injection Hrun' as <- <-. pose proof (sim_wf _ _ _ Hs t Ht) as Hwf.
  inversion Hst as [| | |? ? ? ? ? n limit o s M0 _ Hsm Hreq Hal Ho| | | | |]; subst; try (left; by eapply sim_live).
  match goal with H : some_address o = _ |- _ => destruct o as [ad|e']; [done|]; injection H as -> end.
  destruct (block_size_spec (region_of c t) n (regions_ok c t Hc)) as (Hsz & _); [by eapply request_nonneg|].
  pose proof (sim_live _ _ _ t Hs1 Ht) as Hlive. rewrite upd_same in Hlive.
  inversion Hal as [|m L Hno Hm|m L ad [[Hw _] Hroom] _ _ Hlim Hm]; subst; [by left|right].
  rewrite <- Hm in Hwf. cbn [ab_live] in *.
  pose proof (ro_base _ (regions_ok c t Hc)) as Hbase.
  assert (Hl : t = L1 ∧ shards = None).
  { destruct (decide (t = L1)) as [Hl|], (decide (shards = None)); [done|exfalso..];
      (assert (limit = 0) by (eapply request_limit_other; [|exact Hreq|done]; auto); lia). }
  destruct Hl as [-> ->]. rewrite (request_limit_l1 _ _ _ _ _ _ Hreq) in Hlim.
  split_and!; [done..|]. exists ad, (block_size (region_of c L1) n).
  split_and!; [by eapply has_room_fresh|done|done|done|]. intros Hnew.
  destruct (sim_each c a' _ (deallocate_all visit) bank_free_all Hs1) as (a'' & Hrun'' & Hs'').
  { intros t' b s Hb. by apply run_deallocate_all. }
  eexists a'', _. split; [exact Hrun''|]. split; [by apply (sim_live _ _ _ L1 Hs'')|].
  rewrite upd_same. cbn. apply map_lookup_filter_Some. split; [by rewrite lookup_insert_eq|]. cbn.
  rewrite (sim_returned _ _ _ Hs), <- Hm in Hnew. done.
Qed.

Lemma pair_fst {A B} (p : A * B) u : p.1 = u → p = (u, p.2).
Proof. intros <-. apply surjective_pairing. Qed.

Lemma demo_limit : (allocate_buffer 557056 557056 L1 false None demo_state).1 = Err TT_THROW.
Proof. vm_compute. reflexivity. Qed.

Lemma allocate_failure_witness :
  ∃ m, live_blocks demo_state L1 m ∧
    (live_blocks (allocate_buffer 557056 557056 L1 false None demo_state).2 L1 m
     ∨ L1 = L1 ∧ None = (None : option Z) ∧ TT_THROW = TT_THROW
       ∧ ∃ ad n, m !! ad = None ∧ 0 < n ∧ ad < l1_limit demo_config
         ∧ live_blocks (allocate_buffer 557056 557056 L1 false None demo_state).2 L1 (<[ad := n]> m)
         ∧ (ad ∉ allocated_buffers_ (l1_manager demo_state) →
            ∃ a'' m'', deallocate_buffers elements (allocate_buffer 557056 557056 L1 false None demo_state).2 = (Ok tt, a'')
              ∧ live_blocks a'' L1 m'' ∧ m'' !! ad = Some n)).
Proof.
  apply (allocate_failure demo_config elements demo_state 557056 557056 L1 false None TT_THROW);
    [done|apply demo_config_ok| |done| |].
  - by exists (@reverse Z), demo_garbage, elements, demo_state, [];
      split_and!; [apply perm_reverse|done|apply demo_state_eq|constructor|].
  - by apply alloc_callb_sound; vm_compute.
  - exact (pair_fst _ _ demo_limit).
Defined.

(** Freeing everything after the failed allocation leaves its block: the
    statistics still count it. *)
Example leaked_block :
  (let a := (allocate_buffer 557056 557056 L1 false None demo_state).2 in
   let a := (deallocate_buffers elements a).2 in
   match (AllocatorOps.get_statistics L1 a).1 with Ok s => total_allocated_bytes s | Err _ => 0 end) = 557056.
Proof. by vm_compute. Qed.
