(* ===== verification/AllocatorBanks.v ===== *)
(** * Banks, cores and offsets of a device *)
From S2P Require Import Prelude FreeList Arith CoreCoord AllocatorAlgorithm FreeListAlgorithm BankManager BankManagerProps Allocator AllocatorOps AllocatorL1 AllocatorInit AllocatorTables AllocatorProps.

(** ** The lookups *)
Lemma run_bank_ids a t core ids :
  bank_ids_from_logical_core a t core = Ok ids ↔ default ∅ (logical_core_to_bank_ids a !! t) !! core = Some ids.
Proof.
  unfold bank_ids_from_logical_core. destruct (logical_core_to_bank_ids a !! t) as [m|]; cbn;
    [|by rewrite lookup_empty]. destruct (m !! core) as [l|]; cbn; [|done]. split; [by intros [= ->]|by intros [= ->]].
Qed.

Lemma run_core_of_bank a id core :
  bank_id_to_logical_core a !! id = Some core → logical_core_from_bank_id a id = Ok core.
Proof. intros H. unfold logical_core_from_bank_id. by rewrite H. Qed.

Lemma run_bank_offset a t b id o :
  manager_of a t = Ok b → bank_id_to_bank_offset_ b !! id = Some o → - 2 ^ 31 <= o < 2 ^ 31 →
  AllocatorOps.bank_offset a t id = Ok o.
Proof.
  intros Hb Ho Hr. unfold AllocatorOps.bank_offset, BankManager.bank_offset, validate_bank_id.
  rewrite Hb. cbn. rewrite Ho. cbn. f_equal. unfold to_i32. destruct (Z.lt_ge_cases o 0).
  - rewrite u32_neg by lia. cbv zeta. destruct (Z.ltb_spec (o + 4294967296) (2 ^ 31)); lia.
  - rewrite u32_small by lia. cbv zeta. destruct (Z.ltb_spec o (2 ^ 31)); lia.
Qed.

(** ** The banks of a core *)
Section banks.
Context (c : AllocatorConfig) (Hc : alloc_config_ok c) (sh : list Z) (a : Allocator) (Ht : bank_tables c sh a).
Abbreviation small_ids := (seqZ (l1_banks c) (small_banks c)).

(** The banks of memory [t] and their slots. *)
Definition ids_for (t : BufferType) : list Z := match t with L1 => sh | _ => small_ids end.
Definition slots_for (t : BufferType) : list (CoreCoord * Z) :=
  match t with L1 => l1_slots c | _ => l1_small_slots c end.

Lemma ids_slots_length t : t = L1 ∨ t = L1_SMALL → length (ids_for t) = length (slots_for t) ∧ NoDup (ids_for t).
Proof.
  pose proof (bt_ids _ _ _ Ht) as Hp. destruct Hc as [_ Hl]. intros [->| ->]; cbn.
  - rewrite (length_assigned c sh Hp), (length_l1_slots c Hl). split; [done|]. rewrite Hp. apply NoDup_seqZ.
  - rewrite length_seqZ, (length_l1_small_slots c). split; [done|apply NoDup_seqZ].
Qed.

Lemma zip_all t p :
  t = L1 ∨ t = L1_SMALL → p ∈ zip (ids_for t) (slots_for t) →
  p ∈ zip (sh ++ small_ids) (l1_slots c ++ l1_small_slots c).
Proof.
  intros Htt Hp. destruct (ids_slots_length L1) as [H1 _]; [by left|]. cbn in H1.
  rewrite zip_app_exact by done. apply elem_of_app. by destruct Htt as [->| ->]; [left|right].
Qed.

Lemma all_length : length (sh ++ small_ids) = length (l1_slots c ++ l1_small_slots c).
Proof.
  destruct (ids_slots_length L1) as [H1 _]; [by left|]. destruct (ids_slots_length L1_SMALL) as [H2 _]; [by right|].
  cbn in *. by rewrite !length_app, H1, H2.
Qed.

Lemma bank_core_of t id core o :
  t = L1 ∨ t = L1_SMALL → (id, (core, o)) ∈ zip (ids_for t) (slots_for t) →
  logical_core_from_bank_id a id = Ok core.
Proof.
  intros Htt Hin. apply run_core_of_bank. rewrite (bt_core _ _ _ Ht).
  eapply entry_core; [apply all_length|apply all_ids_NoDup; [apply Hc|apply Ht]|]. by eapply zip_all.
Qed.

(** The bank ids a lookup returns are those of the core's slots. *)
Lemma bank_ids_of t core ids :
  t = L1 ∨ t = L1_SMALL → bank_ids_from_logical_core a t core = Ok ids →
  core ∈ cores c ∧ ids = ids_of (ids_for t) (slots_for t) core
  ∧ match t with L1 => banked c core = true | _ => 0 < l1_small_size c ∧ core_type c core = Ok ComputeAndStore end.
Proof.
  intros Htt. rewrite run_bank_ids. destruct Htt as [->| ->].
  - rewrite (bt_l1 _ _ _ Ht). case_bool_decide as Hin; [|done]. destruct (banked c core) eqn:E; [|done]. by intros [= <-].
  - rewrite (bt_small _ _ _ Ht). case_bool_decide as Hin; [|done]. cbn.
    destruct (Z.ltb_spec 0 (l1_small_size c)); [|done]. unfold computes. case_bool_decide; [|done]. by intros [= <-].
Qed.

Lemma bank_ids_some t core id o :
  t = L1 ∨ t = L1_SMALL → (id, (core, o)) ∈ zip (ids_for t) (slots_for t) →
  ∃ ids, bank_ids_from_logical_core a t core = Ok ids ∧ id ∈ ids.
Proof.
  intros Htt Hin. exists (ids_of (ids_for t) (slots_for t) core).
  split; [|apply ids_of_entry; by exists o].
  apply elem_of_zip_r in Hin. rewrite run_bank_ids. destruct Htt as [->| ->]; cbn in Hin.
  - apply list_elem_of_bind in Hin as (k & Hs & Hk). pose proof (core_slots_core _ _ _ _ Hs) as E. cbn in E. subst k.
    rewrite (bt_l1 _ _ _ Ht), bool_decide_eq_true_2 by done. cbn.
    assert (banked c core = true) as ->; [|done]. unfold banked. unfold core_slots in Hs.
    destruct (core_type c core) as [[]|]; try done; by apply elem_of_nil in Hs.
  - unfold l1_small_slots in Hin. destruct (Z.ltb_spec 0 (l1_small_size c)) as [Hpos|]; [|by apply elem_of_nil in Hin].
    apply list_elem_of_bind in Hin as (k & Hs & Hk). pose proof (small_slots_core _ _ _ Hs) as E. cbn in E. subst k.
    rewrite (bt_small _ _ _ Ht), bool_decide_eq_true_2 by done. rewrite (proj2 (Z.ltb_lt _ _) Hpos). cbn.
    assert (computes c core = true) as ->; [|done]. unfold computes. apply bool_decide_eq_true. unfold small_slots in Hs.
    destruct (core_type c core) as [[]|]; try done; by apply elem_of_nil in Hs.
Qed.

Lemma slots_of_core core :
  core ∈ cores c → filter (λ s, s.1 = core) (l1_slots c) = core_slots c (per_core c) core.
Proof.
  intros Hin. apply filter_slots; [intros k s; apply core_slots_core|apply NoDup_grid|done].
Qed.

(** The [k]-th bank of a core and its offset. *)
Lemma l1_bank_offset core ids k id :
  bank_ids_from_logical_core a L1 core = Ok ids → ids !! k = Some id →
  ∃ o, core_slots c (per_core c) core !! k = Some (core, o) ∧ bank_id_to_bank_offset_ (l1_manager a) !! id = Some o.
Proof.
  intros Hids Hk. destruct (bank_ids_of L1 core ids ltac:(by left) Hids) as (Hin & -> & _).
  destruct (ids_slots_length L1 ltac:(by left)) as [Hlen Hnd]. cbn [ids_for slots_for] in *.
  destruct (ids_of_offsets _ _ Hlen core k id Hk) as (o & Ho & Hz). exists o.
  rewrite (slots_of_core core Hin) in Ho. split; [done|]. rewrite (bt_offset _ _ _ Ht). by eapply entry_offset.
Qed.
End banks.

(** C26: the tables of banks agree, in every reachable state.  A bank that a core
    lists, in L1 or in small L1, is a bank whose core is that core; a core lists
    a bank once; every L1 bank id below [l1_banks] is listed by a core, and the
    ids from there on are the small-L1 banks; DRAM bank [i] is channel [i], for
    buffers and for traces. *)
Theorem bank_tables_consistent c a :
  alloc_config_ok c → reachable c a →
  (∀ t core ids id, t = L1 ∨ t = L1_SMALL → bank_ids_from_logical_core a t core = Ok ids → id ∈ ids →
     logical_core_from_bank_id a id = Ok core)
  ∧ (∀ t core ids, t = L1 ∨ t = L1_SMALL → bank_ids_from_logical_core a t core = Ok ids → NoDup ids)
  ∧ (∀ id, 0 <= id < l1_banks c →
     ∃ core ids, bank_ids_from_logical_core a L1 core = Ok ids ∧ id ∈ ids)
  ∧ (∀ id, l1_banks c <= id < l1_banks c + small_banks c →
     ∃ core ids, bank_ids_from_logical_core a L1_SMALL core = Ok ids ∧ id ∈ ids)
  ∧ (∀ t i, t = DRAM ∨ t = TRACE → 0 <= i < num_dram_channels c →
     dram_channel_from_bank_id a i = Ok i ∧ bank_ids_from_dram_channel a i = Ok [i]
     ∧ bank_ids_from_logical_core a t (mk_coord i 0) = Ok [i]).
Proof.
  intros Hc Hr. destruct (reachable_spec c a Hc Hr) as (M & a0 & _ & Hb & Heq).
  destruct (ab_tables _ _ Hb) as (sh & Ht0). pose proof (bank_tables_eq _ _ _ _ Heq Ht0) as Ht.
  pose proof Heq as [= Hd1 Hd2 _ Hd4 _ _ _ _]. split_and!.
  - intros t core ids id Htt Hids Hin. destruct (bank_ids_of _ _ _ Ht t core ids Htt Hids) as (_ & -> & _).
    apply ids_of_entry in Hin as (o & Hin). by eapply bank_core_of.
  - intros t core ids Htt Hids. destruct (bank_ids_of _ _ _ Ht t core ids Htt Hids) as (_ & -> & _).
    destruct (ids_slots_length c Hc sh a Ht t Htt). by apply NoDup_ids_of.
  - intros id Hid. destruct (ids_slots_length c Hc sh a Ht L1 ltac:(by left)) as [Hl _].
    destruct (entry_exists _ _ Hl id) as (core & o & Hin).
    { cbn. rewrite (bt_ids _ _ _ Ht). apply elem_of_seqZ. lia. }
    exists core. by eapply bank_ids_some; [|by left|].
  - intros id Hid. destruct (ids_slots_length c Hc sh a Ht L1_SMALL ltac:(by right)) as [Hl _].
    destruct (entry_exists _ _ Hl id) as (core & o & Hin).
    { cbn. apply elem_of_seqZ. lia. }
    exists core. by eapply bank_ids_some; [|by right|].
  - intros t i Htt Hi. destruct (ab_channels _ _ Hb) as [C1 C2]. pose proof (ab_dram_cores _ _ Hb t Htt (mk_coord i 0)) as C3.
    assert (Hin : (0 <=? i) && (i <? num_dram_channels c) = true).
    { rewrite (proj2 (Z.leb_le 0 i)), (proj2 (Z.ltb_lt i _)) by lia. done. }
    specialize (C1 i). specialize (C2 i). cbn [x y] in C3. rewrite Hin in C1, C2, C3. cbn in C3. split_and!.
    + unfold dram_channel_from_bank_id. by rewrite Hd1, C1.
    + unfold bank_ids_from_dram_channel. by rewrite Hd2, C2.
    + apply run_bank_ids. by rewrite Hd4.
Qed.

Lemma demo_alloc_reachable : reachable demo_config (run_calls elements demo_calls demo_state).2.
Proof.
  exists (@reverse Z), demo_garbage, elements, demo_state, demo_calls.
  split_and!; [apply perm_reverse|done|apply demo_state_eq|by apply valid_calls_sound; vm_compute|done].
Qed.

Lemma bank_tables_consistent_witness :
  let a := (run_calls elements demo_calls demo_state).2 in
  bank_ids_from_logical_core a L1 (mk_coord 1 1) = Ok [3; 2] ∧ logical_core_from_bank_id a 2 = Ok (mk_coord 1 1).
Proof.
  intros a. assert (H : bank_ids_from_logical_core a L1 (mk_coord 1 1) = Ok [3; 2]) by (vm_compute; reflexivity).
  split; [exact H|]. destruct (bank_tables_consistent demo_config a demo_config_ok demo_alloc_reachable) as [Hcore _].
  apply (Hcore L1 (mk_coord 1 1) [3; 2] 2 ltac:(by left) H). by right; left.
Defined.

(** C27: the banks of a storage core never collide above the limit.  An address
    of an interleaved buffer, which is at least [l1_limit], becomes a different
    byte of the core in each of its banks; in the first two banks that byte lies
    in the core's L1, above the reserved bytes.  With more than two banks per
    storage core the others lie past the end of L1: the offsets assume two. *)
Theorem storage_banks_disjoint c a core ids j k idj idk :
  alloc_config_ok c → reachable c a → core_type c core = Ok StorageOnly →
  bank_ids_from_logical_core a L1 core = Ok ids → ids !! j = Some idj → ids !! k = Some idk →
  ∃ oj ok, AllocatorOps.bank_offset a L1 idj = Ok oj ∧ AllocatorOps.bank_offset a L1 idk = Ok ok
    ∧ (j ≠ k → ∀ p q, l1_limit c <= p < worker_l1_size c → l1_limit c <= q < worker_l1_size c → p + oj ≠ q + ok)
    ∧ ((k < 2)%nat → ∀ p, l1_limit c <= p < worker_l1_size c → storage_base c <= p + ok < worker_l1_size c)
    ∧ ((2 <= k)%nat → ∀ p, l1_limit c <= p → worker_l1_size c < p + ok).
Proof.
  intros Hc Hr Hty Hids Hj Hk. destruct (reachable_spec c a Hc Hr) as (M & a0 & _ & Hb & Heq).
  destruct (ab_tables _ _ Hb) as (sh & Ht0). pose proof (bank_tables_eq _ _ _ _ Heq Ht0) as Ht.
  destruct (bank_ids_of _ _ _ Ht L1 core ids ltac:(by left) Hids) as (Hin & _).
  destruct (per_core_spec c (ac_l1 _ Hc) (count_type_elem c core _ Hin Hty)) as (b & Hb0 & Hbpos & Hw & Hper).
  pose proof (lc_size c (ac_l1 _ Hc)) as Hsize.
  destruct (storage_base_spec c (ac_l1 _ Hc)) as [Hsb _].
  assert (Hslot : ∀ i id, ids !! i = Some id →
    Z.of_nat i < per_core c ∧ bank_id_to_bank_offset_ (l1_manager a) !! id = Some (storage_offset c (Z.of_nat i))).
  { intros i id Hi. destruct (l1_bank_offset c Hc sh a Ht core ids i id Hids Hi) as (o & Ho & Hoff).
    unfold core_slots in Ho. rewrite Hty, list_lookup_fmap in Ho. apply fmap_Some in Ho as (z & Hz & [= ->]).
    apply lookup_seqZ in Hz as [-> ?]. rewrite Hoff. split; [lia|done]. }
  destruct (Hslot j idj Hj) as [Hj1 Hj2], (Hslot k idk Hk) as [Hk1 Hk2].
  assert (Hoff : ∀ i, 0 <= i < per_core c → storage_offset c i = if per_core c =? 1 then 0 else i * b - b).
  { intros i Hi. unfold storage_offset. rewrite Hb0. destruct (Z.eqb_spec b (worker_l1_size c)), (Z.eqb_spec (per_core c) 1); nia. }
  rewrite Hoff in Hj2, Hk2 by lia.
  assert (Hbnd : ∀ i, 0 <= i < per_core c → - 2 ^ 31 <= (if per_core c =? 1 then 0 else i * b - b) < 2 ^ 31).
  { intros i Hi. destruct (per_core c =? 1); [lia|]. assert (b <= worker_l1_size c) by nia.
    assert (i * b <= worker_l1_size c) by nia. lia. }
  eexists _, _. split; [by eapply (run_bank_offset a L1); [|exact Hj2|apply Hbnd; lia]|].
  split; [by eapply (run_bank_offset a L1); [|exact Hk2|apply Hbnd; lia]|].
  unfold l1_limit, l1_bank_bytes. rewrite Hb0. destruct (Z.eqb_spec (per_core c) 1) as [H1|H1]; split_and!.
  - intros Hjk. lia.
  - intros _ p Hp. lia.
  - lia.
  - intros Hjk p q Hp Hq. assert (Z.of_nat j + 1 <= Z.of_nat k ∨ Z.of_nat k + 1 <= Z.of_nat j) as [?|?] by lia; nia.
  - intros Hk' p Hp. assert (per_core c = 2 ∨ 2 < per_core c) as [H2|H2] by lia; nia.
  - intros Hk' p Hp. nia.
Qed.

Lemma storage_banks_disjoint_witness :
  let a := (run_calls elements demo_calls demo_state).2 in
  ∃ oj ok, AllocatorOps.bank_offset a L1 3 = Ok oj ∧ AllocatorOps.bank_offset a L1 2 = Ok ok
    ∧ (0%nat ≠ 1%nat → ∀ p q, 524320 <= p < 1048576 → 524320 <= q < 1048576 → p + oj ≠ q + ok)
    ∧ ((1 < 2)%nat → ∀ p, 524320 <= p < 1048576 → 32 <= p + ok < 1048576)
    ∧ ((2 <= 1)%nat → ∀ p, 524320 <= p → 1048576 < p + ok).
Proof.
  apply (storage_banks_disjoint demo_config (run_calls elements demo_calls demo_state).2 (mk_coord 1 1) [3; 2] 0 1 3 2);
    [apply demo_config_ok|apply demo_alloc_reachable|by vm_compute|by vm_compute|done|done].
Defined.

(** The same device with four banks per storage core passes every check of the
    constructor, and the last bank of a storage core starts at half of L1: the
    top 256 KB it is addressed with lie past the end. *)
Definition four_banks_config : AllocatorConfig :=
  mk_config 2 1073741824 [0; 536870912] 1024 98304 (mk_coord 3 2) 1048576 (Some 262144) 32768 65536
    (core_type_from_noc_coord_table demo_config) (worker_log_to_physical_routing_x demo_config)
    (worker_log_to_physical_routing_y demo_config) [] (mk_coord 3 1) 32.

Example four_banks_offset :
  match L1BankingAllocator (λ l, l) demo_garbage four_banks_config with
  | Ok a => (bank_ids_from_logical_core a L1 (mk_coord 1 1), AllocatorOps.bank_offset a L1 7,
             interleaved_address_limit_ (l1_manager a))
  | Err _ => (Err UB, Err UB, 0)
  end = (Ok [4; 5; 6; 7], Ok 524288, 786464).
Proof. by vm_compute. Qed.
