(* ===== verification/Buffer.v ===== *)
(** * Buffers (impl/buffers/buffer.hpp, buffer.cpp)

    A buffer is a region at the same address of every bank it is spread over.
    Interleaved buffers go round the banks page by page; sharded buffers give
    each core of a grid a rectangle of the pages of a tensor, and a page mapping
    says which page of the host is which page on the device.  Objects and their
    lifetimes are in [BufferStore]. *)
From S2P Require Import Prelude Arith CoreCoord BankManager Allocator DeviceAllocator.

(** ** impl/buffers/buffer_constants.hpp *)
Inductive TensorMemoryLayout := INTERLEAVED | SINGLE_BANK | HEIGHT_SHARDED | WIDTH_SHARDED | BLOCK_SHARDED.
Inductive ShardOrientation := ROW_MAJOR | COL_MAJOR.

#[export] Instance ShardOrientation_eq_dec : EqDecision ShardOrientation.
Proof. solve_decision. Defined.

Definition is_sharded (layout : TensorMemoryLayout) : bool :=
  match layout with HEIGHT_SHARDED | WIDTH_SHARDED | BLOCK_SHARDED => true | _ => false end.

(** ** Shard specifications; [std::array<uint32_t, 2>] is a pair *)
Record ShardSpec := mk_shard_spec {
  grid : list CoreRange;
  shape : Z * Z;
  orientation : ShardOrientation;
  halo : bool
}.

Definition shard_num_cores (s : ShardSpec) : Z := CoreCoord.num_cores (grid s).
Definition numel (s : ShardSpec) : Z := u32 ((shape s).1 * (shape s).2).

(** [operator==] *)
Definition shard_spec_eqb (a b : ShardSpec) : bool :=
  if negb (sets_equal (grid a) (grid b)) then false
  else if negb (bool_decide (shape a = shape b)) then false
  else if negb (bool_decide (orientation a = orientation b)) then false
  else if negb (Bool.eqb (halo a) (halo b)) then false
  else true.

Record ShardSpecBuffer := mk_shard_spec_buffer {
  tensor_shard_spec : ShardSpec;
  page_shape : Z * Z;
  tensor2d_shape : Z * Z
}.

Definition shape_in_pages (s : ShardSpecBuffer) : outcome (Z * Z) :=
  width_in_pages ← udiv (shape (tensor_shard_spec s)).1 (page_shape s).1;
  height_in_pages ← udiv (shape (tensor_shard_spec s)).2 (page_shape s).2;
  Ok (width_in_pages, height_in_pages).

(** [ShardSpecBuffer::size] *)
Definition shard_size (s : ShardSpecBuffer) : outcome Z :=
  p ← shape_in_pages s; Ok (u32 (p.1 * p.2)).

(** ** The pages of each shard *)
Record core_pages := mk_core_pages { host_pages : list Z; pages_shape : Z * Z }.

(** Height sharding: consecutive pages, the last shards shorter or empty.  State
    of the loop: pages left, next page, shards so far. *)
Definition height_step (pages_per_shard : Z) (shard_in_pages : Z * Z) (_ : Z)
    (s : Z * Z * list core_pages) : outcome (Z * Z * list core_pages) :=
  let '(rem_pages, page_id, shards) := s in
  if rem_pages =? 0 then Ok (rem_pages, page_id, shards ++ [mk_core_pages [] (0, 0)])
  else
    let num_cols := Z.min pages_per_shard rem_pages in
    shard_shape ←
      (if rem_pages <? pages_per_shard then
         rows ← udiv rem_pages shard_in_pages.2; Ok (rows, shard_in_pages.2)
       else Ok shard_in_pages);
    Ok (u32 (rem_pages - num_cols), u32 (page_id + num_cols),
        shards ++ [mk_core_pages ((λ j, u32 (page_id + j)) <$> range_u32 0 num_cols) shard_shape]).

(** Width and block sharding: the rectangle at [i_offset], [j_offset], cut at the
    edges of the tensor.  Its loops stop at the first of two bounds; [i] and [j]
    are where they stop. *)
Record block_state := mk_block_state {
  i_offset : Z; j_offset : Z; shard_in_row : Z; block_shards : list core_pages
}.

Definition block_step (shard_in_pages tensor2d_size : Z * Z) (num_shard_columns : Z) (_ : Z)
    (s : block_state) : outcome block_state :=
  let i_end := Z.min (u32 (shard_in_pages.1 + i_offset s)) tensor2d_size.1 in
  let j_end := Z.min (u32 (shard_in_pages.2 + j_offset s)) tensor2d_size.2 in
  let pages := i ← range_u32 (i_offset s) i_end;
               (λ j, u32 (u32 (i * tensor2d_size.2) + j)) <$> range_u32 (j_offset s) j_end in
  let i := Z.max (i_offset s) i_end in
  let j := if i_offset s <? i_end then Z.max (j_offset s) j_end else 0 in
  let shards := block_shards s ++ [mk_core_pages pages (u32 (i - i_offset s), u32 (j - j_offset s))] in
  Ok (if u32 (shard_in_row s + 1) =? num_shard_columns
      then mk_block_state (u32 (i_offset s + shard_in_pages.1)) 0 0 shards
      else mk_block_state (i_offset s) (u32 (j_offset s + shard_in_pages.2)) (u32 (shard_in_row s + 1)) shards).

Definition core_to_host_pages (total_pages pages_per_shard num_shards : Z) (layout : TensorMemoryLayout)
    (page_shape shard_shape tensor2d_size : Z * Z) : outcome (list core_pages) :=
  rows ← udiv shard_shape.1 page_shape.1;
  cols ← udiv shard_shape.2 page_shape.2;
  let shard_in_pages := (rows, cols) in
  match layout with
  | HEIGHT_SHARDED =>
    s ← for_each (height_step pages_per_shard shard_in_pages) (range_u32 0 num_shards)
          (u32 (tensor2d_size.1 * tensor2d_size.2), 0, []);
    Ok s.2
  | WIDTH_SHARDED | BLOCK_SHARDED =>
    num_shard_columns ← MathUtil.div_up tensor2d_size.2 shard_in_pages.2;
    s ← for_each (block_step shard_in_pages tensor2d_size num_shard_columns) (range_u32 0 num_shards)
          (mk_block_state 0 0 0 []);
    Ok (block_shards s)
  | _ => Ok (replicate (Z.to_nat num_shards) (mk_core_pages [] shard_in_pages))
  end.

(** ** Buffers *)
Record BufferPageMapping := mk_page_mapping {
  all_cores_ : list CoreCoord;
  core_bank_indices_ : list Z;
  core_host_page_indices_ : list (list Z);
  dev_page_to_core_mapping_ : list Z;
  dev_page_to_host_page_mapping_ : list (option Z);
  host_page_to_dev_page_mapping_ : list Z;
  core_to_core_id_ : gmap CoreCoord Z;
  host_page_to_local_shard_page_mapping_ : list Z;
  core_shard_shape_ : list (Z * Z)
}.

(** [device_] is the address of the device, [None] the null pointer. *)
Record Buffer := mk_buffer {
  device_ : option Z;
  size_ : Z;
  address_ : Z;
  page_size_ : Z;
  buffer_type_ : BufferType;
  buffer_layout_ : TensorMemoryLayout;
  shard_parameters_ : option ShardSpecBuffer;
  buffer_page_mapping_ : option BufferPageMapping;
  allocate_ : bool;
  bottom_up_ : option bool
}.

Definition validate_buffer_size_and_page_size (size page_size : Z) (buffer_type : BufferType)
    (buffer_layout : TensorMemoryLayout) (shard_parameters : option ShardSpecBuffer) : outcome unit :=
  _ ← check (negb (size =? 0) && negb (page_size =? 0)) TT_FATAL;
  _ ← check (size mod page_size =? 0) TT_FATAL;
  _ ← check (page_size mod 4 =? 0) TT_FATAL;
  if is_sharded buffer_layout then check (bool_decide (is_Some shard_parameters)) TT_FATAL
  else match buffer_layout with
       | SINGLE_BANK => check (page_size =? size) TT_FATAL
       | _ => Ok tt
       end.

(** [Buffer::address] *)
Definition buffer_address (b : Buffer) : Z := u32 (address_ b).

Definition num_pages (b : Buffer) : outcome Z := q ← udiv (size_ b) (page_size_ b); Ok (u32 q).

Definition shard_spec (b : Buffer) : outcome ShardSpecBuffer :=
  _ ← check (is_sharded (buffer_layout_ b)) TT_ASSERT;
  _ ← check (bool_decide (is_Some (shard_parameters_ b))) TT_ASSERT;
  of_option BAD_OPTIONAL (shard_parameters_ b).

(** [Buffer::num_cores] *)
Definition buffer_num_cores (b : Buffer) : outcome Z :=
  if negb (is_sharded (buffer_layout_ b)) then Ok 1
  else s ← shard_spec b; Ok (CoreCoord.num_cores (grid (tensor_shard_spec s))).

Definition num_dev_pages (b : Buffer) : outcome Z :=
  if negb (is_sharded (buffer_layout_ b)) then num_pages b
  else
    s ← shard_spec b; pages ← shard_size s; n ← buffer_num_cores b; Ok (u32 (u64 (pages * n))).

Definition is_l1 (b : Buffer) : bool := match buffer_type_ b with L1 | L1_SMALL => true | _ => false end.
Definition is_dram (b : Buffer) : bool := match buffer_type_ b with DRAM | TRACE => true | _ => false end.
Definition is_trace (b : Buffer) : bool := match buffer_type_ b with TRACE => true | _ => false end.

(** The cases of [CoreType] that buffers have. *)
Inductive BufferCoreType := CoreType_DRAM | CoreType_WORKER.
(** [Buffer::core_type] *)
Definition buffer_core_type (b : Buffer) : outcome BufferCoreType :=
  match buffer_type_ b with
  | DRAM => Ok CoreType_DRAM
  | L1 | L1_SMALL => Ok CoreType_WORKER
  | _ => Err TT_THROW
  end.

Definition set_size (size : Z) (b : Buffer) : Buffer :=
  mk_buffer (device_ b) size (address_ b) (page_size_ b) (buffer_type_ b) (buffer_layout_ b)
    (shard_parameters_ b) None (allocate_ b) (bottom_up_ b).
Definition set_address (addr : Z) (b : Buffer) : Buffer :=
  mk_buffer (device_ b) (size_ b) addr (page_size_ b) (buffer_type_ b) (buffer_layout_ b)
    (shard_parameters_ b) (buffer_page_mapping_ b) (allocate_ b) (bottom_up_ b).
Definition set_page_size (page_size : Z) (b : Buffer) : outcome Buffer :=
  r ← umod (size_ b) page_size;
  _ ← check (r =? 0) TT_FATAL;
  Ok (mk_buffer (device_ b) (size_ b) (address_ b) page_size (buffer_type_ b) (buffer_layout_ b)
        (shard_parameters_ b) None (allocate_ b) (bottom_up_ b)).
Definition set_shard_spec (s : ShardSpecBuffer) (b : Buffer) : Buffer :=
  mk_buffer (device_ b) (size_ b) (address_ b) (page_size_ b) (buffer_type_ b) (buffer_layout_ b)
    (Some s) None (allocate_ b) (bottom_up_ b).

(** ** The page mapping *)
(** [v[i] = a] *)
Definition set_at {A} (v : list A) (i : Z) (a : A) : outcome (list A) :=
  if (0 <=? i) && (i <? Z.of_nat (length v)) then Ok (<[Z.to_nat i := a]> v) else Err UB.

Fixpoint index_cores (core_id : Z) (cores : list CoreCoord) (m : gmap CoreCoord Z) : gmap CoreCoord Z :=
  match cores with
  | [] => m
  | core :: cores => index_cores (u32 (core_id + 1)) cores (map_insert core core_id m)
  end.

(** The vectors the loop over the pages fills, and its page on the device. *)
Record page_maps := mk_page_maps {
  dev_core : list Z;
  dev_host : list (option Z);
  host_local : list Z;
  host_dev : list Z;
  dev_page_index : Z
}.
(** The variables of one core: pages of the shard found so far, and passed by. *)
Record core_state := mk_core_state {
  maps : page_maps; valid_shard_page : Z; shard_page_id : Z; core_indices : list Z
}.

Definition page_step (core_index : Z) (c : core_pages) (page : Z * Z) (s : core_state) : outcome core_state :=
  let m := maps s in
  dc ← set_at (dev_core m) (dev_page_index m) core_index;
  if (page.1 <? (pages_shape c).1) && (page.2 <? (pages_shape c).2) then
    host_page ← at_ (host_pages c) (Z.to_nat (valid_shard_page s));
    dh ← set_at (dev_host m) (dev_page_index m) (Some host_page);
    hl ← set_at (host_local m) host_page (shard_page_id s);
    hd ← set_at (host_dev m) host_page (dev_page_index m);
    Ok (mk_core_state (mk_page_maps dc dh hl hd (u32 (dev_page_index m + 1)))
          (u32 (valid_shard_page s + 1)) (u32 (shard_page_id s + 1)) (core_indices s ++ [host_page]))
  else
    Ok (mk_core_state (mk_page_maps dc (dev_host m) (host_local m) (host_dev m) (u32 (dev_page_index m + 1)))
          (valid_shard_page s) (u32 (shard_page_id s + 1)) (core_indices s)).

(** The pages of a shard, in the order of the loops. *)
Definition shard_pages (shape_in_pages : Z * Z) : list (Z * Z) :=
  shard_page_x ← range_u32 0 shape_in_pages.1;
  (λ shard_page_y, (shard_page_x, shard_page_y)) <$> range_u32 0 shape_in_pages.2.

Definition core_step (shape_in_pages : Z * Z) (core : Z * core_pages) (s : page_maps * list (list Z))
  : outcome (page_maps * list (list Z)) :=
  let '(m, indices) := s in
  r ← for_each (page_step core.1 core.2) (shard_pages shape_in_pages) (mk_core_state m 0 0 []);
  Ok (maps r, indices ++ [core_indices r]).

Definition generate_buffer_page_mapping (b : Buffer) : outcome BufferPageMapping :=
  spec ← shard_spec b;
  let row_major := bool_decide (orientation (tensor_shard_spec spec) = ROW_MAJOR) in
  num_cores ← buffer_num_cores b;
  let all_cores := corerange_to_cores (grid (tensor_shard_spec spec)) (Some num_cores) row_major in
  _ ← check (num_cores =? Z.of_nat (length all_cores)) TT_ASSERT;
  num_dev_pages ← num_dev_pages b;
  pages_per_shard ← shard_size spec;
  shards ← core_to_host_pages num_dev_pages pages_per_shard num_cores (buffer_layout_ b) (page_shape spec)
             (shape (tensor_shard_spec spec)) (tensor2d_shape spec);
  num_pages ← num_pages b;
  pages ← shape_in_pages spec;
  r ← for_each (core_step pages) (zip (seqZ 0 (Z.of_nat (length shards))) shards)
        (mk_page_maps (replicate (Z.to_nat num_dev_pages) 0) (replicate (Z.to_nat num_dev_pages) None)
           (replicate (Z.to_nat num_pages) 0) (replicate (Z.to_nat num_pages) 0) 0, []);
  let '(m, indices) := r in
  Ok (mk_page_mapping all_cores [] indices (dev_core m) (dev_host m) (host_dev m)
        (index_cores 0 all_cores ∅) (host_local m) (pages_shape <$> shards)).

(** ** Addresses *)
(** common/base.hpp: [align] *)
Definition align_pow2 (addr alignment : Z) : Z :=
  u32 (Z.lor (u32 (addr - 1)) (u32 (alignment - 1)) + 1).

(** What the operations of buffers need of a device. *)
Record Device := mk_device {
  device_id : Z;
  initialized_ : bool;
  device_allocator : option Allocator
}.

Definition translate_page_address (d : Device) (b : Buffer) (offset bank_id : Z) : outcome Z :=
  o ← DeviceAllocator.bank_offset (device_allocator d) (buffer_type_ b) bank_id;
  Ok (u64 (u64 (address_ b + o) + offset)).

(** [Buffer::alignment] *)
Definition buffer_alignment (d : Device) : outcome Z :=
  DeviceAllocator.get_allocator_alignment (device_allocator d).

Definition aligned_page_size (d : Device) (b : Buffer) : outcome Z :=
  a ← buffer_alignment d; Ok (align_pow2 (u32 (page_size_ b)) a).
Definition aligned_size (d : Device) (b : Buffer) : outcome Z :=
  n ← num_dev_pages b; s ← aligned_page_size d b; Ok (u64 (n * s)).

Definition page_address (d : Device) (b : Buffer) (bank_id page_index : Z) : outcome Z :=
  num_banks ← DeviceAllocator.num_banks (device_allocator d) (buffer_type_ b);
  _ ← check (bank_id <? num_banks) TT_ASSERT;
  q ← udiv page_index num_banks;
  let pages_offset_within_bank := to_i32 q in
  a ← buffer_alignment d;
  aligned ← MathUtil.round_up (u32 (page_size_ b)) a;
  translate_page_address d b (u32 (aligned * pages_offset_within_bank)) bank_id.

Definition sharded_page_address (d : Device) (b : Buffer) (bank_id page_index : Z) : outcome Z :=
  _ ← check (is_sharded (buffer_layout_ b)) TT_ASSERT;
  s ← shard_spec b; pages ← shard_size s;
  r ← umod page_index pages;
  let pages_offset_within_bank := to_i32 r in
  a ← buffer_alignment d;
  aligned ← MathUtil.round_up (u32 (page_size_ b)) a;
  translate_page_address d b (u32 (aligned * pages_offset_within_bank)) bank_id.

(** [Buffer::dram_channel_from_bank_id], [Buffer::logical_core_from_bank_id] *)
Definition buffer_dram_channel (d : Device) (b : Buffer) (bank_id : Z) : outcome Z :=
  _ ← check (is_dram b) TT_ASSERT;
  DeviceAllocator.dram_channel_from_bank_id (device_allocator d) bank_id.
Definition buffer_logical_core (d : Device) (b : Buffer) (bank_id : Z) : outcome CoreCoord :=
  _ ← check (is_l1 b) TT_ASSERT;
  DeviceAllocator.logical_core_from_bank_id (device_allocator d) bank_id.

Section noc.
(** The soc descriptor: the NoC coordinates of a DRAM channel and of a worker core. *)
Context (dram_core_from_dram_channel : Z → outcome CoreCoord)
        (worker_core_from_logical_core : CoreCoord → outcome CoreCoord).

Definition noc_coordinates (d : Device) (b : Buffer) (bank_id : Z) : outcome CoreCoord :=
  match buffer_type_ b with
  | DRAM | TRACE => dram_channel ← buffer_dram_channel d b bank_id; dram_core_from_dram_channel dram_channel
  | L1 | L1_SMALL => logical_core ← buffer_logical_core d b bank_id; worker_core_from_logical_core logical_core
  | SYSTEM_MEMORY => Err TT_THROW
  end.
End noc.
