(* ===== verification/BufferStore.v ===== *)
(** * Buffer objects and their lifetimes (impl/buffers/buffer.cpp, tt_metal.cpp, command_queue.cpp)

    Objects and devices are reached through pointers, integers here; a pointer to
    no object is dangling.  [BUFFER_MAP] maps the id of a device and an address to
    a buffer object, for all devices of the process.  Command queues are in
    passthrough mode, where [run_command] runs the command at once, and no hook of
    the graph tracker is registered.  A call that throws leaves the store it got
    to. *)
From stdpp Require Import sorting.
From S2P Require Import Prelude FreeList CoreCoord BankManager Allocator DeviceAllocator AllocatorOps Buffer.

Record store := mk_store {
  objects : gmap Z Buffer;
  devices : gmap Z Device;
  BUFFER_MAP : gmap (Z * Z) Z
}.

Definition set_objects (o : gmap Z Buffer) (s : store) : store := mk_store o (devices s) (BUFFER_MAP s).
Definition set_devices (d : gmap Z Device) (s : store) : store := mk_store (objects s) d (BUFFER_MAP s).
Definition set_buffer_map (m : gmap (Z * Z) Z) (s : store) : store := mk_store (objects s) (devices s) m.

Definition get_object (p : Z) : ST store Buffer := s ← get_st; lift_st (of_option UB (objects s !! p)).
Definition put_object (p : Z) (b : Buffer) : ST store unit := modify_st (λ s, set_objects (<[p := b]> (objects s)) s).
Definition get_device (d : option Z) : ST store Device :=
  s ← get_st; lift_st (of_option UB (p ← d; devices s !! p)).

(** A call on the allocator [*device->allocator_]. *)
Definition with_device_allocator {B} (d : option Z) (f : ST Allocator B) : ST store B := λ s,
  match p ← d; dev ← devices s !! p; a ← device_allocator dev; Some (p, dev, a) with
  | None => (Err UB, s)
  | Some (p, dev, a) =>
    let '(r, a') := f a in
    (r, set_devices (<[p := mk_device (device_id dev) (initialized_ dev) (Some a')]> (devices s)) s)
  end.

(** ** Allocating *)
(** The bytes and the shards that [EnqueueAllocateBufferImpl] asks for. *)
Definition allocation_request (b : Buffer) : outcome (Z * option Z) :=
  if is_sharded (buffer_layout_ b) then
    s ← shard_spec b; pages ← shard_size s; n ← buffer_num_cores b;
    Ok (u64 (u64 (pages * n) * page_size_ b), Some n)
  else Ok (size_ b, None).

(** Its assertion is on [allocated_addr], 32 bits wide already. *)
Definition EnqueueAllocateBufferImpl (p : Z) (bottom_up : bool) : ST store unit :=
  b ← get_object p;
  request ← lift_st (allocation_request b);
  address ← with_device_allocator (device_ b)
    (AllocatorOps.allocate_buffer request.1 (page_size_ b) (buffer_type_ b) bottom_up request.2);
  let allocated_addr := u32 address in
  _ ← check_st (allocated_addr <=? 2 ^ 32 - 1) TT_ASSERT;
  put_object p (set_address allocated_addr b).

(** [Buffer::allocate] *)
Definition buffer_allocate (p : Z) : ST store unit :=
  b ← get_object p;
  _ ← check_st (bool_decide (is_Some (device_ b))) TT_ASSERT;
  let bottom_up := default (is_dram b) (bottom_up_ b) in
  _ ← EnqueueAllocateBufferImpl p bottom_up;
  b ← get_object p;
  d ← get_device (device_ b);
  modify_st (λ s, set_buffer_map (map_insert (device_id d, address_ b) p (BUFFER_MAP s)) s).

(** [EnqueueDeallocateBufferImpl], with the address that [Buffer::address] returns. *)
Definition EnqueueDeallocateBufferImpl (d : option Z) (device_address : Z) (t : BufferType) : ST store unit :=
  with_device_allocator d (AllocatorOps.deallocate_buffer device_address t).

(** [size_ = 0] *)
Definition clear_size (b : Buffer) : Buffer :=
  mk_buffer (device_ b) 0 (address_ b) (page_size_ b) (buffer_type_ b) (buffer_layout_ b)
    (shard_parameters_ b) (buffer_page_mapping_ b) (allocate_ b) (bottom_up_ b).

(** [Buffer::deallocate] *)
Definition buffer_deallocate (p : Z) : ST store unit :=
  b ← get_object p;
  match device_ b with
  | None => mret tt
  | Some _ =>
    d ← get_device (device_ b);
    if negb (initialized_ d) || (size_ b =? 0) || negb (allocate_ b) then mret tt
    else
      _ ← put_object p (clear_size b);
      _ ← check_st (bool_decide (is_Some (device_allocator d))) TT_ASSERT;
      _ ← modify_st (λ s, set_buffer_map (delete (device_id d, address_ b) (BUFFER_MAP s)) s);
      EnqueueDeallocateBufferImpl (device_ b) (buffer_address b) (buffer_type_ b)
  end.

(** ** Constructors and the destructor *)
(** An object at [p] with the members [b], then the body of its constructor; an
    exception ends the object's life. *)
Definition construct (p : Z) (b : Buffer) (body : ST store unit) : ST store unit := λ s,
  match objects s !! p with
  | Some _ => (Err UB, s)
  | None =>
    match (_ ← put_object p b; body) s with
    | (Ok r, s') => (Ok r, s')
    | (Err e, s') => (Err e, set_objects (delete p (objects s')) s')
    end
  end.

(** Members without an initializer start out with what is in memory. *)
Record uninitialized := mk_uninitialized { u_size : Z; u_address : Z; u_page_size : Z }.

(** [Buffer()] *)
Definition Buffer_default (p : Z) (u : uninitialized) : ST store unit :=
  construct p (mk_buffer None (u_size u) (u_address u) (u_page_size u) DRAM INTERLEAVED None None true None) (mret tt).

Definition Buffer_new (p : Z) (u : uninitialized) (device : option Z) (size page_size : Z) (buffer_type : BufferType)
    (buffer_layout : TensorMemoryLayout) (shard_parameters : option ShardSpecBuffer) (bottom_up : option bool)
    (allocate : bool) : ST store unit :=
  construct p (mk_buffer device size (u_address u) page_size buffer_type buffer_layout shard_parameters None allocate bottom_up)
    (_ ← check_st (bool_decide (is_Some device)) TT_FATAL;
     d ← get_device device;
     _ ← check_st (bool_decide (is_Some (device_allocator d))) TT_FATAL;
     _ ← lift_st (validate_buffer_size_and_page_size size page_size buffer_type buffer_layout shard_parameters);
     if allocate then buffer_allocate p else mret tt).

(** The members a copy gets: all but the address. *)
Definition copied_members (other : Buffer) (address : Z) : Buffer := set_address address other.

Definition Buffer_copy (p : Z) (u : uninitialized) (other : Z) : ST store unit :=
  b ← get_object other;
  construct p (copied_members b (u_address u)) (if allocate_ b then buffer_allocate p else mret tt).

Definition Buffer_copy_assign (p other : Z) : ST store unit :=
  this ← get_object p;
  b ← get_object other;
  if p =? other then mret tt
  else
    _ ← put_object p (copied_members b (address_ this));
    if allocate_ b then buffer_allocate p else mret tt.

Section moves.
(** What is left of a shard specification that was moved from. *)
Context (moved_from : ShardSpecBuffer → ShardSpecBuffer).

Definition released (b : Buffer) : Buffer :=
  mk_buffer None (size_ b) (address_ b) (page_size_ b) (buffer_type_ b) (buffer_layout_ b)
    (moved_from <$> shard_parameters_ b) None (allocate_ b) (bottom_up_ b).

Definition Buffer_move (p other : Z) : ST store unit :=
  b ← get_object other;
  construct p b (put_object other (released b)).

Definition Buffer_move_assign (p other : Z) : ST store unit :=
  _ ← get_object p;
  b ← get_object other;
  if p =? other then mret tt
  else _ ← put_object p b; put_object other (released b).
End moves.

(** [~Buffer] *)
Definition Buffer_destroy (p : Z) : ST store unit :=
  _ ← buffer_deallocate p;
  modify_st (λ s, set_objects (delete p (objects s)) s).

(** ** Closing a device *)
(** The order of the keys of [std::map]. *)
Definition key_le (p q : (Z * Z) * Z) : Prop := p.1.1 < q.1.1 ∨ p.1.1 = q.1.1 ∧ p.1.2 <= q.1.2.
#[export] Instance key_le_dec p q : Decision (key_le p q).
Proof. unfold key_le. apply _. Defined.

Fixpoint deallocate_all_of (id : Z) (entries : list ((Z * Z) * Z)) : ST store unit :=
  match entries with
  | [] => mret tt
  | (buf_attr, buf) :: entries =>
    _ ← (if buf_attr.1 =? id then buffer_deallocate buf else mret tt);
    deallocate_all_of id entries
  end.

(** The part of [Device::close] from [allocator::clear] on, to the end of the loop. *)
Definition close_buffers (p : Z) : ST store unit :=
  d ← get_device (Some p);
  _ ← with_device_allocator (Some p) AllocatorOps.clear;
  s ← get_st;
  deallocate_all_of (device_id d) (merge_sort key_le (map_to_list (BUFFER_MAP s))).
