(* ===== verification/BufferShards.v ===== *)
(** * The page mapping of a sharded buffer is a bijection

    [generate_buffer_page_mapping] fills its vectors page by page, going through
    the shards.  [assign] is the list of host pages one shard contributes;
    [filled] describes the vectors after a list of device pages.  The shards of
    each layout have a closed form, [dev_to_host], whose inverse is [host_to_dev]. *)
From S2P Require Import Prelude Arith CoreCoord CoreCoordProps BankManager Allocator AllocatorL1 Buffer.
(** ** One shard *)
Definition valid_page (shape page : Z * Z) : bool := (page.1 <? shape.1) && (page.2 <? shape.2).

(** The pages inside of [shape] get the host pages [hs] in order. *)
Fixpoint assign (shape : Z * Z) (pages : list (Z * Z)) (hs : list Z) : list (option Z) :=
  match pages with
  | [] => []
  | p :: pages =>
    if valid_page shape p then
      match hs with [] => None :: assign shape pages [] | h :: hs => Some h :: assign shape pages hs end
    else None :: assign shape pages hs
  end.

Definition num_valid (shape : Z * Z) (pages : list (Z * Z)) : nat := length (filter (valid_page shape) pages).

Lemma length_assign shape pages hs : length (assign shape pages hs) = length pages.
Proof.
  revert hs; induction pages as [|p pages IH]; intros hs; [done|]. simpl.
  destruct (valid_page shape p); [destruct hs|]; simpl; by rewrite IH.
Qed.

Lemma assign_app shape ps qs hs :
  (num_valid shape ps <= length hs)%nat →
  assign shape (ps ++ qs) hs = assign shape ps hs ++ assign shape qs (drop (num_valid shape ps) hs).
Proof.
  unfold num_valid. revert hs; induction ps as [|p ps IH]; intros hs Hl; [done|]. simpl. rewrite filter_cons in *.
  destruct (valid_page shape p) eqn:E; cbn [Is_true] in *.
  - rewrite decide_True in * by done. simpl in *. destruct hs as [|h hs]; simpl in *; [lia|]. by rewrite IH by lia.
  - rewrite decide_False in * by (by intros []). simpl. by rewrite IH.
Qed.

(** ** The vectors *)
Record filled (S : Z) (D H : nat) (E : list (Z * option Z)) (m : page_maps) : Prop := mk_filled {
  fl_len : (length E <= D)%nat;
  fl_core : dev_core m = E.*1 ++ replicate (D - length E) 0;
  fl_host : dev_host m = E.*2 ++ replicate (D - length E) None;
  fl_index : dev_page_index m = Z.of_nat (length E);
  fl_hd_len : length (host_dev m) = H;
  fl_hl_len : length (host_local m) = H;
  fl_hd : ∀ d k p, E !! d = Some (k, Some p) → host_dev m !! Z.to_nat p = Some (Z.of_nat d);
  fl_hl : ∀ d k p, E !! d = Some (k, Some p) → host_local m !! Z.to_nat p = Some (Z.of_nat d mod S)
}.

Lemma set_at_ok {A} (v : list A) i a :
  0 <= i < Z.of_nat (length v) → set_at v i a = Ok (<[Z.to_nat i := a]> v).
Proof. intros. unfold set_at. by rewrite (proj2 (Z.leb_le _ _)), (proj2 (Z.ltb_lt _ _)) by lia. Qed.

(** Writing the next free cell of a vector. *)
Lemma set_next {A} (l : list A) (n : nat) (a b : A) :
  (0 < n)%nat → set_at (l ++ replicate n b) (Z.of_nat (length l)) a = Ok ((l ++ [a]) ++ replicate (n - 1) b).
Proof.
  intros Hn. rewrite set_at_ok by (rewrite length_app, length_replicate; lia). f_equal.
  rewrite Nat2Z.id. destruct n as [|n]; [lia|]. simpl. rewrite Nat.sub_0_r.
  rewrite <- (Nat.add_0_r (length l)) at 1. rewrite insert_app_r. simpl. by rewrite <- app_assoc.
Qed.

(** The host pages that occur in a list of device pages. *)
Definition hosts (E : list (Z * option Z)) : list Z := omap snd E.

Lemma elem_of_hosts E p : p ∈ hosts E ↔ ∃ d k, E !! d = Some (k, Some p).
Proof.
  unfold hosts. rewrite list_elem_of_omap. split.
  - intros ([k o] & (d & Hd)%list_elem_of_lookup & [= ->]). by exists d, k.
  - intros (d & k & Hd). exists (k, Some p). split; [by eapply list_elem_of_lookup_2|done].
Qed.

Section page.
Context (S : Z) (D H : nat) (HD : Z.of_nat D < 2 ^ 32) (HS : 0 < S < 2 ^ 32).

Lemma filled_skip E m k :
  filled S D H E m → (length E < D)%nat →
  ∃ dc, set_at (dev_core m) (dev_page_index m) k = Ok dc
    ∧ filled S D H (E ++ [(k, None)])
        (mk_page_maps dc (dev_host m) (host_local m) (host_dev m) (u32 (dev_page_index m + 1))).
Proof.
  intros [? Hc Hh Hi Hl1 Hl2 Hd Hl] Hlt. eexists. split.
  - rewrite Hc, Hi, <- (length_fmap fst E). apply set_next. rewrite ?length_fmap. lia.
  - split; cbn; try done.
    + rewrite length_app. simpl. lia.
    + rewrite fmap_app, length_app. simpl. f_equal. f_equal. rewrite ?length_fmap. lia.
    + rewrite Hh, fmap_app, length_app. simpl. rewrite <- app_assoc. f_equal.
      replace (D - length E)%nat with (Datatypes.S (D - (length E + 1))) by lia. done.
    + rewrite Hi, length_app. simpl. rewrite u32_small by lia. lia.
    + intros d k' p. rewrite lookup_app_Some. intros [?|[_ Hn]]; [by eapply Hd|].
      by apply list_lookup_singleton_Some in Hn as [_ ?].
    + intros d k' p. rewrite lookup_app_Some. intros [?|[_ Hn]]; [by eapply Hl|].
      by apply list_lookup_singleton_Some in Hn as [_ ?].
Qed.

Lemma filled_assign E m k p :
  filled S D H E m → (length E < D)%nat → 0 <= p < Z.of_nat H → p ∉ hosts E → (∀ q, q ∈ hosts E → 0 <= q) →
  ∃ dc dh hl hd, set_at (dev_core m) (dev_page_index m) k = Ok dc
    ∧ set_at (dev_host m) (dev_page_index m) (Some p) = Ok dh
    ∧ set_at (host_local m) p (Z.of_nat (length E) mod S) = Ok hl
    ∧ set_at (host_dev m) p (dev_page_index m) = Ok hd
    ∧ filled S D H (E ++ [(k, Some p)]) (mk_page_maps dc dh hl hd (u32 (dev_page_index m + 1))).
Proof.
  intros [? Hc Hh Hi Hl1 Hl2 Hd Hl] Hlt Hp Hfresh Hpos.
  assert (Hne : ∀ d k' q, E !! d = Some (k', Some q) → Z.to_nat p ≠ Z.to_nat q).
  { intros d k' q Hq Heq. assert (q ∈ hosts E) by (apply elem_of_hosts; by exists d, k').
    specialize (Hpos q ltac:(done)). assert (p = q) as -> by lia. done. }
  do 4 eexists. split_and!.
  - rewrite Hc, Hi, <- (length_fmap fst E). apply set_next. rewrite ?length_fmap. lia.
  - rewrite Hh, Hi, <- (length_fmap snd E). apply set_next. rewrite ?length_fmap. lia.
  - apply set_at_ok. lia.
  - apply set_at_ok. lia.
  - split; cbn; rewrite ?length_insert; try done.
    + rewrite length_app. simpl. lia.
    + rewrite fmap_app, length_app. simpl. f_equal. f_equal. rewrite ?length_fmap. lia.
    + rewrite fmap_app, length_app. simpl. f_equal. f_equal. rewrite ?length_fmap. lia.
    + rewrite Hi, length_app. simpl. rewrite u32_small by lia. lia.
    + intros d k' q. rewrite lookup_app_Some. intros [Hq|[Hge Hq]].
      * rewrite list_lookup_insert_ne by (by eapply Hne). by eapply Hd.
      * apply list_lookup_singleton_Some in Hq as [Hz [= <- <-]].
        rewrite list_lookup_insert_eq by lia. rewrite Hi. f_equal. lia.
    + intros d k' q. rewrite lookup_app_Some. intros [Hq|[Hge Hq]].
      * rewrite list_lookup_insert_ne by (by eapply Hne). by eapply Hl.
      * apply list_lookup_singleton_Some in Hq as [Hz [= <- <-]].
        rewrite list_lookup_insert_eq by lia. do 2 f_equal. lia.
Qed.

(** The device pages of shard [k]. *)
Definition entries (k : Z) (pages : list (Z * Z)) (shape : Z * Z) (hs : list Z) : list (Z * option Z) :=
  (λ o, (k, o)) <$> assign shape pages hs.

Lemma length_entries k pages shape hs : length (entries k pages shape hs) = length pages.
Proof. unfold entries. by rewrite length_fmap, length_assign. Qed.

Lemma hosts_app E F : hosts (E ++ F) = hosts E ++ hosts F.
Proof. apply omap_app. Qed.

Lemma run_valid_page k c page s h dc dh hl hd :
  valid_page (pages_shape c) page = true → host_pages c !! Z.to_nat (valid_shard_page s) = Some h →
  set_at (dev_core (maps s)) (dev_page_index (maps s)) k = Ok dc →
  set_at (dev_host (maps s)) (dev_page_index (maps s)) (Some h) = Ok dh →
  set_at (host_local (maps s)) h (shard_page_id s) = Ok hl →
  set_at (host_dev (maps s)) h (dev_page_index (maps s)) = Ok hd →
  page_step k c page s
  = Ok (mk_core_state (mk_page_maps dc dh hl hd (u32 (dev_page_index (maps s) + 1)))
          (u32 (valid_shard_page s + 1)) (u32 (shard_page_id s + 1)) (core_indices s ++ [h])).
Proof.
  unfold page_step, valid_page. intros -> Hh H1 H2 H3 H4. rewrite H1. cbn. rewrite (at_some _ _ _ Hh). cbn.
  rewrite H2. cbn. rewrite H3. cbn. by rewrite H4.
Qed.

Lemma run_skipped_page k c page s dc :
  valid_page (pages_shape c) page = false →
  set_at (dev_core (maps s)) (dev_page_index (maps s)) k = Ok dc →
  page_step k c page s
  = Ok (mk_core_state (mk_page_maps dc (dev_host (maps s)) (host_local (maps s)) (host_dev (maps s))
                         (u32 (dev_page_index (maps s) + 1)))
          (valid_shard_page s) (u32 (shard_page_id s + 1)) (core_indices s)).
Proof. unfold page_step, valid_page. intros -> H1. by rewrite H1. Qed.

Lemma run_pages k c pages s E :
  let hs := drop (Z.to_nat (valid_shard_page s)) (host_pages c) in
  let E' := entries k pages (pages_shape c) hs in
  filled S D H E (maps s) →
  0 <= valid_shard_page s → (num_valid (pages_shape c) pages <= length hs)%nat →
  Z.of_nat (length E) = k * S + shard_page_id s → 0 <= shard_page_id s →
  shard_page_id s + Z.of_nat (length pages) <= S → (length E + length pages <= D)%nat →
  NoDup (hosts (E ++ E')) → (∀ q, q ∈ hosts (E ++ E') → 0 <= q < Z.of_nat H) →
  Z.of_nat (length (host_pages c)) < 2 ^ 32 →
  ∃ s', for_each (page_step k c) pages s = Ok s'
    ∧ filled S D H (E ++ E') (maps s') ∧ core_indices s' = core_indices s ++ hosts E'.
Proof.
  revert s E; induction pages as [|[px py] pages IH]; intros s E hs E' Hf Hv Hn Hlen Hid Hfit HDfit Hnd Hran Hc.
  { exists s. unfold E'. cbn. by rewrite !app_nil_r. }
  cbn [length] in Hfit, HDfit. cbn [for_each].
  unfold num_valid in Hn. rewrite filter_cons in Hn.
  assert (Hid' : shard_page_id s = Z.of_nat (length E) mod S).
  { rewrite Hlen, Z.add_comm, Z_mod_plus_full. symmetry. apply Z.mod_small. lia. }
  destruct (valid_page (pages_shape c) (px, py)) eqn:Hvp; cbn [Is_true] in Hn.
  - rewrite decide_True in Hn by done. cbn [length] in Hn.
    destruct hs as [|h hs'] eqn:Ehs; cbn [length] in Hn; [lia|].
    assert (HE : E ++ E' = (E ++ [(k, Some h)]) ++ entries k pages (pages_shape c) hs').
    { rewrite <- app_assoc. unfold E', entries. cbn [assign]. by rewrite Hvp. }
    assert (Hho : hosts E' = h :: hosts (entries k pages (pages_shape c) hs')).
    { unfold E', entries. cbn [assign]. by rewrite Hvp. }
    rewrite HE, Hho in *.
    assert (Hh : host_pages c !! Z.to_nat (valid_shard_page s) = Some h).
    { rewrite <- (Nat.add_0_r (Z.to_nat _)), <- lookup_drop. fold hs. by rewrite Ehs. }
    pose proof (lookup_lt_Some _ _ _ Hh) as Hvlt.
    assert (Hhs' : drop (Z.to_nat (u32 (valid_shard_page s + 1))) (host_pages c) = hs').
    { rewrite u32_small by lia. replace (Z.to_nat (valid_shard_page s + 1)) with (Datatypes.S (Z.to_nat (valid_shard_page s))) by lia.
      unfold hs in Ehs. rewrite (drop_S _ _ _ Hh) in Ehs. by injection Ehs. }
    rewrite !hosts_app in Hnd. apply NoDup_app in Hnd as Hnd'. destruct Hnd' as ([_ [Hfr _]]%NoDup_app & _).
    destruct (filled_assign E (maps s) k h) as (dc & dh & hl & hd & H1 & H2 & H3 & H4 & Hf'); [done|lia| | | |].
    + apply Hran. rewrite !hosts_app, !elem_of_app. left. right. by left.
    + intros Hin. apply (Hfr h Hin). by left.
    + intros q Hq. apply Hran. rewrite !hosts_app, !elem_of_app. by left; left.
    + rewrite <- Hid' in H3. erewrite run_valid_page by done. cbn [mbind outcome_bind].
      match goal with |- context [for_each _ _ ?st] => destruct (IH st (E ++ [(k, Some h)])) as (s' & -> & Hf2 & Hi2) end;
        cbn; rewrite ?Hhs'; try done; rewrite ?length_app, ?u32_small by lia; cbn [length]; try lia.
      * unfold num_valid. lia.
      * by rewrite !hosts_app.
      * exists s'. cbn in Hf2, Hi2. rewrite Hhs' in Hf2, Hi2. split_and!; [done|exact Hf2|by rewrite Hi2, <- app_assoc].
  - rewrite decide_False in Hn by (by intros []).
    assert (HE : E ++ E' = (E ++ [(k, None)]) ++ entries k pages (pages_shape c) hs).
    { rewrite <- app_assoc. unfold E', entries. cbn [assign]. by rewrite Hvp. }
    assert (Hho : hosts E' = hosts (entries k pages (pages_shape c) hs)).
    { unfold E', entries. cbn [assign]. by rewrite Hvp. }
    rewrite HE, Hho in *. destruct (filled_skip E (maps s) k) as (dc & H1 & Hf'); [done|lia|].
    erewrite run_skipped_page by done. cbn [mbind outcome_bind].
    match goal with |- context [for_each _ _ ?st] => destruct (IH st (E ++ [(k, None)])) as (s' & -> & Hf2 & Hi2) end;
      cbn; try done; rewrite ?length_app, ?u32_small by lia; cbn [length]; try lia.
    exists s'. by rewrite Hi2.
Qed.

(** The device pages of the shards from [k] on. *)
Fixpoint all_entries (k : Z) (pages : list (Z * Z)) (shards : list core_pages) : list (Z * option Z) :=
  match shards with
  | [] => []
  | c :: shards => entries k pages (pages_shape c) (host_pages c) ++ all_entries (k + 1) pages shards
  end.

(** The shapes of a shard do not promise more pages than it has. *)
Definition shard_fits (pages : list (Z * Z)) (c : core_pages) : Prop :=
  (num_valid (pages_shape c) pages <= length (host_pages c))%nat ∧ Z.of_nat (length (host_pages c)) < 2 ^ 32.

Lemma run_cores shp shards k m ind E :
  let pages := shard_pages shp in
  let E' := all_entries k pages shards in
  filled S D H E m → Z.of_nat (length pages) = S → Z.of_nat (length E) = k * S → 0 <= k →
  (length E + length pages * length shards <= D)%nat → Forall (shard_fits pages) shards →
  NoDup (hosts (E ++ E')) → (∀ q, q ∈ hosts (E ++ E') → 0 <= q < Z.of_nat H) →
  ∃ m' ind', for_each (core_step shp) (zip (seqZ k (Z.of_nat (length shards))) shards) (m, ind) = Ok (m', ind')
    ∧ filled S D H (E ++ E') m'
    ∧ ind' = ind ++ imap (λ i c, hosts (entries (k + Z.of_nat i) pages (pages_shape c) (host_pages c))) shards.
Proof.
  intros pages. revert k m ind E; induction shards as [|c shards IH]; intros k m ind E E' Hf Hp Hlen Hk HDl Hfit Hnd Hran.
  { exists m, ind. unfold E'. cbn. by rewrite !app_nil_r. }
  apply Forall_cons in Hfit as [[Hn Hc] Hfit]. cbn [length] in HDl |- *. rewrite seqZ_cons by lia.
  replace (Z.pred (Z.of_nat (Datatypes.S (length shards)))) with (Z.of_nat (length shards)) by lia.
  cbn [zip zip_with for_each]. unfold E' in *. cbn [all_entries] in *. rewrite app_assoc in Hnd, Hran |- *.
  set (E1 := entries k pages (pages_shape c) (host_pages c)) in *.
  assert (Hnd1 : NoDup (hosts (E ++ E1))) by (rewrite hosts_app in Hnd; by apply NoDup_app in Hnd as [? _]).
  destruct (run_pages k c pages (mk_core_state m 0 0 []) E) as (s' & Hrun & Hf' & Hi'); cbn [maps valid_shard_page shard_page_id];
    try done; try lia; try nia.
  { intros q Hq. apply Hran. rewrite hosts_app. apply elem_of_app. by left. }
  unfold core_step at 2. cbn [fst snd]. fold pages. rewrite Hrun. cbn.
  destruct (IH (k + 1) (maps s') (ind ++ [core_indices s']) (E ++ E1)) as (m' & ind' & Hrun' & Hf2 & Hi2);
    try done; rewrite ?length_app; unfold E1; rewrite ?length_entries; try nia.
  exists m', ind'. split; [exact Hrun'|]. split; [exact Hf2|].
  rewrite Hi2, <- app_assoc. f_equal. cbn [app]. f_equal.
  - rewrite Hi'. cbn. by rewrite Z.add_0_r.
  - apply imap_ext. intros i c' _. cbn. do 2 f_equal. lia.
Qed.
End page.

(** * The pages of the shards in closed form *)
(** ** Rectangles, row by row *)
Definition rect {A} (g : Z → Z → A) (i0 a j0 b : Z) : list A := i ← seqZ i0 a; g i <$> seqZ j0 b.

Lemma length_rect {A} (g : Z → Z → A) i0 a j0 b : 0 <= a → 0 <= b → Z.of_nat (length (rect g i0 a j0 b)) = a * b.
Proof.
  intros Ha Hb. revert a Ha. apply (natlike_ind (λ a, Z.of_nat (length (rect g i0 a j0 b)) = a * b)); [done|].
  intros a Ha IH. unfold rect in *. rewrite <- Z.add_1_r, seqZ_app, bind_app, length_app, Nat2Z.inj_add, IH by lia.
  change (seqZ (i0 + a) 1) with [i0 + a]. cbn. rewrite app_nil_r, length_fmap, length_seqZ. lia.
Qed.

Lemma seqZ_split i n k : 0 <= k < n → seqZ i n = seqZ i k ++ (i + k) :: seqZ (i + k + 1) (n - k - 1).
Proof.
  intros Hk. replace n with (k + (n - k)) at 1 by lia. rewrite seqZ_app by lia. f_equal.
  rewrite seqZ_cons by lia. f_equal; lia.
Qed.

Lemma rect_split {A} (g : Z → Z → A) i0 a j0 b x y :
  0 <= x < a → 0 <= y < b →
  ∃ rest, rect g i0 a j0 b = (rect g i0 x j0 b ++ (g (i0 + x) <$> seqZ j0 y)) ++ g (i0 + x) (j0 + y) :: rest.
Proof.
  intros Hx Hy. unfold rect.
  rewrite (seqZ_split i0 a x Hx), bind_app, bind_cons.
  rewrite (seqZ_split j0 b y Hy), fmap_app, fmap_cons. eexists. rewrite <- !app_assoc. cbn [app]. reflexivity.
Qed.

Lemma lookup_rect {A} (g : Z → Z → A) i0 a j0 b x y :
  0 <= x < a → 0 <= y < b → rect g i0 a j0 b !! Z.to_nat (x * b + y) = Some (g (i0 + x) (j0 + y)).
Proof.
  intros Hx Hy. destruct (rect_split g i0 a j0 b x y Hx Hy) as (rest & ->).
  apply list_lookup_middle. rewrite length_app, length_fmap, length_seqZ.
  pose proof (length_rect g i0 x j0 b). nia.
Qed.

Lemma shard_pages_rect sr sc : shard_pages (sr, sc) = rect pair 0 sr 0 sc.
Proof. unfold shard_pages, rect, range_u32. cbn. by rewrite !Z.sub_0_r. Qed.

(** ** One shard *)
Lemma lookup_assign shape pages hs i :
  assign shape pages hs !! i
  = match pages !! i with
    | Some p => Some (if valid_page shape p then hs !! num_valid shape (take i pages) else None)
    | None => None
    end.
Proof.
  unfold num_valid. revert hs i; induction pages as [|p pages IH]; intros hs i; [done|]. cbn [assign].
  destruct i as [|i]; cbn [lookup list_lookup take filter list_filter].
  - destruct (valid_page shape p); [by destruct hs|done].
  - destruct (valid_page shape p) eqn:E; cbn [Is_true]; [rewrite decide_True by done|rewrite decide_False by (by intros [])].
    + destruct hs as [|h hs]; cbn [lookup list_lookup]; rewrite IH; [|done].
      destruct (pages !! i) as [q|]; [|done]. by destruct (valid_page shape q).
    + apply IH.
Qed.

Lemma num_valid_row a b x n : 0 <= b → 0 <= n →
  Z.of_nat (num_valid (a, b) (pair x <$> seqZ 0 n)) = if x <? a then Z.min n b else 0.
Proof.
  intros Hb. revert n. apply natlike_ind; [destruct (x <? a); [by rewrite Z.min_l by lia|done]|]. intros n Hn IH.
  rewrite <- Z.add_1_r, seqZ_app, fmap_app by lia. unfold num_valid in *. rewrite filter_app, length_app, Nat2Z.inj_add, IH.
  change (seqZ (0 + n) 1) with [0 + n]. cbn [fmap list_fmap]. rewrite filter_cons, filter_nil.
  unfold valid_page. cbn [fst snd]. destruct (Z.ltb_spec x a), (Z.ltb_spec (0 + n) b); cbn [andb];
    case_decide; cbn [Is_true length] in *; try tauto; lia.
Qed.

Lemma num_valid_rect a b x n : 0 <= a → 0 <= b → 0 <= n → 0 <= x →
  Z.of_nat (num_valid (a, b) (rect pair 0 x 0 n)) = Z.min x a * Z.min n b.
Proof.
  intros Ha Hb Hn. revert x. apply natlike_ind; [by rewrite (Z.min_l 0 a) by lia|]. intros x Hx IH.
  assert (Hr : rect pair 0 (Z.succ x) 0 n = rect pair 0 x 0 n ++ (pair x <$> seqZ 0 n)).
  { unfold rect. rewrite <- Z.add_1_r, seqZ_app, bind_app by lia. change (seqZ (0 + x) 1) with [0 + x]. cbn [mbind list_bind]. by rewrite app_nil_r. }
  rewrite Hr. pose proof (num_valid_row a b x n Hb Hn) as Hrow. unfold num_valid in *.
  rewrite filter_app, length_app, Nat2Z.inj_add, IH, Hrow. destruct (Z.ltb_spec x a); nia.
Qed.

Lemma rect_fits sr sc a b hs :
  0 <= sr → 0 <= sc → 0 <= a <= sr → 0 <= b → (0 < a → b <= sc) → (0 < a → Z.of_nat (length hs) = a * b) →
  Z.of_nat (length hs) < 2 ^ 32 → shard_fits (shard_pages (sr, sc)) (mk_core_pages hs (a, b)).
Proof.
  intros. split; [|done]. cbn. rewrite shard_pages_rect. pose proof (num_valid_rect a b sr sc).
  destruct (Z.eq_dec a 0); nia.
Qed.

Lemma lookup_assign_rect sr sc a b hs x y :
  0 <= x < sr → 0 <= y < sc → 0 <= a → 0 <= b → (0 < a → b <= sc) →
  assign (a, b) (shard_pages (sr, sc)) hs !! Z.to_nat (x * sc + y)
  = Some (if (x <? a) && (y <? b) then hs !! Z.to_nat (x * b + y) else None).
Proof.
  intros Hx Hy Ha Hb Hbc. rewrite lookup_assign, shard_pages_rect, lookup_rect, !Z.add_0_l by done.
  unfold valid_page. cbn [fst snd]. destruct (Z.ltb_spec x a), (Z.ltb_spec y b); cbn [andb]; try done. f_equal. f_equal.
  destruct (rect_split pair 0 sr 0 sc x y Hx Hy) as (rest & ->). rewrite !Z.add_0_l.
  pose proof (length_rect (@pair Z Z) 0 x 0 sc ltac:(lia) ltac:(lia)) as Hl.
  rewrite take_app_length' by (rewrite length_app, length_fmap, length_seqZ; nia).
  pose proof (num_valid_rect a b x sc Ha Hb ltac:(lia) ltac:(lia)) as H1.
  pose proof (num_valid_row a b x y Hb ltac:(lia)) as H2. rewrite (proj2 (Z.ltb_lt x a)) in H2 by done.
  specialize (Hbc ltac:(lia)). rewrite !Z.min_l, Z.min_r in H1 by lia. rewrite Z.min_l in H2 by lia.
  unfold num_valid in *. rewrite filter_app, length_app. nia.
Qed.

Lemma lookup_all_entries S pages shards k j c r :
  length pages = S → shards !! j = Some c → (r < S)%nat →
  all_entries k pages shards !! (S * j + r)%nat = entries (k + Z.of_nat j) pages (pages_shape c) (host_pages c) !! r.
Proof.
  intros Hp. revert k j; induction shards as [|c' shards IH]; intros k j Hj Hr; [done|]. cbn [all_entries].
  destruct j as [|j].
  - injection Hj as ->. rewrite lookup_app_l by (rewrite length_entries; lia).
    rewrite Nat.mul_0_r, Z.add_0_r. done.
  - rewrite lookup_app_r by (rewrite length_entries; lia). rewrite length_entries.
    replace (S * Datatypes.S j + r - length pages)%nat with (S * j + r)%nat by lia.
    cbn in Hj. rewrite (IH (k + 1) j Hj Hr). do 2 f_equal. lia.
Qed.

Lemma length_all_entries pages shards k : length (all_entries k pages shards) = (length pages * length shards)%nat.
Proof.
  revert k; induction shards as [|c shards IH]; intros k; cbn; [lia|]. rewrite length_app, length_entries, IH. lia.
Qed.

(** ** Width and block sharding *)
Definition num_columns (w sc : Z) : Z := (w + sc - 1) / sc.

Lemma num_columns_spec w sc :
  0 < w → 0 < sc → 0 < num_columns w sc ∧ (num_columns w sc - 1) * sc < w <= num_columns w sc * sc.
Proof.
  intros Hw Hsc. unfold num_columns. pose proof (Z.div_mod (w + sc - 1) sc ltac:(lia)).
  pose proof (Z.mod_pos_bound (w + sc - 1) sc Hsc). split; [|nia]. apply Z.div_str_pos. lia.
Qed.

Definition block_shard (h w sr sc k : Z) : core_pages :=
  let i0 := k / num_columns w sc * sr in
  let j0 := k mod num_columns w sc * sc in
  let a := Z.min (i0 + sr) h - i0 in
  let b := Z.min (j0 + sc) w - j0 in
  mk_core_pages (rect (λ i j, i * w + j) i0 a j0 b) (Z.max 0 a, if 0 <? a then b else u32 (- j0)).

(** The loop before shard [k]. *)
Definition block_at (h w sr sc : Z) (shards : list core_pages) : block_state :=
  let k := Z.of_nat (length shards) in
  mk_block_state (k / num_columns w sc * sr) (k mod num_columns w sc * sc) (k mod num_columns w sc) shards.

Lemma rect_ext {A} (g g' : Z → Z → A) i0 a j0 b :
  (∀ i j, i0 <= i < i0 + a → j0 <= j < j0 + b → g i j = g' i j) → rect g i0 a j0 b = rect g' i0 a j0 b.
Proof.
  intros Hg. unfold rect. assert (H : ∀ l, (∀ i, i ∈ l → i0 <= i < i0 + a) →
    (i ← l; g i <$> seqZ j0 b) = (i ← l; g' i <$> seqZ j0 b)).
  { induction l as [|i l IH]; intros Hl; [done|]. rewrite !bind_cons, IH by (intros; apply Hl; by right). f_equal.
    apply list_fmap_ext. intros k j Hj. apply lookup_seqZ in Hj as [-> ?]. apply Hg; [apply Hl; by left|lia]. }
  apply H. intros i. by rewrite elem_of_seqZ.
Qed.

(** Counting in base [n]. *)
Lemma div_mod_succ k n : 0 <= k → 0 < n →
  (k + 1) / n = (if k mod n + 1 =? n then k / n + 1 else k / n)
  ∧ (k + 1) mod n = (if k mod n + 1 =? n then 0 else k mod n + 1).
Proof.
  intros Hk Hn. pose proof (Z.div_mod k n ltac:(lia)). pose proof (Z.mod_pos_bound k n Hn).
  destruct (Z.eqb_spec (k mod n + 1) n).
  - split; symmetry; [apply (Z.div_unique _ _ _ 0)|apply (Z.mod_unique _ _ (k / n + 1))]; nia.
  - split; symmetry; [apply (Z.div_unique _ _ _ (k mod n + 1))|apply (Z.mod_unique _ _ (k / n))]; nia.
Qed.

Section block.
Context (h w sr sc N : Z) (Hh : 0 < h) (Hw : 0 < w) (Hsr : 0 < sr) (Hsc : 0 < sc)
  (HN : N * (sr * sc) < 2 ^ 32) (Hhw : h * w < 2 ^ 32) (Hwsc : w + sc < 2 ^ 32).
Abbreviation ncols := (num_columns w sc).

Lemma block_offsets k : 0 <= k < N →
  0 <= k / ncols * sr ∧ k / ncols * sr + sr < 2 ^ 32 ∧ 0 <= k mod ncols * sc < w ∧ k mod ncols * sc + sc < 2 ^ 32.
Proof.
  intros Hk. destruct (num_columns_spec w sc Hw Hsc) as [Hc ?].
  pose proof (Z.mod_pos_bound k ncols Hc). assert (0 <= k / ncols <= k).
  { split; [apply Z.div_pos; lia|]. apply Z.div_le_upper_bound; nia. }
  assert (k * sr + sr <= N * sr) by nia. assert (N * sr <= N * (sr * sc)) by nia. split_and!; nia.
Qed.

Lemma run_block_step v shards :
  Z.of_nat (length shards) < N →
  block_step (sr, sc) (h, w) ncols v (block_at h w sr sc shards)
  = Ok (block_at h w sr sc (shards ++ [block_shard h w sr sc (Z.of_nat (length shards))])).
Proof.
  intros HkN. set (k := Z.of_nat (length shards)) in *.
  destruct (num_columns_spec w sc Hw Hsc) as [Hc Hc']. destruct (block_offsets k ltac:(lia)) as (H1 & H2 & H3 & H4).
  pose proof (Z.mod_pos_bound k ncols Hc) as Hmod.
  destruct (div_mod_succ k ncols ltac:(lia) Hc) as [Hd Hm].
  assert (Hk1 : Z.of_nat (length (shards ++ [block_shard h w sr sc k])) = k + 1) by (rewrite length_app; cbn; lia).
  unfold block_step, block_at. fold k. rewrite Hk1, Hd, Hm. cbn [i_offset j_offset shard_in_row block_shards fst snd].
  set (i0 := k / ncols * sr) in *. set (j0 := k mod ncols * sc) in *.
  rewrite (u32_small (sr + i0)), (u32_small (sc + j0)), (u32_small (i0 + sr)), (u32_small (j0 + sc)) by lia.
  rewrite (u32_small (k mod ncols + 1)) by (assert (k mod ncols <= j0) by nia; lia).
  assert (Hs : mk_core_pages
      (i ← range_u32 i0 (Z.min (sr + i0) h); (λ j, u32 (u32 (i * w) + j)) <$> range_u32 j0 (Z.min (sc + j0) w))
      (u32 (Z.max i0 (Z.min (sr + i0) h) - i0),
       u32 ((if i0 <? Z.min (sr + i0) h then Z.max j0 (Z.min (sc + j0) w) else 0) - j0))
    = block_shard h w sr sc k).
  { unfold block_shard. fold i0 j0. rewrite (Z.add_comm i0 sr), (Z.add_comm j0 sc). f_equal.
    - apply rect_ext. intros i j Hi Hj. assert (i * w < h * w ∧ 0 <= i * w) by nia. assert (i * w + j < h * w) by nia.
      rewrite (u32_small (i * w)), u32_small by lia. done.
    - rewrite u32_small by lia. f_equal; [lia|].
      destruct (Z.ltb_spec i0 (Z.min (sr + i0) h)), (Z.ltb_spec 0 (Z.min (sr + i0) h - i0)); try lia; [|by rewrite Z.sub_0_l].
      rewrite u32_small; lia. }
  rewrite Hs. destruct (Z.eqb_spec (k mod ncols + 1) ncols); do 2 f_equal; unfold i0, j0; lia.
Qed.

Lemma run_blocks :
  0 <= N → ∃ s, for_each (block_step (sr, sc) (h, w) ncols) (range_u32 0 N) (mk_block_state 0 0 0 []) = Ok s
    ∧ block_shards s = block_shard h w sr sc <$> seqZ 0 N.
Proof.
  intros HN0. destruct (num_columns_spec w sc Hw Hsc) as [Hc _].
  destruct (for_each_inv (block_step (sr, sc) (h, w) ncols)
    (λ done s, s = block_at h w sr sc (block_shard h w sr sc <$> seqZ 0 (Z.of_nat (length done))))
    (range_u32 0 N) (mk_block_state 0 0 0 [])) as (s & Hrun & Hs).
  - unfold block_at. cbn. by rewrite Z.div_0_l, Z.mod_0_l by lia.
  - intros done v rest s Hl ->. assert (Hlen : Z.of_nat (length done) < N).
    { apply (f_equal length) in Hl. unfold range_u32 in Hl. rewrite length_seqZ, length_app in Hl. cbn in Hl. lia. }
    rewrite run_block_step by (rewrite length_fmap, length_seqZ; lia). eexists. split; [done|].
    rewrite length_fmap, length_seqZ, length_app, Nat2Z.inj_add, Nat2Z.id. cbn [length].
    rewrite (seqZ_app _ _ (Z.of_nat 1)), fmap_app by lia. done.
  - exists s. split; [done|]. rewrite Hs. cbn. do 2 f_equal. unfold range_u32. rewrite length_seqZ. lia.
Qed.
End block.

(** ** Height sharding: [T] pages in shards of [sr] rows of [sc] *)
Definition height_shard (T sr sc k : Z) : core_pages :=
  let rem := Z.max 0 (T - k * (sr * sc)) in
  if rem =? 0 then mk_core_pages [] (0, 0)
  else mk_core_pages (seqZ (k * (sr * sc)) (Z.min (sr * sc) rem))
         (if rem <? sr * sc then (rem / sc, sc) else (sr, sc)).

Section height.
Context (T sr sc N : Z) (HT : 0 <= T < 2 ^ 32) (Hsr : 0 < sr) (Hsc : 0 < sc) (HN : N * (sr * sc) < 2 ^ 32).
Abbreviation S := (sr * sc).

Definition height_at (shards : list core_pages) : Z * Z * list core_pages :=
  let k := Z.of_nat (length shards) in (Z.max 0 (T - k * S), Z.min T (k * S), shards).

Lemma run_height_step v shards :
  Z.of_nat (length shards) < N →
  height_step S (sr, sc) v (height_at shards)
  = Ok (height_at (shards ++ [height_shard T sr sc (Z.of_nat (length shards))])).
Proof.
  intros HkN. set (k := Z.of_nat (length shards)) in *. assert (0 <= k) by lia.
  assert (0 <= k * S ∧ (k + 1) * S <= N * S) by nia.
  assert (Hk1 : ∀ c, Z.of_nat (length (shards ++ [c])) = k + 1) by (intros; rewrite length_app; cbn; lia).
  unfold height_step, height_at. fold k. rewrite Hk1. unfold height_shard.
  set (rem := Z.max 0 (T - k * S)). destruct (Z.eqb_spec rem 0) as [Hz|Hz].
  - do 2 f_equal. f_equal; lia.
  - assert (Hsh : (if rem <? S then rows ← udiv rem sc; Ok (rows, sc) else Ok (sr, sc))
                  = Ok (if rem <? S then (rem / sc, sc) else (sr, sc))).
    { destruct (rem <? S); [|done]. by rewrite udiv_ok by lia. }
    cbn [fst snd]. rewrite Hsh. cbn [mbind outcome_bind].
    rewrite (Z.min_r T), (u32_small (rem - _)), (u32_small (k * S + _)) by lia.
    assert (Hp : (λ j, u32 (k * S + j)) <$> range_u32 0 (Z.min S rem) = seqZ (k * S) (Z.min S rem)).
    { unfold range_u32. rewrite Z.sub_0_r, <- (Z.add_0_r (k * S)) at 1. rewrite <- fmap_add_seqZ.
      apply list_fmap_ext. intros i j Hj. apply lookup_seqZ in Hj as [-> ?]. rewrite u32_small; lia. }
    rewrite Hp. do 2 f_equal. f_equal; lia.
Qed.

Lemma run_heights :
  0 <= N → ∃ s, for_each (height_step S (sr, sc)) (range_u32 0 N) (T, 0, []) = Ok s
    ∧ s.2 = height_shard T sr sc <$> seqZ 0 N.
Proof.
  intros HN0.
  destruct (for_each_inv (height_step S (sr, sc))
    (λ done s, s = height_at (height_shard T sr sc <$> seqZ 0 (Z.of_nat (length done))))
    (range_u32 0 N) (T, 0, [])) as (s & Hrun & Hs).
  - unfold height_at. cbn [fmap list_fmap length]. change (seqZ 0 (Z.of_nat 0)) with (@nil Z). cbn [fmap list_fmap length].
    rewrite Z.mul_0_l, Z.sub_0_r, Z.max_r, Z.min_r by lia. done.
  - intros done v rest s Hl ->. assert (Hlen : Z.of_nat (length done) < N).
    { apply (f_equal length) in Hl. unfold range_u32 in Hl. rewrite length_seqZ, length_app in Hl. cbn in Hl. lia. }
    rewrite run_height_step by (rewrite length_fmap, length_seqZ; lia). eexists. split; [done|].
    rewrite length_fmap, length_seqZ, length_app, Nat2Z.inj_add, Nat2Z.id. cbn [length].
    rewrite (seqZ_app _ _ (Z.of_nat 1)), fmap_app by lia. done.
  - exists s. split; [done|]. rewrite Hs. cbn. do 2 f_equal. unfold range_u32. rewrite length_seqZ. lia.
Qed.
End height.
