(* ===== verification/BufferBijection.v ===== *)
(** * Pages of the host and pages on the device

    [dev_to_host] says which host page a device page of a sharded buffer holds,
    if any; [host_to_dev] is its inverse.  The vectors of the page mapping are
    these functions, tabulated. *)
From S2P Require Import Prelude Arith CoreCoord CoreCoordProps BankManager Allocator AllocatorL1 Buffer BufferShards.
(** A tensor of [g_h] by [g_w] pages in shards of [g_sr] by [g_sc], one per core. *)
Record geometry := mk_geometry {
  g_layout : TensorMemoryLayout; g_h : Z; g_w : Z; g_sr : Z; g_sc : Z; g_cores : Z
}.
Abbreviation pages_per_shard g := (g_sr g * g_sc g).

Record geometry_ok (g : geometry) : Prop := mk_geometry_ok {
  go_h : 0 < g_h g;
  go_w : 0 < g_w g;
  go_sr : 0 < g_sr g;
  go_sc : 0 < g_sc g;
  go_cores : 0 <= g_cores g;
  go_dev : g_cores g * pages_per_shard g < 2 ^ 32;
  go_host : g_h g * g_w g < 2 ^ 32;
  go_width : g_w g + g_sc g < 2 ^ 32;
  (** The shards cover the tensor. *)
  go_cover : match g_layout g with
             | HEIGHT_SHARDED => (g_sc g | g_h g * g_w g) ∧ g_h g * g_w g <= g_cores g * pages_per_shard g
             | WIDTH_SHARDED | BLOCK_SHARDED => (g_h g + g_sr g - 1) / g_sr g * num_columns (g_w g) (g_sc g) <= g_cores g
             | _ => False
             end
}.

Definition dev_to_host (g : geometry) (d : Z) : option Z :=
  let k := d / pages_per_shard g in
  let x := d mod pages_per_shard g / g_sc g in
  let y := d mod pages_per_shard g mod g_sc g in
  match g_layout g with
  | HEIGHT_SHARDED => if d <? g_h g * g_w g then Some d else None
  | _ =>
    let i := k / num_columns (g_w g) (g_sc g) * g_sr g + x in
    let j := k mod num_columns (g_w g) (g_sc g) * g_sc g + y in
    if (i <? g_h g) && (j <? g_w g) then Some (i * g_w g + j) else None
  end.

Definition host_to_dev (g : geometry) (p : Z) : Z :=
  match g_layout g with
  | HEIGHT_SHARDED => p
  | _ =>
    let i := p / g_w g in
    let j := p mod g_w g in
    let k := i / g_sr g * num_columns (g_w g) (g_sc g) + j / g_sc g in
    k * pages_per_shard g + (i mod g_sr g * g_sc g + j mod g_sc g)
  end.

Definition shard_at (g : geometry) (k : Z) : core_pages :=
  match g_layout g with
  | HEIGHT_SHARDED => height_shard (g_h g * g_w g) (g_sr g) (g_sc g) k
  | _ => block_shard (g_h g) (g_w g) (g_sr g) (g_sc g) k
  end.

(** Digits in base [b]. *)
Lemma div_digits q r b : 0 <= r < b → (q * b + r) / b = q.
Proof. intros. symmetry. apply (Z.div_unique _ _ _ r); lia. Qed.
Lemma mod_digits q r b : 0 <= r < b → (q * b + r) mod b = r.
Proof. intros. symmetry. apply (Z.mod_unique _ _ q); lia. Qed.

Section geometry.
Context (g : geometry) (Hg : geometry_ok g).
Abbreviation h := (g_h g).
Abbreviation w := (g_w g).
Abbreviation sr := (g_sr g).
Abbreviation sc := (g_sc g).
Abbreviation N := (g_cores g).
Abbreviation ncols := (num_columns (g_w g) (g_sc g)).

(** A device page in the shard of core [k], row [x], column [y]. *)
Lemma dev_page_digits k x y : 0 <= x < sr → 0 <= y < sc →
  let d := k * pages_per_shard g + (x * sc + y) in
  d / pages_per_shard g = k ∧ d mod pages_per_shard g / sc = x ∧ d mod pages_per_shard g mod sc = y.
Proof.
  intros Hx Hy d. assert (0 <= x * sc + y < pages_per_shard g) by nia. unfold d.
  rewrite div_digits, mod_digits, div_digits, mod_digits by lia. done.
Qed.

Lemma dev_page_inv d : 0 <= d < N * pages_per_shard g →
  ∃ k x y, d = k * pages_per_shard g + (x * sc + y) ∧ 0 <= k < N ∧ 0 <= x < sr ∧ 0 <= y < sc.
Proof.
  intros Hd. destruct Hg. exists (d / pages_per_shard g), (d mod pages_per_shard g / sc), (d mod pages_per_shard g mod sc).
  assert (HS : 0 < pages_per_shard g) by nia.
  pose proof (Z.div_mod d (pages_per_shard g) ltac:(lia)). pose proof (Z.mod_pos_bound d _ HS).
  pose proof (Z.div_mod (d mod pages_per_shard g) sc ltac:(lia)).
  pose proof (Z.mod_pos_bound (d mod pages_per_shard g) sc ltac:(lia)).
  split_and!; [lia|apply Z.div_pos; lia|apply Z.div_lt_upper_bound; lia|apply Z.div_pos; lia
              |apply Z.div_lt_upper_bound; lia|lia|lia].
Qed.

Lemma host_to_dev_spec p : 0 <= p < h * w →
  0 <= host_to_dev g p < N * pages_per_shard g ∧ dev_to_host g (host_to_dev g p) = Some p.
Proof.
  intros Hp. destruct Hg as [Hh Hw Hsr Hsc HN _ _ _ Hcov]. unfold host_to_dev, dev_to_host.
  pose proof (Z.div_mod p w ltac:(lia)). pose proof (Z.mod_pos_bound p w Hw).
  assert (Hi : 0 <= p / w < h) by (split; [apply Z.div_pos; lia|apply Z.div_lt_upper_bound; lia]).
  set (i := p / w) in *. set (j := p mod w) in *.
  pose proof (Z.div_mod i sr ltac:(lia)). pose proof (Z.mod_pos_bound i sr Hsr).
  pose proof (Z.div_mod j sc ltac:(lia)). pose proof (Z.mod_pos_bound j sc Hsc).
  destruct (num_columns_spec w sc Hw Hsc) as [Hc Hc'].
  assert (Hjc : 0 <= j / sc < ncols) by (split; [apply Z.div_pos; lia|apply Z.div_lt_upper_bound; lia]).
  assert (Hir : 0 <= i / sr < (h + sr - 1) / sr).
  { split; [apply Z.div_pos; lia|]. pose proof (Z.div_mod (h + sr - 1) sr ltac:(lia)).
    pose proof (Z.mod_pos_bound (h + sr - 1) sr Hsr). nia. }
  assert (Hblock : (h + sr - 1) / sr * ncols <= N →
    let k := i / sr * ncols + j / sc in
    let d := k * pages_per_shard g + (i mod sr * sc + j mod sc) in
    0 <= d < N * pages_per_shard g ∧
    (let k := d / pages_per_shard g in
     let x := d mod pages_per_shard g / sc in
     let y := d mod pages_per_shard g mod sc in
     let i := k / ncols * sr + x in
     let j := k mod ncols * sc + y in
     if (i <? h) && (j <? w) then Some (i * w + j) else None) = Some p).
  { intros HN' k d. destruct (dev_page_digits k (i mod sr) (j mod sc)) as (Hd1 & Hd2 & Hd3); [lia|lia|].
    fold d in Hd1, Hd2, Hd3. rewrite Hd1, Hd2, Hd3. unfold k. rewrite div_digits, mod_digits by lia.
    assert (0 <= k < N) by (unfold k; nia). assert (0 <= i mod sr * sc + j mod sc < pages_per_shard g) by nia.
    split; [unfold d; nia|]. cbv zeta.
    replace (i / sr * sr + i mod sr) with i by lia. replace (j / sc * sc + j mod sc) with j by lia.
    rewrite (proj2 (Z.ltb_lt i h)), (proj2 (Z.ltb_lt j w)) by lia. cbn. f_equal. lia. }
  destruct (g_layout g); try done; [|by apply Hblock..].
  split; [lia|]. by rewrite (proj2 (Z.ltb_lt p _)) by lia.
Qed.

Lemma dev_to_host_spec d p : 0 <= d < N * pages_per_shard g → dev_to_host g d = Some p →
  0 <= p < h * w ∧ host_to_dev g p = d.
Proof.
  intros (k & x & y & -> & Hk & Hx & Hy)%dev_page_inv. destruct Hg as [Hh Hw Hsr Hsc HN _ _ _ Hcov].
  unfold dev_to_host, host_to_dev. destruct (dev_page_digits k x y Hx Hy) as (-> & -> & ->).
  destruct (num_columns_spec w sc Hw Hsc) as [Hc Hc'].
  assert (Hblock : (let i := k / ncols * sr + x in
     let j := k mod ncols * sc + y in
     if (i <? h) && (j <? w) then Some (i * w + j) else None) = Some p →
    0 <= p < h * w ∧
    (let i := p / w in let j := p mod w in
     let k := i / sr * ncols + j / sc in k * pages_per_shard g + (i mod sr * sc + j mod sc))
    = k * pages_per_shard g + (x * sc + y)).
  { cbv zeta. pose proof (Z.div_mod k ncols ltac:(lia)). pose proof (Z.mod_pos_bound k ncols Hc).
    assert (0 <= k / ncols) by (apply Z.div_pos; lia).
    destruct (Z.ltb_spec (k / ncols * sr + x) h), (Z.ltb_spec (k mod ncols * sc + y) w); try done.
    cbn [andb]. intros [= <-]. rewrite !div_digits, !mod_digits by nia. rewrite ?div_digits, ?mod_digits by lia.
    split; nia. }
  destruct (g_layout g); try done; [|by apply Hblock..].
  destruct (Z.ltb_spec (k * pages_per_shard g + (x * sc + y)) (h * w)); [|done]. intros [= <-]. split; [|done]. nia.
Qed.

(** ** The shards *)
Lemma run_core_to_host_pages total ps sh :
  0 < ps.1 → 0 < ps.2 → sh.1 / ps.1 = sr → sh.2 / ps.2 = sc →
  core_to_host_pages total (pages_per_shard g) N (g_layout g) ps sh (h, w) = Ok (shard_at g <$> seqZ 0 N).
Proof.
  intros Hp1 Hp2 E1 E2. destruct Hg as [Hh Hw Hsr Hsc HN Hdev Hhost Hwsc Hcov].
  unfold core_to_host_pages, shard_at. rewrite !udiv_ok, E1, E2 by lia. cbn [mbind outcome_bind fst snd].
  assert (Hcols : MathUtil.div_up w sc = Ok ncols).
  { unfold MathUtil.div_up. rewrite (proj2 (Z.ltb_lt _ _)) by done. cbn. unfold num_columns.
    rewrite (u32_small (w + sc)), u32_small by lia. done. }
  destruct (g_layout g); try done.
  - rewrite u32_small by nia.
    destruct (run_heights (h * w) sr sc N ltac:(nia) Hsr Hsc ltac:(lia) HN) as (s & -> & Hs). cbn. by rewrite Hs.
  - rewrite Hcols. cbn. destruct (run_blocks h w sr sc N Hh Hw Hsr Hsc Hdev Hhost Hwsc HN) as (s & -> & Hs).
    cbn. by rewrite Hs.
  - rewrite Hcols. cbn. destruct (run_blocks h w sr sc N Hh Hw Hsr Hsc Hdev Hhost Hwsc HN) as (s & -> & Hs).
    cbn. by rewrite Hs.
Qed.

(** A shard is a list of host pages and the rectangle they fill. *)
Lemma block_shard_spec k : 0 <= k < N →
  let i0 := k / ncols * sr in let j0 := k mod ncols * sc in
  ∃ hs a b, block_shard h w sr sc k = mk_core_pages hs (a, b)
    ∧ 0 <= i0 ∧ 0 <= j0 < w ∧ a = Z.max 0 (Z.min (i0 + sr) h - i0) ∧ 0 <= b
    ∧ (0 < a → b = Z.min (j0 + sc) w - j0) ∧ Z.of_nat (length hs) = (if 0 <? a then a * b else 0)
    ∧ ∀ x y, 0 <= x < a → 0 <= y < b → hs !! Z.to_nat (x * b + y) = Some ((i0 + x) * w + (j0 + y)).
Proof.
  intros Hk i0 j0. destruct Hg as [Hh Hw Hsr Hsc HN Hdev Hhost Hwsc _].
  destruct (block_offsets w sr sc N Hw Hsr Hsc Hdev Hwsc k Hk) as (H1 & _ & H2 & _). fold i0 in H1. fold j0 in H2.
  unfold block_shard. fold i0 j0. set (a := Z.min (i0 + sr) h - i0). set (b := Z.min (j0 + sc) w - j0).
  eexists _, _, _. split; [done|]. split_and!; try done; try lia.
  - destruct (0 <? a); [lia|apply u32_range].
  - intros Ha. rewrite (proj2 (Z.ltb_lt 0 a)) by lia. done.
  - destruct (Z.ltb_spec 0 a).
    + rewrite (proj2 (Z.ltb_lt 0 (Z.max 0 a))), Z.max_r by lia. apply length_rect; lia.
    + rewrite (proj2 (Z.ltb_ge 0 (Z.max 0 a))) by lia. unfold rect. rewrite (seqZ_nil i0 a) by lia. done.
  - intros x y Hx Hy. rewrite (proj2 (Z.ltb_lt 0 a)) in * by lia. rewrite Z.max_r in Hx by lia.
    by rewrite lookup_rect by lia.
Qed.

Lemma height_shard_spec k : g_layout g = HEIGHT_SHARDED → 0 <= k →
  let T := h * w in let rem := Z.max 0 (T - k * pages_per_shard g) in
  ∃ a b, height_shard T sr sc k = mk_core_pages (seqZ (k * pages_per_shard g) (Z.min (pages_per_shard g) rem)) (a, b)
    ∧ 0 <= a <= sr ∧ 0 <= b <= sc ∧ a * b = Z.min (pages_per_shard g) rem ∧ (0 < a → b = sc).
Proof.
  intros Hl Hk T rem. destruct Hg as [Hh Hw Hsr Hsc HN Hdev Hhost Hwsc Hcov]. rewrite Hl in Hcov. destruct Hcov as [Hdiv _].
  unfold height_shard. fold rem. fold T in Hdiv. destruct (Z.eqb_spec rem 0) as [->|Hr].
  { exists 0, 0. rewrite seqZ_nil by lia. split_and!; lia || done. }
  destruct (Z.ltb_spec rem (pages_per_shard g)).
  - assert (Hd : (sc | rem)).
    { unfold rem. rewrite Z.max_r by lia. apply Z.divide_sub_r; [done|]. apply Z.divide_mul_r, Z.divide_factor_r. }
    destruct Hd as [q Hq]. exists q, sc. rewrite Hq, Z.div_mul by lia. split_and!; [done|nia|nia|lia|lia|nia|done].
  - exists sr, sc. split_and!; [done|lia..|done].
Qed.

Lemma shard_fits_at k : 0 <= k < N → shard_fits (shard_pages (sr, sc)) (shard_at g k).
Proof.
  intros Hk. unfold shard_at. destruct Hg as [Hh Hw Hsr Hsc HN Hdev Hhost Hwsc Hcov].
  assert (Hb : shard_fits (shard_pages (sr, sc)) (block_shard h w sr sc k)).
  { destruct (block_shard_spec k Hk) as (hs & a & b & -> & Hi & Hj & Ha & Hb & Hba & Hlen & _).
    assert (pages_per_shard g <= N * pages_per_shard g) by nia.
    destruct (Z.ltb_spec 0 a); [assert (a * b <= pages_per_shard g) by nia|]; apply rect_fits; try lia. }
  destruct (g_layout g) eqn:Hl; try done.
  destruct (height_shard_spec k Hl ltac:(lia)) as (a & b & -> & Ha & Hb' & Hab & Hbs).
  apply rect_fits; rewrite ?length_seqZ; try lia; nia.
Qed.

Lemma shard_entry k x y : 0 <= k < N → 0 <= x < sr → 0 <= y < sc →
  assign (pages_shape (shard_at g k)) (shard_pages (sr, sc)) (host_pages (shard_at g k)) !! Z.to_nat (x * sc + y)
  = Some (dev_to_host g (k * pages_per_shard g + (x * sc + y))).
Proof.
  intros Hk Hx Hy. unfold shard_at, dev_to_host. destruct (dev_page_digits k x y Hx Hy) as (-> & -> & ->).
  destruct Hg as [Hh Hw Hsr Hsc HN Hdev Hhost Hwsc Hcov].
  assert (Hb : assign (pages_shape (block_shard h w sr sc k)) (shard_pages (sr, sc)) (host_pages (block_shard h w sr sc k))
      !! Z.to_nat (x * sc + y)
    = Some (let i := k / ncols * sr + x in let j := k mod ncols * sc + y in
            if (i <? h) && (j <? w) then Some (i * w + j) else None)).
  { destruct (block_shard_spec k Hk) as (hs & a & b & -> & Hi & Hj & Ha & Hb & Hba & Hlen & Hhs). cbn [pages_shape host_pages].
    rewrite lookup_assign_rect by (try lia; intros Ha'; specialize (Hba Ha'); lia). cbv zeta. f_equal.
    destruct (Z.ltb_spec x a) as [Hxa|Hxa]; [specialize (Hba ltac:(lia))|];
    destruct (Z.ltb_spec y b), (Z.ltb_spec (k / ncols * sr + x) h), (Z.ltb_spec (k mod ncols * sc + y) w);
      cbn [andb]; try lia; try done. apply Hhs; lia. }
  destruct (g_layout g) eqn:Hl; try done.
  destruct (height_shard_spec k Hl ltac:(lia)) as (a & b & -> & Ha & Hb' & Hab & Hbs). cbn [pages_shape host_pages].
  rewrite lookup_assign_rect by lia. f_equal.
  set (r := x * sc + y). assert (0 <= r < pages_per_shard g) by nia.
  destruct (Z.ltb_spec x a) as [Hxa|Hxa]; cbn [andb].
  - rewrite (Hbs ltac:(lia)) in *. rewrite (proj2 (Z.ltb_lt y sc)) by lia. fold r. assert (r < a * sc) by nia.
    rewrite (proj2 (Z.ltb_lt _ (h * w))) by lia. apply lookup_seqZ. lia.
  - assert (a * sc <= r) by nia. destruct (Z.ltb_spec (k * pages_per_shard g + r) (h * w)); [|done]. exfalso.
    destruct (Z.eq_dec a 0); [nia|]. rewrite (Hbs ltac:(lia)) in Hab. nia.
Qed.

(** The device pages of all shards. *)
Definition geometry_entries : list (Z * option Z) := all_entries 0 (shard_pages (sr, sc)) (shard_at g <$> seqZ 0 N).

Lemma lookup_geometry_entries d : 0 <= d < N * pages_per_shard g →
  geometry_entries !! Z.to_nat d = Some (d / pages_per_shard g, dev_to_host g d).
Proof.
  intros Hd. destruct (dev_page_inv d Hd) as (k & x & y & -> & Hk & Hx & Hy).
  destruct (dev_page_digits k x y Hx Hy) as (-> & _). unfold geometry_entries.
  pose proof (go_sr _ Hg). pose proof (go_sc _ Hg).
  pose proof (length_rect (@pair Z Z) 0 sr 0 sc ltac:(lia) ltac:(lia)) as Hlen. rewrite <- shard_pages_rect in Hlen.
  assert (0 <= x * sc + y < pages_per_shard g) by nia.
  replace (Z.to_nat _) with (Z.to_nat (pages_per_shard g) * Z.to_nat k + Z.to_nat (x * sc + y))%nat by nia.
  rewrite (lookup_all_entries _ _ _ _ _ (shard_at g k)); [|lia| |lia].
  - unfold entries. rewrite list_lookup_fmap, shard_entry by lia. cbn. do 2 f_equal. lia.
  - rewrite list_lookup_fmap. rewrite (proj2 (lookup_seqZ 0 N (Z.to_nat k) k)) by lia. done.
Qed.

Lemma length_geometry_entries : Z.of_nat (length geometry_entries) = N * pages_per_shard g.
Proof.
  unfold geometry_entries. rewrite length_all_entries, length_fmap, length_seqZ.
  pose proof (go_sr _ Hg). pose proof (go_sc _ Hg). pose proof (go_cores _ Hg).
  pose proof (length_rect (@pair Z Z) 0 sr 0 sc ltac:(lia) ltac:(lia)) as Hlen. rewrite <- shard_pages_rect in Hlen. nia.
Qed.

Lemma geometry_entries_tabulated :
  geometry_entries = (λ d, (d / pages_per_shard g, dev_to_host g d)) <$> seqZ 0 (N * pages_per_shard g).
Proof.
  pose proof length_geometry_entries as Hlen. apply list_eq. intros i. rewrite list_lookup_fmap.
  destruct (decide (i < length geometry_entries)%nat) as [Hi|Hi].
  - rewrite (proj2 (lookup_seqZ 0 _ i (Z.of_nat i))) by lia. cbn.
    rewrite <- (lookup_geometry_entries (Z.of_nat i)) by lia. by rewrite Nat2Z.id.
  - rewrite lookup_ge_None_2 by lia. rewrite lookup_ge_None_2; [done|]. rewrite length_seqZ. lia.
Qed.

(** Every host page occurs once. *)
Lemma hosts_geometry p : p ∈ hosts geometry_entries → 0 <= p < h * w.
Proof.
  intros (d & k & Hd)%elem_of_hosts. pose proof (lookup_lt_Some _ _ _ Hd). pose proof length_geometry_entries.
  rewrite <- (Nat2Z.id d), lookup_geometry_entries in Hd by lia. injection Hd as _ Hd.
  apply (dev_to_host_spec (Z.of_nat d)); [lia|done].
Qed.

Lemma NoDup_hosts E :
  (∀ i j k k' p, E !! i = Some (k, Some p) → E !! j = Some (k', Some p) → i = j) → NoDup (hosts E).
Proof.
  induction E as [|[k o] E IH]; intros Hinj; [constructor|].
  assert (NoDup (hosts E)).
  { apply IH. intros i j a b p Hi Hj. specialize (Hinj (S i) (S j) a b p Hi Hj). lia. }
  unfold hosts in *. cbn. destruct o as [p|]; [|done]. constructor; [|done].
  intros (d & k' & Hd)%elem_of_hosts. by specialize (Hinj 0%nat (S d) k k' p eq_refl Hd).
Qed.

Lemma NoDup_geometry : NoDup (hosts geometry_entries).
Proof.
  apply NoDup_hosts. intros i j k k' p Hi Hj. pose proof length_geometry_entries.
  pose proof (lookup_lt_Some _ _ _ Hi). pose proof (lookup_lt_Some _ _ _ Hj).
  rewrite <- (Nat2Z.id i), lookup_geometry_entries in Hi by lia. injection Hi as _ Hi.
  rewrite <- (Nat2Z.id j), lookup_geometry_entries in Hj by lia. injection Hj as _ Hj.
  apply dev_to_host_spec in Hi as [_ Hi], Hj as [_ Hj]; lia.
Qed.
End geometry.

(** ** The mapping of a sharded buffer *)
Definition row_major (s : ShardSpecBuffer) : bool := bool_decide (orientation (tensor_shard_spec s) = ROW_MAJOR).
Abbreviation cores_of s := (all_cores (grid (tensor_shard_spec s)) (row_major s)).

(** [b] has the shard specification [s], with the geometry [g]. *)
Record sharded_as (b : Buffer) (s : ShardSpecBuffer) (g : geometry) : Prop := mk_sharded_as {
  sa_layout : buffer_layout_ b = g_layout g;
  sa_spec : shard_parameters_ b = Some s;
  sa_page : 0 < (page_shape s).1 ∧ 0 < (page_shape s).2;
  sa_rows : (shape (tensor_shard_spec s)).1 / (page_shape s).1 = g_sr g;
  sa_cols : (shape (tensor_shard_spec s)).2 / (page_shape s).2 = g_sc g;
  sa_tensor : tensor2d_shape s = (g_h g, g_w g);
  sa_page_size : 0 < page_size_ b;
  sa_size : size_ b = g_h g * g_w g * page_size_ b;
  sa_grid : Forall good (grid (tensor_shard_spec s)) ∧ disjoint_ranges (grid (tensor_shard_spec s));
  sa_cores : Z.of_nat (length (cores_of s)) = g_cores g
}.

Lemma run_shard_spec b s g : geometry_ok g → sharded_as b s g → is_sharded (buffer_layout_ b) = true ∧ shard_spec b = Ok s.
Proof.
  intros Hg Hb. destruct Hg as [_ _ _ _ _ _ _ _ Hcov], Hb as [Hl Hs _ _ _ _ _ _ _ _].
  unfold shard_spec. rewrite Hs, Hl. destruct (g_layout g) eqn:E; try done; split; reflexivity.
Qed.

Section sharded.
Context (b : Buffer) (s : ShardSpecBuffer) (g : geometry) (Hg : geometry_ok g) (Hb : sharded_as b s g).

Lemma run_shape_in_pages : shape_in_pages s = Ok (g_sr g, g_sc g).
Proof.
  unfold shape_in_pages. destruct (sa_page _ _ _ Hb). rewrite !udiv_ok by lia. cbn.
  by rewrite (sa_rows _ _ _ Hb), (sa_cols _ _ _ Hb).
Qed.

Lemma cores_pos : 0 < g_cores g.
Proof. destruct Hg as [? ? Hsr Hsc HN Hdev ? ? Hcov]. destruct (Z.eq_dec (g_cores g) 0) as [e|]; [|lia].
  exfalso. rewrite e in *. destruct (g_layout g); try done; [nia|..];
  (destruct (num_columns_spec (g_w g) (g_sc g)) as [Hc _]; [lia|lia|];
   assert (0 < (g_h g + g_sr g - 1) / g_sr g) by (apply Z.div_str_pos; lia); nia).
Qed.

Lemma cores_bound : g_cores g < 2 ^ 32 ∧ 0 < pages_per_shard g < 2 ^ 32.
Proof. pose proof cores_pos. destruct Hg. nia. Qed.

Lemma run_shard_size : shard_size s = Ok (pages_per_shard g).
Proof. unfold shard_size. rewrite run_shape_in_pages. cbn. pose proof cores_bound. rewrite u32_small by lia. done. Qed.

Lemma run_num_cores : buffer_num_cores b = Ok (g_cores g).
Proof.
  unfold buffer_num_cores. destruct (run_shard_spec b s g Hg Hb) as [-> ->]. cbn.
  rewrite (num_cores_spec _ (row_major s)) by apply (sa_grid _ _ _ Hb). rewrite (sa_cores _ _ _ Hb), u32_small; [done|].
  pose proof cores_bound. destruct Hg. lia.
Qed.

Lemma run_num_dev_pages : num_dev_pages b = Ok (g_cores g * pages_per_shard g).
Proof.
  unfold num_dev_pages. rewrite run_num_cores. destruct (run_shard_spec b s g Hg Hb) as [-> ->]. cbn.
  rewrite run_shard_size. cbn. pose proof cores_bound. destruct Hg.
  rewrite u64_small by lia. rewrite u32_small by nia. f_equal. lia.
Qed.

Lemma run_num_pages : num_pages b = Ok (g_h g * g_w g).
Proof.
  unfold num_pages. pose proof (sa_page_size _ _ _ Hb). rewrite (sa_size _ _ _ Hb), udiv_ok, Z.div_mul by lia. cbn.
  destruct Hg. rewrite u32_small by nia. done.
Qed.

(** The device pages of shard [k], in order. *)
Lemma assign_tabulated k : 0 <= k < g_cores g →
  assign (pages_shape (shard_at g k)) (shard_pages (g_sr g, g_sc g)) (host_pages (shard_at g k))
  = dev_to_host g <$> seqZ (k * pages_per_shard g) (pages_per_shard g).
Proof.
  intros Hk. destruct cores_bound as [_ HS]. pose proof (go_sr _ Hg) as Hsr. pose proof (go_sc _ Hg) as Hsc.
  apply list_eq. intros i. rewrite list_lookup_fmap.
  pose proof (length_rect (@pair Z Z) 0 (g_sr g) 0 (g_sc g) ltac:(lia) ltac:(lia)) as Hlen. rewrite <- shard_pages_rect in Hlen.
  destruct (decide (i < Z.to_nat (pages_per_shard g))%nat) as [Hi|Hi].
  - pose proof (Z.div_mod (Z.of_nat i) (g_sc g) ltac:(lia)). pose proof (Z.mod_pos_bound (Z.of_nat i) (g_sc g) Hsc).
    replace i with (Z.to_nat (Z.of_nat i / g_sc g * g_sc g + Z.of_nat i mod g_sc g)) by lia.
    rewrite (shard_entry g Hg) by first [lia|split; [apply Z.div_pos; lia|apply Z.div_lt_upper_bound; lia]].
    erewrite (proj2 (lookup_seqZ _ _ _ _)) by (split; [reflexivity|lia]). cbn. do 2 f_equal. lia.
  - rewrite !lookup_ge_None_2; [done|rewrite length_seqZ; lia|rewrite length_assign; lia].
Qed.

Lemma index_cores_spec k cores m :
  NoDup cores → 0 <= k → k + Z.of_nat (length cores) < 2 ^ 32 → (∀ c, c ∈ cores → m !! c = None) →
  ∀ i c, cores !! i = Some c → index_cores k cores m !! c = Some (k + Z.of_nat i).
Proof.
  intros Hnd. revert k m; induction Hnd as [|c0 cores Hc0 Hnd IH]; intros k m Hk Hb' Hm i c Hi; [done|].
  cbn [index_cores length] in *. rewrite u32_small by lia. unfold map_insert. rewrite Hm by (by left). destruct i as [|i].
  - injection Hi as ->. clear IH. assert (Hkeep : ∀ cs j m', c ∉ cs → index_cores j cs m' !! c = m' !! c).
    { induction cs as [|c1 cs IH]; intros j m' Hn; [done|]. apply not_elem_of_cons in Hn as [Hn1 Hn2]. cbn [index_cores].
      rewrite IH by done. unfold map_insert. destruct (m' !! c1); [done|]. by rewrite lookup_insert_ne. }
    rewrite Hkeep, lookup_insert_eq by done. f_equal. lia.
  - assert (Hm' : ∀ c, c ∈ cores → <[c0 := k]> m !! c = None).
    { intros c1 Hc1. rewrite lookup_insert_ne by (by intros ->). apply Hm. by right. }
    rewrite (IH (k + 1) (<[c0 := k]> m) ltac:(lia) ltac:(lia) Hm' i c Hi). f_equal. lia.
Qed.
End sharded.

(** * [generate_buffer_page_mapping] succeeds, and what it computes *)
(** The vectors of the mapping [m] of a buffer of geometry [g] on the cores [cores]. *)
Record mapping_of (g : geometry) (cores : list CoreCoord) (m : BufferPageMapping) : Prop := mk_mapping_of {
  mo_cores : all_cores_ m = cores;
  mo_length : Z.of_nat (length cores) = g_cores g;
  mo_core_id : ∀ i c, cores !! i = Some c → core_to_core_id_ m !! c = Some (Z.of_nat i);
  mo_dev_core : dev_page_to_core_mapping_ m
    = (λ d, d / pages_per_shard g) <$> seqZ 0 (g_cores g * pages_per_shard g);
  mo_dev_host : dev_page_to_host_page_mapping_ m = dev_to_host g <$> seqZ 0 (g_cores g * pages_per_shard g);
  mo_host_dev : host_page_to_dev_page_mapping_ m = host_to_dev g <$> seqZ 0 (g_h g * g_w g);
  mo_host_local : host_page_to_local_shard_page_mapping_ m
    = (λ p, host_to_dev g p mod pages_per_shard g) <$> seqZ 0 (g_h g * g_w g);
  mo_indices : core_host_page_indices_ m
    = (λ k, omap (dev_to_host g) (seqZ (k * pages_per_shard g) (pages_per_shard g))) <$> seqZ 0 (g_cores g);
  mo_shapes : core_shard_shape_ m = (λ k, pages_shape (shard_at g k)) <$> seqZ 0 (g_cores g)
}.

Lemma hosts_tagged (k : Z) (f : Z → option Z) l : hosts ((λ o, (k, o)) <$> (f <$> l)) = omap f l.
Proof. unfold hosts. induction l as [|d l IH]; [done|]. cbn. rewrite IH. by destruct (f d). Qed.

Section generate.
Context (b : Buffer) (s : ShardSpecBuffer) (g : geometry) (Hg : geometry_ok g) (Hb : sharded_as b s g).
Abbreviation DP := (Z.to_nat (g_cores g * pages_per_shard g)).
Abbreviation HP := (Z.to_nat (g_h g * g_w g)).
Abbreviation pages := (shard_pages (g_sr g, g_sc g)).

Lemma length_pages : Z.of_nat (length pages) = pages_per_shard g.
Proof. pose proof (go_sr _ Hg). pose proof (go_sc _ Hg). rewrite shard_pages_rect. apply length_rect; lia. Qed.

Lemma filled_empty S : filled S DP HP [] (mk_page_maps (replicate DP 0) (replicate DP None) (replicate HP 0) (replicate HP 0) 0).
Proof. split; cbn; rewrite ?Nat.sub_0_r, ?length_replicate; try done. lia. Qed.

(** A full set of vectors is the tabulation of the geometry. *)
Lemma filled_tabulated m :
  filled (pages_per_shard g) DP HP (geometry_entries g) m →
  dev_core m = (λ d, d / pages_per_shard g) <$> seqZ 0 (g_cores g * pages_per_shard g)
  ∧ dev_host m = dev_to_host g <$> seqZ 0 (g_cores g * pages_per_shard g)
  ∧ host_dev m = host_to_dev g <$> seqZ 0 (g_h g * g_w g)
  ∧ host_local m = (λ p, host_to_dev g p mod pages_per_shard g) <$> seqZ 0 (g_h g * g_w g).
Proof.
  intros [Hle Hc Hh _ Hl1 Hl2 Hd Hl]. pose proof (length_geometry_entries g Hg) as Hlen.
  pose proof (cores_bound g Hg) as [_ HS]. pose proof (go_cores _ Hg) as HN.
  assert (Hfull : (DP - length (geometry_entries g))%nat = 0%nat) by lia.
  rewrite Hfull, app_nil_r, (geometry_entries_tabulated g Hg), <- list_fmap_compose in Hc, Hh.
  split_and!; [done|done| |].
  - apply list_eq. intros i. rewrite list_lookup_fmap. destruct (decide (i < HP)%nat) as [Hi|Hi].
    + rewrite (proj2 (lookup_seqZ 0 _ i (Z.of_nat i))) by lia. cbn.
      destruct (host_to_dev_spec g Hg (Z.of_nat i)) as [Hr Hv]; [lia|].
      pose proof (lookup_geometry_entries g Hg _ Hr) as He. rewrite Hv in He.
      apply Hd in He. rewrite Nat2Z.id in He. rewrite He. f_equal. lia.
    + rewrite !lookup_ge_None_2; [done|rewrite length_seqZ; lia|lia].
  - apply list_eq. intros i. rewrite list_lookup_fmap. destruct (decide (i < HP)%nat) as [Hi|Hi].
    + rewrite (proj2 (lookup_seqZ 0 _ i (Z.of_nat i))) by lia. cbn.
      destruct (host_to_dev_spec g Hg (Z.of_nat i)) as [Hr Hv]; [lia|].
      pose proof (lookup_geometry_entries g Hg _ Hr) as He. rewrite Hv in He.
      apply Hl in He. rewrite Nat2Z.id in He. rewrite He. do 2 f_equal. lia.
    + rewrite !lookup_ge_None_2; [done|rewrite length_seqZ; lia|lia].
Qed.

Lemma shards_fit : Forall (shard_fits pages) (shard_at g <$> seqZ 0 (g_cores g)).
Proof.
  apply Forall_fmap, Forall_forall. intros k Hk%elem_of_seqZ. apply (shard_fits_at g Hg). lia.
Qed.

Lemma run_cores_at_start :
  let shards := shard_at g <$> seqZ 0 (g_cores g) in
  ∃ m, for_each (core_step (g_sr g, g_sc g)) (zip (seqZ 0 (Z.of_nat (length shards))) shards)
         (mk_page_maps (replicate DP 0) (replicate DP None) (replicate HP 0) (replicate HP 0) 0, [])
       = Ok (m, (λ k, omap (dev_to_host g) (seqZ (k * pages_per_shard g) (pages_per_shard g))) <$> seqZ 0 (g_cores g))
    ∧ filled (pages_per_shard g) DP HP (geometry_entries g) m.
Proof.
  intros shards. pose proof (cores_bound g Hg) as [_ HS]. pose proof (go_cores _ Hg) as HN.
  pose proof length_pages as Hlp. pose proof (go_dev _ Hg).
  destruct (run_cores (pages_per_shard g) DP HP ltac:(lia) ltac:(lia) (g_sr g, g_sc g) shards 0
    (mk_page_maps (replicate DP 0) (replicate DP None) (replicate HP 0) (replicate HP 0) 0) [] [])
    as (m & ind & Hrun & Hf & Hind); [apply filled_empty|done|done|done| |apply shards_fit|apply (NoDup_geometry g Hg)| |].
  - unfold shards. rewrite length_fmap, length_seqZ. cbn. nia.
  - intros q Hq. pose proof (hosts_geometry g Hg q Hq). lia.
  - exists m. split; [|exact Hf]. rewrite Hrun, Hind. do 2 f_equal. cbn.
    apply list_eq. intros i. rewrite list_lookup_imap. unfold shards. rewrite !list_lookup_fmap.
    destruct (seqZ 0 (g_cores g) !! i) as [k|] eqn:Hi; [|done]. cbn. f_equal.
    apply lookup_seqZ in Hi as [-> Hi]. unfold entries. rewrite (assign_tabulated g Hg) by lia. apply hosts_tagged.
Qed.

Lemma run_generate :
  ∃ m, generate_buffer_page_mapping b = Ok m ∧ mapping_of g (cores_of s) m.
Proof.
  destruct (run_shard_spec b s g Hg Hb) as [Hsh Hspec]. pose proof (go_cores _ Hg) as HN.
  destruct (cores_bound g Hg) as [HN' HS]. pose proof (go_host _ Hg).
  pose proof (go_h _ Hg). pose proof (go_w _ Hg).
  unfold generate_buffer_page_mapping. rewrite Hspec. cbn [mbind outcome_bind].
  rewrite (run_num_cores b s g Hg Hb). cbn [mbind outcome_bind]. fold (row_major s).
  rewrite corerange_to_cores_some by (split; lia). rewrite <- (sa_cores _ _ _ Hb), Nat2Z.id, firstn_all.
  rewrite Z.eqb_refl. cbn [check mbind outcome_bind]. rewrite (sa_cores _ _ _ Hb).
  rewrite (run_num_dev_pages b s g Hg Hb). cbn [mbind outcome_bind].
  rewrite (run_shard_size b s g Hg Hb). cbn [mbind outcome_bind].
  rewrite (sa_layout _ _ _ Hb), (sa_tensor _ _ _ Hb). destruct (sa_page _ _ _ Hb) as [Hp1 Hp2].
  rewrite (run_core_to_host_pages g Hg) by first [done|apply (sa_rows _ _ _ Hb)|apply (sa_cols _ _ _ Hb)].
  cbn [mbind outcome_bind]. rewrite (run_num_pages b s g Hg Hb). cbn [mbind outcome_bind].
  rewrite (run_shape_in_pages b s g Hb). cbn [mbind outcome_bind].
  destruct run_cores_at_start as (m & -> & Hf). cbn [mbind outcome_bind].
  destruct (filled_tabulated m Hf) as (T1 & T2 & T3 & T4). eexists. split; [done|].
  split; cbn; try done; [apply (sa_cores _ _ _ Hb)| |by rewrite <- list_fmap_compose].
  intros i c Hi. apply (index_cores_spec 0); [|done| |intros; apply lookup_empty|done].
  - apply (all_cores_spec _ (row_major s)); apply (sa_grid _ _ _ Hb).
  - rewrite (sa_cores _ _ _ Hb). lia.
Qed.
End generate.
