(* ===== verification/BufferIO.v ===== *)
(** * Reading and writing buffers from the host (tt_metal/tt_metal.cpp)

    The slow-dispatch path: the host moves a buffer page by page through the
    driver, whose memory is a parameter ([DeviceMemory]).  Host data is a vector
    of 32-bit words.  A page that would lie outside of the host's vector is
    undefined behaviour, and so is a loop counter that leaves [int].  Barriers
    wait for writes that are under way; the driver's memory has none. *)
From S2P Require Import Prelude Arith CoreCoord BankManager Allocator DeviceAllocator Buffer.

(** The driver: words at a byte address of a core. *)
Class DeviceMemory (Mem : Type) := {
  write_core : CoreCoord → Z → list Z → Mem → Mem;
  read_core : CoreCoord → Z → Z → Mem → list Z
}.

(** [v.begin() + i] up to [v.begin() + i + n] *)
Definition slice {A} (v : list A) (i n : Z) : outcome (list A) :=
  if (0 <=? i) && (i + n <=? Z.of_nat (length v)) then Ok (take (Z.to_nat n) (drop (Z.to_nat i) v)) else Err UB.

(** Words written over [v] from index [i] on. *)
Definition overwrite {A} (v : list A) (i : Z) (ws : list A) : outcome (list A) :=
  if (0 <=? i) && (i + Z.of_nat (length ws) <=? Z.of_nat (length v))
  then Ok (take (Z.to_nat i) v ++ ws ++ drop (Z.to_nat i + length ws) v) else Err UB.

(** The [++] of an [int] that counts up to [i + 1]. *)
Definition int_counter (i : Z) : outcome unit := check (i + 1 <? 2 ^ 31) UB.

Section io.
Context {Mem : Type} `{DeviceMemory Mem}.
Context (dram_core_from_dram_channel : Z → outcome CoreCoord)
        (worker_core_from_logical_core : CoreCoord → outcome CoreCoord).
Abbreviation noc d b bank := (noc_coordinates dram_core_from_dram_channel worker_core_from_logical_core d b bank).

(** The buffer object, whose page mapping is computed when first needed, and the memory. *)
Record io_state := mk_io { io_buffer : Buffer; memory : Mem }.

Definition write_page (core : CoreCoord) (address : Z) (page : list Z) : ST io_state unit :=
  modify_st (λ s, mk_io (io_buffer s) (write_core core address page (memory s))).

Definition get_buffer_page_mapping : ST io_state BufferPageMapping :=
  s ← get_st;
  let b := io_buffer s in
  _ ← check_st (is_sharded (buffer_layout_ b)) TT_ASSERT;
  match buffer_page_mapping_ b with
  | Some m => mret m
  | None =>
    m ← lift_st (generate_buffer_page_mapping b);
    _ ← modify_st (λ s, mk_io (mk_buffer (device_ b) (size_ b) (address_ b) (page_size_ b) (buffer_type_ b)
          (buffer_layout_ b) (shard_parameters_ b) (Some m) (allocate_ b) (bottom_up_ b)) (memory s));
    mret m
  end.

(** ** Interleaved buffers *)
(** Page [page_index]; [bank_index] and [data_index] have run along. *)
Definition write_interleaved_page (d : Device) (host_buffer : list Z) (num_entries_per_page num_banks : Z)
    (page_index : Z) : ST (io_state * Z * Z) unit := λ '(s, bank_index, data_index),
  let b := io_buffer s in
  match
    (_ ← int_counter page_index;
     absolute_address ← page_address d b bank_index page_index;
     page ← slice host_buffer data_index num_entries_per_page;
     match buffer_type_ b with
     | DRAM | L1 | L1_SMALL =>
       noc_coordinates ← noc d b bank_index;
       next ← umod (u32 (bank_index + 1)) num_banks;
       Ok (write_page noc_coordinates absolute_address page s, next, to_i32 (data_index + num_entries_per_page))
     | _ => Err TT_THROW
     end)
  with
  | Ok (r, bank_index, data_index) => (r.1, (r.2, bank_index, data_index))
  | Err e => (Err e, (s, bank_index, data_index))
  end.

Definition WriteToDeviceInterleavedContiguous (d : Device) (host_buffer : list Z) : ST io_state unit := λ s,
  let b := io_buffer s in
  match
    (let host_buffer_size_bytes := u32 (Z.of_nat (length host_buffer) * 4) in
     _ ← check (host_buffer_size_bytes <=? size_ b) TT_FATAL;
     let page_size := u32 (page_size_ b) in
     r ← umod (size_ b) page_size;
     _ ← check (r =? 0) TT_FATAL;
     q ← udiv (size_ b) page_size;
     _ ← check (page_size mod 4 =? 0) TT_FATAL;
     num_banks ← DeviceAllocator.num_banks (device_allocator d) (buffer_type_ b);
     Ok (u32 q, page_size / 4, num_banks))
  with
  | Err e => (Err e, s)
  | Ok (num_pages, num_entries_per_page, num_banks) =>
    let '(r, (s, _, _)) := for_each_st (write_interleaved_page d host_buffer num_entries_per_page num_banks)
                             (range_u32 0 num_pages) (s, 0, 0) in
    (r, s)
  end.

(** The words read so far, and the next bank. *)
Definition read_interleaved_page (d : Device) (b : Buffer) (m : Mem) (page_size num_banks page_index : Z)
    (s : list Z * Z) : outcome (list Z * Z) :=
  let '(host_buffer, bank_index) := s in
  _ ← int_counter page_index;
  absolute_address ← page_address d b bank_index page_index;
  page ← match buffer_type_ b with
         | DRAM | TRACE | L1 | L1_SMALL =>
           noc_coordinates ← noc d b bank_index; Ok (read_core noc_coordinates absolute_address page_size m)
         | SYSTEM_MEMORY => Err TT_THROW
         end;
  next ← umod (u32 (bank_index + 1)) num_banks;
  Ok (host_buffer ++ page, next).

Definition ReadFromDeviceInterleavedContiguous (d : Device) (b : Buffer) (m : Mem) : outcome (list Z) :=
  let page_size := u32 (page_size_ b) in
  r ← umod (size_ b) page_size;
  _ ← check (r =? 0) TT_FATAL;
  q ← udiv (size_ b) page_size;
  let num_pages := u32 q in
  num_banks ← DeviceAllocator.num_banks (device_allocator d) (buffer_type_ b);
  r ← for_each (read_interleaved_page d b m page_size num_banks) (range_u32 0 num_pages) ([], 0);
  Ok r.1.

(** ** Sharded buffers *)
(** The first bank of the core that holds a device page. *)
Definition bank_of_dev_page (d : Device) (b : Buffer) (mapping : BufferPageMapping) (dev_page_id : Z) : outcome Z :=
  core_index ← at_ (dev_page_to_core_mapping_ mapping) (Z.to_nat dev_page_id);
  core ← at_ (all_cores_ mapping) (Z.to_nat core_index);
  bank_ids ← DeviceAllocator.bank_ids_from_logical_core (device_allocator d) (buffer_type_ b) core;
  at_ bank_ids 0.

Definition write_sharded_page (d : Device) (mapping : BufferPageMapping) (host_buffer : list Z)
    (num_entries_per_page host_page_id : Z) : ST io_state unit :=
  s ← get_st;
  let b := io_buffer s in
  _ ← lift_st (int_counter host_page_id);
  dev_page_id ← lift_st (at_ (host_page_to_dev_page_mapping_ mapping) (Z.to_nat host_page_id));
  bank_id ← lift_st (bank_of_dev_page d b mapping dev_page_id);
  absolute_address ← lift_st (sharded_page_address d b bank_id dev_page_id);
  page ← lift_st (slice host_buffer (u32 (host_page_id * num_entries_per_page)) num_entries_per_page);
  noc_coordinates ← lift_st (noc d b bank_id);
  write_page noc_coordinates absolute_address page.

Definition WriteToDeviceSharded (d : Device) (host_buffer : list Z) : ST io_state unit :=
  s ← get_st;
  let b := io_buffer s in
  let host_buffer_size_bytes := u32 (Z.of_nat (length host_buffer) * 4) in
  _ ← check_st (host_buffer_size_bytes <=? size_ b) TT_FATAL;
  let page_size := u32 (page_size_ b) in
  r ← lift_st (umod (size_ b) page_size);
  _ ← check_st (r =? 0) TT_ASSERT;
  _ ← check_st (page_size mod 4 =? 0) TT_ASSERT;
  mapping ← get_buffer_page_mapping;
  total_pages ← lift_st (num_pages b);
  for_each_st (write_sharded_page d mapping host_buffer (page_size / 4)) (range_u32 0 total_pages).

Definition read_pages_to_host_helper (d : Device) (b : Buffer) (m : Mem) (page_size host_page_id dev_page_id bank_id : Z)
    (host_buffer : list Z) : outcome (list Z) :=
  absolute_address ← sharded_page_address d b bank_id dev_page_id;
  noc_coordinates ← noc d b bank_id;
  let num_entries_per_page := page_size / 4 in
  overwrite host_buffer (u32 (host_page_id * num_entries_per_page)) (read_core noc_coordinates absolute_address page_size m).

Definition read_sharded_page (d : Device) (b : Buffer) (m : Mem) (mapping : BufferPageMapping) (page_size : Z)
    (shard_order : bool) (dev_page_id : Z) (host_buffer : list Z) : outcome (list Z) :=
  _ ← int_counter dev_page_id;
  bank_id ← bank_of_dev_page d b mapping dev_page_id;
  host_page_id ← at_ (dev_page_to_host_page_mapping_ mapping) (Z.to_nat dev_page_id);
  match host_page_id with
  | Some host_page_id =>
    read_pages_to_host_helper d b m page_size (if negb shard_order then host_page_id else dev_page_id) dev_page_id
      bank_id host_buffer
  | None => Ok host_buffer
  end.

Definition ReadFromDeviceSharded (d : Device) (shard_order : bool) : ST io_state (list Z) :=
  s ← get_st;
  let b := io_buffer s in
  total_pages ← lift_st (num_dev_pages b);
  let page_size := u32 (page_size_ b) in
  let num_entries_per_page := page_size / 4 in
  mapping ← get_buffer_page_mapping;
  lift_st (for_each (read_sharded_page d b (memory s) mapping page_size shard_order) (range_u32 0 total_pages)
             (replicate (Z.to_nat (u32 (total_pages * num_entries_per_page))) 0)).

(** ** All buffers *)
Definition WriteToDevice (d : Device) (host_buffer : list Z) : ST io_state unit :=
  s ← get_st;
  match buffer_layout_ (io_buffer s) with
  | INTERLEAVED | SINGLE_BANK => WriteToDeviceInterleavedContiguous d host_buffer
  | _ => WriteToDeviceSharded d host_buffer
  end.

Definition WriteToBuffer (d : Device) (host_buffer : list Z) : ST io_state unit :=
  s ← get_st;
  match buffer_type_ (io_buffer s) with
  | DRAM | L1 | L1_SMALL => WriteToDevice d host_buffer
  | _ => throw_st TT_THROW
  end.

Definition ReadFromDevice (d : Device) (shard_order : bool) : ST io_state (list Z) :=
  s ← get_st;
  match buffer_layout_ (io_buffer s) with
  | INTERLEAVED | SINGLE_BANK => lift_st (ReadFromDeviceInterleavedContiguous d (io_buffer s) (memory s))
  | _ => ReadFromDeviceSharded d shard_order
  end.

Definition ReadFromBuffer (d : Device) (shard_order : bool) : ST io_state (list Z) :=
  s ← get_st;
  match buffer_type_ (io_buffer s) with
  | DRAM | TRACE | L1 | L1_SMALL => ReadFromDevice d shard_order
  | SYSTEM_MEMORY => throw_st TT_THROW
  end.

(** The pages of one core, in the order of the shard. *)
Definition ReadShard (d : Device) (core_id : Z) : ST io_state (list Z) :=
  s ← get_st;
  let b := io_buffer s in
  _ ← check_st (is_sharded (buffer_layout_ b)) TT_ASSERT;
  let num_entries_per_page := u32 (page_size_ b / 4) in
  spec ← lift_st (shard_spec b);
  pages ← lift_st (shard_size spec);
  let num_entries_per_shard := u32 (u64 (num_entries_per_page * pages)) in
  mapping ← get_buffer_page_mapping;
  let page_ids := filter (λ i, dev_page_to_core_mapping_ mapping !! Z.to_nat i = Some core_id)
                    (seqZ 0 (Z.of_nat (length (dev_page_to_core_mapping_ mapping)))) in
  r ← lift_st (for_each (λ dev_page_id '(host_buffer, host_page_id),
        bank_id ← bank_of_dev_page d b mapping dev_page_id;
        host_buffer ← read_pages_to_host_helper d b (memory s) (u32 (page_size_ b)) host_page_id dev_page_id bank_id host_buffer;
        Ok (host_buffer, u32 (host_page_id + 1)))
      page_ids (replicate (Z.to_nat num_entries_per_shard) 0, 0));
  mret r.1.

End io.
