(* ===== verification/BufferMemory.v ===== *)
(** * The memory behind the driver

    [DeviceMemoryLaws] is what the driver documents: a read returns what was last
    written, and a write changes nothing outside of its range.  The rest of the
    file is about writing and reading lists of pages. *)
From S2P Require Import Prelude CoreCoord AllocatorAlgorithm Buffer BufferIO.

Abbreviation place := (CoreCoord * Z)%type.

(** [n] bytes at [p] and [n'] bytes at [q] do not overlap. *)
Definition clear_of (p : place) (n : Z) (q : place) (n' : Z) : Prop := p.1 ≠ q.1 ∨ apart p.2 n q.2 n'.

Lemma clear_of_sym p n q n' : clear_of p n q n' → clear_of q n' p n.
Proof. intros [?|?]; [left; congruence|right; by apply apart_sym]. Qed.

Class DeviceMemoryLaws (Mem : Type) `{DeviceMemory Mem} := {
  read_length core a n (m : Mem) : 0 <= n → Z.of_nat (length (read_core core a (4 * n) m)) = n;
  read_write core a ws (m : Mem) :
    Forall (in_range 32) ws → read_core core a (4 * Z.of_nat (length ws)) (write_core core a ws m) = ws;
  read_other core a ws core' a' n (m : Mem) :
    clear_of (core, a) (4 * Z.of_nat (length ws)) (core', a') n →
    read_core core' a' n (write_core core a ws m) = read_core core' a' n m
}.

Section memory.
Context {Mem : Type} `{DeviceMemoryLaws Mem}.

Definition write_all (ps : list (place * list Z)) (m : Mem) : Mem :=
  foldl (λ m p, write_core p.1.1 p.1.2 p.2 m) m ps.

Lemma read_write_all_other ps m q n :
  (∀ p ws, (p, ws) ∈ ps → clear_of p (4 * Z.of_nat (length ws)) q n) →
  read_core q.1 q.2 n (write_all ps m) = read_core q.1 q.2 n m.
Proof.
  revert m; induction ps as [|[p ws] ps IH]; intros m Hps; [done|]. cbn.
  unfold write_all in IH. rewrite IH by (intros; apply Hps; by right).
  apply read_other. specialize (Hps p ws ltac:(by left)). by destruct p, q.
Qed.

Lemma read_write_all ps m i p ws :
  ps !! i = Some (p, ws) → Forall (in_range 32) ws →
  (∀ j q ws', ps !! j = Some (q, ws') → (i < j)%nat → clear_of q (4 * Z.of_nat (length ws')) p (4 * Z.of_nat (length ws))) →
  read_core p.1 p.2 (4 * Z.of_nat (length ws)) (write_all ps m) = ws.
Proof.
  intros Hi Hws Hlater. rewrite <- (take_drop_middle ps i (p, ws)) by done.
  unfold write_all. rewrite foldl_app. cbn. set (m' := write_core _ _ _ _).
  change (read_core p.1 p.2 (4 * Z.of_nat (length ws)) (write_all (drop (S i) ps) m') = ws).
  rewrite read_write_all_other; [by apply read_write|].
  intros q ws' (j & Hj)%list_elem_of_lookup. rewrite lookup_drop in Hj. eapply Hlater; [exact Hj|lia].
Qed.

(** Pages of [e] words. *)
Abbreviation read_place e m p := (read_core (fst p) (snd p) (4 * e) m).

(** Places that do not overlap, all of [n] bytes. *)
Definition all_clear (n : Z) (places : list place) : Prop :=
  ∀ i j p q, places !! i = Some p → places !! j = Some q → i ≠ j → clear_of p n q n.

Lemma read_back e places pages m :
  all_clear (4 * Z.of_nat e) places → length pages = length places →
  Forall (λ ws, length ws = e ∧ Forall (in_range 32) ws) pages →
  (λ p, read_place (Z.of_nat e) (write_all (zip places pages) m) p) <$> places = pages.
Proof.
  intros Hclear Hlen Hpages. apply list_eq. intros i. rewrite list_lookup_fmap.
  destruct (places !! i) as [p|] eqn:Hp; cbn.
  - destruct (lookup_lt_is_Some_2 pages i) as [ws Hws]; [rewrite Hlen; by eapply lookup_lt_Some|].
    rewrite Hws. f_equal. rewrite Forall_forall in Hpages.
    destruct (Hpages ws ltac:(by eapply list_elem_of_lookup_2)) as [He Hr]. rewrite <- He.
    apply (read_write_all _ _ i); [by apply lookup_zip_Some|done|].
    intros j q ws' Hj Hij. apply lookup_zip_Some in Hj as [Hq Hws'].
    destruct (Hpages ws' ltac:(by eapply list_elem_of_lookup_2)) as [He' _]. rewrite He, He'.
    apply (Hclear j i); [done|done|lia].
  - symmetry. apply lookup_ge_None. rewrite Hlen. by apply lookup_ge_None.
Qed.

(** Writing to places clear of others leaves those alone. *)
Lemma read_elsewhere n e (places : list place) (pages : list (list Z)) m (others : list place) :
  (∀ p q, p ∈ places → q ∈ others → clear_of p (4 * Z.of_nat n) q (4 * Z.of_nat e)) →
  Forall (λ ws, length ws = n) pages →
  (λ p, read_place (Z.of_nat e) (write_all (zip places pages) m) p) <$> others
  = (λ p, read_place (Z.of_nat e) m p) <$> others.
Proof.
  intros Hclear Hpages. apply list_fmap_ext. intros i q Hq. apply read_write_all_other.
  intros p ws Hin. pose proof (elem_of_zip_l _ _ _ _ Hin) as Hp. pose proof (elem_of_zip_r _ _ _ _ Hin) as Hws.
  rewrite Forall_forall in Hpages. rewrite (Hpages ws) by done. apply Hclear; [done|by eapply list_elem_of_lookup_2].
Qed.
End memory.
