(* ===== verification/BufferInterleaved.v ===== *)
(** * Interleaved buffers: writing and reading page by page

    With the places of the pages given, [WriteToDeviceInterleavedContiguous]
    writes the chunks of the host vector there, in order, and
    [ReadFromDeviceInterleavedContiguous] reads them back in order. *)
From S2P Require Import Prelude Arith CoreCoord AllocatorAlgorithm BankManager Allocator AllocatorL1 DeviceAllocator Buffer BufferIO BufferMemory.

Lemma slice_chunk {A} (v : list A) (n e i : nat) :
  length v = (e * n)%nat → (i < n)%nat →
  slice v (Z.of_nat i * Z.of_nat e) (Z.of_nat e) = Ok (take e (drop (e * i) v)).
Proof.
  intros Hl Hi. unfold slice. rewrite (proj2 (Z.leb_le 0 _)), (proj2 (Z.leb_le _ _)) by nia. cbn. by repeat f_equal; lia.
Qed.

(** A zip one longer. *)
Lemma zip_app_snoc {A B} (l : list A) (k : list B) a b :
  length l = length k → zip (l ++ [a]) (k ++ [b]) = zip l k ++ [(a, b)].
Proof. revert k; induction l as [|x l IH]; intros [|y k] Hl; simplify_eq/=; [done|]. by rewrite IH. Qed.

(** The elements of a range, counted. *)
Lemma range_split n done v rest :
  range_u32 0 n = done ++ v :: rest → v = Z.of_nat (length done) ∧ v < n ∧ done = range_u32 0 v.
Proof.
  unfold range_u32. rewrite Z.sub_0_r. intros H. pose proof (f_equal (.!! length done) H) as Hv. cbn in Hv.
  rewrite list_lookup_middle in Hv by done. apply lookup_seqZ in Hv as [-> Hlt].
  split_and!; [lia|lia|]. pose proof (f_equal (take (length done)) H) as Ht. rewrite take_app_length in Ht.
  rewrite <- Ht at 1. replace n with (Z.of_nat (length done) + (n - Z.of_nat (length done))) at 1 by lia.
  rewrite seqZ_app, take_app_length' by (try rewrite length_seqZ; lia). f_equal. lia.
Qed.

Section interleaved.
Context {Mem : Type} `{DeviceMemory Mem}.
Context (dram_core : Z → outcome CoreCoord) (worker : CoreCoord → outcome CoreCoord).
Abbreviation noc d b bank := (noc_coordinates dram_core worker d b bank).
Context (d : Device) (b : Buffer) (e n : nat) (nb : Z) (places : list place).

(** A buffer of [n] pages of [e] words on [nb] banks, and where its pages are. *)
Record interleaved_at : Prop := mk_interleaved_at {
  ia_banks : DeviceAllocator.num_banks (device_allocator d) (buffer_type_ b) = Ok nb;
  ia_banks_pos : 0 < nb < 2 ^ 32;
  ia_entries : 0 < Z.of_nat e;
  ia_pages : 0 < Z.of_nat n;
  ia_page_size : page_size_ b = Z.of_nat e * 4;
  ia_size : size_ b = Z.of_nat n * (Z.of_nat e * 4);
  ia_bound : Z.of_nat n * Z.of_nat e < 2 ^ 30;
  ia_places : length places = n;
  ia_place : ∀ i p, places !! i = Some p →
    page_address d b (Z.of_nat i mod nb) (Z.of_nat i) = Ok p.2 ∧ noc d b (Z.of_nat i mod nb) = Ok p.1
}.

Context (Hi : interleaved_at).

Lemma next_bank_mod i : 0 <= i → umod (u32 (i mod nb + 1)) nb = Ok ((i + 1) mod nb).
Proof.
  intros Hi0. pose proof (ia_banks_pos Hi). pose proof (Z.mod_pos_bound i nb ltac:(lia)).
  destruct (Z.eq_dec (i mod nb + 1) (2 ^ 32)); [lia|]. rewrite u32_small, umod_ok by lia.
  by rewrite Z.add_mod_idemp_l by lia.
Qed.

Lemma interleaved_sizes :
  u32 (page_size_ b) = Z.of_nat e * 4 ∧ umod (size_ b) (Z.of_nat e * 4) = Ok 0
  ∧ udiv (size_ b) (Z.of_nat e * 4) = Ok (Z.of_nat n).
Proof.
  destruct Hi as [_ _ He Hn Hp Hs Hb _ _]. rewrite Hp, Hs.
  rewrite u32_small, umod_ok, udiv_ok, Z_mod_mult, Z.div_mul by nia. done.
Qed.

Lemma to_i32_small z : 0 <= z < 2 ^ 31 → to_i32 z = z.
Proof. intros. unfold to_i32. rewrite u32_small by lia. cbv zeta. by rewrite (proj2 (Z.ltb_lt _ _)) by lia. Qed.

Definition writable (t : BufferType) : bool := match t with DRAM | L1 | L1_SMALL => true | _ => false end.

(** The memory after the pages before [i]. *)
Abbreviation written host i m := (write_all (zip (take i places) (chunks e i host)) m).

Lemma run_write_interleaved_page host i m p :
  length host = (e * n)%nat → writable (buffer_type_ b) = true → places !! i = Some p →
  write_interleaved_page dram_core worker d host (Z.of_nat e) nb (Z.of_nat i)
    (mk_io b m, Z.of_nat i mod nb, Z.of_nat i * Z.of_nat e)
  = (Ok tt, (mk_io b (write_core p.1 p.2 (take e (drop (e * i) host)) m), (Z.of_nat i + 1) mod nb,
             (Z.of_nat i + 1) * Z.of_nat e)).
Proof.
  intros Hl Hw Hp. pose proof (lookup_lt_Some _ _ _ Hp) as Hlt. rewrite (ia_places Hi) in Hlt.
  destruct (ia_place Hi i p Hp) as [Ha Hc]. pose proof (ia_bound Hi). pose proof (ia_entries Hi).
  unfold write_interleaved_page, int_counter. cbn [io_buffer].
  rewrite (proj2 (Z.ltb_lt _ _)) by nia. cbn [check mbind outcome_bind]. rewrite Ha. cbn [mbind outcome_bind].
  rewrite (slice_chunk _ n) by done. cbn [mbind outcome_bind]. rewrite Hc. cbn [mbind outcome_bind].
  rewrite next_bank_mod by lia. rewrite to_i32_small by nia.
  destruct (buffer_type_ b); try done; cbn; by rewrite Z.mul_add_distr_r, Z.mul_1_l.
Qed.

Lemma chunks_snoc (host : list Z) i : (e * S i <= length host)%nat →
  chunks e (S i) host = chunks e i host ++ [take e (drop (e * i) host)].
Proof.
  revert host; induction i as [|i IH]; intros host Hl; cbn [chunks]; [by rewrite Nat.mul_0_r|].
  change (take e host :: chunks e (S i) (drop e host) = take e host :: chunks e i (drop e host) ++ [take e (drop (e * S i) host)]).
  f_equal. rewrite IH by (rewrite length_drop; lia). rewrite drop_drop. do 4 f_equal. lia.
Qed.

Lemma run_write_interleaved host m :
  length host = (e * n)%nat → writable (buffer_type_ b) = true →
  WriteToDeviceInterleavedContiguous dram_core worker d host (mk_io b m)
  = (Ok tt, mk_io b (write_all (zip places (chunks e n host)) m)).
Proof.
  intros Hl Hw. destruct interleaved_sizes as (E1 & E2 & E3). pose proof (ia_bound Hi). pose proof (ia_entries Hi).
  pose proof (ia_pages Hi). unfold WriteToDeviceInterleavedContiguous. cbn [io_buffer].
  assert (Hle : u32 (Z.of_nat (length host) * 4) <=? size_ b = true).
  { apply Z.leb_le. rewrite (ia_size Hi), Hl, u32_small; nia. }
  rewrite Hle, E1, E2, E3, Z_mod_mult, Z.div_mul, (ia_banks Hi) by lia. cbn [check mbind outcome_bind Z.eqb].
  rewrite u32_small by nia.
  destruct (for_each_st_inv (write_interleaved_page dram_core worker d host (Z.of_nat e) nb)
    (λ done s, s = (mk_io b (written host (length done) m), Z.of_nat (length done) mod nb, Z.of_nat (length done) * Z.of_nat e))
    (range_u32 0 (Z.of_nat n)) (mk_io b m, 0, 0)) as (s & Hrun & Hs).
  - cbn. pose proof (ia_banks_pos Hi). by rewrite Z.mod_0_l by lia.
  - intros done v rest s Hsplit ->. destruct (range_split _ _ _ _ Hsplit) as (-> & Hv & _).
    destruct (lookup_lt_is_Some_2 places (length done)) as [p Hp]; [rewrite (ia_places Hi); lia|].
    rewrite (run_write_interleaved_page _ _ _ p) by done. eexists. split; [done|].
    rewrite length_app. cbn [length]. rewrite Nat2Z.inj_add, Nat.add_1_r.
    rewrite chunks_snoc by nia. rewrite (take_S_r _ _ _ Hp), zip_app_snoc.
    + unfold write_all. by rewrite foldl_app.
    + rewrite length_take, length_chunks, (ia_places Hi). lia.
  - rewrite Hrun, Hs. do 2 f_equal. unfold range_u32. rewrite length_seqZ.
    replace (Z.to_nat (Z.of_nat n - 0)) with n by lia.
    rewrite take_ge by (rewrite (ia_places Hi); lia). done.
Qed.

Lemma run_read_interleaved m :
  buffer_type_ b ≠ SYSTEM_MEMORY →
  ReadFromDeviceInterleavedContiguous dram_core worker d b m
  = Ok (concat ((λ p, read_core p.1 p.2 (4 * Z.of_nat e) m) <$> places)).
Proof.
  intros Ht. destruct interleaved_sizes as (E1 & E2 & E3). pose proof (ia_bound Hi). pose proof (ia_entries Hi).
  pose proof (ia_pages Hi). unfold ReadFromDeviceInterleavedContiguous.
  rewrite E1, E2, E3, (ia_banks Hi). cbn [check mbind outcome_bind Z.eqb]. rewrite u32_small by nia.
  destruct (for_each_inv (read_interleaved_page dram_core worker d b m (Z.of_nat e * 4) nb)
    (λ done s, s = (concat ((λ p, read_core p.1 p.2 (4 * Z.of_nat e) m) <$> take (length done) places),
                    Z.of_nat (length done) mod nb))
    (range_u32 0 (Z.of_nat n)) ([], 0)) as (s & Hrun & Hs).
  - pose proof (ia_banks_pos Hi). cbn. by rewrite Z.mod_0_l by lia.
  - intros done v rest s Hsplit ->. destruct (range_split _ _ _ _ Hsplit) as (-> & Hv & _).
    destruct (lookup_lt_is_Some_2 places (length done)) as [p Hp]; [rewrite (ia_places Hi); lia|].
    destruct (ia_place Hi _ p Hp) as [Ha Hc].
    unfold read_interleaved_page, int_counter. rewrite (proj2 (Z.ltb_lt _ _)) by nia. cbn [check mbind outcome_bind].
    rewrite Ha. cbn [mbind outcome_bind]. rewrite Hc. rewrite next_bank_mod by lia.
    eexists. rewrite length_app. cbn [length]. rewrite Nat2Z.inj_add, Nat.add_1_r.
    rewrite (take_S_r _ _ _ Hp), fmap_app, concat_app. cbn. rewrite app_nil_r, (Z.mul_comm (Z.of_nat e) 4).
    destruct (buffer_type_ b); try done.
  - rewrite Hrun, Hs. cbn. do 2 f_equal. unfold range_u32. rewrite length_seqZ.
    rewrite take_ge by (rewrite (ia_places Hi); lia). done.
Qed.
End interleaved.
