(* ===== verification/BufferSharded.v ===== *)
(** * Sharded buffers: writing and reading page by page *)
From S2P Require Import Prelude Arith CoreCoord CoreCoordProps AllocatorAlgorithm BankManager Allocator AllocatorL1 DeviceAllocator Buffer BufferShards BufferBijection BufferIO BufferMemory BufferInterleaved.
Definition with_mapping (m : BufferPageMapping) (b : Buffer) : Buffer :=
  mk_buffer (device_ b) (size_ b) (address_ b) (page_size_ b) (buffer_type_ b) (buffer_layout_ b)
    (shard_parameters_ b) (Some m) (allocate_ b) (bottom_up_ b).

(** Replacing piece [p] of a vector made of pieces of one length. *)
Lemma overwrite_concat {A} (e : nat) (ls : list (list A)) (p : nat) ws :
  Forall (λ l, length l = e) ls → length ws = e → (p < length ls)%nat →
  overwrite (concat ls) (Z.of_nat p * Z.of_nat e) ws = Ok (concat (<[p := ws]> ls)).
Proof.
  intros Hls Hw Hp. unfold overwrite. rewrite (length_concat_const e) by done.
  rewrite (proj2 (Z.leb_le 0 _)), (proj2 (Z.leb_le _ _)) by nia. cbn [andb]. f_equal.
  replace (Z.to_nat (Z.of_nat p * Z.of_nat e)) with (e * p)%nat by lia.
  rewrite insert_take_drop by done. rewrite concat_app. cbn [concat]. f_equal; [|f_equal].
  - rewrite <- (take_drop p ls) at 1. rewrite concat_app. apply take_app_length'.
    rewrite (length_concat_const e), length_take by (by apply Forall_take). lia.
  - rewrite Hw. replace (e * p + e)%nat with (e * S p)%nat by lia. by apply drop_concat_const.
Qed.

Lemma concat_replicate_const {A} (e n : nat) (a : A) : concat (replicate n (replicate e a)) = replicate (e * n) a.
Proof. induction n as [|n IH]; cbn; [by rewrite Nat.mul_0_r|]. rewrite IH, <- replicate_add. f_equal. lia. Qed.

Section sharded.
Context {Mem : Type} `{DeviceMemory Mem}.
Context (dram_core : Z → outcome CoreCoord) (worker : CoreCoord → outcome CoreCoord).
Abbreviation noc d b bank := (noc_coordinates dram_core worker d b bank).
Context (d : Device) (b : Buffer) (s : ShardSpecBuffer) (g : geometry) (e : nat) (banks : list Z) (places : list place).

(** A sharded buffer with pages of [e] words: the banks of its cores, and where
    the pages of the host are. *)
Record sharded_at : Prop := mk_sharded_at {
  sh_geometry : geometry_ok g;
  sh_as : sharded_as b s g;
  sh_entries : 0 < Z.of_nat e;
  sh_page_size : page_size_ b = Z.of_nat e * 4;
  sh_bound : g_cores g * pages_per_shard g * Z.of_nat e < 2 ^ 30;
  sh_places : Z.of_nat (length places) = g_h g * g_w g;
  sh_banks : length banks = length (cores_of s);
  sh_bank : ∀ k core bank, cores_of s !! k = Some core → banks !! k = Some bank →
    ∃ rest, DeviceAllocator.bank_ids_from_logical_core (device_allocator d) (buffer_type_ b) core = Ok (bank :: rest);
  sh_place : ∀ i p bank, places !! i = Some p →
    banks !! Z.to_nat (host_to_dev g (Z.of_nat i) / pages_per_shard g) = Some bank →
    sharded_page_address d b bank (host_to_dev g (Z.of_nat i)) = Ok p.2 ∧ noc d b bank = Ok p.1;
  sh_mapping : ∀ m, buffer_page_mapping_ b = Some m → mapping_of g (cores_of s) m
}.

Context (Hs : sharded_at).
Abbreviation D := (g_cores g * pages_per_shard g).
Abbreviation HW := (g_h g * g_w g).

Lemma sharded_bounds :
  0 < D < 2 ^ 30 ∧ 0 < HW <= D ∧ 0 < pages_per_shard g ∧ Z.of_nat e < 2 ^ 30 ∧ HW * Z.of_nat e < 2 ^ 30.
Proof.
  pose proof (sh_geometry Hs) as Hg. destruct (cores_bound g Hg) as [_ HS]. pose proof (cores_pos g Hg).
  pose proof (sh_entries Hs). pose proof (sh_bound Hs). assert (HD : 0 < D) by nia.
  assert (Hle : HW <= D).
  { pose proof (go_h _ Hg). pose proof (go_w _ Hg). assert (0 < HW) by nia.
    destruct Hg as [_ _ Hsr Hsc _ _ _ _ Hcov].
    assert (Hblock : (g_h g + g_sr g - 1) / g_sr g * num_columns (g_w g) (g_sc g) <= g_cores g → HW <= D).
    { intros Hc. destruct (num_columns_spec (g_w g) (g_sc g)) as [? ?]; [lia|lia|].
      destruct (num_columns_spec (g_h g) (g_sr g)) as [? ?]; [lia|lia|]. fold (num_columns (g_h g) (g_sr g)) in Hc.
      set (r := num_columns (g_h g) (g_sr g)) in *. set (q := num_columns (g_w g) (g_sc g)) in *.
      assert (g_h g * g_w g <= (r * g_sr g) * (q * g_sc g)) by nia. nia. }
    destruct (g_layout g); try done; [by destruct Hcov|by apply Hblock..]. }
  pose proof (go_h _ Hg). pose proof (go_w _ Hg). split_and!; nia.
Qed.

Lemma run_get_mapping (m : Mem) :
  ∃ mapping, get_buffer_page_mapping (mk_io b m) = (Ok mapping, mk_io (with_mapping mapping b) m)
    ∧ mapping_of g (cores_of s) mapping.
Proof.
  pose proof (sh_geometry Hs) as Hg. destruct (run_shard_spec b s g Hg (sh_as Hs)) as [Hsh _].
  unfold get_buffer_page_mapping. rewrite run_get. cbn [io_buffer]. rewrite run_check by done.
  destruct (buffer_page_mapping_ b) as [mapping|] eqn:E.
  - exists mapping. split; [|by apply (sh_mapping Hs)]. unfold with_mapping. rewrite <- E. by destruct b.
  - destruct (run_generate b s g Hg (sh_as Hs)) as (mapping & Hrun & Hm). exists mapping. split; [|done].
    by rewrite (run_lift _ _ _ _ Hrun).
Qed.

(** The bank of a device page. *)
Lemma run_bank_of_dev_page m dv :
  mapping_of g (cores_of s) m → 0 <= dv < D →
  ∃ bank, banks !! Z.to_nat (dv / pages_per_shard g) = Some bank ∧ bank_of_dev_page d b m dv = Ok bank.
Proof.
  intros Hm Hdv. destruct sharded_bounds as (_ & _ & HS & _ & _).
  assert (Hk : 0 <= dv / pages_per_shard g < g_cores g) by (split; [apply Z.div_pos; lia|apply Z.div_lt_upper_bound; lia]).
  pose proof (sa_cores _ _ _ (sh_as Hs)) as Hlen.
  destruct (lookup_lt_is_Some_2 (cores_of s) (Z.to_nat (dv / pages_per_shard g))) as [core Hcore]; [lia|].
  destruct (lookup_lt_is_Some_2 banks (Z.to_nat (dv / pages_per_shard g))) as [bank Hbank]; [rewrite (sh_banks Hs); lia|].
  exists bank. split; [done|]. destruct (sh_bank Hs _ _ _ Hcore Hbank) as [rest Hids].
  unfold bank_of_dev_page. rewrite (at_some _ _ (dv / pages_per_shard g)).
  - cbn. rewrite (mo_cores _ _ _ Hm), (at_some _ _ core) by done. cbn. by rewrite Hids.
  - rewrite (mo_dev_core _ _ _ Hm), list_lookup_fmap. by rewrite (proj2 (lookup_seqZ _ _ _ dv)) by lia.
Qed.

Lemma sharded_sizes :
  u32 (page_size_ b) = Z.of_nat e * 4 ∧ umod (size_ b) (Z.of_nat e * 4) = Ok 0.
Proof.
  destruct sharded_bounds as (_ & _ & _ & He & _). pose proof (sh_entries Hs).
  rewrite (sa_size _ _ _ (sh_as Hs)), (sh_page_size Hs), u32_small, umod_ok, Z_mod_mult by lia. done.
Qed.

(** ** Writing *)
Lemma run_write_sharded_page m mapping host i p :
  mapping_of g (cores_of s) mapping → Z.of_nat (length host) = HW * Z.of_nat e → places !! i = Some p →
  write_sharded_page dram_core worker d mapping host (Z.of_nat e) (Z.of_nat i) (mk_io (with_mapping mapping b) m)
  = (Ok tt, mk_io (with_mapping mapping b) (write_core p.1 p.2 (take e (drop (e * i) host)) m)).
Proof.
  intros Hm Hl Hp. destruct sharded_bounds as (HD & HHW & HS & He & Hb). pose proof (sh_geometry Hs) as Hg.
  pose proof (lookup_lt_Some _ _ _ Hp) as Hlt. pose proof (sh_places Hs) as Hlen. pose proof (sh_entries Hs).
  destruct (host_to_dev_spec g Hg (Z.of_nat i)) as [Hdv _]; [lia|].
  destruct (run_bank_of_dev_page mapping _ Hm Hdv) as (bank & Hbank & Hrun).
  destruct (sh_place Hs i p bank Hp Hbank) as [Ha Hn].
  unfold write_sharded_page. rewrite run_get. cbn [io_buffer]. unfold int_counter.
  rewrite (proj2 (Z.ltb_lt _ _)) by nia. rewrite (run_lift _ tt) by done.
  rewrite (run_lift _ (host_to_dev g (Z.of_nat i))).
  2: { apply at_some. rewrite (mo_host_dev _ _ _ Hm), list_lookup_fmap.
       by rewrite (proj2 (lookup_seqZ _ _ _ (Z.of_nat i))) by lia. }
  rewrite (run_lift _ bank) by exact Hrun. rewrite (run_lift _ p.2) by exact Ha.
  rewrite u32_small by nia. rewrite (run_lift _ (take e (drop (e * i) host))).
  2: { apply (slice_chunk _ (length places)); [nia|done]. }
  by rewrite (run_lift _ p.1) by exact Hn.
Qed.

Lemma run_write_sharded m host :
  Z.of_nat (length host) = HW * Z.of_nat e →
  ∃ mapping, mapping_of g (cores_of s) mapping ∧
  WriteToDeviceSharded dram_core worker d host (mk_io b m)
  = (Ok tt, mk_io (with_mapping mapping b) (write_all (zip places (chunks e (length places) host)) m)).
Proof.
  intros Hl. destruct sharded_bounds as (HD & HHW & HS & He & Hb). destruct sharded_sizes as (E1 & E2).
  pose proof (sh_geometry Hs) as Hg. pose proof (sh_places Hs) as Hlen. pose proof (sh_entries Hs).
  destruct (run_get_mapping m) as (mapping & Hmap & Hm). exists mapping. split; [done|].
  unfold WriteToDeviceSharded. rewrite run_get. cbn [io_buffer].
  rewrite run_check.
  2: { apply Z.leb_le. rewrite (sa_size _ _ _ (sh_as Hs)), (sh_page_size Hs), Hl, u32_small; nia. }
  rewrite E1, E2. rewrite (run_lift _ 0) by done. rewrite run_check by done.
  rewrite Z_mod_mult, run_check by done. rewrite (ST_bind_ok _ _ _ _ _ Hmap).
  rewrite (run_lift _ HW) by apply (run_num_pages b s g Hg (sh_as Hs)). rewrite Z.div_mul by lia.
  destruct (for_each_st_inv (write_sharded_page dram_core worker d mapping host (Z.of_nat e))
    (λ done s, s = mk_io (with_mapping mapping b) (write_all (zip (take (length done) places) (chunks e (length done) host)) m))
    (range_u32 0 HW) (mk_io (with_mapping mapping b) m)) as (st & Hrun & Hst); [done| |].
  - intros done v rest st Hsplit ->. destruct (range_split _ _ _ _ Hsplit) as (-> & Hv & _).
    destruct (lookup_lt_is_Some_2 places (length done)) as [p Hp]; [lia|].
    rewrite (run_write_sharded_page _ _ _ _ p) by done. eexists. split; [done|].
    rewrite length_app. cbn [length]. rewrite Nat.add_1_r.
    rewrite chunks_snoc by nia. rewrite (take_S_r _ _ _ Hp), zip_app_snoc.
    + unfold write_all. by rewrite foldl_app.
    + rewrite length_take, length_chunks. lia.
  - rewrite Hrun, Hst. unfold range_u32. rewrite length_seqZ. replace (Z.to_nat (HW - 0)) with (length places) by lia.
    by rewrite take_ge by lia.
Qed.

End sharded.

(** * Reading sharded buffers *)
Section read.
Context {Mem : Type} `{DeviceMemoryLaws Mem}.
Context (dram_core : Z → outcome CoreCoord) (worker : CoreCoord → outcome CoreCoord).
Context (d : Device) (b : Buffer) (s : ShardSpecBuffer) (g : geometry) (e : nat) (banks : list Z) (places : list place).
Context (Hs : sharded_at dram_core worker d b s g e banks places) (m : Mem).
Abbreviation D := (g_cores g * pages_per_shard g).
Abbreviation HW := (g_h g * g_w g).

(** Host page [p] as read from the device. *)
Definition page_read (p : Z) : list Z :=
  match places !! Z.to_nat p with Some q => read_core q.1 q.2 (4 * Z.of_nat e) m | None => replicate e 0 end.

Lemma length_page_read p : length (page_read p) = e.
Proof.
  unfold page_read. destruct (places !! Z.to_nat p) as [q|]; [|by rewrite length_replicate].
  pose proof (read_length q.1 q.2 (Z.of_nat e) m). lia.
Qed.

(** Piece [q] of the result once the device pages before [k] are read. *)
Definition piece (shard_order : bool) (k q : Z) : list Z :=
  if shard_order then
    match dev_to_host g q with Some p => if q <? k then page_read p else replicate e 0 | None => replicate e 0 end
  else if (q <? HW) && (host_to_dev g q <? k) then page_read q else replicate e 0.

Abbreviation pieces so k := (piece so k <$> seqZ 0 D).

Lemma length_piece so k q : length (piece so k q) = e.
Proof.
  unfold piece. destruct so; [destruct (dev_to_host g q); [destruct (q <? k)|]|destruct ((q <? HW) && (host_to_dev g q <? k))];
    rewrite ?length_replicate, ?length_page_read; done.
Qed.

Lemma pieces_start so : concat (pieces so 0) = replicate (Z.to_nat (D * Z.of_nat e)) 0.
Proof.
  pose proof (sharded_bounds dram_core worker d b s g e banks places Hs) as (HD & _ & _ & _ & _).
  assert (Hp : pieces so 0 = replicate (Z.to_nat D) (replicate e 0)).
  { apply list_eq. intros i. rewrite list_lookup_fmap. destruct (seqZ 0 D !! i) as [q|] eqn:Hq.
    - apply lookup_seqZ in Hq as [-> Hq]. rewrite lookup_replicate_2 by lia. cbn [fmap option_fmap option_map]. rewrite Z.add_0_l in *. f_equal. unfold piece. destruct so.
      + rewrite (proj2 (Z.ltb_ge (Z.of_nat i) 0)) by lia. by destruct (dev_to_host g _).
      + destruct (Z.ltb_spec (Z.of_nat i) HW); cbn [andb]; [|done].
        destruct (host_to_dev_spec g (sh_geometry _ _ _ _ _ _ _ _ _ Hs) (Z.of_nat i)) as [? _]; [lia|].
        by rewrite (proj2 (Z.ltb_ge _ 0)) by lia.
    - symmetry. apply lookup_ge_None in Hq. rewrite length_seqZ in Hq. apply lookup_ge_None. rewrite length_replicate. lia. }
  rewrite Hp, concat_replicate_const. f_equal. lia.
Qed.

(** Reading the next device page. *)
Lemma pieces_step (so : bool) k :
  0 <= k < D →
  pieces so (k + 1) = match dev_to_host g k with
                      | Some p => <[Z.to_nat (if so then k else p) := page_read p]> (pieces so k)
                      | None => pieces so k
                      end.
Proof.
  intros Hk. pose proof (sh_geometry _ _ _ _ _ _ _ _ _ Hs) as Hg.
  pose proof (sharded_bounds dram_core worker d b s g e banks places Hs) as (_ & HHW & _ & _ & _).
  destruct (dev_to_host g k) as [p|] eqn:Hp.
  - destruct (dev_to_host_spec g Hg k p Hk Hp) as [Hpr Hpk].
    set (t := if so then k else p). assert (Ht : 0 <= t < D) by (unfold t; destruct so; lia).
    apply list_eq. intros i. rewrite list_lookup_fmap. destruct (decide (i = Z.to_nat t)) as [->|Hne].
    + rewrite list_lookup_insert_eq by (rewrite length_fmap, length_seqZ; lia).
      rewrite (proj2 (lookup_seqZ _ _ _ t)) by lia. cbn. f_equal. unfold piece, t. destruct so.
      * by rewrite Hp, (proj2 (Z.ltb_lt k _)) by lia.
      * rewrite (proj2 (Z.ltb_lt p _)), Hpk, (proj2 (Z.ltb_lt k _)) by lia. done.
    + rewrite list_lookup_insert_ne, list_lookup_fmap by done.
      destruct (seqZ 0 D !! i) as [q|] eqn:Hq; [|done]. apply lookup_seqZ in Hq as [-> Hq]. cbn. f_equal. unfold piece, t in *.
      destruct so.
      * destruct (dev_to_host g (0 + Z.of_nat i)); [|done]. destruct (Z.ltb_spec (0 + Z.of_nat i) (k + 1)), (Z.ltb_spec (0 + Z.of_nat i) k); lia || done.
      * destruct (Z.ltb_spec (0 + Z.of_nat i) HW); cbn [andb]; [|done].
        assert (host_to_dev g (0 + Z.of_nat i) ≠ k).
        { intros He. destruct (host_to_dev_spec g Hg (0 + Z.of_nat i)) as [_ Hv]; [lia|]. rewrite He, Hp in Hv.
          injection Hv as Hv. lia. }
        destruct (Z.ltb_spec (host_to_dev g (0 + Z.of_nat i)) (k + 1)), (Z.ltb_spec (host_to_dev g (0 + Z.of_nat i)) k); lia || done.
  - apply list_fmap_ext. intros i q Hq. apply lookup_seqZ in Hq as [-> Hq]. unfold piece. destruct so.
    + destruct (decide (0 + Z.of_nat i = k)) as [->|]; [by rewrite Hp|].
      destruct (dev_to_host g (0 + Z.of_nat i)); [|done]. destruct (Z.ltb_spec (0 + Z.of_nat i) (k + 1)), (Z.ltb_spec (0 + Z.of_nat i) k); lia || done.
    + destruct (Z.ltb_spec (0 + Z.of_nat i) HW); cbn [andb]; [|done].
      assert (host_to_dev g (0 + Z.of_nat i) ≠ k).
      { intros He. destruct (host_to_dev_spec g Hg (0 + Z.of_nat i)) as [_ Hv]; [lia|]. rewrite He, Hp in Hv. done. }
      destruct (Z.ltb_spec (host_to_dev g (0 + Z.of_nat i)) (k + 1)), (Z.ltb_spec (host_to_dev g (0 + Z.of_nat i)) k); lia || done.
Qed.

Lemma run_read_sharded_page mapping so k :
  mapping_of g (cores_of s) mapping → 0 <= k < D →
  read_sharded_page dram_core worker d b m mapping (Z.of_nat e * 4) so k (concat (pieces so k))
  = Ok (concat (pieces so (k + 1))).
Proof.
  intros Hm Hk. pose proof (sh_geometry _ _ _ _ _ _ _ _ _ Hs) as Hg.
  pose proof (sharded_bounds dram_core worker d b s g e banks places Hs) as (HD & HHW & HS & He & Hb).
  pose proof (sh_entries _ _ _ _ _ _ _ _ _ Hs). pose proof (sh_bound _ _ _ _ _ _ _ _ _ Hs).
  destruct (run_bank_of_dev_page dram_core worker d b s g e banks places Hs mapping k Hm Hk) as (bank & Hbank & Hrun).
  unfold read_sharded_page, int_counter. rewrite (proj2 (Z.ltb_lt _ _)) by lia. cbn [check mbind outcome_bind].
  rewrite Hrun. cbn [mbind outcome_bind]. rewrite (at_some _ _ (dev_to_host g k)).
  2: { rewrite (mo_dev_host _ _ _ Hm), list_lookup_fmap. by rewrite (proj2 (lookup_seqZ _ _ _ k)) by lia. }
  cbn [mbind outcome_bind]. rewrite pieces_step by done. destruct (dev_to_host g k) as [p|] eqn:Hp; [|done].
  destruct (dev_to_host_spec g Hg k p Hk Hp) as [Hpr Hpk].
  pose proof (sh_places _ _ _ _ _ _ _ _ _ Hs) as Hlen.
  destruct (lookup_lt_is_Some_2 places (Z.to_nat p)) as [q Hq]; [lia|].
  rewrite <- Hpk in Hbank. rewrite <- (Z2Nat.id p) in Hbank by lia.
  destruct (sh_place _ _ _ _ _ _ _ _ _ Hs _ q bank Hq Hbank) as [Ha Hn]. rewrite Z2Nat.id, Hpk in Ha by lia.
  unfold read_pages_to_host_helper. rewrite Ha. cbn [mbind outcome_bind]. rewrite Hn. cbn [mbind outcome_bind].
  rewrite Z.div_mul, (Z.mul_comm (Z.of_nat e) 4) by lia.
  assert (Hpage : read_core q.1 q.2 (4 * Z.of_nat e) m = page_read p) by (unfold page_read; by rewrite Hq).
  rewrite Hpage. set (t := if negb so then p else k). assert (Ht : 0 <= t < D) by (unfold t; destruct so; cbn; lia).
  rewrite u32_small by nia. replace (t * Z.of_nat e) with (Z.of_nat (Z.to_nat t) * Z.of_nat e) by lia.
  rewrite overwrite_concat.
  - unfold t. by destruct so.
  - apply Forall_fmap, Forall_forall. intros x _. apply length_piece.
  - apply length_page_read.
  - rewrite length_fmap, length_seqZ. lia.
Qed.

Lemma run_read_sharded so :
  ∃ mapping, mapping_of g (cores_of s) mapping ∧
  ReadFromDeviceSharded dram_core worker d so (mk_io b m) = (Ok (concat (pieces so D)), mk_io (with_mapping mapping b) m).
Proof.
  pose proof (sh_geometry _ _ _ _ _ _ _ _ _ Hs) as Hg.
  pose proof (sharded_bounds dram_core worker d b s g e banks places Hs) as (HD & HHW & HS & He & Hb).
  pose proof (sh_entries _ _ _ _ _ _ _ _ _ Hs). pose proof (sh_bound _ _ _ _ _ _ _ _ _ Hs).
  destruct (run_get_mapping dram_core worker d b s g e banks places Hs m) as (mapping & Hmap & Hm).
  destruct (sharded_sizes dram_core worker d b s g e banks places Hs) as [E1 _].
  exists mapping. split; [done|]. unfold ReadFromDeviceSharded. rewrite run_get. cbn [io_buffer memory].
  rewrite (run_lift _ D) by apply (run_num_dev_pages b s g Hg (sh_as _ _ _ _ _ _ _ _ _ Hs)).
  rewrite (ST_bind_ok _ _ _ _ _ Hmap), E1, Z.div_mul by lia.
  rewrite (u32_small (D * _)), <- (pieces_start so) by nia.
  destruct (for_each_inv (read_sharded_page dram_core worker d b m mapping (Z.of_nat e * 4) so)
    (λ done st, st = concat (pieces so (Z.of_nat (length done)))) (range_u32 0 D) (concat (pieces so 0))) as (st & Hrun & Hst);
    [done| |].
  - intros done v rest st Hsplit ->. destruct (range_split _ _ _ _ Hsplit) as (-> & Hv & _).
    rewrite run_read_sharded_page by (try done; lia). eexists. split; [done|].
    rewrite length_app, Nat2Z.inj_add. done.
  - unfold lift_st. rewrite Hrun, Hst. unfold range_u32. rewrite length_seqZ. by replace (Z.of_nat (Z.to_nat (D - 0))) with D by lia.
Qed.

(** What is read in host order: the pages of the host, and zeros for the padding. *)
Lemma pieces_host_order :
  concat (pieces false D)
  = concat ((λ q, read_core q.1 q.2 (4 * Z.of_nat e) m) <$> places) ++ replicate (Z.to_nat ((D - HW) * Z.of_nat e)) 0.
Proof.
  pose proof (sh_geometry _ _ _ _ _ _ _ _ _ Hs) as Hg. pose proof (sh_places _ _ _ _ _ _ _ _ _ Hs) as Hlen.
  pose proof (sharded_bounds dram_core worker d b s g e banks places Hs) as (HD & HHW & HS & He & Hb).
  assert (Hp : pieces false D = ((λ q, read_core q.1 q.2 (4 * Z.of_nat e) m) <$> places)
                                ++ replicate (Z.to_nat (D - HW)) (replicate e 0)).
  { replace D with (HW + (D - HW)) at 2 by lia. rewrite seqZ_app, fmap_app by lia. f_equal; apply list_eq; intros i.
    - rewrite !list_lookup_fmap. destruct (decide (i < length places)%nat) as [Hi|].
      + rewrite (proj2 (lookup_seqZ _ _ _ (Z.of_nat i))) by lia. destruct (lookup_lt_is_Some_2 places i Hi) as [q Hq].
        rewrite Hq. cbn. f_equal. unfold piece, page_read.
        destruct (host_to_dev_spec g Hg (Z.of_nat i)) as [? _]; [lia|].
        rewrite !(proj2 (Z.ltb_lt _ _)), Nat2Z.id, Hq by lia. done.
      + rewrite !lookup_ge_None_2; [done|lia|rewrite length_seqZ; lia].
    - rewrite list_lookup_fmap. destruct (decide (i < Z.to_nat (D - HW))%nat) as [Hi|].
      + rewrite lookup_replicate_2 by done. rewrite (proj2 (lookup_seqZ _ _ _ (HW + Z.of_nat i))) by lia. cbn. f_equal.
        unfold piece. by rewrite (proj2 (Z.ltb_ge _ _)) by lia.
      + rewrite !lookup_ge_None_2; [done|rewrite length_replicate; lia|rewrite length_seqZ; lia]. }
  rewrite Hp, concat_app, concat_replicate_const. do 2 f_equal. rewrite Z2Nat.inj_mul, Nat2Z.id by lia. lia.
Qed.
End read.
