(* ===== verification/BufferPlaces.v ===== *)
(** * Where banks are: NoC coordinates and offsets

    [bank_at] says at which NoC coordinates a bank lives and at which offset.
    Two ranges of bytes in banks of a device never meet on the chip, unless they
    are ranges of one bank that overlap. *)
From S2P Require Import Prelude FreeList Arith CoreCoord AllocatorAlgorithm FreeListAlgorithm BankManager BankManagerProps Allocator DeviceAllocator AllocatorOps AllocatorL1 AllocatorInit AllocatorTables AllocatorProps AllocatorBanks Buffer BufferIO BufferMemory BufferInterleaved.
(** What the soc descriptor promises: worker cores have coordinates of their own,
    and channels that share a DRAM core have banks that do not overlap. *)
Record soc_ok (dram_core : Z → outcome CoreCoord) (worker : CoreCoord → outcome CoreCoord) (c : AllocatorConfig) : Prop :=
  mk_soc_ok {
  soc_worker : ∀ core, core ∈ cores c → ∃ w, worker core = Ok w;
  soc_worker_inj : ∀ core core' w, core ∈ cores c → core' ∈ cores c →
    worker core = Ok w → worker core' = Ok w → core = core';
  soc_dram : ∀ i, 0 <= i < num_dram_channels c → ∃ w, dram_core i = Ok w;
  soc_dram_worker : ∀ i core w, 0 <= i < num_dram_channels c → core ∈ cores c → dram_core i = Ok w → worker core ≠ Ok w;
  soc_dram_offset : ∀ i o, dram_bank_offsets c !! i = Some o → 0 <= o < 2 ^ 31;
  soc_dram_size : dram_bank_size c <= 2 ^ 32;
  soc_dram_apart : ∀ i j w o o', (i ≠ j)%nat →
    dram_core (Z.of_nat i) = Ok w → dram_core (Z.of_nat j) = Ok w →
    dram_bank_offsets c !! i = Some o → dram_bank_offsets c !! j = Some o' →
    o + dram_bank_size c <= o' ∨ o' + dram_bank_size c <= o
}.

(** A state reachable from a new allocator, as far as its banks go. *)
Definition allocator_of (c : AllocatorConfig) (a : Allocator) : Prop :=
  ∃ M a0, sim c a M ∧ allocator_built c a0 ∧ tables a = tables a0.

Section banks.
Context (dram_core : Z → outcome CoreCoord) (worker : CoreCoord → outcome CoreCoord).
Context (c : AllocatorConfig) (Hc : alloc_config_ok c) (Hsoc : soc_ok dram_core worker c).
Context (a : Allocator) (Ha : allocator_of c a).

(** Bank [bank] of memory [t] lives at [w], its addresses moved by [o]. *)
Inductive bank_at (t : BufferType) (bank : Z) (w : CoreCoord) (o : Z) : Prop :=
| at_dram :
    t = DRAM ∨ t = TRACE → 0 <= bank < num_dram_channels c → dram_core bank = Ok w →
    dram_bank_offsets c !! Z.to_nat bank = Some o → bank_at t bank w o
| at_l1 core ids k :
    t = L1 → bank_ids_from_logical_core a L1 core = Ok ids → ids !! k = Some bank →
    core_slots c (per_core c) core !! k = Some (core, o) → worker core = Ok w → bank_at t bank w o
| at_small core :
    t = L1_SMALL → core ∈ cores c → core_type c core = Ok ComputeAndStore →
    bank_ids_from_logical_core a L1_SMALL core = Ok [bank] → worker core = Ok w → o = 0 → bank_at t bank w o.

(** [n] bytes at address [ad] of a bank: in the memory of its kind, and above the
    limit if the bank is one of a storage core. *)
Record span (t : BufferType) (bank ad n : Z) : Prop := mk_span {
  sp_memory : (memory_of c t).1 <= ad ∧ ad + n <= (memory_of c t).2;
  sp_storage : t = L1 → ∀ core, logical_core_from_bank_id a bank = Ok core →
    core_type c core = Ok StorageOnly → l1_limit c <= ad
}.

Lemma tables_of : ∃ sh, bank_tables c sh a.
Proof.
  destruct Ha as (M & a0 & _ & Hb & Heq). destruct (ab_tables _ _ Hb) as (sh & Ht0). exists sh. by eapply bank_tables_eq.
Qed.

Lemma l1_core_of core ids k id :
  bank_ids_from_logical_core a L1 core = Ok ids → ids !! k = Some id →
  core ∈ cores c ∧ logical_core_from_bank_id a id = Ok core.
Proof.
  intros Hids Hk. destruct tables_of as (sh & Ht).
  destruct (bank_ids_of c sh a Ht L1 core ids ltac:(by left) Hids) as (Hin & -> & _). split; [done|].
  apply list_elem_of_lookup_2, ids_of_entry in Hk as (o & Hk). eapply (bank_core_of c Hc sh a Ht L1); [by left|exact Hk].
Qed.

Lemma small_core_of core ids id :
  bank_ids_from_logical_core a L1_SMALL core = Ok ids → id ∈ ids →
  core ∈ cores c ∧ logical_core_from_bank_id a id = Ok core.
Proof.
  intros Hids Hk. destruct tables_of as (sh & Ht).
  destruct (bank_ids_of c sh a Ht L1_SMALL core ids ltac:(by right) Hids) as (Hin & -> & _). split; [done|].
  apply ids_of_entry in Hk as (o & Hk). eapply (bank_core_of c Hc sh a Ht L1_SMALL); [by right|exact Hk].
Qed.

(** The offsets of a storage core step by the size of its banks. *)
Lemma storage_slot core k o :
  core ∈ cores c → core_type c core = Ok StorageOnly → core_slots c (per_core c) core !! k = Some (core, o) →
  let b := l1_bank_bytes c in
  0 < b ∧ worker_l1_size c = per_core c * b ∧ 0 <= Z.of_nat k < per_core c
  ∧ o = (if per_core c =? 1 then 0 else Z.of_nat k * b - b).
Proof.
  intros Hin Hty Hk. destruct (per_core_spec c (ac_l1 _ Hc) (count_type_elem c core _ Hin Hty)) as (b & Hb0 & Hbpos & Hw & Hper).
  unfold core_slots in Hk. rewrite Hty, list_lookup_fmap in Hk. apply fmap_Some in Hk as (z & Hz & [= ->]).
  apply lookup_seqZ in Hz as [-> Hlt]. unfold l1_bank_bytes, storage_offset. rewrite Hb0. cbv zeta. split_and!; try lia.
  destruct (Z.eqb_spec b (worker_l1_size c)), (Z.eqb_spec (per_core c) 1); nia.
Qed.

Lemma compute_slot core k o :
  core_type c core = Ok ComputeAndStore → core_slots c (per_core c) core !! k = Some (core, o) → k = 0%nat ∧ o = 0.
Proof.
  intros Hty Hk. unfold core_slots in Hk. rewrite Hty in Hk. by apply list_lookup_singleton_Some in Hk as [<- [= <-]].
Qed.

Lemma slot_type core k o :
  core_slots c (per_core c) core !! k = Some (core, o) →
  core_type c core = Ok ComputeAndStore ∨ core_type c core = Ok StorageOnly.
Proof. unfold core_slots. destruct (core_type c core) as [[]|]; try done; auto. Qed.

(** ** Ranges do not meet *)
Lemma l1_spans_clear bank bank' w o w' o' ad n ad' n' :
  bank_at L1 bank w o → bank_at L1 bank' w' o' → span L1 bank ad n → span L1 bank' ad' n' →
  (bank = bank' → apart ad n ad' n') → clear_of (w, ad + o) n (w', ad' + o') n'.
Proof.
  intros H1 H2 [S1 L1'] [S2 L2'] Hsame. cbn in S1, S2. specialize (L1' eq_refl). specialize (L2' eq_refl).
  destruct H1 as [[|]| core ids k _ Hids Hk Hslot Hw|]; try done. destruct H2 as [[|]| core' ids' k' _ Hids' Hk' Hslot' Hw'|]; try done.
  destruct (l1_core_of _ _ _ _ Hids Hk) as [Hin Hcore], (l1_core_of _ _ _ _ Hids' Hk') as [Hin' Hcore'].
  destruct (decide (core = core')) as [<-|Hne].
  2: { left. cbn. intros <-. apply Hne. by eapply (soc_worker_inj _ _ _ Hsoc). }
  right. cbn. rewrite Hids in Hids'. injection Hids' as <-. destruct (decide (k = k')) as [<-|Hk12].
  { rewrite Hk in Hk'. injection Hk' as <-. rewrite Hslot in Hslot'. injection Hslot' as <-.
    specialize (Hsame eq_refl). unfold apart in *. lia. }
  destruct (slot_type _ _ _ Hslot) as [Hty|Hty].
  { destruct (compute_slot _ _ _ Hty Hslot), (compute_slot _ _ _ Hty Hslot'). congruence. }
  destruct (storage_slot _ _ _ Hin Hty Hslot) as (Hb & Hsize & Hk1 & Ho).
  destruct (storage_slot _ _ _ Hin Hty Hslot') as (_ & _ & Hk2 & Ho').
  specialize (L1' _ Hcore Hty). specialize (L2' _ Hcore' Hty).
  destruct (storage_base_spec c (ac_l1 _ Hc)) as [Hbase _]. unfold l1_limit in *.
  unfold apart. destruct (Z.eqb_spec (per_core c) 1); [lia|].
  assert (Z.of_nat k + 1 <= Z.of_nat k' ∨ Z.of_nat k' + 1 <= Z.of_nat k) as [?|?] by lia; [left|right]; nia.
Qed.

Lemma dram_spans_clear t t' bank bank' w o w' o' ad n ad' n' :
  in_dram t = true → in_dram t' = true →
  bank_at t bank w o → bank_at t' bank' w' o' → span t bank ad n → span t' bank' ad' n' →
  (bank = bank' → apart ad n ad' n') → clear_of (w, ad + o) n (w', ad' + o') n'.
Proof.
  intros Ht Ht' H1 H2 [S1 _] [S2 _] Hsame. unfold memory_of in *. rewrite Ht in S1. rewrite Ht' in S2. cbn in S1, S2.
  destruct H1 as [_ Hb Hw Ho| |]; subst; try done. destruct H2 as [_ Hb' Hw' Ho'| |]; subst; try done.
  destruct (decide (w = w')) as [<-|]; [|by left]. right. cbn. destruct (decide (bank = bank')) as [<-|Hne].
  { specialize (Hsame eq_refl). rewrite Ho in Ho'. injection Ho' as <-. unfold apart in *. lia. }
  destruct (soc_dram_apart _ _ _ Hsoc (Z.to_nat bank) (Z.to_nat bank') w o o') as [?|?];
    [lia|by rewrite Z2Nat.id by lia|by rewrite Z2Nat.id by lia|done|done|..];
    pose proof (dc_base _ (ac_dram _ Hc)); unfold apart; lia.
Qed.

Lemma small_core bank w o :
  bank_at L1_SMALL bank w o →
  ∃ core, core ∈ cores c ∧ core_type c core = Ok ComputeAndStore
    ∧ bank_ids_from_logical_core a L1_SMALL core = Ok [bank] ∧ worker core = Ok w ∧ o = 0.
Proof. intros [[|]| |core]; try done. by exists core. Qed.

Lemma small_spans_clear bank bank' w o w' o' ad n ad' n' :
  bank_at L1_SMALL bank w o → bank_at L1_SMALL bank' w' o' →
  (bank = bank' → apart ad n ad' n') → clear_of (w, ad + o) n (w', ad' + o') n'.
Proof.
  intros (core & Hin & _ & Hids & Hw & ->)%small_core (core' & Hin' & _ & Hids' & Hw' & ->)%small_core Hsame.
  destruct (decide (core = core')) as [<-|Hne].
  - rewrite Hids in Hids'. injection Hids' as <-. right. cbn. specialize (Hsame eq_refl). unfold apart in *. lia.
  - left. cbn. intros <-. apply Hne. by eapply (soc_worker_inj _ _ _ Hsoc).
Qed.

Lemma l1_small_spans_clear bank bank' w o w' o' ad n ad' n' :
  bank_at L1 bank w o → bank_at L1_SMALL bank' w' o' → apart ad n ad' n' →
  clear_of (w, ad + o) n (w', ad' + o') n'.
Proof.
  intros H1 (core' & Hin' & Hty & Hids' & Hw' & ->)%small_core Hap.
  destruct H1 as [[|]| core ids k _ Hids Hk Hslot Hw|]; try done.
  destruct (l1_core_of _ _ _ _ Hids Hk) as [Hin Hcore].
  destruct (decide (core = core')) as [<-|Hne].
  - right. cbn. destruct (compute_slot _ _ _ Hty Hslot) as [_ ->]. unfold apart in *. lia.
  - left. cbn. intros <-. apply Hne. by eapply (soc_worker_inj _ _ _ Hsoc).
Qed.

(** A bank of L1 and a bank of DRAM are at different coordinates. *)
Lemma bank_at_core t bank w o :
  bank_at t bank w o → in_dram t = false → ∃ core, core ∈ cores c ∧ worker core = Ok w.
Proof.
  intros [Ht|core ids k _ Hids Hk _ Hw|core]; [by destruct Ht as [->| ->]| |eauto].
  exists core. split; [|done]. by eapply l1_core_of.
Qed.
Lemma bank_at_channel t bank w o :
  bank_at t bank w o → in_dram t = true → 0 <= bank < num_dram_channels c ∧ dram_core bank = Ok w.
Proof. intros [Ht|core ids k -> |core ->]; done. Qed.

Lemma spans_clear t t' bank bank' w o w' o' ad n ad' n' :
  bank_at t bank w o → bank_at t' bank' w' o' → span t bank ad n → span t' bank' ad' n' →
  (t = t' → bank = bank' → apart ad n ad' n') → (t ≠ t' → in_dram t = in_dram t' → apart ad n ad' n') →
  clear_of (w, ad + o) n (w', ad' + o') n'.
Proof.
  intros H1 H2 S1 S2 Hsame Hdiff. destruct (in_dram t) eqn:E, (in_dram t') eqn:E'.
  - eapply (dram_spans_clear t t'); try done. intros Hb. destruct (decide (t = t')); auto.
  - left. cbn. intros <-. destruct (bank_at_channel _ _ _ _ H1 E), (bank_at_core _ _ _ _ H2 E') as (core & ? & ?).
    by eapply (soc_dram_worker _ _ _ Hsoc).
  - left. cbn. intros <-. destruct (bank_at_channel _ _ _ _ H2 E'), (bank_at_core _ _ _ _ H1 E) as (core & ? & ?).
    by eapply (soc_dram_worker _ _ _ Hsoc).
  - assert (Hnd : ∀ t bank w o, bank_at t bank w o → in_dram t = false → t = L1 ∨ t = L1_SMALL).
    { intros t0 b0 w0 o0 [Ht|? ? ? ->|? ->]; auto. by destruct Ht as [->| ->]. }
    destruct (Hnd _ _ _ _ H1 E) as [->| ->], (Hnd _ _ _ _ H2 E') as [->| ->].
    + eapply l1_spans_clear; eauto.
    + eapply l1_small_spans_clear; eauto.
    + apply clear_of_sym. eapply l1_small_spans_clear; eauto. apply apart_sym. auto.
    + eapply small_spans_clear; eauto.
Qed.
End banks.

(** * Where the pages of a buffer are

    The pages of a live buffer lie in its block of each bank; [place_in] follows
    them to the chip.  Pages of one buffer, and of two buffers whose blocks do
    not overlap, share no byte there. *)
(** ** Sizes *)
Definition aligned_page (c : AllocatorConfig) (page_size : Z) : Z := (page_size + alignment c - 1) / alignment c * alignment c.

Lemma aligned_page_spec c page_size :
  0 < alignment c → 0 < page_size →
  page_size <= aligned_page c page_size < page_size + alignment c.
Proof.
  intros Ha Hp. unfold aligned_page. pose proof (Z.div_mod (page_size + alignment c - 1) (alignment c) ltac:(lia)).
  pose proof (Z.mod_pos_bound (page_size + alignment c - 1) (alignment c) Ha). lia.
Qed.

Lemma run_round_up c page_size :
  0 < alignment c → 0 < page_size → page_size + alignment c <= 2 ^ 32 →
  MathUtil.round_up (u32 page_size) (alignment c) = Ok (aligned_page c page_size).
Proof.
  intros Ha Hp Hb. destruct (aligned_page_spec c page_size Ha Hp).
  unfold MathUtil.round_up, MathUtil.div_up. rewrite (proj2 (Z.ltb_lt _ _)) by done. cbn [check mbind outcome_bind].
  rewrite (u32_small page_size) by lia. f_equal.
  assert (E : u32 (u32 (page_size + alignment c) - 1) = page_size + alignment c - 1).
  { destruct (Z.eq_dec (page_size + alignment c) (2 ^ 32)) as [->|]; [reflexivity|].
    by rewrite (u32_small (page_size + _)), u32_small by lia. }
  rewrite E, Z.mul_comm. fold (aligned_page c page_size). apply u32_small. lia.
Qed.

(** What [SizeBytesPerBank] computes: the pages of the fullest bank. *)
Lemma run_SizeBytesPerBank c n page_size banks :
  0 < alignment c → 0 < n < 2 ^ 32 → 0 < page_size → 0 < banks → page_size + alignment c <= 2 ^ 32 →
  SizeBytesPerBank (n * page_size) page_size banks (alignment c)
  = Ok (((n - 1) / banks + 1) * aligned_page c page_size).
Proof.
  intros Ha Hn Hp Hb Hpa. unfold SizeBytesPerBank. rewrite Z_mod_mult, Z.div_mul by lia.
  rewrite (proj2 (Z.ltb_lt _ _)) by done. cbn [check andb Z.eqb mbind outcome_bind].
  destruct (aligned_page_spec c page_size Ha Hp).
  assert (Hd : 0 <= (n - 1) / banks <= n - 1).
  { split; [apply Z.div_pos; lia|]. apply Z.div_le_upper_bound; nia. }
  assert (Hk : (if n =? 1 then Ok 1 else q ← udiv (u64 (n - 1)) banks; Ok (u64 (1 + q))) = Ok ((n - 1) / banks + 1)).
  { destruct (Z.eqb_spec n 1) as [->|]; [by rewrite Z.div_0_l by lia|].
    rewrite u64_small, udiv_ok by lia. cbn. rewrite u64_small by lia. f_equal. lia. }
  rewrite Hk. cbn [mbind outcome_bind]. rewrite run_round_up by done. cbn [mbind outcome_bind].
  rewrite u64_small by nia. done.
Qed.

(** A list of witnesses. *)
Lemma list_choose {A} (P : nat → A → Prop) n :
  (∀ i, (i < n)%nat → ∃ p, P i p) → ∃ l, length l = n ∧ ∀ i p, l !! i = Some p → P i p.
Proof.
  induction n as [|n IH]; intros Hp; [by exists []|].
  destruct IH as (l & Hl & Hlp); [intros i Hi; apply Hp; lia|]. destruct (Hp n) as [p Hpn]; [lia|].
  exists (l ++ [p]). split; [rewrite length_app; cbn; lia|]. intros i q. rewrite lookup_app_Some. intros [?|[Hge Hq]]; [auto|].
  apply list_lookup_singleton_Some in Hq as [Hz <-]. by replace i with n by lia.
Qed.

Section places.
Context (dram_core : Z → outcome CoreCoord) (worker : CoreCoord → outcome CoreCoord).
Context (c : AllocatorConfig) (Hc : alloc_config_ok c) (Hsoc : soc_ok dram_core worker c).
Context (a : Allocator) (Ha : allocator_of c a) (d : Device) (Hd : device_allocator d = Some a).
Abbreviation bank_at := (bank_at dram_core worker c a).
Abbreviation span := (span c a).

(** ** What the accessors return *)
Lemma config_align : 0 < alignment c < 2 ^ 31.
Proof. apply (lc_align _ (ac_l1 _ Hc)). Qed.

Lemma run_alignment : buffer_alignment d = Ok (alignment c).
Proof.
  destruct Ha as (M & a0 & Hs & _). unfold buffer_alignment, get_allocator_alignment. rewrite Hd. cbn.
  by rewrite (sim_config _ _ _ Hs).
Qed.

Lemma run_num_banks t : t ≠ SYSTEM_MEMORY → DeviceAllocator.num_banks (device_allocator d) t = Ok (st_banks (static_of c t)).
Proof.
  intros Ht. destruct Ha as (M & a0 & Hs & _). rewrite Hd. cbn. unfold AllocatorOps.num_banks.
  destruct (manager_exists a t Ht) as [b Hb]. rewrite Hb. cbn. by rewrite (br_banks _ _ _ _ (sim_banks _ _ _ Hs t b Hb)).
Qed.

Lemma l1_bank_facts core ids k bank o w :
  bank_ids_from_logical_core a L1 core = Ok ids → ids !! k = Some bank →
  core_slots c (per_core c) core !! k = Some (core, o) → worker core = Ok w →
  AllocatorOps.bank_offset a L1 bank = Ok o ∧ - worker_l1_size c <= o.
Proof.
  intros Hids Hk Hslot Hw. destruct (tables_of c a Ha) as (sh & Ht).
  destruct (l1_bank_offset c Hc sh a Ht core ids k bank Hids Hk) as (o' & Ho' & Hoff). rewrite Hslot in Ho'. injection Ho' as <-.
  destruct (l1_core_of c Hc a Ha _ _ _ _ Hids Hk) as [Hin _]. pose proof (lc_size c (ac_l1 _ Hc)) as Hsz.
  assert (Hr : - worker_l1_size c <= o <= worker_l1_size c).
  { destruct (slot_type _ _ _ _ Hslot) as [Hty|Hty].
    - destruct (compute_slot _ _ _ _ Hty Hslot) as [_ ->]. pose proof (lc_base c (ac_l1 _ Hc)).
      pose proof (lc_small c (ac_l1 _ Hc)). pose proof (lc_fits c (ac_l1 _ Hc)). lia.
    - destruct (storage_slot _ Hc _ _ _ Hin Hty Hslot) as (Hb & Hsize & Hk1 & ->).
      destruct (Z.eqb_spec (per_core c) 1); nia. }
  split; [|lia]. apply (run_bank_offset a L1 (l1_manager a)); [done|exact Hoff|lia].
Qed.

Lemma small_bank_facts core bank w :
  core ∈ cores c → core_type c core = Ok ComputeAndStore →
  bank_ids_from_logical_core a L1_SMALL core = Ok [bank] → worker core = Ok w →
  AllocatorOps.bank_offset a L1_SMALL bank = Ok 0.
Proof.
  intros Hin Hty Hids Hw. destruct (tables_of c a Ha) as (sh & Ht).
  destruct (bank_ids_of c sh a Ht L1_SMALL core _ ltac:(by right) Hids) as (_ & Heq & Hs & _).
  destruct (ids_slots_length c Hc sh a Ht L1_SMALL ltac:(by right)) as [Hlen Hnd]. cbn [ids_for slots_for] in *.
  destruct (ids_of_offsets _ _ Hlen core 0%nat bank) as (o & Ho & Hz); [by rewrite <- Heq|].
  apply (run_bank_offset a L1_SMALL (l1_small_manager a)); [done| |lia].
  rewrite (bt_small_offset _ _ _ Ht). apply list_elem_of_lookup_2, list_elem_of_filter in Ho as [_ Ho].
  unfold l1_small_slots in Ho. rewrite (proj2 (Z.ltb_lt _ _) Hs) in Ho.
  apply list_elem_of_bind in Ho as (k & Hsm & Hk). unfold small_slots in Hsm.
  assert (o = 0) as ->.
  { destruct (core_type c k) as [[]|]; try by apply elem_of_nil in Hsm. by apply list_elem_of_singleton in Hsm as [= _ ->]. }
  by eapply entry_offset.
Qed.

Lemma dram_offset t bank o :
  t = DRAM ∨ t = TRACE → 0 <= bank < num_dram_channels c → dram_bank_offsets c !! Z.to_nat bank = Some o →
  AllocatorOps.bank_offset a t bank = Ok o.
Proof.
  intros Ht Hb Ho. destruct Ha as (M & a0 & _ & Hbuilt & Heq). unfold tables in Heq. injection Heq as _ _ _ _ H1 _ _ H2.
  pose proof (soc_dram_offset _ _ _ Hsoc _ _ Ho) as Hor.
  assert (Hdb : dram_bank_offset c bank = Some o).
  { unfold dram_bank_offset. rewrite (proj2 (Z.ltb_ge _ _)) by lia.
    rewrite list_lookup_fmap, lookup_take_lt, Ho by lia. cbn. f_equal. apply to_i32_small. lia. }
  destruct Ht as [->| ->].
  - apply (run_bank_offset a DRAM (dram_manager a)); [done|by rewrite H1, (ab_dram_offsets _ _ Hbuilt)|lia].
  - apply (run_bank_offset a TRACE (trace_buffer_manager a)); [done|by rewrite H2, (ab_trace_offsets _ _ Hbuilt)|lia].
Qed.

Lemma run_bank_at t bank w o b :
  bank_at t bank w o → buffer_type_ b = t →
  noc_coordinates dram_core worker d b bank = Ok w ∧ DeviceAllocator.bank_offset (device_allocator d) t bank = Ok o.
Proof.
  intros Hat <-. unfold noc_coordinates, buffer_dram_channel, buffer_logical_core, is_dram, is_l1, DeviceAllocator.bank_offset.
  rewrite Hd. cbn [check_allocator_is_initialized of_option mbind outcome_bind].
  destruct Hat as [Ht Hb Hw Ho|core ids k Ht Hids Hk Hslot Hw|core Ht Hin Hty Hids Hw ->].
  - rewrite (dram_offset _ _ _ Ht Hb Ho). split; [|done].
    assert (Hch : AllocatorOps.dram_channel_from_bank_id a bank = Ok bank).
    { destruct Ha as (M & a0 & _ & Hbuilt & Heq). unfold tables in Heq. injection Heq as E1 _ _ _ _ _ _ _.
      unfold AllocatorOps.dram_channel_from_bank_id. rewrite E1, (cm_channel _ _ (ab_channels _ _ Hbuilt)).
      by rewrite (proj2 (Z.leb_le 0 _)), (proj2 (Z.ltb_lt bank _)) by lia. }
    unfold DeviceAllocator.dram_channel_from_bank_id. cbn. rewrite Hch.
    destruct Ht as [->| ->]; cbn; by rewrite Hw.
  - rewrite Ht. destruct (l1_bank_facts _ _ _ _ _ _ Hids Hk Hslot Hw) as [-> _]. split; [|done].
    destruct (l1_core_of c Hc a Ha _ _ _ _ Hids Hk) as [_ Hcore].
    unfold DeviceAllocator.logical_core_from_bank_id. cbn. by rewrite Hcore.
  - rewrite Ht. rewrite (small_bank_facts core bank w) by done. split; [|done].
    destruct (small_core_of c Hc a Ha core [bank] bank Hids ltac:(by left)) as [_ Hcore].
    unfold DeviceAllocator.logical_core_from_bank_id. cbn. by rewrite Hcore.
Qed.
(** ** Every bank is somewhere *)
Lemma bank_located t bank :
  t = DRAM ∨ t = TRACE ∨ t = L1 → 0 <= bank < st_banks (static_of c t) → ∃ w o, bank_at t bank w o.
Proof.
  intros Ht Hb. assert (Hdram : t = DRAM ∨ t = TRACE → 0 <= bank < num_dram_channels c → ∃ w o, bank_at t bank w o).
  { intros Ht' Hb'. destruct (soc_dram _ _ _ Hsoc bank Hb') as [w Hw]. pose proof (dc_offsets _ (ac_dram _ Hc)).
    destruct (lookup_lt_is_Some_2 (dram_bank_offsets c) (Z.to_nat bank)) as [o Ho]; [lia|].
    exists w, o. by eapply at_dram. }
  destruct Ht as [->|[->| ->]]; [apply Hdram; auto..|]. cbn in Hb. clear Hdram. destruct (tables_of c a Ha) as (sh & Ht).
  destruct (ids_slots_length c Hc sh a Ht L1 ltac:(by left)) as [Hlen _].
  destruct (entry_exists _ _ Hlen bank) as (core & o & Hin).
  { cbn. rewrite (bt_ids _ _ _ Ht). by apply elem_of_seqZ. }
  destruct (bank_ids_some c sh a Ht L1 core bank o ltac:(by left) Hin) as (ids & Hids & Hid).
  apply list_elem_of_lookup in Hid as [k Hk]. destruct (l1_bank_offset c Hc sh a Ht core ids k bank Hids Hk) as (o' & Ho' & _).
  destruct (l1_core_of c Hc a Ha _ _ _ _ Hids Hk) as [Hcore _]. destruct (soc_worker _ _ _ Hsoc core Hcore) as [w Hw].
  exists w, o'. by eapply at_l1.
Qed.

Lemma bank_base t bank w o ad n :
  bank_at t bank w o → span t bank ad n → 0 <= ad + o ∧ ad + n <= 2 ^ 32 ∧ 0 <= ad ∧ o < 2 ^ 31.
Proof.
  intros Hat [Hm Hlim]. pose proof (dc_base _ (ac_dram _ Hc)). pose proof (soc_dram_size _ _ _ Hsoc).
  pose proof (lc_base _ (ac_l1 _ Hc)). pose proof (lc_size _ (ac_l1 _ Hc)).
  destruct Hat as [Ht Hb Hw Ho|core ids k -> Hids Hk Hslot Hw|core -> Hin Hty Hids Hw ->].
  - pose proof (soc_dram_offset _ _ _ Hsoc _ _ Ho). assert (in_dram t = true) by (by destruct Ht as [->| ->]).
    unfold memory_of in Hm. destruct (in_dram t); [|done]. cbn in Hm. lia.
  - destruct (l1_bank_facts _ _ _ _ _ _ Hids Hk Hslot Hw) as [_ Ho]. cbn in Hm.
    destruct (l1_core_of c Hc a Ha _ _ _ _ Hids Hk) as [Hin Hcore].
    destruct (slot_type _ _ _ _ Hslot) as [Hty|Hty].
    + destruct (compute_slot _ _ _ _ Hty Hslot) as [_ ->]. lia.
    + specialize (Hlim eq_refl _ Hcore Hty). destruct (storage_slot _ Hc _ _ _ Hin Hty Hslot) as (Hb & Hsize & Hk1 & ->).
      destruct (storage_base_spec c (ac_l1 _ Hc)) as [Hbase _]. unfold l1_limit in Hlim.
      destruct (Z.eqb_spec (per_core c) 1); nia.
  - cbn in Hm. lia.
Qed.

(** ** Addresses of pages *)
Section buffer.
Context (b : Buffer) (Hps : 0 < page_size_ b).
Abbreviation aligned := (aligned_page c (page_size_ b)).

Lemma run_offset bank w o q n :
  bank_at (buffer_type_ b) bank w o → span (buffer_type_ b) bank (address_ b + q * aligned) n →
  0 <= q < 2 ^ 31 → 0 <= address_ b → 0 <= address_ b + o → page_size_ b + alignment c <= 2 ^ 32 → 0 < n →
  (aligned ← MathUtil.round_up (u32 (page_size_ b)) (alignment c);
   translate_page_address d b (u32 (aligned * to_i32 q)) bank) = Ok (address_ b + q * aligned + o).
Proof.
  intros Hat Hsp Hq HA HAo Hpa Hn. destruct (bank_base _ _ _ _ _ _ Hat Hsp) as (H1 & H2 & H3 & H4).
  destruct (aligned_page_spec c (page_size_ b)) as [Hal _]; [apply config_align|done|]. assert (0 <= q * aligned) by nia.
  rewrite run_round_up by (try done; apply config_align). cbn [mbind outcome_bind].
  destruct (run_bank_at _ _ _ _ b Hat eq_refl) as [_ Hoff]. unfold translate_page_address. rewrite Hoff. cbn [mbind outcome_bind].
  rewrite to_i32_small by lia. rewrite u32_small by nia. rewrite (u64_small (address_ b + o)) by lia. rewrite u64_small by nia.
  f_equal. lia.
Qed.

Lemma run_page_address i nb w o n :
  DeviceAllocator.num_banks (device_allocator d) (buffer_type_ b) = Ok nb → 0 < nb < 2 ^ 32 →
  bank_at (buffer_type_ b) (i mod nb) w o → span (buffer_type_ b) (i mod nb) (address_ b + i / nb * aligned) n →
  0 <= i < 2 ^ 31 → 0 <= address_ b → 0 <= address_ b + o → page_size_ b + alignment c <= 2 ^ 32 → 0 < n →
  page_address d b (i mod nb) i = Ok (address_ b + i / nb * aligned + o).
Proof.
  intros Hnb Hnb0 Hat Hsp Hi HA HAo Hpa Hpn. pose proof (Z.mod_pos_bound i nb ltac:(lia)).
  assert (0 <= i / nb <= i) by (split; [apply Z.div_pos; lia|apply Z.div_le_upper_bound; nia]).
  unfold page_address. rewrite Hnb. cbn [mbind outcome_bind]. rewrite (proj2 (Z.ltb_lt _ _)) by lia. cbn [check mbind outcome_bind].
  rewrite udiv_ok, run_alignment by lia. cbn [mbind outcome_bind].
  rewrite <- (run_offset (i mod nb) w o (i / nb) n) by first [done|lia]. done.
Qed.

Lemma run_sharded_page_address s pages bank w o i n :
  is_sharded (buffer_layout_ b) = true → shard_spec b = Ok s → shard_size s = Ok pages → 0 < pages < 2 ^ 31 →
  bank_at (buffer_type_ b) bank w o → span (buffer_type_ b) bank (address_ b + i mod pages * aligned) n →
  0 <= address_ b → 0 <= address_ b + o → page_size_ b + alignment c <= 2 ^ 32 → 0 < n →
  sharded_page_address d b bank i = Ok (address_ b + i mod pages * aligned + o).
Proof.
  intros Hsh Hs Hp Hp0 Hat Hsp HA HAo Hpa Hpn. pose proof (Z.mod_pos_bound i pages ltac:(lia)).
  unfold sharded_page_address. rewrite Hsh, Hs. cbn [check mbind outcome_bind]. rewrite Hp. cbn [mbind outcome_bind].
  rewrite umod_ok, run_alignment by lia. cbn [mbind outcome_bind].
  rewrite <- (run_offset bank w o (i mod pages) n) by first [done|lia]. done.
Qed.
End buffer.
End places.
