(* ===== verification/BufferLive.v ===== *)
(** * The places of a live buffer

    A buffer whose block of each bank is large enough for its pages has a place
    for every page, and the places do not overlap. *)
From S2P Require Import Prelude FreeList Arith CoreCoord CoreCoordProps AllocatorAlgorithm FreeListAlgorithm BankManager BankManagerProps Allocator DeviceAllocator AllocatorOps AllocatorL1 AllocatorInit AllocatorTables AllocatorProps AllocatorBanks Buffer BufferShards BufferBijection BufferIO BufferMemory BufferInterleaved BufferSharded BufferPlaces.
(** [sz] bytes at [A] of every bank, all of them in the memory of their kind, and
    of L1 in the part that storage cores have if the buffer is interleaved. *)
Record block_in (c : AllocatorConfig) (t : BufferType) (A sz : Z) (interleaved : bool) : Prop := mk_block_in {
  bi_memory : (memory_of c t).1 <= A ∧ A + sz <= (memory_of c t).2;
  bi_limit : t = L1 → interleaved = true → l1_limit c <= A
}.

Section live.
Context (dram_core : Z → outcome CoreCoord) (worker : CoreCoord → outcome CoreCoord).
Context (c : AllocatorConfig) (Hc : alloc_config_ok c) (Hsoc : soc_ok dram_core worker c).
Context (a : Allocator) (Ha : allocator_of c a) (d : Device) (Hd : device_allocator d = Some a).
Abbreviation bank_at := (bank_at dram_core worker c a).
Abbreviation span := (span c a).

(** [n] bytes on the chip that belong to the block of [sz] bytes at [A]. *)
Inductive place_in (t : BufferType) (A sz n : Z) (p : place) : Prop :=
| place_in_bank bank w o ad :
    bank_at t bank w o → span t bank ad n → A <= ad → ad + n <= A + sz → p = (w, ad + o) → place_in t A sz n p.

Lemma places_clear t t' A sz n p A' sz' n' q :
  place_in t A sz n p → place_in t' A' sz' n' q → (in_dram t = in_dram t' → apart A sz A' sz') → clear_of p n q n'.
Proof.
  intros [bank w o ad H1 S1 ? ? ->] [bank' w' o' ad' H2 S2 ? ? ->] Hap.
  assert (Hin : in_dram t = in_dram t' → apart ad n ad' n') by (intros E; specialize (Hap E); unfold apart in *; lia).
  eapply (spans_clear dram_core worker c Hc Hsoc a Ha t t'); try done.
  intros -> _. by apply Hin.
Qed.

Lemma memory_nonneg t A sz i : block_in c t A sz i → 0 <= A.
Proof.
  intros [[Hm _] _]. pose proof (dc_base _ (ac_dram _ Hc)). pose proof (lc_base _ (ac_l1 _ Hc)).
  unfold memory_of in Hm. destruct (in_dram t); cbn in Hm; lia.
Qed.

(** ** Interleaved buffers *)
Section interleaved.
Context (b : Buffer).
Abbreviation t := (buffer_type_ b).
Abbreviation A := (address_ b).
Abbreviation nb := (st_banks (static_of c t)).
Abbreviation aligned := (aligned_page c (page_size_ b)).
Context (Ht : t = DRAM ∨ t = TRACE ∨ t = L1).

Lemma nb_bound : 0 < nb < 2 ^ 32.
Proof.
  pose proof (dc_channels _ (ac_dram _ Hc)). pose proof (l1_banks_pos _ (ac_l1 _ Hc)).
  pose proof (lc_count _ (ac_l1 _ Hc)). destruct (l1_banks_nonneg c (ac_l1 _ Hc)).
  destruct Ht as [->|[->| ->]]; cbn; lia.
Qed.

Context (e n : nat) (sz : Z) (Hblock : block_in c t A sz true).
Context (He : (0 < e)%nat) (Hn : (0 < n)%nat) (Hps : page_size_ b = Z.of_nat e * 4).
Context (Hsize : size_ b = Z.of_nat n * (Z.of_nat e * 4)) (Hbound : size_ b < 2 ^ 31).
Context (Hfit : ((Z.of_nat n - 1) / nb + 1) * aligned <= sz).

Lemma page_aligned : page_size_ b <= aligned ∧ page_size_ b + alignment c <= 2 ^ 32 ∧ 0 < page_size_ b.
Proof.
  pose proof (config_align c Hc). assert (0 < page_size_ b <= size_ b) by nia.
  destruct (aligned_page_spec c (page_size_ b)); lia.
Qed.

(** Where page [i] is. *)
Inductive page_at (i : nat) (p : place) : Prop :=
| page_at_bank w o :
    bank_at t (Z.of_nat i mod nb) w o → span t (Z.of_nat i mod nb) (A + Z.of_nat i / nb * aligned) (page_size_ b) →
    p = (w, A + Z.of_nat i / nb * aligned + o) → page_at i p.

Lemma page_row i : (i < n)%nat → 0 <= Z.of_nat i / nb ∧ (Z.of_nat i / nb + 1) * aligned <= sz.
Proof.
  intros Hi. pose proof nb_bound. destruct page_aligned as (? & _ & ?).
  assert (0 <= Z.of_nat i / nb <= (Z.of_nat n - 1) / nb).
  { split; [apply Z.div_pos; lia|apply Z.div_le_mono; lia]. }
  split; [lia|]. nia.
Qed.

Lemma page_located i : (i < n)%nat → ∃ p, page_at i p.
Proof.
  intros Hi. pose proof nb_bound as Hnb. destruct page_aligned as (Hal & _ & Hp).
  destruct (bank_located dram_core worker c Hc Hsoc a Ha t (Z.of_nat i mod nb) Ht) as (w & o & Hat).
  { apply Z.mod_pos_bound. lia. }
  destruct (page_row i Hi) as [Hr Hr']. pose proof (bi_memory _ _ _ _ _ Hblock) as [Hm1 Hm2].
  eexists. apply (page_at_bank _ _ _ _ Hat); [|done]. split; [nia|].
  intros Hl1 core _ _. pose proof (bi_limit _ _ _ _ _ Hblock Hl1 eq_refl). nia.
Qed.

Lemma page_at_in i p : (i < n)%nat → page_at i p → place_in t A sz (page_size_ b) p.
Proof.
  intros Hi [w o Hat Hsp ->]. destruct (page_row i Hi). destruct page_aligned as (Hal & _ & Hp).
  eapply place_in_bank; [exact Hat|exact Hsp|nia|nia|done].
Qed.

Lemma pages_clear i j p q : page_at i p → page_at j q → i ≠ j → clear_of p (page_size_ b) q (page_size_ b).
Proof.
  intros [w o H1 S1 ->] [w' o' H2 S2 ->] Hij. pose proof nb_bound. destruct page_aligned as (Hal & _ & Hp).
  eapply (spans_clear dram_core worker c Hc Hsoc a Ha t t); try done.
  intros _ Hm. pose proof (Z.div_mod (Z.of_nat i) nb ltac:(lia)). pose proof (Z.div_mod (Z.of_nat j) nb ltac:(lia)).
  assert (Z.of_nat i / nb ≠ Z.of_nat j / nb) by (intros E; rewrite E, Hm in *; lia).
  unfold apart. assert (Z.of_nat i / nb + 1 <= Z.of_nat j / nb ∨ Z.of_nat j / nb + 1 <= Z.of_nat i / nb) as [?|?] by lia; [left|right]; nia.
Qed.

Lemma interleaved_places :
  ∃ places, interleaved_at dram_core worker d b e n nb places ∧ all_clear (page_size_ b) places
    ∧ Forall (place_in t A sz (page_size_ b)) places.
Proof.
  destruct (list_choose page_at n page_located) as (places & Hlen & Hplaces). pose proof nb_bound.
  destruct page_aligned as (Hal & Hpa & Hp). exists places. split_and!.
  - constructor; try done; [|lia..|].
    { apply (run_num_banks c a Ha d Hd). by destruct Ht as [->|[->| ->]]. }
    intros i p Hi. pose proof (lookup_lt_Some _ _ _ Hi). destruct (Hplaces i p Hi) as [w o Hat Hsp ->].
    destruct (run_bank_at dram_core worker c Hc Hsoc a Ha d Hd _ _ _ _ b Hat eq_refl) as [Hnoc _]. split; [|exact Hnoc].
    destruct (page_row i) as [Hr _]; [lia|]. pose proof (memory_nonneg _ _ _ _ Hblock).
    assert (S0 : span t (Z.of_nat i mod nb) A (page_size_ b)).
    { split; [destruct Hsp as [? _], Hblock as [? _]; nia|]. intros Hl1 ? _ _. by apply (bi_limit _ _ _ _ _ Hblock). }
    destruct (bank_base dram_core worker c Hc Hsoc a Ha _ _ _ _ _ _ Hat S0) as [HAo _].
    assert (Z.of_nat n < 2 ^ 31) by nia.
    apply (run_page_address dram_core worker c Hc Hsoc a Ha d Hd b Hp (Z.of_nat i) nb w o (page_size_ b)); try done; try lia.
    apply (run_num_banks c a Ha d Hd). by destruct Ht as [->|[->| ->]].
  - intros i j p q Hi Hj. apply pages_clear; by apply Hplaces.
  - apply Forall_lookup. intros i p Hi. apply (page_at_in i); [|by apply Hplaces].
    apply lookup_lt_Some in Hi. lia.
Qed.
End interleaved.
End live.

(** * The places of a live sharded buffer

    The cores of the grid have a bank each, and every page of a shard has its
    place in the bank of its core. *)
(** The cores a shard of memory [t] can be on: the DRAM channels, written as
    coordinates, or compute cores. *)
Definition shard_core (c : AllocatorConfig) (t : BufferType) (core : CoreCoord) : Prop :=
  match t with
  | DRAM | TRACE => y core = 0 ∧ 0 <= x core < num_dram_channels c
  | L1 => core ∈ cores c ∧ core_type c core = Ok ComputeAndStore
  | L1_SMALL => core ∈ cores c ∧ core_type c core = Ok ComputeAndStore ∧ 0 < l1_small_size c
  | SYSTEM_MEMORY => False
  end.

Section live.
Context (dram_core : Z → outcome CoreCoord) (worker : CoreCoord → outcome CoreCoord).
Context (c : AllocatorConfig) (Hc : alloc_config_ok c) (Hsoc : soc_ok dram_core worker c).
Context (a : Allocator) (Ha : allocator_of c a) (d : Device) (Hd : device_allocator d = Some a).
Abbreviation bank_at := (bank_at dram_core worker c a).
Abbreviation span := (span c a).
Abbreviation place_in := (place_in dram_core worker c a).

(** The one bank of memory [t] that [core] has, and where it is. *)
Record bank_of (t : BufferType) (core : CoreCoord) (bank : Z) (w : CoreCoord) (o : Z) : Prop := mk_bank_of {
  bo_ids : bank_ids_from_logical_core a t core = Ok [bank];
  bo_at : bank_at t bank w o;
  bo_compute : t = L1 → ∀ core', logical_core_from_bank_id a bank = Ok core' → core_type c core' ≠ Ok StorageOnly
}.

(** A core with one slot has one bank. *)
Lemma ids_of_one sh sl core s :
  length sh = length sl → filter (λ s, s.1 = core) sl = [s] → ∃ id, ids_of sh sl core = [id].
Proof.
  intros Hl Hf. assert (Hlen : length (ids_of sh sl core) = 1%nat).
  { unfold ids_of. fold (entries_of sh sl core). rewrite length_fmap, <- (length_fmap snd), (entries_snd sh sl core Hl), Hf. done. }
  destruct (ids_of sh sl core) as [|id [|]]; try done. by exists id.
Qed.

Lemma shard_bank t core : shard_core c t core → ∃ bank w o, bank_of t core bank w o.
Proof.
  intros Hs. assert (Hdram : t = DRAM ∨ t = TRACE → y core = 0 ∧ 0 <= x core < num_dram_channels c → ∃ bank w o, bank_of t core bank w o).
  { intros Ht [Hy Hx]. destruct (bank_located dram_core worker c Hc Hsoc a Ha t (x core)) as (w & o & Hat); [tauto|by destruct Ht as [->| ->]|].
    exists (x core), w, o. split; [|done|by destruct Ht as [->| ->]].
    destruct Ha as (M & a0 & _ & Hbuilt & Heq). unfold tables in Heq. injection Heq as _ _ _ E _ _ _ _.
    apply run_bank_ids. rewrite E, (ab_dram_cores _ _ Hbuilt t Ht core), Hy.
    by rewrite (proj2 (Z.leb_le 0 _)), (proj2 (Z.ltb_lt _ _)) by lia. }
  destruct t; try done; [by apply Hdram; [left|]| |clear Hdram|by apply Hdram; [right|]]; destruct (tables_of c a Ha) as (sh & Ht).
  - destruct Hs as [Hin Hty]. destruct (ids_slots_length c Hc sh a Ht L1 ltac:(by left)) as [Hlen _]. cbn in Hlen.
    assert (Hf : filter (λ s, s.1 = core) (l1_slots c) = [(core, 0)]).
    { rewrite slots_of_core by done. unfold core_slots. by rewrite Hty. }
    destruct (ids_of_one _ _ _ _ Hlen Hf) as [bank Hids].
    assert (Hrun : bank_ids_from_logical_core a L1 core = Ok [bank]).
    { apply run_bank_ids. rewrite (bt_l1 _ _ _ Ht), bool_decide_eq_true_2 by done. unfold banked. rewrite Hty. cbn. by rewrite Hids. }
    destruct (soc_worker _ _ _ Hsoc core Hin) as [w Hw]. exists bank, w, 0. split; [done| |].
    + eapply (at_l1 _ _ _ _ _ _ _ _ core [bank] 0%nat); [done|exact Hrun|done| |done]. unfold core_slots. by rewrite Hty.
    + intros _ core' Hcore'. destruct (l1_core_of c Hc a Ha core [bank] 0 bank Hrun eq_refl) as [_ E]. rewrite E in Hcore'.
      injection Hcore' as <-. by rewrite Hty.
  - destruct Hs as (Hin & Hty & Hpos). destruct (ids_slots_length c Hc sh a Ht L1_SMALL ltac:(by right)) as [Hlen _]. cbn in Hlen.
    assert (Hf : filter (λ s, s.1 = core) (l1_small_slots c) = [(core, 0)]).
    { unfold l1_small_slots. rewrite (proj2 (Z.ltb_lt _ _) Hpos). unfold smalls.
      rewrite (filter_slots (small_slots c)); [|intros k s; apply small_slots_core|apply NoDup_grid|done]. unfold small_slots. by rewrite Hty. }
    destruct (ids_of_one _ _ _ _ Hlen Hf) as [bank Hids].
    assert (Hrun : bank_ids_from_logical_core a L1_SMALL core = Ok [bank]).
    { apply run_bank_ids. rewrite (bt_small _ _ _ Ht), bool_decide_eq_true_2 by done. unfold computes.
      rewrite (proj2 (Z.ltb_lt _ _) Hpos), Hty. cbn. by rewrite Hids. }
    destruct (soc_worker _ _ _ Hsoc core Hin) as [w Hw]. exists bank, w, 0. split; [done| |done]. by eapply at_small.
Qed.

(** Different cores have different banks. *)
Lemma bank_of_core t core core' bank w o w' o' :
  shard_core c t core → shard_core c t core' → bank_of t core bank w o → bank_of t core' bank w' o' → core = core'.
Proof.
  intros Hs Hs' [H1 _ _] [H2 _ _]. assert (Hdram : t = DRAM ∨ t = TRACE → core = core').
  { intros Ht. destruct Ha as (M & a0 & _ & Hbuilt & Heq). unfold tables in Heq. injection Heq as _ _ _ E _ _ _ _.
    apply run_bank_ids in H1, H2. rewrite E, (ab_dram_cores _ _ Hbuilt t Ht) in H1, H2. repeat case_match; try done.
    injection H1 as H1. injection H2 as H2. assert (y core = 0 ∧ y core' = 0) by (by destruct Ht as [->| ->]; destruct Hs, Hs').
    destruct core, core'; cbn in *; f_equal; lia. }
  destruct t; try done; [by apply Hdram; left| | |by apply Hdram; right].
  - destruct (l1_core_of c Hc a Ha core _ 0 bank H1 eq_refl) as [_ E1], (l1_core_of c Hc a Ha core' _ 0 bank H2 eq_refl) as [_ E2]. congruence.
  - destruct (small_core_of c Hc a Ha core _ bank H1 ltac:(by left)) as [_ E1], (small_core_of c Hc a Ha core' _ bank H2 ltac:(by left)) as [_ E2]. congruence.
Qed.

Section sharded.
Context (b : Buffer) (s : ShardSpecBuffer) (g : geometry) (e : nat) (sz : Z).
Abbreviation t := (buffer_type_ b).
Abbreviation A := (address_ b).
Abbreviation aligned := (aligned_page c (page_size_ b)).
Abbreviation S := (pages_per_shard g).
Context (Hg : geometry_ok g) (Has : sharded_as b s g) (He : (0 < e)%nat) (Hps : page_size_ b = Z.of_nat e * 4).
Context (Hmap : ∀ m, buffer_page_mapping_ b = Some m → mapping_of g (cores_of s) m).
Context (Hcores : Forall (shard_core c t) (cores_of s)) (Hblock : block_in c t A sz false).
Context (Hbound : g_cores g * S * page_size_ b < 2 ^ 31) (Hfit : S * aligned <= sz).

(** Where host page [i] is. *)
Inductive shard_page_at (i : nat) (p : place) : Prop :=
| shard_page_bank core bank w o :
    cores_of s !! Z.to_nat (host_to_dev g (Z.of_nat i) / S) = Some core → bank_of t core bank w o →
    span t bank (A + host_to_dev g (Z.of_nat i) mod S * aligned) (page_size_ b) →
    p = (w, A + host_to_dev g (Z.of_nat i) mod S * aligned + o) → shard_page_at i p.

Lemma shard_aligned : page_size_ b <= aligned ∧ page_size_ b + alignment c <= 2 ^ 32 ∧ 0 < page_size_ b ∧ 0 < S < 2 ^ 31.
Proof.
  pose proof (config_align c Hc). pose proof (cores_pos g Hg). destruct (cores_bound g Hg) as [_ HS].
  assert (0 < page_size_ b) by lia. assert (S <= g_cores g * S) by nia.
  assert (page_size_ b <= g_cores g * S * page_size_ b ∧ S <= g_cores g * S * page_size_ b) by nia.
  destruct (aligned_page_spec c (page_size_ b)); lia.
Qed.

(** The page's row of the shard. *)
Lemma shard_row dv : 0 <= dv mod S * aligned ∧ dv mod S * aligned + page_size_ b <= sz.
Proof. destruct shard_aligned as (? & _ & ? & ?). pose proof (Z.mod_pos_bound dv S ltac:(lia)). nia. Qed.

Lemma shard_page_located i : (i < Z.to_nat (g_h g * g_w g))%nat → ∃ p, shard_page_at i p.
Proof.
  intros Hi. destruct (host_to_dev_spec g Hg (Z.of_nat i)) as [Hdv _]; [lia|].
  destruct shard_aligned as (_ & _ & _ & HS). pose proof (sa_cores _ _ _ Has) as Hlen.
  assert (Hk : 0 <= host_to_dev g (Z.of_nat i) / S < g_cores g) by (split; [apply Z.div_pos; lia|apply Z.div_lt_upper_bound; lia]).
  destruct (lookup_lt_is_Some_2 (cores_of s) (Z.to_nat (host_to_dev g (Z.of_nat i) / S))) as [core Hcore]; [lia|].
  pose proof (Forall_lookup_1 _ _ _ _ Hcores Hcore) as Hsc. destruct (shard_bank t core Hsc) as (bank & w & o & Hbo).
  eexists. apply (shard_page_bank _ _ core bank w o); [done|done| |done].
  destruct (shard_row (host_to_dev g (Z.of_nat i))) as [? ?]. pose proof (bi_memory _ _ _ _ _ Hblock) as [? ?].
  split; [lia|]. intros Hl1 core' Hcore' Hst. by destruct (bo_compute _ _ _ _ _ Hbo Hl1 core' Hcore').
Qed.

Lemma shard_page_in i p : shard_page_at i p → place_in t A sz (page_size_ b) p.
Proof.
  intros [core bank w o _ Hbo Hsp ->]. destruct (shard_row (host_to_dev g (Z.of_nat i))).
  eapply place_in_bank; [apply Hbo|exact Hsp|lia|lia|done].
Qed.

Lemma shard_pages_clear i j p q :
  Z.of_nat i < g_h g * g_w g → Z.of_nat j < g_h g * g_w g →
  shard_page_at i p → shard_page_at j q → i ≠ j → clear_of p (page_size_ b) q (page_size_ b).
Proof.
  intros Hi Hj [core bank w o Hc1 B1 S1 ->] [core' bank' w' o' Hc2 B2 S2 ->] Hij.
  destruct (host_to_dev_spec g Hg (Z.of_nat i)) as [D1 E1]; [lia|]. destruct (host_to_dev_spec g Hg (Z.of_nat j)) as [D2 E2]; [lia|].
  set (di := host_to_dev g (Z.of_nat i)) in *. set (dj := host_to_dev g (Z.of_nat j)) in *.
  assert (Hne : di ≠ dj) by (intros E; rewrite E, E2 in E1; injection E1 as E1; lia).
  destruct shard_aligned as (Hal & _ & Hp & HS).
  eapply (spans_clear dram_core worker c Hc Hsoc a Ha t t); [apply B1|apply B2|done|done| |done].
  intros _ <-. pose proof (Forall_lookup_1 _ _ _ _ Hcores Hc1). pose proof (Forall_lookup_1 _ _ _ _ Hcores Hc2).
  assert (core = core') as <- by (by eapply bank_of_core).
  assert (Hk : di / S = dj / S).
  { assert (0 <= di / S ∧ 0 <= dj / S) by (split; apply Z.div_pos; lia).
    destruct (all_cores_spec (grid (tensor_shard_spec s)) (row_major s)) as [Hnd _]; [apply (sa_grid _ _ _ Has)..|].
    pose proof (NoDup_lookup _ _ _ _ Hnd Hc1 Hc2). lia. }
  pose proof (Z.div_mod di S ltac:(lia)). pose proof (Z.div_mod dj S ltac:(lia)). rewrite Hk in *.
  assert (di mod S + 1 <= dj mod S ∨ dj mod S + 1 <= di mod S) as [?|?] by lia; unfold apart; [left|right]; nia.
Qed.

(** The banks of the cores. *)
Lemma banks_of_cores :
  ∃ banks, length banks = length (cores_of s) ∧ ∀ k bank, banks !! k = Some bank →
    ∃ core w o, cores_of s !! k = Some core ∧ bank_of t core bank w o.
Proof.
  apply list_choose. intros k Hk. destruct (lookup_lt_is_Some_2 (cores_of s) k Hk) as [core Hcore].
  destruct (shard_bank t core (Forall_lookup_1 _ _ _ _ Hcores Hcore)) as (bank & w & o & Hbo). by exists bank, core, w, o.
Qed.

Lemma run_shard_page i p bank :
  Z.of_nat i < g_h g * g_w g → shard_page_at i p →
  (∃ core w o, cores_of s !! Z.to_nat (host_to_dev g (Z.of_nat i) / S) = Some core ∧ bank_of t core bank w o) →
  sharded_page_address d b bank (host_to_dev g (Z.of_nat i)) = Ok p.2 ∧ noc_coordinates dram_core worker d b bank = Ok p.1.
Proof.
  intros Hi [core bank' w o Hc1 Hbo Hsp ->] (core' & w' & o' & Hc2 & Hbo'). rewrite Hc1 in Hc2. injection Hc2 as <-.
  pose proof (bo_ids _ _ _ _ _ Hbo) as E. rewrite (bo_ids _ _ _ _ _ Hbo') in E. injection E as ->. clear Hbo' w' o'.
  destruct (run_bank_at dram_core worker c Hc Hsoc a Ha d Hd _ _ _ _ b (bo_at _ _ _ _ _ Hbo) eq_refl) as [Hnoc _]. split; [|exact Hnoc].
  destruct shard_aligned as (_ & Hpa & Hp & HS). destruct (shard_row (host_to_dev g (Z.of_nat i))) as [Hr Hr'].
  destruct (run_shard_spec b s g Hg Has) as [Hsh Hspec]. pose proof (bi_memory _ _ _ _ _ Hblock) as [Hm1 Hm2].
  assert (S0 : span t bank' A (page_size_ b)).
  { split; [lia|]. intros Hl1 core' Hcore' Hst. by destruct (bo_compute _ _ _ _ _ Hbo Hl1 core' Hcore'). }
  destruct (bank_base dram_core worker c Hc Hsoc a Ha _ _ _ _ _ _ (bo_at _ _ _ _ _ Hbo) S0) as [HAo _].
  apply (run_sharded_page_address dram_core worker c Hc Hsoc a Ha d Hd b Hp s S bank' w o _ (page_size_ b)); try done.
  - apply (run_shard_size b s g Hg Has).
  - apply Hbo.
  - by eapply (memory_nonneg c Hc).
Qed.

Lemma sharded_places :
  ∃ banks places, sharded_at dram_core worker d b s g e banks places ∧ all_clear (page_size_ b) places
    ∧ Forall (place_in t A sz (page_size_ b)) places.
Proof.
  destruct banks_of_cores as (banks & Hbl & Hbanks).
  destruct (list_choose shard_page_at _ shard_page_located) as (places & Hlen & Hplaces).
  pose proof (go_h _ Hg). pose proof (go_w _ Hg). assert (HHW : 0 < g_h g * g_w g) by nia.
  assert (Hlt : ∀ i p, places !! i = Some p → Z.of_nat i < g_h g * g_w g) by (intros i p Hi%lookup_lt_Some; lia).
  destruct shard_aligned as (_ & _ & Hp & HS). exists banks, places. split_and!.
  - constructor; try done; [lia|nia|lia| |].
    + intros k core bank Hcore Hbank. exists []. destruct (Hbanks k bank Hbank) as (core' & w & o & Hcore' & Hbo).
      rewrite Hcore in Hcore'. injection Hcore' as <-. unfold DeviceAllocator.bank_ids_from_logical_core. rewrite Hd. apply Hbo.
    + intros i p bank Hi Hbank. eapply run_shard_page; [by eapply Hlt|by apply Hplaces|by apply Hbanks].
  - intros i j p q Hi Hj. apply (shard_pages_clear i j); [by eapply Hlt|by eapply Hlt|by apply Hplaces..].
  - apply Forall_lookup. intros i p Hi. by eapply shard_page_in, Hplaces.
Qed.
End sharded.
End live.
