(* ===== verification/BufferStored.v ===== *)
(** * Reading and writing live buffers

    A buffer that was given the block it asked for is read and written page by
    page at places of its own; [io_at] says what that means, for interleaved and
    sharded buffers alike. *)
From S2P Require Import Prelude FreeList Arith CoreCoord CoreCoordProps AllocatorAlgorithm FreeListAlgorithm BankManager BankManagerProps Allocator DeviceAllocator AllocatorOps AllocatorL1 AllocatorInit AllocatorTables AllocatorProps AllocatorBanks Buffer BufferShards BufferBijection BufferIO BufferMemory BufferInterleaved BufferSharded BufferPlaces BufferLive BufferStore.

(** [b] has, among the live buffers [h], the block it asked for. *)
Definition placed (c : AllocatorConfig) (h : buffers) (b : Buffer) : Prop :=
  ∃ size shards n limit,
    allocation_request b = Ok (size, shards)
    ∧ request (static_of c (buffer_type_ b)) (compute_grid_size c) size (page_size_ b) shards = Ok (n, limit)
    ∧ h !! (buffer_type_ b, address_ b) = Some (block_size (region_of c (buffer_type_ b)) n, bool_decide (shards = None)).

(** Buffers of less than 2 GB whose pages are whole words; shards cover the
    tensor and are on cores that have a bank. *)
Inductive well_formed (c : AllocatorConfig) (b : Buffer) (e : nat) : Prop :=
| wf_interleaved :
    is_sharded (buffer_layout_ b) = false → buffer_type_ b = DRAM ∨ buffer_type_ b = TRACE ∨ buffer_type_ b = L1 →
    page_size_ b = Z.of_nat e * 4 → 0 < page_size_ b → size_ b mod page_size_ b = 0 → 0 < size_ b < 2 ^ 31 →
    well_formed c b e
| wf_sharded s g :
    geometry_ok g → sharded_as b s g → page_size_ b = Z.of_nat e * 4 → 0 < page_size_ b →
    (∀ m, buffer_page_mapping_ b = Some m → mapping_of g (cores_of s) m) →
    Forall (shard_core c (buffer_type_ b)) (cores_of s) → g_cores g * pages_per_shard g * page_size_ b < 2 ^ 31 →
    well_formed c b e.

(** Words of padding that reading a buffer returns after its data. *)
Definition padding_words (b : Buffer) : Z :=
  match num_dev_pages b, num_pages b with Ok dev, Ok host => (dev - host) * (page_size_ b / 4) | _, _ => 0 end.

(** The lists of calls that lead to a state, and the facts about it. *)
Lemma calls_spec shuffle visit g c a0 ks rs a :
  (∀ l, shuffle l ≡ₚ l) → (∀ l, visit l ≡ₚ elements l) → alloc_config_ok c →
  L1BankingAllocator shuffle g c = Ok a0 → Forall (valid_call c) ks → run_calls visit ks a0 = (rs, a) →
  ∃ M, machine_wf c M ∧ recorded c (record_calls c ks rs ∅) M ∧ allocator_of c a.
Proof.
  intros Hs Hv Hc Ha Hks Hrun. destruct (run_L1BankingAllocator shuffle g c Hs Hc) as (a0' & Ha0 & Hb).
  rewrite Ha in Ha0. injection Ha0 as <-.
  destruct (run_calls_recorded visit c ks a0 _ ∅ Hv Hc (built_sim _ _ Hb) Hks (recorded_empty _ _))
    as (rs' & a' & M & Hrun' & Hsim & Hh). rewrite Hrun in Hrun'. injection Hrun' as <- <-.
  exists M. split_and!; [by eapply sim_wf|done|]. exists M, a0. split_and!; [done|done|].
  pose proof (run_calls_tables visit c ks a0 _ Hv (built_sim _ _ Hb) Hks) as Ht. by rewrite Hrun in Ht.
Qed.

(** Buffers of the same kind as [b]: [b], perhaps with its page mapping computed. *)
Definition alike (b b' : Buffer) : Prop := b' = b ∨ ∃ m, b' = with_mapping m b.

Section io.
Context {Mem : Type} `{DeviceMemoryLaws Mem}.
Context (dram_core : Z → outcome CoreCoord) (worker : CoreCoord → outcome CoreCoord) (d : Device).
Abbreviation reads e m := (fmap (λ p : place, read_core p.1 p.2 (4 * Z.of_nat e) m)).

(** The buffers of [V] are written at [places], a page of [e] words at each, and
    read from there, with [pad] words of padding. *)
Record io_at (V : Buffer → Prop) (e pad : nat) (places : list place) : Prop := mk_io_at {
  io_write : ∀ b (m : Mem) host, V b → writable (buffer_type_ b) = true → length host = (e * length places)%nat →
    ∃ b', V b' ∧ WriteToBuffer dram_core worker d host (mk_io b m)
                 = (Ok tt, mk_io b' (write_all (zip places (chunks e (length places) host)) m));
  io_read : ∀ b (m : Mem), V b →
    ∃ b', V b' ∧ ReadFromBuffer dram_core worker d false (mk_io b m)
                 = (Ok (concat (reads e m places) ++ replicate pad 0), mk_io b' m)
}.

Lemma run_write_buffer b (m : Mem) host :
  writable (buffer_type_ b) = true →
  WriteToBuffer dram_core worker d host (mk_io b m)
  = if is_sharded (buffer_layout_ b) then WriteToDeviceSharded dram_core worker d host (mk_io b m)
    else WriteToDeviceInterleavedContiguous dram_core worker d host (mk_io b m).
Proof.
  intros Hw. unfold WriteToBuffer, WriteToDevice. rewrite run_get. cbn [io_buffer].
  destruct (buffer_type_ b); try done; rewrite run_get; cbn [io_buffer]; by destruct (buffer_layout_ b).
Qed.

Lemma run_read_buffer b (m : Mem) so :
  buffer_type_ b ≠ SYSTEM_MEMORY →
  ReadFromBuffer dram_core worker d so (mk_io b m)
  = if is_sharded (buffer_layout_ b) then ReadFromDeviceSharded dram_core worker d so (mk_io b m)
    else (ReadFromDeviceInterleavedContiguous dram_core worker d b m, mk_io b m).
Proof.
  intros Ht. unfold ReadFromBuffer, ReadFromDevice. rewrite run_get. cbn [io_buffer].
  destruct (buffer_type_ b); try done; rewrite run_get; cbn [io_buffer memory]; by destruct (buffer_layout_ b).
Qed.

Lemma interleaved_io b e n nb places :
  is_sharded (buffer_layout_ b) = false → buffer_type_ b ≠ SYSTEM_MEMORY →
  interleaved_at dram_core worker d b e n nb places → io_at (eq b) e 0 places.
Proof.
  intros Hl Ht Hi. pose proof (ia_places _ _ _ _ _ _ _ _ Hi) as Hlen. split; intros b' m.
  - intros host <- Hw Hh. exists b. split; [done|]. rewrite run_write_buffer, Hl by done. rewrite Hlen in *.
    by apply (run_write_interleaved dram_core worker d b e n nb places Hi).
  - intros <-. exists b. split; [done|]. rewrite run_read_buffer, Hl by done. cbn [replicate]. rewrite app_nil_r.
    by rewrite (run_read_interleaved dram_core worker d b e n nb places Hi).
Qed.

(** Computing the mapping leaves the rest. *)
Lemma sharded_at_mapping b s g e banks places m :
  sharded_at dram_core worker d b s g e banks places → mapping_of g (cores_of s) m →
  sharded_at dram_core worker d (with_mapping m b) s g e banks places.
Proof.
  intros [Hg Has He Hps Hb Hp Hbk Hbank Hpl _] Hm. constructor; try done.
  - destruct Has. by constructor.
  - intros m' [= <-]. done.
Qed.

Lemma sharded_io b s g e banks places :
  sharded_at dram_core worker d b s g e banks places → buffer_type_ b ≠ SYSTEM_MEMORY →
  io_at (λ b', sharded_at dram_core worker d b' s g e banks places ∧ alike b b') e
    (Z.to_nat ((g_cores g * pages_per_shard g - g_h g * g_w g) * Z.of_nat e)) places.
Proof.
  intros Hs0 Ht. assert (Hal : ∀ b' m, alike b b' → alike b (with_mapping m b')).
  { intros b' m [->|(m' & ->)]; right; by exists m. }
  assert (Hty : ∀ b', alike b b' → buffer_type_ b' = buffer_type_ b) by (by intros b' [->|(m' & ->)]).
  assert (Hsh : ∀ b', sharded_at dram_core worker d b' s g e banks places → is_sharded (buffer_layout_ b') = true).
  { intros b' Hs. apply (run_shard_spec b' s g (sh_geometry _ _ _ _ _ _ _ _ _ Hs) (sh_as _ _ _ _ _ _ _ _ _ Hs)). }
  split; intros b' m.
  - intros host [Hs Hb'] Hw Hh. rewrite run_write_buffer, Hsh by done.
    destruct (run_write_sharded dram_core worker d b' s g e banks places Hs m host) as (mp & Hmp & Hrun).
    { rewrite Hh, <- (sh_places _ _ _ _ _ _ _ _ _ Hs). lia. }
    exists (with_mapping mp b'). split; [|exact Hrun]. split; [by apply sharded_at_mapping|by apply Hal].
  - intros [Hs Hb']. rewrite run_read_buffer, Hsh by (try done; by rewrite Hty).
    destruct (run_read_sharded dram_core worker d b' s g e banks places Hs m false) as (mp & Hmp & Hrun).
    exists (with_mapping mp b'). rewrite (pieces_host_order dram_core worker d b' s g e banks places Hs m) in Hrun.
    split; [|exact Hrun]. split; [by apply sharded_at_mapping|by apply Hal].
Qed.
End io.

Section placed.
Context (dram_core : Z → outcome CoreCoord) (worker : CoreCoord → outcome CoreCoord).
Context (c : AllocatorConfig) (Hc : alloc_config_ok c) (Hsoc : soc_ok dram_core worker c).
Context (a : Allocator) (Ha : allocator_of c a) (d : Device) (Hd : device_allocator d = Some a).
Context (h : buffers) (M : machine) (Hwf : machine_wf c M) (Hh : recorded c h M).
Abbreviation place_in := (place_in dram_core worker c a).

Lemma static_align t : st_align (static_of c t) = alignment c.
Proof. by destruct t. Qed.

(** The bytes per bank a request comes to. *)
Lemma request_bytes t grid size page_size shards n limit :
  request (static_of c t) grid size page_size shards = Ok (n, limit) →
  SizeBytesPerBank size page_size (match shards with Some k => k | None => st_banks (static_of c t) end) (alignment c) = Ok n.
Proof.
  unfold request. intros (banks & Hb & (n' & Hn & (l & _ & [= -> _])%bind_Ok_inv)%bind_Ok_inv)%bind_Ok_inv.
  rewrite static_align in Hn. destruct shards as [k|]; [|by injection Hb as ->].
  apply bind_Ok_inv in Hb as (_ & _ & [= ->]). done.
Qed.

Lemma placed_block b sz i :
  h !! (buffer_type_ b, address_ b) = Some (sz, i) → block_in c (buffer_type_ b) (address_ b) sz i.
Proof. intros Hin. destruct (recorded_block c h M Hc Hwf Hh _ _ _ _ Hin) as (? & ? & ? & _ & _ & ?). done. Qed.

Lemma block_fits t n : 0 <= n → n <= block_size (region_of c t) n.
Proof. intros Hn. by destruct (block_size_spec (region_of c t) n (regions_ok c t Hc) Hn) as (_ & ? & _). Qed.

(** What [io_at] needs of a buffer and its places. *)
Record stored (b : Buffer) (Mem : Type) `{DeviceMemory Mem} (e : nat) (V : Buffer → Prop) (sz : Z) (places : list place) : Prop :=
  mk_stored {
  st_self : V b;
  st_io : io_at (Mem := Mem) dram_core worker d V e (Z.to_nat (padding_words b)) places;
  st_clear : all_clear (page_size_ b) places;
  st_in : Forall (place_in (buffer_type_ b) (address_ b) sz (page_size_ b)) places;
  st_block : ∃ i, h !! (buffer_type_ b, address_ b) = Some (sz, i);
  st_page : page_size_ b = 4 * Z.of_nat e;
  st_size : size_ b = 4 * Z.of_nat (e * length places)
}.

Context {Mem : Type} `{DeviceMemoryLaws Mem}.

Lemma interleaved_stored b e :
  is_sharded (buffer_layout_ b) = false → buffer_type_ b = DRAM ∨ buffer_type_ b = TRACE ∨ buffer_type_ b = L1 →
  page_size_ b = Z.of_nat e * 4 → 0 < page_size_ b → size_ b mod page_size_ b = 0 → 0 < size_ b < 2 ^ 31 →
  placed c h b → ∃ V sz places, stored b Mem e V sz places.
Proof.
  intros Hl Ht Hps Hp Hmod Hsz (size & shards & n & limit & Hreq & Hr & Hin).
  unfold allocation_request in Hreq. rewrite Hl in Hreq. injection Hreq as <- <-.
  pose proof (Z.div_mod (size_ b) (page_size_ b) ltac:(lia)) as Hdiv. rewrite Hmod in Hdiv.
  set (np := Z.to_nat (size_ b / page_size_ b)). assert (Hq : 0 < size_ b / page_size_ b) by (apply Z.div_str_pos; nia).
  assert (Hsize : size_ b = Z.of_nat np * (Z.of_nat e * 4)) by (unfold np; rewrite Z2Nat.id, <- Hps by lia; lia).
  clearbody np.
  apply request_bytes in Hr. pose proof (nb_bound c Hc b Ht) as Hnb.
  destruct (page_aligned c Hc b e np ltac:(lia) ltac:(lia) Hps Hsize ltac:(lia)) as (_ & Hpa & _).
  assert (Hnp : Z.of_nat np < 2 ^ 32) by nia. pose proof (config_align c Hc).
  rewrite Hsize, <- Hps, run_SizeBytesPerBank in Hr by lia. injection Hr as Hn.
  assert (Hn0 : 0 <= n).
  { rewrite <- Hn. destruct (aligned_page_spec c (page_size_ b)); [lia|lia|].
    assert (0 <= (Z.of_nat np - 1) / st_banks (static_of c (buffer_type_ b))) by (apply Z.div_pos; lia). nia. }
  destruct (interleaved_places dram_core worker c Hc Hsoc a Ha d Hd b Ht e np (block_size (region_of c (buffer_type_ b)) n))
    as (places & Hi & Hclear & Hplaces); try done; try lia.
  { rewrite bool_decide_eq_true_2 in Hin by done. by apply placed_block. }
  { rewrite Hn. by apply block_fits. }
  pose proof (ia_places _ _ _ _ _ _ _ _ Hi) as Hlen. exists (eq b), (block_size (region_of c (buffer_type_ b)) n), places. split; try done.
  - assert (Hpad : padding_words b = 0).
    { unfold padding_words, num_dev_pages. rewrite Hl. cbn. destruct (num_pages b) as [k|]; [|done]. lia. }
    rewrite Hpad. apply (interleaved_io dram_core worker d b e np (st_banks (static_of c (buffer_type_ b)))); [done| |done].
    by destruct Ht as [->|[->| ->]].
  - eauto.
  - lia.
  - rewrite Hlen. lia.
Qed.

Lemma sharded_stored b e s g :
  geometry_ok g → sharded_as b s g → page_size_ b = Z.of_nat e * 4 → 0 < page_size_ b →
  (∀ m, buffer_page_mapping_ b = Some m → mapping_of g (cores_of s) m) →
  Forall (shard_core c (buffer_type_ b)) (cores_of s) → g_cores g * pages_per_shard g * page_size_ b < 2 ^ 31 →
  placed c h b → ∃ V sz places, stored b Mem e V sz places.
Proof.
  intros Hg Has Hps Hp Hmap Hcores Hb (size & shards & n & limit & Hreq & Hr & Hin).
  destruct (run_shard_spec b s g Hg Has) as [Hl Hspec]. unfold allocation_request in Hreq.
  rewrite Hl, Hspec in Hreq. cbn in Hreq. rewrite (run_shard_size b s g Hg Has) in Hreq. cbn in Hreq.
  rewrite (run_num_cores b s g Hg Has) in Hreq. injection Hreq as <- <-.
  destruct (shard_aligned c Hc b g e Hg ltac:(lia) Hps Hb) as (_ & Hpa & _ & HS).
  pose proof (cores_pos g Hg) as Hcp. destruct (cores_bound g Hg) as [Hcb _].
  assert (Hprod : 0 < pages_per_shard g * g_cores g < 2 ^ 31) by nia.
  apply request_bytes in Hr. pose proof (config_align c Hc).
  rewrite (u64_small (pages_per_shard g * g_cores g)), u64_small in Hr by nia.
  rewrite run_SizeBytesPerBank in Hr by lia. injection Hr as Hn.
  assert (HnS : (pages_per_shard g * g_cores g - 1) / g_cores g + 1 = pages_per_shard g).
  { replace (pages_per_shard g * g_cores g - 1) with ((pages_per_shard g - 1) * g_cores g + (g_cores g - 1)) by lia.
    rewrite div_digits by lia. lia. }
  assert (Hn0 : 0 <= n) by (rewrite <- Hn, HnS; destruct (aligned_page_spec c (page_size_ b)); [lia|lia|nia]).
  destruct (sharded_places dram_core worker c Hc Hsoc a Ha d Hd b s g e (block_size (region_of c (buffer_type_ b)) n) Hg Has)
    as (banks & places & Hs & Hclear & Hplaces); try done; try lia.
  { rewrite bool_decide_eq_false_2 in Hin by done. by apply placed_block. }
  { rewrite <- HnS at 1. rewrite Hn. by apply block_fits. }
  pose proof (sh_places _ _ _ _ _ _ _ _ _ Hs) as Hlen.
  exists (λ b', sharded_at dram_core worker d b' s g e banks places ∧ alike b b'), (block_size (region_of c (buffer_type_ b)) n), places.
  split; [split; [done|by left]| |done|done| | |].
  - assert (Hpad : padding_words b = (g_cores g * pages_per_shard g - g_h g * g_w g) * Z.of_nat e).
    { unfold padding_words. rewrite (run_num_dev_pages b s g Hg Has), (run_num_pages b s g Hg Has), Hps.
      by rewrite Z.div_mul. }
    rewrite Hpad. apply (sharded_io dram_core worker d b s g e banks places Hs).
    intros Hsys. destruct (cores_of s) as [|core ?] eqn:E; [cbn in *; pose proof (sa_cores _ _ _ Has); rewrite E in *; cbn in *; lia|].
    apply Forall_cons in Hcores as [Hcore _]. by rewrite Hsys in Hcore.
  - eauto.
  - lia.
  - rewrite (sa_size _ _ _ Has), Hps, Nat2Z.inj_mul, Hlen. lia.
Qed.

Lemma placed_stored b e : well_formed c b e → placed c h b → ∃ V sz places, stored b Mem e V sz places.
Proof.
  intros [Hl Ht Hps Hp Hmod Hsz|s g Hg Has Hps Hp Hmap Hcores Hb] Hplaced; [by apply interleaved_stored|by eapply sharded_stored].
Qed.

(** Two stored buffers, not the same, do not overlap. *)
Lemma stored_apart b e V sz places b' e' V' sz' places' :
  stored b Mem e V sz places → stored b' Mem e' V' sz' places' → (buffer_type_ b, address_ b) ≠ (buffer_type_ b', address_ b') →
  ∀ p q, p ∈ places → q ∈ places' → clear_of p (page_size_ b) q (page_size_ b').
Proof.
  intros S1 S2 Hne p q Hp Hq. destruct (st_block _ _ _ _ _ _ S1) as [i H1], (st_block _ _ _ _ _ _ S2) as [i' H2].
  pose proof (st_in _ _ _ _ _ _ S1) as F1. pose proof (st_in _ _ _ _ _ _ S2) as F2. rewrite Forall_forall in F1, F2.
  eapply (places_clear dram_core worker c Hc Hsoc a Ha); [by apply F1|by apply F2|].
  intros Hm. by eapply (recorded_apart c h M Hc Hwf Hh).
Qed.
End placed.
