(* ===== verification/ByteMemory.v ===== *)
(** * A memory of bytes

    An instance of [DeviceMemory]: bytes at every address of every core, words
    in little-endian order. *)
From S2P Require Import Prelude CoreCoord AllocatorAlgorithm Buffer BufferIO BufferMemory.

Definition bytes : Type := CoreCoord → Z → Z.

(** Byte [j] of a word, and the word of four bytes. *)
Definition word_byte (w j : Z) : Z := w / 256 ^ j mod 256.
Definition four_bytes (m : Z → Z) (p : Z) : Z :=
  m p + 256 * (m (p + 1) + 256 * (m (p + 2) + 256 * m (p + 3))).

#[export] Instance byte_memory : DeviceMemory bytes := {
  write_core core a ws m := λ core' p,
    if bool_decide (core' = core) && (a <=? p) && (p <? a + 4 * Z.of_nat (length ws))
    then word_byte (nth (Z.to_nat ((p - a) / 4)) ws 0) ((p - a) mod 4) else m core' p;
  read_core core a n m := (λ i, four_bytes (m core) (a + 4 * i)) <$> seqZ 0 (n / 4)
}.

Lemma word_of_bytes w : in_range 32 w →
  word_byte w 0 + 256 * (word_byte w 1 + 256 * (word_byte w 2 + 256 * word_byte w 3)) = w.
Proof.
  intros Hw. unfold word_byte. change (256 ^ 0) with 1. change (256 ^ 1) with 256. change (256 ^ 2) with 65536.
  change (256 ^ 3) with 16777216. rewrite Z.div_1_r. unfold in_range in Hw. change (2 ^ 32) with 4294967296 in Hw.
  pose proof (Z.div_mod w 256 ltac:(lia)). pose proof (Z.div_mod (w / 256) 256 ltac:(lia)).
  pose proof (Z.div_mod (w / 65536) 256 ltac:(lia)).
  rewrite (Z.div_div w 256 256) in * by lia. rewrite (Z.div_div w 65536 256) in * by lia.
  change (256 * 256) with 65536 in *. change (65536 * 256) with 16777216 in *.
  rewrite (Z.mod_small (w / 16777216)); [lia|]. split; [apply Z.div_pos; lia|apply Z.div_lt_upper_bound; lia].
Qed.

(** The bytes of a write. *)
Lemma write_inside core a ws (m : bytes) i j :
  (i < length ws)%nat → 0 <= j < 4 →
  write_core core a ws m core (a + 4 * Z.of_nat i + j) = word_byte (nth i ws 0) j.
Proof.
  intros Hi Hj. cbn. rewrite bool_decide_eq_true_2 by done.
  rewrite (proj2 (Z.leb_le _ _)), (proj2 (Z.ltb_lt _ _)) by lia. cbn [andb].
  replace (a + 4 * Z.of_nat i + j - a) with (Z.of_nat i * 4 + j) by lia.
  assert ((Z.of_nat i * 4 + j) / 4 = Z.of_nat i) as -> by (symmetry; apply (Z.div_unique _ _ _ j); lia).
  assert ((Z.of_nat i * 4 + j) mod 4 = j) as -> by (symmetry; apply (Z.mod_unique _ _ (Z.of_nat i)); lia).
  by rewrite Nat2Z.id.
Qed.

Lemma write_outside core a ws (m : bytes) core' p :
  core ≠ core' ∨ p < a ∨ a + 4 * Z.of_nat (length ws) <= p → write_core core a ws m core' p = m core' p.
Proof.
  intros Hp. cbn. case_bool_decide as Hc; [|done]. destruct (Z.leb_spec a p), (Z.ltb_spec p (a + 4 * Z.of_nat (length ws))); try done.
  exfalso. destruct Hp as [?|[?|?]]; [congruence|lia|lia].
Qed.

#[export] Instance byte_memory_laws : DeviceMemoryLaws bytes.
Proof.
  split.
  - intros core a n m Hn. cbn. rewrite length_fmap, length_seqZ, Z.mul_comm, Z.div_mul by lia. lia.
  - intros core a ws m Hws. unfold read_core, byte_memory at 1. apply list_eq. intros i.
    rewrite list_lookup_fmap, Z.mul_comm, Z.div_mul by lia. destruct (ws !! i) as [w|] eqn:Hw.
    + pose proof (lookup_lt_Some _ _ _ Hw) as Hi. rewrite (proj2 (lookup_seqZ _ _ _ (Z.of_nat i))) by lia. cbn [fmap option_fmap option_map].
      f_equal. unfold four_bytes. replace (a + 4 * Z.of_nat i) with (a + 4 * Z.of_nat i + 0) at 1 by lia.
      rewrite !write_inside by lia. rewrite (nth_lookup_Some _ _ _ _ Hw). apply word_of_bytes.
      rewrite Forall_forall in Hws. by eapply Hws, list_elem_of_lookup_2.
    + rewrite (proj2 (lookup_ge_None _ i)); [done|]. apply lookup_ge_None in Hw. rewrite length_seqZ. lia.
  - intros core a ws core' a' n m Hc. unfold read_core, byte_memory at 1 3. apply list_fmap_ext. intros k i Hi.
    apply lookup_seqZ in Hi as [-> Hlt]. pose proof (Z.mul_div_le n 4 ltac:(lia)).
    assert (Ho : ∀ j, 0 <= j < 4 → write_core core a ws m core' (a' + 4 * (0 + Z.of_nat k) + j) = m core' (a' + 4 * (0 + Z.of_nat k) + j)).
    { intros j Hj. apply write_outside. destruct Hc as [?|[?|?]]; cbn in *; [by left|right; lia..]. }
    unfold four_bytes. pose proof (Ho 0 ltac:(lia)) as H0. rewrite Z.add_0_r in H0. rewrite H0, !Ho by lia. done.
Qed.
