(* ===== verification/BufferProps.v ===== *)
(** * What the users of buffers rely on *)
From S2P Require Import Prelude FreeList Arith CoreCoord CoreCoordProps AllocatorAlgorithm FreeListAlgorithm BankManager BankManagerProps Allocator DeviceAllocator AllocatorOps AllocatorL1 AllocatorInit AllocatorTables AllocatorProps AllocatorBanks Buffer BufferShards BufferBijection BufferIO BufferMemory BufferInterleaved BufferSharded BufferPlaces BufferLive BufferStored ByteMemory.

(** ** A device with two live buffers *)
Definition demo_dram_core (channel : Z) : outcome CoreCoord :=
  if (0 <=? channel) && (channel <? 2) then Ok (mk_coord (10 + channel) 0) else Err OUT_OF_RANGE.
Definition demo_worker_core (core : CoreCoord) : outcome CoreCoord := Ok (mk_coord (x core + 1) (y core + 1)).

Lemma demo_soc_ok : soc_ok demo_dram_core demo_worker_core demo_config.
Proof.
  constructor.
  - intros core _. by eexists.
  - intros [] [] w _ _ [= <-] [= ? ?]. f_equal; lia.
  - intros i Hi. change (num_dram_channels demo_config) with 2 in Hi. exists (mk_coord (10 + i) 0). unfold demo_dram_core.
    by rewrite (proj2 (Z.leb_le 0 i)), (proj2 (Z.ltb_lt i 2)) by lia.
  - intros i core w Hi Hin Hw [= Hw']. unfold demo_dram_core in Hw. destruct ((0 <=? i) && (i <? 2)); [|done].
    injection Hw as <-. injection Hw' as Hx Hy. unfold cores in Hin. apply elem_of_grid in Hin as [Hx' _].
    change (x (worker_grid_size demo_config)) with 3 in Hx'. change (num_dram_channels demo_config) with 2 in Hi. lia.
  - intros [|[|i]] o Hi; cbn in Hi; [injection Hi as <-|injection Hi as <-|done]; lia.
  - done.
  - intros i j w o o' Hij Hi Hj. unfold demo_dram_core in *. repeat case_match; simplify_eq. lia.
Qed.

(** The 2 by 3 pages of a tensor on two compute cores, in shards of 2 by 2, and
    four pages interleaved over two DRAM channels. *)
Definition demo_shards : ShardSpecBuffer :=
  mk_shard_spec_buffer
    (mk_shard_spec [mk_range (mk_coord 0 0) (mk_coord 1 0)] (64, 64) ROW_MAJOR false) (32, 32) (2, 3).
Definition demo_geometry : geometry := mk_geometry BLOCK_SHARDED 2 3 2 2 2.
Definition demo_sharded : Buffer :=
  mk_buffer (Some 1) 384 1015552 64 L1 BLOCK_SHARDED (Some demo_shards) None true None.
Definition demo_interleaved : Buffer := mk_buffer (Some 1) 256 1024 64 DRAM INTERLEAVED None None true None.

Definition buffer_calls : list call :=
  [AllocateBuffer 512 64 L1 false (Some 2); AllocateBuffer 256 64 DRAM true None].
Definition buffer_run := run_calls elements buffer_calls demo_state.
Definition demo_buffers : buffers := record_calls demo_config buffer_calls (buffer_run).1 ∅.
Definition demo_device : Device := mk_device 0 true (Some (buffer_run).2).

Lemma demo_geometry_ok : geometry_ok demo_geometry.
Proof. constructor; cbn; try lia. vm_compute. congruence. Qed.

Lemma demo_sharded_as : sharded_as demo_sharded demo_shards demo_geometry.
Proof.
  constructor; try done.
  - split; [|intros [|i] [|k] ? ? ? ? ?; done]. constructor; [|constructor]. vm_compute. split_and!; congruence.
Qed.

Lemma demo_buffer_calls_valid : Forall (valid_call demo_config) buffer_calls.
Proof. by apply valid_calls_sound; vm_compute. Qed.

Lemma demo_sharded_formed : well_formed demo_config demo_sharded 16.
Proof.
  apply (wf_sharded _ _ _ demo_shards demo_geometry); [apply demo_geometry_ok|apply demo_sharded_as|done|done|done| |done].
  apply Forall_forall. intros core Hin. assert (Hall : forallb (λ k,
      bool_decide (k ∈ cores demo_config) && bool_decide (core_type demo_config k = Ok ComputeAndStore)) (cores_of demo_shards) = true)
      by (by vm_compute).
    rewrite forallb_forall in Hall. specialize (Hall core). rewrite <- list_elem_of_In in Hall. specialize (Hall Hin).
    apply andb_true_iff in Hall as [?%bool_decide_eq_true ?%bool_decide_eq_true]. done.
Qed.

Lemma demo_interleaved_formed : well_formed demo_config demo_interleaved 16.
Proof. apply wf_interleaved; try done; auto. Qed.

Lemma demo_sharded_placed : placed demo_config demo_buffers demo_sharded.
Proof. by exists 512, (Some 2), 256, 0; split_and!; vm_compute. Qed.
Lemma demo_interleaved_placed : placed demo_config demo_buffers demo_interleaved.
Proof. by exists 256, None, 128, 0; split_and!; vm_compute. Qed.

(** ** The page mapping *)

(** C28: the page mapping of a sharded buffer is a bijection between the pages of
    the host and the device pages that hold one.  Whenever the shards cover the
    tensor, [generate_buffer_page_mapping] succeeds; the cores are those of the
    grid, in order and once each; host page [p] is on the device where the
    reference [host_to_dev] says, on the core and at the place of the shard that
    the vectors say; and a device page that names a host page is the one that
    this host page names, and all the others are padding. *)
Theorem page_mapping_bijective b s g :
  geometry_ok g → sharded_as b s g →
  ∃ m, generate_buffer_page_mapping b = Ok m
    ∧ all_cores_ m = cores_of s ∧ NoDup (all_cores_ m)
    ∧ Z.of_nat (length (dev_page_to_host_page_mapping_ m)) = g_cores g * pages_per_shard g
    ∧ (∀ p, 0 <= p < g_h g * g_w g → ∃ dv k,
         dv = host_to_dev g p
         ∧ host_page_to_dev_page_mapping_ m !! Z.to_nat p = Some dv
         ∧ dev_page_to_host_page_mapping_ m !! Z.to_nat dv = Some (Some p)
         ∧ dev_page_to_core_mapping_ m !! Z.to_nat dv = Some k
         ∧ host_page_to_local_shard_page_mapping_ m !! Z.to_nat p = Some (dv - k * pages_per_shard g)
         ∧ 0 <= k < g_cores g ∧ 0 <= dv - k * pages_per_shard g < pages_per_shard g)
    ∧ (∀ dv p, dev_page_to_host_page_mapping_ m !! dv = Some (Some p) →
         0 <= p < g_h g * g_w g ∧ host_page_to_dev_page_mapping_ m !! Z.to_nat p = Some (Z.of_nat dv)).
Proof.
  intros Hg Hb. destruct (run_generate b s g Hg Hb) as (m & Hrun & Hm). exists m.
  destruct (all_cores_spec (grid (tensor_shard_spec s)) (row_major s)) as [Hnd _]; [apply (sa_grid _ _ _ Hb)..|].
  pose proof (cores_pos g Hg). destruct (cores_bound g Hg) as [_ HS].
  assert (Hdev : ∀ dv, 0 <= dv < g_cores g * pages_per_shard g →
    dev_page_to_host_page_mapping_ m !! Z.to_nat dv = Some (dev_to_host g dv)).
  { intros dv Hdv. rewrite (mo_dev_host _ _ _ Hm), list_lookup_fmap. by rewrite (proj2 (lookup_seqZ _ _ _ dv)) by lia. }
  assert (Hhost : ∀ p, 0 <= p < g_h g * g_w g → host_page_to_dev_page_mapping_ m !! Z.to_nat p = Some (host_to_dev g p)).
  { intros p Hp. rewrite (mo_host_dev _ _ _ Hm), list_lookup_fmap. by rewrite (proj2 (lookup_seqZ _ _ _ p)) by lia. }
  rewrite (mo_cores _ _ _ Hm). split_and!; [done|done|done| | |].
  - rewrite (mo_dev_host _ _ _ Hm), length_fmap, length_seqZ. nia.
  - intros p Hp. destruct (host_to_dev_spec g Hg p Hp) as [Hdv Hinv].
    exists (host_to_dev g p), (host_to_dev g p / pages_per_shard g).
    pose proof (Z.div_mod (host_to_dev g p) (pages_per_shard g) ltac:(lia)).
    pose proof (Z.mod_pos_bound (host_to_dev g p) (pages_per_shard g) ltac:(lia)).
    split_and!; [done|by apply Hhost|by rewrite Hdev, Hinv| | |apply Z.div_pos; lia|apply Z.div_lt_upper_bound; lia|lia|lia].
    + rewrite (mo_dev_core _ _ _ Hm), list_lookup_fmap. by rewrite (proj2 (lookup_seqZ _ _ _ (host_to_dev g p))) by lia.
    + rewrite (mo_host_local _ _ _ Hm), list_lookup_fmap. rewrite (proj2 (lookup_seqZ _ _ _ p)) by lia. cbn. f_equal. lia.
  - intros dv p Hdv. pose proof (lookup_lt_Some _ _ _ Hdv) as Hlt.
    rewrite (mo_dev_host _ _ _ Hm), length_fmap, length_seqZ in Hlt. rewrite <- (Nat2Z.id dv), Hdev in Hdv by lia.
    injection Hdv as Hdv. destruct (dev_to_host_spec g Hg (Z.of_nat dv) p ltac:(lia) Hdv) as [Hp <-]. split; [done|by apply Hhost].
Qed.

Lemma page_mapping_bijective_witness :
  ∃ m, generate_buffer_page_mapping demo_sharded = Ok m
    ∧ all_cores_ m = [mk_coord 0 0; mk_coord 1 0] ∧ NoDup (all_cores_ m)
    ∧ Z.of_nat (length (dev_page_to_host_page_mapping_ m)) = 8
    ∧ (∀ p, 0 <= p < 6 → ∃ dv k,
         dv = host_to_dev demo_geometry p
         ∧ host_page_to_dev_page_mapping_ m !! Z.to_nat p = Some dv
         ∧ dev_page_to_host_page_mapping_ m !! Z.to_nat dv = Some (Some p)
         ∧ dev_page_to_core_mapping_ m !! Z.to_nat dv = Some k
         ∧ host_page_to_local_shard_page_mapping_ m !! Z.to_nat p = Some (dv - k * 4)
         ∧ 0 <= k < 2 ∧ 0 <= dv - k * 4 < 4)
    ∧ (∀ dv p, dev_page_to_host_page_mapping_ m !! dv = Some (Some p) →
         0 <= p < 6 ∧ host_page_to_dev_page_mapping_ m !! Z.to_nat p = Some (Z.of_nat dv)).
Proof. exact (page_mapping_bijective demo_sharded demo_shards demo_geometry demo_geometry_ok demo_sharded_as). Defined.

(** ** Writing and reading *)

(** C29: what is written to a live buffer is read back.  On a device whose
    allocator has run any list of valid calls, take a well-formed buffer ([well_formed]: sizes and pages of
    whole words below 2 GB, interleaved, or sharded with a page mapping over cores that have a bank) that holds the block it asked
    for ([placed]).  Writing as many words as the buffer has succeeds, and reading the
    buffer then returns them, in order, followed by zeros for the padding pages
    of its shards; reading changes no memory. *)
Theorem write_read_buffer {Mem} `{DeviceMemoryLaws Mem} dram_core worker shuffle visit alg c a0 ks rs a d b e (m : Mem) host :
  (∀ l, shuffle l ≡ₚ l) → (∀ l, visit l ≡ₚ elements l) → alloc_config_ok c → soc_ok dram_core worker c →
  L1BankingAllocator shuffle alg c = Ok a0 → Forall (valid_call c) ks → run_calls visit ks a0 = (rs, a) →
  device_allocator d = Some a → well_formed c b e → placed c (record_calls c ks rs ∅) b →
  writable (buffer_type_ b) = true → 4 * Z.of_nat (length host) = size_ b → Forall (in_range 32) host →
  ∃ s s', WriteToBuffer dram_core worker d host (mk_io b m) = (Ok tt, s)
    ∧ ReadFromBuffer dram_core worker d false s = (Ok (host ++ replicate (Z.to_nat (padding_words b)) 0), s')
    ∧ memory s' = memory s.
Proof.
  intros Hs Hv Hc Hsoc Ha0 Hks Hrun Hd Hb Hpl Hw Hlen Hwords.
  destruct (calls_spec shuffle visit alg c a0 ks rs a Hs Hv Hc Ha0 Hks Hrun) as (M & Hwf & Hh & Ha).
  destruct (placed_stored dram_core worker c Hc Hsoc a Ha d Hd _ M Hwf Hh (Mem := Mem) b e Hb Hpl) as (V & sz & places & [Hself [Hwr Hrd] Hclear _ _ Hpage Hsize]).
  destruct (Hwr b m host Hself Hw) as (b' & Hb' & Hwrite); [lia|].
  destruct (Hrd b' (write_all (zip places (chunks e (length places) host)) m) Hb') as (b'' & _ & Hread).
  eexists _, (mk_io b'' _). split; [exact Hwrite|]. rewrite Hread. split; [|reflexivity]. do 3 f_equal.
  rewrite (read_back e places (chunks e (length places) host)).
  - apply concat_chunks. lia.
  - rewrite <- Hpage. apply Hclear.
  - apply length_chunks.
  - apply Forall_forall. intros ws Hin. split; [by apply (length_chunk e (length places) host); [lia|]|].
    apply Forall_forall. intros w Hw'. rewrite Forall_forall in Hwords. apply Hwords.
    rewrite <- (concat_chunks e (length places) host) by lia. apply list_elem_of_In, in_concat. exists ws.
    split; by apply list_elem_of_In.
Qed.

Lemma write_read_buffer_witness :
  ∃ s s', WriteToBuffer demo_dram_core demo_worker_core demo_device (seqZ 1 96) (mk_io demo_sharded (λ _ _, 0)) = (Ok tt, s)
    ∧ ReadFromBuffer demo_dram_core demo_worker_core demo_device false s = (Ok (seqZ 1 96 ++ replicate 32 0), s')
    ∧ memory s' = memory s.
Proof.
  apply (write_read_buffer (Mem := bytes) demo_dram_core demo_worker_core (@reverse Z) elements demo_garbage demo_config
    demo_state buffer_calls (buffer_run).1 (buffer_run).2 demo_device demo_sharded 16 (λ _ _, 0) (seqZ 1 96)).
  - apply perm_reverse.
  - done.
  - apply demo_config_ok.
  - apply demo_soc_ok.
  - apply demo_state_eq.
  - apply demo_buffer_calls_valid.
  - apply surjective_pairing.
  - done.
  - apply demo_sharded_formed.
  - apply demo_sharded_placed.
  - done.
  - done.
  - apply Forall_forall. intros w Hw%elem_of_seqZ. unfold in_range. lia.
Defined.

(** C30: writing a buffer leaves every other live buffer alone.  On a device whose
    allocator has run any list of valid calls, take two well-formed buffers that hold the
    blocks they asked for, of one kind of memory or of two, interleaved or
    sharded, at different addresses or of different kinds.  Writing the first
    succeeds, and reading the second returns what it returned before. *)
Theorem write_preserves_other_buffers {Mem} `{DeviceMemoryLaws Mem} dram_core worker shuffle visit alg c a0 ks rs a d b1 b2 e1 e2 (m : Mem) host :
  (∀ l, shuffle l ≡ₚ l) → (∀ l, visit l ≡ₚ elements l) → alloc_config_ok c → soc_ok dram_core worker c →
  L1BankingAllocator shuffle alg c = Ok a0 → Forall (valid_call c) ks → run_calls visit ks a0 = (rs, a) →
  device_allocator d = Some a → well_formed c b1 e1 → well_formed c b2 e2 →
  placed c (record_calls c ks rs ∅) b1 → placed c (record_calls c ks rs ∅) b2 →
  (buffer_type_ b1, address_ b1) ≠ (buffer_type_ b2, address_ b2) →
  writable (buffer_type_ b1) = true → 4 * Z.of_nat (length host) = size_ b1 →
  ∃ s1 v, WriteToBuffer dram_core worker d host (mk_io b1 m) = (Ok tt, s1)
    ∧ (ReadFromBuffer dram_core worker d false (mk_io b2 m)).1 = Ok v
    ∧ (ReadFromBuffer dram_core worker d false (mk_io b2 (memory s1))).1 = Ok v.
Proof.
  intros Hs Hv Hc Hsoc Ha0 Hks Hrun Hd Hb1 Hb2 Hpl1 Hpl2 Hne Hw Hlen.
  destruct (calls_spec shuffle visit alg c a0 ks rs a Hs Hv Hc Ha0 Hks Hrun) as (M & Hwf & Hh & Ha).
  destruct (placed_stored dram_core worker c Hc Hsoc a Ha d Hd _ M Hwf Hh (Mem := Mem) b1 e1 Hb1 Hpl1) as (V1 & sz1 & ps1 & S1).
  destruct (placed_stored dram_core worker c Hc Hsoc a Ha d Hd _ M Hwf Hh (Mem := Mem) b2 e2 Hb2 Hpl2) as (V2 & sz2 & ps2 & S2).
  pose proof (stored_apart dram_core worker c Hc Hsoc a Ha d _ M Hwf Hh b1 e1 V1 sz1 ps1 b2 e2 V2 sz2 ps2 S1 S2 Hne) as Hap.
  destruct S1 as [Hself1 [Hwr _] _ _ _ Hpage1 Hsize1], S2 as [Hself2 [_ Hrd] _ _ _ Hpage2 _].
  destruct (Hwr b1 m host Hself1 Hw) as (b' & _ & Hwrite); [lia|].
  destruct (Hrd b2 m Hself2) as (b2' & _ & Hread). destruct (Hrd b2 (write_all (zip ps1 (chunks e1 (length ps1) host)) m) Hself2) as (b2'' & _ & Hread').
  eexists _, _. split; [exact Hwrite|]. cbn [memory]. rewrite Hread, Hread'. split; [done|]. cbn. do 3 f_equal.
  apply (read_elsewhere e1 e2).
  - intros p q Hp Hq. rewrite <- Hpage1, <- Hpage2. by apply Hap.
  - apply Forall_forall. intros ws Hin. by apply (length_chunk e1 (length ps1) host); [lia|].
Qed.

Lemma write_preserves_other_buffers_witness :
  ∃ s1 v, WriteToBuffer demo_dram_core demo_worker_core demo_device (seqZ 1 64) (mk_io demo_interleaved (λ _ _, 0)) = (Ok tt, s1)
    ∧ (ReadFromBuffer demo_dram_core demo_worker_core demo_device false (mk_io demo_sharded (λ _ _, 0))).1 = Ok v
    ∧ (ReadFromBuffer demo_dram_core demo_worker_core demo_device false (mk_io demo_sharded (memory s1))).1 = Ok v.
Proof.
  apply (write_preserves_other_buffers (Mem := bytes) demo_dram_core demo_worker_core (@reverse Z) elements demo_garbage demo_config
    demo_state buffer_calls (buffer_run).1 (buffer_run).2 demo_device demo_interleaved demo_sharded 16 16 (λ _ _, 0) (seqZ 1 64)).
  - apply perm_reverse.
  - done.
  - apply demo_config_ok.
  - apply demo_soc_ok.
  - apply demo_state_eq.
  - apply demo_buffer_calls_valid.
  - apply surjective_pairing.
  - done.
  - apply demo_interleaved_formed.
  - apply demo_sharded_formed.
  - apply demo_interleaved_placed.
  - apply demo_sharded_placed.
  - done.
  - done.
  - done.
Defined.

(** ** Short vectors and short shards *)
(** A host vector shorter than the buffer passes the check; the loop over the pages
    of the buffer runs past its end. *)
Example short_vector :
  (WriteToBuffer demo_dram_core demo_worker_core demo_device (seqZ 1 32) (mk_io demo_interleaved (λ _ _, 0))).1 = Err UB.
Proof. vm_compute. reflexivity. Qed.

(** Three pages in one shard of 2 by 2 pages, height sharded: the shape of the
    last shard is rounded down to one row, and the third page has no place; it
    keeps device page 0, which is that of the first page. *)
Definition ragged : Buffer :=
  mk_buffer (Some 1) 192 1015552 64 L1 HEIGHT_SHARDED
    (Some (mk_shard_spec_buffer (mk_shard_spec [mk_range (mk_coord 0 0) (mk_coord 0 0)] (64, 64) ROW_MAJOR false) (32, 32) (1, 3)))
    None true None.

Example ragged_mapping :
  match generate_buffer_page_mapping ragged with
  | Ok m => (host_page_to_dev_page_mapping_ m, dev_page_to_host_page_mapping_ m)
  | Err _ => ([], [])
  end = ([0; 1; 0], [Some 0; Some 1; None; None]).
Proof. vm_compute. reflexivity. Qed.
