(* ===== verification/BufferOwnership.v ===== *)
(** * Buffers own their blocks

    A buffer object that [deallocate] would free has a live block of its
    allocator, and no two objects have the same block.  Every operation on
    objects keeps this, but for a copy assignment that fails. *)
From S2P Require Import Prelude FreeList Arith CoreCoord AllocatorAlgorithm FreeListAlgorithm BankManager BankManagerProps Allocator DeviceAllocator AllocatorOps AllocatorL1 AllocatorInit AllocatorTables AllocatorProps Buffer BufferStore.

(** ** The allocator's calls, once more *)
Definition live_at (M : machine) (t : BufferType) (ad : Z) : Prop :=
  t ≠ SYSTEM_MEMORY ∧ ∃ sz, ab_live (M t) !! ad = Some sz.

Lemma allocate_live c a M size page_size t bu shards :
  alloc_config_ok c → dram_bank_size c <= 2 ^ 32 → sim c a M → valid_call c (AllocateBuffer size page_size t bu shards) →
  ∃ r a' M', AllocatorOps.allocate_buffer size page_size t bu shards a = (r, a') ∧ sim c a' M'
    ∧ (∀ t' ad, live_at M t' ad → live_at M' t' ad)
    ∧ (∀ ad, r = Ok ad → live_at M' t ad ∧ ¬ live_at M t ad ∧ 0 <= ad < 2 ^ 32).
Proof.
  intros Hc Hsize Hs Hv. destruct (run_alloc c a M size page_size t bu shards Hs Hv) as (o & a' & M' & Hrun & Hstep & Hs').
  exists o, a', M'. split; [done|]. split; [done|]. pose proof (sim_wf _ _ _ Hs) as Hwf. pose proof (sim_wf _ _ _ Hs') as Hwf'.
  inversion Hstep as [sz1 ps1 bu1 M1 E1 E2|sz1 ps1 bu1 M1 E1 E2|sz1 ps1 t1 bu1 sh1 e M1 Ht Hsm Hreq E1 E2|
    sz1 ps1 t1 bu1 sh1 n limit o1 s M1 Ht Hsm Hreq Hal E1 E2 E3 E4| | | | |]; subst;
    try (by (split; [done|]; intros ad ->; done)).
  destruct (block_size_spec (region_of c t) n (regions_ok c t Hc)) as (Hsz & _); [by eapply request_nonneg|].
  assert (Hkeep : ∀ t' ad, live_at M t' ad → live_at (upd M t s) t' ad).
  { intros t' ad [Ht' (sz & Hl)]. split; [done|]. unfold upd. destruct (decide (t' = t)) as [->|]; [|by exists sz].
    specialize (Hwf t Ht).
    inversion Hal as [m L b [_ Hroom] _ _ Hlim Hm|m L Hno Hm|m L b [_ Hroom] _ _ Hlim Hm]; subst; rewrite <- Hm in *; cbn in *.
    - destruct (decide (ad = b)) as [->|]; [rewrite lookup_insert_eq; eauto|rewrite lookup_insert_ne by done; eauto].
    - eauto.
    - destruct (decide (ad = b)) as [->|]; [rewrite lookup_insert_eq; eauto|rewrite lookup_insert_ne by done; eauto]. }
  split; [exact Hkeep|]. intros ad ->. inversion Hal as [m L b [Hw Hroom] _ _ Hlim Hm|m L Hno Hm|m L b [_ Hroom] _ _ Hlim Hm];
    subst; cbn in *; simplify_eq. split; [|split].
  - split; [done|]. rewrite upd_same. cbn. rewrite lookup_insert_eq. eauto.
  - intros [_ (sz & Hl)]. rewrite <- Hm in Hl. cbn in Hl. specialize (Hwf t Ht). rewrite <- Hm in Hwf. by eapply room_not_live.
  - destruct (region_memory c t Hc Ht) as [_ Hend]. destruct Hw as [? ?]. pose proof (ro_base _ (regions_ok c t Hc)).
    pose proof (lc_size _ (ac_l1 _ Hc)). assert ((memory_of c t).2 <= 2 ^ 32) by (unfold memory_of; destruct (in_dram t); cbn; lia). lia.
Qed.

Lemma deallocate_live c a M t ad :
  sim c a M → t ≠ SYSTEM_MEMORY → 0 <= ad < 2 ^ 32 →
  ∃ a', AllocatorOps.deallocate_buffer ad t a = (Ok tt, a') ∧ sim c a' (upd M t (bank_free ad (M t))).
Proof.
  intros Hs Ht Had. destruct (manager_exists a t Ht) as [b Hb].
  destruct (run_deallocate_buffer _ _ _ _ ad (sim_banks _ _ _ Hs t b Hb)) as (b' & Hrun & Hrep); [unfold in_range; lia|].
  exact (sim_on_manager _ _ _ _ _ _ _ _ _ Hs Hb Hrun Hrep).
Qed.

Lemma free_other M t ad t' ad' :
  (t', ad') ≠ (t, ad) → live_at M t' ad' → live_at (upd M t (bank_free ad (M t))) t' ad'.
Proof.
  intros Hne [Ht' (sz & Hl)]. split; [done|]. unfold upd. destruct (decide (t' = t)) as [->|]; [|eauto].
  exists sz. cbn. rewrite lookup_delete_ne; [done|]. congruence.
Qed.

(** ** Owners *)
(** [b] has a block on device [p] that [deallocate] frees. *)
Definition owner (b : Buffer) (p : Z) : Prop := device_ b = Some p ∧ allocate_ b = true ∧ size_ b ≠ 0.

Section owned.
Context (cfg : Z → AllocatorConfig).
Context (Hcfg : ∀ p, alloc_config_ok (cfg p) ∧ dram_bank_size (cfg p) <= 2 ^ 32).

(** Every device has its allocator; every owner has a live block; different
    owners of a device have different ones.  [M p] is the machine of device [p]. *)
Record owned (M : Z → machine) (st : store) : Prop := mk_owned {
  ow_device : ∀ p d, devices st !! p = Some d → ∃ a, device_allocator d = Some a ∧ sim (cfg p) a (M p);
  ow_live : ∀ i b p, objects st !! i = Some b → owner b p →
    is_Some (devices st !! p) ∧ live_at (M p) (buffer_type_ b) (address_ b) ∧ 0 <= address_ b < 2 ^ 32;
  ow_distinct : ∀ i j b b' p, objects st !! i = Some b → objects st !! j = Some b' → owner b p → owner b' p →
    (buffer_type_ b, address_ b) = (buffer_type_ b', address_ b') → i = j
}.

(** The store without the object at [p]. *)
Abbreviation without p st := (set_objects (delete p (objects st)) st).

Lemma without_Some st i j b : objects (without i st) !! j = Some b ↔ i ≠ j ∧ objects st !! j = Some b.
Proof. apply lookup_delete_Some. Qed.
Lemma put_Some st i b j b' :
  objects (set_objects (<[i := b]> (objects st)) st) !! j = Some b' ↔ i = j ∧ b = b' ∨ i ≠ j ∧ objects st !! j = Some b'.
Proof. apply lookup_insert_Some. Qed.

Definition upd_device (M : Z → machine) (p : Z) (m : machine) : Z → machine := λ q, if decide (q = p) then m else M q.
Lemma upd_device_same M p m : upd_device M p m p = m.
Proof. unfold upd_device. by rewrite decide_True. Qed.

(** Fewer owners: any change of objects that makes no new one. *)
Lemma owned_fewer M st st' :
  owned M st → devices st' = devices st →
  (∀ i b p, objects st' !! i = Some b → owner b p → ∃ b', objects st !! i = Some b' ∧ owner b' p
     ∧ buffer_type_ b' = buffer_type_ b ∧ address_ b' = address_ b) → owned M st'.
Proof.
  intros [Hd Hl Hdis] E Hsub. split.
  - intros p d. rewrite E. apply Hd.
  - intros i b p Hi Ho. destruct (Hsub i b p Hi Ho) as (b' & Hi' & Ho' & Et & Ea). rewrite E, <- Et, <- Ea. by eapply Hl.
  - intros i j b b' p Hi Hj Ho Ho' Heq. destruct (Hsub i b p Hi Ho) as (c1 & Hi' & Ho1 & Et1 & Ea1).
    destruct (Hsub j b' p Hj Ho') as (c2 & Hj' & Ho2 & Et2 & Ea2).
    apply (Hdis i j c1 c2 p Hi' Hj' Ho1 Ho2). congruence.
Qed.

Lemma owned_without M st p : owned M st → owned M (without p st).
Proof. intros H. eapply owned_fewer; [done|done|]. intros i b q [? Hi]%without_Some Ho. by exists b. Qed.

(** Objects that own nothing. *)
Lemma owned_put M st i b : owned M (without i st) → (∀ p, ¬ owner b p) → owned M (set_objects (<[i := b]> (objects st)) st).
Proof.
  intros H Hno. eapply owned_fewer; [exact H|done|]. intros j b' q Hj Ho. cbn in *.
  apply lookup_insert_Some in Hj as [[<- <-]|[Hne Hj]]; [by destruct (Hno q)|]. exists b'. by rewrite lookup_delete_ne.
Qed.

Lemma with_device_run {B} M st p d (f : ST Allocator B) r a a' m :
  owned M st → devices st !! p = Some d → device_allocator d = Some a → f a = (r, a') → sim (cfg p) a' m →
  (∀ i b, objects st !! i = Some b → owner b p → live_at m (buffer_type_ b) (address_ b)) →
  ∃ st', with_device_allocator (Some p) f st = (r, st') ∧ owned (upd_device M p m) st'
    ∧ objects st' = objects st ∧ BUFFER_MAP st' = BUFFER_MAP st
    ∧ devices st' = <[p := mk_device (device_id d) (initialized_ d) (Some a')]> (devices st).
Proof.
  intros [Hd Hl Hdis] Hp Ha Hf Hs Hm. unfold with_device_allocator. cbn. rewrite Hp. cbn. rewrite Ha. cbn. rewrite Hf.
  eexists. split; [done|]. split; [|done]. unfold upd_device. split; cbn.
  - intros q dq [[<- <-]|[Hne Hq]]%lookup_insert_Some; [by rewrite decide_True; eauto|rewrite decide_False by done; by apply Hd].
  - intros i b q Hi Ho. destruct (Hl i b q Hi Ho) as (Hex & Hlive & Hr). split; [|split; [|done]].
    + destruct (decide (p = q)) as [->|]; [rewrite lookup_insert_eq; eauto|by rewrite lookup_insert_ne].
    + case_decide as Hq; [subst q; by apply (Hm i)|done].
  - exact Hdis.
Qed.

(** What a buffer asks for does not overflow. *)
Definition request_valid (b : Buffer) : Prop :=
  ∀ p size shards, device_ b = Some p → allocation_request b = Ok (size, shards) →
    valid_call (cfg p) (AllocateBuffer size (page_size_ b) (buffer_type_ b) true shards).

Lemma valid_bottom_up c size page_size t bu bu' shards :
  valid_call c (AllocateBuffer size page_size t bu shards) → valid_call c (AllocateBuffer size page_size t bu' shards).
Proof. done. Qed.

(** ** Allocating *)
Lemma put_run {B} p b (k : unit → ST store B) st :
  (put_object p b ≫= k) st = k tt (set_objects (<[p := b]> (objects st)) st).
Proof. done. Qed.
Lemma get_object_run {B} p b (k : Buffer → ST store B) st :
  objects st !! p = Some b → (get_object p ≫= k) st = k b st.
Proof. intros H. unfold get_object, mbind, ST_bind, get_st, lift_st. by rewrite H. Qed.
Lemma get_device_run {B} p d (k : Device → ST store B) st :
  devices st !! p = Some d → (get_device (Some p) ≫= k) st = k d st.
Proof. intros H. unfold get_device, mbind, ST_bind, get_st, lift_st. cbn. by rewrite H. Qed.

(** Giving the object at [i] a fresh block. *)
Lemma owned_given M st i b p ad :
  owned M (without i st) → device_ b = Some p → is_Some (devices st !! p) →
  live_at (M p) (buffer_type_ b) ad → 0 <= ad < 2 ^ 32 →
  (∀ j b', j ≠ i → objects st !! j = Some b' → owner b' p → (buffer_type_ b', address_ b') ≠ (buffer_type_ b, ad)) →
  owned M (set_objects (<[i := set_address ad b]> (objects st)) st).
Proof.
  intros [Hd Hl Hdis] Hb Hp Hlive Hr Hfresh. split; [exact Hd| |].
  - intros j b' q [[<- <-]|[Hne Hj]]%put_Some Ho.
    + destruct Ho as (Hq & _). cbn in Hq. rewrite Hb in Hq. injection Hq as <-. done.
    + apply (Hl j b' q); [|done]. by rewrite without_Some.
  - intros j k b1 b2 q [[<- <-]|[Hj Hj']]%put_Some [[<- <-]|[Hk Hk']]%put_Some Ho1 Ho2 Heq; [done|exfalso..|].
    + destruct Ho1 as (Hq & _). cbn in Hq. rewrite Hb in Hq. injection Hq as <-. by apply (Hfresh k b2).
    + destruct Ho2 as (Hq & _). cbn in Hq. rewrite Hb in Hq. injection Hq as <-. by apply (Hfresh j b1).
    + apply (Hdis j k b1 b2 q); [by rewrite without_Some..|done|done|done].
Qed.

Lemma run_enqueue_allocate M st i b bu p :
  owned M (without i st) → objects st !! i = Some b → device_ b = Some p → is_Some (devices st !! p) → request_valid b →
  ∃ r st' M', EnqueueAllocateBufferImpl i bu st = (r, st') ∧ owned M' (without i st') ∧ (r = Ok tt → owned M' st')
    ∧ (∀ q, is_Some (devices st !! q) → is_Some (devices st' !! q))
    ∧ (r = Ok tt → ∃ ad, objects st' !! i = Some (set_address ad b)) ∧ BUFFER_MAP st' = BUFFER_MAP st.
Proof.
  intros Ho Hi Hb [d Hp] Hv. unfold EnqueueAllocateBufferImpl. rewrite (get_object_run _ b) by done.
  destruct (allocation_request b) as [[size shards]|e] eqn:Hreq.
  2: { exists (Err e), st, M. split_and!; try done. }
  rewrite (run_lift _ (size, shards)) by done. cbn [fst snd].
  destruct (ow_device _ _ Ho p d Hp) as (a & Ha & Hs). destruct (Hcfg p) as [Hc Hsize].
  destruct (allocate_live (cfg p) a (M p) size (page_size_ b) (buffer_type_ b) bu shards Hc Hsize Hs) as (r & a' & m & Hrun & Hs' & Hkeep & Hnew).
  { eapply valid_bottom_up. by apply Hv. }
  assert (Hoth : ∀ j b', objects (without i st) !! j = Some b' → owner b' p → live_at m (buffer_type_ b') (address_ b')).
  { intros j b' Hj Ho'. apply Hkeep. by eapply ow_live. }
  destruct (with_device_run M (without i st) p d _ r a a' m Ho Hp Ha Hrun Hs' Hoth) as (st1 & Hrun1 & Ho1 & Eo & Em & Ed).
  set (st2 := set_objects (objects st) st1).
  assert (Hrun2 : with_device_allocator (Some p)
    (AllocatorOps.allocate_buffer size (page_size_ b) (buffer_type_ b) bu shards) st = (r, st2)).
  { unfold with_device_allocator in Hrun1 |- *. cbn in *. rewrite Hp in *. cbn in *. rewrite Ha in *. cbn in *. rewrite Hrun in *.
    injection Hrun1 as <-. done. }
  assert (Ho2 : owned (upd_device M p m) (without i st2)).
  { eapply owned_fewer; [exact Ho1|done|]. intros j b' q Hj Hq. exists b'. cbn in *. by rewrite Eo. }
  assert (Hdev : ∀ q, is_Some (devices st !! q) → is_Some (devices st2 !! q)).
  { intros q Hq. cbn. rewrite Ed. destruct (decide (p = q)) as [->|]; [rewrite lookup_insert_eq; eauto|by rewrite lookup_insert_ne]. }
  rewrite Hb. destruct r as [ad|e].
  2: { exists (Err e), st2, (upd_device M p m). split_and!; try done. unfold mbind, ST_bind. by rewrite Hrun2. }
  rewrite (ST_bind_ok _ _ _ _ _ Hrun2). destruct (Hnew ad eq_refl) as (Hlive & Hnot & Hr). rewrite u32_small by lia.
  rewrite run_check by (apply Z.leb_le; lia). unfold put_object, modify_st.
  assert (Hown : owned (upd_device M p m) (set_objects (<[i := set_address ad b]> (objects st2)) st2)).
  { apply (owned_given _ _ _ _ p); [done|done|apply Hdev; eauto|by rewrite upd_device_same|done|].
    intros j b' Hne Hj Hoj [= Et Ea]. apply Hnot. rewrite <- Et, <- Ea. eapply (ow_live M (without i st) Ho j); [|done].
    by rewrite without_Some. }
  eexists (Ok tt), _, (upd_device M p m). split; [done|]. split_and!; try done.
  - by apply owned_without.
  - intros _. exists ad. cbn. by rewrite lookup_insert_eq.
Qed.

Lemma run_buffer_allocate M st i b p :
  owned M (without i st) → objects st !! i = Some b → device_ b = Some p → is_Some (devices st !! p) → request_valid b →
  ∃ r st' M', buffer_allocate i st = (r, st') ∧ owned M' (without i st') ∧ (r = Ok tt → owned M' st')
    ∧ (∀ q, is_Some (devices st !! q) → is_Some (devices st' !! q)).
Proof.
  intros Ho Hi Hb Hp Hv. unfold buffer_allocate. rewrite (get_object_run _ b) by done. rewrite Hb.
  rewrite run_check by (apply bool_decide_eq_true; eauto). cbv zeta.
  destruct (run_enqueue_allocate M st i b (default (is_dram b) (bottom_up_ b)) p Ho Hi Hb Hp Hv)
    as (r & st' & M' & Hrun & Ho' & Hok & Hdev & Hobj & Em). destruct r as [[]|e].
  - rewrite (ST_bind_ok _ _ _ _ _ Hrun). destruct (Hobj eq_refl) as (ad & Hi'). rewrite (get_object_run _ _ _ _ Hi').
    cbn [device_ set_address]. rewrite Hb. destruct (Hdev p Hp) as [d Hd]. rewrite (get_device_run _ d) by done.
    eexists _, _, M'. split; [done|]. split_and!.
    + eapply owned_fewer; [exact Ho'|done|]. intros j b' q Hj Hq. by exists b'.
    + intros _. eapply owned_fewer; [by apply Hok|done|]. intros j b' q Hj Hq. by exists b'.
    + exact Hdev.
  - exists (Err e), st', M'. split_and!; try done. unfold mbind, ST_bind. by rewrite Hrun.
Qed.

(** ** Deallocating *)
Lemma run_buffer_deallocate M st i b :
  owned M st → objects st !! i = Some b →
  ∃ r st' M', buffer_deallocate i st = (r, st') ∧ owned M' st'
    ∧ (∀ q, is_Some (devices st !! q) → is_Some (devices st' !! q))
    ∧ (∀ p d, device_ b = Some p → devices st !! p = Some d → initialized_ d = true → owner b p →
         r = Ok tt ∧ objects st' !! i = Some (clear_size b)
         ∧ M' = upd_device M p (upd (M p) (buffer_type_ b) (bank_free (address_ b) (M p (buffer_type_ b))))).
Proof.
  intros Ho Hi. unfold buffer_deallocate. rewrite (get_object_run _ b) by done. destruct (device_ b) as [p|] eqn:Hb.
  2: { eexists _, st, M. split_and!; try done. }
  destruct (devices st !! p) as [d|] eqn:Hp.
  2: { exists (Err UB), st, M. split_and!; [|done|done|intros ? ? [= <-]; congruence]. unfold get_device, mbind, ST_bind, get_st, lift_st.
       cbn. by rewrite Hp. }
  rewrite (get_device_run _ d) by done. destruct (negb (initialized_ d) || (size_ b =? 0) || negb (allocate_ b)) eqn:Hskip.
  { eexists _, st, M. split_and!; try done. intros ? d' [= <-] Hd' Hin (_ & Hal & Hsz). exfalso. rewrite Hp in Hd'. injection Hd' as <-.
    rewrite Hin, Hal in Hskip. destruct (Z.eqb_spec (size_ b) 0); done. }
  apply orb_false_iff in Hskip as [[Hin%negb_false_iff Hsz%Z.eqb_neq]%orb_false_iff Hal%negb_false_iff].
  assert (Hown : owner b p) by done. destruct (ow_live _ _ Ho i b p Hi Hown) as (_ & [Ht Hlive] & Hr).
  destruct (ow_device _ _ Ho p d Hp) as (a & Ha & Hs). rewrite put_run, Ha.
  rewrite run_check by done. rewrite run_modify_st.
  set (st1 := set_buffer_map _ _). unfold EnqueueDeallocateBufferImpl, buffer_address. rewrite u32_small by lia.
  destruct (deallocate_live (cfg p) a (M p) (buffer_type_ b) (address_ b) Hs Ht Hr) as (a' & Hrun & Hs').
  assert (Ho1 : owned M st1).
  { eapply owned_fewer; [exact Ho|done|]. intros j b' q [[<- <-]|[Hne Hj]]%put_Some Hq; [by destruct Hq as (_ & _ & ?)|by exists b']. }
  destruct (with_device_run M st1 p d _ (Ok tt) a a' _ Ho1 Hp Ha Hrun Hs') as (st2 & Hrun2 & Ho2 & Eo & Em & Ed).
  { intros j b' Hj Hoj. apply put_Some in Hj as [[_ <-]|[Hne Hj]]; [by destruct Hoj as (_ & _ & ?)|].
    apply free_other; [|by eapply (ow_live _ _ Ho)]. intros Heq. apply Hne. symmetry. by eapply (ow_distinct _ _ Ho). }
  eexists (Ok tt), st2, _. split; [exact Hrun2|]. split; [exact Ho2|]. split.
  { intros q Hq. rewrite Ed. destruct (decide (p = q)) as [->|]; [rewrite lookup_insert_eq; eauto|by rewrite lookup_insert_ne]. }
  intros ? ? [= <-] _ _ _. split_and!; [done| |done].
  rewrite Eo. cbn. by rewrite lookup_insert_eq.
Qed.

(** Allocating for any object: without a device it throws. *)
Lemma run_allocate_any M st i b :
  owned M (without i st) → objects st !! i = Some b → request_valid b →
  ∃ r st' M', buffer_allocate i st = (r, st') ∧ owned M' (without i st') ∧ (r = Ok tt → owned M' st').
Proof.
  intros Ho Hi Hv. destruct (device_ b) as [p|] eqn:Hb.
  - destruct (devices st !! p) as [d|] eqn:Hp.
    + destruct (run_buffer_allocate M st i b p Ho Hi Hb) as (r & st' & M' & ? & ? & ? & _); [eauto|done|]. by exists r, st', M'.
    + unfold buffer_allocate, EnqueueAllocateBufferImpl. rewrite (get_object_run _ b) by done. rewrite Hb. rewrite run_check by done.
      cbv zeta. unfold mbind at 1, ST_bind at 1. rewrite (get_object_run _ b) by done.
      destruct (allocation_request b) as [rq|e] eqn:Hreq; [|by exists (Err e), st, M].
      rewrite (run_lift _ rq) by done. exists (Err UB), st, M. split; [|done]. unfold mbind, ST_bind, with_device_allocator. rewrite Hb. cbn. by rewrite Hp.
  - unfold buffer_allocate. rewrite (get_object_run _ b) by done. rewrite Hb. by exists (Err TT_ASSERT), st, M.
Qed.

(** ** Operations on objects *)
Lemma run_construct M st i b body :
  owned M st → (∀ st, owned M (without i st) → objects st !! i = Some b →
    ∃ r st' M', body st = (r, st') ∧ owned M' (without i st') ∧ (r = Ok tt → owned M' st')) →
  ∃ r st' M', construct i b body st = (r, st') ∧ owned M' st'.
Proof.
  intros Ho Hbody. unfold construct. destruct (objects st !! i) as [b'|] eqn:Hi; [by exists (Err UB), st, M|].
  rewrite put_run. set (st1 := set_objects _ _). destruct (Hbody st1) as (r & st' & M' & Hrun & Hw & Hok).
  - eapply owned_fewer; [exact Ho|done|]. intros j b' q [Hne Hj]%without_Some Hq. apply put_Some in Hj as [[? _]|[_ Hj]]; [done|by exists b'].
  - unfold st1. cbn. by rewrite lookup_insert_eq.
  - rewrite Hrun. destruct r as [[]|e]; [exists (Ok tt), st', M'; auto|by exists (Err e), (without i st'), M'].
Qed.

Section moves.
Context (moved_from : ShardSpecBuffer → ShardSpecBuffer).

Inductive op :=
| Default (p : Z) (u : uninitialized)
| New (p : Z) (u : uninitialized) (device : option Z) (size page_size : Z) (buffer_type : BufferType)
    (buffer_layout : TensorMemoryLayout) (shard_parameters : option ShardSpecBuffer) (bottom_up : option bool) (allocate : bool)
| Copy (p : Z) (u : uninitialized) (other : Z)
| CopyAssign (p other : Z)
| Move (p other : Z)
| MoveAssign (p other : Z)
| Deallocate (p : Z)
| Destroy (p : Z).

Definition run_op (o : op) : ST store unit :=
  match o with
  | Default p u => Buffer_default p u
  | New p u device size page_size buffer_type buffer_layout shard_parameters bottom_up allocate =>
    Buffer_new p u device size page_size buffer_type buffer_layout shard_parameters bottom_up allocate
  | Copy p u other => Buffer_copy p u other
  | CopyAssign p other => Buffer_copy_assign p other
  | Move p other => Buffer_move moved_from p other
  | MoveAssign p other => Buffer_move_assign moved_from p other
  | Deallocate p => buffer_deallocate p
  | Destroy p => Buffer_destroy p
  end.

(** The requests of an operation do not overflow. *)
Definition valid_op (st : store) (o : op) : Prop :=
  match o with
  | New p u device size page_size buffer_type buffer_layout shard_parameters bottom_up _ =>
    request_valid (mk_buffer device size (u_address u) page_size buffer_type buffer_layout shard_parameters None true bottom_up)
  | Copy _ _ other | CopyAssign _ other => ∀ b, objects st !! other = Some b → request_valid b
  | _ => True
  end.

(** A copy assignment that throws leaves its object with the members of the other
    and the address it had. *)
Definition completed (o : op) (r : outcome unit) : Prop := match o with CopyAssign _ _ => r = Ok tt | _ => True end.

Lemma owned_moved M st i j b :
  owned M st → objects st !! j = Some b → i ≠ j →
  owned M (set_objects (<[j := released moved_from b]> (<[i := b]> (objects st))) st).
Proof.
  intros Ho Hj Hne. split; [apply (ow_device _ _ Ho)| |].
  - intros k b' q Hk Hq. cbn in Hk. apply lookup_insert_Some in Hk as [[_ <-]|[Hk1 Hk]]; [by destruct Hq|].
    apply lookup_insert_Some in Hk as [[_ <-]|[Hk2 Hk]]; by eapply (ow_live _ _ Ho).
  - assert (Hsrc : ∀ k b' q, <[j := released moved_from b]> (<[i := b]> (objects st)) !! k = Some b' → owner b' q →
      k ≠ j ∧ (k = i ∧ b' = b ∨ k ≠ i ∧ objects st !! k = Some b')).
    { intros k b' q Hk Hq. apply lookup_insert_Some in Hk as [[_ <-]|[Hk1 Hk]]; [by destruct Hq|]. split; [done|].
      apply lookup_insert_Some in Hk as [[<- <-]|[Hk2 Hk]]; auto. }
    intros k l b1 b2 q Hk Hl Hq1 Hq2 Heq. cbn in Hk, Hl.
    destruct (Hsrc k b1 q Hk Hq1) as [Hkj [[-> ->]|[Hki Hk']]], (Hsrc l b2 q Hl Hq2) as [Hlj [[-> ->]|[Hli Hl']]]; [done| | |].
    + destruct Hlj. by eapply (ow_distinct _ _ Ho l j b2 b q).
    + destruct Hkj. by eapply (ow_distinct _ _ Ho k j b1 b q).
    + by eapply (ow_distinct _ _ Ho k l b1 b2 q).
Qed.

Lemma get_object_none {B} p (k : Buffer → ST store B) st : objects st !! p = None → (get_object p ≫= k) st = (Err UB, st).
Proof. intros H. unfold get_object, mbind, ST_bind, get_st, lift_st. by rewrite H. Qed.

(** What an operation does to the invariant. *)
Abbreviation keeps f st := (∃ r st' M', f st = (r, st') ∧ owned M' st').

Lemma owned_idle M st i b :
  owned M (without i st) → objects st !! i = Some b → (∀ q, ¬ owner b q) → owned M st.
Proof.
  intros Hw Hs Hno. eapply owned_fewer; [exact Hw|done|]. intros j b' q Hj Hq. exists b'. rewrite without_Some.
  split; [|done]. split; [|done]. intros <-. rewrite Hs in Hj. injection Hj as <-. by destruct (Hno q).
Qed.

Lemma keeps_default M st p u : owned M st → keeps (Buffer_default p u) st.
Proof.
  intros Ho. eapply run_construct; [exact Ho|]. intros s Hw Hs. eexists _, s, M. split; [done|]. split; [done|].
  intros _. eapply owned_idle; [done|done|]. by intros q [? _].
Qed.

(** The end of a constructor: a block if the buffer is to have one. *)
Lemma construct_end M s i b (body : ST store unit) :
  request_valid b → owned M (without i s) → objects s !! i = Some b →
  body = (if allocate_ b then buffer_allocate i else mret tt) →
  ∃ r st' M', body s = (r, st') ∧ owned M' (without i st') ∧ (r = Ok tt → owned M' st').
Proof.
  intros Hv Hw Hs ->. destruct (allocate_ b) eqn:Hal; [by apply (run_allocate_any M s i b)|].
  eexists _, s, M. split; [done|]. split; [done|]. intros _. eapply owned_idle; [done|done|].
  intros q (_ & Hq & _). by rewrite Hq in Hal.
Qed.

Lemma keeps_new M st p u dev size ps t layout sp bu al :
  owned M st → request_valid (mk_buffer dev size (u_address u) ps t layout sp None al bu) →
  keeps (Buffer_new p u dev size ps t layout sp bu al) st.
Proof.
  intros Ho Hv. eapply run_construct; [exact Ho|]. intros s Hw Hs.
  assert (Herr : ∀ e, ∃ r st' M', (Err e : outcome unit, s) = (r, st') ∧ owned M' (without p st') ∧ (r = Ok tt → owned M' st'))
    by (intros e; by exists (Err e), s, M).
  destruct dev as [dp|]; [|apply Herr]. rewrite run_check by done. unfold get_device.
  destruct (devices s !! dp) as [d|] eqn:Hd; [rewrite (get_device_run dp d) by done|unfold mbind, ST_bind; cbn; rewrite Hd; apply Herr].
  destruct (device_allocator d); [rewrite run_check by done|apply Herr].
  destruct (validate_buffer_size_and_page_size size ps t layout sp) as [[]|e]; [|apply Herr]. rewrite (run_lift _ tt) by done.
  by eapply construct_end; [exact Hv| | |].
Qed.

Lemma keeps_copy M st p u other :
  owned M st → (∀ b, objects st !! other = Some b → request_valid b) → keeps (Buffer_copy p u other) st.
Proof.
  intros Ho Hv. unfold Buffer_copy. destruct (objects st !! other) as [b|] eqn:Hb; [|rewrite get_object_none by done; by exists (Err UB), st, M].
  rewrite (get_object_run _ b) by done. eapply run_construct; [exact Ho|]. intros s Hw Hs.
  eapply construct_end; [|exact Hw|exact Hs|done]. exact (Hv b eq_refl).
Qed.

(** An assignment that throws may leave an object with the wrong address. *)
Lemma owned_copy_assign M st p other :
  owned M st → (∀ b, objects st !! other = Some b → request_valid b) →
  ∃ r st' M', Buffer_copy_assign p other st = (r, st') ∧ (r = Ok tt → owned M' st').
Proof.
  intros Ho Hv. unfold Buffer_copy_assign.
  destruct (objects st !! p) as [this|] eqn:Hp; [|rewrite get_object_none by done; by exists (Err UB), st, M].
  rewrite (get_object_run _ this) by done.
  destruct (objects st !! other) as [b|] eqn:Hb; [|rewrite get_object_none by done; by exists (Err UB), st, M].
  rewrite (get_object_run _ b) by done. destruct (p =? other); [by eexists _, st, M|]. rewrite put_run.
  destruct (construct_end M (set_objects (<[p := copied_members b (address_ this)]> (objects st)) st) p (copied_members b (address_ this))
    (if allocate_ b then buffer_allocate p else mret tt)) as (r & st' & M' & Hrun & _ & Hok);
    [exact (Hv b eq_refl)| |by cbn; rewrite lookup_insert_eq|done|by exists r, st', M'].
  eapply owned_fewer; [exact Ho|done|]. intros j b' q [Hne Hj]%without_Some Hq. apply put_Some in Hj as [[? _]|[_ Hj]]; [done|by exists b'].
Qed.

Lemma keeps_move M st p other : owned M st → keeps (Buffer_move moved_from p other) st.
Proof.
  intros Ho. unfold Buffer_move. destruct (objects st !! other) as [b|] eqn:Hb; [|rewrite get_object_none by done; by exists (Err UB), st, M].
  rewrite (get_object_run _ b) by done. unfold construct. destruct (objects st !! p) eqn:Hp; [by exists (Err UB), st, M|].
  rewrite put_run. eexists _, _, M. split; [done|]. apply (owned_moved M st p other b Ho Hb). intros ->. congruence.
Qed.

Lemma keeps_move_assign M st p other : owned M st → keeps (Buffer_move_assign moved_from p other) st.
Proof.
  intros Ho. unfold Buffer_move_assign.
  destruct (objects st !! p) as [this|] eqn:Hp; [|rewrite get_object_none by done; by exists (Err UB), st, M].
  rewrite (get_object_run _ this) by done.
  destruct (objects st !! other) as [b|] eqn:Hb; [|rewrite get_object_none by done; by exists (Err UB), st, M].
  rewrite (get_object_run _ b) by done. destruct (Z.eqb_spec p other); [by eexists _, st, M|]. rewrite put_run.
  eexists _, _, M. split; [done|]. by apply (owned_moved M st p other b Ho Hb).
Qed.

Lemma keeps_deallocate M st p : owned M st → keeps (buffer_deallocate p) st.
Proof.
  intros Ho. destruct (objects st !! p) as [b|] eqn:Hb.
  - destruct (run_buffer_deallocate M st p b Ho Hb) as (r & st' & M' & ? & ? & _). by exists r, st', M'.
  - unfold buffer_deallocate. rewrite get_object_none by done. by exists (Err UB), st, M.
Qed.

Lemma keeps_destroy M st p : owned M st → keeps (Buffer_destroy p) st.
Proof.
  intros Ho. destruct (keeps_deallocate M st p Ho) as (r & st' & M' & Hrun & Ho'). unfold Buffer_destroy.
  destruct r as [[]|e].
  - rewrite (ST_bind_ok _ _ _ _ _ Hrun). eexists _, _, M'. split; [done|]. by apply owned_without.
  - exists (Err e), st', M'. split; [|done]. unfold mbind, ST_bind. by rewrite Hrun.
Qed.

Lemma owned_op M st o r st' :
  owned M st → valid_op st o → run_op o st = (r, st') → completed o r → ∃ M', owned M' st'.
Proof.
  intros Ho Hv Hrun Hdone.
  assert (Hk : ∀ f, keeps f st → f st = (r, st') → ∃ M', owned M' st') by (intros f (r1 & st1 & M1 & -> & ?) [= -> ->]; eauto).
  destruct o as [p u|p u dev size ps t layout sp bu al|p u other|p other|p other|p other|p|p]; cbn in *.
  - by eapply (Hk _ (keeps_default M st p u Ho)).
  - by eapply (Hk _ (keeps_new M st p u dev size ps t layout sp bu al Ho Hv)).
  - by eapply (Hk _ (keeps_copy M st p u other Ho Hv)).
  - destruct (owned_copy_assign M st p other Ho Hv) as (r1 & st1 & M1 & Hr & Ho'). rewrite Hr in Hrun. simplify_eq. eauto.
  - by eapply (Hk _ (keeps_move M st p other Ho)).
  - by eapply (Hk _ (keeps_move_assign M st p other Ho)).
  - by eapply (Hk _ (keeps_deallocate M st p Ho)).
  - by eapply (Hk _ (keeps_destroy M st p Ho)).
Qed.
End moves.
End owned.
