(* ===== verification/BufferLifetime.v ===== *)
(** * The lifetimes of buffer objects *)
From S2P Require Import Prelude FreeList Arith CoreCoord AllocatorAlgorithm FreeListAlgorithm BankManager BankManagerProps Allocator DeviceAllocator AllocatorOps AllocatorL1 AllocatorInit AllocatorTables AllocatorProps Buffer BufferStore BufferOwnership.

Section lifetime.
Context (cfg : Z → AllocatorConfig) (moved_from : ShardSpecBuffer → ShardSpecBuffer).

(** Operations, one after the other; one that throws is caught. *)
Fixpoint run_ops (ops : list op) (st : store) : store :=
  match ops with [] => st | o :: ops => run_ops ops (run_op moved_from o st).2 end.

(** The requests of the operations do not overflow, and copy assignments return. *)
Fixpoint valid_ops (ops : list op) (st : store) : Prop :=
  match ops with
  | [] => True
  | o :: ops => valid_op cfg st o ∧ completed o (run_op moved_from o st).1 ∧ valid_ops ops (run_op moved_from o st).2
  end.

(** No objects yet, and every device has a new allocator. *)
Definition new_store (st : store) : Prop :=
  objects st = ∅ ∧ ∀ p d, devices st !! p = Some d →
    ∃ shuffle g a, (∀ l, shuffle l ≡ₚ l) ∧ L1BankingAllocator shuffle g (cfg p) = Ok a ∧ device_allocator d = Some a.

Definition configs_ok : Prop := ∀ p, alloc_config_ok (cfg p) ∧ dram_bank_size (cfg p) <= 2 ^ 32.

Lemma new_store_owned st : configs_ok → new_store st → owned cfg (λ _ _, fresh_bank) st.
Proof.
  intros Hcfg [Ho Hd]. split.
  - intros p d Hp. destruct (Hd p d Hp) as (shuffle & g & a & Hs & Ha & Hda). exists a. split; [done|].
    destruct (Hcfg p) as [Hc _]. destruct (run_L1BankingAllocator shuffle g (cfg p) Hs Hc) as (a' & Ha' & Hb).
    rewrite Ha in Ha'. injection Ha' as <-. by apply built_sim.
  - intros i b p. rewrite Ho. by intros ?%lookup_empty_Some.
  - intros i j b b' p. rewrite Ho. by intros ?%lookup_empty_Some.
Qed.

Lemma run_ops_owned ops M st : configs_ok → owned cfg M st → valid_ops ops st → ∃ M', owned cfg M' (run_ops ops st).
Proof.
  intros Hcfg. revert M st; induction ops as [|o ops IH]; intros M st Ho Hv; [by exists M|]. destruct Hv as (Hv & Hdone & Hrest).
  cbn [run_ops]. destruct (run_op moved_from o st) as [r st'] eqn:Hrun.
  destruct (owned_op cfg Hcfg moved_from M st o r st' Ho Hv Hrun Hdone) as (M' & Ho'). by eapply IH.
Qed.
End lifetime.

(** The live blocks of the memory [t] of device [p]. *)
Definition device_blocks (st : store) (p : Z) (t : BufferType) (m : live) : Prop :=
  ∃ d a, devices st !! p = Some d ∧ device_allocator d = Some a ∧ live_blocks a t m.

Lemma owned_blocks cfg M st p t :
  owned cfg M st → is_Some (devices st !! p) → t ≠ SYSTEM_MEMORY → device_blocks st p t (ab_live (M p t)).
Proof.
  intros Ho [d Hd] Ht. destruct (ow_device _ _ _ Ho p d Hd) as (a & Ha & Hs). exists d, a. split_and!; [done|done|].
  by eapply sim_live.
Qed.

(** ** A store of one device *)
Definition demo_store : store := mk_store ∅ {[ 1 := mk_device 0 true (Some demo_state) ]} ∅.
Definition demo_moved (s : ShardSpecBuffer) : ShardSpecBuffer := s.
Definition demo_memory : uninitialized := mk_uninitialized 3 5 7.

(** A DRAM and an L1 buffer; the first copied, the copy moved twice and the first
    destroyed; the second assigned to an object whose block was moved away. *)
Definition demo_ops : list op :=
  [New 10 demo_memory (Some 1) 4096 1024 DRAM INTERLEAVED None None true;
   New 11 demo_memory (Some 1) 2048 1024 L1 INTERLEAVED None None true;
   Copy 12 demo_memory 10; Default 14 demo_memory; MoveAssign 14 12; Move 13 14; CopyAssign 14 11; Destroy 10].

(** A test for [valid_ops]. *)
Definition request_validb (c : AllocatorConfig) (b : Buffer) : bool :=
  match allocation_request b with
  | Ok (size, shards) => valid_callb c (AllocateBuffer size (page_size_ b) (buffer_type_ b) true shards)
  | Err _ => true
  end.
Definition valid_opb (c : AllocatorConfig) (st : store) (o : op) : bool :=
  match o with
  | New p u device size page_size buffer_type buffer_layout shard_parameters bottom_up _ =>
    request_validb c (mk_buffer device size (u_address u) page_size buffer_type buffer_layout shard_parameters None true bottom_up)
  | Copy _ _ other | CopyAssign _ other => match objects st !! other with Some b => request_validb c b | None => true end
  | _ => true
  end.
Definition completedb (o : op) (r : outcome unit) : bool :=
  match o, r with CopyAssign _ _, Err _ => false | _, _ => true end.
Fixpoint valid_opsb (c : AllocatorConfig) (ops : list op) (st : store) : bool :=
  match ops with
  | [] => true
  | o :: ops => let r := run_op demo_moved o st in valid_opb c st o && completedb o r.1 && valid_opsb c ops r.2
  end.

Lemma request_validb_sound c b : request_validb c b = true → request_valid (λ _, c) b.
Proof. intros H p size shards _ Hr. unfold request_validb in H. rewrite Hr in H. by apply alloc_callb_sound. Qed.

Lemma valid_opsb_sound c ops st : valid_opsb c ops st = true → valid_ops (λ _, c) demo_moved ops st.
Proof.
  revert st; induction ops as [|o ops IH]; intros st; [done|]. cbn [valid_opsb valid_ops]. cbv zeta.
  intros [[Hv Hc]%andb_true_iff Hrest]%andb_true_iff. split_and!; [|by destruct o, (run_op demo_moved _ st).1 as [[]|]|by apply IH].
  destruct o; cbn in *; try done; [by apply request_validb_sound|..];
    (intros b Hb; rewrite Hb in Hv; by apply request_validb_sound).
Qed.

Lemma demo_store_new : new_store (λ _, demo_config) demo_store.
Proof.
  split; [done|]. intros p d Hd. unfold demo_store in Hd. cbn [devices] in Hd. apply lookup_singleton_Some in Hd as [<- <-]. exists (@reverse Z), demo_garbage, demo_state.
  split_and!; [apply perm_reverse|apply demo_state_eq|done].
Qed.
Lemma demo_configs_ok : configs_ok (λ _, demo_config).
Proof. intros _. split; [apply demo_config_ok|done]. Qed.
Lemma demo_ops_valid : valid_ops (λ _, demo_config) demo_moved demo_ops demo_store.
Proof. apply valid_opsb_sound. by vm_compute. Qed.

(** C31: every buffer object owns its block, unless a copy assignment threw.  Starting from devices with new
    allocators and no objects, run any list of constructions, copies, moves,
    assignments, deallocations and destructions, on any number of devices, with
    whatever the objects' memory held before.  Every operation asks for sizes its device's allocator
    can count and may throw, with the exception of copy assignments, which must complete
    ([valid_ops]): after one that threw the property is lost ([failed_assignment] below).  Then an object that would free its block when destroyed has a
    live block of its kind of memory at its address, and two such objects of one
    device have blocks that share no byte. *)
Theorem buffers_own_blocks cfg moved_from ops st0 :
  configs_ok cfg → new_store cfg st0 → valid_ops cfg moved_from ops st0 →
  let st := run_ops moved_from ops st0 in
  (∀ i b p, objects st !! i = Some b → owner b p →
     ∃ m sz, device_blocks st p (buffer_type_ b) m ∧ m !! address_ b = Some sz)
  ∧ (∀ i j b b' p, objects st !! i = Some b → objects st !! j = Some b' → i ≠ j → owner b p → owner b' p →
     in_dram (buffer_type_ b) = in_dram (buffer_type_ b') →
     ∃ m sz m' sz', device_blocks st p (buffer_type_ b) m ∧ m !! address_ b = Some sz
       ∧ device_blocks st p (buffer_type_ b') m' ∧ m' !! address_ b' = Some sz'
       ∧ apart (address_ b) sz (address_ b') sz').
Proof.
  intros Hcfg Hnew Hv st. destruct (run_ops_owned cfg moved_from ops _ st0 Hcfg (new_store_owned cfg st0 Hcfg Hnew) Hv) as (M & Ho).
  fold st in Ho. assert (Hlive : ∀ i b p, objects st !! i = Some b → owner b p →
    ∃ sz, device_blocks st p (buffer_type_ b) (ab_live (M p (buffer_type_ b))) ∧ ab_live (M p (buffer_type_ b)) !! address_ b = Some sz
      ∧ buffer_type_ b ≠ SYSTEM_MEMORY).
  { intros i b p Hi Hb. destruct (ow_live _ _ _ Ho i b p Hi Hb) as (Hd & [Ht (sz & Hl)] & _). exists sz.
    split_and!; [by eapply owned_blocks|done|done]. }
  split.
  - intros i b p Hi Hb. destruct (Hlive i b p Hi Hb) as (sz & ? & ? & _). eauto.
  - intros i j b b' p Hi Hj Hij Hb Hb' Hm. destruct (Hlive i b p Hi Hb) as (sz & Hd1 & Hl1 & Ht1), (Hlive j b' p Hj Hb') as (sz' & Hd2 & Hl2 & Ht2).
    exists (ab_live (M p (buffer_type_ b))), sz, (ab_live (M p (buffer_type_ b'))), sz'. split_and!; try done.
    destruct (ow_live _ _ _ Ho i b p Hi Hb) as ([d Hd] & _). destruct (ow_device _ _ _ Ho p d Hd) as (a & _ & Hs).
    destruct (Hcfg p) as [Hc _]. pose proof (sim_wf _ _ _ Hs) as Hwf. destruct (decide (buffer_type_ b = buffer_type_ b')) as [E|Hne].
    + rewrite <- E in Hl2. apply (wl_apart _ _ (Hwf _ Ht1) _ _ _ _ Hl1 Hl2). intros Ea. apply Hij. apply (ow_distinct _ _ _ Ho i j b b' p Hi Hj Hb Hb'). congruence.
    + destruct (wl_block _ _ (Hwf _ Ht1) _ _ Hl1) as (_ & Hw1 & _), (wl_block _ _ (Hwf _ Ht2) _ _ Hl2) as (_ & Hw2 & _).
      by eapply (memory_regions_apart (cfg p) (buffer_type_ b) (buffer_type_ b')).
Qed.

Lemma buffers_own_blocks_witness :
  let st := run_ops demo_moved demo_ops demo_store in
  (∀ i b p, objects st !! i = Some b → owner b p →
     ∃ m sz, device_blocks st p (buffer_type_ b) m ∧ m !! address_ b = Some sz)
  ∧ (∀ i j b b' p, objects st !! i = Some b → objects st !! j = Some b' → i ≠ j → owner b p → owner b' p →
     in_dram (buffer_type_ b) = in_dram (buffer_type_ b') →
     ∃ m sz m' sz', device_blocks st p (buffer_type_ b) m ∧ m !! address_ b = Some sz
       ∧ device_blocks st p (buffer_type_ b') m' ∧ m' !! address_ b' = Some sz'
       ∧ apart (address_ b) sz (address_ b') sz').
Proof.
  exact (buffers_own_blocks (λ _, demo_config) demo_moved demo_ops demo_store demo_configs_ok demo_store_new demo_ops_valid).
Defined.

(** C32: deallocating a buffer frees its block and nothing else.  After any such
    list of operations, deallocating an object that owns a block, on a device
    that is initialized, returns; the block is gone from the live blocks of its
    memory, the others of that memory and those of the other memories are as
    before, and the object owns nothing, so that its destructor does nothing. *)
Theorem deallocate_frees_block cfg moved_from ops st0 i b p d :
  configs_ok cfg → new_store cfg st0 → valid_ops cfg moved_from ops st0 →
  let st := run_ops moved_from ops st0 in
  objects st !! i = Some b → owner b p → devices st !! p = Some d → initialized_ d = true →
  ∃ st', buffer_deallocate i st = (Ok tt, st')
    ∧ (∃ m, device_blocks st p (buffer_type_ b) m ∧ is_Some (m !! address_ b)
            ∧ device_blocks st' p (buffer_type_ b) (delete (address_ b) m))
    ∧ (∀ t, t ≠ buffer_type_ b → t ≠ SYSTEM_MEMORY → ∃ m, device_blocks st p t m ∧ device_blocks st' p t m)
    ∧ (∃ b', objects st' !! i = Some b' ∧ ∀ q, ¬ owner b' q)
    ∧ buffer_deallocate i st' = (Ok tt, st').
Proof.
  intros Hcfg Hnew Hv st Hi Hb Hd Hin. destruct (run_ops_owned cfg moved_from ops _ st0 Hcfg (new_store_owned cfg st0 Hcfg Hnew) Hv) as (M & Ho).
  fold st in Ho. destruct (run_buffer_deallocate cfg M st i b Ho Hi) as (r & st' & M' & Hrun & Ho' & Hdev & Hex).
  assert (Hbd : device_ b = Some p) by apply Hb. destruct (Hex p d Hbd Hd Hin Hb) as (-> & Hobj & ->).
  destruct (ow_live _ _ _ Ho i b p Hi Hb) as (_ & [Ht (sz & Hl)] & _). assert (Hp : is_Some (devices st !! p)) by eauto.
  exists st'. split_and!; [done| | | |].
  - exists (ab_live (M p (buffer_type_ b))). split_and!; [by eapply owned_blocks|eauto|].
    pose proof (owned_blocks _ _ _ p (buffer_type_ b) Ho' (Hdev p Hp) Ht) as Hbl. by rewrite upd_device_same, upd_same in Hbl.
  - intros t Hne Htt. exists (ab_live (M p t)). split; [by eapply owned_blocks|].
    pose proof (owned_blocks _ _ _ p t Ho' (Hdev p Hp) Htt) as Hbl. by rewrite upd_device_same, upd_other in Hbl.
  - exists (clear_size b). split; [done|]. by intros q (_ & _ & ?).
  - unfold buffer_deallocate. rewrite (get_object_run _ _ _ _ Hobj). cbn [device_ clear_size]. rewrite Hbd.
    destruct (Hdev p Hp) as [d' Hd']. rewrite (get_device_run _ d') by done. cbn [size_ clear_size]. by rewrite orb_true_r.
Qed.

(** The copy, after its moves. *)
Definition demo_survivor : Buffer := mk_buffer (Some 1) 4096 3072 1024 DRAM INTERLEAVED None None true None.
Lemma demo_survivor_there : objects (run_ops demo_moved demo_ops demo_store) !! 13 = Some demo_survivor.
Proof. vm_compute. reflexivity. Qed.
Lemma demo_survivor_owner : owner demo_survivor 1.
Proof. by split_and!. Qed.

Lemma deallocate_frees_block_witness :
  let st := run_ops demo_moved demo_ops demo_store in
  ∃ b d st', buffer_deallocate 13 st = (Ok tt, st')
    ∧ (∃ m, device_blocks st 1 (buffer_type_ b) m ∧ is_Some (m !! address_ b)
            ∧ device_blocks st' 1 (buffer_type_ b) (delete (address_ b) m))
    ∧ (∀ t, t ≠ buffer_type_ b → t ≠ SYSTEM_MEMORY → ∃ m, device_blocks st 1 t m ∧ device_blocks st' 1 t m)
    ∧ (∃ b', objects st' !! 13 = Some b' ∧ ∀ q, ¬ owner b' q)
    ∧ buffer_deallocate 13 st' = (Ok tt, st') ∧ initialized_ d = true.
Proof.
  assert (Hd : ∃ d, devices (run_ops demo_moved demo_ops demo_store) !! 1 = Some d ∧ initialized_ d = true).
  { assert (E : initialized_ <$> devices (run_ops demo_moved demo_ops demo_store) !! 1 = Some true) by (vm_compute; reflexivity).
    apply fmap_Some in E as (d & Hd & Hin). exists d. exact (conj Hd (eq_sym Hin)). }
  destruct Hd as (d & Hd & Hin).
  destruct (deallocate_frees_block (λ _, demo_config) demo_moved demo_ops demo_store 13 demo_survivor 1 d demo_configs_ok demo_store_new
    demo_ops_valid demo_survivor_there demo_survivor_owner Hd Hin) as (st' & H1 & H2 & H3 & H4 & H5).
  exists demo_survivor, d, st'. exact (conj H1 (conj H2 (conj H3 (conj H4 (conj H5 Hin))))).
Defined.

(** ** Where ownership ends *)
(** A small shard on one core, allocated from the bottom of L1. *)
Definition one_core : ShardSpecBuffer :=
  mk_shard_spec_buffer (mk_shard_spec [mk_range (mk_coord 0 0) (mk_coord 0 0)] (32, 32) ROW_MAJOR false) (32, 32) (1, 1).
Definition same_address : list op :=
  [New 10 demo_memory (Some 1) 194560 1024 DRAM INTERLEAVED None None true;
   New 11 demo_memory (Some 1) 1024 1024 DRAM INTERLEAVED None None true;
   New 12 demo_memory (Some 1) 1024 1024 L1 HEIGHT_SHARDED (Some one_core) (Some true) true].

(** [BUFFER_MAP] has one entry for a DRAM and an L1 buffer at one address: once the
    first is gone, the other, still allocated, has none. *)
Example map_forgets_buffer :
  (let st := run_ops demo_moved (same_address ++ [Destroy 11]) demo_store in
   (address_ <$> objects st !! 12, size_ <$> objects st !! 12, BUFFER_MAP st !! (0, 98304)))
  = (Some 98304, Some 1024, None).
Proof. vm_compute. reflexivity. Qed.

(** An assignment that does not fit leaves an L1 object that says it is a DRAM
    buffer; destroying it frees the DRAM buffer that has its old address, and the
    next buffer is allocated over it. *)
Example failed_assignment :
  (let st := run_ops demo_moved (same_address ++
     [New 13 demo_memory (Some 1) 1258291200 1024 DRAM INTERLEAVED None None true; CopyAssign 12 13; Destroy 12;
      New 14 demo_memory (Some 1) 1024 1024 DRAM INTERLEAVED None None true]) demo_store in
   ((λ b, (buffer_type_ b, address_ b, size_ b)) <$> objects st !! 11,
    (λ b, (buffer_type_ b, address_ b, size_ b)) <$> objects st !! 14))
  = (Some (DRAM, 98304, 1024), Some (DRAM, 98304, 1024)).
Proof. vm_compute. reflexivity. Qed.

(** Assigning over a buffer that owns a block leaks it. *)
Example assignment_leaks :
  (let st := run_ops demo_moved
     [New 10 demo_memory (Some 1) 4096 1024 DRAM INTERLEAVED None None true;
      New 11 demo_memory (Some 1) 4096 1024 DRAM INTERLEAVED None None true;
      CopyAssign 10 11; Destroy 10; Destroy 11] demo_store in
   (base.size (objects st),
    d ← devices st !! 1; a ← device_allocator d;
    match (AllocatorOps.get_statistics DRAM a).1 with Ok s => Some (total_allocated_bytes s) | Err _ => None end))
  = (0%nat, Some 2048).
Proof. vm_compute. reflexivity. Qed.

(** The map keeps the address of a buffer that was moved and destroyed; closing the
    device goes through it. *)
Example close_after_move :
  (close_buffers 1 (run_ops demo_moved
     [New 10 demo_memory (Some 1) 4096 1024 DRAM INTERLEAVED None None true; Move 11 10; Destroy 10] demo_store)).1 = Err UB.
Proof. vm_compute. reflexivity. Qed.
