(* ===== verification/DeviceCommand.v ===== *)
(** * Commands of the prefetcher and of the dispatcher (tt_metal/impl/dispatch/cq_commands.hpp)

    The packed structures that host and device share.  A command is sixteen
    bytes: its identifier and a union of structures, each a sequence of members
    without padding between them.  A structure is given by the sizes of its
    members, a member by its place in the command; values are little-endian. *)
From S2P Require Import Prelude CommandQueue.
(** ** Integers in memory *)
Fixpoint le (n : nat) (v : Z) : list Z :=
  match n with O => [] | S n => v mod 256 :: le n (v / 256) end.
Fixpoint le_value (bytes : list Z) : Z :=
  match bytes with [] => 0 | b :: bytes => b + 256 * le_value bytes end.

(** Bytes [l] written over [r] from index [o] on. *)
Definition splice (o : nat) (l r : list Z) : list Z := take o r ++ l ++ drop (o + length l) r.

(** ** Structures *)
Definition uint8_t : nat := 1.
Definition uint16_t : nat := 2.
Definition uint32_t : nat := 4.

Record field := mk_field { foffset : nat; fsize : nat }.

(** Member [i] of the structure of a union that follows the identifier. *)
Definition member (sizes : list nat) (i : nat) : field :=
  mk_field (uint8_t + sum_list (take i sizes)) (nth i sizes 0%nat).

Definition set_field (f : field) (v : Z) (cmd : list Z) : list Z := splice (foffset f) (le (fsize f) v) cmd.
Definition get_field (f : field) (cmd : list Z) : Z := le_value (take (fsize f) (drop (foffset f) cmd)).

(** Assignments to members, in order. *)
Definition set_fields (l : list (field * Z)) (cmd : list Z) : list Z := foldl (λ c '(f, v), set_field f v c) cmd l.

(** The bytes of a structure on its own. *)
Definition encode (sizes : list nat) (values : list Z) : list Z := concat (zip_with le sizes values).

Definition sizeof_CQPrefetchCmd : Z := 16.
Definition sizeof_CQDispatchCmd : Z := 16.

(** ** Identifiers *)
Definition CQ_PREFETCH_CMD_ILLEGAL : Z := 0.
Definition CQ_PREFETCH_CMD_RELAY_LINEAR : Z := 1.
Definition CQ_PREFETCH_CMD_RELAY_PAGED : Z := 2.
Definition CQ_PREFETCH_CMD_RELAY_PAGED_PACKED : Z := 3.
Definition CQ_PREFETCH_CMD_RELAY_INLINE : Z := 4.
Definition CQ_PREFETCH_CMD_RELAY_INLINE_NOFLUSH : Z := 5.
Definition CQ_PREFETCH_CMD_EXEC_BUF : Z := 6.
Definition CQ_PREFETCH_CMD_EXEC_BUF_END : Z := 7.
Definition CQ_PREFETCH_CMD_STALL : Z := 8.
Definition CQ_PREFETCH_CMD_DEBUG : Z := 9.
Definition CQ_PREFETCH_CMD_TERMINATE : Z := 10.

Definition CQ_DISPATCH_CMD_WRITE_LINEAR : Z := 1.
Definition CQ_DISPATCH_CMD_WRITE_LINEAR_H : Z := 2.
Definition CQ_DISPATCH_CMD_WRITE_LINEAR_H_HOST : Z := 3.
Definition CQ_DISPATCH_CMD_WRITE_PAGED : Z := 4.
Definition CQ_DISPATCH_CMD_WRITE_PACKED : Z := 5.
Definition CQ_DISPATCH_CMD_WRITE_PACKED_LARGE : Z := 6.
Definition CQ_DISPATCH_CMD_WAIT : Z := 7.
Definition CQ_DISPATCH_CMD_GO : Z := 8.
Definition CQ_DISPATCH_CMD_SINK : Z := 9.
Definition CQ_DISPATCH_CMD_DELAY : Z := 11.
Definition CQ_DISPATCH_CMD_EXEC_BUF_END : Z := 12.
Definition CQ_DISPATCH_CMD_SET_WRITE_OFFSET : Z := 13.
Definition CQ_DISPATCH_CMD_TERMINATE : Z := 14.
Definition CQ_DISPATCH_CMD_SEND_GO_SIGNAL : Z := 15.
Definition CQ_DISPATCH_NOTIFY_SLAVE_GO_SIGNAL : Z := 16.
Definition CQ_DISPATCH_SET_UNICAST_ONLY_CORES : Z := 17.

(** [GoSignalMcastSettings] *)
Definition SEND_MCAST : Z := 1.
Definition SEND_UNICAST : Z := 2.

Inductive DispatcherSelect := DISPATCH_MASTER | DISPATCH_SLAVE.
#[export] Instance DispatcherSelect_eq_dec : EqDecision DispatcherSelect.
Proof. solve_decision. Defined.
Definition dispatcher_value (d : DispatcherSelect) : Z := match d with DISPATCH_MASTER => 0 | DISPATCH_SLAVE => 1 end.

(** [base.cmd_id] of either command *)
Definition cmd_id : field := mk_field 0 1.

(** ** Prefetcher commands *)
Definition CQGenericDebugCmd : list nat := [uint8_t; uint16_t; uint32_t; uint32_t; uint32_t].
Definition debug_stride : field := member CQGenericDebugCmd 4.

Definition CQPrefetchRelayLinearCmd : list nat := [uint8_t; uint16_t; uint32_t; uint32_t; uint32_t].
Definition relay_linear_noc_xy_addr : field := member CQPrefetchRelayLinearCmd 2.
Definition relay_linear_addr : field := member CQPrefetchRelayLinearCmd 3.
Definition relay_linear_length : field := member CQPrefetchRelayLinearCmd 4.

Definition CQ_PREFETCH_RELAY_PAGED_START_PAGE_SHIFT : Z := 0.
Definition CQ_PREFETCH_RELAY_PAGED_IS_DRAM_SHIFT : Z := 4.
Definition CQ_PREFETCH_RELAY_PAGED_START_PAGE_MASK : Z := 0x0f.

Definition CQPrefetchRelayPagedCmd : list nat := [uint8_t; uint16_t; uint32_t; uint32_t; uint32_t].
Definition relay_paged_packed_page_flags : field := member CQPrefetchRelayPagedCmd 0.
Definition relay_paged_length_adjust : field := member CQPrefetchRelayPagedCmd 1.
Definition relay_paged_base_addr : field := member CQPrefetchRelayPagedCmd 2.
Definition relay_paged_page_size : field := member CQPrefetchRelayPagedCmd 3.
Definition relay_paged_pages : field := member CQPrefetchRelayPagedCmd 4.

Definition CQPrefetchRelayPagedPackedCmd : list nat := [uint8_t; uint16_t; uint32_t; uint32_t].
Definition relay_paged_packed_count : field := member CQPrefetchRelayPagedPackedCmd 1.
Definition relay_paged_packed_total_length : field := member CQPrefetchRelayPagedPackedCmd 2.
Definition relay_paged_packed_stride : field := member CQPrefetchRelayPagedPackedCmd 3.

Record CQPrefetchRelayPagedPackedSubCmd := mk_packed_read {
  pr_start_page : Z; pr_log_page_size : Z; pr_base_addr : Z; pr_length : Z
}.
Definition packed_read_sizes : list nat := [uint16_t; uint16_t; uint32_t; uint32_t].
Definition encode_packed_read (c : CQPrefetchRelayPagedPackedSubCmd) : list Z :=
  encode packed_read_sizes [pr_start_page c; pr_log_page_size c; pr_base_addr c; pr_length c].

Definition CQPrefetchRelayInlineCmd : list nat := [uint8_t; uint16_t; uint32_t; uint32_t].
Definition relay_inline_dispatcher_type : field := member CQPrefetchRelayInlineCmd 0.
Definition relay_inline_length : field := member CQPrefetchRelayInlineCmd 2.
Definition relay_inline_stride : field := member CQPrefetchRelayInlineCmd 3.

Definition CQPrefetchExecBufCmd : list nat := [uint8_t; uint16_t; uint32_t; uint32_t; uint32_t].
Definition exec_buf_base_addr : field := member CQPrefetchExecBufCmd 2.
Definition exec_buf_log_page_size : field := member CQPrefetchExecBufCmd 3.
Definition exec_buf_pages : field := member CQPrefetchExecBufCmd 4.

(** ** Dispatcher commands *)
Definition CQDispatchWriteCmd : list nat := [uint8_t; uint8_t; uint8_t; uint32_t; uint32_t; uint32_t].
Definition write_linear_num_mcast_dests : field := member CQDispatchWriteCmd 0.
Definition write_linear_write_offset_index : field := member CQDispatchWriteCmd 1.
Definition write_linear_noc_xy_addr : field := member CQDispatchWriteCmd 3.
Definition write_linear_addr : field := member CQDispatchWriteCmd 4.
Definition write_linear_length : field := member CQDispatchWriteCmd 5.

Definition CQDispatchWriteHostCmd : list nat := [uint8_t; uint16_t; uint32_t; uint32_t; uint32_t].
Definition write_linear_host_is_event : field := member CQDispatchWriteHostCmd 0.
Definition write_linear_host_length : field := member CQDispatchWriteHostCmd 4.

Definition CQDispatchWritePagedCmd : list nat := [uint8_t; uint16_t; uint32_t; uint32_t; uint32_t].
Definition write_paged_is_dram : field := member CQDispatchWritePagedCmd 0.
Definition write_paged_start_page : field := member CQDispatchWritePagedCmd 1.
Definition write_paged_base_addr : field := member CQDispatchWritePagedCmd 2.
Definition write_paged_page_size : field := member CQDispatchWritePagedCmd 3.
Definition write_paged_pages : field := member CQDispatchWritePagedCmd 4.

Definition CQ_DISPATCH_CMD_PACKED_WRITE_FLAG_NONE : Z := 0x00.
Definition CQ_DISPATCH_CMD_PACKED_WRITE_FLAG_MCAST : Z := 0x01.
Definition CQ_DISPATCH_CMD_PACKED_WRITE_FLAG_NO_STRIDE : Z := 0x02.

Definition CQDispatchWritePackedCmd : list nat := [uint8_t; uint16_t; uint16_t; uint16_t; uint32_t].
Definition write_packed_flags : field := member CQDispatchWritePackedCmd 0.
Definition write_packed_count : field := member CQDispatchWritePackedCmd 1.
Definition write_packed_write_offset_index : field := member CQDispatchWritePackedCmd 2.
Definition write_packed_size : field := member CQDispatchWritePackedCmd 3.
Definition write_packed_addr : field := member CQDispatchWritePackedCmd 4.

(** The two kinds of sub-command are a type parameter of the code. *)
Inductive PackedSubCmd :=
| CQDispatchWritePackedUnicastSubCmd (noc_xy_addr : Z)
| CQDispatchWritePackedMulticastSubCmd (noc_xy_addr num_mcast_dests : Z).
Definition packed_sub_cmd_sizes (multicast : bool) : list nat := if multicast then [uint32_t; uint32_t] else [uint32_t].
Definition sizeof_PackedSubCmd (multicast : bool) : Z := if multicast then 8 else 4.
Definition is_multicast (c : PackedSubCmd) : bool :=
  match c with CQDispatchWritePackedUnicastSubCmd _ => false | CQDispatchWritePackedMulticastSubCmd _ _ => true end.
Definition encode_packed_sub_cmd (c : PackedSubCmd) : list Z :=
  encode (packed_sub_cmd_sizes (is_multicast c))
    match c with
    | CQDispatchWritePackedUnicastSubCmd noc => [noc]
    | CQDispatchWritePackedMulticastSubCmd noc dests => [noc; dests]
    end.

Record CQDispatchWritePackedLargeSubCmd := mk_large_write {
  lw_noc_xy_addr : Z; lw_addr : Z; lw_length : Z; lw_num_mcast_dests : Z; lw_flags : Z
}.
Definition large_write_sizes : list nat := [uint32_t; uint32_t; uint16_t; uint8_t; uint8_t].
Definition encode_large_write (c : CQDispatchWritePackedLargeSubCmd) : list Z :=
  encode large_write_sizes [lw_noc_xy_addr c; lw_addr c; lw_length c; lw_num_mcast_dests c; lw_flags c].

Definition get_packed_write_max_multicast_sub_cmds (packed_write_max_unicast_sub_cmds : Z) : Z :=
  packed_write_max_unicast_sub_cmds * sizeof_PackedSubCmd false / sizeof_PackedSubCmd true.

Definition CQ_DISPATCH_CMD_PACKED_WRITE_LARGE_MAX_SUB_CMDS : Z := 35.

Definition CQDispatchWritePackedLargeCmd : list nat := [uint8_t; uint16_t; uint16_t; uint16_t].
Definition write_packed_large_count : field := member CQDispatchWritePackedLargeCmd 1.
Definition write_packed_large_alignment : field := member CQDispatchWritePackedLargeCmd 2.
Definition write_packed_large_write_offset_index : field := member CQDispatchWritePackedLargeCmd 3.

Definition CQDispatchWaitCmd : list nat :=
  [uint8_t; uint8_t; uint8_t; uint8_t; uint8_t; uint16_t; uint32_t; uint32_t].
Definition wait_barrier : field := member CQDispatchWaitCmd 0.
Definition wait_notify_prefetch : field := member CQDispatchWaitCmd 1.
Definition wait_clear_count : field := member CQDispatchWaitCmd 2.
Definition wait_wait : field := member CQDispatchWaitCmd 3.
Definition wait_addr : field := member CQDispatchWaitCmd 6.
Definition wait_count : field := member CQDispatchWaitCmd 7.

Definition CQDispatchSetWriteOffsetCmd : list nat := [uint8_t; uint16_t; uint32_t; uint32_t; uint32_t].
Definition set_write_offset_offset0 : field := member CQDispatchSetWriteOffsetCmd 2.
Definition set_write_offset_offset1 : field := member CQDispatchSetWriteOffsetCmd 3.
Definition set_write_offset_offset2 : field := member CQDispatchSetWriteOffsetCmd 4.

Definition CQDispatchSetUnicastOnlyCoresCmd : list nat := [uint8_t; uint16_t; uint32_t].
Definition set_unicast_only_cores_num : field := member CQDispatchSetUnicastOnlyCoresCmd 2.

Definition CQDispatchGoSignalMcastCmd : list nat := [uint32_t; uint8_t; uint32_t; uint32_t].
Definition mcast_go_signal : field := member CQDispatchGoSignalMcastCmd 0.
Definition mcast_mcast_flag : field := member CQDispatchGoSignalMcastCmd 1.
Definition mcast_wait_count : field := member CQDispatchGoSignalMcastCmd 2.
Definition mcast_wait_addr : field := member CQDispatchGoSignalMcastCmd 3.

(** ** Lemmas *)
Lemma length_le n v : length (le n v) = n.
Proof. revert v; induction n as [|n IH]; intros v; simpl; [done|by rewrite IH]. Qed.

Lemma le_value_le n v : le_value (le n v) = v mod 256 ^ Z.of_nat n.
Proof.
  revert v; induction n as [|n IH]; intros v; simpl; [by rewrite Z.mod_1_r|].
  rewrite IH. replace (Z.of_nat (S n)) with (Z.succ (Z.of_nat n)) by lia. rewrite Z.pow_succ_r by lia.
  pose proof (Z.pow_pos_nonneg 256 (Z.of_nat n) ltac:(lia) ltac:(lia)). by rewrite Z.rem_mul_r by lia.
Qed.

(** A value that fits is read back. *)
Lemma le_value_small n v : 0 <= v < 256 ^ Z.of_nat n → le_value (le n v) = v.
Proof. intros. rewrite le_value_le. by apply Z.mod_small. Qed.

Lemma length_splice o l r : (o + length l <= length r)%nat → length (splice o l r) = length r.
Proof. intros. unfold splice. rewrite !length_app, length_take, length_drop. lia. Qed.

Lemma take_splice o l r : (o <= length r)%nat → take o (splice o l r) = take o r.
Proof. intros. unfold splice. by rewrite take_app_length' by (rewrite length_take; lia). Qed.

Lemma drop_splice o l r : (o <= length r)%nat → drop (o + length l) (splice o l r) = drop (o + length l) r.
Proof.
  intros. unfold splice. rewrite app_assoc. by rewrite drop_app_length' by (rewrite length_app, length_take; lia).
Qed.

Lemma splice_inside o l r : (o <= length r)%nat → take (length l) (drop o (splice o l r)) = l.
Proof.
  intros. unfold splice. rewrite drop_app_length' by (rewrite length_take; lia). by rewrite take_app_length.
Qed.

Lemma length_set_field f v cmd : (foffset f + fsize f <= length cmd)%nat → length (set_field f v cmd) = length cmd.
Proof. intros. unfold set_field. apply length_splice. by rewrite length_le. Qed.

Lemma get_set_field f v cmd : (foffset f <= length cmd)%nat → get_field f (set_field f v cmd) = v mod 256 ^ Z.of_nat (fsize f).
Proof.
  intros. unfold get_field, set_field. replace (fsize f) with (length (le (fsize f) v)) at 1 by apply length_le.
  by rewrite splice_inside, le_value_le.
Qed.

(** Members of a command of sixteen bytes, and members that do not overlap. *)
Definition in_command (f : field) : bool := (foffset f + fsize f <=? 16)%nat.
Definition members_apart (f g : field) : bool :=
  ((foffset f + fsize f <=? foffset g) || (foffset g + fsize g <=? foffset f))%nat.
Definition field_eqb (f g : field) : bool := ((foffset f =? foffset g) && (fsize f =? fsize g))%nat.
Lemma field_eqb_eq f g : field_eqb f g = true → f = g.
Proof.
  unfold field_eqb. intros [H1%Nat.eqb_eq H2%Nat.eqb_eq]%andb_true_iff. destruct f, g. cbn in *. by subst.
Qed.

(** A value cut to the width of a member. *)
Definition cut (n : nat) (v : Z) : Z :=
  match n with 1%nat => u8 v | 2%nat => u16 v | 4%nat => u32 v | _ => wrap (8 * Z.of_nat n) v end.
Lemma cut_wrap n v : cut n v = v mod 256 ^ Z.of_nat n.
Proof.
  assert (cut n v = wrap (8 * Z.of_nat n) v) as -> by (by destruct n as [|[|[|[|[|n]]]]]).
  unfold wrap. by rewrite Z.pow_mul_r by lia.
Qed.

(** The members of [l] are in a command, and those that touch [g] are [g]. *)
Definition settled (g : field) (l : list (field * Z)) : bool :=
  in_command g && forallb (λ p, in_command p.1 && (field_eqb p.1 g || members_apart p.1 g)) l.

Lemma get_set_field_other f g v cmd :
  members_apart f g = true → (foffset f + fsize f <= length cmd)%nat → get_field g (set_field f v cmd) = get_field g cmd.
Proof.
  intros Ha Hf. unfold get_field, set_field. f_equal. apply list_eq. intros i.
  destruct (Nat.lt_ge_cases i (fsize g)); [|by rewrite !lookup_take_ge by lia].
  rewrite !lookup_take_lt, !lookup_drop by lia. unfold splice. unfold members_apart in Ha.
  apply orb_true_iff in Ha as [Ha%Nat.leb_le|Ha%Nat.leb_le].
  - rewrite app_assoc, lookup_app_r by (rewrite length_app, length_take, length_le; lia).
    rewrite length_app, length_take, length_le, lookup_drop. f_equal. lia.
  - rewrite lookup_app_l by (rewrite length_take; lia). by rewrite lookup_take_lt by lia.
Qed.

Lemma length_set_fields l cmd :
  length cmd = 16%nat → forallb (λ p, in_command p.1) l = true → length (set_fields l cmd) = 16%nat.
Proof.
  revert cmd; induction l as [|[f v] l IH]; intros cmd Hc Hl; [done|]. apply andb_true_iff in Hl as [Hf%Nat.leb_le Hl].
  change (set_fields ((f, v) :: l) cmd) with (set_fields l (set_field f v cmd)).
  apply IH; [|done]. cbn in Hf. by rewrite length_set_field by lia.
Qed.

(** What a member holds after assignments none of which is to a part of it: the last value
    assigned, cut to its width, or [d]. *)
Definition assigned (g : field) (l : list (field * Z)) (d : Z) : Z :=
  foldl (λ d '(f, v), if field_eqb f g then cut (fsize g) v else d) d l.

Lemma get_set_fields g l cmd :
  length cmd = 16%nat → settled g l = true → get_field g (set_fields l cmd) = assigned g l (get_field g cmd).
Proof.
  intros Hc [Hg%Nat.leb_le Hl]%andb_true_iff. revert cmd Hc; induction l as [|[f v] l IH]; intros cmd Hc; [done|].
  cbn [forallb fst] in Hl. apply andb_true_iff in Hl as [[Hf%Nat.leb_le Hfg]%andb_true_iff Hl].
  change (set_fields ((f, v) :: l) cmd) with (set_fields l (set_field f v cmd)).
  rewrite IH; [|done|by rewrite length_set_field by lia].
  unfold assigned. cbn [foldl]. f_equal. destruct (field_eqb f g) eqn:He.
  - apply field_eqb_eq in He as ->. by rewrite get_set_field, cut_wrap by lia.
  - apply get_set_field_other; [done|lia].
Qed.

(** The same in front of other bytes. *)
Lemma read_field g l cmd rest :
  length cmd = 16%nat → settled g l = true →
  get_field g (set_fields l cmd ++ rest) = assigned g l (get_field g cmd).
Proof.
  intros Hc Hl. rewrite <- get_set_fields by done. apply andb_true_iff in Hl as [Hg%Nat.leb_le Hl].
  unfold get_field. f_equal. assert (Hlen : length (set_fields l cmd) = 16%nat).
  { apply length_set_fields; [done|]. apply forallb_forall. intros p Hp. rewrite forallb_forall in Hl.
    by apply Hl, andb_true_iff in Hp as [? _]. }
  rewrite drop_app_le, take_app_le by (rewrite ?length_drop; lia). done.
Qed.

Lemma length_encode sizes values : length values = length sizes → length (encode sizes values) = sum_list sizes.
Proof.
  revert values; induction sizes as [|n sizes IH]; intros [|v values] H; try done.
  cbn. unfold encode in IH. rewrite length_app, length_le, IH; [done|]. simpl in H. lia.
Qed.

Lemma length_encode_packed_sub_cmd c : Z.of_nat (length (encode_packed_sub_cmd c)) = sizeof_PackedSubCmd (is_multicast c).
Proof. by destruct c. Qed.

(** * Assembling device commands (tt_metal/impl/dispatch/device_command.hpp)

    [DeviceCommand] is a sequence of commands under construction: a region of
    bytes, its size, and the offset of the next write.  The methods that add a
    command are here one by one.  The template parameter [hugepage_write] says
    whether the region is mapped device memory (every write then goes through
    [memcpy_to_device]) or a vector of the host; a command is then built in an
    uninitialised local variable, or in place over what the region held, so that
    members no assignment names keep unspecified values.  A pointer to data is the
    list of bytes from it on; a write outside of the region is undefined behaviour. *)
(** The board, the template parameter, [zero_init_enable], and the bytes of a local
    variable before it is assigned, by the offset the command is for. *)
Record cmd_env := mk_env {
  env_hal : Hal;
  hugepage_write : bool;
  zero_init_enable : bool;
  uninitialised : Z → list Z
}.

(** [cmd_region_addr] is the address of the region, [cmd_region] its bytes. *)
Record DeviceCommand := mk_device_command {
  cmd_sequence_sizeB : Z;
  cmd_region_addr : Z;
  cmd_region : list Z;
  cmd_write_offsetB : Z
}.

Definition with_region (r : list Z) (s : DeviceCommand) : DeviceCommand :=
  mk_device_command (cmd_sequence_sizeB s) (cmd_region_addr s) r (cmd_write_offsetB s).
Definition with_offset (o : Z) (s : DeviceCommand) : DeviceCommand :=
  mk_device_command (cmd_sequence_sizeB s) (cmd_region_addr s) (cmd_region s) o.

(** The two constructors: a region given by the caller, a vector of zeros. *)
Definition DeviceCommand_at (addr : Z) (region : list Z) (cmd_sequence_sizeB_ : Z) : outcome DeviceCommand :=
  _ ← check (cmd_sequence_sizeB_ mod 4 =? 0) TT_FATAL;
  Ok (mk_device_command cmd_sequence_sizeB_ addr region 0).
Definition DeviceCommand_new (cmd_sequence_sizeB_ : Z) : outcome DeviceCommand :=
  _ ← check (cmd_sequence_sizeB_ mod 4 =? 0) TT_FATAL;
  Ok (mk_device_command cmd_sequence_sizeB_ 0 (replicate (Z.to_nat (4 * (cmd_sequence_sizeB_ / 4))) 0) 0).

Definition cmd_vector (s : DeviceCommand) : list Z := cmd_region s.

Section device_command.
Context (E : cmd_env).
Abbreviation pcie_alignment := (host_alignment (env_hal E)).
Abbreviation l1_align := (l1_alignment (env_hal E)).

(** ** Writing *)

(** Bytes stored at an offset of the region. *)
Definition poke (dst : Z) (l : list Z) : ST DeviceCommand unit :=
  s ← get_st;
  _ ← check_st ((0 <=? dst) && (dst + Z.of_nat (length l) <=? Z.of_nat (length (cmd_region s)))) UB;
  put_st (with_region (splice (Z.to_nat dst) l (cmd_region s)) s).

(** The region as memory. *)
Definition region_mem (s : DeviceCommand) : mem := λ a, nth (Z.to_nat (a - cmd_region_addr s)) (cmd_region s) 0.

Definition memcpy (dst : Z) (src : list Z) (n : Z) : ST DeviceCommand unit :=
  _ ← check_st ((0 <=? n) && (n <=? Z.of_nat (length src))) UB;
  if hugepage_write E then
    s ← get_st;
    _ ← check_st ((0 <=? dst) && (dst + n <=? Z.of_nat (length (cmd_region s)))) UB;
    m ← lift_st (memcpy_to_device (cmd_region_addr s + dst) src n (region_mem s));
    put_st (with_region (mem_read m (cmd_region_addr s) (Z.of_nat (length (cmd_region s)))) s)
  else poke dst (take (Z.to_nat n) src).

Definition validate_cmd_write (data_sizeB : Z) : ST DeviceCommand unit :=
  s ← get_st;
  check_st (u32 (cmd_write_offsetB s + data_sizeB) <=? cmd_sequence_sizeB s) TT_ASSERT.

(** [zero] on a command of sixteen bytes *)
Definition zero (cmd : Z) : ST DeviceCommand unit := memcpy cmd (replicate 16 0) 16.

(** The pointer returned is an offset; [data] is the template parameter. *)
Definition reserve_space (data : bool) (size_to_writeB : Z) : ST DeviceCommand Z :=
  _ ← validate_cmd_write size_to_writeB;
  s ← get_st;
  let cmd := cmd_write_offsetB s in
  _ ← (if negb data && zero_init_enable E then zero cmd else mret tt);
  _ ← modify_st (λ s, with_offset (u32 (cmd_write_offsetB s + size_to_writeB)) s);
  mret cmd.

(** The command at [dst] as [initialize] leaves it: a local variable copied over, or
    the bytes of the region assigned in place. *)
Definition init_cmd (dst : Z) (initialize : list Z → list Z) : ST DeviceCommand unit :=
  if hugepage_write E then memcpy dst (initialize (uninitialised E dst)) sizeof_CQPrefetchCmd
  else
    s ← get_st;
    poke dst (initialize (take 16 (drop (Z.to_nat dst) (cmd_region s)))).

(** [*cmd = {}] *)
Definition cleared (cmd : list Z) : list Z := replicate 16 0.

(** [this->cmd_write_offsetB = align(this->cmd_write_offsetB, this->pcie_alignment)] *)
Definition align_offset : ST DeviceCommand unit :=
  modify_st (λ s, with_offset (align (cmd_write_offsetB s) pcie_alignment) s).

Definition add_data (data : list Z) (data_size_to_copyB cmd_write_offset_incrementB : Z) : ST DeviceCommand unit :=
  _ ← validate_cmd_write cmd_write_offset_incrementB;
  s ← get_st;
  _ ← memcpy (cmd_write_offsetB s) data data_size_to_copyB;
  modify_st (λ s, with_offset (u32 (cmd_write_offsetB s + cmd_write_offset_incrementB)) s).

Definition update_cmd_sequence (cmd_offsetB : Z) (new_data : list Z) (data_sizeB : Z) : ST DeviceCommand unit :=
  memcpy cmd_offsetB new_data data_sizeB.

(** ** Commands for the prefetcher *)
Definition CQ_PREFETCH_CMD_BARE_MIN_SIZE : Z := pcie_alignment.
Definition prefetch_increment : Z := align sizeof_CQPrefetchCmd pcie_alignment.
Definition DISPATCH_BUFFER_LOG_PAGE_SIZE : Z := 12.

Definition add_prefetch_relay_inline (flush : bool) (lengthB : Z) (dispatcher_type : DispatcherSelect)
  : ST DeviceCommand unit :=
  _ ← (if flush then mret tt else check_st (lengthB <=? Z.shiftl 1 DISPATCH_BUFFER_LOG_PAGE_SIZE) TT_ASSERT);
  relay_write_dst ← reserve_space false sizeof_CQPrefetchCmd;
  init_cmd relay_write_dst (set_fields
    [(cmd_id, if flush then CQ_PREFETCH_CMD_RELAY_INLINE else CQ_PREFETCH_CMD_RELAY_INLINE_NOFLUSH);
     (relay_inline_dispatcher_type, dispatcher_value dispatcher_type);
     (relay_inline_length, lengthB);
     (relay_inline_stride, align (u32 (sizeof_CQPrefetchCmd + lengthB)) pcie_alignment)]).

Definition add_prefetch_relay_linear (noc_xy_addr lengthB addr : Z) : ST DeviceCommand unit :=
  dst ← reserve_space false prefetch_increment;
  init_cmd dst (set_fields
    [(cmd_id, CQ_PREFETCH_CMD_RELAY_LINEAR);
     (relay_linear_noc_xy_addr, noc_xy_addr);
     (relay_linear_length, lengthB);
     (relay_linear_addr, addr)]).

Definition add_prefetch_relay_paged (is_dram start_page base_addr page_size pages length_adjust : Z)
  : ST DeviceCommand unit :=
  dst ← reserve_space false prefetch_increment;
  init_cmd dst (set_fields
    [(cmd_id, CQ_PREFETCH_CMD_RELAY_PAGED);
     (relay_paged_packed_page_flags,
       Z.lor (Z.shiftl is_dram CQ_PREFETCH_RELAY_PAGED_IS_DRAM_SHIFT)
             (Z.shiftl start_page CQ_PREFETCH_RELAY_PAGED_START_PAGE_SHIFT));
     (relay_paged_length_adjust, length_adjust);
     (relay_paged_base_addr, base_addr);
     (relay_paged_page_size, page_size);
     (relay_paged_pages, pages)]).

Definition sizeof_CQPrefetchRelayPagedPackedSubCmd : Z := 12.

Definition add_prefetch_relay_paged_packed (length_ : Z) (sub_cmds : list CQPrefetchRelayPagedPackedSubCmd)
  (num_sub_cmds : Z) (offset_idx : nat) : ST DeviceCommand unit :=
  let sub_cmds_sizeB := num_sub_cmds * sizeof_CQPrefetchRelayPagedPackedSubCmd in
  let increment_sizeB := align (sub_cmds_sizeB + sizeof_CQPrefetchCmd) pcie_alignment in
  dst ← reserve_space false increment_sizeB;
  _ ← init_cmd dst (set_fields
    [(cmd_id, CQ_PREFETCH_CMD_RELAY_PAGED_PACKED);
     (relay_paged_packed_total_length, length_);
     (relay_paged_packed_stride, increment_sizeB);
     (relay_paged_packed_count, num_sub_cmds)]);
  memcpy (dst + sizeof_CQPrefetchCmd) (concat (encode_packed_read <$> drop offset_idx sub_cmds)) sub_cmds_sizeB.

Definition add_prefetch_exec_buf (base_addr log_page_size pages : Z) : ST DeviceCommand unit :=
  dst ← reserve_space false prefetch_increment;
  init_cmd dst (set_fields
    [(cmd_id, CQ_PREFETCH_CMD_EXEC_BUF);
     (exec_buf_base_addr, base_addr);
     (exec_buf_log_page_size, log_page_size);
     (exec_buf_pages, pages)]).

Definition add_prefetch_terminate : ST DeviceCommand unit :=
  dst ← reserve_space false prefetch_increment;
  init_cmd dst (λ cmd, set_fields [(cmd_id, CQ_PREFETCH_CMD_TERMINATE)] (cleared cmd)).

(** ** Commands for the dispatcher, each behind a command that relays it *)
Definition add_dispatch_wait (barrier address count clear_count : Z) (notify_prefetch do_wait : bool)
  (dispatcher_type : Z) : ST DeviceCommand unit :=
  relay_wait_dst ← reserve_space false sizeof_CQPrefetchCmd;
  wait_cmd_dst ← reserve_space false sizeof_CQDispatchCmd;
  _ ← init_cmd relay_wait_dst (set_fields
    [(cmd_id, CQ_PREFETCH_CMD_RELAY_INLINE);
     (relay_inline_dispatcher_type, dispatcher_type);
     (relay_inline_length, sizeof_CQDispatchCmd);
     (relay_inline_stride, CQ_PREFETCH_CMD_BARE_MIN_SIZE)]);
  _ ← init_cmd wait_cmd_dst (set_fields
    [(cmd_id, CQ_DISPATCH_CMD_WAIT);
     (wait_barrier, barrier);
     (wait_notify_prefetch, Z.b2z notify_prefetch);
     (wait_wait, Z.b2z do_wait);
     (wait_addr, address);
     (wait_count, count);
     (wait_clear_count, clear_count)]);
  align_offset.

Definition add_dispatch_wait_with_prefetch_stall (barrier address count clear_count : Z) (do_wait : bool)
  : ST DeviceCommand unit :=
  _ ← add_dispatch_wait barrier address count clear_count true do_wait 0;
  dst ← reserve_space false prefetch_increment;
  init_cmd dst (λ cmd, set_fields [(cmd_id, CQ_PREFETCH_CMD_STALL)] (cleared cmd)).

(** [data] is a pointer, [None] the null pointer. *)
Definition add_dispatch_write_linear (inline_data flush_prefetch : bool)
  (num_mcast_dests noc_xy_addr addr data_sizeB : Z) (data : option (list Z)) (write_offset_index : Z)
  : ST DeviceCommand unit :=
  let payload_sizeB := u32 (sizeof_CQDispatchCmd + (if flush_prefetch then data_sizeB else 0)) in
  _ ← add_prefetch_relay_inline flush_prefetch payload_sizeB DISPATCH_MASTER;
  dst ← reserve_space false sizeof_CQDispatchCmd;
  _ ← init_cmd dst (set_fields
    [(cmd_id, CQ_DISPATCH_CMD_WRITE_LINEAR);
     (write_linear_num_mcast_dests, num_mcast_dests);
     (write_linear_write_offset_index, write_offset_index);
     (write_linear_noc_xy_addr, noc_xy_addr);
     (write_linear_addr, addr);
     (write_linear_length, data_sizeB)]);
  if inline_data then
    data ← lift_st (of_option TT_ASSERT data);
    add_data data data_sizeB (align data_sizeB pcie_alignment)
  else mret tt.

Definition add_dispatch_write_paged (inline_data flush_prefetch : bool)
  (is_dram start_page base_addr page_size pages : Z) (data : option (list Z)) : ST DeviceCommand unit :=
  let data_sizeB := u32 (page_size * pages) in
  let payload_sizeB := u32 (sizeof_CQDispatchCmd + (if flush_prefetch then data_sizeB else 0)) in
  _ ← add_prefetch_relay_inline flush_prefetch payload_sizeB DISPATCH_MASTER;
  dst ← reserve_space false sizeof_CQDispatchCmd;
  _ ← init_cmd dst (set_fields
    [(cmd_id, CQ_DISPATCH_CMD_WRITE_PAGED);
     (write_paged_is_dram, is_dram);
     (write_paged_start_page, start_page);
     (write_paged_base_addr, base_addr);
     (write_paged_page_size, page_size);
     (write_paged_pages, pages)]);
  if inline_data then
    data ← lift_st (of_option TT_ASSERT data);
    add_data data data_sizeB (align data_sizeB pcie_alignment)
  else mret tt.

Definition add_dispatch_write_host (inline_data flush_prefetch : bool) (data_sizeB : Z) (is_event : bool)
  (data : option (list Z)) : ST DeviceCommand unit :=
  let payload_sizeB := u32 (sizeof_CQDispatchCmd + (if flush_prefetch then data_sizeB else 0)) in
  _ ← add_prefetch_relay_inline flush_prefetch payload_sizeB DISPATCH_MASTER;
  dst ← reserve_space false sizeof_CQDispatchCmd;
  _ ← init_cmd dst (set_fields
    [(cmd_id, CQ_DISPATCH_CMD_WRITE_LINEAR_H_HOST);
     (write_linear_host_is_event, Z.b2z is_event);
     (write_linear_host_length, u32 (sizeof_CQDispatchCmd + data_sizeB))]);
  _ ← (if inline_data then
         data ← lift_st (of_option TT_ASSERT data);
         add_data data data_sizeB data_sizeB
       else mret tt);
  align_offset.

Definition add_dispatch_go_signal_mcast (wait_count mcast_flag go_signal wait_addr_ : Z)
  (dispatcher_type : DispatcherSelect) : ST DeviceCommand unit :=
  _ ← add_prefetch_relay_inline true sizeof_CQDispatchCmd dispatcher_type;
  dst ← reserve_space false sizeof_CQDispatchCmd;
  _ ← init_cmd dst (λ cmd, set_fields
    [(cmd_id, CQ_DISPATCH_CMD_SEND_GO_SIGNAL);
     (mcast_go_signal, go_signal);
     (mcast_wait_count, wait_count);
     (mcast_mcast_flag, mcast_flag);
     (mcast_wait_addr, wait_addr_)] (cleared cmd));
  align_offset.

Definition add_notify_dispatch_s_go_signal_cmd : ST DeviceCommand unit :=
  _ ← add_prefetch_relay_inline true sizeof_CQDispatchCmd DISPATCH_MASTER;
  dst ← reserve_space false sizeof_CQDispatchCmd;
  _ ← init_cmd dst (λ cmd, set_fields [(cmd_id, CQ_DISPATCH_NOTIFY_SLAVE_GO_SIGNAL)] (cleared cmd));
  align_offset.

(** The encodings are words. *)
Definition add_dispatch_set_unicast_only_cores (noc_encodings : list Z) (dispatcher_type : DispatcherSelect)
  : ST DeviceCommand unit :=
  let data_sizeB := u32 (Z.of_nat (length noc_encodings) * 4) in
  _ ← add_prefetch_relay_inline true (u32 (sizeof_CQDispatchCmd + data_sizeB)) dispatcher_type;
  dst ← reserve_space false sizeof_CQDispatchCmd;
  _ ← init_cmd dst (λ cmd, set_fields
    [(cmd_id, CQ_DISPATCH_SET_UNICAST_ONLY_CORES);
     (set_unicast_only_cores_num, Z.of_nat (length noc_encodings))] (cleared cmd));
  add_data (concat (le uint32_t <$> noc_encodings)) data_sizeB (align data_sizeB pcie_alignment).

Definition add_dispatch_set_write_offsets (write_offset0 write_offset1 write_offset2 : Z) : ST DeviceCommand unit :=
  _ ← add_prefetch_relay_inline true sizeof_CQDispatchCmd DISPATCH_MASTER;
  dst ← reserve_space false sizeof_CQDispatchCmd;
  _ ← init_cmd dst (λ cmd, set_fields
    [(cmd_id, CQ_DISPATCH_CMD_SET_WRITE_OFFSET);
     (set_write_offset_offset0, write_offset0);
     (set_write_offset_offset1, write_offset1);
     (set_write_offset_offset2, write_offset2)] (cleared cmd));
  align_offset.

Definition add_dispatch_terminate (dispatcher_type : DispatcherSelect) : ST DeviceCommand unit :=
  _ ← add_prefetch_relay_inline true sizeof_CQDispatchCmd dispatcher_type;
  dst ← reserve_space false sizeof_CQDispatchCmd;
  _ ← init_cmd dst (λ cmd, set_fields [(cmd_id, CQ_DISPATCH_CMD_TERMINATE)] (cleared cmd));
  align_offset.

Definition add_prefetch_exec_buf_end : ST DeviceCommand unit :=
  prefetch_dst ← reserve_space false sizeof_CQPrefetchCmd;
  dispatch_dst ← reserve_space false sizeof_CQDispatchCmd;
  _ ← init_cmd prefetch_dst (set_fields
    [(cmd_id, CQ_PREFETCH_CMD_EXEC_BUF_END);
     (relay_inline_length, sizeof_CQDispatchCmd);
     (relay_inline_stride, align (sizeof_CQDispatchCmd + sizeof_CQPrefetchCmd) pcie_alignment)]);
  _ ← init_cmd dispatch_dst (set_fields [(cmd_id, CQ_DISPATCH_CMD_EXEC_BUF_END)]);
  align_offset.

(** *** Packed writes *)
Definition init_write_packed (multicast no_stride : bool) (num_sub_cmds common_addr packed_data_sizeB write_offset_index : Z)
  : list Z → list Z :=
  set_fields
    [(cmd_id, CQ_DISPATCH_CMD_WRITE_PACKED);
     (write_packed_flags,
       Z.lor (if multicast then CQ_DISPATCH_CMD_PACKED_WRITE_FLAG_MCAST else CQ_DISPATCH_CMD_PACKED_WRITE_FLAG_NONE)
             (if no_stride then CQ_DISPATCH_CMD_PACKED_WRITE_FLAG_NO_STRIDE else CQ_DISPATCH_CMD_PACKED_WRITE_FLAG_NONE));
     (write_packed_count, num_sub_cmds);
     (write_packed_write_offset_index, write_offset_index);
     (write_packed_addr, common_addr);
     (write_packed_size, packed_data_sizeB)].

(** The part the two overloads share; [copy i] writes the data of index [i] at the
    write offset, [limit_error] is the error when there are too many sub-commands. *)
Definition write_packed_with (limit_error : error) (copy : nat → ST DeviceCommand unit) (multicast : bool)
  (num_sub_cmds common_addr packed_data_sizeB payload_sizeB : Z) (sub_cmds : list PackedSubCmd)
  (packed_write_max_unicast_sub_cmds : Z) (offset_idx : nat) (no_stride : bool) (write_offset_index : Z)
  : ST DeviceCommand unit :=
  let max_num_packed_sub_cmds :=
    if multicast then get_packed_write_max_multicast_sub_cmds packed_write_max_unicast_sub_cmds
    else packed_write_max_unicast_sub_cmds in
  _ ← check_st (num_sub_cmds <=? max_num_packed_sub_cmds) limit_error;
  _ ← add_prefetch_relay_inline true payload_sizeB DISPATCH_MASTER;
  dst ← reserve_space false sizeof_CQDispatchCmd;
  _ ← init_cmd dst (init_write_packed multicast no_stride num_sub_cmds common_addr packed_data_sizeB write_offset_index);
  let sub_cmds_sizeB := num_sub_cmds * sizeof_PackedSubCmd multicast in
  s ← get_st;
  _ ← memcpy (cmd_write_offsetB s) (concat (encode_packed_sub_cmd <$> drop offset_idx sub_cmds)) sub_cmds_sizeB;
  _ ← modify_st (λ s, with_offset (u32 (cmd_write_offsetB s + align sub_cmds_sizeB l1_align)) s);
  let increment_sizeB := align packed_data_sizeB l1_align in
  let num_data_copies := if no_stride then 1 else num_sub_cmds in
  _ ← for_each_st (λ i,
        _ ← copy i;
        modify_st (λ s, with_offset (u32 (cmd_write_offsetB s + increment_sizeB)) s))
      (seq offset_idx (Z.to_nat num_data_copies));
  align_offset.

(** One buffer with its size per sub-command. *)
Definition copy_pair (data_collection : list (list Z * Z)) (i : nat) : ST DeviceCommand unit :=
  d ← lift_st (at_ data_collection i);
  s ← get_st;
  memcpy (cmd_write_offsetB s) d.1 d.2.

Definition add_dispatch_write_packed (multicast : bool)
  (num_sub_cmds common_addr packed_data_sizeB payload_sizeB : Z) (sub_cmds : list PackedSubCmd)
  (data_collection : list (list Z * Z)) :=
  write_packed_with TT_FATAL (copy_pair data_collection) multicast num_sub_cmds common_addr packed_data_sizeB
    payload_sizeB sub_cmds.

(** Several buffers per sub-command: address, size, stride. *)
Fixpoint copy_tuples (l : list (list Z * Z * Z)) (offset : Z) : ST DeviceCommand unit :=
  match l with
  | [] => mret tt
  | (data, size_, stride) :: l =>
    s ← get_st;
    _ ← memcpy (cmd_write_offsetB s + offset) data size_;
    copy_tuples l (u32 (offset + stride))
  end.

Definition copy_all (data_collection : list (list (list Z * Z * Z))) (i : nat) : ST DeviceCommand unit :=
  d ← lift_st (at_ data_collection i);
  copy_tuples d 0.

Definition add_dispatch_write_packed_tuples (multicast : bool)
  (num_sub_cmds common_addr packed_data_sizeB payload_sizeB : Z) (sub_cmds : list PackedSubCmd)
  (data_collection : list (list (list Z * Z * Z))) :=
  write_packed_with TT_ASSERT (copy_all data_collection) multicast num_sub_cmds common_addr packed_data_sizeB
    payload_sizeB sub_cmds.

Definition sizeof_CQDispatchWritePackedLargeSubCmd : Z := 12.

Definition add_dispatch_write_packed_large (alignment num_sub_cmds : Z)
  (sub_cmds : list CQDispatchWritePackedLargeSubCmd) (offset_idx : nat) (write_offset_index : Z)
  : ST DeviceCommand unit :=
  _ ← check_st (num_sub_cmds <=? CQ_DISPATCH_CMD_PACKED_WRITE_LARGE_MAX_SUB_CMDS) TT_ASSERT;
  let sub_cmds_sizeB := num_sub_cmds * sizeof_CQDispatchWritePackedLargeSubCmd in
  let payload_size := align (sizeof_CQDispatchCmd + sub_cmds_sizeB) l1_align in
  _ ← add_prefetch_relay_inline false payload_size DISPATCH_MASTER;
  let payload_dst_size := u32 (align (sizeof_CQPrefetchCmd + payload_size) pcie_alignment - sizeof_CQPrefetchCmd) in
  dst ← reserve_space false payload_dst_size;
  _ ← init_cmd dst (set_fields
    [(cmd_id, CQ_DISPATCH_CMD_WRITE_PACKED_LARGE);
     (write_packed_large_count, num_sub_cmds);
     (write_packed_large_alignment, alignment);
     (write_packed_large_write_offset_index, write_offset_index)]);
  _ ← memcpy (dst + sizeof_CQDispatchCmd) (concat (encode_large_write <$> drop offset_idx sub_cmds)) sub_cmds_sizeB;
  align_offset.
End device_command.
