(* ===== verification/DeviceExecution.v ===== *)
(** * How the prefetcher reads commands (tt_metal/impl/dispatch/kernels/cq_prefetch.cpp)

    [process_cmd] of a prefetcher with both roles, outside of an exec buffer: what
    a command asks for, with the parameters its handler takes from the command, and
    the stride to the next command.  How data then move is not part of this file;
    an [action] says which data.  [bytes] is the command data queue from [cmd_ptr]
    on; reading past the bytes fetched is undefined behaviour. *)
From S2P Require Import Prelude DeviceCommand CommandQueue Arith.
Inductive action :=
| relay_inline (dispatcher : DispatcherSelect) (data : list Z)
| relay_inline_noflush (data : list Z)
| relay_linear (noc_xy_addr addr length_ : Z)
| relay_paged (is_dram : bool) (start_page base_addr page_size pages length_adjust : Z)
| relay_paged_packed (total_length : Z) (sub_cmds : list CQPrefetchRelayPagedPackedSubCmd)
| exec_buf (base_addr log_page_size pages : Z)
| stall
| debug_
| terminate.

(** The bytes of the payload of a command. *)
Definition inline_data (length_ : Z) (bytes : list Z) : outcome (list Z) :=
  _ ← check (sizeof_CQPrefetchCmd + length_ <=? Z.of_nat (length bytes)) UB;
  Ok (take (Z.to_nat length_) (drop (Z.to_nat sizeof_CQPrefetchCmd) bytes)).

(** [process_relay_inline_cmd], [process_relay_inline_noflush_cmd] *)
Definition process_relay_inline_cmd (bytes : list Z) : outcome (list Z * Z) :=
  data ← inline_data (get_field relay_inline_length bytes) bytes;
  Ok (data, get_field relay_inline_stride bytes).

Definition decode_packed_read (b : list Z) : CQPrefetchRelayPagedPackedSubCmd :=
  mk_packed_read (le_value (take 2 b)) (le_value (take 2 (drop 2 b))) (le_value (take 4 (drop 4 b)))
    (le_value (take 4 (drop 8 b))).

Definition process_relay_paged_packed_cmd (bytes : list Z) : outcome (action * Z) :=
  let total_length := get_field relay_paged_packed_total_length bytes in
  let count := get_field relay_paged_packed_count bytes in
  let stride := get_field relay_paged_packed_stride bytes in
  _ ← check (0 <? total_length) TT_ASSERT;
  subs ← inline_data (count * 12) bytes;
  Ok (relay_paged_packed total_length (decode_packed_read <$> chunks 12 (Z.to_nat count) subs), stride).

Section process_cmd.
Context (CQ_PREFETCH_CMD_BARE_MIN_SIZE : Z).

(** The action and the stride; the boolean is [done]. *)
Definition process_cmd (bytes : list Z) : outcome (action * Z * bool) :=
  _ ← check (sizeof_CQPrefetchCmd <=? Z.of_nat (length bytes)) UB;
  let id := get_field cmd_id bytes in
  if id =? CQ_PREFETCH_CMD_RELAY_LINEAR then
    Ok (relay_linear (get_field relay_linear_noc_xy_addr bytes) (get_field relay_linear_addr bytes)
          (get_field relay_linear_length bytes), CQ_PREFETCH_CMD_BARE_MIN_SIZE, false)
  else if id =? CQ_PREFETCH_CMD_RELAY_PAGED then
    let packed_page_flags := get_field relay_paged_packed_page_flags bytes in
    let is_dram := Z.land packed_page_flags (Z.shiftl 1 CQ_PREFETCH_RELAY_PAGED_IS_DRAM_SHIFT) in
    let start_page := Z.land (Z.shiftr packed_page_flags CQ_PREFETCH_RELAY_PAGED_START_PAGE_SHIFT)
                        CQ_PREFETCH_RELAY_PAGED_START_PAGE_MASK in
    Ok (relay_paged (negb (is_dram =? 0)) start_page (get_field relay_paged_base_addr bytes)
          (get_field relay_paged_page_size bytes) (get_field relay_paged_pages bytes)
          (get_field relay_paged_length_adjust bytes), CQ_PREFETCH_CMD_BARE_MIN_SIZE, false)
  else if id =? CQ_PREFETCH_CMD_RELAY_PAGED_PACKED then
    '(a, stride) ← process_relay_paged_packed_cmd bytes;
    Ok (a, stride, false)
  else if id =? CQ_PREFETCH_CMD_RELAY_INLINE then
    '(data, stride) ← process_relay_inline_cmd bytes;
    Ok (relay_inline (if get_field relay_inline_dispatcher_type bytes =? dispatcher_value DISPATCH_MASTER
                      then DISPATCH_MASTER else DISPATCH_SLAVE) data, stride, false)
  else if id =? CQ_PREFETCH_CMD_RELAY_INLINE_NOFLUSH then
    '(data, stride) ← process_relay_inline_cmd bytes;
    Ok (relay_inline_noflush data, stride, false)
  else if id =? CQ_PREFETCH_CMD_EXEC_BUF then
    Ok (exec_buf (get_field exec_buf_base_addr bytes) (get_field exec_buf_log_page_size bytes)
          (get_field exec_buf_pages bytes), CQ_PREFETCH_CMD_BARE_MIN_SIZE, false)
  else if id =? CQ_PREFETCH_CMD_EXEC_BUF_END then Err TT_ASSERT
  else if id =? CQ_PREFETCH_CMD_STALL then Ok (stall, CQ_PREFETCH_CMD_BARE_MIN_SIZE, false)
  else if id =? CQ_PREFETCH_CMD_DEBUG then Ok (debug_, get_field debug_stride bytes, false)
  else if id =? CQ_PREFETCH_CMD_TERMINATE then Ok (terminate, CQ_PREFETCH_CMD_BARE_MIN_SIZE, true)
  else Err TT_ASSERT.

(** The loop of [kernel_main_hd] over the bytes of one fetch: commands until the bytes
    are used up or a command ends the kernel.  A stride of zero would never end. *)
Fixpoint process_cmds (fuel : nat) (bytes : list Z) : outcome (list action) :=
  match bytes, fuel with
  | [], _ => Ok []
  | _, O => Err FUEL
  | _, S fuel =>
    '(a, stride, done_) ← process_cmd bytes;
    if done_ : bool then Ok [a]
    else
      _ ← check (stride <=? Z.of_nat (length bytes)) UB;
      l ← process_cmds fuel (drop (Z.to_nat stride) bytes);
      Ok (a :: l)
  end.

(** As many rounds as there are bytes. *)
Definition process_fetched (bytes : list Z) : outcome (list action) := process_cmds (length bytes) bytes.
End process_cmd.

(** * Addresses of interleaved pages on the device (tt_metal/hw/inc/dataflow_api.h)

    [InterleavedAddrGen]: page [id] of a buffer is in bank [id mod n], in row
    [id / n] of the pages of that bank.  The division is the one of the device's
    division library, or shifts and masks when the number of banks is a power of
    two.  The tables over the banks are files the build generates. *)
(** What is generated for the banks of DRAM or of L1: their number, the encoded
    coordinates and the offset of each ([uint16_t], [int32_t]). *)
Record bank_tables := mk_banks {
  NUM_BANKS : Z;
  bank_to_noc_xy : Z → Z;
  bank_to_offset : Z → Z;
  ALLOCATOR_ALIGNMENT : Z
}.

(** [IS_NOT_POW2_NUM_DRAM_BANKS], [IS_NOT_POW2_NUM_L1_BANKS] *)
Definition is_pow2 (n : Z) : bool := Z.land n (n - 1) =? 0.

Section banks.
Context (B : bank_tables).

Definition get_bank_offset_index (id : Z) : Z :=
  if is_pow2 (NUM_BANKS B) then Z.shiftr id (Z.log2 (NUM_BANKS B))
  else ModDiv.udivsi3_const_divisor (NUM_BANKS B) id.

Definition get_bank_index (id bank_offset_index : Z) : Z :=
  if is_pow2 (NUM_BANKS B) then Z.land id (NUM_BANKS B - 1)
  else u32 (id - u32 (bank_offset_index * NUM_BANKS B)).

Definition aligned_page_bytes (page_size : Z) : Z := align page_size (ALLOCATOR_ALIGNMENT B).

Definition get_addr (bank_base_address page_size bank_offset_index bank_index offset_ : Z) : Z :=
  u32 (u32 (u32 (u32 (bank_offset_index * aligned_page_bytes page_size) + bank_base_address) + offset_)
       + u32 (bank_to_offset B bank_index)).

(** The coordinates and the address [get_noc_addr] combines. *)
Definition get_noc_addr (bank_base_address page_size id offset_ : Z) : Z * Z :=
  let bank_offset_index := get_bank_offset_index id in
  let bank_index := get_bank_index id bank_offset_index in
  (bank_to_noc_xy B bank_index, get_addr bank_base_address page_size bank_offset_index bank_index offset_).
End banks.

(** ** Page [id] is in bank [id mod n], row [id / n] *)

(** Numbers of banks and of pages for which the division is exact. *)
Record banks_ok (B : bank_tables) (pages : Z) : Prop := mk_banks_ok {
  bo_banks : 0 < NUM_BANKS B < 2 ^ 31;
  bo_pages : 0 <= pages <= 2 ^ 32;
  bo_exact : is_pow2 (NUM_BANKS B) = true ∨ pages <= exact_below (NUM_BANKS B)
}.

Lemma pow2_log2 n : 0 < n → is_pow2 n = true → n = 2 ^ Z.log2 n.
Proof.
  intros Hn Hp. unfold is_pow2 in Hp. apply Z.eqb_eq in Hp. destruct (Z.log2_spec n Hn) as [Hlo Hhi].
  destruct (Z.eq_dec n (2 ^ Z.log2 n)) as [|Hne]; [done|]. exfalso.
  (* otherwise [n - 1] has the same top bit *)
  pose proof (Z.log2_nonneg n) as Hk. pose proof (Z.pow_pos_nonneg 2 (Z.log2 n) ltac:(lia) Hk).
  assert (Hbit : Z.testbit (Z.land n (n - 1)) (Z.log2 n) = true).
  { rewrite Z.land_spec, Z.bit_log2 by done. assert (Hl : Z.log2 (n - 1) = Z.log2 n) by (apply Z.log2_unique; [done|split; [|lia]]; clear - Hne Hlo; lia).
    rewrite <- Hl. apply Z.bit_log2. clear - H Hlo Hne. lia. }
  rewrite Hp, Z.bits_0 in Hbit. done.
Qed.

Lemma bank_of_page B pages id :
  banks_ok B pages → 0 <= id < pages →
  get_bank_offset_index B id = id / NUM_BANKS B
  ∧ get_bank_index B id (get_bank_offset_index B id) = id mod NUM_BANKS B.
Proof.
  intros [Hn Hp Hex] Hid. unfold get_bank_offset_index, get_bank_index. destruct (is_pow2 (NUM_BANKS B)) eqn:Hpow.
  - pose proof (pow2_log2 (NUM_BANKS B) ltac:(lia) Hpow) as Hlog. pose proof (Z.log2_nonneg (NUM_BANKS B)). rewrite Z.shiftr_div_pow2 by done.
    rewrite <- Hlog. split; [done|]. replace (NUM_BANKS B - 1) with (Z.ones (Z.log2 (NUM_BANKS B))) by (rewrite Z.ones_equiv; lia).
    rewrite Z.land_ones by done. by rewrite <- Hlog.
  - assert (Hd : ModDiv.udivsi3_const_divisor (NUM_BANKS B) id = id / NUM_BANKS B)
      by (destruct Hex; [done|]; apply udivsi3_exact; lia).
    rewrite Hd. split; [done|]. pose proof (Z.div_mod id (NUM_BANKS B) ltac:(lia)).
    pose proof (Z.mod_pos_bound id (NUM_BANKS B) ltac:(lia)). assert (0 <= id / NUM_BANKS B) by (apply Z.div_pos; lia).
    rewrite (u32_small (id / NUM_BANKS B * NUM_BANKS B)) by nia. rewrite u32_small by lia. lia.
Qed.

(** * How the dispatcher executes commands (tt_metal/impl/dispatch/kernels/cq_dispatch.cpp,
    cq_dispatch_slave.cpp)

    [process_cmd_d] of a dispatcher with both roles and the loop body of
    dispatch_s: from the bytes of a command and of the data that follow it to the
    effects the command has, in order.  [bytes] is the dispatch buffer from
    [cmd_ptr] on, contiguous: pages of the buffer, the wait for them and its wrap
    are not part of this file, and a write the code splits at a page is one
    effect.  Reading past the bytes relayed is undefined behaviour. *)
Inductive dispatch_effect :=
| noc_write (noc_xy_addr addr : Z) (data : list Z)
| noc_multicast (noc_xy_addr addr num_dests : Z) (data : list Z)
| host_write (data : list Z)
| wait_for (barrier : bool) (wait : option (Z * Z)) (clear_count : option Z) (notify_prefetch : bool)
| send_go_signal (mcast unicast : bool) (go_signal wait_count wait_addr : Z)
| notify_dispatch_s
| unicast_only_cores (cores : list Z)
| exec_buf_ended.

(** [bytes[start .. start + n]] *)
Definition data_at (start n : Z) (bytes : list Z) : outcome (list Z) :=
  _ ← check ((0 <=? start) && (start + n <=? Z.of_nat (length bytes))) UB;
  Ok (take (Z.to_nat n) (drop (Z.to_nat start) bytes)).

Definition L1_ALIGNMENT : Z := 16.
Definition round_up_pow2 (v pow2_size : Z) : Z := Z.land (u32 (v + u32 (pow2_size - 1))) (2 ^ 32 - pow2_size).
Definition dispatch_cb_page_size : Z := 4096.
Section dispatch.
Context (dram l1 : bank_tables) (packed_write_max_unicast_sub_cmds : Z).

(** *** Linear writes *)
Definition process_write (write_offset : list Z) (bytes : list Z) : outcome (list dispatch_effect) :=
  let num_mcast_dests := get_field write_linear_num_mcast_dests bytes in
  let dst_noc := get_field write_linear_noc_xy_addr bytes in
  offset_ ← at_ write_offset (Z.to_nat (get_field write_linear_write_offset_index bytes));
  let dst_addr := u32 (get_field write_linear_addr bytes + offset_) in
  data ← data_at sizeof_CQDispatchCmd (get_field write_linear_length bytes) bytes;
  Ok [if num_mcast_dests =? 0 then noc_write dst_noc dst_addr data
      else noc_multicast dst_noc dst_addr num_mcast_dests data].

(** The command is sent back in front of the data. *)
Definition process_write_host_h (bytes : list Z) : outcome (list dispatch_effect) :=
  data ← data_at 0 (get_field write_linear_host_length bytes) bytes;
  Ok [host_write data].

(** *** Paged writes: a page per round, until [write_length] is zero. *)
Fixpoint write_pages (fuel : nat) (B : bank_tables) (base_addr page_size page_id write_length data_ptr : Z)
  (bytes : list Z) : outcome (list dispatch_effect) :=
  if write_length =? 0 then Ok []
  else
    match fuel with
    | O => Err FUEL
    | S fuel =>
      data ← data_at data_ptr page_size bytes;
      let '(noc, addr) := get_noc_addr B base_addr page_size page_id 0 in
      l ← write_pages fuel B base_addr page_size (u32 (page_id + 1)) (u32 (write_length - page_size))
            (data_ptr + page_size) bytes;
      Ok (noc_write noc addr data :: l)
    end.

Definition process_write_paged (bytes : list Z) : outcome (list dispatch_effect) :=
  let B := if get_field write_paged_is_dram bytes =? 0 then l1 else dram in
  let page_id := get_field write_paged_start_page bytes in
  let base_addr := get_field write_paged_base_addr bytes in
  let page_size := get_field write_paged_page_size bytes in
  let pages := get_field write_paged_pages bytes in
  write_pages (length bytes) B base_addr page_size page_id (u32 (pages * page_size)) sizeof_CQDispatchCmd bytes.

(** *** Packed writes *)
Definition packed_dest (mcast : bool) (sub_cmd : list Z) : Z * Z :=
  (le_value (take 4 sub_cmd), if mcast then le_value (take 4 (drop 4 sub_cmd)) else 1).

Fixpoint write_packed_data (mcast : bool) (dst_addr xfer_size stride data_ptr : Z) (sub_cmds : list (list Z))
  (bytes : list Z) : outcome (list dispatch_effect) :=
  match sub_cmds with
  | [] => Ok []
  | sub_cmd :: sub_cmds =>
    let '(dst_noc, num_dests) := packed_dest mcast sub_cmd in
    data ← data_at data_ptr xfer_size bytes;
    l ← write_packed_data mcast dst_addr xfer_size stride (data_ptr + stride) sub_cmds bytes;
    Ok ((if mcast then noc_multicast dst_noc dst_addr num_dests data else noc_write dst_noc dst_addr data) :: l)
  end.

Definition process_write_packed (write_offset : list Z) (bytes : list Z) : outcome (list dispatch_effect) :=
  let flags := get_field write_packed_flags bytes in
  let mcast := negb (Z.land flags CQ_DISPATCH_CMD_PACKED_WRITE_FLAG_MCAST =? 0) in
  let count := get_field write_packed_count bytes in
  _ ← check (count <=? (if mcast then get_packed_write_max_multicast_sub_cmds packed_write_max_unicast_sub_cmds
                        else packed_write_max_unicast_sub_cmds)) TT_ASSERT;
  let sub_cmd_size := sizeof_PackedSubCmd mcast in
  sub_cmds ← data_at sizeof_CQDispatchCmd (count * sub_cmd_size) bytes;
  let xfer_size := get_field write_packed_size bytes in
  offset_ ← at_ write_offset (Z.to_nat (get_field write_packed_write_offset_index bytes));
  let dst_addr := u32 (get_field write_packed_addr bytes + offset_) in
  _ ← check (xfer_size <=? dispatch_cb_page_size) TT_ASSERT;
  let data_ptr := round_up_pow2 (sizeof_CQDispatchCmd + count * sub_cmd_size) L1_ALIGNMENT in
  let stride := if Z.land flags CQ_DISPATCH_CMD_PACKED_WRITE_FLAG_NO_STRIDE =? 0
                then round_up_pow2 xfer_size L1_ALIGNMENT else 0 in
  _ ← check (negb (stride =? 0) || (data_ptr + xfer_size <=? dispatch_cb_page_size)) TT_ASSERT;
  write_packed_data mcast dst_addr xfer_size stride data_ptr
    (chunks (Z.to_nat sub_cmd_size) (Z.to_nat count) sub_cmds) bytes.

(** The destination is set again only after a write that unlinks. *)
Fixpoint write_packed_large_data (local_write_offset alignment : Z) (init_state : bool) (noc data_ptr : Z)
  (sub_cmds : list (list Z)) (bytes : list Z) : outcome (list dispatch_effect) :=
  match sub_cmds with
  | [] => Ok []
  | sub_cmd :: sub_cmds =>
    let dst_addr := u32 (le_value (take 4 (drop 4 sub_cmd)) + local_write_offset) in
    let length_ := le_value (take 2 (drop 8 sub_cmd)) in
    let num_dests := le_value (take 1 (drop 10 sub_cmd)) in
    let pad_size := u32 (align length_ alignment - length_) in
    let unlink := negb (Z.land (le_value (take 1 (drop 11 sub_cmd))) 1 =? 0) in
    let noc := if init_state then le_value (take 4 sub_cmd) else noc in
    data ← data_at data_ptr length_ bytes;
    l ← write_packed_large_data local_write_offset alignment unlink noc (data_ptr + length_ + pad_size) sub_cmds bytes;
    Ok (noc_multicast noc dst_addr num_dests data :: l)
  end.

Definition process_write_packed_large (write_offset : list Z) (bytes : list Z) : outcome (list dispatch_effect) :=
  let count := get_field write_packed_large_count bytes in
  let alignment := get_field write_packed_large_alignment bytes in
  local_write_offset ← at_ write_offset (Z.to_nat (get_field write_packed_large_write_offset_index bytes));
  sub_cmds ← data_at sizeof_CQDispatchCmd (count * 12) bytes;
  let data_ptr := round_up_pow2 (sizeof_CQDispatchCmd + count * 12) L1_ALIGNMENT in
  write_packed_large_data local_write_offset alignment true 0 data_ptr (chunks 12 (Z.to_nat count) sub_cmds) bytes.

(** *** The rest *)
Definition process_wait (bytes : list Z) : dispatch_effect :=
  let addr := get_field wait_addr bytes in
  wait_for (negb (get_field wait_barrier bytes =? 0))
    (if get_field wait_wait bytes =? 0 then None else Some (addr, get_field wait_count bytes))
    (if get_field wait_clear_count bytes =? 0 then None else Some addr)
    (negb (get_field wait_notify_prefetch bytes =? 0)).

Definition process_go_signal_mcast_cmd (bytes : list Z) : dispatch_effect :=
  let mcast_flag := get_field mcast_mcast_flag bytes in
  send_go_signal (negb (Z.land mcast_flag SEND_MCAST =? 0)) (negb (Z.land mcast_flag SEND_UNICAST =? 0))
    (get_field mcast_go_signal bytes) (get_field mcast_wait_count bytes) (get_field mcast_wait_addr bytes).

Definition process_set_unicast_only_cores (bytes : list Z) : outcome (list dispatch_effect) :=
  let num_unicast_cores := get_field set_unicast_only_cores_num bytes in
  data ← data_at sizeof_CQDispatchCmd (num_unicast_cores * 4) bytes;
  Ok [unicast_only_cores (le_value <$> chunks 4 (Z.to_nat num_unicast_cores) data)].

(** The effects, the write offsets after the command, and [done].  GO and SINK leave [cmd_ptr] where
    it is, so that the loop around runs the command again and again; DEBUG, which only a prefetcher test
    writes, is not among the commands here. *)
Definition process_cmd_d (write_offset : list Z) (bytes : list Z) : outcome (list dispatch_effect * list Z * bool) :=
  _ ← check (sizeof_CQDispatchCmd <=? Z.of_nat (length bytes)) UB;
  let id := get_field cmd_id bytes in
  let continue (o : outcome (list dispatch_effect)) := l ← o; Ok (l, write_offset, false) in
  if id =? CQ_DISPATCH_CMD_WRITE_LINEAR then continue (process_write write_offset bytes)
  else if id =? CQ_DISPATCH_CMD_WRITE_LINEAR_H then continue (process_write write_offset bytes)
  else if id =? CQ_DISPATCH_CMD_WRITE_LINEAR_H_HOST then continue (process_write_host_h bytes)
  else if id =? CQ_DISPATCH_CMD_WRITE_PAGED then continue (process_write_paged bytes)
  else if id =? CQ_DISPATCH_CMD_WRITE_PACKED then continue (process_write_packed write_offset bytes)
  else if id =? CQ_DISPATCH_NOTIFY_SLAVE_GO_SIGNAL then continue (Ok [notify_dispatch_s])
  else if id =? CQ_DISPATCH_CMD_WRITE_PACKED_LARGE then continue (process_write_packed_large write_offset bytes)
  else if id =? CQ_DISPATCH_CMD_WAIT then continue (Ok [process_wait bytes])
  else if (id =? CQ_DISPATCH_CMD_GO) || (id =? CQ_DISPATCH_CMD_SINK) then Err FUEL
  else if id =? CQ_DISPATCH_CMD_DELAY then continue (Ok [])
  else if id =? CQ_DISPATCH_CMD_EXEC_BUF_END then continue (Ok [exec_buf_ended])
  else if id =? CQ_DISPATCH_CMD_SEND_GO_SIGNAL then continue (Ok [process_go_signal_mcast_cmd bytes])
  else if id =? CQ_DISPATCH_SET_UNICAST_ONLY_CORES then continue (process_set_unicast_only_cores bytes)
  else if id =? CQ_DISPATCH_CMD_SET_WRITE_OFFSET then
    Ok ([], [get_field set_write_offset_offset0 bytes; get_field set_write_offset_offset1 bytes;
             get_field set_write_offset_offset2 bytes], false)
  else if id =? CQ_DISPATCH_CMD_TERMINATE then Ok ([], write_offset, true)
  else Err TT_ASSERT.

(** *** dispatch_s *)
Context (worker_sem_addr max_num_unicast_cores : Z) (distributed_dispatcher : bool).

Definition process_cmd_s (bytes : list Z) : outcome (list dispatch_effect * bool) :=
  _ ← check (sizeof_CQDispatchCmd <=? Z.of_nat (length bytes)) UB;
  let id := get_field cmd_id bytes in
  if id =? CQ_DISPATCH_CMD_SEND_GO_SIGNAL then Ok ([process_go_signal_mcast_cmd bytes], false)
  else if id =? CQ_DISPATCH_SET_UNICAST_ONLY_CORES then
    _ ← check (get_field set_unicast_only_cores_num bytes <=? max_num_unicast_cores) TT_ASSERT;
    l ← process_set_unicast_only_cores bytes; Ok (l, false)
  else if id =? CQ_DISPATCH_CMD_WAIT then
    _ ← check (negb (get_field wait_clear_count bytes =? 0) && (get_field wait_addr bytes =? worker_sem_addr)
               && distributed_dispatcher) TT_ASSERT;
    Ok ([wait_for false (Some (get_field wait_addr bytes, get_field wait_count bytes)) (Some worker_sem_addr) false], false)
  else if id =? CQ_DISPATCH_CMD_TERMINATE then Ok ([], true)
  else Err TT_ASSERT.
End dispatch.

(** * Executing what was fetched

    Prefetcher and dispatcher together: [execute] runs over the bytes of one fetch
    the way [kernel_main_hd] does, hands what each command relays to the
    dispatcher or to dispatch_s, and returns the effects in order.  A relay that
    is not flushed stays in front of the next data for the dispatcher, which
    together are one command there.  Data relayed from memory come from [read]. *)
Inductive event :=
| dispatched (e : dispatch_effect)
| dispatched_s (e : dispatch_effect)
| stalled
| exec_buf_started (base_addr log_page_size pages : Z)
| terminated (d : option DispatcherSelect).   (* [None]: the prefetcher *)

(** Compile-time arguments of the kernels. *)
Record device_args := mk_device_args {
  da_bare_min_size : Z;
  da_dram : bank_tables;
  da_l1 : bank_tables;
  da_max_unicast : Z;
  da_worker_sem : Z;
  da_max_unicast_cores : Z;
  da_distributed : bool
}.

(** The write offsets, and what a relay without flush left. *)
Record device_state := mk_device_state { ds_offsets : list Z; ds_pending : list Z }.

Section execute.
Context (D : device_args) (read : action → outcome (list Z)).

(** The dispatcher gets a command and its data. *)
Definition to_dispatcher (data : list Z) (s : device_state) : outcome (list event * device_state) :=
  '(l, o, done_) ← process_cmd_d (da_dram D) (da_l1 D) (da_max_unicast D) (ds_offsets s) (ds_pending s ++ data);
  Ok ((dispatched <$> l) ++ (if done_ : bool then [terminated (Some DISPATCH_MASTER)] else []), mk_device_state o []).

Definition to_dispatch_s (data : list Z) (s : device_state) : outcome (list event * device_state) :=
  '(l, done_) ← process_cmd_s (da_worker_sem D) (da_max_unicast_cores D) (da_distributed D) data;
  Ok ((dispatched_s <$> l) ++ (if done_ : bool then [terminated (Some DISPATCH_SLAVE)] else []), s).

Definition perform (a : action) (s : device_state) : outcome (list event * device_state) :=
  match a with
  | relay_inline DISPATCH_MASTER data => to_dispatcher data s
  | relay_inline DISPATCH_SLAVE data => to_dispatch_s data s
  | relay_inline_noflush data => Ok ([], mk_device_state (ds_offsets s) (ds_pending s ++ data))
  | relay_linear _ _ _ | relay_paged _ _ _ _ _ _ | relay_paged_packed _ _ => data ← read a; to_dispatcher data s
  | exec_buf base_addr log_page_size pages => Ok ([exec_buf_started base_addr log_page_size pages], s)
  | stall => Ok ([stalled], s)
  | debug_ => Ok ([], s)
  | terminate => Ok ([terminated None], s)
  end.

Fixpoint perform_all (l : list action) (s : device_state) : outcome (list event * device_state) :=
  match l with
  | [] => Ok ([], s)
  | a :: l =>
    '(e1, s) ← perform a s;
    '(e2, s) ← perform_all l s;
    Ok (e1 ++ e2, s)
  end.

Definition execute (bytes : list Z) (s : device_state) : outcome (list event * device_state) :=
  l ← process_fetched (da_bare_min_size D) bytes;
  perform_all l s.

(** ** Commands one after the other *)

(** [l] is one command with its payload, and [a] what it asks for. *)
Definition reads (l : list Z) (a : action) : Prop :=
  ∀ rest, process_cmd (da_bare_min_size D) (l ++ rest) = Ok (a, Z.of_nat (length l), false).

(** The bytes [l] ask for [acts]; [true] when the last of them ends the kernel. *)
Inductive reads_all : list Z → list action → Prop :=
| reads_nil : reads_all [] []
| reads_cons l a rest acts : reads l a → l ≠ [] → reads_all rest acts → reads_all (l ++ rest) (a :: acts)
| reads_last l : process_cmd (da_bare_min_size D) l = Ok (terminate, Z.of_nat (length l), true) → l ≠ [] →
    reads_all l [terminate].

Lemma process_cmds_reads l acts fuel :
  reads_all l acts → (length l <= fuel)%nat → process_cmds (da_bare_min_size D) fuel l = Ok acts.
Proof.
  intros Hl. revert fuel; induction Hl as [|l a rest acts Ha Hne _ IH|l Ha Hne]; intros fuel Hf; [by destruct fuel|..].
  - destruct fuel as [|fuel]; [destruct l; simpl in Hf; [done|lia]|]. pose proof (Ha rest) as Hread.
    destruct l as [|x l]; [done|]. cbn [process_cmds app] in *. rewrite Hread. cbn [mbind outcome_bind].
    rewrite (proj2 (Z.leb_le _ _)) by (cbn; rewrite length_app; lia). cbn [check mbind outcome_bind]. rewrite Nat2Z.id.
    change (x :: l ++ rest) with ((x :: l) ++ rest). rewrite drop_app_length, IH; [done|]. cbn in Hf. rewrite length_app in Hf. lia.
  - destruct fuel as [|fuel]; [destruct l; simpl in Hf; [done|lia]|]. destruct l as [|x l]; [done|].
    cbn [process_cmds]. by rewrite Ha.
Qed.

(** As many rounds as bytes are enough. *)
Lemma process_fetched_reads l acts : reads_all l acts → process_fetched (da_bare_min_size D) l = Ok acts.
Proof. intros. by apply process_cmds_reads. Qed.

Lemma reads_all_app l1 acts1 l2 acts2 :
  reads_all l1 acts1 → terminate ∉ acts1 → reads_all l2 acts2 → reads_all (l1 ++ l2) (acts1 ++ acts2).
Proof.
  intros H1 Hne H2. induction H1 as [|l a rest acts Ha Hl _ IH|l Ha Hl]; [done|..].
  - apply not_elem_of_cons in Hne as [_ Hne]. rewrite <- app_assoc. cbn. constructor; auto.
  - exfalso. apply Hne. by left.
Qed.

Lemma reads_one l a : reads l a → l ≠ [] → reads_all l [a].
Proof. intros. rewrite <- (app_nil_r l). by repeat constructor. Qed.

Lemma perform_all_app l1 l2 s e1 s1 :
  perform_all l1 s = Ok (e1, s1) →
  perform_all (l1 ++ l2) s = ('(e2, s2) ← perform_all l2 s1; Ok (e1 ++ e2, s2)).
Proof.
  revert s e1; induction l1 as [|a l1 IH]; intros s e1 H; cbn in *.
  - injection H as <- <-. by destruct (perform_all l2 s) as [[e2 s2]|].
  - destruct (perform a s) as [[ea sa]|]; cbn in *; [|done]. destruct (perform_all l1 sa) as [[eb sb]|] eqn:Hb; cbn in *; [|done].
    injection H as <- <-. rewrite (IH _ _ Hb). destruct (perform_all l2 sb) as [[e2 s2]|]; cbn; [|done]. by rewrite app_assoc.
Qed.

(** The bytes [l] are whole commands, none of which ends the prefetcher; executed in [s]
    they have the effects [e] and leave [s']. *)
Definition does (l : list Z) (s : device_state) (e : list event) (s' : device_state) : Prop :=
  ∃ acts, reads_all l acts ∧ terminate ∉ acts ∧ perform_all acts s = Ok (e, s').

Lemma does_nil s : does [] s [] s.
Proof. exists []. split; [constructor|]. split; [apply not_elem_of_nil|done]. Qed.

Lemma does_one l a s e s' :
  reads l a → l ≠ [] → a ≠ terminate → perform a s = Ok (e, s') → does l s e s'.
Proof.
  intros Hr Hl Ha Hp. exists [a]. split; [by apply reads_one|]. split; [by apply not_elem_of_cons, conj, not_elem_of_nil|].
  cbn. rewrite Hp. cbn. by rewrite app_nil_r.
Qed.

Lemma does_app l1 l2 s e1 s1 e2 s2 :
  does l1 s e1 s1 → does l2 s1 e2 s2 → does (l1 ++ l2) s (e1 ++ e2) s2.
Proof.
  intros (a1 & H1 & Ht1 & Hp1) (a2 & H2 & Ht2 & Hp2). exists (a1 ++ a2). split; [by apply reads_all_app|].
  split; [by rewrite not_elem_of_app|]. rewrite (perform_all_app _ _ _ _ _ Hp1), Hp2. done.
Qed.

Lemma does_execute l s e s' : does l s e s' → execute l s = Ok (e, s').
Proof. intros (a & Hr & _ & Hp). unfold execute. by rewrite (process_fetched_reads _ _ Hr). Qed.
End execute.
