(* ===== verification/DeviceCommandSpec.v ===== *)
(** * What the writes of a device command do

    [emits m n P]: the method [m], started at an aligned write offset with [n]
    bytes left, succeeds, appends [n] bytes that satisfy [P], and changes nothing
    else.  Inside of a method, the state is described by what was appended so far
    to the state [s0] it started in. *)
From S2P Require Import Prelude CommandQueue CommandQueueProps CommandQueueThms DeviceCommand DeviceExecution.
(** ** More on splices *)
Lemma lookup_splice_in o l r i :
  (o <= length r)%nat → (o <= i < o + length l)%nat → splice o l r !! i = l !! (i - o)%nat.
Proof.
  intros Ho Hi. unfold splice. rewrite lookup_app_r by (rewrite length_take; lia).
  rewrite length_take, Nat.min_l by lia. by rewrite lookup_app_l by lia.
Qed.

Lemma lookup_splice_out o l r i :
  (o + length l <= length r)%nat → (i < o ∨ o + length l <= i)%nat → splice o l r !! i = r !! i.
Proof.
  intros Hl [Hi|Hi]; unfold splice.
  - rewrite lookup_app_l by (rewrite length_take; lia). by rewrite lookup_take_lt.
  - rewrite app_assoc, lookup_app_r by (rewrite length_app, length_take; lia).
    rewrite length_app, length_take, lookup_drop. f_equal. lia.
Qed.

Lemma splice_app o l1 l2 r :
  (o + length l1 + length l2 <= length r)%nat → splice (o + length l1) l2 (splice o l1 r) = splice o (l1 ++ l2) r.
Proof.
  intros Hl. apply list_eq. intros i.
  assert (Hl1 : length (splice o l1 r) = length r) by (apply length_splice; lia).
  destruct (decide (o <= i < o + length l1)%nat) as [Hi|Hi].
  - rewrite lookup_splice_out, lookup_splice_in, lookup_splice_in by (rewrite ?length_app; lia).
    by rewrite lookup_app_l by lia.
  - destruct (decide (o + length l1 <= i < o + length l1 + length l2)%nat) as [Hi'|Hi'].
    + rewrite lookup_splice_in, lookup_splice_in by (rewrite ?length_app; lia).
      rewrite lookup_app_r by lia. f_equal. lia.
    + by rewrite !lookup_splice_out by (rewrite ?length_app; lia).
Qed.

(** A splice inside of another. *)
Lemma splice_within o k l' l r :
  (o + length l <= length r)%nat → (k + length l' <= length l)%nat →
  splice (o + k) l' (splice o l r) = splice o (splice k l' l) r.
Proof.
  intros Hl Hk. apply list_eq. intros i. pose proof (length_splice o l r Hl) as Hs.
  pose proof (length_splice k l' l Hk) as Hs'.
  destruct (decide (o <= i < o + length l)%nat) as [Hi|Hi].
  - rewrite (lookup_splice_in o (splice k l' l)) by lia.
    destruct (decide (o + k <= i < o + k + length l')%nat) as [Hi'|Hi'].
    + rewrite !lookup_splice_in by lia. f_equal. lia.
    + rewrite (lookup_splice_out (o + k)), (lookup_splice_out k), (lookup_splice_in o l) by lia. done.
  - rewrite !lookup_splice_out by lia. done.
Qed.

Lemma splice_app_r l k x w : splice (length l + k) x (l ++ w) = l ++ splice k x w.
Proof.
  unfold splice. rewrite take_app_add, <- app_assoc, <- Nat.add_assoc. by rewrite drop_app_add.
Qed.

(** Writing back what is there. *)
Lemma splice_same o n r : (o + n <= length r)%nat → splice o (take n (drop o r)) r = r.
Proof.
  intros Hn. apply list_eq. intros i.
  assert (Hl : length (take n (drop o r)) = n) by (rewrite length_take, length_drop; lia).
  destruct (decide (o <= i < o + n)%nat) as [Hi|Hi].
  - rewrite lookup_splice_in, lookup_take_lt, lookup_drop by lia. f_equal. lia.
  - by rewrite lookup_splice_out by lia.
Qed.

(** ** The environment and the state *)
Record env_ok (E : cmd_env) : Prop := mk_env_ok {
  eo_host : host_aligned (host_alignment (env_hal E));
  eo_l1 : l1_alignment (env_hal E) = 16;
  eo_uninitialised : ∀ o, length (uninitialised E o) = 16%nat
}.

Section spec.
Context (E : cmd_env) (HE : env_ok E).
Abbreviation pa := (host_alignment (env_hal E)).

(** The sequence is in the region, and room is left for the rounding of an offset. *)
Record cmd_ok (s : DeviceCommand) : Prop := mk_cmd_ok {
  do_region : Z.of_nat (length (cmd_region s)) = cmd_sequence_sizeB s;
  do_offset : 0 <= cmd_write_offsetB s <= cmd_sequence_sizeB s;
  do_size : cmd_sequence_sizeB s + 64 < 2 ^ 32;
  do_addr : hugepage_write E = true → cmd_region_addr s mod pa = 0
}.

Lemma pa_spec : pa mod 32 = 0 ∧ 32 <= pa <= 64 ∧ pa mod 16 = 0.
Proof. destruct (eo_host E HE) as [->| ->]; done. Qed.

(** [align] on numbers that are not too large *)
Definition round_up (x : Z) : Z := (x + pa - 1) / pa * pa.

Lemma align_pa x : 0 <= x → x + 64 <= 2 ^ 32 → align x pa = round_up x.
Proof.
  intros Hx Hfit. unfold round_up. destruct (eo_host E HE) as [->| ->].
  - change 32 with (2 ^ 5) at 1. rewrite align_spec by (change (2 ^ 5) with 32; lia). done.
  - change 64 with (2 ^ 6) at 1. rewrite align_spec by (change (2 ^ 6) with 64; lia). done.
Qed.

Lemma round_up_bounds x : 0 <= x → x <= round_up x < x + pa ∧ round_up x mod pa = 0.
Proof.
  intros Hx. pose proof pa_spec. unfold round_up. rewrite Z.mod_mul by lia. split; [|done].
  Z.to_euclidean_division_equations. nia.
Qed.

Lemma round_up_multiple x : x mod pa = 0 → round_up x = x.
Proof.
  intros Hx. pose proof pa_spec. unfold round_up. rewrite (Z.div_mod x pa) at 1 by lia. rewrite Hx.
  replace (pa * (x / pa) + 0 + pa - 1) with (pa - 1 + x / pa * pa) by lia. rewrite Z.div_add by lia.
  rewrite Z.div_small by lia. pose proof (Z.div_mod x pa ltac:(lia)). lia.
Qed.

Lemma align_l1 x : 0 <= x → x + 64 <= 2 ^ 32 → align x (l1_alignment (env_hal E)) = (x + 15) / 16 * 16.
Proof.
  intros Hx Hfit. rewrite (eo_l1 E HE). change 16 with (2 ^ 4) at 1. rewrite align_spec by (change (2 ^ 4) with 16; lia).
  change (2 ^ 4) with 16. do 2 f_equal. lia.
Qed.

(** ** Writes *)
Lemma poke_spec dst l s :
  0 <= dst → dst + Z.of_nat (length l) <= Z.of_nat (length (cmd_region s)) →
  poke dst l s = (Ok tt, with_region (splice (Z.to_nat dst) l (cmd_region s)) s).
Proof.
  intros Hd Hl. unfold poke. rewrite run_get, run_check; [done|].
  by rewrite (proj2 (Z.leb_le _ _)), (proj2 (Z.leb_le _ _)) by lia.
Qed.

(** What a write asks of its source and destination. *)
Record copy_ok (s : DeviceCommand) (dst : Z) (src : list Z) (n : Z) : Prop := mk_copy_ok {
  co_source : 0 <= n <= Z.of_nat (length src);
  co_dest : 0 <= dst ∧ dst + n <= Z.of_nat (length (cmd_region s));
  co_hugepage : hugepage_write E = true →
    n mod 4 = 0 ∧ ((cmd_region_addr s + dst) mod 32 = 0 ∨ ((cmd_region_addr s + dst) mod 16 = 0 ∧ n < 32))
}.

Lemma region_read (m : mem) s dst l :
  0 <= dst → dst + Z.of_nat (length l) <= Z.of_nat (length (cmd_region s)) →
  mem_eq m (mem_write (region_mem s) (cmd_region_addr s + dst) l) →
  mem_read m (cmd_region_addr s) (Z.of_nat (length (cmd_region s))) = splice (Z.to_nat dst) l (cmd_region s).
Proof.
  intros Hd Hl Hm. apply list_eq. intros i.
  assert (Hs : length (splice (Z.to_nat dst) l (cmd_region s)) = length (cmd_region s)) by (apply length_splice; lia).
  destruct (Nat.lt_ge_cases i (length (cmd_region s))) as [Hi|Hi].
  2:{ rewrite (proj2 (lookup_ge_None _ _)), (proj2 (lookup_ge_None _ _)); [done|lia|rewrite length_mem_read; lia]. }
  rewrite mem_read_lookup by lia. rewrite Hm.
  destruct (decide (Z.to_nat dst <= i < Z.to_nat dst + length l)%nat) as [Hin|Hout].
  - rewrite mem_write_inside by lia. rewrite lookup_splice_in by lia.
    replace (Z.to_nat _) with (i - Z.to_nat dst)%nat by lia.
    destruct (lookup_lt_is_Some_2 l (i - Z.to_nat dst)) as [x Hx]; [lia|]. rewrite Hx. f_equal. by apply nth_lookup_Some.
  - rewrite mem_write_outside by lia. rewrite lookup_splice_out by lia. unfold region_mem.
    replace (Z.to_nat _) with i by lia. destruct (lookup_lt_is_Some_2 (cmd_region s) i Hi) as [x Hx]. rewrite Hx.
    f_equal. by apply nth_lookup_Some.
Qed.

Lemma memcpy_ok dst src n s :
  copy_ok s dst src n →
  memcpy E dst src n s = (Ok tt, with_region (splice (Z.to_nat dst) (take (Z.to_nat n) src) (cmd_region s)) s).
Proof.
  intros [Hsrc [Hd Hdn] Hhp]. unfold memcpy. rewrite run_check.
  2:{ by rewrite (proj2 (Z.leb_le _ _)), (proj2 (Z.leb_le _ _)) by lia. }
  destruct (hugepage_write E) eqn:Hh; [|apply poke_spec; rewrite ?length_take; lia].
  destruct (Hhp eq_refl) as [Hn4 Hal]. rewrite run_get, run_check.
  2:{ by rewrite (proj2 (Z.leb_le _ _)), (proj2 (Z.leb_le _ _)) by lia. }
  destruct (memcpy_spec (cmd_region_addr s + dst) src n (region_mem s)) as (m' & Hm & Heq); [done|done|lia|].
  rewrite (run_lift _ m') by done. unfold put_st. repeat f_equal.
  apply region_read; [lia|rewrite length_take; lia|]. unfold bytes_from in Heq. by rewrite drop_0 in Heq.
Qed.

(** ** Appending *)
Definition emit (l : list Z) (s : DeviceCommand) : DeviceCommand :=
  mk_device_command (cmd_sequence_sizeB s) (cmd_region_addr s)
    (splice (Z.to_nat (cmd_write_offsetB s)) l (cmd_region s)) (cmd_write_offsetB s + Z.of_nat (length l)).

Lemma emit_ok l s :
  cmd_ok s → cmd_write_offsetB s + Z.of_nat (length l) <= cmd_sequence_sizeB s → cmd_ok (emit l s).
Proof.
  intros [H1 H2 H3 H4] Hl. split; cbn; [|lia|done|done]. rewrite length_splice by lia. done.
Qed.

Lemma emit_nil s : cmd_ok s → emit [] s = s.
Proof.
  intros [H1 H2 _ _]. unfold emit. destruct s as [z a r o]. cbn in *. f_equal; [|lia].
  unfold splice. cbn. rewrite Nat.add_0_r. apply take_drop.
Qed.

Lemma emit_app l1 l2 s :
  cmd_ok s → cmd_write_offsetB s + Z.of_nat (length l1) + Z.of_nat (length l2) <= cmd_sequence_sizeB s →
  emit l2 (emit l1 s) = emit (l1 ++ l2) s.
Proof.
  intros [H1 H2 _ _] Hl. unfold emit. cbn. f_equal; [|rewrite length_app; lia].
  replace (Z.to_nat (cmd_write_offsetB s + _)) with (Z.to_nat (cmd_write_offsetB s) + length l1)%nat by lia.
  apply splice_app. lia.
Qed.

(** ** Running a method from [emit l s0] *)
Section from.
Context (s0 : DeviceCommand) (Hs0 : cmd_ok s0).

Definition fits (l : list Z) : Prop := cmd_write_offsetB s0 + Z.of_nat (length l) <= cmd_sequence_sizeB s0.

(** The write of [n] bytes at byte [k] of what was appended is one [memcpy_to_device] can do. *)
Definition streamable (k n : Z) : Prop := hugepage_write E = true →
  n mod 4 = 0 ∧ ((cmd_write_offsetB s0 + k) mod 32 = 0 ∨ ((cmd_write_offsetB s0 + k) mod 16 = 0 ∧ n < 32)).

Lemma memcpy_emit l k src n :
  fits l → 0 <= k → k + n <= Z.of_nat (length l) → 0 <= n <= Z.of_nat (length src) → streamable k n →
  memcpy E (cmd_write_offsetB s0 + k) src n (emit l s0)
  = (Ok tt, emit (splice (Z.to_nat k) (take (Z.to_nat n) src) l) s0).
Proof.
  intros Hl Hk Hkn Hn Hst. destruct Hs0 as [H1 H2 H3 H4]. unfold fits in Hl. rewrite memcpy_ok.
  - unfold emit, with_region. cbn. do 2 f_equal; [|rewrite length_splice; rewrite ?length_take; lia].
    rewrite Z2Nat.inj_add by lia. apply splice_within; rewrite ?length_take; lia.
  - split; cbn; [lia|rewrite length_splice by lia; lia|]. intros Hh. destruct (Hst Hh) as [? Hal]. split; [done|].
    pose proof pa_spec as (Hp & Hp2 & _). specialize (H4 Hh).
    assert (Ha : cmd_region_addr s0 mod 32 = 0) by (destruct (eo_host E HE) as [Hq|Hq]; rewrite Hq in H4; Z.to_euclidean_division_equations; lia).
    destruct Hal as [Hal|[Hal ?]]; [left|right; split; [|done]]; Z.to_euclidean_division_equations; lia.
Qed.

(** Appended zeros or what the region held. *)
Lemma reserve_emit data l n :
  fits l → (data = false → 16 <= n) → 0 <= n →
  cmd_write_offsetB s0 + Z.of_nat (length l) + n <= cmd_sequence_sizeB s0 →
  (data = false → streamable (Z.of_nat (length l)) 16) →
  ∃ z, Z.of_nat (length z) = n
    ∧ reserve_space E data n (emit l s0) = (Ok (cmd_write_offsetB s0 + Z.of_nat (length l)), emit (l ++ z) s0).
Proof.
  intros Hl Hn16 Hn Hfit Hst. pose proof Hs0 as [H1 H2 H3 H4]. unfold fits in Hl. set (o := cmd_write_offsetB s0 + Z.of_nat (length l)).
  assert (Hval : validate_cmd_write n (emit l s0) = (Ok tt, emit l s0)).
  { unfold validate_cmd_write. rewrite run_get. unfold check_st. cbn. rewrite u32_small by lia.
    by rewrite (proj2 (Z.leb_le _ _)) by lia. }
  unfold reserve_space. rewrite (ST_bind_ok _ _ _ _ _ Hval), run_get. cbn [cmd_write_offsetB emit].
  set (w := take (Z.to_nat n) (drop (Z.to_nat o) (cmd_region (emit l s0)))).
  assert (Hw : Z.of_nat (length w) = n).
  { unfold w. rewrite length_take, length_drop. cbn. rewrite length_splice by lia. lia. }
  assert (Hskip : with_offset (o + n) (emit l s0) = emit (l ++ w) s0).
  { rewrite <- emit_app by (done || lia). transitivity (mk_device_command (cmd_sequence_sizeB s0) (cmd_region_addr s0)
      (splice (Z.to_nat o) w (cmd_region (emit l s0))) (o + Z.of_nat (length w))); [|done].
    unfold with_offset. rewrite Hw. cbn [cmd_sequence_sizeB cmd_region_addr emit]. f_equal. symmetry. unfold w.
    apply splice_same. cbn. rewrite length_splice by lia. lia. }
  destruct (negb data && zero_init_enable E) eqn:Hz.
  - apply andb_true_iff in Hz as [Hd%negb_true_iff _]. specialize (Hn16 Hd). specialize (Hst Hd).
    exists (splice 0 (replicate 16 0) w). split; [by rewrite length_splice by (cbn; lia)|].
    assert (Hzero : zero E o (emit l s0) = (Ok tt, with_region (splice (Z.to_nat o) (replicate 16 0) (cmd_region (emit l s0))) (emit l s0))).
    { unfold zero. rewrite memcpy_ok; [done|]. split; cbn; [lia|rewrite length_splice by lia; lia|].
      intros Hh. destruct (Hst Hh) as [? Hal]. split; [done|]. specialize (H4 Hh).
      assert (Ha : cmd_region_addr s0 mod 16 = 0) by (destruct (eo_host E HE) as [Hq|Hq]; rewrite Hq in H4; Z.to_euclidean_division_equations; lia).
      right. split; [|lia]. destruct Hal as [Hal|[Hal _]]; unfold o; Z.to_euclidean_division_equations; lia. }
    rewrite (ST_bind_ok _ _ _ _ _ Hzero), run_modify_st. unfold mret, ST_ret. f_equal. cbn [cmd_write_offsetB with_region emit].
    fold o. rewrite u32_small by lia. transitivity (with_region (splice (Z.to_nat o) (replicate 16 0) (cmd_region (emit (l ++ w) s0))) (emit (l ++ w) s0)).
    { rewrite <- Hskip. done. }
    unfold with_region, emit. cbn. f_equal; [|by rewrite !length_app, length_splice by (cbn; lia)].
    unfold o. rewrite Z2Nat.inj_add, Nat2Z.id by lia. rewrite splice_within; [|rewrite length_app; lia|rewrite length_app; cbn; lia].
    f_equal. rewrite <- splice_app_r. by rewrite Nat.add_0_r.
  - exists w. split; [done|]. rewrite (ST_bind_ok (mret tt) _ _ tt (emit l s0)) by done. rewrite run_modify_st. unfold mret, ST_ret. f_equal.
    cbn [cmd_write_offsetB emit]. fold o. rewrite u32_small by lia. done.
Qed.

(** The command at byte [k]: what [f] makes of sixteen unspecified bytes. *)
Definition keeps_size (f : list Z → list Z) : Prop := ∀ c, length c = 16%nat → length (f c) = 16%nat.

Lemma init_emit l k f :
  fits l → 0 <= k → k + 16 <= Z.of_nat (length l) → keeps_size f → streamable k 16 →
  ∃ c, length c = 16%nat
    ∧ init_cmd E (cmd_write_offsetB s0 + k) f (emit l s0) = (Ok tt, emit (splice (Z.to_nat k) (f c) l) s0).
Proof.
  intros Hl Hk Hkl Hf Hst. pose proof Hs0 as [H1 H2 H3 H4]. unfold init_cmd. destruct (hugepage_write E) eqn:Hh.
  - pose proof (eo_uninitialised E HE (cmd_write_offsetB s0 + k)) as Hu. eexists. split; [exact Hu|].
    change sizeof_CQPrefetchCmd with 16. rewrite memcpy_emit; try done; [|rewrite Hf by done; lia].
    rewrite take_ge by (rewrite Hf by done; done). done.
  - set (c := take 16 (drop (Z.to_nat (cmd_write_offsetB s0 + k)) (cmd_region (emit l s0)))). unfold fits in Hl.
    assert (Hc : length c = 16%nat).
    { unfold c. rewrite length_take, length_drop. cbn [cmd_region emit]. rewrite length_splice by lia. lia. }
    exists c. split; [done|]. rewrite run_get. fold c. rewrite poke_spec.
    + unfold emit, with_region. cbn. do 2 f_equal; [|rewrite length_splice by (rewrite Hf; lia); lia].
      rewrite Z2Nat.inj_add by lia. apply splice_within; rewrite ?Hf by done; lia.
    + lia.
    + cbn. rewrite length_splice, Hf by (done || lia). lia.
Qed.

Lemma align_emit l :
  fits l → cmd_write_offsetB s0 mod pa = 0 →
  cmd_write_offsetB s0 + round_up (Z.of_nat (length l)) <= cmd_sequence_sizeB s0 →
  ∃ z, Z.of_nat (length (l ++ z)) = round_up (Z.of_nat (length l))
    ∧ align_offset E (emit l s0) = (Ok tt, emit (l ++ z) s0).
Proof.
  intros Hl Hm Hfit. pose proof Hs0 as [H1 H2 H3 H4]. pose proof pa_spec. unfold fits in Hl.
  pose proof (round_up_bounds (Z.of_nat (length l)) ltac:(lia)) as [Hr _].
  set (o := cmd_write_offsetB s0 + Z.of_nat (length l)). set (n := round_up (Z.of_nat (length l)) - Z.of_nat (length l)).
  set (w := take (Z.to_nat n) (drop (Z.to_nat o) (cmd_region (emit l s0)))).
  assert (Hw : Z.of_nat (length w) = n).
  { unfold w. rewrite length_take, length_drop. cbn. rewrite length_splice by lia. lia. }
  exists w. split; [rewrite length_app; lia|]. unfold align_offset, modify_st. f_equal.
  rewrite <- emit_app by (done || lia). cbn [cmd_write_offsetB emit]. fold o. rewrite align_pa by lia.
  assert (Hround : round_up o = o + n).
  { unfold o, n, round_up. rewrite (Z.div_mod (cmd_write_offsetB s0) pa), Hm by lia.
    replace (pa * (cmd_write_offsetB s0 / pa) + 0 + Z.of_nat (length l) + pa - 1)
      with (Z.of_nat (length l) + pa - 1 + cmd_write_offsetB s0 / pa * pa) by lia. rewrite Z.div_add by lia. lia. }
  rewrite Hround. transitivity (mk_device_command (cmd_sequence_sizeB s0) (cmd_region_addr s0)
      (splice (Z.to_nat o) w (cmd_region (emit l s0))) (o + Z.of_nat (length w))); [|done].
  unfold with_offset. rewrite Hw. cbn [cmd_sequence_sizeB cmd_region_addr emit]. f_equal. symmetry. unfold w.
  apply splice_same. cbn. rewrite length_splice by lia. lia.
Qed.

Lemma add_data_emit l data n inc :
  fits l → 0 <= n <= inc → n <= Z.of_nat (length data) →
  cmd_write_offsetB s0 + Z.of_nat (length l) + inc <= cmd_sequence_sizeB s0 → streamable (Z.of_nat (length l)) n →
  ∃ z, Z.of_nat (length z) = inc - n
    ∧ add_data E data n inc (emit l s0) = (Ok tt, emit (l ++ take (Z.to_nat n) data ++ z) s0).
Proof.
  intros Hl Hn Hd Hfit Hst. pose proof Hs0 as [H1 H2 H3 H4]. unfold fits in Hl.
  destruct (reserve_emit true l inc) as (w & Hw & Hres); [done|done|lia|lia|done|].
  (* reserving the space and copying into it is the same as [add_data] *)
  set (o := cmd_write_offsetB s0 + Z.of_nat (length l)) in *.
  assert (Hval : validate_cmd_write inc (emit l s0) = (Ok tt, emit l s0)).
  { unfold validate_cmd_write. rewrite run_get. unfold check_st. cbn. rewrite u32_small by lia.
    by rewrite (proj2 (Z.leb_le _ _)) by lia. }
  unfold reserve_space in Hres. rewrite (ST_bind_ok _ _ _ _ _ Hval), run_get in Hres.
  cbn [negb andb] in Hres. rewrite (ST_bind_ok (mret tt) _ _ tt (emit l s0)), run_modify_st in Hres by done.
  assert (Hskip : with_offset (u32 (o + inc)) (emit l s0) = emit (l ++ w) s0) by exact (f_equal snd Hres). clear Hres.
  unfold add_data. rewrite (ST_bind_ok _ _ _ _ _ Hval), run_get.
  assert (Hcopy : memcpy E o data n (emit l s0)
    = (Ok tt, with_region (splice (Z.to_nat o) (take (Z.to_nat n) data) (cmd_region (emit l s0))) (emit l s0))).
  { apply memcpy_ok. split; cbn; [lia|rewrite length_splice by lia; lia|]. intros Hh. destruct (Hst Hh) as [? Hal].
    split; [done|]. specialize (H4 Hh). fold o in Hal.
    assert (Ha : cmd_region_addr s0 mod 32 = 0)
      by (destruct (eo_host E HE) as [Hq|Hq]; rewrite Hq in H4; Z.to_euclidean_division_equations; lia).
    destruct Hal as [Hal|[Hal ?]]; [left|right; split; [|done]]; Z.to_euclidean_division_equations; lia. }
  rewrite (ST_bind_ok _ _ _ _ _ Hcopy). unfold modify_st.
  exists (drop (Z.to_nat n) w). split; [rewrite length_drop; lia|]. f_equal.
  transitivity (with_region (splice (Z.to_nat o) (take (Z.to_nat n) data) (cmd_region (emit (l ++ w) s0))) (emit (l ++ w) s0)).
  { rewrite <- Hskip. done. }
  assert (Ht : length (take (Z.to_nat n) data) = Z.to_nat n) by (rewrite length_take; lia).
  assert (Hsp : splice (Z.to_nat o) (take (Z.to_nat n) data) (cmd_region (emit (l ++ w) s0))
    = splice (Z.to_nat (cmd_write_offsetB s0)) (l ++ take (Z.to_nat n) data ++ drop (Z.to_nat n) w) (cmd_region s0)).
  { unfold o. cbn. rewrite Z2Nat.inj_add, Nat2Z.id by lia. rewrite splice_within by (rewrite length_app; lia). f_equal.
    rewrite <- (Nat.add_0_r (length l)), splice_app_r. unfold splice. by rewrite Ht. }
  unfold with_region. rewrite Hsp. unfold emit. cbn. f_equal. rewrite !length_app, length_drop. lia.
Qed.
End from.

(** ** Whole methods *)
Definition emits (m : ST DeviceCommand unit) (n : Z) (P : list Z → Prop) : Prop :=
  ∀ s, cmd_ok s → cmd_write_offsetB s mod pa = 0 → cmd_write_offsetB s + n <= cmd_sequence_sizeB s →
  ∃ l, Z.of_nat (length l) = n ∧ P l ∧ m s = (Ok tt, emit l s).

Lemma emits_from m n P :
  (∀ s, cmd_ok s → cmd_write_offsetB s mod pa = 0 → cmd_write_offsetB s + n <= cmd_sequence_sizeB s →
   ∃ l, Z.of_nat (length l) = n ∧ P l ∧ m (emit [] s) = (Ok tt, emit l s)) →
  emits m n P.
Proof.
  intros H s Hs Ho Hfit. destruct (H s Hs Ho Hfit) as (l & Hl & HP & Hrun). exists l.
  rewrite emit_nil in Hrun by done. done.
Qed.

Lemma emits_seq m1 n1 P1 m2 n2 P2 :
  emits m1 n1 P1 → emits m2 n2 P2 → n1 mod pa = 0 → 0 <= n2 →
  emits (_ ← m1; m2) (n1 + n2) (λ l, ∃ l1 l2, l = l1 ++ l2 ∧ Z.of_nat (length l1) = n1 ∧ P1 l1 ∧ P2 l2).
Proof.
  intros H1 H2 Hn1 Hn s Hs Hr Hfit. pose proof pa_spec. destruct (H1 s Hs Hr) as (l1 & Hl1 & HP1 & Hrun1); [lia|].
  destruct (H2 (emit l1 s)) as (l2 & Hl2 & HP2 & Hrun2).
  - apply emit_ok; [done|lia].
  - cbn. rewrite Hl1, Z.add_mod, Hr, Hn1 by lia. by rewrite Z.mod_0_l by lia.
  - cbn. lia.
  - exists (l1 ++ l2). split; [rewrite length_app; lia|]. split; [by exists l1, l2|].
    rewrite (ST_bind_ok _ _ _ _ _ Hrun1), Hrun2, emit_app by (done || lia). done.
Qed.

Lemma emits_mono m n (P Q : list Z → Prop) :
  (∀ l, Z.of_nat (length l) = n → P l → Q l) → emits m n P → emits m n Q.
Proof. intros HPQ Hm s Hs Hr Hfit. destruct (Hm s Hs Hr Hfit) as (l & ? & ? & ?). exists l. auto. Qed.

(** The same for data: a method that runs [k] bytes after the aligned offset. *)
Definition appends (k : Z) (m : ST DeviceCommand unit) (n : Z) (P : list Z → Prop) : Prop :=
  ∀ s l, cmd_ok s → cmd_write_offsetB s mod pa = 0 → Z.of_nat (length l) = k →
  cmd_write_offsetB s + k + n <= cmd_sequence_sizeB s →
  ∃ p, Z.of_nat (length p) = n ∧ P p ∧ m (emit l s) = (Ok tt, emit (l ++ p) s).

Lemma appends_seq k m1 n1 P1 m2 n2 P2 :
  appends k m1 n1 P1 → appends (k + n1) m2 n2 P2 → 0 <= n2 →
  appends k (_ ← m1; m2) (n1 + n2) (λ p, ∃ p1 p2, p = p1 ++ p2 ∧ Z.of_nat (length p1) = n1 ∧ P1 p1 ∧ P2 p2).
Proof.
  intros H1 H2 Hn s l Hs Ho Hl Hfit. destruct (H1 s l Hs Ho Hl) as (p1 & Hp1 & HP1 & Hrun1); [lia|].
  destruct (H2 s (l ++ p1) Hs Ho) as (p2 & Hp2 & HP2 & Hrun2); [rewrite length_app; lia|lia|].
  exists (p1 ++ p2). split; [rewrite length_app; lia|]. split; [by exists p1, p2|].
  rewrite (ST_bind_ok _ _ _ _ _ Hrun1), Hrun2. by rewrite app_assoc.
Qed.

Lemma appends_mono k m n (P Q : list Z → Prop) :
  (∀ l, Z.of_nat (length l) = n → P l → Q l) → appends k m n P → appends k m n Q.
Proof. intros HPQ Hm s l Hs Ho Hl Hfit. destruct (Hm s l Hs Ho Hl Hfit) as (p & ? & ? & ?). exists p. auto. Qed.

Lemma appends_ext k m m' n P : (∀ s, m s = m' s) → appends k m n P → appends k m' n P.
Proof. intros He Hm s l Hs Ho Hl Hfit. rewrite <- He. by apply Hm. Qed.
Lemma emits_ext m m' n P : (∀ s, m s = m' s) → emits m n P → emits m' n P.
Proof. intros He Hm s Hs Ho Hfit. rewrite <- He. by apply Hm. Qed.

Lemma appends_skip k : appends k (mret tt) 0 (λ p, p = []).
Proof. intros s l Hs _ _ _. exists []. by rewrite app_nil_r. Qed.

(** Data start at multiples of 32, as [memcpy_to_device] asks, or are short. *)
Lemma add_data_appends k data n inc :
  k mod 32 = 0 ∨ (k mod 16 = 0 ∧ n < 32) → n mod 4 = 0 → 0 <= n <= inc → n <= Z.of_nat (length data) →
  appends k (add_data E data n inc) inc (λ p, take (Z.to_nat n) p = take (Z.to_nat n) data).
Proof.
  intros Hk Hn4 Hn Hd s l Hs Ho Hl Hfit. destruct (add_data_emit s Hs l data n inc) as (z & Hz & Hrun); try (done || lia).
  - unfold fits. lia.
  - intros _. split; [done|]. pose proof pa_spec as (Hp & _).
    assert (Ho32 : cmd_write_offsetB s mod 32 = 0)
      by (destruct (eo_host E HE) as [Hq|Hq]; rewrite Hq in Ho; Z.to_euclidean_division_equations; lia).
    rewrite Hl. destruct Hk as [Hk|[Hk ?]]; [left|right; split; [|done]]; Z.to_euclidean_division_equations; lia.
  - assert (Ht : length (take (Z.to_nat n) data) = Z.to_nat n) by (rewrite length_take; lia).
    eexists. split; [|split; [|exact Hrun]]; [rewrite length_app; lia|]. rewrite take_app_length' by lia. done.
Qed.

Lemma align_appends k : 0 <= k → appends k (align_offset E) (round_up k - k) (λ _, True).
Proof.
  intros Hk s l Hs Ho Hl Hfit. pose proof (round_up_bounds k Hk).
  destruct (align_emit s Hs l) as (z & Hz & Hrun); [unfold fits; lia|done|rewrite Hl; lia|].
  exists z. rewrite length_app in Hz. rewrite Hl in Hz. split; [lia|]. done.
Qed.

Lemma emits_skip : emits (mret tt) 0 (λ l, l = []).
Proof. intros s Hs _ _. exists []. rewrite emit_nil by done. done. Qed.
End spec.

(** * What each method of a device command appends

    For every command the methods can add: that it is added when there is room, how
    many bytes it takes, and that prefetcher and dispatcher read it as the command
    that was asked for. *)
(** Evaluate what a member holds. *)
Ltac field_values :=
  repeat match goal with
  | |- context [get_field ?g (set_fields ?l ?c ++ ?rest)] =>
    rewrite (read_field g l c rest) by (assumption || reflexivity)
  end;
  repeat match goal with
  | |- context [get_field ?g (set_fields ?l ?c)] =>
    rewrite (get_set_fields g l c) by (assumption || reflexivity)
  end;
  repeat match goal with
  | |- context [assigned ?g ?l ?d] => let x := eval cbn in (assigned g l d) in change (assigned g l d) with x
  end.

(** Follow a test on a known identifier. *)
Ltac select_id :=
  repeat match goal with
  | |- context [if u8 ?a =? ?b then _ else _] =>
    let v := eval vm_compute in (u8 a =? b) in
    match v with true => idtac | false => idtac end; change (u8 a =? b) with v; cbv iota
  end.

(** ** Reading a command with its payload *)
Section reading.
Context (D : device_args).

(** The assignments of [add_prefetch_relay_inline]. *)
Definition relay_header (flush : bool) (len : Z) (d : DispatcherSelect) (stride : Z) : list Z → list Z :=
  set_fields
    [(cmd_id, if flush then CQ_PREFETCH_CMD_RELAY_INLINE else CQ_PREFETCH_CMD_RELAY_INLINE_NOFLUSH);
     (relay_inline_dispatcher_type, dispatcher_value d);
     (relay_inline_length, len);
     (relay_inline_stride, stride)].

Lemma enough_bytes (l rest : list Z) : (16 <= length l)%nat → (16 <=? Z.of_nat (length (l ++ rest))) = true.
Proof. intros. apply Z.leb_le. rewrite length_app. lia. Qed.

Lemma inline_data_app len (h p rest : list Z) :
  length h = 16%nat → 0 <= len <= Z.of_nat (length p) →
  inline_data len (h ++ p ++ rest) = Ok (take (Z.to_nat len) p).
Proof.
  intros Hh Hl. unfold inline_data. change sizeof_CQPrefetchCmd with 16.
  rewrite (proj2 (Z.leb_le _ _)) by (rewrite !length_app; lia). cbn [check mbind outcome_bind].
  f_equal. rewrite drop_app_length' by (rewrite Hh; done). by rewrite take_app_le by lia.
Qed.

Lemma length_relay_header flush len d stride c :
  length c = 16%nat → length (relay_header flush len d stride c) = 16%nat.
Proof. intros. by apply length_set_fields. Qed.

(** A relayed payload [p], padding included. *)
Lemma relay_reads flush len d c p :
  length c = 16%nat → 0 <= len <= Z.of_nat (length p) → Z.of_nat (length p) + 16 < 2 ^ 32 →
  (flush = false → d = DISPATCH_MASTER) →
  reads D (relay_header flush len d (16 + Z.of_nat (length p)) c ++ p)
    (if flush then relay_inline d (take (Z.to_nat len) p) else relay_inline_noflush (take (Z.to_nat len) p)).
Proof.
  intros Hc Hlen Hp Hd rest. pose proof (length_relay_header flush len d (16 + Z.of_nat (length p)) c Hc) as Hh.
  unfold process_cmd. change sizeof_CQPrefetchCmd with 16. rewrite enough_bytes by (rewrite length_app; lia).
  cbn [check mbind outcome_bind]. unfold process_relay_inline_cmd.
  rewrite length_app, Hh, <- app_assoc. unfold relay_header in *. destruct flush; field_values; select_id.
  - rewrite (u32_small len), inline_data_app by lia. cbn [mbind outcome_bind]. rewrite u32_small by lia.
    replace (16 + Z.of_nat (length p)) with (Z.of_nat (16 + length p)) by lia. by destruct d.
  - rewrite (u32_small len), inline_data_app by lia. cbn [mbind outcome_bind]. rewrite u32_small by lia.
    replace (16 + Z.of_nat (length p)) with (Z.of_nat (16 + length p)) by lia. done.
Qed.
End reading.

(** ** Running a method from [emit l s0] *)
Section runs.
Context (E : cmd_env) (HE : env_ok E).
Abbreviation pa := (host_alignment (env_hal E)).
Abbreviation round_up := (round_up E).

Section from.
Context (s0 : DeviceCommand) (Hs0 : cmd_ok E s0) (Ho : cmd_write_offsetB s0 mod pa = 0).

Definition room (l : list Z) (n : Z) : Prop :=
  cmd_write_offsetB s0 + Z.of_nat (length l) + n <= cmd_sequence_sizeB s0.

Lemma offset_16 : cmd_write_offsetB s0 mod 16 = 0.
Proof. destruct (eo_host E HE) as [H|H]; rewrite H in Ho; Z.to_euclidean_division_equations; lia. Qed.
Lemma offset_32 : cmd_write_offsetB s0 mod 32 = 0.
Proof. destruct (eo_host E HE) as [H|H]; rewrite H in Ho; Z.to_euclidean_division_equations; lia. Qed.

Lemma streamable_16 k n : k mod 16 = 0 → n mod 4 = 0 → n < 32 → streamable E s0 k n.
Proof. intros Hk Hn Hl _. split; [done|]. right. split; [|done]. pose proof offset_16. Z.to_euclidean_division_equations; lia. Qed.
Lemma streamable_32 k n : k mod 32 = 0 → n mod 4 = 0 → streamable E s0 k n.
Proof. intros Hk Hn _. split; [done|]. left. pose proof offset_32. Z.to_euclidean_division_equations; lia. Qed.

(** A command: room is made for it, and it is built. *)
Lemma run_cmd {A} n f l (k : Z → ST DeviceCommand A) :
  Z.of_nat (length l) mod 16 = 0 → 16 <= n → room l n → keeps_size f →
  ∃ c z, length c = 16%nat ∧ Z.of_nat (length z) = n - 16
    ∧ (dst ← reserve_space E false n; _ ← init_cmd E dst f; k dst) (emit l s0)
      = k (cmd_write_offsetB s0 + Z.of_nat (length l)) (emit (l ++ f c ++ z) s0).
Proof.
  intros Hl Hn Hroom Hf. unfold room in Hroom. pose proof (streamable_16 _ 16 Hl eq_refl eq_refl) as Hst.
  destruct (reserve_emit E HE s0 Hs0 false l n) as (w & Hw & Hres); try done; [unfold fits; lia|lia|].
  rewrite (ST_bind_ok _ _ _ _ _ Hres).
  destruct (init_emit E HE s0 Hs0 (l ++ w) (Z.of_nat (length l)) f) as (c & Hc & Hinit);
    [unfold fits; rewrite length_app; lia|lia|rewrite length_app; lia|done|done|].
  rewrite (ST_bind_ok _ _ _ _ _ Hinit). exists c, (drop 16 w). split; [done|]. split; [rewrite length_drop; lia|].
  do 2 f_equal. rewrite Nat2Z.id. rewrite <- (Nat.add_0_r (length l)), splice_app_r. f_equal.
  unfold splice. rewrite Hf by done. done.
Qed.

Lemma run_last_cmd n f l :
  Z.of_nat (length l) mod 16 = 0 → 16 <= n → room l n → keeps_size f →
  ∃ c z, length c = 16%nat ∧ Z.of_nat (length z) = n - 16
    ∧ (dst ← reserve_space E false n; init_cmd E dst f) (emit l s0) = (Ok tt, emit (l ++ f c ++ z) s0).
Proof.
  intros Hl Hn Hroom Hf. destruct (run_cmd n f l (λ _, mret tt)) as (c & z & Hc & Hz & Hrun); [done..|].
  exists c, z. split; [done|]. split; [done|]. unfold mret, ST_ret in Hrun. rewrite <- Hrun.
  unfold mbind, ST_bind. destruct (reserve_space E false n (emit l s0)) as [[dst|e] s1]; [|done].
  destruct (init_cmd E dst f s1) as [[[]|e] s2]; done.
Qed.

(** The command that relays a payload of [len] bytes. *)
Lemma run_relay {A} flush len d l (k : unit → ST DeviceCommand A) :
  Z.of_nat (length l) mod 16 = 0 → room l 16 → 0 <= len → len + 128 < 2 ^ 32 → (flush = false → len <= 4096) →
  ∃ c, length c = 16%nat
    ∧ (x ← add_prefetch_relay_inline E flush len d; k x) (emit l s0)
      = k tt (emit (l ++ relay_header flush len d (round_up (16 + len)) c) s0).
Proof.
  intros Hl Hroom Hlen Hbig Hflush. unfold add_prefetch_relay_inline. change sizeof_CQPrefetchCmd with 16.
  assert (Hcheck : (if flush then mret tt else check_st (len <=? Z.shiftl 1 DISPATCH_BUFFER_LOG_PAGE_SIZE) TT_ASSERT) (emit l s0)
                   = (Ok tt, emit l s0)).
  { destruct flush; [done|]. unfold check_st, check. rewrite (proj2 (Z.leb_le _ _)); [done|].
    change (Z.shiftl 1 DISPATCH_BUFFER_LOG_PAGE_SIZE) with 4096. auto. }
  rewrite ST_bind_assoc, (ST_bind_ok _ _ _ _ _ Hcheck).
  rewrite (u32_small (16 + len)), (align_pa E HE (16 + len)) by lia.
  destruct (run_last_cmd 16 (relay_header flush len d (round_up (16 + len))) l) as (c & z & Hc & Hz & Hrun); [done|done|done| |].
  { intros c Hc. by apply length_relay_header. }
  exists c. split; [done|]. unfold relay_header in Hrun |- *. rewrite (ST_bind_ok _ _ _ _ _ Hrun). do 2 f_equal. destruct z; [|simpl in Hz; lia]. by rewrite app_nil_r.
Qed.
End from.
End runs.
