(* ===== verification/DeviceCommandOps.v ===== *)
(** * Methods of a device command, one by one

    Every method that adds a whole command: it takes the bytes stated, and the
    device that executes them has the effect asked for. *)
From S2P Require Import Prelude CommandQueue CommandQueueProps DeviceCommand DeviceCommandSpec DeviceExecution.
Section ops.
Context (E : cmd_env) (HE : env_ok E) (D : device_args) (read : action → outcome (list Z)).
Context (Hbare : da_bare_min_size D = host_alignment (env_hal E)).
Abbreviation pa := (host_alignment (env_hal E)).
Abbreviation round_up := (round_up E).
Abbreviation emits := (emits E).
Abbreviation does := (does D read).

(** Nothing is left from a relay without flush. *)
Definition flushed (o : list Z) : device_state := mk_device_state o [].

(** From every flushed state with its three write offsets, the bytes have the effects
    [e o], and leave the offsets [f o]. *)
Definition effects (e : list Z → list event) (f : list Z → list Z) (l : list Z) : Prop :=
  ∀ o, length o = 3%nat → length (f o) = 3%nat ∧ does l (flushed o) (e o) (flushed (f o)).

Lemma effects_app e1 f1 l1 e2 f2 l2 :
  effects e1 f1 l1 → effects e2 f2 l2 → effects (λ o, e1 o ++ e2 (f1 o)) (f2 ∘ f1) (l1 ++ l2).
Proof.
  intros H1 H2 o Ho. destruct (H1 o Ho) as [Ho1 Hd1]. destruct (H2 _ Ho1) as [Ho2 Hd2].
  split; [done|]. by eapply does_app.
Qed.

Lemma effects_nil : effects (λ _, []) id [].
Proof. intros o Ho. split; [done|]. apply does_nil. Qed.

Lemma pa_bounds : 32 <= pa <= 64 ∧ pa mod 16 = 0.
Proof. pose proof (pa_spec E HE). tauto. Qed.

Lemma round_up_32 : round_up 32 = pa.
Proof. unfold DeviceCommandSpec.round_up. by destruct (eo_host E HE) as [->| ->]. Qed.
Lemma round_up_16 : round_up 16 = pa.
Proof. unfold DeviceCommandSpec.round_up. by destruct (eo_host E HE) as [->| ->]. Qed.
Lemma round_up_pa : round_up pa = pa.
Proof. apply round_up_multiple; [done|]. pose proof pa_bounds. apply Z.mod_same. lia. Qed.

Lemma prefetch_increment_pa : prefetch_increment E = pa.
Proof.
  unfold prefetch_increment. change sizeof_CQPrefetchCmd with 16. rewrite align_pa by (done || lia). apply round_up_16.
Qed.

(** ** A command without data behind a relay *)
Definition relayed_cmd (flush : bool) (d : DispatcherSelect) (f : list Z → list Z) : ST DeviceCommand unit :=
  _ ← add_prefetch_relay_inline E flush sizeof_CQDispatchCmd d;
  dst ← reserve_space E false sizeof_CQDispatchCmd;
  _ ← init_cmd E dst f;
  align_offset E.

(** A payload, as the prefetcher relays it. *)
Definition relayed (flush : bool) (d : DispatcherSelect) (data : list Z) : action :=
  if flush then relay_inline d data else relay_inline_noflush data.

Lemma relayed_bytes flush f d c c' z :
  keeps_size f → length c = 16%nat → length c' = 16%nat → (flush = false → d = DISPATCH_MASTER) →
  Z.of_nat (length (relay_header flush 16 d pa c ++ f c' ++ z)) = pa →
  reads D (relay_header flush 16 d pa c ++ f c' ++ z) (relayed flush d (f c')).
Proof.
  intros Hf Hc Hc' Hd Hl. pose proof pa_bounds. rewrite !length_app, length_relay_header, Hf in Hl by done.
  pose proof (relay_reads D flush 16 d c (f c' ++ z)) as Hr. rewrite length_app, Hf in Hr by done.
  replace (16 + Z.of_nat (16 + length z)) with pa in Hr by lia.
  replace (take (Z.to_nat 16) (f c' ++ z)) with (f c') in Hr.
  - apply Hr; [done|lia|lia|done].
  - rewrite take_app_length' by (by rewrite Hf). done.
Qed.

Lemma relayed_cmd_emits flush d f :
  keeps_size f → (flush = false → d = DISPATCH_MASTER) →
  emits (relayed_cmd flush d f) pa (λ l, ∃ c, length c = 16%nat ∧ reads D l (relayed flush d (f c))).
Proof.
  intros Hf Hd. apply emits_from. intros s Hs Ho Hfit. pose proof pa_bounds as [Hb Hb16]. unfold relayed_cmd.
  change sizeof_CQDispatchCmd with 16.
  destruct (run_relay E HE s Hs Ho flush 16 d [] (λ _, dst ← reserve_space E false 16; _ ← init_cmd E dst f; align_offset E))
    as (c & Hc & ->); [done|unfold room; simpl; lia|lia|lia|lia|].
  change (16 + 16) with 32. rewrite round_up_32. cbn [app].
  pose proof (length_relay_header flush 16 d pa c Hc) as Hh.
  destruct (run_cmd E HE s Hs Ho 16 f (relay_header flush 16 d pa c) (λ _, align_offset E)) as (c' & z & Hc' & Hz & ->);
    [by rewrite Hh|lia|unfold room; rewrite Hh; lia|done|].
  destruct z; [|simpl in Hz; lia]. rewrite app_nil_r.
  assert (H32 : Z.of_nat (length (relay_header flush 16 d pa c ++ f c')) = 32) by (rewrite length_app, Hh, Hf; done).
  destruct (align_emit E HE s Hs (relay_header flush 16 d pa c ++ f c')) as (z & Hz' & Hal);
    [unfold fits; lia|done|rewrite H32, round_up_32; lia|].
  rewrite H32, round_up_32 in Hz'. rewrite <- app_assoc in Hal, Hz'.
  eexists. split; [exact Hz'|]. split; [|exact Hal].
  exists c'. split; [done|]. by apply relayed_bytes.
Qed.

Lemma reads_effects l a e f :
  reads D l a → l ≠ [] → a ≠ terminate →
  (∀ o, length o = 3%nat → length (f o) = 3%nat ∧ perform D read a (flushed o) = Ok (e o, flushed (f o))) → effects e f l.
Proof. intros Hr Hl Ha Hp o Ho. destruct (Hp o Ho). split; [done|]. eapply does_one; eauto. Qed.

(** What the dispatcher makes of sixteen bytes. *)
Lemma dispatched_effects d f e g :
  (∀ c o, length c = 16%nat → length o = 3%nat →
     length (g o) = 3%nat ∧ perform D read (relay_inline d (f c)) (flushed o) = Ok (e o, flushed (g o))) →
  keeps_size f → emits (relayed_cmd true d f) pa (effects e g).
Proof.
  intros Hp Hf. eapply emits_mono; [|by apply (relayed_cmd_emits true)]. intros l Hl (c & Hc & Hr). pose proof pa_bounds.
  eapply reads_effects; [exact Hr|intros ->; simpl in Hl; lia|done|]. intros o Ho. by apply Hp.
Qed.

(** The same when both commands get their room first. *)
Lemma two_cmds_emits d f :
  keeps_size f →
  emits (r ← reserve_space E false sizeof_CQPrefetchCmd;
         w ← reserve_space E false sizeof_CQDispatchCmd;
         _ ← init_cmd E r (relay_header true 16 d pa);
         _ ← init_cmd E w f;
         align_offset E)
    pa (λ l, ∃ c, length c = 16%nat ∧ reads D l (relay_inline d (f c))).
Proof.
  intros Hf. apply emits_from. intros s Hs Ho Hfit. pose proof pa_bounds as [Hb Hb16].
  change sizeof_CQPrefetchCmd with 16. change sizeof_CQDispatchCmd with 16.
  assert (Hst : ∀ k, k mod 16 = 0 → streamable E s k 16) by (intros; by apply (streamable_16 E HE s Ho)).
  destruct (reserve_emit E HE s Hs false [] 16) as (w1 & Hw1 & Hres1);
    [unfold fits; simpl; lia|lia|lia|simpl; lia|intros _; by apply Hst|].
  rewrite (ST_bind_ok _ _ _ _ _ Hres1). cbn [app] in *.
  destruct (reserve_emit E HE s Hs false w1 16) as (w2 & Hw2 & Hres2);
    [unfold fits; lia|lia|lia|lia|intros _; apply Hst; by rewrite Hw1|]. rewrite (ST_bind_ok _ _ _ _ _ Hres2).
  destruct (init_emit E HE s Hs (w1 ++ w2) 0 (relay_header true 16 d pa)) as (c & Hc & Hi1);
    [unfold fits; rewrite length_app; lia|lia|rewrite length_app; lia|intros ? ?; by apply length_relay_header|by apply Hst|].
  change (Z.of_nat (length [])) with 0.
  rewrite (ST_bind_ok _ _ _ _ _ Hi1). set (h := relay_header true 16 d pa c).
  assert (Hh : length h = 16%nat) by (by apply length_relay_header).
  replace (splice (Z.to_nat 0) h (w1 ++ w2)) with (h ++ w2)
    by (unfold splice; rewrite Hh; change (h ++ w2 = h ++ drop 16 (w1 ++ w2)); by rewrite drop_app_length' by lia).
  destruct (init_emit E HE s Hs (h ++ w2) 16 f) as (c' & Hc' & Hi2);
    [unfold fits; rewrite length_app; lia|lia|rewrite length_app; lia|done|by apply Hst|].
  rewrite Hw1, (ST_bind_ok _ _ _ _ _ Hi2).
  replace (splice (Z.to_nat 16) (f c') (h ++ w2)) with (h ++ f c').
  2:{ replace (Z.to_nat 16) with (length h + 0)%nat by lia. rewrite splice_app_r. unfold splice. rewrite Hf by done.
      change (h ++ f c' = h ++ f c' ++ drop 16 w2). rewrite drop_ge by lia. by rewrite app_nil_r. }
  assert (H32 : Z.of_nat (length (h ++ f c')) = 32) by (rewrite length_app, Hh, Hf; done).
  destruct (align_emit E HE s Hs (h ++ f c')) as (z & Hz' & Hal);
    [unfold fits; lia|done|rewrite H32, round_up_32; lia|].
  rewrite H32, round_up_32 in Hz'. rewrite <- app_assoc in Hal, Hz'.
  eexists. split; [exact Hz'|]. split; [|exact Hal]. exists c'. split; [done|]. by apply (relayed_bytes true).
Qed.

(** ** A command with data *)
Definition relayed_with (n : Z) (d : DispatcherSelect) (f : list Z → list Z) (m : ST DeviceCommand unit) : ST DeviceCommand unit :=
  _ ← add_prefetch_relay_inline E true n d;
  dst ← reserve_space E false sizeof_CQDispatchCmd;
  _ ← init_cmd E dst f;
  m.

Lemma payload_reads d f n c c' p z :
  keeps_size f → length c = 16%nat → length c' = 16%nat → 0 <= n <= Z.of_nat (length p) →
  32 + Z.of_nat (length p) + Z.of_nat (length z) = round_up (32 + n) → round_up (32 + n) < 2 ^ 32 →
  reads D ((relay_header true (16 + n) d (round_up (32 + n)) c ++ f c' ++ p) ++ z)
    (relay_inline d (f c' ++ take (Z.to_nat n) p)).
Proof.
  intros Hf Hc Hc' Hn Hz Hbig. rewrite <- !app_assoc.
  pose proof (relay_reads D true (16 + n) d c (f c' ++ p ++ z)) as Hr. rewrite !length_app, Hf in Hr by done.
  replace (16 + Z.of_nat (16 + (length p + length z))) with (round_up (32 + n)) in Hr by lia.
  replace (take (Z.to_nat (16 + n)) (f c' ++ p ++ z)) with (f c' ++ take (Z.to_nat n) p) in Hr; [apply Hr; (done || lia)|].
  rewrite Z2Nat.inj_add by lia. rewrite take_app_ge by (rewrite Hf by done; lia). rewrite Hf by done.
  f_equal. rewrite take_app_le by lia. f_equal. lia.
Qed.

(** [m] adds [k] bytes, of which the first [n] are the command's data; what is missing to
    the next multiple of the alignment is still to come. *)
Lemma relayed_with_emits d f n k m P :
  keeps_size f → 0 <= n <= k → 32 + k <= round_up (32 + n) → n + 256 < 2 ^ 32 → appends E 32 m k P →
  emits (relayed_with (16 + n) d f m) (32 + k)
    (λ l, ∃ c p, length c = 16%nat ∧ Z.of_nat (length p) = k ∧ P p ∧
       ∀ z, 32 + k + Z.of_nat (length z) = round_up (32 + n) →
         reads D (l ++ z) (relay_inline d (f c ++ take (Z.to_nat n) p))).
Proof.
  intros Hf Hn Hk Hbig Hm. apply emits_from. intros s Hs Ho Hfit. pose proof pa_bounds as [Hb Hb16].
  pose proof (round_up_bounds E HE (32 + n) ltac:(lia)) as [Hr _]. unfold relayed_with. change sizeof_CQDispatchCmd with 16.
  destruct (run_relay E HE s Hs Ho true (16 + n) d [] (λ _, dst ← reserve_space E false 16; _ ← init_cmd E dst f; m))
    as (c & Hc & ->); [done|unfold room; simpl; lia|lia|lia|done|].
  replace (16 + (16 + n)) with (32 + n) by lia. cbn [app].
  set (h := relay_header true (16 + n) d (round_up (32 + n)) c).
  assert (Hh : length h = 16%nat) by (by apply length_relay_header).
  destruct (run_cmd E HE s Hs Ho 16 f h (λ _, m)) as (c' & z & Hc' & Hz & ->);
    [by rewrite Hh|lia|unfold room; rewrite Hh; lia|done|].
  destruct z; [|simpl in Hz; lia]. rewrite app_nil_r.
  assert (H32 : Z.of_nat (length (h ++ f c')) = 32) by (rewrite length_app, Hh, Hf; done).
  destruct (Hm s (h ++ f c') Hs Ho H32) as (p & Hp & HP & Hrun); [lia|].
  rewrite <- app_assoc in Hrun. eexists. split; [|split; [|exact Hrun]]; [rewrite app_assoc, length_app; lia|].
  exists c', p. split; [done|]. split; [done|]. split; [done|]. intros z Hz'. apply payload_reads; (done || lia).
Qed.

(** *** The commands *)
Ltac run_dispatcher :=
  intros c o Hc Ho; split; [first [exact Ho|reflexivity]|]; unfold perform, to_dispatcher, to_dispatch_s, flushed;
  cbn [app ds_offsets ds_pending];
  unfold process_cmd_d, process_cmd_s;
  rewrite length_set_fields by (assumption || reflexivity || by apply length_replicate);
  change (sizeof_CQDispatchCmd <=? Z.of_nat 16) with true;
  cbn [check mbind outcome_bind];
  try (assert (Hclear : length (cleared c) = 16%nat) by apply length_replicate).
Ltac finish_dispatch :=
  cbn [check mbind outcome_bind fmap list_fmap app]; try reflexivity.

Lemma keeps_set_fields l : forallb (λ p, in_command p.1) l = true → keeps_size (set_fields l).
Proof. intros Hl c Hc. by apply length_set_fields. Qed.
Lemma keeps_cleared l : forallb (λ p, in_command p.1) l = true → keeps_size (λ c, set_fields l (cleared c)).
Proof. intros Hl c Hc. apply length_set_fields; [apply length_replicate|done]. Qed.

Lemma notify_emits :
  emits (add_notify_dispatch_s_go_signal_cmd E) pa (effects (λ _, [dispatched notify_dispatch_s]) id).
Proof.
  apply (dispatched_effects DISPATCH_MASTER); [|by apply keeps_cleared]. run_dispatcher. field_values. select_id.
  finish_dispatch.
Qed.

Lemma terminate_emits d :
  emits (add_dispatch_terminate E d) pa (effects (λ _, [terminated (Some d)]) id).
Proof.
  apply (dispatched_effects d); [|by apply keeps_cleared]. destruct d; run_dispatcher; field_values; select_id;
    finish_dispatch.
Qed.

Lemma set_write_offsets_emits o0 o1 o2 : in_range 32 o0 → in_range 32 o1 → in_range 32 o2 →
  emits (add_dispatch_set_write_offsets E o0 o1 o2) pa (effects (λ _, []) (λ _, [o0; o1; o2])).
Proof.
  intros H0 H1 H2. apply (dispatched_effects DISPATCH_MASTER); [|by apply keeps_cleared]. run_dispatcher. field_values. select_id.
  unfold u32. rewrite !wrap_small by done. finish_dispatch.
Qed.

Definition dispatched_by (d : DispatcherSelect) : dispatch_effect → event :=
  match d with DISPATCH_MASTER => dispatched | DISPATCH_SLAVE => dispatched_s end.

Lemma go_signal_emits wait_count mcast_flag go_signal addr d :
  in_range 32 wait_count → in_range 8 mcast_flag → in_range 32 go_signal → in_range 32 addr →
  emits (add_dispatch_go_signal_mcast E wait_count mcast_flag go_signal addr d) pa
    (effects (λ _, [dispatched_by d (send_go_signal (negb (Z.land mcast_flag SEND_MCAST =? 0))
                      (negb (Z.land mcast_flag SEND_UNICAST =? 0)) go_signal wait_count addr)]) id).
Proof.
  intros H0 H1 H2 H3. apply (dispatched_effects d); [|by apply keeps_cleared].
  destruct d; run_dispatcher; unfold process_go_signal_mcast_cmd; field_values; select_id;
    unfold u32, u8; rewrite !wrap_small by done; finish_dispatch.
Qed.

Lemma u8_b2z b : (u8 (Z.b2z b) =? 0) = negb b.
Proof. by destruct b. Qed.

(** What [add_dispatch_wait] asks for. *)
Definition wait_effect (barrier address count clear_count : Z) (notify_prefetch do_wait : bool) : dispatch_effect :=
  wait_for (negb (barrier =? 0)) (if do_wait then Some (address, count) else None)
    (if clear_count =? 0 then None else Some address) notify_prefetch.

Lemma wait_emits barrier address count clear_count notify do_wait :
  in_range 8 barrier → in_range 32 address → in_range 32 count → in_range 8 clear_count →
  emits (add_dispatch_wait E barrier address count clear_count notify do_wait 0) pa
    (effects (λ _, [dispatched (wait_effect barrier address count clear_count notify do_wait)]) id).
Proof.
  intros H0 H1 H2 H3. eapply emits_mono.
  2:{ apply (two_cmds_emits DISPATCH_MASTER). by apply keeps_set_fields. }
  intros l Hl (c & Hc & Hr). pose proof pa_bounds. eapply reads_effects; [exact Hr|intros ->; simpl in Hl; lia|done|].
  intros o Ho. clear Hr. revert c o Hc Ho. run_dispatcher. unfold process_wait. field_values. select_id.
  unfold u32. rewrite !u8_b2z, !wrap_small by done. unfold u8. rewrite !wrap_small by done. finish_dispatch.
  unfold wait_effect. by destruct notify, do_wait.
Qed.

(** dispatch_s takes a wait only to clear the worker count. *)
Lemma wait_s_emits count clear_count :
  in_range 32 (da_worker_sem D) → in_range 32 count → in_range 8 clear_count → clear_count ≠ 0 → da_distributed D = true →
  emits (add_dispatch_wait E 0 (da_worker_sem D) count clear_count false true 1) pa
    (effects (λ _, [dispatched_s (wait_for false (Some (da_worker_sem D, count)) (Some (da_worker_sem D)) false)]) id).
Proof.
  intros H1 H2 H3 Hne Hdist. eapply emits_mono.
  2:{ apply (two_cmds_emits DISPATCH_SLAVE). by apply keeps_set_fields. }
  intros l Hl (c & Hc & Hr). pose proof pa_bounds. eapply reads_effects; [exact Hr|intros ->; simpl in Hl; lia|done|].
  intros o Ho. clear Hr. revert c o Hc Ho. run_dispatcher. unfold process_wait. field_values. select_id.
  unfold u32, u8. rewrite !wrap_small by done. rewrite (proj2 (Z.eqb_neq clear_count 0)), Z.eqb_refl, Hdist by done.
  finish_dispatch.
Qed.

(** *** Commands for the prefetcher *)
Lemma prefetch_cmd_emits f a :
  keeps_size f → a ≠ terminate →
  (∀ c rest, length c = 16%nat → process_cmd pa (f c ++ rest) = Ok (a, pa, false)) →
  emits (dst ← reserve_space E false (prefetch_increment E); init_cmd E dst f) pa (λ l, reads D l a).
Proof.
  intros Hf Ha Hp. apply emits_from. intros s Hs Ho Hfit. pose proof pa_bounds as [Hb Hb16]. rewrite prefetch_increment_pa.
  destruct (run_last_cmd E HE s Hs Ho pa f []) as (c & z & Hc & Hz & Hrun);
    [done|lia|unfold room; simpl; lia|done|]. cbn [app] in Hrun.
  assert (Hl : Z.of_nat (length (f c ++ z)) = pa) by (rewrite length_app, Hf by done; lia).
  eexists. split; [exact Hl|]. split; [|exact Hrun]. intros rest. rewrite Hl, Hbare, <- app_assoc. by apply Hp.
Qed.

Ltac run_prefetcher :=
  intros c rest Hc; try (assert (Hclear : length (cleared c) = 16%nat) by apply length_replicate);
  unfold process_cmd; change sizeof_CQPrefetchCmd with 16;
  rewrite enough_bytes by (rewrite length_set_fields by (assumption || reflexivity); reflexivity);
  cbn [check mbind outcome_bind]; field_values; select_id.

Lemma stall_reads :
  emits (dst ← reserve_space E false (prefetch_increment E);
         init_cmd E dst (λ cmd, set_fields [(cmd_id, CQ_PREFETCH_CMD_STALL)] (cleared cmd)))
    pa (λ l, reads D l stall).
Proof. apply prefetch_cmd_emits; [by apply keeps_cleared|done|]. by run_prefetcher. Qed.

Lemma relay_linear_reads noc len addr :
  in_range 32 noc → in_range 32 len → in_range 32 addr →
  emits (add_prefetch_relay_linear E noc len addr) pa (λ l, reads D l (relay_linear noc addr len)).
Proof.
  intros H1 H2 H3. apply prefetch_cmd_emits; [by apply keeps_set_fields|done|]. run_prefetcher.
  unfold u32. by rewrite !wrap_small by done.
Qed.

(** The page a relay starts at has four bits; the fifth says DRAM. *)
Lemma page_flags (is_dram : bool) start : 0 <= start < 16 →
  let flags := u8 (Z.lor (Z.shiftl (Z.b2z is_dram) 4) (Z.shiftl start 0)) in
  negb (Z.land flags (Z.shiftl 1 4) =? 0) = is_dram ∧ Z.land (Z.shiftr flags 0) 15 = start.
Proof.
  intros Hs. assert (Hall : forallb (λ s, forallb (λ b,
    let flags := u8 (Z.lor (Z.shiftl (Z.b2z b) 4) (Z.shiftl s 0)) in
    eqb (negb (Z.land flags (Z.shiftl 1 4) =? 0)) b && (Z.land (Z.shiftr flags 0) 15 =? s)) [true; false])
    (seqZ 0 16) = true) by reflexivity.
  rewrite forallb_forall in Hall. specialize (Hall start). rewrite <- list_elem_of_In, elem_of_seqZ in Hall.
  specialize (Hall ltac:(lia)). rewrite forallb_forall in Hall. specialize (Hall is_dram ltac:(destruct is_dram; simpl; auto)).
  apply andb_true_iff in Hall as [H1%eqb_prop H2%Z.eqb_eq]. done.
Qed.

Lemma relay_paged_reads (is_dram : bool) start base size_ pages adjust :
  0 <= start < 16 → in_range 32 base → in_range 32 size_ → in_range 32 pages → in_range 16 adjust →
  emits (add_prefetch_relay_paged E (Z.b2z is_dram) start base size_ pages adjust) pa
    (λ l, reads D l (relay_paged is_dram start base size_ pages adjust)).
Proof.
  intros H0 H1 H2 H3 H4. apply prefetch_cmd_emits; [by apply keeps_set_fields|done|]. run_prefetcher.
  destruct (page_flags is_dram start H0) as [Hd Hst].
  change CQ_PREFETCH_RELAY_PAGED_IS_DRAM_SHIFT with 4. change CQ_PREFETCH_RELAY_PAGED_START_PAGE_SHIFT with 0.
  change CQ_PREFETCH_RELAY_PAGED_START_PAGE_MASK with 15. rewrite Hd, Hst. unfold u32, u16. by rewrite !wrap_small by done.
Qed.

Lemma exec_buf_reads base log pages :
  in_range 32 base → in_range 32 log → in_range 32 pages →
  emits (add_prefetch_exec_buf E base log pages) pa (λ l, reads D l (exec_buf base log pages)).
Proof.
  intros H1 H2 H3. apply prefetch_cmd_emits; [by apply keeps_set_fields|done|]. run_prefetcher.
  unfold u32. by rewrite !wrap_small by done.
Qed.

Lemma stall_emits :
  emits (dst ← reserve_space E false (prefetch_increment E);
         init_cmd E dst (λ cmd, set_fields [(cmd_id, CQ_PREFETCH_CMD_STALL)] (cleared cmd)))
    pa (effects (λ _, [stalled]) id).
Proof.
  eapply emits_mono; [|exact stall_reads]. intros l Hl Hr. pose proof pa_bounds.
  eapply reads_effects; [exact Hr|intros ->; simpl in Hl; lia|done|done].
Qed.

Lemma wait_with_stall_emits barrier address count clear_count do_wait :
  in_range 8 barrier → in_range 32 address → in_range 32 count → in_range 8 clear_count →
  emits (add_dispatch_wait_with_prefetch_stall E barrier address count clear_count do_wait) (pa + pa)
    (effects (λ _, [dispatched (wait_effect barrier address count clear_count true do_wait); stalled]) id).
Proof.
  intros H0 H1 H2 H3. pose proof pa_bounds. eapply emits_mono.
  2:{ apply (emits_seq E HE); [by apply (wait_emits barrier address count clear_count true do_wait)|apply stall_emits| |lia].
      apply Z.mod_same. lia. }
  intros l _ (l1 & l2 & -> & _ & H4 & H5). exact (effects_app _ _ _ _ _ _ H4 H5).
Qed.

(** The command that ends the prefetcher, and so the bytes it reads. *)
Lemma prefetch_terminate_emits :
  emits (add_prefetch_terminate E) pa (λ l, process_cmd (da_bare_min_size D) l = Ok (terminate, Z.of_nat (length l), true)).
Proof.
  apply emits_from. intros s Hs Ho Hfit. pose proof pa_bounds as [Hb Hb16]. unfold add_prefetch_terminate.
  rewrite prefetch_increment_pa.
  destruct (run_last_cmd E HE s Hs Ho pa (λ cmd, set_fields [(cmd_id, CQ_PREFETCH_CMD_TERMINATE)] (cleared cmd)) [])
    as (c & z & Hc & Hz & Hrun); [done|lia|unfold room; simpl; lia|by apply keeps_cleared|]. cbn [app] in Hrun.
  assert (Hl : Z.of_nat (length (set_fields [(cmd_id, CQ_PREFETCH_CMD_TERMINATE)] (cleared c) ++ z)) = pa).
  { rewrite length_app, length_set_fields by (done || apply length_replicate). lia. }
  eexists. split; [exact Hl|]. split; [|exact Hrun]. rewrite Hl, Hbare.
  clear Hrun Hl Hz. revert c z Hc. by run_prefetcher.
Qed.

End ops.

(** * Methods of a device command that carry data

    Writes to the host, to the banks of a buffer and to one core: what the
    dispatcher does with the data, whether they are in the command sequence or
    relayed from memory. *)
Section data.
Context (E : cmd_env) (HE : env_ok E) (D : device_args) (read : action → outcome (list Z)).
Context (Hbare : da_bare_min_size D = host_alignment (env_hal E)).
Abbreviation pa := (host_alignment (env_hal E)).
Abbreviation round_up := (round_up E).
Abbreviation emits := (emits E).
Abbreviation appends := (appends E).
Abbreviation effects := (effects D read).

(** A command with data whose dispatcher command is [f c] does [e] to the data. *)
Lemma data_cmd_emits d f n k m P (e : list Z → list Z → list Z → list event) (g : list Z → list Z) :
  keeps_size f → 0 <= n <= k → 32 + k <= round_up (32 + n) → n + 256 < 2 ^ 32 → appends 32 m k P →
  (∀ c p o, length c = 16%nat → Z.of_nat (length p) = n → length o = 3%nat →
     length (g o) = 3%nat ∧ perform D read (relay_inline d (f c ++ p)) (flushed o) = Ok (e (f c) p o, flushed (g o))) →
  emits (relayed_with E (16 + n) d f m) (32 + k)
    (λ l, ∃ c p, length c = 16%nat ∧ P p ∧
       ∀ z, 32 + k + Z.of_nat (length z) = round_up (32 + n) →
         effects (e (f c) (take (Z.to_nat n) p)) g (l ++ z)).
Proof.
  intros Hf Hn Hk Hbig Hm Hp. eapply (emits_mono E); [|by apply (relayed_with_emits E HE D d f n k m P)].
  intros l Hl (c & p & Hc & Hlp & HP & Hr). exists c, p. split; [done|]. split; [done|]. intros z Hz o Ho.
  destruct (Hp c (take (Z.to_nat n) p) o Hc) as [Hg Hperf]; [rewrite length_take; lia|done|].
  split; [done|]. eapply does_one; [by apply Hr| |done|exact Hperf]. intros Hnil.
  apply (f_equal length) in Hnil. rewrite length_app in Hnil. simpl in Hnil. lia.
Qed.

(** ** Writes to the host *)
Definition host_header (is_event : bool) (n : Z) : list Z → list Z :=
  set_fields
    [(cmd_id, CQ_DISPATCH_CMD_WRITE_LINEAR_H_HOST);
     (write_linear_host_is_event, Z.b2z is_event);
     (write_linear_host_length, u32 (sizeof_CQDispatchCmd + n))].

Lemma keeps_host_header is_event n : keeps_size (host_header is_event n).
Proof. by apply keeps_set_fields. Qed.

Lemma data_at_all n bytes : Z.of_nat (length bytes) = n → data_at 0 n bytes = Ok bytes.
Proof.
  intros Hl. unfold data_at. rewrite (proj2 (Z.leb_le 0 0)), (proj2 (Z.leb_le _ _)) by lia.
  cbn [andb check mbind outcome_bind]. rewrite take_ge by (rewrite length_drop; lia). done.
Qed.

Lemma data_at_after (h p : list Z) n start : Z.of_nat (length h) = start → Z.of_nat (length p) = n → data_at start n (h ++ p) = Ok p.
Proof.
  intros Hh Hl. unfold data_at. rewrite (proj2 (Z.leb_le 0 _)), (proj2 (Z.leb_le _ _)) by (rewrite ?length_app; lia).
  cbn [andb check mbind outcome_bind]. rewrite drop_app_length' by lia. by rewrite take_ge by lia.
Qed.

(** What the dispatcher does with the header and the data. *)
Lemma host_write_performed is_event n c p o :
  0 <= n → n + 16 < 2 ^ 32 → length c = 16%nat → Z.of_nat (length p) = n →
  to_dispatcher D p (mk_device_state o (host_header is_event n c))
  = Ok ([dispatched (host_write (host_header is_event n c ++ p))], flushed o).
Proof.
  intros Hn Hbig Hc Hp. pose proof (keeps_host_header is_event n c Hc) as Hh. unfold to_dispatcher, process_cmd_d.
  cbn [ds_offsets ds_pending]. change sizeof_CQDispatchCmd with 16. rewrite enough_bytes by lia.
  cbn [check mbind outcome_bind]. unfold process_write_host_h. unfold host_header in *. field_values. select_id.
  change sizeof_CQDispatchCmd with 16 in *. rewrite !u32_small in * by (rewrite ?u32_small; lia).
  rewrite data_at_all by (rewrite length_app, Hh; lia). done.
Qed.

Lemma write_host_inline_emits n is_event data :
  0 <= n → n mod 4 = 0 → n + 256 < 2 ^ 32 → n <= Z.of_nat (length data) →
  emits (add_dispatch_write_host E true true n is_event (Some data)) (round_up (32 + n))
    (λ l, ∃ c, length c = 16%nat ∧
       effects (λ _, [dispatched (host_write (host_header is_event n c ++ take (Z.to_nat n) data))]) id l).
Proof.
  intros Hn Hn4 Hbig Hdata. pose proof (pa_bounds E HE) as [Hb Hb16].
  pose proof (round_up_bounds E HE (32 + n) ltac:(lia)) as [Hr _].
  eapply (emits_ext E); [|eapply (emits_mono E)].
  - intros s. transitivity (relayed_with E (16 + n) DISPATCH_MASTER (host_header is_event n)
      (_ ← add_data E data n n; align_offset E) s); [reflexivity|].
    unfold add_dispatch_write_host, relayed_with, host_header. change sizeof_CQDispatchCmd with 16.
    by rewrite (u32_small (16 + n)) by lia.
  - shelve.
  - replace (round_up (32 + n)) with (32 + (n + (round_up (32 + n) - (32 + n)))) by lia.
    eapply data_cmd_emits with (e := λ h p _, [dispatched (host_write (h ++ p))]) (g := id); [apply keeps_host_header|lia|lia|done| |].
    + apply (appends_seq E); [by apply (add_data_appends E HE); [left|..]|by apply (align_appends E HE); lia|lia].
    + intros c p o Hc Hp Ho. split; [done|]. unfold perform.
      pose proof (host_write_performed is_event n c p o Hn ltac:(lia) Hc Hp) as Hw.
      exact Hw.
  Unshelve. intros l Hl (c & p & Hc & (p1 & p2 & -> & Hp1 & Htake & _) & He). exists c. split; [done|].
    specialize (He [] ltac:(simpl; lia)). rewrite app_nil_r in He. rewrite take_app_le, Htake in He by lia. done.
Qed.

(** Without the data, the header waits for what is relayed next. *)
Lemma write_host_header_emits n is_event data :
  0 <= n → n + 16 < 2 ^ 32 →
  emits (add_dispatch_write_host E false false n is_event data) pa
    (λ l, ∃ c, length c = 16%nat ∧
       ∀ o, does D read l (flushed o) [] (mk_device_state o (host_header is_event n c))).
Proof.
  intros Hn Hbig. pose proof (pa_bounds E HE) as [Hb Hb16].
  eapply (emits_ext E); [|eapply (emits_mono E); [|apply (relayed_cmd_emits E HE D false DISPATCH_MASTER (host_header is_event n));
    [apply keeps_host_header|done]]]; [reflexivity|].
  intros l Hl (c & Hc & Hr). exists c. split; [done|]. intros o.
  eapply does_one; [exact Hr|intros ->; simpl in Hl; lia|done|done].
Qed.

(** A read of memory behind the header: the host gets what was read. *)
Lemma read_to_host_emits n is_event data l1 a (k : Z) m :
  0 <= n → n + 16 < 2 ^ 32 → 0 < k → read a = Ok data → Z.of_nat (length data) = n → a ≠ terminate →
  (∀ s, perform D read a s = (data ← read a; to_dispatcher D data s)) → emits m k (λ l, reads D l a) →
  emits (_ ← add_dispatch_write_host E false false n is_event l1; m) (pa + k)
    (λ l, ∃ c, length c = 16%nat ∧
       effects (λ _, [dispatched (host_write (host_header is_event n c ++ data))]) id l).
Proof.
  intros Hn Hbig Hk Hread Hdata Ha Hp Hm. pose proof (pa_bounds E HE) as [Hb _]. eapply (emits_mono E).
  2:{ apply (emits_seq E HE); [by apply write_host_header_emits|exact Hm| |lia]. apply Z.mod_same. lia. }
  intros l Hl (l2 & l3 & -> & Hl2 & (c & Hc & Hd) & Hr). exists c. split; [done|]. intros o Ho. split; [done|].
  eapply (does_app D read _ _ _ [] _ _ _); [exact (Hd o)|].
  eapply does_one; [exact Hr|intros ->; rewrite length_app in Hl; simpl in Hl; lia|done|].
  rewrite Hp, Hread. cbn [mbind outcome_bind]. apply host_write_performed; done || lia.
Qed.

(** ** Writes to the banks of a buffer *)

(** Pages [id], [id + 1], ... written to their banks. *)
Fixpoint page_writes (B : bank_tables) (base_addr page_size page_id : Z) (pages : list (list Z)) : list dispatch_effect :=
  match pages with
  | [] => []
  | page :: pages =>
    let '(noc, addr) := get_noc_addr B base_addr page_size page_id 0 in
    noc_write noc addr page :: page_writes B base_addr page_size (page_id + 1) pages
  end.

Lemma relayed_with_then len d f m s :
  (_ ← relayed_with E len d f (mret tt); m) s = relayed_with E len d f m s.
Proof.
  unfold relayed_with, mbind, ST_bind, mret, ST_ret. destruct (add_prefetch_relay_inline _ _ _ _ s) as [[[]|] s1]; [|done].
  destruct (reserve_space _ _ _ s1) as [[dst|] s2]; [|done]. by destruct (init_cmd _ _ _ s2) as [[[]|] s3].
Qed.

Lemma data_at_mid (h p t : list Z) start n :
  Z.of_nat (length h) = start → Z.of_nat (length p) = n → data_at start n (h ++ p ++ t) = Ok p.
Proof.
  intros Hh Hl. unfold data_at. rewrite (proj2 (Z.leb_le 0 _)), (proj2 (Z.leb_le _ _)) by (rewrite ?length_app; lia).
  cbn [andb check mbind outcome_bind]. rewrite drop_app_length' by lia. by rewrite take_app_length' by lia.
Qed.

Lemma write_pages_spec B base_addr page_size pages : 0 < page_size < 2 ^ 32 →
  ∀ h id fuel, Forall (λ p, Z.of_nat (length p) = page_size) pages → (length pages <= fuel)%nat →
  0 <= id → id + Z.of_nat (length pages) < 2 ^ 32 → Z.of_nat (length pages) * page_size < 2 ^ 32 →
  write_pages fuel B base_addr page_size id (Z.of_nat (length pages) * page_size) (Z.of_nat (length h)) (h ++ concat pages)
  = Ok (page_writes B base_addr page_size id pages).
Proof.
  intros Hsz. induction pages as [|p pages IH]; intros h id fuel Hall Hf Hid Hids Hbig; [by destruct fuel|].
  apply Forall_cons in Hall as [Hp Hall]. destruct fuel as [|fuel]; [simpl in Hf; lia|]. cbn [length] in *.
  set (n := Z.of_nat (length pages)) in *. cbn [write_pages].
  rewrite (proj2 (Z.eqb_neq _ 0)) by nia. cbn [concat]. rewrite (data_at_mid h p) by done. cbn [mbind outcome_bind].
  cbn [page_writes]. destruct (get_noc_addr B base_addr page_size id 0) as [noc addr].
  rewrite (u32_small (id + 1)), u32_small by nia.
  replace (Z.of_nat (S (length pages)) * page_size - page_size) with (n * page_size) by (unfold n; nia).
  rewrite app_assoc. replace (Z.of_nat (length h) + page_size) with (Z.of_nat (length (h ++ p))) by (rewrite length_app; lia).
  rewrite IH by (done || lia || nia). done.
Qed.

Lemma write_paged_emits (is_dram : bool) start_page base_addr page_size pages data k m P :
  let n := pages * page_size in
  0 < page_size → 0 < pages → n + 256 < 2 ^ 32 → in_range 16 start_page → start_page + pages < 2 ^ 32 → in_range 32 base_addr →
  n <= k → 32 + k <= round_up (32 + n) → appends 32 m k P →
  emits (_ ← add_dispatch_write_paged E false true (Z.b2z is_dram) start_page base_addr page_size pages data; m) (32 + k)
    (λ l, ∃ p, P p ∧
       ∀ z, 32 + k + Z.of_nat (length z) = round_up (32 + n) →
         effects (λ _, dispatched <$> page_writes (if is_dram then da_dram D else da_l1 D) base_addr page_size start_page
                         (chunks (Z.to_nat page_size) (Z.to_nat pages) (take (Z.to_nat n) p))) id (l ++ z)).
Proof.
  intros n Hsz Hpages Hbig Hst Hids Hba Hk Hround Hm. assert (Hn : pages <= n ∧ page_size <= n) by (unfold n; nia).
  set (f := set_fields
    [(cmd_id, CQ_DISPATCH_CMD_WRITE_PAGED); (write_paged_is_dram, Z.b2z is_dram); (write_paged_start_page, start_page);
     (write_paged_base_addr, base_addr); (write_paged_page_size, page_size); (write_paged_pages, pages)]).
  set (B := if is_dram then da_dram D else da_l1 D).
  eapply (emits_ext E); [|eapply (emits_mono E)].
  - intros s. transitivity ((_ ← relayed_with E (16 + n) DISPATCH_MASTER f (mret tt); m) s);
      [symmetry; apply relayed_with_then|].
    unfold add_dispatch_write_paged, relayed_with. change sizeof_CQDispatchCmd with 16.
    replace (page_size * pages) with n by (unfold n; lia). rewrite (u32_small n), (u32_small (16 + n)) by lia. reflexivity.
  - shelve.
  - eapply data_cmd_emits with (g := id)
      (e := λ _ p _, dispatched <$> page_writes B base_addr page_size start_page (chunks (Z.to_nat page_size) (Z.to_nat pages) p));
      [by apply keeps_set_fields|lia|done|done|exact Hm|].
    intros c p o Hc Hp Ho. split; [done|]. unfold perform, to_dispatcher, process_cmd_d.
    cbn [app ds_offsets ds_pending flushed]. change sizeof_CQDispatchCmd with 16.
    assert (Hh : length (f c) = 16%nat) by (by apply length_set_fields). rewrite enough_bytes by lia.
    cbn [check mbind outcome_bind]. unfold process_write_paged. change sizeof_CQDispatchCmd with 16.
    assert (Hpl : length p = (Z.to_nat page_size * Z.to_nat pages)%nat) by (unfold n in Hp; nia).
    set (ps := chunks (Z.to_nat page_size) (Z.to_nat pages) p).
    assert (Hps : Z.of_nat (length ps) = pages) by (unfold ps; rewrite length_chunks; lia).
    assert (Hw : write_pages (length (f c ++ p)) B base_addr page_size start_page (pages * page_size) 16 (f c ++ p)
                 = Ok (page_writes B base_addr page_size start_page ps)).
    { change 16 with (Z.of_nat 16). rewrite <- Hh, <- Hps. unfold in_range in *.
      rewrite <- (concat_chunks (Z.to_nat page_size) (Z.to_nat pages) p Hpl) at 1 2. fold ps.
      apply write_pages_spec; [lia| | |lia|rewrite Hps; exact Hids|rewrite Hps; fold n; lia].
      - apply Forall_forall. intros x Hx. rewrite (length_chunk _ _ _ _ Hpl Hx). lia.
      - rewrite length_app. assert (length ps <= length (concat ps))%nat; [|lia]. unfold ps at 2.
        rewrite concat_chunks, Hpl by done. nia. }
    unfold f. field_values. select_id. rewrite u8_b2z. unfold u16, u32. unfold in_range in *.
    rewrite (wrap_small 32 pages), (wrap_small 32 page_size), (wrap_small 32 base_addr), (wrap_small 16 start_page)
      by (unfold in_range; lia).
    rewrite (wrap_small 32 (pages * page_size)) by (unfold in_range; fold n; lia).
    fold f. fold n in Hw |- *.
    replace (if negb is_dram then da_l1 D else da_dram D) with B by (by destruct is_dram).
    rewrite Hw. cbn [mbind outcome_bind fmap]. rewrite app_nil_r. done.
  Unshelve.
    intros l Hl (c & p & Hc & HP & He). exists p. split; [done|]. exact He.
Qed.

(** ** Writes to one core, or to a rectangle of cores *)
Definition linear_write (num_mcast_dests noc_xy_addr addr : Z) (data : list Z) : dispatch_effect :=
  if num_mcast_dests =? 0 then noc_write noc_xy_addr addr data
  else noc_multicast noc_xy_addr addr num_mcast_dests data.

Lemma at_offset o i : length o = 3%nat → 0 <= i < 3 → at_ o (Z.to_nat i) = Ok (nth (Z.to_nat i) o 0).
Proof.
  intros Ho Hi. destruct (lookup_lt_is_Some_2 o (Z.to_nat i)) as [x Hx]; [lia|]. rewrite (at_some _ _ _ Hx).
  by rewrite (nth_lookup_Some _ _ _ _ Hx).
Qed.

Lemma write_linear_emits num_mcast_dests noc_xy_addr addr n data i k m P :
  0 <= n → n + 256 < 2 ^ 32 → in_range 8 num_mcast_dests → in_range 32 noc_xy_addr → in_range 32 addr → 0 <= i < 3 →
  n <= k → 32 + k <= round_up (32 + n) → appends 32 m k P →
  emits (_ ← add_dispatch_write_linear E false true num_mcast_dests noc_xy_addr addr n data i; m) (32 + k)
    (λ l, ∃ p, P p ∧
       ∀ z, 32 + k + Z.of_nat (length z) = round_up (32 + n) →
         effects (λ o, [dispatched (linear_write num_mcast_dests noc_xy_addr (u32 (addr + nth (Z.to_nat i) o 0))
                                      (take (Z.to_nat n) p))]) id (l ++ z)).
Proof.
  intros Hn Hbig Hmc Hnoc Haddr Hi Hk Hround Hm.
  set (f := set_fields
    [(cmd_id, CQ_DISPATCH_CMD_WRITE_LINEAR); (write_linear_num_mcast_dests, num_mcast_dests);
     (write_linear_write_offset_index, i); (write_linear_noc_xy_addr, noc_xy_addr);
     (write_linear_addr, addr); (write_linear_length, n)]).
  eapply (emits_ext E); [|eapply (emits_mono E)].
  - intros s. transitivity ((_ ← relayed_with E (16 + n) DISPATCH_MASTER f (mret tt); m) s);
      [symmetry; apply relayed_with_then|].
    unfold add_dispatch_write_linear, relayed_with. change sizeof_CQDispatchCmd with 16.
    rewrite (u32_small (16 + n)) by lia. reflexivity.
  - shelve.
  - eapply data_cmd_emits with (g := id)
      (e := λ _ p o, [dispatched (linear_write num_mcast_dests noc_xy_addr (u32 (addr + nth (Z.to_nat i) o 0)) p)]);
      [by apply keeps_set_fields|lia|done|done|exact Hm|].
    intros c p o Hc Hp Ho. split; [done|]. unfold perform, to_dispatcher, process_cmd_d.
    cbn [app ds_offsets ds_pending flushed]. change sizeof_CQDispatchCmd with 16.
    assert (Hh : length (f c) = 16%nat) by (by apply length_set_fields). rewrite enough_bytes by lia.
    cbn [check mbind outcome_bind]. unfold process_write. change sizeof_CQDispatchCmd with 16.
    assert (Hdata : data_at 16 n (f c ++ p) = Ok p) by (apply data_at_after; lia).
    unfold f. field_values. select_id. unfold u32 in *. unfold u8. fold f.
    rewrite (wrap_small 8 num_mcast_dests), (wrap_small 8 i), (wrap_small 32 noc_xy_addr), (wrap_small 32 addr),
      (wrap_small 32 n) by (done || unfold in_range; lia).
    rewrite at_offset by done. cbn [mbind outcome_bind]. rewrite Hdata. done.
  Unshelve.
    intros l Hl (c & p & Hc & HP & He). exists p. split; [done|]. exact He.
Qed.

(** ** The cores that get unicast go signals *)
Lemma map_chunks4 l : Forall (in_range 32) l → le_value <$> chunks 4 (length l) (concat (le uint32_t <$> l)) = l.
Proof.
  induction 1 as [|x l Hx _ IH]; [done|]. cbn [length chunks fmap list_fmap concat].
  rewrite take_app_length', drop_app_length' by (by rewrite length_le). rewrite IH. f_equal.
  by apply le_value_small.
Qed.

Lemma length_data_words l : length (concat (le uint32_t <$> l)) = (4 * length l)%nat.
Proof.
  rewrite (length_concat_const 4), length_fmap; [done|]. apply Forall_fmap, Forall_true. intros x. apply length_le.
Qed.

(** The command [set_unicast_only_cores] and its data, at the dispatcher. *)
Definition unicast_cmd (cores : list Z) (cmd : list Z) : list Z :=
  set_fields [(cmd_id, CQ_DISPATCH_SET_UNICAST_ONLY_CORES); (set_unicast_only_cores_num, Z.of_nat (length cores))] (cleared cmd).

Lemma unicast_cmd_performed cores d c p o :
  Z.of_nat (length cores) < 2 ^ 32 → (d = DISPATCH_SLAVE → Z.of_nat (length cores) <= da_max_unicast_cores D) →
  length c = 16%nat → Z.of_nat (length p) = 4 * Z.of_nat (length cores) →
  perform D read (relay_inline d (unicast_cmd cores c ++ p)) (flushed o)
  = Ok ([dispatched_by d (unicast_only_cores (le_value <$> chunks 4 (length cores) p))], flushed o).
Proof.
  intros Hlen Hd Hc Hp. assert (Hclear : length (cleared c) = 16%nat) by apply length_replicate.
  assert (Hh : length (unicast_cmd cores c) = 16%nat) by (by apply length_set_fields).
  assert (Hdata : data_at 16 (Z.of_nat (length cores) * 4) (unicast_cmd cores c ++ p) = Ok p) by (apply data_at_after; lia).
  unfold perform, to_dispatcher, to_dispatch_s, process_cmd_d, process_cmd_s, process_set_unicast_only_cores.
  cbn [app ds_offsets ds_pending flushed]. change sizeof_CQDispatchCmd with 16. rewrite !enough_bytes by lia.
  destruct d; cbn [check mbind outcome_bind dispatched_by]; unfold unicast_cmd in *; field_values; select_id; unfold u32;
    rewrite (wrap_small 32 (Z.of_nat _)) by (unfold in_range; lia).
  - rewrite Hdata. cbn [mbind outcome_bind]. by rewrite Nat2Z.id.
  - rewrite (proj2 (Z.leb_le _ _)) by auto. cbn [check mbind outcome_bind]. rewrite Hdata. cbn [mbind outcome_bind].
    by rewrite Nat2Z.id.
Qed.

Lemma add_unicast_relayed cores d s :
  let n := 4 * Z.of_nat (length cores) in
  n + 256 < 2 ^ 32 →
  add_dispatch_set_unicast_only_cores E cores d s
  = relayed_with E (16 + n) d (unicast_cmd cores) (add_data E (concat (le uint32_t <$> cores)) n (round_up n)) s.
Proof.
  intros n Hn. unfold add_dispatch_set_unicast_only_cores, relayed_with. change sizeof_CQDispatchCmd with 16.
  replace (Z.of_nat (length cores) * 4) with n by (unfold n; lia).
  rewrite (u32_small n), (u32_small (16 + n)), align_pa by (done || lia). done.
Qed.

(** The padding of the data is the end of the command when the alignment is 32. *)
Lemma set_unicast_only_cores_emits cores d :
  let n := 4 * Z.of_nat (length cores) in
  pa = 32 → n + 256 < 2 ^ 32 → Forall (in_range 32) cores →
  (d = DISPATCH_SLAVE → Z.of_nat (length cores) <= da_max_unicast_cores D) →
  emits (add_dispatch_set_unicast_only_cores E cores d) (32 + round_up n)
    (effects (λ _, [dispatched_by d (unicast_only_cores cores)]) id).
Proof.
  intros n Hpa Hbig Hcores Hd. assert (Hn : 0 <= n) by lia.
  pose proof (round_up_bounds E HE n Hn) as [Hr Hrm]. pose proof (round_up_bounds E HE (32 + n) ltac:(lia)) as [Hr' _].
  assert (Hround : 32 + round_up n = round_up (32 + n)).
  { unfold DeviceCommandSpec.round_up. rewrite Hpa. replace (32 + n + 32 - 1) with (n + 32 - 1 + 1 * 32) by lia.
    rewrite Z.div_add by lia. lia. }
  assert (Hwords : Z.of_nat (length (concat (le uint32_t <$> cores))) = n) by (rewrite length_data_words; lia).
  eapply (emits_ext E); [|eapply (emits_mono E)].
  - intros s. symmetry. apply (add_unicast_relayed cores d s). fold n. lia.
  - shelve.
  - apply (data_cmd_emits d (unicast_cmd cores) n (round_up n)) with (g := id)
      (P := λ p, take (Z.to_nat n) p = take (Z.to_nat n) (concat (le uint32_t <$> cores)))
      (e := λ _ p _, [dispatched_by d (unicast_only_cores (le_value <$> chunks 4 (length cores) p))]);
      [by apply keeps_cleared|lia|lia|done| |].
    + apply (add_data_appends E HE); [by left|unfold n; rewrite Z.mul_comm; apply Z_mod_mult|lia|lia].
    + intros c p o Hc Hp Ho. split; [done|]. apply unicast_cmd_performed; (done || lia).
  Unshelve.
    intros l Hl (c & p & Hc & HP & He). specialize (He [] ltac:(simpl; lia)). rewrite app_nil_r, HP in He.
    rewrite take_ge in He by lia. by rewrite map_chunks4 in He.
Qed.
End data.

(** * Packed writes of a device command

    One command that writes a piece of data to each of several destinations, or
    the same piece to all of them.  What is between the pieces, and what of a
    piece its sources do not cover, is unspecified. *)
(** The next multiple of 16 *)
Definition up16 (x : Z) : Z := (x + 15) / 16 * 16.

Lemma up16_spec x : 0 <= x → x <= up16 x < x + 16 ∧ up16 x mod 16 = 0.
Proof. intros Hx. unfold up16. rewrite Z.mod_mul by done. Z.to_euclidean_division_equations. lia. Qed.

Lemma up16_add x : up16 (16 + x) = 16 + up16 x.
Proof. unfold up16. replace (16 + x + 15) with (x + 15 + 1 * 16) by lia. rewrite Z.div_add by done. lia. Qed.

Lemma round_up_pow2_16 x : 0 <= x → x + 64 <= 2 ^ 32 → round_up_pow2 x L1_ALIGNMENT = up16 x.
Proof.
  intros Hx Hfit. unfold round_up_pow2, up16, L1_ALIGNMENT. change (u32 (16 - 1)) with 15. rewrite u32_small by lia.
  set (y := x + 15). assert (Hy : 0 <= y < 2 ^ 32) by lia. clearbody y.
  change (2 ^ 32 - 16) with (Z.shiftl (Z.ones 28) 4).
  change 16 with (2 ^ 4). rewrite <- Z.shiftr_div_pow2, <- Z.shiftl_mul_pow2 by done.
  apply Z.bits_inj'. intros i Hi. rewrite Z.land_spec, !Z.shiftl_spec by done.
  destruct (Z.ltb_spec i 4); [rewrite !(Z.testbit_neg_r _ (i - 4)) by lia; apply andb_false_r|].
  rewrite Z.shiftr_spec by lia. replace (i - 4 + 4) with i by lia.
  destruct (Z.ltb_spec i 32).
  - rewrite Z.ones_spec_low by lia. apply andb_true_r.
  - rewrite (Z.bits_above_log2 y i); [done|lia|]. destruct (decide (y = 0)) as [->|]; [simpl; lia|].
    apply Z.log2_lt_pow2; [lia|]. apply Z.lt_le_trans with (2 ^ 32); [lia|]. by apply Z.pow_le_mono_r.
Qed.

(** Pieces laid over bytes, one after the other. *)
Fixpoint lay (l : list (list Z * Z * Z)) (offset : Z) (w : list Z) : list Z :=
  match l with
  | [] => w
  | (data, n, stride) :: l => lay l (offset + stride) (splice (Z.to_nat offset) (take (Z.to_nat n) data) w)
  end.

Section packed.
Context (E : cmd_env) (HE : env_ok E).
Abbreviation pa := (host_alignment (env_hal E)).
Abbreviation round_up := (round_up E).
Abbreviation emits := (emits E).
Abbreviation appends := (appends E).

(** What [copy_tuples] asks for, [k] bytes after an aligned offset, with room for [inc] bytes. *)
Fixpoint tuples_ok (k inc : Z) (l : list (list Z * Z * Z)) (offset : Z) : Prop :=
  match l with
  | [] => True
  | (data, n, stride) :: l =>
    0 <= n <= Z.of_nat (length data) ∧ offset + n <= inc ∧ 0 <= stride ∧ offset + stride < 2 ^ 32
    ∧ (hugepage_write E = true →
         n mod 4 = 0 ∧ ((k + offset) mod 32 = 0 ∨ ((k + offset) mod 16 = 0 ∧ n < 32)))
    ∧ tuples_ok k inc l (offset + stride)
  end.

Lemma length_lay k inc l offset w :
  tuples_ok k inc l offset → 0 <= offset → Z.of_nat (length w) = inc → Z.of_nat (length (lay l offset w)) = inc.
Proof.
  revert offset w; induction l as [|[[data n] stride] l IH]; intros offset w; [done|]. cbn [tuples_ok lay].
  intros (Hn & Hfit & Hs & _ & _ & Hl) Ho Hw. apply IH; [done|lia|].
  rewrite length_splice; [done|]. rewrite length_take. lia.
Qed.

(** What the region holds where nothing was appended yet. *)
Lemma emit_ahead s l inc :
  cmd_ok E s → 0 <= inc → cmd_write_offsetB s + Z.of_nat (length l) + inc <= cmd_sequence_sizeB s →
  ∃ w, Z.of_nat (length w) = inc
    ∧ emit l s = with_offset (cmd_write_offsetB s + Z.of_nat (length l)) (emit (l ++ w) s).
Proof.
  intros Hs Hinc Hfit. pose proof Hs as [H1 H2 H3 H4].
  set (o := cmd_write_offsetB s + Z.of_nat (length l)).
  set (w := take (Z.to_nat inc) (drop (Z.to_nat o) (cmd_region (emit l s)))).
  assert (Hw : Z.of_nat (length w) = inc).
  { unfold w. rewrite length_take, length_drop. cbn. rewrite length_splice by lia. lia. }
  exists w. split; [done|]. rewrite <- (emit_app E) by (done || lia).
  transitivity (mk_device_command (cmd_sequence_sizeB s) (cmd_region_addr s)
      (splice (Z.to_nat o) w (cmd_region (emit l s))) o); [|done].
  unfold w. rewrite splice_same; [done|]. cbn. rewrite length_splice by lia. lia.
Qed.

Lemma memcpy_ahead s l w offset src n :
  cmd_ok E s → cmd_write_offsetB s mod pa = 0 → 0 <= offset → 0 <= n <= Z.of_nat (length src) →
  offset + n <= Z.of_nat (length w) →
  cmd_write_offsetB s + Z.of_nat (length l) + Z.of_nat (length w) <= cmd_sequence_sizeB s →
  (hugepage_write E = true → n mod 4 = 0 ∧
     ((Z.of_nat (length l) + offset) mod 32 = 0 ∨ ((Z.of_nat (length l) + offset) mod 16 = 0 ∧ n < 32))) →
  let o := cmd_write_offsetB s + Z.of_nat (length l) in
  memcpy E (o + offset) src n (with_offset o (emit (l ++ w) s))
  = (Ok tt, with_offset o (emit (l ++ splice (Z.to_nat offset) (take (Z.to_nat n) src) w) s)).
Proof.
  intros Hs Ho Hoff Hn Hfitw Hfit Hh o. pose proof Hs as [H1 H2 H3 H4].
  assert (Hlen : length (cmd_region (emit (l ++ w) s)) = length (cmd_region s)).
  { cbn. apply length_splice. rewrite length_app. lia. }
  rewrite (memcpy_ok E).
  - unfold with_offset, with_region, emit. cbn. do 2 f_equal. unfold o.
    replace (Z.to_nat (cmd_write_offsetB s + Z.of_nat (length l) + offset))
      with (Z.to_nat (cmd_write_offsetB s) + (length l + Z.to_nat offset))%nat by lia.
    rewrite splice_within by (rewrite ?length_app, ?length_take; lia). f_equal. apply splice_app_r.
  - split; [done|unfold with_offset; cbn [cmd_region]; unfold o; lia|]. intros Hhp. destruct (Hh Hhp) as [Hn4 Hal].
    split; [done|]. cbn. specialize (H4 Hhp). unfold o.
    assert (Ha : (cmd_region_addr s + cmd_write_offsetB s) mod 32 = 0).
    { clear - HE H4 Ho. destruct (eo_host E HE) as [Hq|Hq]; rewrite Hq in *; Z.to_euclidean_division_equations; lia. }
    clear - Ha Hal. destruct Hal as [Hal|[Hal ?]]; [left|right; split; [|done]];
      Z.to_euclidean_division_equations; lia.
Qed.

Definition advance (inc : Z) : ST DeviceCommand unit :=
  modify_st (λ s, with_offset (u32 (cmd_write_offsetB s + inc)) s).

Lemma copy_tuples_ahead s l ts : cmd_ok E s → cmd_write_offsetB s mod pa = 0 →
  ∀ w offset, 0 <= offset →
  tuples_ok (Z.of_nat (length l)) (Z.of_nat (length w)) ts offset →
  cmd_write_offsetB s + Z.of_nat (length l) + Z.of_nat (length w) <= cmd_sequence_sizeB s →
  let o := cmd_write_offsetB s + Z.of_nat (length l) in
  copy_tuples E ts offset (with_offset o (emit (l ++ w) s)) = (Ok tt, with_offset o (emit (l ++ lay ts offset w) s)).
Proof.
  intros Hs Ho. induction ts as [|[[data n] stride] ts IH]; intros w offset Hoff Hok Hfit o; [done|].
  cbn [tuples_ok copy_tuples lay] in *. destruct Hok as (Hn & Hnw & Hst & Hsum & Hh & Hok). rewrite run_get.
  cbn [cmd_write_offsetB with_offset].
  rewrite (ST_bind_ok _ _ _ _ _ (memcpy_ahead s l w offset data n Hs Ho Hoff Hn Hnw Hfit Hh)).
  rewrite u32_small by lia.
  assert (Hlw : length (splice (Z.to_nat offset) (take (Z.to_nat n) data) w) = length w)
    by (apply length_splice; rewrite length_take; lia).
  apply IH; rewrite ?Hlw; done || lia.
Qed.

Lemma copy_tuples_appends k inc ts :
  0 <= inc → tuples_ok k inc ts 0 →
  appends k (_ ← copy_tuples E ts 0; advance inc) inc (λ q, ∃ w, Z.of_nat (length w) = inc ∧ q = lay ts 0 w).
Proof.
  intros Hinc Hok s l Hs Ho Hl Hfit. pose proof Hs as [H1 H2 H3 H4].
  destruct (emit_ahead s l inc Hs Hinc) as (w & Hw & ->); [lia|].
  pose proof (copy_tuples_ahead s l ts Hs Ho w 0 ltac:(lia)) as Hrun. rewrite Hl, Hw in Hrun.
  specialize (Hrun Hok Hfit). cbn zeta in Hrun. rewrite Hl. rewrite (ST_bind_ok _ _ _ _ _ Hrun).
  pose proof (length_lay k inc ts 0 w Hok ltac:(lia) Hw) as Hlay.
  exists (lay ts 0 w). split; [done|]. split; [by exists w|]. unfold advance, modify_st.
  cbn [cmd_write_offsetB with_offset]. f_equal. unfold with_offset, emit. cbn. f_equal.
  rewrite length_app. rewrite u32_small; lia.
Qed.

(** One piece *)
Lemma copy_appends k inc data n :
  0 <= n <= inc → n <= Z.of_nat (length data) →
  (hugepage_write E = true → n mod 4 = 0 ∧ (k mod 32 = 0 ∨ (k mod 16 = 0 ∧ n < 32))) →
  appends k (_ ← (s ← get_st; memcpy E (cmd_write_offsetB s) data n); advance inc) inc
    (λ q, take (Z.to_nat n) q = take (Z.to_nat n) data).
Proof.
  intros Hn Hdata Hh. eapply (appends_ext E); [|eapply (appends_mono E); [|apply (copy_tuples_appends k inc [(data, n, 0)]); [lia|]]].
  - intros s. cbn [copy_tuples]. unfold mbind, ST_bind, mret, ST_ret, get_st. rewrite Z.add_0_r. by destruct (memcpy _ _ _ _ s) as [[[]|] ?].
  - intros q Hq (w & Hw & ->). cbn [lay]. unfold splice. change (Z.to_nat 0) with 0%nat. rewrite take_0. cbn [app].
    rewrite take_app_length' by (rewrite length_take; lia). done.
  - cbn [tuples_ok]. rewrite (Z.add_0_r k). do 4 (split; [lia|]). done.
Qed.

(** Pieces of the same size, one after the other *)
Lemma for_each_appends {A} (body : A → ST DeviceCommand unit) (Q : A → list Z → Prop) inc l :
  0 <= inc → inc mod 16 = 0 → (∀ x k, x ∈ l → k mod 16 = 0 → appends k (body x) inc (Q x)) →
  ∀ k, k mod 16 = 0 →
  appends k (for_each_st body l) (Z.of_nat (length l) * inc)
    (λ p, ∃ qs, p = concat qs ∧ Forall2 (λ x q, Q x q ∧ Z.of_nat (length q) = inc) l qs).
Proof.
  intros Hinc H16. induction l as [|x l IH]; intros Hbody k Hk.
  - eapply (appends_mono E); [|apply (appends_skip E)]. intros p _ ->. exists []. split; [done|constructor].
  - replace (Z.of_nat (length (x :: l)) * inc) with (inc + Z.of_nat (length l) * inc) by (cbn [length]; lia).
    assert (Hk' : (k + inc) mod 16 = 0) by (rewrite Z.add_mod, Hk, H16 by done; done).
    eapply (appends_mono E); [|apply (appends_seq E)].
    2:{ apply Hbody; [by left|done]. }
    2:{ apply IH; [|done]. intros y k' Hy. apply Hbody. by right. }
    2:{ lia. }
    intros p _ (p1 & p2 & -> & Hp1 & HQ & qs & -> & Hall). exists (p1 :: qs). split; [done|]. by constructor.
Qed.
End packed.

(** ** What the dispatcher makes of it *)
Definition packed_write (addr : Z) (c : PackedSubCmd) (data : list Z) : dispatch_effect :=
  match c with
  | CQDispatchWritePackedUnicastSubCmd noc => noc_write noc addr data
  | CQDispatchWritePackedMulticastSubCmd noc dests => noc_multicast noc addr dests data
  end.

Definition sub_cmd_ok (multicast : bool) (c : PackedSubCmd) : Prop :=
  match c with
  | CQDispatchWritePackedUnicastSubCmd noc => multicast = false ∧ in_range 32 noc
  | CQDispatchWritePackedMulticastSubCmd noc dests => multicast = true ∧ in_range 32 noc ∧ in_range 32 dests
  end.

Lemma length_encode_sub multicast c :
  sub_cmd_ok multicast c → length (encode_packed_sub_cmd c) = Z.to_nat (sizeof_PackedSubCmd multicast).
Proof. destruct c; intros [-> _]; reflexivity. Qed.

Lemma length_encode_subs multicast subs : Forall (sub_cmd_ok multicast) subs →
  Z.of_nat (length (concat (encode_packed_sub_cmd <$> subs))) = Z.of_nat (length subs) * sizeof_PackedSubCmd multicast.
Proof.
  intros H. rewrite (length_concat_const (Z.to_nat (sizeof_PackedSubCmd multicast))), length_fmap.
  - destruct multicast; cbn; lia.
  - apply Forall_fmap. eapply Forall_impl; [exact H|]. intros c. apply length_encode_sub.
Qed.

Lemma chunks_subs multicast subs : Forall (sub_cmd_ok multicast) subs →
  chunks (Z.to_nat (sizeof_PackedSubCmd multicast)) (length subs) (concat (encode_packed_sub_cmd <$> subs))
  = encode_packed_sub_cmd <$> subs.
Proof.
  induction 1 as [|c subs Hc _ IH]; [done|]. cbn [length chunks fmap list_fmap concat].
  pose proof (length_encode_sub multicast c Hc) as Hl. rewrite take_app_length', drop_app_length' by done.
  by rewrite IH.
Qed.

Lemma packed_dest_encode multicast c : sub_cmd_ok multicast c →
  packed_dest multicast (encode_packed_sub_cmd c)
  = match c with
    | CQDispatchWritePackedUnicastSubCmd noc => (noc, 1)
    | CQDispatchWritePackedMulticastSubCmd noc dests => (noc, dests)
    end.
Proof.
  destruct c as [noc|noc dests]; cbn [sub_cmd_ok]; intros Hc.
  - destruct Hc as [-> Hn]. unfold packed_dest, encode_packed_sub_cmd, encode. cbn [is_multicast packed_sub_cmd_sizes zip_with concat].
    rewrite app_nil_r, take_ge by (by rewrite length_le). f_equal. by apply le_value_small.
  - destruct Hc as (-> & Hn & Hd). unfold packed_dest, encode_packed_sub_cmd, encode.
    cbn [is_multicast packed_sub_cmd_sizes zip_with concat]. rewrite app_nil_r.
    rewrite take_app_length', drop_app_length' by (by rewrite length_le). rewrite take_ge by (by rewrite length_le).
    f_equal; by apply le_value_small.
Qed.

(** Data [i] is at [ptr + i * stride]. *)
Lemma write_packed_data_spec multicast addr sz stride bytes subs : Forall (sub_cmd_ok multicast) subs →
  ∀ ptr ds, length ds = length subs →
  (∀ i d, ds !! i = Some d → data_at (ptr + Z.of_nat i * stride) sz bytes = Ok d) →
  write_packed_data multicast addr sz stride ptr (encode_packed_sub_cmd <$> subs) bytes
  = Ok (zip_with (packed_write addr) subs ds).
Proof.
  induction 1 as [|c subs Hc _ IH]; intros ptr [|d ds] Hl Hd; try done. cbn [fmap list_fmap write_packed_data zip_with].
  rewrite (packed_dest_encode _ _ Hc). pose proof (Hd 0%nat d eq_refl) as H0. rewrite Z.mul_0_l, Z.add_0_r in H0.
  rewrite H0. specialize (IH (ptr + stride) ds ltac:(simpl in Hl; lia)). cbn [mbind outcome_bind].
  destruct c; cbn [packed_write sub_cmd_ok] in *; rewrite IH; try (destruct Hc as [-> _]; done);
    intros i d' Hi; specialize (Hd (S i) d' Hi); rewrite <- Hd; f_equal; lia.
Qed.

(** The flags as the dispatcher tests them. *)
Lemma packed_flags (multicast no_stride : bool) :
  let flags := u8 (Z.lor (if multicast then CQ_DISPATCH_CMD_PACKED_WRITE_FLAG_MCAST else CQ_DISPATCH_CMD_PACKED_WRITE_FLAG_NONE)
                     (if no_stride then CQ_DISPATCH_CMD_PACKED_WRITE_FLAG_NO_STRIDE else CQ_DISPATCH_CMD_PACKED_WRITE_FLAG_NONE)) in
  negb (Z.land flags CQ_DISPATCH_CMD_PACKED_WRITE_FLAG_MCAST =? 0) = multicast
  ∧ (Z.land flags CQ_DISPATCH_CMD_PACKED_WRITE_FLAG_NO_STRIDE =? 0) = negb no_stride.
Proof. by destruct multicast, no_stride. Qed.

(** Pieces [qs] of [inc] bytes after [h]. *)
Lemma data_at_piece h qs i q inc sz t :
  Forall (λ q, Z.of_nat (length q) = inc) qs → qs !! i = Some q → 0 <= sz <= inc →
  data_at (Z.of_nat (length h) + Z.of_nat i * inc) sz (h ++ concat qs ++ t) = Ok (take (Z.to_nat sz) q).
Proof.
  intros Hall Hi Hsz. assert (Hinc : Forall (λ q, length q = Z.to_nat inc) qs).
  { eapply Forall_impl; [exact Hall|]. intros x Hx. cbv beta in Hx. lia. }
  pose proof (length_concat_const _ _ Hinc) as Hlen. pose proof (lookup_lt_Some _ _ _ Hi) as Hlt.
  assert (Hqs : concat qs = concat (take i qs) ++ q ++ concat (drop (S i) qs)).
  { rewrite <- (take_drop_middle qs i q Hi) at 1. rewrite concat_app. done. }
  assert (Hpre : length (concat (take i qs)) = (i * Z.to_nat inc)%nat).
  { rewrite (length_concat_const (Z.to_nat inc)) by (by apply Forall_take). rewrite length_take. nia. }
  pose proof (proj1 (Forall_lookup _ _) Hall _ _ Hi) as Hq. cbv beta in Hq.
  replace (h ++ concat qs ++ t) with ((h ++ concat (take i qs)) ++ take (Z.to_nat sz) q ++ drop (Z.to_nat sz) q ++ concat (drop (S i) qs) ++ t).
  - apply data_at_mid; [rewrite length_app; nia|rewrite length_take; lia].
  - rewrite Hqs, <- !app_assoc. do 2 f_equal. by rewrite (app_assoc (take _ q)), take_drop.
Qed.

Section dispatched.
Context (D : device_args) (multicast no_stride : bool) (subs : list PackedSubCmd) (addr sz i : Z).
Context (Hsubs : Forall (sub_cmd_ok multicast) subs).
Abbreviation count := (Z.of_nat (length subs)).
Abbreviation subs_size := (count * sizeof_PackedSubCmd multicast).

(** What dispatcher and command limit. *)
Record packed_ok : Prop := mk_packed_ok {
  po_count : count <= (if multicast then get_packed_write_max_multicast_sub_cmds (da_max_unicast D) else da_max_unicast D);
  po_count16 : count < 2 ^ 16;
  po_addr : in_range 32 addr;
  po_offset : 0 <= i < 3;
  po_size : 0 < sz <= 4096;
  po_no_stride : no_stride = true → 16 + up16 subs_size + sz <= 4096
}.

Lemma subs_size_bounds : packed_ok → 0 <= subs_size <= 8 * 2 ^ 16.
Proof. intros [_ Hc _ _ _ _]. unfold sizeof_PackedSubCmd. destruct multicast; lia. Qed.

Lemma packed_performed c p1 qs o :
  packed_ok → length c = 16%nat → length o = 3%nat →
  Z.of_nat (length p1) = up16 subs_size → take (Z.to_nat subs_size) p1 = concat (encode_packed_sub_cmd <$> subs) →
  Forall (λ q, Z.of_nat (length q) = up16 sz) qs → length qs = (if no_stride then 1%nat else length subs) →
  to_dispatcher D (init_write_packed multicast no_stride count addr sz i c ++ p1 ++ concat qs) (flushed o)
  = Ok (dispatched <$> zip_with (packed_write (u32 (addr + nth (Z.to_nat i) o 0))) subs
          (if no_stride then replicate (length subs) (take (Z.to_nat sz) (nth 0 qs [])) else take (Z.to_nat sz) <$> qs), flushed o).
Proof.
  intros Hok Hc Ho Hp1 Htake Hqs Hnq. pose proof (subs_size_bounds Hok) as Hsb. destruct Hok as [H1 H2 H3 H4 H5 H6].
  set (h := init_write_packed multicast no_stride count addr sz i c).
  assert (Hh : length h = 16%nat) by (by apply length_set_fields).
  pose proof (up16_spec subs_size ltac:(lia)) as [Hu Hu16]. pose proof (up16_spec sz ltac:(lia)) as [Hv Hv16].
  set (bytes := h ++ p1 ++ concat qs).
  assert (Hsubcmds : data_at 16 subs_size bytes = Ok (concat (encode_packed_sub_cmd <$> subs))).
  { unfold bytes. rewrite <- Htake, <- (take_drop (Z.to_nat subs_size) p1) at 1. rewrite <- app_assoc.
    apply data_at_mid; [lia|rewrite length_take; lia]. }
  assert (Hdata : ∀ j q, qs !! j = Some q →
    data_at (16 + up16 subs_size + Z.of_nat j * up16 sz) sz bytes = Ok (take (Z.to_nat sz) q)).
  { intros j q Hj. unfold bytes. rewrite app_assoc, <- (app_nil_r (concat qs)).
    replace (16 + up16 subs_size) with (Z.of_nat (length (h ++ p1))) by (rewrite length_app; lia).
    eapply data_at_piece; [exact Hqs|exact Hj|lia]. }
  destruct (packed_flags multicast no_stride) as [Hmc Hns]. cbv zeta in Hmc, Hns.
  unfold to_dispatcher, process_cmd_d. cbn [app ds_offsets ds_pending flushed]. fold bytes.
  change sizeof_CQDispatchCmd with 16. rewrite (proj2 (Z.leb_le 16 _)) by (unfold bytes; rewrite length_app; lia).
  cbn [check mbind outcome_bind]. unfold process_write_packed. change sizeof_CQDispatchCmd with 16.
  unfold bytes in *. unfold h, init_write_packed in *. field_values. select_id. fold (init_write_packed multicast no_stride count addr sz i) in *.
  fold h in Hsubcmds, Hdata |- *. fold bytes in Hsubcmds, Hdata |- *.
  rewrite Hmc, Hns. unfold u8, u16. rewrite (wrap_small 16 count), (wrap_small 16 i), (wrap_small 16 sz) by (unfold in_range; lia).
  rewrite (proj2 (Z.leb_le _ _) H1). cbn [check mbind outcome_bind]. rewrite Hsubcmds. cbn [mbind outcome_bind].
  rewrite at_offset by done. cbn [mbind outcome_bind]. unfold u32 at 1 2. rewrite (wrap_small 32 addr) by done.
  change dispatch_cb_page_size with 4096. rewrite (proj2 (Z.leb_le sz 4096)) by lia. cbn [check mbind outcome_bind].
  rewrite !round_up_pow2_16, up16_add by lia. rewrite Nat2Z.id, (chunks_subs multicast subs) by done.
  assert (Hcheck : negb ((if negb no_stride then up16 sz else 0) =? 0) || (16 + up16 subs_size + sz <=? 4096) = true).
  { destruct no_stride; cbn [negb]; apply orb_true_iff; [right; apply Z.leb_le; auto|left].
    apply negb_true_iff, Z.eqb_neq. lia. }
  rewrite Hcheck. cbn [check mbind outcome_bind].
  rewrite (write_packed_data_spec multicast _ _ _ _ subs Hsubs _
    (if no_stride then replicate (length subs) (take (Z.to_nat sz) (nth 0 qs [])) else take (Z.to_nat sz) <$> qs)).
  - cbn [mbind outcome_bind fmap]. by rewrite app_nil_r.
  - destruct no_stride; [apply length_replicate|by rewrite length_fmap].
  - intros j d Hj. destruct no_stride; cbn [negb].
    + apply lookup_replicate in Hj as [-> _]. destruct qs as [|q qs]; [done|]. rewrite Z.mul_0_r.
      by specialize (Hdata 0%nat q eq_refl).
    + rewrite list_lookup_fmap in Hj. destruct (qs !! j) as [q|] eqn:Hq; [|done]. injection Hj as <-. by apply Hdata.
Qed.
End dispatched.

(** ** The method *)
Section method.
Context (E : cmd_env) (HE : env_ok E) (D : device_args) (read : action → outcome (list Z)).
Context (Hbare : da_bare_min_size D = host_alignment (env_hal E)).
Abbreviation pa := (host_alignment (env_hal E)).
Abbreviation round_up := (round_up E).
Abbreviation emits := (emits E).
Abbreviation appends := (appends E).
Abbreviation effects := (effects D read).

Section write_packed.
Context (limit_error : error) (copy : nat → ST DeviceCommand unit) (multicast no_stride : bool) (all_subs : list PackedSubCmd).
Context (addr sz payload_size max i : Z) (offset_idx : nat) (n : Z) (Q : nat → list Z → Prop).

Abbreviation subs := (take (Z.to_nat n) (drop offset_idx all_subs)).
Abbreviation copies := (if no_stride then 1%nat else Z.to_nat n).

Record packed_args_ok : Prop := mk_packed_args_ok {
  pg_count : Z.of_nat (length subs) = n;
  pg_subs : Forall (sub_cmd_ok multicast) subs;
  pg_max : max = da_max_unicast D;
  pg_ok : packed_ok D multicast no_stride subs addr sz i;
  pg_payload : payload_size = 16 + up16 (n * sizeof_PackedSubCmd multicast) + Z.of_nat copies * up16 sz;
  pg_copy : ∀ j k, (offset_idx <= j < offset_idx + copies)%nat → k mod 16 = 0 →
              appends k (_ ← copy j; advance (up16 sz)) (up16 sz) (Q j)
}.

(** The data: what the sources gave for each copy. *)
Definition packed_data (ds : list (list Z)) : Prop :=
  Forall2 (λ j d, ∃ q, Z.of_nat (length q) = up16 sz ∧ Q j q ∧ d = take (Z.to_nat sz) q) (seq offset_idx copies) ds.

Definition spread (ds : list (list Z)) : list (list Z) :=
  if no_stride then replicate (Z.to_nat n) (nth 0 ds []) else ds.

Lemma length_all_subs : packed_args_ok → 0 <= n ∧ Z.to_nat n = length subs.
Proof. intros [H _ _ _ _ _]. lia. Qed.

(** Sub-commands, data and padding. *)
Lemma packed_body_appends (Hok : packed_args_ok) :
  let size_ := n * sizeof_PackedSubCmd multicast in
  let k := round_up (16 + payload_size) - 32 in
  appends 32
    (s ← get_st;
     _ ← memcpy E (cmd_write_offsetB s) (concat (encode_packed_sub_cmd <$> drop offset_idx all_subs)) size_;
     _ ← modify_st (λ s, with_offset (u32 (cmd_write_offsetB s + up16 size_)) s);
     _ ← for_each_st (λ j, _ ← copy j; modify_st (λ s, with_offset (u32 (cmd_write_offsetB s + up16 sz)) s))
           (seq offset_idx copies);
     align_offset E) k
    (λ p, ∃ p1 qs z, p = p1 ++ concat qs ++ z ∧ Z.of_nat (length p1) = up16 size_
       ∧ take (Z.to_nat size_) p1 = concat (encode_packed_sub_cmd <$> subs)
       ∧ Forall2 (λ j q, Q j q ∧ Z.of_nat (length q) = up16 sz) (seq offset_idx copies) qs).
Proof.
  intros size_ k. destruct Hok as [Hn Hsubs Hmax Hpk Hpay Hcopy].
  assert (Hsize : 0 <= size_ <= 8 * 2 ^ 16) by (unfold size_; rewrite <- Hn; by apply (subs_size_bounds D multicast no_stride subs addr sz i)).
  pose proof (up16_spec size_ ltac:(lia)) as [Hu Hu16]. destruct Hpk as [_ _ _ _ Hsz _].
  pose proof (up16_spec sz ltac:(lia)) as [Hv Hv16].
  assert (Hcopied : 0 <= Z.of_nat copies * up16 sz) by (apply Z.mul_nonneg_nonneg; lia). fold size_ in Hpay.
  pose proof (round_up_bounds E HE (16 + payload_size) ltac:(lia)) as [Hr _].
  assert (Hsource : take (Z.to_nat size_) (concat (encode_packed_sub_cmd <$> drop offset_idx all_subs))
                    = concat (encode_packed_sub_cmd <$> subs)).
  { pose proof (length_encode_subs multicast subs Hsubs) as Hl. rewrite Hn in Hl. fold size_ in Hl.
    rewrite <- (take_drop (Z.to_nat n) (drop offset_idx all_subs)) at 1. rewrite fmap_app, concat_app.
    rewrite take_app_length' by lia. done. }
  assert (Hslen : size_ <= Z.of_nat (length (concat (encode_packed_sub_cmd <$> drop offset_idx all_subs)))).
  { pose proof (length_encode_subs multicast subs Hsubs) as Hl. rewrite Hn in Hl. fold size_ in Hl.
    rewrite <- Hl, <- Hsource, length_take. lia. }
  eapply (appends_ext E); [|eapply (appends_mono E)].
  - intros s. transitivity ((_ ← (_ ← (s ← get_st; memcpy E (cmd_write_offsetB s)
        (concat (encode_packed_sub_cmd <$> drop offset_idx all_subs)) size_); advance (up16 size_));
      _ ← for_each_st (λ j, _ ← copy j; advance (up16 sz)) (seq offset_idx copies); align_offset E) s); [reflexivity|].
    rewrite ST_bind_assoc. unfold mbind, ST_bind, get_st. by destruct (memcpy _ _ _ _ s) as [[[]|] ?].
  - shelve.
  - replace k with (up16 size_ + (Z.of_nat copies * up16 sz + (round_up (16 + payload_size) - (16 + payload_size)))) by (unfold k; lia).
    apply (appends_seq E); [apply (copy_appends E HE); [lia|exact Hslen|] | |lia].
    + intros _. split; [|by left]. unfold size_. destruct multicast; cbn [sizeof_PackedSubCmd];
        [replace (n * 8) with (n * 2 * 4) by lia|]; apply Z_mod_mult.
    + apply (appends_seq E).
      * replace (Z.of_nat copies) with (Z.of_nat (length (seq offset_idx copies))) by (by rewrite length_seq).
        apply (for_each_appends E (λ j, _ ← copy j; advance (up16 sz)) Q); [lia|done| |rewrite Z.add_mod, Hu16 by done; done].
        intros j k' Hj%elem_of_seq Hk'. by apply Hcopy.
      * replace (16 + payload_size) with (32 + up16 size_ + Z.of_nat copies * up16 sz) by (rewrite Hpay; lia).
        apply (align_appends E HE). lia.
      * lia.
  Unshelve.
    intros p Hp (p1 & p2 & -> & Hp1 & Htake & p3 & z & -> & _ & (qs & -> & Hqs) & _). exists p1, qs, z.
    split; [done|]. split; [done|]. split; [|done]. by rewrite Htake.
Qed.

Lemma write_packed_emits (Hok : packed_args_ok) :
  emits (write_packed_with E limit_error copy multicast n addr sz payload_size all_subs max offset_idx no_stride i)
    (round_up (16 + payload_size))
    (λ l, ∃ ds, packed_data ds
       ∧ effects (λ o, dispatched <$> zip_with (packed_write (u32 (addr + nth (Z.to_nat i) o 0))) subs (spread ds)) id l).
Proof.
  pose proof (packed_body_appends Hok) as Hbody. cbv zeta in Hbody. pose proof (length_all_subs Hok) as [Hn0 Hnn].
  destruct Hok as [Hn Hsubs Hmax Hpk Hpay Hcopy]. pose proof Hpk as [Hcount Hc16 Haddr Hi Hsz Hns].
  set (size_ := n * sizeof_PackedSubCmd multicast) in *.
  assert (Hsize : 0 <= size_ <= 8 * 2 ^ 16) by (unfold size_; rewrite <- Hn; by apply (subs_size_bounds D multicast no_stride subs addr sz i)).
  pose proof (up16_spec size_ ltac:(lia)) as [Hu _]. pose proof (up16_spec sz ltac:(lia)) as [Hv _].
  set (nn := up16 size_ + Z.of_nat copies * up16 sz).
  assert (Hnn_big : 0 <= nn ∧ nn + 256 < 2 ^ 32).
  { unfold nn. clear - Hu Hv Hsize Hsz Hn0 Hn Hc16. rewrite Hn in Hc16. destruct no_stride; nia. }
  pose proof (round_up_bounds E HE (32 + nn) ltac:(lia)) as [Hr _].
  assert (Hpn : 16 + payload_size = 32 + nn) by (unfold nn; lia). rewrite Hpn in *.
  set (k := round_up (32 + nn) - 32) in *. replace (round_up (32 + nn)) with (32 + k) by (unfold k; lia).
  set (f := init_write_packed multicast no_stride n addr sz i).
  eapply (emits_ext E); [|eapply (emits_mono E); [|eapply (relayed_with_emits E HE D DISPATCH_MASTER f nn k);
    [by apply keeps_set_fields|unfold k; lia|unfold k; lia|lia|exact Hbody]]].
  - intros s. unfold write_packed_with. rewrite run_check.
    2:{ rewrite Hmax. rewrite Hn in Hcount. apply Z.leb_le. exact Hcount. }
    replace payload_size with (16 + nn) by lia. fold size_ f.
    rewrite (align_l1 E HE size_), (align_l1 E HE sz) by lia. fold (up16 size_) (up16 sz).
    unfold relayed_with. by destruct no_stride.
  - intros l Hl (c & p & Hc & Hlp & (p1 & qs & z & -> & Hp1 & Htake & Hqs) & Hreads).
    exists (take (Z.to_nat sz) <$> qs). split.
    { unfold packed_data. clear - Hqs. induction Hqs as [|j q js qs [HQ Hq] _ IH]; constructor; [by exists q|done]. }
    specialize (Hreads [] ltac:(unfold k; simpl; lia)). rewrite app_nil_r in Hreads. intros o Ho. split; [done|].
    assert (Hall : Forall (λ q, Z.of_nat (length q) = up16 sz) qs).
    { clear - Hqs. induction Hqs as [|j q js qs [HQ Hq] _ IH]; by constructor. }
    assert (Hnq : length qs = copies) by (rewrite <- (Forall2_length _ _ _ Hqs); apply length_seq).
    eapply does_one; [exact Hreads|intros ->; simpl in Hl; unfold k in Hl; lia|done|].
    replace (take (Z.to_nat nn) (p1 ++ concat qs ++ z)) with (p1 ++ concat qs).
    2:{ rewrite app_assoc, take_app_length'; [done|]. rewrite length_app, (length_concat_const (Z.to_nat (up16 sz))).
        - rewrite Hnq. unfold nn. nia.
        - eapply Forall_impl; [exact Hall|]. intros q Hq. cbv beta in Hq. lia. }
    pose proof (packed_performed D multicast no_stride subs addr sz i Hsubs c p1 qs o Hpk Hc Ho) as Hperf.
    rewrite Hn, <- Hnn in Hperf. unfold perform, f. rewrite (Hperf Hp1 Htake Hall Hnq).
    do 3 f_equal. unfold spread. destruct no_stride; [|done]. destruct qs; [done|]. done.
Qed.
End write_packed.
End method.

(** ** Where the data come from *)
Section sources.
Context (E : cmd_env) (HE : env_ok E).

(** One source of the right size for each copy *)
Lemma copy_pair_appends data_collection j d sz k :
  data_collection !! j = Some (d, sz) → 0 <= sz <= Z.of_nat (length d) → k mod 16 = 0 →
  (hugepage_write E = true → sz mod 4 = 0 ∧ sz < 32) →
  appends E k (_ ← copy_pair E data_collection j; advance (up16 sz)) (up16 sz)
    (λ q, take (Z.to_nat sz) q = take (Z.to_nat sz) d).
Proof.
  intros Hj Hsz Hk Hh. pose proof (up16_spec sz ltac:(lia)) as [Hu _].
  eapply (appends_ext E); [|apply (copy_appends E HE k (up16 sz) d sz)]; [|lia|lia|].
  - intros s. unfold copy_pair. rewrite (at_some _ _ _ Hj). reflexivity.
  - intros H. destruct (Hh H). auto.
Qed.

(** Pieces without gaps: the bytes are the pieces in order. *)
Fixpoint adjacent (l : list (list Z * Z * Z)) : Prop :=
  match l with
  | [] => True
  | (data, n, stride) :: l => n = stride ∧ 0 <= n <= Z.of_nat (length data) ∧ adjacent l
  end.

Definition pieces (l : list (list Z * Z * Z)) : list Z := concat ((λ '(data, n, _), take (Z.to_nat n) data) <$> l).

Lemma lay_adjacent l : adjacent l → ∀ pre w offset, offset = Z.of_nat (length pre) →
  (length (pieces l) <= length w)%nat → lay l offset (pre ++ w) = pre ++ pieces l ++ drop (length (pieces l)) w.
Proof.
  induction l as [|[[data n] stride] l IH]; intros Hl pre w offset ->; [done|]. cbn [adjacent lay] in *.
  destruct Hl as (<- & Hn & Hl). change (pieces ((data, n, n) :: l)) with (take (Z.to_nat n) data ++ pieces l).
  assert (Ht : length (take (Z.to_nat n) data) = Z.to_nat n) by (rewrite length_take; lia).
  rewrite length_app, Ht. intros Hw. rewrite Nat2Z.id. pose proof (splice_app_r pre 0 (take (Z.to_nat n) data) w) as Hs.
  rewrite Nat.add_0_r in Hs. rewrite Hs. clear Hs.
  unfold splice. rewrite take_0, Ht. cbn [app]. rewrite app_assoc, IH.
  - rewrite <- !app_assoc. do 3 f_equal. by rewrite drop_drop.
  - done.
  - rewrite length_app. lia.
  - rewrite length_drop. lia.
Qed.

Lemma tuples_ok_adjacent k l : hugepage_write E = false → adjacent l → ∀ offset inc,
  0 <= offset → offset + Z.of_nat (length (pieces l)) <= inc → inc < 2 ^ 32 → tuples_ok E k inc l offset.
Proof.
  intros Hh. induction l as [|[[data n] stride] l IH]; [done|]. cbn [adjacent]. intros (<- & Hn & Hl) offset inc Ho Hi Hinc.
  change (pieces ((data, n, n) :: l)) with (take (Z.to_nat n) data ++ pieces l) in Hi.
  rewrite length_app, length_take in Hi. cbn [tuples_ok]. split; [lia|]. split; [lia|]. split; [lia|]. split; [lia|].
  split; [congruence|]. apply IH; try done; lia.
Qed.

Lemma copy_all_appends data_collection j ts sz k :
  hugepage_write E = false → data_collection !! j = Some ts → adjacent ts →
  0 <= sz <= 4096 → Z.of_nat (length (pieces ts)) <= up16 sz →
  appends E k (_ ← copy_all E data_collection j; advance (up16 sz)) (up16 sz)
    (λ q, take (length (pieces ts)) q = pieces ts).
Proof.
  intros Hh Hj Hadj Hsz Hlen. pose proof (up16_spec sz ltac:(lia)) as [Hu _].
  eapply (appends_ext E); [|eapply (appends_mono E); [|apply (copy_tuples_appends E HE k (up16 sz) ts)]].
  - intros s. unfold copy_all. rewrite (at_some _ _ _ Hj). reflexivity.
  - intros q Hq (w & Hw & ->). change w with ([] ++ w). rewrite (lay_adjacent ts Hadj [] w 0) by (done || lia).
    by rewrite app_nil_l, take_app_length.
  - lia.
  - apply tuples_ok_adjacent; try done; lia.
Qed.
End sources.
