(* ===== verification/EnqueueSend.v ===== *)
(** * Sending a sequence of device commands

    Every command of command_queue.cpp makes room in the issue region, assembles
    its commands there and pushes: one entry of the prefetch queue.  [send] is
    that sequence of calls; the bytes it returns only record what was assembled.
    The calls of [fetch_queue_reserve_back] and [fetch_queue_write] that follow
    are steps of [CommandStream]. *)
From S2P Require Import Prelude CommandQueue CommandQueueProps CommandStreamHost Prefetcher CommandStream CommandStreamDevice CommandStreamInv DeviceCommand DeviceCommandSpec.

(** What one call of [process] sends: the size it computes, the commands it adds, and
    whether the prefetcher stalls. *)
Record command_sequence := mk_sequence {
  cmd_sequence_size : Z;
  assemble : ST DeviceCommand unit;
  stall_prefetcher : bool
}.

(** The memory behind the pointer [issue_queue_reserve] returns: the hugepage, or while
    a trace is recorded the bypass buffer. *)
Definition region_bytes (m : SystemMemoryManager) (hugepage_ : mem) (region n : Z) : list Z :=
  if bypass_enable m then take (Z.to_nat n) (drop (Z.to_nat region) (bypass_buffer m)) else mem_read hugepage_ region n.

Definition store_region (region : Z) (bytes : list Z) (s : SystemMemoryManager * mem) : SystemMemoryManager * mem :=
  let '(m, hugepage_) := s in
  if bypass_enable m then
    (with_bypass true (splice (Z.to_nat region) bytes (bypass_buffer m)) (bypass_buffer_write_offset m) m, hugepage_)
  else (m, mem_write hugepage_ region bytes).

Definition send (cq_id : nat) (q : command_sequence) (s : SystemMemoryManager * mem)
  : outcome (SystemMemoryManager * mem * list Z) :=
  let n := cmd_sequence_size q in
  '(region, m) ← issue_queue_reserve n cq_id s.1;
  command ← DeviceCommand_at region (region_bytes m s.2 region n) n;
  let '(r, command) := assemble q command in
  _ ← r;
  let '(m, hugepage_) := store_region region (cmd_region command) (m, s.2) in
  '(m, _) ← issue_queue_push_back n cq_id m;
  Ok (m, hugepage_, cmd_region command).

(** ** A sequence that fills its region *)
Section send.
Context (L : layout) (HL : layout_ok L) (cq_id : nat) (E : cmd_env) (HE : env_ok E).
Context (Hhuge : hugepage_write E = true) (Hla : host_alignment (env_hal E) = la L).

(** [m], started at the beginning of a region of [n] bytes, leaves bytes that satisfy [P] there. *)
Definition fills (m : ST DeviceCommand unit) (n : Z) (P : list Z → Prop) : Prop :=
  ∀ s, cmd_ok E s → cmd_write_offsetB s = 0 → cmd_sequence_sizeB s = n →
  ∃ s', m s = (Ok tt, s') ∧ Z.of_nat (length (cmd_region s')) = n ∧ P (cmd_region s').

Record sequence_ok (q : command_sequence) (P : list Z → Prop) : Prop := mk_sequence_ok {
  sq_size : size_ok L (cmd_sequence_size q);
  sq_assemble : fills (assemble q) (cmd_sequence_size q) P
}.

(** What is emitted may end before the region does. *)
Lemma emits_fills m k n (P Q : list Z → Prop) :
  emits E m k P → k <= n → (∀ l z, Z.of_nat (length l) = k → Z.of_nat (length z) = n - k → P l → Q (l ++ z)) → fills m n Q.
Proof.
  intros Hm Hk HPQ s Hs Ho Hn. pose proof Hs as [H1 _ _ _].
  destruct (Hm s Hs) as (l & Hl & HP & Hrun); [rewrite Ho; apply Z.mod_0_l; pose proof (pa_spec E HE); lia|lia|].
  exists (emit l s). split; [done|]. cbn [emit cmd_region]. rewrite Ho.
  unfold splice. change (Z.to_nat 0) with 0%nat. rewrite take_0. cbn [app Nat.add].
  split; [rewrite length_app, length_drop; lia|]. apply HPQ; [done|rewrite length_drop; lia|done].
Qed.

Lemma sequence_emits q P : size_ok L (cmd_sequence_size q) → emits E (assemble q) (cmd_sequence_size q) P → sequence_ok q P.
Proof.
  intros Hs Hm. split; [done|]. apply (emits_fills _ _ _ _ _ Hm); [lia|]. intros l z Hl Hz HP.
  destruct z; [by rewrite app_nil_r|simpl in Hz; lia].
Qed.

Lemma multiple_4 x : x mod la L = 0 → x mod 4 = 0.
Proof. intros Hx. destruct (lo_align L HL) as [H|H]; rewrite H in Hx; Z.to_euclidean_division_equations; lia. Qed.

(** The commands are those of [issue_command], given the bytes. *)
Lemma send_issue q P m h pos qptr qfence :
  sequence_ok q P → host_at L cq_id m pos qptr qfence → 0 <= pos < lsize L →
  ∃ bytes m' h' h2, send cq_id q (m, h) = Ok (m', h', bytes)
    ∧ Z.of_nat (length bytes) = cmd_sequence_size q ∧ P bytes ∧ command_ok m [bytes]
    ∧ issue_command cq_id [bytes] (m, h) = Ok (m', h2) ∧ mem_eq h2 h'.
Proof.
  intros [Hsz Hfill] Hm Hpos. set (n := cmd_sequence_size q) in *. pose proof (lo_end L HL).
  destruct (lo_base L HL) as (Hb0 & Hba & Hsa). pose proof (lo_offset L HL) as [Hoff0 Hoff]. pose proof (lo_command L HL).
  pose proof (lo_room L HL). pose proof (lo_entries L HL). pose proof (proj1 Hsz) as [Hn0 Hn1].
  destruct (place_bounds (lsize L) pos n ltac:(lia) ltac:(nia)) as (Hp0 & Hp1 & _).
  destruct (reserve_spec L HL cq_id m pos qptr qfence n Hm Hpos Hsz) as (m1 & r & Hres & Hm1 & Hr).
  set (p := place (lsize L) pos n) in *.
  assert (Hral : r mod la L = 0).
  { pose proof (ha_pos _ _ _ _ _ _ Hm1) as Hpp. rewrite Hr. clear - HL Hpp Hba Hoff.
    destruct (lo_align L HL) as [Ha|Ha]; rewrite Ha in *; Z.to_euclidean_division_equations; lia. }
  set (s0 := mk_device_command n r (mem_read h r n) 0).
  assert (Hs0 : cmd_ok E s0).
  { split; cbn; [rewrite length_mem_read; lia|lia|lia|]. intros _. by rewrite Hla. }
  destruct (Hfill s0 Hs0 eq_refl eq_refl) as (s1 & Hrun & Hlen & HP). set (bytes := cmd_region s1) in *.
  assert (Hok : command_ok m [bytes]).
  { split; [apply Forall_singleton; rewrite (ha_align _ _ _ _ _ _ Hm), Hlen; apply Hsz|].
    cbn [concat]. rewrite app_nil_r, Hlen, (ha_command _ _ _ _ _ _ Hm). lia. }
  destruct (push_spec L HL cq_id m1 p qptr qfence n Hm1 ltac:(lia) ltac:(lia) Hsz) as (m2 & e & Hpush & Hm2).
  assert (Hall : Forall (λ l : list Z, Z.of_nat (length l) mod la L = 0) [bytes])
    by (apply Forall_singleton; rewrite Hlen; apply Hsz).
  destruct (write_pieces_spec L HL cq_id m1 p qptr qfence [bytes] (lbase L + p) h Hm1 Hall) as (h2 & Hw & Hh2).
  - lia.
  - apply mod_add_zero; [done|done|]. apply (ha_pos _ _ _ _ _ _ Hm1).
  - cbn [concat]. rewrite app_nil_r. lia.
  - exists bytes, m2, (mem_write h r bytes), h2. split; [|split; [done|split; [done|split; [done|split]]]].
    + unfold send. cbn [fst snd]. fold n. rewrite Hres. cbn [mbind outcome_bind]. unfold region_bytes, store_region.
      rewrite (ha_bypass _ _ _ _ _ _ Hm1). unfold DeviceCommand_at. rewrite (multiple_4 n) by apply Hsz.
      cbn [Z.eqb check mbind outcome_bind]. fold s0. rewrite Hrun. fold bytes. cbn [mbind outcome_bind]. by rewrite Hpush.
    + unfold issue_command. cbn [concat fst snd]. rewrite app_nil_r, Hlen. rewrite Hres. cbn [mbind outcome_bind].
      rewrite (write_ptr_spec L HL cq_id m1 _ _ _ Hm1) by lia. cbn [mbind outcome_bind]. rewrite Hw.
      cbn [mbind outcome_bind]. by rewrite Hpush.
    + cbn [concat] in Hh2. rewrite app_nil_r in Hh2. intros x. by rewrite Hh2, Hr.
Qed.

(** ** The invariant of the command stream *)
Lemma Inv_ext c d h f m hp hp' p dev sent_ consumed_ :
  mem_eq hp hp' → Inv L cq_id c d h f (mk_system m hp p dev sent_ consumed_) →
  Inv L cq_id c d h f (mk_system m hp' p dev sent_ consumed_).
Proof.
  intros Hm [H1 H2 H3 H4 H5 H6 H7]. split; try done. intros j Hj cj Hcj.
  rewrite <- (H7 j Hj cj Hcj). apply mem_read_ext. intros x _. unfold host_view. symmetry. apply Hm.
Qed.

Lemma send_Inv c d h f s q P :
  Inv L cq_id c d h f s → phase s = Idle → sequence_ok q P →
  ∃ bytes m' h', send cq_id q (manager s, hugepage s) = Ok (m', h', bytes)
    ∧ Z.of_nat (length bytes) = cmd_sequence_size q ∧ P bytes
    ∧ Inv L cq_id c d h f (mk_system m' h' (Reserving (cmd_sequence_size q) (stall_prefetcher q)) (device s)
                     (sent s ++ [(bytes, stall_prefetcher q)]) (consumed s)).
Proof.
  intros Hs Hidle Hq. destruct (iv_host _ _ _ _ _ _ _ Hs) as (qptr & Hm & _). destruct (room_enough L HL) as [HM _].
  pose proof (ring_pos_bounds (lsize L) (lm L) HM (sizes (sent s)) (sizes_fit _ _ (iv_cmds _ _ _ _ _ _ _ Hs))) as Hpos.
  destruct (send_issue q P _ (hugepage s) _ _ _ Hq Hm Hpos) as (bytes & m' & h' & h2 & Hsend & Hlen & HP & Hok & Hissue & Hh).
  exists bytes, m', h'. split; [done|]. split; [done|]. split; [done|].
  destruct (step_issue L HL cq_id c d h f s [bytes] (stall_prefetcher q) Hs Hidle Hok) as (m3 & h3 & Hi & HI).
  rewrite Hissue in Hi. injection Hi as <- <-. apply (Inv_ext _ _ _ _ _ h2); [done|].
  cbn [concat] in HI. by rewrite app_nil_r, Hlen in HI.
Qed.
End send.
