(* ===== verification/EnqueueCommands.v ===== *)
(** * What the host enqueues (tt_metal/impl/dispatch/command_queue.cpp)

    The [process] functions of the commands, except for programs: each computes a
    size and adds commands to a sequence of that size, which [send] issues.  The
    members of the command objects are arguments; [lift_st] marks what is looked
    up while the sequence is assembled.  Reads of a buffer and of events from the
    completion queue are in [CompletionQueue]. *)
From S2P Require Import Prelude CommandQueue CoreCoord Buffer DeviceCommand EnqueueSend.

(** What the commands ask of the device: [noc_unicast_encoding] is
    [get_noc_unicast_encoding] with the index of the queue's NOC. *)
Record device_view := mk_device_view {
  num_hw_cqs : Z;
  dispatch_core_type : CoreType;
  noc_unicast_encoding : CoreCoord → Z;
  physical_core : BufferCoreType → CoreCoord → outcome CoreCoord;
  dispatcher_core : nat → CoreCoord;       (* physical coordinates, by queue *)
  program_dispatch_core : CoreCoord;       (* the core workers report to *)
  num_worker_cores : Z;
  num_eth_worker_cores : Z;
  dram_channel_from_logical_core : CoreCoord → outcome Z   (* of the soc descriptor *)
}.

(** [Device::dispatch_s_enabled], [Device::distributed_dispatcher] (device.cpp) *)
Definition dispatch_s_enabled (V : device_view) : bool :=
  (num_hw_cqs V =? 1) || bool_decide (dispatch_core_type V = WORKER).
Definition distributed_dispatcher (V : device_view) : bool :=
  (num_hw_cqs V =? 1) && bool_decide (dispatch_core_type V = ETH).

Definition EVENT_PADDED_SIZE : Z := 16.
Definition RUN_MSG_RESET_READ_PTR : Z := 0xc0.

Section commands.
Context (E : cmd_env) (c : dispatch_constants) (V : device_view).
Abbreviation pcie_alignment := (host_alignment (env_hal E)).
Abbreviation BARE_MIN_SIZE := (CQ_PREFETCH_CMD_BARE_MIN_SIZE E).

Definition device_addr (t : CommandQueueDeviceAddrType) : ST DeviceCommand Z :=
  lift_st (get_device_command_queue_addr c t).

(** ** Events *)

(** [event_payload.data()]: the event and zeros. *)
Definition event_payload (event_id : Z) : list Z := concat (le uint32_t <$> [event_id; 0; 0; 0]).

Definition last_event_addr (cq_id : nat) : ST DeviceCommand Z :=
  completion_q0_last_event_addr ← device_addr DEV_COMPLETION_Q0_LAST_EVENT;
  completion_q1_last_event_addr ← device_addr DEV_COMPLETION_Q1_LAST_EVENT;
  mret (if (cq_id =? 0)%nat then completion_q0_last_event_addr else completion_q1_last_event_addr).

Definition packed_event_payload_sizeB : Z :=
  let num_hw_cqs := u8 (num_hw_cqs V) in
  let l1_alignment := l1_alignment (env_hal E) in
  u32 (align (sizeof_CQDispatchCmd + num_hw_cqs * sizeof_PackedSubCmd false) l1_alignment
       + align EVENT_PADDED_SIZE l1_alignment * num_hw_cqs).

Definition EnqueueRecordEventCommand_process (command_queue_id : nat) (event_id expected_num_workers_completed : Z)
  (clear_count write_barrier : bool) : command_sequence :=
  let num_hw_cqs := u8 (num_hw_cqs V) in
  let packed_write_sizeB := align (sizeof_CQPrefetchCmd + packed_event_payload_sizeB) pcie_alignment in
  mk_sequence
    (u32 (BARE_MIN_SIZE + packed_write_sizeB
          + align (sizeof_CQPrefetchCmd + sizeof_CQDispatchCmd + EVENT_PADDED_SIZE) pcie_alignment))
    (dispatch_message_addr ← device_addr DEV_DISPATCH_MESSAGE;
     _ ← add_dispatch_wait E (Z.b2z write_barrier) dispatch_message_addr expected_num_workers_completed
           (Z.b2z clear_count) false true 0;
     let cqs := seq 0 (Z.to_nat num_hw_cqs) in
     let unicast_sub_cmds :=
       (λ cq_id, CQDispatchWritePackedUnicastSubCmd (noc_unicast_encoding V (dispatcher_core V cq_id))) <$> cqs in
     let event_payloads := (λ _, (event_payload event_id, EVENT_PADDED_SIZE)) <$> cqs in
     address ← last_event_addr command_queue_id;
     _ ← add_dispatch_write_packed E false num_hw_cqs address EVENT_PADDED_SIZE packed_event_payload_sizeB
           unicast_sub_cmds event_payloads (num_worker_cores V) 0 false 0;
     add_dispatch_write_host E true true EVENT_PADDED_SIZE true (Some (event_payload event_id)))
    false.

Definition EnqueueWaitForEventCommand_process (sync_cq_id : nat) (event_id : Z) (clear_count : bool) : command_sequence :=
  mk_sequence BARE_MIN_SIZE
    (last_completed_event_address ← last_event_addr sync_cq_id;
     add_dispatch_wait E 0 last_completed_event_address event_id (Z.b2z clear_count) false true 0)
    false.

(** ** Replay of a trace *)

(** [go_msg_t] as a word; [pad] is a member nobody assigns. *)
Definition reset_launch_message_read_ptr_go_signal (pad : Z) : Z :=
  le_value [pad; u8 (x (program_dispatch_core V)); u8 (y (program_dispatch_core V)); RUN_MSG_RESET_READ_PTR].

(** [__builtin_ctz] *)
Definition ctz (n : Z) : Z := Z.log2 (Z.land n (- n)).

(** The trace's descriptor, as far as the command looks at it. *)
Record TraceDescriptor := mk_trace_descriptor {
  num_traced_programs_needing_go_signal_multicast : Z;
  num_traced_programs_needing_go_signal_unicast : Z
}.

Definition go_signal_flags (desc : TraceDescriptor) : Z :=
  Z.lor (if num_traced_programs_needing_go_signal_multicast desc =? 0 then 0 else SEND_MCAST)
        (if num_traced_programs_needing_go_signal_unicast desc =? 0 then 0 else SEND_UNICAST).

(** The workers that will have answered the go signal. *)
Definition workers_after_reset (desc : TraceDescriptor) (expected_num_workers_completed : Z) : Z :=
  let n := if num_traced_programs_needing_go_signal_multicast desc =? 0 then expected_num_workers_completed
           else u32 (expected_num_workers_completed + num_worker_cores V) in
  if num_traced_programs_needing_go_signal_unicast desc =? 0 then n else u32 (n + num_eth_worker_cores V).

(** With it the new value of [expected_num_workers_completed], which the command holds by reference. *)
Definition EnqueueTraceCommand_process (desc : TraceDescriptor) (buffer : Buffer) (pad expected_num_workers_completed : Z)
  : command_sequence * Z :=
  let slave := dispatch_s_enabled V in
  let distributed := distributed_dispatcher V in
  let expected := workers_after_reset desc expected_num_workers_completed in
  (mk_sequence
     (u32 (Z.b2z slave * BARE_MIN_SIZE + BARE_MIN_SIZE + BARE_MIN_SIZE + Z.b2z distributed * BARE_MIN_SIZE + BARE_MIN_SIZE))
     (_ ← (if slave then add_notify_dispatch_s_go_signal_cmd E else mret tt);
      dispatch_message_addr ← device_addr DEV_DISPATCH_MESSAGE;
      _ ← add_dispatch_go_signal_mcast E expected_num_workers_completed (go_signal_flags desc)
            (reset_launch_message_read_ptr_go_signal pad) dispatch_message_addr
            (if slave then DISPATCH_SLAVE else DISPATCH_MASTER);
      _ ← (if distributed then add_dispatch_wait E 0 dispatch_message_addr expected 1 false true 1 else mret tt);
      _ ← add_dispatch_wait E 0 dispatch_message_addr expected 1 false true 0;
      let page_size := u32 (page_size_ buffer) in
      _ ← check_st (Z.land page_size (page_size - 1) =? 0) TT_ASSERT;
      pages ← lift_st (num_pages buffer);
      add_prefetch_exec_buf E (buffer_address buffer) (ctz page_size) pages)
     true,
   0).

(** ** Termination: two or three sequences, one after the other. *)
Definition EnqueueTerminateCommand_process : list command_sequence :=
  mk_sequence BARE_MIN_SIZE (add_dispatch_terminate E DISPATCH_MASTER) false
  :: (if dispatch_s_enabled V then [mk_sequence BARE_MIN_SIZE (add_dispatch_terminate E DISPATCH_SLAVE) false] else [])
  ++ [mk_sequence BARE_MIN_SIZE (add_prefetch_terminate E) false].

(** [HWCommandQueue::set_unicast_only_cores_on_dispatch] *)
Definition set_unicast_only_cores_on_dispatch (unicast_only_noc_encodings : list Z) : command_sequence :=
  mk_sequence (align (u32 (BARE_MIN_SIZE + Z.of_nat (length unicast_only_noc_encodings) * 4)) pcie_alignment)
    (add_dispatch_set_unicast_only_cores E unicast_only_noc_encodings
       (if dispatch_s_enabled V then DISPATCH_SLAVE else DISPATCH_MASTER))
    false.

(** ** Buffers *)
Context (d : Device).

(** [EnqueueReadInterleavedBufferCommand::add_prefetch_relay], [EnqueueReadShardedBufferCommand::add_prefetch_relay] *)
Definition add_prefetch_relay_interleaved (buffer : Buffer) (src_page_index pages_to_read : Z) : ST DeviceCommand unit :=
  padded_page_size ← lift_st (aligned_page_size d buffer);
  add_prefetch_relay_paged E (Z.b2z (is_dram buffer)) (u8 src_page_index) (buffer_address buffer) padded_page_size
    pages_to_read 0.

Definition add_prefetch_relay_sharded (buffer : Buffer) (core : CoreCoord) (bank_base_address pages_to_read : Z)
  : ST DeviceCommand unit :=
  padded_page_size ← lift_st (aligned_page_size d buffer);
  core_type ← lift_st (buffer_core_type buffer);
  physical ← lift_st (physical_core V core_type core);
  add_prefetch_relay_linear E (noc_unicast_encoding V physical) (u32 (padded_page_size * pages_to_read)) bank_base_address.

Definition EnqueueReadBufferCommand_process (buffer : Buffer) (add_prefetch_relay : ST DeviceCommand unit)
  (expected_num_workers_completed pages_to_read : Z) : command_sequence :=
  mk_sequence (u32 (BARE_MIN_SIZE + BARE_MIN_SIZE + BARE_MIN_SIZE + BARE_MIN_SIZE))
    (dispatch_message_addr ← device_addr DEV_DISPATCH_MESSAGE;
     _ ← add_dispatch_wait_with_prefetch_stall E 1 dispatch_message_addr expected_num_workers_completed 0 true;
     padded_page_size ← lift_st (aligned_page_size d buffer);
     _ ← add_dispatch_write_host E false false (u32 (pages_to_read * padded_page_size)) false None;
     add_prefetch_relay)
    false.

(** The part of the host's data from an offset on. *)
Definition from (src : list Z) (offset_ : Z) : list Z := drop (Z.to_nat offset_) src.

(** *** Interleaved *)
Section write_interleaved.
Context (buffer : Buffer) (src : list Z) (bank_base_address padded_page_size dst_page_index pages_to_write : Z).

Definition add_dispatch_write_interleaved : ST DeviceCommand unit :=
  _ ← check_st (dst_page_index <=? 0xFFFF) TT_ASSERT;
  add_dispatch_write_paged E false true (Z.b2z (is_dram buffer)) (u16 (Z.land dst_page_index 0xFFFF)) bank_base_address
    padded_page_size pages_to_write None.

(** The loop over the pages: [page] copies one and returns the next source offset. *)
Fixpoint copy_loop (page : Z → ST DeviceCommand Z) (fuel : nat) (data_size_bytes sysmem_address_offset src_address_offset : Z)
  : ST DeviceCommand unit :=
  if sysmem_address_offset <? data_size_bytes then
    match fuel with
    | O => throw_st FUEL
    | S fuel =>
      src_address_offset ← page src_address_offset;
      copy_loop page fuel data_size_bytes (u32 (sysmem_address_offset + padded_page_size)) src_address_offset
    end
  else mret tt.

(** The last partial page comes from an unpadded source. *)
Definition copy_partial (full_page_size src_address_offset : Z) : ST DeviceCommand Z :=
  let page_size := u32 (page_size_ buffer) in
  let padding := u32 (full_page_size - page_size) in
  let page_size_to_copy :=
    if page_size <? u32 (src_address_offset + padded_page_size) then u32 (padded_page_size - padding)
    else padded_page_size in
  _ ← add_data E (from src src_address_offset) page_size_to_copy padded_page_size;
  mret (u32 (src_address_offset + page_size_to_copy)).

Definition copy_page (src_address_offset : Z) : ST DeviceCommand Z :=
  let page_size := u32 (page_size_ buffer) in
  _ ← add_data E (from src src_address_offset) page_size padded_page_size;
  mret (u32 (src_address_offset + page_size)).

Definition add_buffer_data_interleaved : ST DeviceCommand unit :=
  let data_size_bytes := u32 (pages_to_write * padded_page_size) in
  full_page_size ← lift_st (aligned_page_size d buffer);
  let write_partial_pages := padded_page_size <? full_page_size in
  let buffer_addr_offset := u32 (bank_base_address - buffer_address buffer) in
  num_banks ← lift_st (DeviceAllocator.num_banks (device_allocator d) (buffer_type_ buffer));
  if write_partial_pages then
    copy_loop (copy_partial full_page_size) (Z.to_nat pages_to_write) data_size_bytes 0 buffer_addr_offset
  else
    let page_size := u32 (page_size_ buffer) in
    q ← lift_st (udiv buffer_addr_offset padded_page_size);
    let unpadded_src_offset := u32 (u32 (u32 (q * num_banks) + dst_page_index) * page_size) in
    a ← lift_st (buffer_alignment d);
    r ← lift_st (umod page_size a);
    if negb (r =? 0) && negb (page_size =? u32 (size_ buffer)) then
      copy_loop copy_page (Z.to_nat pages_to_write) data_size_bytes 0 unpadded_src_offset
    else add_data E (from src unpadded_src_offset) data_size_bytes data_size_bytes.
End write_interleaved.

(** *** Sharded *)
Section write_sharded.
Context (buffer : Buffer) (src : list Z) (page_mapping : option BufferPageMapping) (core : CoreCoord).
Context (bank_base_address padded_page_size dst_page_index pages_to_write : Z).

Definition add_dispatch_write_sharded : ST DeviceCommand unit :=
  core_type ← lift_st (buffer_core_type buffer);
  physical ← lift_st (physical_core V core_type core);
  add_dispatch_write_linear E false true 0 (noc_unicast_encoding V physical) bank_base_address
    (u32 (pages_to_write * padded_page_size)) None 0.

(** One page of the device: its host page, when it has one, copied to its place. *)
Definition copy_mapped_page (mapping : BufferPageMapping) (dst_offset dev_page : Z) : ST DeviceCommand unit :=
  let page_size := u32 (page_size_ buffer) in
  host_page ← lift_st (at_ (dev_page_to_host_page_mapping_ mapping) (Z.to_nat dev_page));
  match host_page with
  | Some host_page =>
    update_cmd_sequence E dst_offset (from src (u32 (host_page * page_size))) page_size
  | None => mret tt
  end.

Fixpoint copy_mapped (mapping : BufferPageMapping) (dst_offset : Z) (dev_pages : list Z) : ST DeviceCommand unit :=
  match dev_pages with
  | [] => mret tt
  | dev_page :: dev_pages =>
    _ ← copy_mapped_page mapping dst_offset dev_page;
    copy_mapped mapping (u32 (dst_offset + padded_page_size)) dev_pages
  end.

Fixpoint copy_pages (pages : nat) (unpadded_src_offset : Z) : ST DeviceCommand unit :=
  match pages with
  | O => mret tt
  | S pages =>
    let page_size := u32 (page_size_ buffer) in
    _ ← add_data E (from src unpadded_src_offset) page_size padded_page_size;
    copy_pages pages (u32 (unpadded_src_offset + page_size))
  end.

Definition add_buffer_data_sharded : ST DeviceCommand unit :=
  let data_size_bytes := u32 (pages_to_write * padded_page_size) in
  let page_size := u32 (page_size_ buffer) in
  match page_mapping with
  | Some mapping =>
    dst_offset ← reserve_space E true data_size_bytes;
    copy_mapped mapping dst_offset (range_u32 dst_page_index (u32 (dst_page_index + pages_to_write)))
  | None =>
    let unpadded_src_offset := u32 (dst_page_index * page_size) in
    if negb (page_size =? padded_page_size) && negb (page_size =? u32 (size_ buffer)) then
      copy_pages (Z.to_nat pages_to_write) unpadded_src_offset
    else add_data E (from src unpadded_src_offset) data_size_bytes data_size_bytes
  end.
End write_sharded.

Definition EnqueueWriteBufferCommand_process (add_dispatch_write add_buffer_data : ST DeviceCommand unit)
  (issue_wait : bool) (expected_num_workers_completed padded_page_size pages_to_write : Z) : command_sequence :=
  let data_size_bytes := u32 (pages_to_write * padded_page_size) in
  let cmd_sequence_sizeB := u32 (BARE_MIN_SIZE + data_size_bytes) in
  mk_sequence (if issue_wait then u32 (cmd_sequence_sizeB + BARE_MIN_SIZE) else cmd_sequence_sizeB)
    (_ ← (if issue_wait then
            dispatch_message_addr ← device_addr DEV_DISPATCH_MESSAGE;
            add_dispatch_wait E 0 dispatch_message_addr expected_num_workers_completed 0 false true 0
          else mret tt);
     _ ← add_dispatch_write;
     add_buffer_data)
    false.
End commands.
