(* ===== verification/EnqueueSpec.v ===== *)
(** * What the enqueued commands do

    For each command but those on buffers: its sequence fills the size it
    computes, fits the largest command of the prefetch queue, and is executed
    with the effects asked for.  The host gets the command in front of the data
    it is sent, so that part of it is unspecified. *)
From S2P Require Import Prelude CommandQueue CommandQueueProps CommandStreamHost Prefetcher CommandStream CoreCoord Buffer DeviceCommand DeviceCommandSpec DeviceExecution DeviceCommandOps EnqueueSend EnqueueCommands CoreCoordProps.
(** The kernels of the device belong to the host's queue. *)
Record kernels_ok (L : layout) (E : cmd_env) (c : dispatch_constants) (V : device_view) (D : device_args) : Prop := mk_kernels_ok {
  ko_layout : layout_ok L;
  ko_env : env_ok E;
  ko_hugepage : hugepage_write E = true;
  ko_align : host_alignment (env_hal E) = la L;
  ko_command : 32768 <= lm L;
  ko_addrs : ∀ t, ∃ x, get_device_command_queue_addr c t = Ok x ∧ in_range 32 x;
  ko_queues : 1 <= num_hw_cqs V <= 2;
  ko_workers : num_hw_cqs V <= num_worker_cores V;
  ko_encodings : ∀ core, in_range 32 (noc_unicast_encoding V core);
  ko_bare : da_bare_min_size D = host_alignment (env_hal E);
  ko_unicast : da_max_unicast D = num_worker_cores V;
  ko_distributed : da_distributed D = distributed_dispatcher V;
  ko_worker_sem : get_device_command_queue_addr c DEV_DISPATCH_MESSAGE = Ok (da_worker_sem D)
}.

(** Bytes that are executed with effects among [A]; the write offsets stay. *)
Definition performs (D : device_args) (read : action → outcome (list Z)) (A : (list Z → list event) → Prop) (l : list Z) : Prop :=
  ∃ e, A e ∧ effects D read e id l.

Section spec.
Context (L : layout) (E : cmd_env) (c : dispatch_constants) (V : device_view) (D : device_args).
Context (read : action → outcome (list Z)) (HK : kernels_ok L E c V D).
Abbreviation pa := (host_alignment (env_hal E)).
Abbreviation round_up := (round_up E).
Abbreviation emits := (emits E).
Abbreviation effects := (effects D read).
Abbreviation performs := (performs D read).
Abbreviation sequence_ok := (sequence_ok L E).

Let HE : env_ok E := ko_env _ _ _ _ _ HK.
Let Hbare : da_bare_min_size D = pa := ko_bare _ _ _ _ _ HK.

Definition addr_of (t : CommandQueueDeviceAddrType) : Z := ret_or 0 (get_device_command_queue_addr c t).

Lemma addr_of_spec t : get_device_command_queue_addr c t = Ok (addr_of t) ∧ in_range 32 (addr_of t).
Proof. unfold addr_of. destruct (ko_addrs _ _ _ _ _ HK t) as (x & -> & Hx). done. Qed.

Lemma emits_lift {A} (o : outcome A) a (k : A → ST DeviceCommand unit) n P :
  o = Ok a → emits (k a) n P → emits (a ← lift_st o; k a) n P.
Proof. intros Ho. apply (emits_ext E). intros s. symmetry. by apply run_lift. Qed.

Lemma emits_addr t (k : Z → ST DeviceCommand unit) n P :
  emits (k (addr_of t)) n P → emits (x ← device_addr c t; k x) n P.
Proof. apply emits_lift, addr_of_spec. Qed.

(** The address of the last completed event of a queue. *)
Definition last_event (cq_id : nat) : Z :=
  addr_of (if (cq_id =? 0)%nat then DEV_COMPLETION_Q0_LAST_EVENT else DEV_COMPLETION_Q1_LAST_EVENT).

Lemma emits_last_event cq_id (k : Z → ST DeviceCommand unit) n P :
  emits (k (last_event cq_id)) n P → emits (x ← last_event_addr c cq_id; k x) n P.
Proof.
  apply (emits_ext E). intros s. unfold last_event_addr, device_addr, last_event.
  rewrite !ST_bind_assoc.
  rewrite (run_lift _ _ _ _ (proj1 (addr_of_spec DEV_COMPLETION_Q0_LAST_EVENT))), ST_bind_assoc.
  rewrite (run_lift _ _ _ _ (proj1 (addr_of_spec DEV_COMPLETION_Q1_LAST_EVENT))).
  by destruct (cq_id =? 0)%nat.
Qed.

Lemma last_event_range cq_id : in_range 32 (last_event cq_id).
Proof. apply addr_of_spec. Qed.

Lemma seq_effects m1 n1 e1 m2 n2 e2 :
  emits m1 n1 (effects e1 id) → emits m2 n2 (effects e2 id) → n1 mod pa = 0 → 0 <= n2 →
  emits (_ ← m1; m2) (n1 + n2) (effects (λ o, e1 o ++ e2 o) id).
Proof.
  intros H1 H2 Hn1 Hn2. eapply (emits_mono E); [|by apply (emits_seq E HE _ _ _ _ _ _ H1 H2)].
  intros l _ (l1 & l2 & -> & _ & Hl1 & Hl2). exact (effects_app _ _ _ _ _ _ _ _ Hl1 Hl2).
Qed.

Lemma pa_mod : pa mod pa = 0.
Proof. apply Z.mod_same. pose proof (pa_bounds E HE). lia. Qed.

(** A size as it is computed, and that it is one of the queue's. *)
Lemma multiple_size n : n mod pa = 0 → 0 < n <= 32768 → size_ok L n.
Proof.
  intros Hn Hb. pose proof (ko_command _ _ _ _ _ HK). split; [lia|]. by rewrite <- (ko_align _ _ _ _ _ HK).
Qed.

Lemma mod_pa_add a b : a mod pa = 0 → b mod pa = 0 → (a + b) mod pa = 0.
Proof.
  intros Ha Hb. pose proof (pa_bounds E HE). rewrite Z.add_mod, Ha, Hb by lia. by apply Z.mod_0_l; lia.
Qed.

(** ** Waiting for an event *)
Lemma wait_for_event_ok sync_cq_id event_id clear_count :
  in_range 32 event_id →
  sequence_ok (EnqueueWaitForEventCommand_process E c sync_cq_id event_id clear_count)
    (performs (λ e, e = λ _, [dispatched (wait_effect 0 (last_event sync_cq_id) event_id (Z.b2z clear_count) false true)])).
Proof.
  intros He. pose proof (pa_bounds E HE). apply (sequence_emits L E HE).
  - apply multiple_size; [apply pa_mod|]. cbn. unfold CQ_PREFETCH_CMD_BARE_MIN_SIZE. lia.
  - cbn [assemble cmd_sequence_size EnqueueWaitForEventCommand_process]. apply emits_last_event.
    eapply (emits_mono E); [|apply (wait_emits E HE D read); [done|apply last_event_range|done|by destruct clear_count]].
    intros l _ Hl. by eexists.
Qed.

(** ** Recording an event *)
Abbreviation hw_cqs := (seq 0 (Z.to_nat (num_hw_cqs V))).

(** The event reaches the dispatcher of every queue and then the host. *)
Definition event_recorded (command_queue_id : nat) (event_id expected : Z) (clear_count write_barrier : bool)
  (header : list Z) (o : list Z) : list event :=
  [dispatched (wait_effect (Z.b2z write_barrier) (addr_of DEV_DISPATCH_MESSAGE) expected (Z.b2z clear_count) false true)]
  ++ ((λ cq_id, dispatched (noc_write (noc_unicast_encoding V (dispatcher_core V cq_id))
         (u32 (last_event command_queue_id + nth 0 o 0)) (event_payload event_id))) <$> hw_cqs)
  ++ [dispatched (host_write (header ++ event_payload event_id))].

Lemma length_event_payload event_id : length (event_payload event_id) = 16%nat.
Proof. reflexivity. Qed.

Lemma zip_fmap_const {A B C} (f : B → A → C) (g : nat → B) (a : A) l :
  zip_with f (g <$> l) ((λ _, a) <$> l) = (λ x, f (g x) a) <$> l.
Proof. induction l as [|x l IH]; [done|]. cbn. by rewrite IH. Qed.

Lemma packed_event_spec command_queue_id event_id :
  let n := num_hw_cqs V in
  emits (add_dispatch_write_packed E false n (last_event command_queue_id) EVENT_PADDED_SIZE (packed_event_payload_sizeB E V)
           ((λ cq_id, CQDispatchWritePackedUnicastSubCmd (noc_unicast_encoding V (dispatcher_core V cq_id))) <$> hw_cqs)
           ((λ _, (event_payload event_id, EVENT_PADDED_SIZE)) <$> hw_cqs) (num_worker_cores V) 0 false 0)
    (round_up (16 + packed_event_payload_sizeB E V))
    (effects (λ o, (λ cq_id, dispatched (noc_write (noc_unicast_encoding V (dispatcher_core V cq_id))
         (u32 (last_event command_queue_id + nth 0 o 0)) (event_payload event_id))) <$> hw_cqs) id)
  ∧ 16 + packed_event_payload_sizeB E V <= 128.
Proof.
  intros n. pose proof (ko_queues _ _ _ _ _ HK) as Hn. fold n in Hn.
  set (subs := (λ cq_id, CQDispatchWritePackedUnicastSubCmd (noc_unicast_encoding V (dispatcher_core V cq_id))) <$> hw_cqs).
  assert (Hsl : length subs = Z.to_nat n) by (unfold subs; by rewrite length_fmap, length_seq).
  assert (Hpay : packed_event_payload_sizeB E V = 16 + up16 (n * sizeof_PackedSubCmd false) + n * 16).
  { unfold packed_event_payload_sizeB. fold n. rewrite (u8_small n) by lia.
    rewrite !(align_l1 E HE) by (change sizeof_CQDispatchCmd with 16; change (sizeof_PackedSubCmd false) with 4; change EVENT_PADDED_SIZE with 16; lia).
    fold (up16 (sizeof_CQDispatchCmd + n * sizeof_PackedSubCmd false)) (up16 EVENT_PADDED_SIZE).
    change sizeof_CQDispatchCmd with 16. rewrite up16_add. change (up16 EVENT_PADDED_SIZE) with 16.
    change (sizeof_PackedSubCmd false) with 4. pose proof (up16_spec (n * 4) ltac:(lia)). rewrite u32_small; lia. }
  pose proof (up16_spec (n * 4) ltac:(lia)) as [Hu _]. change (sizeof_PackedSubCmd false) with 4 in Hpay.
  split; [|lia].
  eapply (emits_mono E); [|apply (write_packed_emits E HE D read TT_FATAL
    (copy_pair E ((λ _, (event_payload event_id, EVENT_PADDED_SIZE)) <$> hw_cqs)) false false subs (last_event command_queue_id)
    EVENT_PADDED_SIZE _ _ 0 0%nat n (λ _ q, take 16 q = event_payload event_id))].
  - intros l _ (ds & Hds & He).
    assert (Hall : ds = (λ _, event_payload event_id) <$> hw_cqs).
    { unfold packed_data in Hds. fold n. clear He. revert ds Hds. generalize (seq 0 (Z.to_nat n)). intros js ds Hds.
      induction Hds as [|j d js ds (q & _ & Hq & ->) _ IH]; [done|]. cbn. f_equal; [exact Hq|exact IH]. }
    rewrite drop_0, take_ge, Hall in He by lia. intros o Ho. destruct (He o Ho) as [H1 H2]. split; [exact H1|].
    unfold spread in H2. unfold subs in H2. rewrite zip_fmap_const in H2. rewrite <- list_fmap_compose in H2. exact H2.
  - assert (Hsubs : Forall (sub_cmd_ok false) subs).
    { apply Forall_fmap, Forall_true. intros j. split; [done|]. apply (ko_encodings _ _ _ _ _ HK). }
    split; [rewrite drop_0, take_ge; lia|by rewrite drop_0, take_ge by lia|by rewrite (ko_unicast _ _ _ _ _ HK)| |..].
    + rewrite drop_0, take_ge by lia. pose proof (ko_workers _ _ _ _ _ HK). split; try lia.
      * rewrite (ko_unicast _ _ _ _ _ HK), Hsl. lia.
      * apply last_event_range.
      * change EVENT_PADDED_SIZE with 16. lia.
    + change (up16 EVENT_PADDED_SIZE) with 16. rewrite Hpay. change (sizeof_PackedSubCmd false) with 4. lia.
    + intros j k Hj Hk. apply (copy_pair_appends E HE _ _ (event_payload event_id) EVENT_PADDED_SIZE); try done.
      * rewrite list_lookup_fmap, lookup_seq_lt by (fold n; lia). done.
Qed.

Lemma record_event_ok command_queue_id event_id expected clear_count write_barrier :
  in_range 32 event_id → in_range 32 expected →
  sequence_ok (EnqueueRecordEventCommand_process E c V command_queue_id event_id expected clear_count write_barrier)
    (performs (λ e, ∃ b, length b = 16%nat
       ∧ e = event_recorded command_queue_id event_id expected clear_count write_barrier (host_header true 16 b))).
Proof.
  intros He Hx. pose proof (pa_bounds E HE) as [Hb Hb16]. pose proof (ko_queues _ _ _ _ _ HK) as Hn.
  destruct (packed_event_spec command_queue_id event_id) as [Hpacked Hsmall].
  assert (Hpos : 0 <= packed_event_payload_sizeB E V) by (unfold packed_event_payload_sizeB; apply u32_range).
  destruct (round_up_bounds E HE (16 + packed_event_payload_sizeB E V) ltac:(lia)) as [Hr1 Hm1].
  destruct (round_up_bounds E HE 48 ltac:(lia)) as [Hr2 Hm2].
  assert (Hsize : cmd_sequence_size (EnqueueRecordEventCommand_process E c V command_queue_id event_id expected clear_count write_barrier)
    = pa + (round_up (16 + packed_event_payload_sizeB E V) + round_up 48)).
  { cbn [cmd_sequence_size EnqueueRecordEventCommand_process]. change sizeof_CQPrefetchCmd with 16. change sizeof_CQDispatchCmd with 16.
    change EVENT_PADDED_SIZE with 16. change (16 + 16 + 16) with 48. rewrite !(align_pa E HE) by lia. unfold CQ_PREFETCH_CMD_BARE_MIN_SIZE.
    rewrite u32_small; lia. }
  apply (sequence_emits L E HE); [rewrite Hsize; apply multiple_size; [repeat apply mod_pa_add; done || apply pa_mod|lia]|].
  rewrite Hsize. cbn [assemble EnqueueRecordEventCommand_process]. rewrite (u8_small (num_hw_cqs V)) by lia. apply emits_addr.
  eapply (emits_mono E).
  2:{ apply (emits_seq E HE); [apply (wait_emits E HE D read); [by destruct write_barrier|apply addr_of_spec|done|by destruct clear_count]
        | |apply pa_mod|lia].
      apply emits_last_event. apply (emits_seq E HE); [exact Hpacked| |done|lia].
      apply (write_host_inline_emits E HE D read 16 true (event_payload event_id)); rewrite ?length_event_payload; done. }
  intros l _ (l1 & l2 & -> & _ & H1 & l3 & l4 & -> & _ & H3 & b & Hbl & H4).
  eexists. split; [by exists b|]. change (take (Z.to_nat 16) (event_payload event_id)) with (event_payload event_id) in H4.
  exact (effects_app _ _ _ _ _ _ _ _ H1 (effects_app _ _ _ _ _ _ _ _ H3 H4)).
Qed.

(** ** Replay of a trace *)
Lemma emits_when (b : bool) m n e :
  (b = true → emits m n (effects e id)) → emits (if b then m else mret tt) (Z.b2z b * n) (effects (λ o, if b then e o else []) id).
Proof.
  intros Hm. destruct b; [rewrite Z.mul_1_l; by apply Hm|]. rewrite Z.mul_0_l. eapply (emits_mono E); [|apply (emits_skip E)].
  intros l _ ->. apply effects_nil.
Qed.

Lemma exec_buf_emits base log pages :
  in_range 32 base → in_range 32 log → in_range 32 pages →
  emits (add_prefetch_exec_buf E base log pages) pa (effects (λ _, [exec_buf_started base log pages]) id).
Proof.
  intros H1 H2 H3. eapply (emits_mono E); [|by apply (exec_buf_reads E HE D Hbare)]. intros l Hl Hr. pose proof (pa_bounds E HE).
  eapply reads_effects; [exact Hr|intros ->; simpl in Hl; lia|done|done].
Qed.

Lemma go_signal_range pad : in_range 8 pad → in_range 32 (reset_launch_message_read_ptr_go_signal V pad).
Proof.
  unfold in_range, reset_launch_message_read_ptr_go_signal. intros Hp. cbn [le_value].
  pose proof (u8_range (x (program_dispatch_core V))). pose proof (u8_range (y (program_dispatch_core V))).
  change RUN_MSG_RESET_READ_PTR with 192. lia.
Qed.

Lemma go_signal_flags_spec desc :
  in_range 8 (go_signal_flags desc)
  ∧ negb (Z.land (go_signal_flags desc) SEND_MCAST =? 0) = negb (num_traced_programs_needing_go_signal_multicast desc =? 0)
  ∧ negb (Z.land (go_signal_flags desc) SEND_UNICAST =? 0) = negb (num_traced_programs_needing_go_signal_unicast desc =? 0).
Proof. unfold go_signal_flags. repeat case_match; done. Qed.

(** A power of two is told by its lowest bit. *)
Lemma ctz_pow2 k : 0 <= k → ctz (2 ^ k) = k.
Proof.
  intros Hk. unfold ctz. replace (Z.land (2 ^ k) (- 2 ^ k)) with (2 ^ k); [by apply Z.log2_pow2|].
  apply Z.bits_inj'. intros i Hi. rewrite Z.land_spec, Z.pow2_bits_eqb by done.
  destruct (Z.eqb_spec k i) as [<-|]; [|done]. replace (- 2 ^ k) with (Z.shiftl (-1) k) by (rewrite Z.shiftl_mul_pow2; lia).
  rewrite Z.shiftl_spec by done. by rewrite Z.sub_diag.
Qed.

Record trace_ok (buffer : Buffer) (log pages : Z) : Prop := mk_trace_ok {
  to_log : 0 <= log < 32;
  to_page_size : u32 (page_size_ buffer) = 2 ^ log;
  to_pages : Buffer.num_pages buffer = Ok pages
}.

(** Workers are told to reset their read pointers, all of them have answered, the trace starts. *)
Definition trace_started (desc : TraceDescriptor) (buffer : Buffer) (log pages pad expected : Z) (_ : list Z) : list event :=
  (if dispatch_s_enabled V then [dispatched notify_dispatch_s] else [])
  ++ [dispatched_by (if dispatch_s_enabled V then DISPATCH_SLAVE else DISPATCH_MASTER)
        (send_go_signal (negb (num_traced_programs_needing_go_signal_multicast desc =? 0))
           (negb (num_traced_programs_needing_go_signal_unicast desc =? 0))
           (reset_launch_message_read_ptr_go_signal V pad) expected (addr_of DEV_DISPATCH_MESSAGE))]
  ++ (if distributed_dispatcher V
      then [dispatched_s (wait_for false (Some (addr_of DEV_DISPATCH_MESSAGE, workers_after_reset V desc expected))
                            (Some (addr_of DEV_DISPATCH_MESSAGE)) false)]
      else [])
  ++ [dispatched (wait_effect 0 (addr_of DEV_DISPATCH_MESSAGE) (workers_after_reset V desc expected) 1 false true)]
  ++ [exec_buf_started (buffer_address buffer) log pages].

Lemma num_pages_range b pages : Buffer.num_pages b = Ok pages → in_range 32 pages.
Proof.
  unfold Buffer.num_pages, udiv. destruct (page_size_ b =? 0); [done|]. cbn [mbind outcome_bind]. intros [= <-]. apply u32_range.
Qed.

Lemma workers_range desc expected : in_range 32 expected → in_range 32 (workers_after_reset V desc expected).
Proof. intros H. unfold workers_after_reset. repeat case_match; try apply u32_range; done. Qed.

Lemma worker_sem_addr : da_worker_sem D = addr_of DEV_DISPATCH_MESSAGE.
Proof. unfold addr_of. by rewrite (ko_worker_sem _ _ _ _ _ HK). Qed.

Lemma trace_process_ok desc buffer log pages pad expected :
  trace_ok buffer log pages → in_range 8 pad → in_range 32 expected →
  sequence_ok (EnqueueTraceCommand_process E c V desc buffer pad expected).1
    (performs (λ e, e = trace_started desc buffer log pages pad expected)).
Proof.
  intros [Hlog Hps Hpages] Hpad Hx. pose proof (pa_bounds E HE) as [Hb Hb16]. pose proof pa_mod as Hpm.
  destruct (go_signal_flags_spec desc) as (Hflags & Hmc & Huc).
  set (slave := dispatch_s_enabled V). set (distributed := distributed_dispatcher V).
  set (expected' := workers_after_reset V desc expected). pose proof (workers_range desc expected Hx) as Hx'. fold expected' in Hx'.
  assert (Hmul : ∀ b : bool, (Z.b2z b * pa) mod pa = 0) by (intros; apply Z_mod_mult).
  assert (Hsize : cmd_sequence_size (EnqueueTraceCommand_process E c V desc buffer pad expected).1
    = Z.b2z slave * pa + (pa + (Z.b2z distributed * pa + (pa + pa)))).
  { cbn [cmd_sequence_size EnqueueTraceCommand_process fst]. fold slave distributed. unfold CQ_PREFETCH_CMD_BARE_MIN_SIZE.
    destruct slave, distributed; cbn [Z.b2z]; rewrite u32_small; lia. }
  assert (Hcond : ∀ b : bool, 0 <= Z.b2z b * pa <= 64) by (intros []; simpl; lia).
  apply (sequence_emits L E HE); [rewrite Hsize; apply multiple_size; [repeat apply mod_pa_add; done|pose proof (Hcond slave); pose proof (Hcond distributed); lia]|].
  rewrite Hsize. cbn [assemble EnqueueTraceCommand_process fst]. fold slave distributed expected'.
  eapply (emits_mono E).
  2:{ apply seq_effects; [apply emits_when; intros _; apply (notify_emits E HE D read)| |done|pose proof (Hcond distributed); lia].
      apply emits_addr. apply seq_effects.
      { apply (go_signal_emits E HE D read); [done|done|by apply go_signal_range|apply addr_of_spec]. }
      2: done. 2: pose proof (Hcond distributed); lia.
      apply seq_effects; [| |done|lia].
      { apply emits_when. intros Hd. rewrite <- worker_sem_addr. apply (wait_s_emits E HE D read); try done.
        - rewrite worker_sem_addr. apply addr_of_spec.
        - rewrite (ko_distributed _ _ _ _ _ HK). exact Hd. }
      apply seq_effects; [apply (wait_emits E HE D read); [done|apply addr_of_spec|done|done]| |done|lia].
      apply (emits_ext E (add_prefetch_exec_buf E (buffer_address buffer) (ctz (2 ^ log)) pages)).
      - intros s. rewrite Hps, run_check; [|].
        + symmetry. by apply (run_lift (Buffer.num_pages buffer) pages).
        + replace (2 ^ log - 1) with (Z.ones log) by (rewrite Z.ones_equiv; lia). rewrite Z.land_ones, Z.mod_same by (try apply Z.pow_nonzero; lia). done.
      - rewrite ctz_pow2 by lia. apply exec_buf_emits; [apply u32_range|unfold in_range; lia|by eapply num_pages_range]. }
  intros l _ He. eexists. split; [reflexivity|]. unfold trace_started. fold slave distributed expected'.
  rewrite Hmc, Huc, worker_sem_addr in He. exact He.
Qed.

(** ** Termination *)

(** The last sequence ends the prefetcher; the ones before it end the dispatchers. *)
Definition ends_prefetcher (l : list Z) : Prop :=
  process_cmd (da_bare_min_size D) l = Ok (terminate, Z.of_nat (length l), true).

Lemma bare_size : size_ok L pa.
Proof. apply multiple_size; [apply pa_mod|]. pose proof (pa_bounds E HE). lia. Qed.

Lemma terminate_process_ok :
  ∃ qs q, EnqueueTerminateCommand_process E V = qs ++ [q]
    ∧ Forall2 (λ q d, sequence_ok q (performs (λ e, e = λ _, [terminated (Some d)]))) qs
        (DISPATCH_MASTER :: if dispatch_s_enabled V then [DISPATCH_SLAVE] else [])
    ∧ sequence_ok q ends_prefetcher.
Proof.
  assert (Hd : ∀ d, sequence_ok (mk_sequence pa (add_dispatch_terminate E d) false) (performs (λ e, e = λ _, [terminated (Some d)]))).
  { intros d. apply (sequence_emits L E HE); [apply bare_size|]. eapply (emits_mono E); [|apply (terminate_emits E HE D read d)]. intros l _ Hl. by eexists. }
  unfold EnqueueTerminateCommand_process. eexists _, _. split; [by rewrite app_comm_cons|]. split.
  - constructor; [apply Hd|]. destruct (dispatch_s_enabled V); repeat constructor; apply Hd.
  - apply (sequence_emits L E HE); [apply bare_size|]. apply (prefetch_terminate_emits E HE D Hbare).
Qed.

(** ** The cores that get unicast go signals *)
Lemma set_unicast_only_cores_ok cores :
  pa = 32 → 4 * Z.of_nat (length cores) <= 32000 → Forall (in_range 32) cores →
  (dispatch_s_enabled V = true → Z.of_nat (length cores) <= da_max_unicast_cores D) →
  sequence_ok (set_unicast_only_cores_on_dispatch E V cores)
    (performs (λ e, e = λ _, [dispatched_by (if dispatch_s_enabled V then DISPATCH_SLAVE else DISPATCH_MASTER)
                                (unicast_only_cores cores)])).
Proof.
  intros Hpa Hn Hcores Hmax. set (n := Z.of_nat (length cores)) in *.
  destruct (round_up_bounds E HE (4 * n) ltac:(lia)) as [Hr Hm].
  assert (Hround : round_up (32 + 4 * n) = 32 + round_up (4 * n)).
  { unfold DeviceCommandSpec.round_up. rewrite Hpa. replace (32 + 4 * n + 32 - 1) with (4 * n + 32 - 1 + 1 * 32) by lia.
    rewrite Z.div_add by lia. lia. }
  assert (Hsize : cmd_sequence_size (set_unicast_only_cores_on_dispatch E V cores) = 32 + round_up (4 * n)).
  { cbn [cmd_sequence_size set_unicast_only_cores_on_dispatch]. fold n. unfold CQ_PREFETCH_CMD_BARE_MIN_SIZE.
    rewrite Hpa at 1. replace (32 + n * 4) with (32 + 4 * n) by lia. rewrite u32_small, (align_pa E HE) by lia. exact Hround. }
  apply (sequence_emits L E HE).
  - rewrite Hsize. apply multiple_size; [|lia]. rewrite <- Hround. apply (round_up_bounds E HE); lia.
  - rewrite Hsize. cbn [assemble set_unicast_only_cores_on_dispatch].
    eapply (emits_mono E); [|apply (set_unicast_only_cores_emits E HE D read); [done|fold n; lia|done|]].
    + intros l _ Hl. by eexists.
    + fold n. destruct (dispatch_s_enabled V); [auto|done].
Qed.
End spec.

(** * What the commands on buffers do

    A read has the data relayed from memory behind the header the host gets; a
    write carries its pages.  Of a page only what the host's page covers is
    specified, the rest of the padded page is whatever the region held. *)
Section buffers.
Context (L : layout) (E : cmd_env) (c : dispatch_constants) (V : device_view) (D : device_args).
Context (read : action → outcome (list Z)) (HK : kernels_ok L E c V D).
Context (d : Device) (buffer : Buffer).
Abbreviation pa := (host_alignment (env_hal E)).
Abbreviation round_up := (round_up E).
Abbreviation emits := (emits E).
Abbreviation appends := (appends E).
Abbreviation effects := (effects D read).
Abbreviation performs := (performs D read).
Abbreviation sequence_ok := (sequence_ok L E).
Abbreviation addr_of := (addr_of c).

Let HE : env_ok E := ko_env _ _ _ _ _ HK.
Let Hbare : da_bare_min_size D = pa := ko_bare _ _ _ _ _ HK.

(** ** Reads *)

(** The dispatcher waits and lets the prefetcher go on; the host gets the data. *)
Definition buffer_read (expected n : Z) (data header : list Z) (_ : list Z) : list event :=
  [dispatched (wait_effect 1 (addr_of DEV_DISPATCH_MESSAGE) expected 0 true true); stalled;
   dispatched (host_write (header ++ data))].

Lemma read_process_ok padded pages expected data a relay :
  let n := pages * padded in
  aligned_page_size d buffer = Ok padded → 0 <= n → n + 16 < 2 ^ 32 → in_range 32 expected →
  read a = Ok data → Z.of_nat (length data) = n → a ≠ terminate →
  (∀ s, perform D read a s = (data ← read a; to_dispatcher D data s)) → emits relay pa (λ l, reads D l a) →
  sequence_ok (EnqueueReadBufferCommand_process E c d buffer relay expected pages)
    (performs (λ e, ∃ b, length b = 16%nat ∧ e = buffer_read expected n data (host_header false n b))).
Proof.
  intros n Hpad Hn Hbig Hx Hread Hdata Ha Hperf Hrelay. pose proof (pa_bounds E HE) as [Hb Hb16]. pose proof (pa_mod L E c V D HK) as Hpm.
  assert (Hsize : cmd_sequence_size (EnqueueReadBufferCommand_process E c d buffer relay expected pages) = (pa + pa) + (pa + pa)).
  { cbn [cmd_sequence_size EnqueueReadBufferCommand_process]. unfold CQ_PREFETCH_CMD_BARE_MIN_SIZE. rewrite u32_small; lia. }
  apply (sequence_emits L E HE).
  - rewrite Hsize. apply (multiple_size L E c V D HK); [|lia]. repeat apply (mod_pa_add L E c V D HK); done.
  - rewrite Hsize. cbn [assemble EnqueueReadBufferCommand_process]. apply (emits_addr L E c V D HK).
    eapply (emits_mono E).
    2:{ apply (emits_seq E HE); [apply (wait_with_stall_emits E HE D read Hbare 1 _ expected 0 true);
          [done|apply (addr_of_spec L E c V D HK)|done|done]| | |lia].
        - apply (emits_lift E _ padded); [done|]. fold n. rewrite (u32_small n) by lia.
          by apply (read_to_host_emits E HE D read n false data None a pa relay Hn Hbig ltac:(lia)).
        - by apply (mod_pa_add L E c V D HK). }
    intros l _ (l1 & l2 & -> & _ & H1 & b & Hbl & H2). eexists. split; [by exists b|].
    exact (effects_app _ _ _ _ _ _ _ _ H1 H2).
Qed.

Lemma read_interleaved_ok padded pages expected data :
  let n := pages * padded in
  let a := relay_paged (is_dram buffer) 0 (buffer_address buffer) padded pages 0 in
  aligned_page_size d buffer = Ok padded → in_range 32 padded → in_range 32 pages → n + 16 < 2 ^ 32 → in_range 32 expected →
  read a = Ok data → Z.of_nat (length data) = n →
  sequence_ok (EnqueueReadBufferCommand_process E c d buffer (add_prefetch_relay_interleaved E d buffer 0 pages) expected pages)
    (performs (λ e, ∃ b, length b = 16%nat ∧ e = buffer_read expected n data (host_header false n b))).
Proof.
  intros n a Hpad Hp Hpages Hbig Hx Hread Hdata. apply (read_process_ok padded pages expected data a); try done.
  - unfold n. unfold in_range in *. nia.
  - unfold add_prefetch_relay_interleaved. apply (emits_lift E _ padded); [done|]. change (u8 0) with 0.
    apply (relay_paged_reads E HE D Hbare); [lia|apply u32_range|done|done|done].
Qed.

Lemma read_sharded_ok core core_type physical bank_base_address padded pages expected data :
  let n := pages * padded in
  let a := relay_linear (noc_unicast_encoding V physical) bank_base_address n in
  aligned_page_size d buffer = Ok padded → buffer_core_type buffer = Ok core_type → physical_core V core_type core = Ok physical →
  0 <= n → n + 16 < 2 ^ 32 → in_range 32 expected → in_range 32 bank_base_address →
  read a = Ok data → Z.of_nat (length data) = n →
  sequence_ok (EnqueueReadBufferCommand_process E c d buffer
      (add_prefetch_relay_sharded E V d buffer core bank_base_address pages) expected pages)
    (performs (λ e, ∃ b, length b = 16%nat ∧ e = buffer_read expected n data (host_header false n b))).
Proof.
  intros n a Hpad Hct Hph Hn Hbig Hx Hbase Hread Hdata. apply (read_process_ok padded pages expected data a); try done.
  unfold add_prefetch_relay_sharded. apply (emits_lift E _ padded); [done|]. apply (emits_lift E _ core_type); [done|].
  apply (emits_lift E _ physical); [done|]. replace (padded * pages) with n by (unfold n; lia). rewrite (u32_small n) by lia.
  apply (relay_linear_reads E HE D Hbare); [apply (ko_encodings _ _ _ _ _ HK)|unfold in_range; lia|done].
Qed.

(** ** The data of a write *)

(** Padded pages that start with the pages of [ds]. *)
Definition pages_of (padded : Z) (ds qs : list (list Z)) : Prop :=
  Forall2 (λ d q, Z.of_nat (length q) = padded ∧ take (length d) q = d) ds qs.

Lemma length_pages_of padded ds qs :
  pages_of padded ds qs → Z.of_nat (length (concat qs)) = Z.of_nat (length ds) * padded.
Proof. induction 1 as [|x q ds qs [Hq _] _ IH]; [done|]. cbn [concat length]. rewrite length_app. lia. Qed.

Lemma chunks_pages padded ds qs : 0 <= padded → pages_of padded ds qs →
  chunks (Z.to_nat padded) (length ds) (concat qs) = qs.
Proof.
  intros Hp. induction 1 as [|x q ds qs [Hq _] _ IH]; [done|]. cbn [length chunks concat].
  rewrite take_app_length', drop_app_length' by lia. by rewrite IH.
Qed.

(** A page of the loop and the rest of it *)
Lemma appends_bind_page k n P (m : ST DeviceCommand unit) (r : Z) (f : Z → ST DeviceCommand unit) n2 P2 :
  appends k m n P → appends (k + n) (f r) n2 P2 → 0 <= n2 →
  appends k (x ← (_ ← m; mret r); f x) (n + n2) (λ p, ∃ p1 p2, p = p1 ++ p2 ∧ Z.of_nat (length p1) = n ∧ P p1 ∧ P2 p2).
Proof.
  intros H1 H2 Hn. eapply (appends_ext E); [|by apply (appends_seq E k m n P (f r) n2 P2)].
  intros s. rewrite ST_bind_assoc. unfold mbind, ST_bind, mret, ST_ret. by destruct (m s) as [[[]|] ?].
Qed.

Section full_pages.
Context (src : list Z) (padded : Z).
Abbreviation psz := (u32 (page_size_ buffer)).

(** Page [j] of the host's data from an offset on. *)
Definition host_page (offset_ : Z) (j : nat) : list Z :=
  take (Z.to_nat psz) (drop (Z.to_nat (offset_ + Z.of_nat j * psz)) src).

Record page_ok : Prop := mk_page_ok {
  pk_page : psz mod 4 = 0 ∧ 0 < psz <= padded;
  pk_padded : padded mod pa = 0
}.

Lemma padded_32 : page_ok → padded mod 32 = 0.
Proof.
  intros [_ H]. destruct (eo_host E HE) as [He|He]; rewrite He in H; [done|]. Z.to_euclidean_division_equations; lia.
Qed.

Lemma host_page_shift offset_ n : host_page (offset_ + psz) <$> seq 0 n = host_page offset_ <$> seq 1 n.
Proof.
  rewrite <- fmap_S_seq, <- list_fmap_compose. apply list_fmap_ext. intros i j _. cbn. unfold host_page. do 2 f_equal. lia.
Qed.

Lemma page_appends k offset_ :
  page_ok → k mod 32 = 0 → 0 <= offset_ → offset_ + psz <= Z.of_nat (length src) →
  appends k (add_data E (from src offset_) psz padded) padded
    (λ q, take (length (host_page offset_ 0)) q = host_page offset_ 0).
Proof.
  intros Hok Hk Ho Hfit. pose proof Hok as [[H4 Hp] _].
  assert (Hlen : length (host_page offset_ 0) = Z.to_nat psz).
  { unfold host_page. rewrite length_take, length_drop. lia. }
  eapply (appends_mono E); [|apply (add_data_appends E HE k (from src offset_) psz padded)].
  - intros q Hq Ht. rewrite Hlen, Ht. unfold host_page, from. do 2 f_equal. lia.
  - by left.
  - done.
  - lia.
  - unfold from. rewrite length_drop. lia.
Qed.

Lemma copy_pages_run n : ∀ k offset_ sys data fuel,
  page_ok → k mod 32 = 0 → 0 <= offset_ → offset_ + Z.of_nat n * psz <= Z.of_nat (length src) → Z.of_nat (length src) < 2 ^ 32 →
  0 <= sys → data = sys + Z.of_nat n * padded → data < 2 ^ 32 → (n <= fuel)%nat →
  appends k (copy_loop padded (copy_page E buffer src padded) fuel data sys offset_) (Z.of_nat n * padded)
    (λ p, ∃ qs, p = concat qs ∧ pages_of padded (host_page offset_ <$> seq 0 n) qs).
Proof.
  induction n as [|n IH]; intros k offset_ sys data fuel Hok Hk Ho Hfit Hsrc Hsys -> Hbig Hf.
  - rewrite Z.mul_0_l, Z.add_0_r. eapply (appends_ext E); [|eapply (appends_mono E); [|apply (appends_skip E)]].
    + intros s. destruct fuel; cbn [copy_loop]; by rewrite Z.ltb_irrefl.
    + intros p _ ->. exists []. split; [done|constructor].
  - destruct fuel as [|fuel]; [lia|]. pose proof Hok as [[H4 Hp] Hpa].
    replace (Z.of_nat (S n) * padded) with (padded + Z.of_nat n * padded) by lia.
    cbn [copy_loop]. rewrite (proj2 (Z.ltb_lt _ _)) by nia. change (copy_page E buffer src padded offset_)
      with (_ ← add_data E (from src offset_) psz padded; mret (u32 (offset_ + psz)) : ST DeviceCommand Z).
    rewrite (u32_small (offset_ + psz)) by nia.
    rewrite (u32_small (sys + padded)) by nia.
    assert (Hk' : (k + padded) mod 32 = 0) by (rewrite Z.add_mod, Hk, (padded_32 Hok) by done; done).
    eapply (appends_mono E); [|apply appends_bind_page; [apply page_appends; try done; nia| |nia]].
    2:{ apply (IH (k + padded) (offset_ + psz) (sys + padded) _ fuel); try done; nia. }
    intros p _ (p1 & p2 & -> & Hp1 & Hpage & qs & -> & Hqs). exists (p1 :: qs). split; [done|].
    cbn [seq fmap list_fmap]. constructor; [done|]. by rewrite host_page_shift in Hqs.
Qed.

(** Pages copied at once *)
Lemma contiguous_pages n : ∀ k offset_,
  page_ok → psz = padded → k mod 32 = 0 → 0 <= offset_ → offset_ + Z.of_nat n * psz <= Z.of_nat (length src) →
  appends k (add_data E (from src offset_) (Z.of_nat n * padded) (Z.of_nat n * padded)) (Z.of_nat n * padded)
    (λ p, ∃ qs, p = concat qs ∧ pages_of padded (host_page offset_ <$> seq 0 n) qs).
Proof.
  intros k offset_ Hok Heq Hk Ho Hfit. pose proof Hok as [[H4 Hp] Hpa].
  eapply (appends_mono E); [|apply (add_data_appends E HE k (from src offset_)); [by left| |nia|unfold from; rewrite length_drop; nia]].
  - intros p Hlp Ht. cbv beta in Ht. rewrite (take_ge p) in Ht by lia. exists (host_page offset_ <$> seq 0 n). split.
    + rewrite Ht. unfold from. clear Ht Hlp Hk k. revert offset_ Ho Hfit. induction n as [|n' IH]; intros offset_ Ho Hfit.
      * by rewrite take_0.
      * cbn [seq fmap list_fmap concat]. rewrite <- host_page_shift, <- IH by nia. unfold host_page.
        replace (Z.to_nat (offset_ + Z.of_nat 0 * psz)) with (Z.to_nat offset_) by lia.
        replace (Z.to_nat (Z.of_nat (S n') * padded)) with (Z.to_nat psz + Z.to_nat (Z.of_nat n' * padded))%nat by nia.
        rewrite <- take_take_drop, drop_drop. do 3 f_equal. lia.
    + apply Forall_Forall2_diag, Forall_fmap, Forall_forall. intros j Hj%elem_of_seq.
      assert (Hlen : length (host_page offset_ j) = Z.to_nat psz).
      { unfold host_page. rewrite length_take, length_drop. nia. }
      cbn. split; [lia|]. by rewrite firstn_all.
  - rewrite Z.mul_mod, (proj2 (Z.mod_divide padded 4 ltac:(lia))), Z.mul_0_r by (lia || (rewrite <- Heq; apply Z.mod_divide; [lia|done])). done.
Qed.
End full_pages.

(** ** Writes *)
Lemma round_up_data n : 0 <= n → n mod pa = 0 → round_up (32 + n) = pa + n.
Proof.
  intros Hn Hnm. pose proof (pa_bounds E HE). unfold DeviceCommandSpec.round_up. apply Z.mod_divide in Hnm as [q Hq]; [|lia]. rewrite Hq.
  replace (32 + q * pa + pa - 1) with (31 + (q + 1) * pa) by lia. rewrite Z.div_add, Z.div_small by lia. lia.
Qed.

Lemma write_process_ok padded pages issue_wait expected dispatch data_ (e : list (list Z) → list Z → list event) (Q : list (list Z) → Prop) :
  let n := pages * padded in
  0 <= n → n mod pa = 0 → n + pa + Z.b2z issue_wait * pa <= lm L → in_range 32 expected →
  emits (_ ← dispatch; data_) (32 + n) (λ l, ∃ qs, Q qs
    ∧ ∀ z, 32 + n + Z.of_nat (length z) = round_up (32 + n) → effects (e qs) id (l ++ z)) →
  sequence_ok (EnqueueWriteBufferCommand_process E c dispatch data_ issue_wait expected padded pages)
    (performs (λ e', ∃ qs, Q qs ∧ e' = λ o,
       (if issue_wait then [dispatched (wait_effect 0 (addr_of DEV_DISPATCH_MESSAGE) expected 0 false true)] else []) ++ e qs o)).
Proof.
  intros n Hn Hnm Hfit Hx Hwrite. pose proof (pa_bounds E HE) as [Hb Hb16]. pose proof (pa_mod L E c V D HK) as Hpm.
  pose proof (lo_command L (ko_layout _ _ _ _ _ HK)) as Hlm.
  assert (Hw : 0 <= Z.b2z issue_wait * pa <= pa) by (destruct issue_wait; simpl; lia).
  assert (Hsize : cmd_sequence_size (EnqueueWriteBufferCommand_process E c dispatch data_ issue_wait expected padded pages)
    = Z.b2z issue_wait * pa + (pa + n)).
  { cbn [cmd_sequence_size EnqueueWriteBufferCommand_process]. unfold CQ_PREFETCH_CMD_BARE_MIN_SIZE. fold n.
    rewrite (u32_small n), (u32_small (pa + n)) by lia. destruct issue_wait; cbn [Z.b2z] in *; [rewrite u32_small|]; lia. }
  pose proof (round_up_data n Hn Hnm) as Hround.
  split.
  { rewrite Hsize. split; [lia|]. rewrite <- (ko_align _ _ _ _ _ HK).
    apply (mod_pa_add L E c V D HK); [apply Z_mod_mult|by apply (mod_pa_add L E c V D HK)]. }
  rewrite Hsize. cbn [assemble EnqueueWriteBufferCommand_process].
  eapply (emits_fills E HE).
  - apply (emits_seq E HE); [|exact Hwrite|apply (Z_mod_mult (Z.b2z issue_wait))|lia].
    apply (emits_when E D read). intros _. apply (emits_addr L E c V D HK).
    apply (wait_emits E HE D read); [done|apply (addr_of_spec L E c V D HK)|done|done].
  - lia.
  - intros l z Hl Hz (l1 & l2 & -> & Hl1 & H1 & qs & Hqs & H2). eexists. split; [exists qs; split; [exact Hqs|reflexivity]|].
    rewrite <- app_assoc. rewrite length_app in Hl. specialize (H2 z ltac:(lia)). intros o Ho. destruct (H1 o Ho) as [_ Hd1].
    destruct (H2 o Ho) as [_ Hd2]. split; [done|]. eapply does_app; [|exact Hd2]. destruct issue_wait; exact Hd1.
Qed.

(** What an interleaved buffer's geometry asks for. *)
Record interleaved_ok (src : list Z) (padded num_banks rows : Z) : Prop := mk_interleaved_ok {
  io_aligned : aligned_page_size d buffer = Ok padded;
  io_alignment : ∃ a, buffer_alignment d = Ok a ∧ a ≠ 0 ∧ (u32 (page_size_ buffer) mod a = 0 → u32 (page_size_ buffer) = padded)
                   ∧ (u32 (page_size_ buffer) = padded ∨ u32 (page_size_ buffer) ≠ u32 (size_ buffer));
  io_banks : DeviceAllocator.num_banks (device_allocator d) (buffer_type_ buffer) = Ok num_banks;
  io_rows : 0 <= rows ∧ buffer_address buffer + rows * padded < 2 ^ 32;
  io_page : page_ok padded;
  io_source : Z.of_nat (length src) < 2 ^ 32
}.

Lemma appends_lift {A} (o : outcome A) a (f : A → ST DeviceCommand unit) k n P :
  o = Ok a → appends k (f a) n P → appends k (x ← lift_st o; f x) n P.
Proof. intros Ho. apply (appends_ext E). intros s. symmetry. by apply run_lift. Qed.

Lemma add_buffer_data_appends src padded num_banks rows dst_page_index pages k :
  let first := rows * num_banks + dst_page_index in
  let psz := u32 (page_size_ buffer) in
  interleaved_ok src padded num_banks rows → 0 < num_banks < 2 ^ 32 → 0 <= dst_page_index < 2 ^ 32 →
  0 <= pages → pages * padded < 2 ^ 32 → (first + pages) * psz <= Z.of_nat (length src) → k mod 32 = 0 →
  appends k (add_buffer_data_interleaved E d buffer src (buffer_address buffer + rows * padded) padded dst_page_index pages)
    (pages * padded)
    (λ p, ∃ qs, p = concat qs ∧ pages_of padded (host_page src (first * psz) <$> seq 0 (Z.to_nat pages)) qs).
Proof.
  intros first psz [Hal (a & Ha & Ha0 & Heq & Hone) Hnb [Hr0 Hr] Hok Hsrc] Hbanks Hdst Hpages Hfit Hlen Hk.
  pose proof Hok as [[H4 Hp] Hpp]. fold psz in H4, Hp, Heq, Hone.
  assert (Hba : 0 <= buffer_address buffer) by (unfold buffer_address; apply u32_range).
  assert (Hrn : 0 <= rows * num_banks) by (apply Z.mul_nonneg_nonneg; lia).
  assert (Hrp : 0 <= rows * padded) by (apply Z.mul_nonneg_nonneg; lia).
  assert (Hfirst : 0 <= first * psz ∧ first * psz + pages * psz <= Z.of_nat (length src)) by (unfold first in *; nia).
  assert (Hfsmall : first < 2 ^ 32) by nia.
  unfold add_buffer_data_interleaved. cbv zeta. rewrite (u32_small (pages * padded)) by nia.
  apply (appends_lift _ padded); [done|]. rewrite Z.ltb_irrefl. apply (appends_lift _ num_banks); [done|].
  replace (buffer_address buffer + rows * padded - buffer_address buffer) with (rows * padded) by lia.
  rewrite (u32_small (rows * padded)) by lia.
  apply (appends_lift _ rows); [rewrite udiv_ok by lia; by rewrite Z.div_mul by lia|].
  rewrite (u32_small (rows * num_banks)), (u32_small (rows * num_banks + dst_page_index)) by (unfold first in *; lia).
  fold first psz. rewrite (u32_small (first * psz)) by lia.
  apply (appends_lift _ a); [done|]. apply (appends_lift _ (psz mod a)); [by apply umod_ok|].
  assert (Hpg : Z.of_nat (Z.to_nat pages) = pages) by lia.
  destruct (negb (psz mod a =? 0) && negb (psz =? u32 (size_ buffer))) eqn:Hcase.
  - pose proof (copy_pages_run src padded (Z.to_nat pages) k (first * psz) 0 (pages * padded) (Z.to_nat pages)) as Hloop.
    rewrite Hpg in Hloop. apply Hloop; try done; fold psz; lia.
  - pose proof (contiguous_pages src padded (Z.to_nat pages) k (first * psz)) as Hall.
    rewrite Hpg in Hall. apply Hall; try done; fold psz; lia.
Qed.

(** [pages] pages from page [dst_page_index] of a part of the buffer that starts [rows] pages up in each bank. *)
Lemma write_interleaved_ok src padded num_banks rows dst_page_index pages issue_wait expected :
  let first := rows * num_banks + dst_page_index in
  let base := buffer_address buffer + rows * padded in
  let psz := u32 (page_size_ buffer) in
  interleaved_ok src padded num_banks rows → 0 < num_banks < 2 ^ 32 → 0 <= dst_page_index <= 0xFFFF → 0 < pages →
  pages * padded + pa + Z.b2z issue_wait * pa <= lm L → in_range 32 expected → (first + pages) * psz <= Z.of_nat (length src) →
  sequence_ok (EnqueueWriteBufferCommand_process E c
      (add_dispatch_write_interleaved E buffer base padded dst_page_index pages)
      (add_buffer_data_interleaved E d buffer src base padded dst_page_index pages) issue_wait expected padded pages)
    (performs (λ e, ∃ qs, pages_of padded (host_page src 0 <$> seq (Z.to_nat first) (Z.to_nat pages)) qs ∧ e = λ _,
       (if issue_wait then [dispatched (wait_effect 0 (addr_of DEV_DISPATCH_MESSAGE) expected 0 false true)] else [])
       ++ (dispatched <$> page_writes (if is_dram buffer then da_dram D else da_l1 D) base padded dst_page_index qs))).
Proof.
  intros first base psz Hio Hbanks Hdst Hpages Hfit Hx Hlen. pose proof Hio as [_ _ _ Hrows Hok Hsrc].
  pose proof Hok as [[H4 Hp] Hpp]. fold psz in H4, Hp. pose proof (pa_bounds E HE) as [Hb Hb16].
  pose proof (lo_command L (ko_layout _ _ _ _ _ HK)) as Hlm. pose proof (u32_range (buffer_address buffer)) as Haddr.
  assert (Hba : 0 <= buffer_address buffer) by (unfold buffer_address; apply u32_range).
  assert (Hrn : 0 <= rows * num_banks) by (apply Z.mul_nonneg_nonneg; lia). assert (Hrp : 0 <= rows * padded) by (apply Z.mul_nonneg_nonneg; lia).
  assert (Hfirst : 0 <= first ∧ first * psz <= Z.of_nat (length src)) by (unfold first in *; nia).
  assert (Hfsmall : first < 2 ^ 32) by nia.
  set (n := pages * padded) in *. assert (Hn : 0 < n) by (unfold n; nia). assert (Hpn : pages <= n) by (unfold n; nia).
  assert (Hw : 0 <= Z.b2z issue_wait * pa) by (destruct issue_wait; simpl; lia).
  assert (Hnm : n mod pa = 0) by (unfold n; rewrite Z.mul_mod, Hpp, Z.mul_0_r by lia; apply Z.mod_0_l; lia).
  pose proof (round_up_data n ltac:(lia) Hnm) as Hround.
  apply (write_process_ok padded pages issue_wait expected _ _
    (λ qs _, dispatched <$> page_writes (if is_dram buffer then da_dram D else da_l1 D) base padded dst_page_index qs)); [lia|done|done|done|].
  assert (Hshift : host_page src 0 <$> seq (Z.to_nat first) (Z.to_nat pages) = host_page src (first * psz) <$> seq 0 (Z.to_nat pages)).
  { rewrite <- (Nat.add_0_r (Z.to_nat first)), <- fmap_add_seq, <- list_fmap_compose. apply list_fmap_ext. intros i j Hj.
    cbn. unfold host_page. do 2 f_equal. fold psz. nia. }
  fold n. rewrite Hshift. eapply (emits_ext E); [|eapply (emits_mono E);
    [|apply (write_paged_emits E HE D read (is_dram buffer) dst_page_index base padded pages None n
        (add_buffer_data_interleaved E d buffer src base padded dst_page_index pages)
        (λ p, ∃ qs, p = concat qs ∧ pages_of padded (host_page src (first * psz) <$> seq 0 (Z.to_nat pages)) qs))]].
  - intros s. unfold add_dispatch_write_interleaved. rewrite ST_bind_assoc, run_check by (apply Z.leb_le; lia).
    change 65535 with (Z.ones 16). rewrite Z.land_ones, Z.mod_small, u16_small by lia. done.
  - intros l _ (p & (qs & -> & Hqs) & He). exists qs. split; [done|]. intros z Hz. specialize (He z Hz).
    pose proof (length_pages_of _ _ _ Hqs) as Hl. rewrite length_fmap, length_seq, Z2Nat.id in Hl by lia.
    fold n in He. rewrite take_ge in He by lia. pose proof (chunks_pages padded _ qs ltac:(lia) Hqs) as Hch.
    rewrite length_fmap, length_seq in Hch. rewrite Hch in He. exact He.
  - lia.
  - lia.
  - fold n. lia.
  - unfold in_range. lia.
  - lia.
  - unfold in_range, base. lia.
  - fold n. lia.
  - fold n. lia.
  - by apply add_buffer_data_appends; [done|done|lia|lia|fold n; lia|exact Hlen|].
Qed.

(** *** Sharded *)
Section sharded.
Context (src : list Z) (padded : Z) (Hok : page_ok padded) (Hsrc : Z.of_nat (length src) < 2 ^ 32).
Abbreviation psz := (u32 (page_size_ buffer)).

Lemma copy_pages_appends n : ∀ k offset_, k mod 32 = 0 → 0 <= offset_ → offset_ + Z.of_nat n * psz <= Z.of_nat (length src) →
  appends k (copy_pages E buffer src padded n offset_) (Z.of_nat n * padded)
    (λ p, ∃ qs, p = concat qs ∧ pages_of padded (host_page src offset_ <$> seq 0 n) qs).
Proof.
  pose proof Hok as [[H4 Hp] Hpa]. induction n as [|n IH]; intros k offset_ Hk Ho Hfit.
  - rewrite Z.mul_0_l. eapply (appends_mono E); [|apply (appends_skip E)]. intros p _ ->. exists []. split; [done|constructor].
  - replace (Z.of_nat (S n) * padded) with (padded + Z.of_nat n * padded) by lia. cbn [copy_pages]. rewrite (u32_small (offset_ + psz)) by nia.
    assert (Hk' : (k + padded) mod 32 = 0) by (rewrite Z.add_mod, Hk, (padded_32 padded Hok) by done; done).
    eapply (appends_mono E); [|apply (appends_seq E); [apply (page_appends src padded k offset_ Hok Hk Ho); nia|
      apply (IH (k + padded) (offset_ + psz)); try done; nia|nia]].
    intros p _ (p1 & p2 & -> & Hp1 & Hpage & qs & -> & Hqs). exists (p1 :: qs). split; [done|].
    cbn [seq fmap list_fmap]. constructor; [done|]. by rewrite host_page_shift in Hqs.
Qed.

(** Pages of the device in the order of the mapping; those without a host page hold anything. *)
Definition mapped_pages (mapping : BufferPageMapping) (dev_pages : list Z) (qs : list (list Z)) : Prop :=
  Forall2 (λ j q, Z.of_nat (length q) = padded ∧
    ∀ h, dev_page_to_host_page_mapping_ mapping !! Z.to_nat j = Some (Some h) →
      take (Z.to_nat psz) q = host_page src 0 (Z.to_nat h)) dev_pages qs.

(** Every page of the device is in the mapping, its host page in the source. *)
Definition mapping_in_source (mapping : BufferPageMapping) (dev_pages : list Z) : Prop :=
  Forall (λ j, ∃ o, dev_page_to_host_page_mapping_ mapping !! Z.to_nat j = Some o
    ∧ ∀ h, o = Some h → 0 <= h ∧ (h + 1) * psz <= Z.of_nat (length src)) dev_pages.

(** The copies into the space reserved: pages before it are done, [w] is what is left. *)
Lemma copy_mapped_run mapping s l : cmd_ok E s → cmd_write_offsetB s mod pa = 0 → Z.of_nat (length l) mod 32 = 0 →
  ∀ dev_pages done_ w, mapping_in_source mapping dev_pages → Z.of_nat (length w) = Z.of_nat (length dev_pages) * padded →
  Z.of_nat (length done_) mod 32 = 0 →
  cmd_write_offsetB s + Z.of_nat (length l) + Z.of_nat (length done_) + Z.of_nat (length w) <= cmd_sequence_sizeB s →
  ∃ qs, mapped_pages mapping dev_pages qs
    ∧ copy_mapped E buffer src padded mapping (cmd_write_offsetB s + Z.of_nat (length l) + Z.of_nat (length done_)) dev_pages
        (emit (l ++ done_ ++ w) s) = (Ok tt, emit (l ++ done_ ++ concat qs) s).
Proof.
  intros Hs Ho Hl32. pose proof Hok as [[H4 Hp] Hpa]. pose proof (padded_32 padded Hok) as H32. pose proof Hs as [H1 H2 H3 _].
  assert (Ho32 : cmd_write_offsetB s mod 32 = 0).
  { destruct (eo_host E HE) as [He|He]; rewrite He in Ho; [done|]. Z.to_euclidean_division_equations; lia. }
  induction dev_pages as [|j dev_pages IH]; intros done_ w Hmap Hw Hd32 Hfit.
  { destruct w; [|cbn in Hw; lia]. exists []. split; [constructor|done]. }
  apply Forall_cons in Hmap as [(o & Hj & Ho') Hmap]. cbn [length] in Hw.
  set (q0 := take (Z.to_nat padded) w). set (w' := drop (Z.to_nat padded) w).
  assert (Hq0 : Z.of_nat (length q0) = padded) by (unfold q0; rewrite length_take; nia).
  assert (Hww : w = q0 ++ w') by (unfold q0, w'; by rewrite take_drop).
  assert (Hw' : Z.of_nat (length w') = Z.of_nat (length dev_pages) * padded) by (unfold w'; rewrite length_drop; nia).
  assert (Hpage : ∃ q, Z.of_nat (length q) = padded
    ∧ (∀ h, o = Some h → take (Z.to_nat psz) q = host_page src 0 (Z.to_nat h))
    ∧ copy_mapped_page E buffer src mapping (cmd_write_offsetB s + Z.of_nat (length l) + Z.of_nat (length done_)) j (emit (l ++ done_ ++ w) s)
      = (Ok tt, emit (l ++ done_ ++ q ++ w') s)).
  { unfold copy_mapped_page. rewrite (run_lift _ o) by (by apply at_some). destruct o as [h|].
    2:{ exists q0. split; [done|]. split; [done|]. by rewrite Hww. }
    destruct (Ho' h eq_refl) as [Hh0 Hh]. rewrite (u32_small (h * psz)) by nia.
    set (page := take (Z.to_nat psz) (from src (h * psz))).
    assert (Hpg : length page = Z.to_nat psz) by (unfold page, from; rewrite length_take, length_drop; nia).
    exists (page ++ drop (Z.to_nat psz) q0). split; [rewrite length_app, length_drop; lia|]. split.
    - intros h' [= <-]. rewrite take_app_length' by done. unfold page, host_page, from. do 2 f_equal. nia.
    - unfold update_cmd_sequence. rewrite app_assoc.
      replace (cmd_write_offsetB s + Z.of_nat (length l) + Z.of_nat (length done_))
        with (cmd_write_offsetB s + Z.of_nat (length (l ++ done_))) by (rewrite length_app; lia).
      rewrite (memcpy_emit E HE s Hs).
      + do 2 f_equal. rewrite Nat2Z.id, app_assoc. fold page.
        pose proof (splice_app_r (l ++ done_) 0 page w) as Hsp. rewrite Nat.add_0_r in Hsp. rewrite Hsp. f_equal.
        unfold splice. rewrite take_0. cbn [app Nat.add]. rewrite Hpg, Hww. rewrite drop_app_le by lia. by rewrite app_assoc.
      + unfold fits. rewrite !length_app. lia.
      + lia.
      + rewrite !length_app. nia.
      + unfold from. rewrite length_drop. nia.
      + intros _. split; [done|]. left. rewrite length_app, Nat2Z.inj_add.
        clear - Ho32 Hl32 Hd32. Z.to_euclidean_division_equations; lia. }
  destruct Hpage as (q & Hq & Hhost & Hrun). destruct (IH (done_ ++ q) w' Hmap Hw') as (qs & Hqs & Hrest).
  - rewrite length_app, Nat2Z.inj_add, Z.add_mod, Hd32, Hq, H32 by done. done.
  - rewrite length_app. nia.
  - exists (q :: qs). split.
    + constructor; [|done]. split; [done|]. intros h Hh. rewrite Hj in Hh. injection Hh as ->. by apply Hhost.
    + cbn [copy_mapped concat]. rewrite (ST_bind_ok _ _ _ _ _ Hrun). rewrite u32_small by nia.
      rewrite <- !app_assoc in Hrest. rewrite length_app in Hrest.
      replace (cmd_write_offsetB s + Z.of_nat (length l) + Z.of_nat (length done_) + padded)
        with (cmd_write_offsetB s + Z.of_nat (length l) + Z.of_nat (length done_ + length q)) by lia.
      exact Hrest.
Qed.

(** What a shard's part of the device gets: with a mapping the host pages it names, without
    one the pages in order. *)
Definition shard_pages (mapping : option BufferPageMapping) (dst_page_index pages : Z) (qs : list (list Z)) : Prop :=
  match mapping with
  | Some mapping => mapped_pages mapping (range_u32 dst_page_index (dst_page_index + pages)) qs
  | None => pages_of padded (host_page src 0 <$> seq (Z.to_nat dst_page_index) (Z.to_nat pages)) qs
  end.

Record shard_ok (mapping : option BufferPageMapping) (dst_page_index pages : Z) : Prop := mk_shard_ok {
  so_range : 0 <= dst_page_index ∧ 0 <= pages ∧ dst_page_index + pages < 2 ^ 32 ∧ pages * padded < 2 ^ 32;
  so_source : match mapping with
              | Some mapping => mapping_in_source mapping (range_u32 dst_page_index (dst_page_index + pages))
              | None => (dst_page_index + pages) * psz <= Z.of_nat (length src) ∧ (psz = padded ∨ psz ≠ u32 (size_ buffer))
              end
}.

Lemma length_shard_pages mapping dst_page_index pages qs :
  shard_ok mapping dst_page_index pages → shard_pages mapping dst_page_index pages qs → Z.of_nat (length (concat qs)) = pages * padded.
Proof.
  intros [(H1 & H2 & H3 & H4) _] Hqs. destruct mapping as [mapping|].
  - cbn [shard_pages] in Hqs. pose proof (Forall2_length _ _ _ Hqs) as Hl.
    pose proof (length_range_u32 dst_page_index (dst_page_index + pages) ltac:(lia)) as Hr.
    assert (Hc : Z.of_nat (length (concat qs)) = Z.of_nat (length qs) * padded); [|nia].
    clear -Hqs. induction Hqs as [|j q js qs [Hq _] _ IH]; [done|]. cbn [concat length]. rewrite length_app. lia.
  - pose proof (length_pages_of _ _ _ Hqs) as Hl. rewrite length_fmap, length_seq, Z2Nat.id in Hl by lia. exact Hl.
Qed.

Lemma shard_data_appends mapping dst_page_index pages k :
  shard_ok mapping dst_page_index pages → k mod 32 = 0 →
  appends k (add_buffer_data_sharded E buffer src mapping padded dst_page_index pages) (pages * padded)
    (λ p, ∃ qs, p = concat qs ∧ shard_pages mapping dst_page_index pages qs).
Proof.
  intros [(H1 & H2 & H3 & H4) Hin] Hk. pose proof Hok as [[Hp4 Hp] Hpa]. unfold add_buffer_data_sharded. cbv zeta.
  rewrite (u32_small (pages * padded)) by nia. destruct mapping as [mapping|].
  - rewrite (u32_small (dst_page_index + pages)) by lia. intros s l Hs Ho Hl Hfit.
    destruct (reserve_emit E HE s Hs true l (pages * padded)) as (w & Hw & Hres); [unfold fits; nia|done|nia|lia|done|].
    rewrite (ST_bind_ok _ _ _ _ _ Hres).
    destruct (copy_mapped_run mapping s l Hs Ho ltac:(by rewrite Hl) (range_u32 dst_page_index (dst_page_index + pages)) [] w Hin)
      as (qs & Hqs & Hrun); [rewrite length_range_u32 by lia; nia|done|cbn; lia|].
    cbn [app length] in Hrun. rewrite Z.add_0_r in Hrun. exists (concat qs). split; [|split; [by exists qs|exact Hrun]].
    apply (length_shard_pages (Some mapping) dst_page_index pages); [by split|done].
  - destruct Hin as [Hlen Hone]. rewrite (u32_small (dst_page_index * psz)) by nia.
    assert (Hpg : Z.of_nat (Z.to_nat pages) = pages) by lia.
    assert (Hshift : host_page src 0 <$> seq (Z.to_nat dst_page_index) (Z.to_nat pages)
                     = host_page src (dst_page_index * psz) <$> seq 0 (Z.to_nat pages)).
    { rewrite <- (Nat.add_0_r (Z.to_nat dst_page_index)), <- fmap_add_seq, <- list_fmap_compose. apply list_fmap_ext. intros i j Hj.
      cbn. unfold host_page. do 2 f_equal. nia. }
    cbn [shard_pages]. rewrite Hshift.
    destruct (negb (psz =? padded) && negb (psz =? u32 (size_ buffer))) eqn:Hcase.
    + pose proof (copy_pages_appends (Z.to_nat pages) k (dst_page_index * psz)) as Hcopy. rewrite Hpg in Hcopy. apply Hcopy; try done; nia.
    + pose proof (contiguous_pages src padded (Z.to_nat pages) k (dst_page_index * psz)) as Hall. rewrite Hpg in Hall.
      apply Hall; try done; nia.
Qed.

(** The pages of one shard go to its core, one after the other. *)
Lemma write_sharded_ok mapping core core_type physical bank_base_address dst_page_index pages issue_wait expected :
  shard_ok mapping dst_page_index pages → buffer_core_type buffer = Ok core_type → physical_core V core_type core = Ok physical →
  in_range 32 bank_base_address → pages * padded + pa + Z.b2z issue_wait * pa <= lm L → in_range 32 expected →
  sequence_ok (EnqueueWriteBufferCommand_process E c
      (add_dispatch_write_sharded E V buffer core bank_base_address padded pages)
      (add_buffer_data_sharded E buffer src mapping padded dst_page_index pages) issue_wait expected padded pages)
    (performs (λ e, ∃ qs, shard_pages mapping dst_page_index pages qs ∧ e = λ o,
       (if issue_wait then [dispatched (wait_effect 0 (addr_of DEV_DISPATCH_MESSAGE) expected 0 false true)] else [])
       ++ [dispatched (noc_write (noc_unicast_encoding V physical) (u32 (bank_base_address + nth 0 o 0)) (concat qs))])).
Proof.
  intros Hsh Hct Hph Hbase Hfit Hx. pose proof Hsh as [(H1 & H2 & H3 & H4) _]. pose proof Hok as [[Hp4 Hp] Hpp].
  pose proof (pa_bounds E HE) as [Hb Hb16]. pose proof (lo_command L (ko_layout _ _ _ _ _ HK)) as Hlm.
  set (n := pages * padded) in *. assert (Hn : 0 <= n) by (unfold n; nia).
  assert (Hw : 0 <= Z.b2z issue_wait * pa) by (destruct issue_wait; simpl; lia).
  assert (Hnm : n mod pa = 0) by (unfold n; rewrite Z.mul_mod, Hpp, Z.mul_0_r by lia; apply Z.mod_0_l; lia).
  apply (write_process_ok padded pages issue_wait expected _ _
    (λ qs o, [dispatched (noc_write (noc_unicast_encoding V physical) (u32 (bank_base_address + nth 0 o 0)) (concat qs))]));
    [lia|done|done|done|].
  fold n. pose proof (round_up_data n Hn Hnm) as Hround.
  eapply (emits_ext E); [|eapply (emits_mono E);
    [|apply (write_linear_emits E HE D read 0 (noc_unicast_encoding V physical) bank_base_address n None 0 n
        (add_buffer_data_sharded E buffer src mapping padded dst_page_index pages)
        (λ p, ∃ qs, p = concat qs ∧ shard_pages mapping dst_page_index pages qs))]]; try done; try lia.
  - intros s. unfold add_dispatch_write_sharded. rewrite !ST_bind_assoc, (run_lift _ core_type) by done.
    rewrite !ST_bind_assoc, (run_lift _ physical) by done. fold n. by rewrite (u32_small n) by lia.
  - intros l _ (p & (qs & -> & Hqs) & He). exists qs. split; [done|]. intros z Hz. specialize (He z Hz).
    pose proof (length_shard_pages _ _ _ _ Hsh Hqs) as Hl. fold n in Hl. rewrite take_ge in He by lia. exact He.
  - apply (ko_encodings _ _ _ _ _ HK).
  - by apply shard_data_appends.
Qed.
End sharded.
End buffers.
