(* ===== verification/EnqueueStream.v ===== *)
(** * A host that enqueues commands, and the prefetcher

    The host of [CommandStream] without a free choice of commands: a program
    looks at the manager and says which sequence of device commands comes next.
    [HostProgram] is what a program has to promise, so that the theorems here hold
    for every one: each sequence is sent, fetched and executed in order, and
    together they do what the program is for. *)
From S2P Require Import Prelude CommandQueue CommandQueueProps CommandStreamHost Prefetcher CommandStream CommandStreamDevice CommandStreamInv CommandStreamProps DeviceCommand DeviceCommandSpec DeviceExecution DeviceCommandOps EnqueueSend EnqueueCommands EnqueueSpec.

(** What is left of a program looks at the manager, may change it, and gives the next
    sequence, or none when nothing is left. *)
Definition host_program (W : Type) : Type :=
  W → SystemMemoryManager → outcome (option (command_sequence * W) * SystemMemoryManager).

Section system.
Context {W : Type} (next : host_program W) (a : prefetch_args) (cq_id : nat).

(** [process] of the next command, or a step of the device or of the waiting host. *)
Inductive enqueue_step : system * W → system * W → Prop :=
| enqueue_send m h d sent_ consumed_ w q w' m1 m' h' bytes :
  next w m = Ok (Some (q, w'), m1) →
  send cq_id q (m1, h) = Ok (m', h', bytes) →
  enqueue_step (mk_system m h Idle d sent_ consumed_, w)
    (mk_system m' h' (Reserving (cmd_sequence_size q) (stall_prefetcher q)) d (sent_ ++ [(bytes, stall_prefetcher q)]) consumed_, w')
| enqueue_other s s' w :
  step a cq_id s s' → sent s' = sent s → enqueue_step (s, w) (s', w).
End system.

(** What a step of the stream leaves alone of the manager: the counters of the events. *)
Definition same_events (m m' : SystemMemoryManager) : Prop := cq_to_event m' = cq_to_event m.

(** [valid w m] is kept; [rest w m o e] says that what is left of [w] may have the effects [e]
    under the write offsets [o]; [remaining w] gets smaller.  Before it sends, a program may draw
    an event number ([m2]) and wrap the write pointer where the sequence would be put anyway ([m1]). *)
Class HostProgram {W : Type} (next : host_program W) (L : layout) (cq_id : nat) (E : cmd_env) (D : device_args)
  (read : action → outcome (list Z)) := {
  valid : W → SystemMemoryManager → Prop;
  rest : W → SystemMemoryManager → list Z → list event → Prop;
  remaining : W → nat;
  valid_events : ∀ w m m', same_events m m' → valid w m → valid w m';
  rest_events : ∀ w m m' o e, same_events m m' → rest w m' o e → rest w m o e;
  next_total : ∀ w m pos qptr qfence, valid w m → host_at L cq_id m pos qptr qfence → 0 <= pos < lsize L →
    (next w m = Ok (None, m) ∧ ∀ o, rest w m o []) ∨
    ∃ q w' m1 m2 A, next w m = Ok (Some (q, w'), m1)
      ∧ (∀ pos qptr qfence, host_at L cq_id m pos qptr qfence → host_at L cq_id m2 pos qptr qfence)
      ∧ (∀ h, send cq_id q (m1, h) = send cq_id q (m2, h))
      ∧ sequence_ok L E q (performs D read A) ∧ valid w' m2 ∧ (remaining w' < remaining w)%nat
      ∧ ∀ e1 o e2, A e1 → rest w' m2 o e2 → rest w m o (e1 o ++ e2)
}.

(** ** Event numbers stay *)
Section events.
Context (cq_id : nat).

Lemma wrap_events m m' : wrap_issue_queue_wr_ptr cq_id m = Ok m' → same_events m m'.
Proof. unfold wrap_issue_queue_wr_ptr. destruct (bypass_enable m); [by intros [= <-]|]. by intros (i & _ & [= <-])%bind_Ok_inv. Qed.

Lemma reserve_events n m r m' : issue_queue_reserve n cq_id m = Ok (r, m') → same_events m m'.
Proof.
  unfold issue_queue_reserve. destruct (bypass_enable m); [by intros [= _ <-]|].
  intros (p & _ & (l & _ & ([q m1] & Hw & [= _ <-])%bind_Ok_inv)%bind_Ok_inv)%bind_Ok_inv. case_match; [|by injection Hw as _ <-].
  apply bind_Ok_inv in Hw as (m2 & Hw & (x & _ & [= _ <-])%bind_Ok_inv). by apply wrap_events.
Qed.

Lemma push_events n m m' e : issue_queue_push_back n cq_id m = Ok (m', e) → same_events m m'.
Proof. unfold issue_queue_push_back. destruct (bypass_enable m); [by intros [= <- _]|]. by intros (i & _ & [= <- _])%bind_Ok_inv. Qed.

Lemma send_events q m h m' h' l : send cq_id q (m, h) = Ok (m', h', l) → same_events m m'.
Proof.
  unfold send. cbn [fst snd]. intros ([r m1] & Hr%reserve_events & (s & _ & H1)%bind_Ok_inv)%bind_Ok_inv. destruct (assemble q s) as [x s'].
  apply bind_Ok_inv in H1 as (y & _ & H1). unfold store_region in H1.
  destruct (bypass_enable m1); apply bind_Ok_inv in H1 as ([m2 e] & Hp%push_events & [= <- _ _]);
    unfold same_events in *; rewrite Hp; exact Hr.
Qed.

Lemma back_events polls m m' b : fetch_queue_reserve_back polls cq_id m = Ok (m', b) → same_events m m'.
Proof.
  unfold fetch_queue_reserve_back. destruct (bypass_enable m); [by intros [= <- _]|].
  intros (p & _ & (f & _ & H)%bind_Ok_inv)%bind_Ok_inv. repeat case_match; try by injection H as <- _.
  all: apply bind_Ok_inv in H as (base & _ & H); repeat case_match; by injection H as <- _.
Qed.

Lemma write_events n stall m m' e : fetch_queue_write n cq_id stall m = Ok (m', e) → same_events m m'.
Proof.
  unfold fetch_queue_write. intros (x & _ & (y & _ & H)%bind_Ok_inv)%bind_Ok_inv. destruct (bypass_enable m); [by injection H as <- _|].
  by apply bind_Ok_inv in H as (p & _ & [= <- _]).
Qed.

(** Steps other than the one that issues *)
Lemma step_events a s s' : step a cq_id s s' → sent s' = sent s → same_events (manager s) (manager s').
Proof.
  destruct 1 as [| ? ? ? ? ? ? ? ? H1|? ? ? ? ? ? ? ? ? ? H1 H2| |]; cbn [sent manager]; intros Hsent; try done.
  - apply (f_equal length) in Hsent. rewrite length_app in Hsent. simpl in Hsent. lia.
  - by eapply back_events.
  - apply back_events in H1. apply write_events in H2. unfold same_events in *. by rewrite H2.
Qed.
End events.

Section stream.
Context {W : Type} (next : host_program W) (L : layout) (HL : layout_ok L) (cq_id : nat).
Context (E : cmd_env) (HE : env_ok E) (Hhuge : hugepage_write E = true) (Hla : host_alignment (env_hal E) = la L).
Context (D : device_args) (read : action → outcome (list Z)).
Context `{!HostProgram next L cq_id E D read}.
Abbreviation a := (args_of L).
Abbreviation estep := (enqueue_step next a cq_id).
Abbreviation effects := (effects D read).

(** What was sent, with what is left, does what the program [w0] is for. *)
Record Run (w0 : W) (m0 : SystemMemoryManager) (s : system) (w : W) : Prop := mk_run {
  rn_inv : ∃ c d h f, Inv L cq_id c d h f s;
  rn_valid : valid w (manager s);
  rn_effects : ∀ o, length o = 3%nat →
    ∃ e, does D read (bytes (sent s)) (flushed o) e (flushed o) ∧ ∀ e', rest w (manager s) o e' → rest w0 m0 o (e ++ e')
}.

Lemma Inv_manager c d h f s m2 :
  (∀ pos qptr qfence, host_at L cq_id (manager s) pos qptr qfence → host_at L cq_id m2 pos qptr qfence) →
  Inv L cq_id c d h f s → Inv L cq_id c d h f (mk_system m2 (hugepage s) (phase s) (device s) (sent s) (consumed s)).
Proof.
  intros Hm2 [H1 H2 H3 H4 (qptr & H5 & Hq) H6 H7]. split; try done.
  - exists qptr. split; [by apply Hm2|done].
  - intros j Hj cj Hcj. rewrite <- (H7 j Hj cj Hcj). pose proof (ha_offset _ _ _ _ _ _ (Hm2 _ _ _ H5)) as Ho2.
    pose proof (ha_offset _ _ _ _ _ _ H5) as Ho. apply mem_read_ext. intros x _. unfold host_view. cbn [manager hugepage]. by rewrite Ho, Ho2.
Qed.

Lemma run_position s c d h f : Inv L cq_id c d h f s →
  ∃ pos qptr qfence, host_at L cq_id (manager s) pos qptr qfence ∧ 0 <= pos < lsize L.
Proof.
  intros HI. destruct (iv_host _ _ _ _ _ _ _ HI) as (qptr & Hm & _). destruct (room_enough L HL) as [HM _]. eexists _, _, _.
  split; [exact Hm|]. apply (ring_pos_bounds (lsize L) (lm L) HM (sizes (sent s))), sizes_fit, (iv_cmds _ _ _ _ _ _ _ HI).
Qed.

(** The next sequence is sent. *)
Lemma run_send w0 m0 s w :
  Run w0 m0 s w → phase s = Idle →
  next w (manager s) = Ok (None, manager s) ∨
  ∃ q w' m1 m' h' l, next w (manager s) = Ok (Some (q, w'), m1) ∧ send cq_id q (m1, hugepage s) = Ok (m', h', l)
    ∧ Run w0 m0 (mk_system m' h' (Reserving (cmd_sequence_size q) (stall_prefetcher q)) (device s)
                (sent s ++ [(l, stall_prefetcher q)]) (consumed s)) w' ∧ (remaining w' < remaining w)%nat.
Proof.
  intros [(c & d & h & f & HI) Hv He] Hidle. destruct (run_position s _ _ _ _ HI) as (pos & qptr & qfence & Hm & Hpos).
  destruct (next_total w _ _ _ _ Hv Hm Hpos) as [[Hdone _]|(q & w' & m1 & m2 & A & Hnext & Hm2 & Hsend & Hq & Hv' & Hleft & HA)]; [by left|right].
  pose proof (Inv_manager c d h f s m2 Hm2 HI) as HI2.
  destruct (send_Inv L HL cq_id E Hla c d h f _ q _ HI2 Hidle Hq) as (l & m' & h' & Hrun & _ & (e1 & HA1 & He1) & HI'). cbn [manager hugepage] in Hrun.
  pose proof (send_events _ _ _ _ _ _ _ Hrun) as Hev.
  exists q, w', m1, m', h', l. split; [done|]. split; [by rewrite Hsend|]. split; [|done].
  split; [by exists c, d, h, f|by eapply valid_events|]. intros o Ho. destruct (He o Ho) as (e & Hdoes & Hrest). destruct (He1 o Ho) as [_ Hdoes1].
  exists (e ++ e1 o). split.
  - cbn [sent]. rewrite bytes_app. unfold bytes at 2. cbn [fmap list_fmap fst concat]. rewrite app_nil_r. by eapply does_app.
  - intros e' He'. rewrite <- app_assoc. apply Hrest, HA; [done|]. by eapply rest_events.
Qed.

Lemma run_step w0 m0 s w s' w' : Run w0 m0 s w → estep (s, w) (s', w') → Run w0 m0 s' w'.
Proof.
  intros Hr Hstep. inversion Hstep as [m h d sent_ consumed_ w1 q w2 m1 m' h' l Hnext Hsend Heq1 Heq2|s1 s2 w1 Hs Hsent]; subst.
  - destruct (run_send w0 m0 _ w Hr eq_refl) as [Hn|(q2 & w3 & m2 & m3 & h3 & l3 & Hn & Hsend3 & HR & _)]; cbn [manager hugepage] in *.
    + rewrite Hnext in Hn. discriminate.
    + rewrite Hnext in Hn. injection Hn as <- <- <-. rewrite Hsend in Hsend3. injection Hsend3 as <- <- <-. exact HR.
  - destruct Hr as [(c & d & h & f & HI) Hv He]. pose proof (step_events _ _ _ _ Hs Hsent) as Hev.
    split; [by eapply step_Inv|by eapply valid_events|]. intros o Ho. rewrite Hsent. destruct (He o Ho) as (e & Hd & Hrest).
    exists e. split; [done|]. intros e' He'. apply Hrest. by eapply rest_events.
Qed.

Lemma run_reachable w0 m0 s w s' w' : Run w0 m0 s w → rtc estep (s, w) (s', w') → Run w0 m0 s' w'.
Proof.
  intros Hr Hs. remember (s, w) as x eqn:Hx. remember (s', w') as y eqn:Hy. revert s w Hr Hx.
  induction Hs as [z|z1 [s1 w1] z3 H12 _ IH]; intros s w Hr ->; [by simplify_eq|].
  eapply IH; [done| |reflexivity]. by eapply run_step.
Qed.

(** *** Runs to the end *)
Lemma step_sent s s' : step a cq_id s s' → ∃ l, sent s' = sent s ++ l.
Proof. intros []; cbn [sent]; try (exists []; by rewrite app_nil_r). by eexists. Qed.
Lemma steps_sent s s' : rtc (step a cq_id) s s' → ∃ l, sent s' = sent s ++ l.
Proof.
  induction 1 as [s|s1 s2 s3 H12 _ (l & Hl)]; [exists []; by rewrite app_nil_r|].
  destruct (step_sent _ _ H12) as (k & Hk). exists (k ++ l). by rewrite Hl, Hk, app_assoc.
Qed.

(** A run in which nothing was issued *)
Lemma lift_steps s s' w : rtc (step a cq_id) s s' → sent s' = sent s → rtc estep (s, w) (s', w).
Proof.
  induction 1 as [s|s1 s2 s3 H12 H23 IH]; intros Hsent; [apply rtc_refl|].
  destruct (step_sent _ _ H12) as (k & Hk). destruct (steps_sent _ _ H23) as (l & Hl).
  rewrite Hl, Hk, <- app_assoc in Hsent. apply (f_equal length) in Hsent as Hlen. rewrite !length_app in Hlen.
  destruct k; [|simpl in Hlen; lia]. destruct l; [|simpl in Hlen; lia]. rewrite app_nil_r in Hk, Hl.
  eapply rtc_l; [by apply enqueue_other|]. apply IH. by rewrite Hl.
Qed.

(** The stream can always be emptied and the program finished. *)
Lemma run_finish w0 m0 s w : Run w0 m0 s w →
  ∃ s' w', rtc estep (s, w) (s', w') ∧ Run w0 m0 s' w' ∧ phase s' = Idle ∧ next w' (manager s') = Ok (None, manager s')
    ∧ consumed s' = bytes (sent s').
Proof.
  remember (remaining w) as k eqn:Hk. revert s w Hk. induction k as [k IH] using lt_wf_ind; intros s w -> Hr.
  destruct (rn_inv _ _ _ _ Hr) as (c & d & h & f & HI).
  destruct (finish L HL cq_id c d h f s HI) as (s1 & Hsteps & Hidle & Hsent & Hcons).
  pose proof (lift_steps _ _ w Hsteps Hsent) as Hrun. pose proof (run_reachable _ _ _ _ _ _ Hr Hrun) as Hr1.
  destruct (run_send w0 m0 s1 w Hr1 Hidle) as [Hdone|(q & w' & m1 & m' & h' & l & Hnext & Hsend & Hr2 & Hleft)].
  - exists s1, w. split; [done|]. split; [done|]. split; [done|]. split; [done|]. by rewrite Hcons, Hsent.
  - destruct (IH (remaining w') Hleft _ w' eq_refl Hr2) as (s3 & w3 & Hrun3 & Hrest). exists s3, w3. split; [|exact Hrest].
    etrans; [exact Hrun|]. eapply rtc_l; [|exact Hrun3]. destruct s1 as [m1' h1' p1 d1 sn1 cn1]. simpl in *. subst p1.
    by eapply enqueue_send.
Qed.

(** Finished: executing what was consumed does what the program is for. *)
Lemma run_executed w0 m0 s w m' o :
  Run w0 m0 s w → next w (manager s) = Ok (None, m') → consumed s = bytes (sent s) → length o = 3%nat →
  ∃ e, execute D read (consumed s) (flushed o) = Ok (e, flushed o) ∧ rest w0 m0 o e.
Proof.
  intros [(c & d & h & f & HI) Hv He] Hdone Hcons Ho. destruct (He o Ho) as (e & Hdoes & Hrest). exists e. split.
  - rewrite Hcons. by apply does_execute.
  - rewrite <- (app_nil_r e). apply Hrest. destruct (run_position s _ _ _ _ HI) as (pos & qptr & qfence & Hm & Hpos).
    destruct (next_total w _ _ _ _ Hv Hm Hpos) as [[_ Hnil]|(q & w' & m1 & m2 & A & Hnext & _)]; [done|]. rewrite Hdone in Hnext. discriminate.
Qed.
End stream.
