(* ===== verification/EnqueueWrite.v ===== *)
(** * Writing an interleaved buffer (tt_metal/impl/dispatch/command_queue.cpp)

    [HWCommandQueue::enqueue_write_buffer] for a buffer that is not sharded: how
    large the pieces are, and the loop that splits the pages into commands that
    fit both the prefetch queue and what is left of the issue region.  A page
    larger than a command is written in pieces of one size. *)
From S2P Require Import Prelude CommandQueue CoreCoord Buffer DeviceCommand EnqueueSend EnqueueCommands EnqueueStream.

Definition BASE_PARTIAL_PAGE_SIZE : Z := 4096.

Section enqueue_write.
Context (E : cmd_env) (c : dispatch_constants) (V : device_view) (d : Device) (cq_id : nat).
Abbreviation pcie_alignment := (host_alignment (env_hal E)).
Abbreviation BARE_MIN_SIZE := (CQ_PREFETCH_CMD_BARE_MIN_SIZE E).

(** What is computed before the loop. *)
Record write_geometry := mk_geometry {
  write_partial_pages : bool;
  page_size_to_write : Z;
  write_num_banks : Z;
  max_num_pages_to_write : Z
}.

(** Pages left, and the next of them. *)
Record write_state := mk_write_state {
  total_pages_to_write : Z;
  dst_page_index : Z;
  bank_base_address : Z
}.

(** [while (padded_buffer_size % partial_size != 0) partial_size += pcie_alignment;] *)
Fixpoint find_partial_size (fuel : nat) (padded_buffer_size partial_size : Z) : outcome Z :=
  r ← umod padded_buffer_size partial_size;
  if r =? 0 then Ok partial_size
  else match fuel with
       | O => Err FUEL
       | S fuel => find_partial_size fuel padded_buffer_size (u32 (partial_size + pcie_alignment))
       end.

(** No more steps than the buffer has bytes are needed: its size divides itself. *)
Definition write_start (m : SystemMemoryManager) (buffer : Buffer) : outcome (write_geometry * write_state) :=
  _ ← check (negb (bypass_enable m)) TT_FATAL;
  padded_page_size ← aligned_page_size d buffer;
  let max_data_sizeB := u32 (max_prefetch_command_size c - BARE_MIN_SIZE * 2) in
  pages ← num_pages buffer;
  let write_partial_pages := max_data_sizeB <? padded_page_size in
  let padded_buffer_size := u32 (pages * padded_page_size) in
  '(page_size_to_write, total_pages_to_write) ←
    (if write_partial_pages then
       _ ← check (pages =? 1) TT_FATAL;
       partial_size ← find_partial_size (Z.to_nat padded_buffer_size) padded_buffer_size BASE_PARTIAL_PAGE_SIZE;
       total ← udiv padded_buffer_size partial_size;
       Ok (partial_size, total)
     else Ok (padded_page_size, pages));
  num_banks ← DeviceAllocator.num_banks (device_allocator d) (buffer_type_ buffer);
  num_pages_round_robined ← udiv pages num_banks;
  num_banks_with_residual_pages ← umod pages num_banks;
  num_partial_pages_per_page ← udiv padded_page_size page_size_to_write;
  let num_partials_round_robined := u32 (num_partial_pages_per_page * num_pages_round_robined) in
  let max_num_pages_to_write :=
    if write_partial_pages then
      if 0 <? num_pages_round_robined then u32 (num_banks * num_partials_round_robined) else num_banks_with_residual_pages
    else total_pages_to_write in
  Ok (mk_geometry write_partial_pages page_size_to_write num_banks max_num_pages_to_write,
      mk_write_state total_pages_to_write 0 (buffer_address buffer)).

(** One round after another: it wraps the write pointer when no page fits, and gives the
    next command otherwise. *)
Fixpoint write_next (fuel : nat) (buffer : Buffer) (src : list Z) (expected_num_workers_completed : Z) (g : write_geometry)
  (w : write_state) (m : SystemMemoryManager) : outcome (option (command_sequence * write_state) * SystemMemoryManager) :=
  if total_pages_to_write w =? 0 then Ok (None, m)
  else
    let issue_wait := (dst_page_index w =? 0) && (bank_base_address w =? buffer_address buffer) in
    let data_offsetB := if issue_wait then u32 (BARE_MIN_SIZE * 2) else BARE_MIN_SIZE in
    command_issue_limit ← get_issue_queue_limit cq_id m;
    write_ptr ← get_issue_queue_write_ptr cq_id m;
    let space_availableB := Z.min (u32 (command_issue_limit - write_ptr)) (max_prefetch_command_size c) in
    _ ← check (negb (to_i32 (page_size_to_write g) =? 0)) UB;
    let num_pages_available :=
      Z.quot (to_i32 space_availableB - to_i32 data_offsetB) (to_i32 (page_size_to_write g)) in
    if num_pages_available <=? 0 then
      match fuel with
      | O => Err FUEL
      | S fuel =>
        m ← wrap_issue_queue_wr_ptr cq_id m;
        write_next fuel buffer src expected_num_workers_completed g w m
      end
    else
      let num_pages_to_write :=
        Z.min (Z.min (u32 num_pages_available) (max_num_pages_to_write g)) (total_pages_to_write w) in
      '(dst, base) ←
        (if (0xFFFF <? dst_page_index w) || ((num_pages_to_write =? max_num_pages_to_write g) && write_partial_pages g) then
           let num_banks_to_use := if write_partial_pages g then max_num_pages_to_write g else write_num_banks g in
           residual ← umod (dst_page_index w) num_banks_to_use;
           num_pages_written_per_bank ← udiv (dst_page_index w) num_banks_to_use;
           Ok (residual, u32 (bank_base_address w + u32 (num_pages_written_per_bank * page_size_to_write g)))
         else Ok (dst_page_index w, bank_base_address w));
      let q := EnqueueWriteBufferCommand_process E c
                 (add_dispatch_write_interleaved E buffer base (page_size_to_write g) dst num_pages_to_write)
                 (add_buffer_data_interleaved E d buffer src base (page_size_to_write g) dst num_pages_to_write)
                 issue_wait expected_num_workers_completed (page_size_to_write g) num_pages_to_write in
      Ok (Some (q, mk_write_state (u32 (total_pages_to_write w - num_pages_to_write)) (u32 (dst + num_pages_to_write)) base), m).
End enqueue_write.
