(* ===== verification/EnqueueShards.v ===== *)
(** * Sharded buffers through the command queue (tt_metal/impl/dispatch/command_queue.cpp)

    The loops of [HWCommandQueue::enqueue_write_buffer] and [enqueue_read_buffer]
    over the cores of a sharded buffer.  A write gives one or more commands for
    each core, a read one; the states of the loops are explicit, so that the
    commands come one by one. *)
From S2P Require Import Prelude BankManager Allocator DeviceAllocator CommandQueue CoreCoord Buffer DeviceCommand EnqueueSend EnqueueCommands.

(** [Buffer::get_buffer_page_mapping]; the buffer keeps the mapping it computed. *)
Definition buffer_page_mapping (b : Buffer) : outcome BufferPageMapping :=
  _ ← check (is_sharded (buffer_layout_ b)) TT_ASSERT;
  match buffer_page_mapping_ b with
  | Some mapping => Ok mapping
  | None => generate_buffer_page_mapping b
  end.

(** What is computed before the cores are visited: the mapping when the shards split the width. *)
Record shard_plan := mk_plan {
  sp_mapping : option BufferPageMapping;
  sp_cores : list CoreCoord;
  sp_num_pages : Z;
  sp_max_pages : Z
}.

(** The loop over the cores: the next core, the pages not given to a core yet, the page on the device. *)
Record core_loop := mk_core_loop {
  core_id : Z;
  num_total_pages : Z;
  dev_page : Z
}.

(** Pages of one core: where they start on the device, how many. *)
Record shard := mk_shard {
  sh_core : CoreCoord;
  sh_base : Z;
  sh_first : Z;
  sh_pages : Z
}.

(** The pages of a shard that are still to be written. *)
Record shard_write := mk_shard_write {
  sw_loop : core_loop;
  sw_shard : shard;
  curr_page_idx_in_shard : Z;
  sw_num_pages : Z
}.

Section shards.
Context (E : cmd_env) (c : dispatch_constants) (V : device_view) (d : Device) (cq_id : nat) (buffer : Buffer).
Abbreviation BARE_MIN_SIZE := (CQ_PREFETCH_CMD_BARE_MIN_SIZE E).

Definition plan_shards : outcome shard_plan :=
  spec ← shard_spec buffer;
  in_pages ← shape_in_pages spec;
  let width_split := negb (in_pages.2 =? (tensor2d_shape spec).2) in
  mapping ← (if width_split then m ← buffer_page_mapping buffer; Ok (Some m) else Ok None);
  cores ← (match mapping with
           | Some m => Ok (all_cores_ m)
           | None =>
             n ← buffer_num_cores buffer;
             Ok (corerange_to_cores (grid (tensor_shard_spec spec)) (Some n)
                   (bool_decide (orientation (tensor_shard_spec spec) = ROW_MAJOR)))
           end);
  pages ← num_pages buffer;
  max_pages_per_shard ← shard_size spec;
  Ok (mk_plan mapping cores pages max_pages_per_shard).

Definition loop_start (plan : shard_plan) : core_loop := mk_core_loop 0 (sp_num_pages plan) 0.

(** Pages of the core, with the pages left for the others. *)
Definition pages_of_core (plan : shard_plan) (s : core_loop) : outcome (Z * Z) :=
  match sp_mapping plan with
  | Some mapping =>
    shape ← at_ (core_shard_shape_ mapping) (Z.to_nat (core_id s));
    spec ← shard_spec buffer;
    in_pages ← shape_in_pages spec;
    Ok (u32 (shape.1 * in_pages.2), num_total_pages s)
  | None =>
    let n := Z.min (num_total_pages s) (sp_max_pages plan) in
    Ok (n, u32 (num_total_pages s - n))
  end.

(** The page on the device that holds the first host page of the core. *)
Definition first_page_of_core (mapping : BufferPageMapping) (core_id : Z) : outcome Z :=
  indices ← at_ (core_host_page_indices_ mapping) (Z.to_nat core_id);
  host_page ← at_ indices 0;
  at_ (host_page_to_dev_page_mapping_ mapping) (Z.to_nat host_page).

Definition base_of_core (plan : shard_plan) (core_id : Z) : outcome Z :=
  if is_dram buffer then
    core ← at_ (sp_cores plan) (Z.to_nat core_id);
    channel ← dram_channel_from_logical_core V core;
    o ← DeviceAllocator.bank_offset (device_allocator d) DRAM channel;
    Ok (u32 (buffer_address buffer + o))
  else Ok (buffer_address buffer).

(** *** Writing *)

(** A core of the loop: none of its pages is written yet.  Without pages nothing else is looked up. *)
Definition write_core_start (plan : shard_plan) (s : core_loop) : outcome (shard_write + core_loop) :=
  '(n, rest) ← pages_of_core plan s;
  if bool_decide (is_Some (sp_mapping plan)) && (n =? 0) then Ok (inr (mk_core_loop (u32 (core_id s + 1)) rest (dev_page s)))
  else
    first ← (match sp_mapping plan with Some mapping => first_page_of_core mapping (core_id s) | None => Ok (dev_page s) end);
    base ← base_of_core plan (core_id s);
    if n =? 0 then Ok (inr (mk_core_loop (u32 (core_id s + 1)) rest first))
    else
      core ← at_ (sp_cores plan) (Z.to_nat (core_id s));
      Ok (inl (mk_shard_write (mk_core_loop (u32 (core_id s + 1)) rest first) (mk_shard core base first n) 0 n)).

Definition cores_left (s : core_loop) : outcome bool :=
  n ← buffer_num_cores buffer; Ok (core_id s <? n).

Definition EnqueueWriteShardedBufferCommand (plan : shard_plan) (src : list Z) (issue_wait : bool)
  (expected_num_workers_completed address : Z) (core : CoreCoord) (padded_page_size dst_page_index pages_to_write : Z) : command_sequence :=
  EnqueueWriteBufferCommand_process E c
    (add_dispatch_write_sharded E V buffer core address padded_page_size pages_to_write)
    (add_buffer_data_sharded E buffer src (sp_mapping plan) padded_page_size dst_page_index pages_to_write)
    issue_wait expected_num_workers_completed padded_page_size pages_to_write.

(** The next command of the pages of one core; wraps the write pointer when no page fits.  A negative
    number of pages that fit is a large one. *)
Fixpoint write_shard_next (fuel : nat) (plan : shard_plan) (src : list Z) (expected_num_workers_completed padded_page_size : Z)
  (w : shard_write) (m : SystemMemoryManager) : outcome (command_sequence * shard_write * SystemMemoryManager) :=
  let dst_page_index := dev_page (sw_loop w) in
  let issue_wait := dst_page_index =? 0 in
  let data_offset_bytes := u32 (sizeof_CQPrefetchCmd + sizeof_CQDispatchCmd) in
  let data_offset_bytes := if issue_wait then u32 (data_offset_bytes * 2) else data_offset_bytes in
  command_issue_limit ← get_issue_queue_limit cq_id m;
  write_ptr ← get_issue_queue_write_ptr cq_id m;
  let space_available_bytes := Z.min (u32 (command_issue_limit - write_ptr)) (max_prefetch_command_size c) in
  _ ← check (negb (to_i32 padded_page_size =? 0)) UB;
  let num_pages_available :=
    Z.quot (to_i32 space_available_bytes - to_i32 data_offset_bytes) (to_i32 padded_page_size) in
  let pages_to_write := Z.min (sw_num_pages w) (u32 num_pages_available) in
  if 0 <? pages_to_write then
    let address := u32 (sh_base (sw_shard w) + u32 (curr_page_idx_in_shard w * padded_page_size)) in
    Ok (EnqueueWriteShardedBufferCommand plan src issue_wait expected_num_workers_completed address (sh_core (sw_shard w))
          padded_page_size dst_page_index pages_to_write,
        mk_shard_write (mk_core_loop (core_id (sw_loop w)) (num_total_pages (sw_loop w)) (u32 (dst_page_index + pages_to_write)))
          (sw_shard w) (u32 (curr_page_idx_in_shard w + pages_to_write)) (u32 (sw_num_pages w - pages_to_write)),
        m)
  else
    match fuel with
    | O => Err FUEL
    | S fuel =>
      m ← wrap_issue_queue_wr_ptr cq_id m;
      write_shard_next fuel plan src expected_num_workers_completed padded_page_size w m
    end.

(** The next core with pages, or none. *)
Fixpoint write_next_core (fuel : nat) (plan : shard_plan) (s : core_loop) : outcome (option shard_write) :=
  left_ ← cores_left s;
  if left_ : bool then
    r ← write_core_start plan s;
    match r, fuel with
    | inl w, _ => Ok (Some w)
    | inr s, S fuel => write_next_core fuel plan s
    | inr _, O => Err FUEL
    end
  else Ok None.

(** Before the loop. *)
Definition write_shards_start (m : SystemMemoryManager) : outcome (shard_plan * Z) :=
  _ ← check (negb (bypass_enable m)) TT_FATAL;
  padded_page_size ← aligned_page_size d buffer;
  plan ← plan_shards;
  let max_data_sizeB := u32 (max_prefetch_command_size c - BARE_MIN_SIZE * 2) in
  _ ← check (padded_page_size <=? max_data_sizeB) TT_FATAL;
  Ok (plan, padded_page_size).

(** *** Reading *)

(** The next core that has pages: its command, and the loop after it. *)
Fixpoint read_next_core (fuel : nat) (plan : shard_plan) (s : core_loop) : outcome (option (shard * core_loop)) :=
  left_ ← cores_left s;
  if left_ : bool then
    '(n, rest) ← pages_of_core plan s;
    base ← base_of_core plan (core_id s);
    if 0 <? n then
      first ← (match sp_mapping plan with Some mapping => first_page_of_core mapping (core_id s) | None => Ok (dev_page s) end);
      core ← at_ (sp_cores plan) (Z.to_nat (core_id s));
      Ok (Some (mk_shard core base first n, mk_core_loop (u32 (core_id s + 1)) rest (u32 (first + n))))
    else
      match fuel with
      | O => Err FUEL
      | S fuel => read_next_core fuel plan (mk_core_loop (u32 (core_id s + 1)) rest (dev_page s))
      end
  else Ok None.

Definition EnqueueReadShardedBufferCommand (expected_num_workers_completed : Z) (sh : shard) : command_sequence :=
  EnqueueReadBufferCommand_process E c d buffer
    (add_prefetch_relay_sharded E V d buffer (sh_core sh) (sh_base sh) (sh_pages sh)) expected_num_workers_completed (sh_pages sh).

(** *** The shards a loop visits *)

(** The loop behind the last page of a shard. *)
Definition after_shard (w : shard_write) : core_loop :=
  mk_core_loop (core_id (sw_loop w)) (num_total_pages (sw_loop w)) (u32 (sh_first (sw_shard w) + sh_pages (sw_shard w))).

(** Rounds over the cores; there are no more than cores. *)
Definition core_rounds (plan : shard_plan) : nat := length (sp_cores plan).

Fixpoint shards_written (fuel : nat) (plan : shard_plan) (s : core_loop) : outcome (list shard) :=
  r ← write_next_core (core_rounds plan) plan s;
  match r, fuel with
  | None, _ => Ok []
  | Some w, S fuel => l ← shards_written fuel plan (after_shard w); Ok (sw_shard w :: l)
  | Some _, O => Err FUEL
  end.

Fixpoint shards_read (fuel : nat) (plan : shard_plan) (s : core_loop) : outcome (list shard) :=
  r ← read_next_core (core_rounds plan) plan s;
  match r, fuel with
  | None, _ => Ok []
  | Some (sh, s), S fuel => l ← shards_read fuel plan s; Ok (sh :: l)
  | Some _, O => Err FUEL
  end.
End shards.
