(* ===== verification/EnqueueWriteSpec.v ===== *)
(** * The loop that writes an interleaved buffer

    The write pointer of the issue region is moved to the start only when the
    next command would be put there anyway; every round makes progress; and the
    pages end up in their banks however the loop splits them. *)
From S2P Require Import Prelude CommandQueue CommandQueueProps CommandStreamHost Prefetcher CommandStream CoreCoord CoreCoordProps Buffer DeviceCommand DeviceCommandSpec DeviceExecution DeviceCommandOps EnqueueSend EnqueueCommands EnqueueSpec EnqueueStream EnqueueWrite.

(** ** Wrapping the write pointer *)
Section wrap.
Context (L : layout) (HL : layout_ok L) (cq_id : nat).

Lemma limit_spec m pos qptr qfence : host_at L cq_id m pos qptr qfence → get_issue_queue_limit cq_id m = Ok (lbase L + lsize L).
Proof.
  intros [_ _ _ _ _ _ (i & Hi & _ & Hl & _) _ _ _]. pose proof (lo_end L HL). pose proof (lo_base L HL). pose proof (lo_command L HL).
  unfold get_issue_queue_limit, interface_at. rewrite (at_some _ _ _ Hi). cbn [mbind outcome_bind].
  assert (0 < lsize L) by (pose proof (lo_room L HL); pose proof (lo_entries L HL); nia).
  rewrite shiftl_16 by lia. by rewrite Hl.
Qed.

Lemma wrap_spec m pos qptr qfence : host_at L cq_id m pos qptr qfence →
  ∃ m', wrap_issue_queue_wr_ptr cq_id m = Ok m' ∧ host_at L cq_id m' 0 qptr qfence.
Proof.
  intros Hm. pose proof Hm as [Hb Ha Ho _ _ _ (i & Hi & Hst & Hl & Hp) _ _ Hpm]. destruct (lo_base L HL) as (Hb0 & Hba & Hsa).
  unfold wrap_issue_queue_wr_ptr, interface_at. rewrite Hb, (at_some _ _ _ Hi). cbn [mbind outcome_bind].
  eexists. split; [reflexivity|]. eapply host_at_set; [exact Hm|exact Hi|done|done|done| |apply mod_zero, HL].
  simpl. unfold issue_fifo_start. rewrite Hst, (start_16 L HL) by done. lia.
Qed.

(** A sequence that does not fit is put at the start anyway. *)
Lemma reserve_wrapped m pos qptr qfence m' n :
  host_at L cq_id m pos qptr qfence → 0 <= pos < lsize L → wrap_issue_queue_wr_ptr cq_id m = Ok m' →
  size_ok L n → lsize L < pos + n → issue_queue_reserve n cq_id m' = issue_queue_reserve n cq_id m.
Proof.
  intros Hm Hpos Hwrap Hn Hbig. destruct (wrap_spec m pos qptr qfence Hm) as (m2 & Hw2 & Hm'). rewrite Hwrap in Hw2. injection Hw2 as <-.
  pose proof (lo_end L HL). destruct (lo_base L HL) as (Hb0 & _). pose proof (lo_command L HL). pose proof (lo_room L HL). pose proof (lo_entries L HL).
  pose proof (proj1 Hn) as [Hn0 Hn1]. assert (Hnl : lm L <= lsize L) by nia.
  unfold issue_queue_reserve. rewrite (ha_bypass _ _ _ _ _ _ Hm), (ha_bypass _ _ _ _ _ _ Hm').
  rewrite (write_ptr_spec L HL cq_id m pos qptr qfence) by (done || lia).
  rewrite (write_ptr_spec L HL cq_id m' 0 qptr qfence) by (done || lia). cbn [mbind outcome_bind].
  rewrite (limit_spec _ _ _ _ Hm), (limit_spec _ _ _ _ Hm'). cbn [mbind outcome_bind].
  rewrite (ha_align _ _ _ _ _ _ Hm), (ha_align _ _ _ _ _ _ Hm'), (align_size L HL n Hn).
  rewrite !u32_small by lia. rewrite (proj2 (Z.ltb_ge _ (lbase L + 0 + n))) by lia.
  rewrite (proj2 (Z.ltb_lt _ (lbase L + pos + n))) by lia. rewrite Hwrap. cbn [mbind outcome_bind].
  by rewrite (write_ptr_spec L HL cq_id m' 0 qptr qfence) by (done || lia).
Qed.

Lemma send_wrapped m pos qptr qfence m' q h :
  host_at L cq_id m pos qptr qfence → 0 <= pos < lsize L → wrap_issue_queue_wr_ptr cq_id m = Ok m' →
  size_ok L (cmd_sequence_size q) → lsize L < pos + cmd_sequence_size q → send cq_id q (m', h) = send cq_id q (m, h).
Proof.
  intros Hm Hpos Hwrap Hn Hbig. unfold send. cbn [fst snd]. by rewrite (reserve_wrapped m pos qptr qfence m') by done.
Qed.
End wrap.

(** ** Pages and banks *)
Section banks.
Context (B : bank_tables) (padded : Z).
Context (Haligned : aligned_page_bytes B padded = padded).

(** Rows of pages further up in every bank. *)
Lemma get_noc_addr_rows pages base rows id :
  banks_ok B pages → 0 <= rows → 0 <= id → rows * NUM_BANKS B + id < pages →
  get_noc_addr B (base + rows * padded) padded id 0 = get_noc_addr B base padded (rows * NUM_BANKS B + id) 0.
Proof.
  intros HB Hr Hid Hfit. pose proof (bo_banks _ _ HB) as Hn.
  destruct (bank_of_page B pages id HB) as [Ho Hi]; [nia|].
  destruct (bank_of_page B pages (rows * NUM_BANKS B + id) HB) as [Ho' Hi']; [nia|].
  unfold get_noc_addr. cbv zeta. rewrite Hi', Hi, Ho', Ho.
  replace (rows * NUM_BANKS B + id) with (id + rows * NUM_BANKS B) by lia. rewrite Z.mod_add, Z.div_add by lia.
  f_equal. unfold get_addr. rewrite Haligned. do 2 f_equal. rewrite !Z.add_0_r.
  unfold u32, wrap. rewrite !Z.mod_mod, !Zplus_mod_idemp_l by done. f_equal. lia.
Qed.

Lemma page_writes_rows pages base rows qs : banks_ok B pages → 0 <= rows → ∀ id, 0 <= id →
  rows * NUM_BANKS B + id + Z.of_nat (length qs) <= pages →
  page_writes B (base + rows * padded) padded id qs = page_writes B base padded (rows * NUM_BANKS B + id) qs.
Proof.
  intros HB Hr. induction qs as [|q qs IH]; intros id Hid Hfit; [done|]. cbn [length page_writes] in *.
  rewrite (get_noc_addr_rows pages) by (done || lia). destruct (get_noc_addr _ _ _ _ _) as [noc addr].
  rewrite IH by lia. do 2 f_equal. lia.
Qed.

Lemma page_writes_app base qs1 qs2 id :
  page_writes B base padded id (qs1 ++ qs2)
  = page_writes B base padded id qs1 ++ page_writes B base padded (id + Z.of_nat (length qs1)) qs2.
Proof.
  revert id; induction qs1 as [|q qs1 IH]; intros id; [by rewrite Z.add_0_r|]. cbn [app page_writes length].
  destruct (get_noc_addr _ _ _ _ _) as [noc addr]. rewrite IH. cbn [app]. do 3 f_equal. lia.
Qed.
End banks.

(** ** The loop *)
Lemma quot_positive a b : 0 < b → 0 < Z.quot a b → 0 <= a ∧ Z.quot a b * b <= a.
Proof.
  intros Hb Hq. assert (0 <= a).
  { apply Z.nlt_ge. intros Ha. pose proof (Z.quot_pos (- a) b ltac:(lia) Hb) as H. rewrite Z.quot_opp_l in H by lia. lia. }
  split; [done|]. rewrite Z.mul_comm. by apply Z.mul_quot_le; lia.
Qed.
Section write.
Context (L : layout) (E : cmd_env) (c : dispatch_constants) (V : device_view) (D : device_args).
Context (read : action → outcome (list Z)) (HK : kernels_ok L E c V D) (Hc : max_prefetch_command_size c = lm L).
Context (d : Device) (cq_id : nat) (buffer : Buffer) (src : list Z) (expected padded nb pages : Z).
Abbreviation pa := (host_alignment (env_hal E)).
Abbreviation base := (buffer_address buffer).
Abbreviation psz := (u32 (page_size_ buffer)).
Abbreviation host_page := (host_page buffer src 0).
Abbreviation pages_of := (pages_of padded).

Definition banks_of_buffer : bank_tables := if is_dram buffer then da_dram D else da_l1 D.
Abbreviation B := banks_of_buffer.

(** The whole source is written to the whole buffer, page by page. *)
Record buffer_write_ok : Prop := mk_buffer_write_ok {
  bw_interleaved : interleaved_ok E d buffer src padded nb (pages / nb);
  bw_num_banks : 0 < nb <= 65536 ∧ NUM_BANKS B = nb;
  bw_banks : banks_ok B pages;
  bw_aligned : aligned_page_bytes B padded = padded;
  bw_pages : 0 <= pages < 2 ^ 32 ∧ num_pages buffer = Ok pages ∧ pages * psz <= Z.of_nat (length src);
  bw_fits : padded + 2 * pa <= max_prefetch_command_size c;
  bw_expected : in_range 32 expected
}.
Context (HB : buffer_write_ok).

(** [first] pages are written. *)
Record write_at (first : Z) (w : write_state) : Prop := mk_write_at {
  wa_left : 0 <= first ∧ 0 <= total_pages_to_write w ∧ first + total_pages_to_write w = pages;
  wa_place : ∃ rows, 0 <= rows ∧ 0 <= dst_page_index w ∧ first = rows * nb + dst_page_index w
               ∧ bank_base_address w = base + rows * padded
}.

Definition geometry : write_geometry := mk_geometry false padded nb pages.

(** Pages [first], [first + 1], ... in their banks; before the first of them the dispatcher waits. *)
Definition pages_written (first : Z) (qs : list (list Z)) : list event :=
  (if first =? 0 then [dispatched (wait_effect 0 (addr_of c DEV_DISPATCH_MESSAGE) expected 0 false true)] else [])
  ++ (dispatched <$> page_writes B base padded first qs).

Definition page_event (first n : Z) (e : list Z → list event) : Prop :=
  ∃ qs, pages_of (host_page <$> seq (Z.to_nat first) (Z.to_nat n)) qs ∧ e = λ _, pages_written first qs.

Lemma interleaved_rows rows : 0 <= rows → rows * nb <= pages → interleaved_ok E d buffer src padded nb rows.
Proof.
  intros Hr Hle. destruct (bw_interleaved HB) as [H1 H2 H3 [H4 H5] H6 H7]. pose proof (bw_num_banks HB) as [Hn _].
  pose proof (pk_page _ _ _ H6) as [_ Hp].
  split; try done. split; [done|]. assert (rows <= pages / nb) by (apply Z.div_le_lower_bound; lia). nia.
Qed.

Lemma wait_first first w : write_at first w → (dst_page_index w =? 0) && (bank_base_address w =? base) = (first =? 0).
Proof.
  intros [_ (rows & Hr & Hd & -> & ->)]. pose proof (bw_num_banks HB) as [Hn _].
  pose proof (pk_page _ _ _ (io_page _ _ _ _ _ _ _ (bw_interleaved HB))) as [_ Hp].
  destruct (Z.eq_dec rows 0) as [->|Hne].
  - rewrite Z.mul_0_l, Z.add_0_l, Z.add_0_r, Z.eqb_refl. apply andb_true_r.
  - assert (0 < rows * nb ∧ 0 < rows * padded) as [] by (split; apply Z.mul_pos_pos; lia).
    rewrite (proj2 (Z.eqb_neq (base + rows * padded) base)), (proj2 (Z.eqb_neq (_ + _) 0)) by lia. apply andb_false_r.
Qed.

(** The place of the next command: its page index fits in 16 bits. *)
Definition next_place (w : write_state) : Z * Z :=
  if 0xFFFF <? dst_page_index w then (dst_page_index w mod nb, u32 (bank_base_address w + u32 (dst_page_index w / nb * padded)))
  else (dst_page_index w, bank_base_address w).

Lemma next_place_spec first w : write_at first w →
  ∃ rows dst, next_place w = (dst, base + rows * padded) ∧ 0 <= rows ∧ 0 <= dst <= 0xFFFF
    ∧ first = rows * nb + dst ∧ rows * nb <= pages.
Proof.
  intros [(Hf & Ht & Hsum) (rows & Hr & Hd & Hfirst & Hbase)]. pose proof (bw_num_banks HB) as [Hn _].
  destruct (bw_interleaved HB) as [_ _ _ [_ Hend] [[_ Hp] _] _]. unfold next_place.
  assert (0 <= base) by (unfold buffer_address; apply u32_range).
  destruct (Z.ltb_spec 0xFFFF (dst_page_index w)) as [Hbig|Hsmall].
  - set (k := dst_page_index w / nb). pose proof (Z.div_mod (dst_page_index w) nb ltac:(lia)) as Hdm. fold k in Hdm.
    pose proof (Z.mod_pos_bound (dst_page_index w) nb ltac:(lia)). assert (0 <= k) by (apply Z.div_pos; lia).
    assert (Hle : (rows + k) * nb <= pages) by nia.
    assert (rows + k <= pages / nb) by (apply Z.div_le_lower_bound; lia).
    assert ((rows + k) * padded <= pages / nb * padded) by nia.
    exists (rows + k), (dst_page_index w mod nb). split; [|split; [lia|split; [lia|split; [nia|done]]]].
    f_equal. rewrite Hbase, (u32_small (k * padded)) by nia. rewrite u32_small by nia. lia.
  - exists rows, (dst_page_index w). split; [by rewrite Hbase|]. split; [done|]. split; [lia|]. split; [done|]. nia.
Qed.

Lemma div_mod_next {A} w (k : Z * Z → outcome A) :
  ('(dst, b) ← (if (0xFFFF <? dst_page_index w) || false then
       residual ← umod (dst_page_index w) nb;
       per_bank ← udiv (dst_page_index w) nb;
       Ok (residual, u32 (bank_base_address w + u32 (per_bank * padded)))
     else Ok (dst_page_index w, bank_base_address w)); k (dst, b)) = k (next_place w).
Proof.
  pose proof (bw_num_banks HB) as [Hn _]. unfold next_place. rewrite orb_false_r.
  destruct (0xFFFF <? dst_page_index w); [|done]. rewrite umod_ok, udiv_ok by lia. done.
Qed.

(** The command for [n] pages. *)
Definition next_command (first n : Z) (w : write_state) : command_sequence :=
  let '(dst, b) := next_place w in
  EnqueueWriteBufferCommand_process E c (add_dispatch_write_interleaved E buffer b padded dst n)
    (add_buffer_data_interleaved E d buffer src b padded dst n) (first =? 0) expected padded n.
Definition next_state (n : Z) (w : write_state) : write_state :=
  let '(dst, b) := next_place w in mk_write_state (u32 (total_pages_to_write w - n)) (u32 (dst + n)) b.

Lemma next_state_at first n w : write_at first w → 0 <= n <= total_pages_to_write w → write_at (first + n) (next_state n w).
Proof.
  intros Hw Hn. pose proof Hw as [(Hf & Ht & Hsum) _]. pose proof (bw_pages HB) as (Hp & _).
  destruct (next_place_spec first w Hw) as (rows & dst & Hplace & Hr & Hd & Hfirst & Hrows). pose proof (bw_num_banks HB) as [Hnb _].
  unfold next_state. rewrite Hplace. split; cbn [total_pages_to_write dst_page_index bank_base_address].
  - rewrite u32_small by lia. lia.
  - exists rows. rewrite u32_small by nia. split; [done|]. split; [lia|]. split; [lia|done].
Qed.

Lemma next_command_ok first n w : write_at first w → 0 < n <= total_pages_to_write w →
  n * padded + pa + Z.b2z (first =? 0) * pa <= lm L →
  sequence_ok L E (next_command first n w) (performs D read (page_event first n)).
Proof.
  intros Hw Hn Hfit. pose proof Hw as [(Hf & Ht & Hsum) _]. pose proof (bw_pages HB) as (Hp & _ & Hsrc).
  destruct (next_place_spec first w Hw) as (rows & dst & Hplace & Hr & Hd & Hfirst & Hrows). pose proof (bw_num_banks HB) as [Hnb HnB].
  pose proof (interleaved_rows rows Hr Hrows) as Hio. pose proof (u32_range (page_size_ buffer)) as Hpsz.
  unfold next_command. rewrite Hplace.
  destruct (write_interleaved_ok L E c V D read HK d buffer src padded nb rows dst n (first =? 0) expected) as [Hsize Hfill]; try done.
  { lia. } { lia. } { apply (bw_expected HB). } { rewrite <- Hfirst. nia. }
  split; [exact Hsize|]. intros s H1 H2 H3. destruct (Hfill s H1 H2 H3) as (s' & Hrun & Hlen & e & (qs & Hqs & ->) & He).
  exists s'. split; [done|]. split; [done|]. eexists. split; [|exact He]. exists qs.
  rewrite Hfirst. split; [done|]. unfold pages_written. fold B. rewrite (page_writes_rows B padded (bw_aligned HB) pages).
  - by rewrite HnB.
  - apply (bw_banks HB).
  - done.
  - lia.
  - apply Forall2_length in Hqs. rewrite length_fmap, length_seq in Hqs. rewrite HnB. lia.
Qed.

(** What a round finds. *)
Definition data_offset (first : Z) : Z := if first =? 0 then 2 * pa else pa.
Definition available (pos first : Z) : Z := Z.quot (Z.min (lsize L - pos) (lm L) - data_offset first) padded.
Definition taken (pos first : Z) (w : write_state) : Z := Z.min (Z.min (available pos first) pages) (total_pages_to_write w).
Abbreviation write_next fuel := (write_next E c d cq_id fuel buffer src expected geometry).

Let HL : layout_ok L := ko_layout _ _ _ _ _ HK.

Lemma padded_bounds : 0 < padded ∧ 32 <= pa <= 64 ∧ padded + 2 * pa <= lm L ∧ lm L <= 131072 ∧ lm L <= lsize L.
Proof.
  destruct (pk_page _ _ _ (io_page _ _ _ _ _ _ _ (bw_interleaved HB))) as [_ Hp].
  pose proof (pa_bounds E (ko_env _ _ _ _ _ HK)) as [Hpa _]. pose proof (bw_fits HB). rewrite Hc in *. pose proof (lo_command L HL).
  pose proof (lo_room L HL). pose proof (lo_entries L HL). nia.
Qed.

Lemma small_i32 z : 0 <= z < 2 ^ 31 → to_i32 z = z.
Proof. intros Hz. unfold to_i32. rewrite u32_small by lia. cbv zeta. by rewrite (proj2 (Z.ltb_lt _ _)) by lia. Qed.

Lemma write_round fuel first w m pos qptr qfence :
  write_at first w → 0 < total_pages_to_write w → host_at L cq_id m pos qptr qfence → 0 <= pos < lsize L →
  write_next fuel w m =
    if available pos first <=? 0 then
      match fuel with O => Err FUEL | S fuel => m ← wrap_issue_queue_wr_ptr cq_id m; write_next fuel w m end
    else Ok (Some (next_command first (taken pos first w) w, next_state (taken pos first w) w), m).
Proof.
  intros Hw Ht Hm Hpos. destruct padded_bounds as (Hp & Hpa & Hfit & Hlm & Hls). pose proof (lo_end L HL).
  destruct (lo_base L HL) as (Hb0 & _).
  destruct fuel; cbn [EnqueueWrite.write_next]; rewrite (proj2 (Z.eqb_neq _ _)) by lia; cbv zeta;
    rewrite (wait_first first w Hw), (limit_spec L HL cq_id m _ _ _ Hm), (write_ptr_spec L HL cq_id m _ _ _ Hm) by lia;
    cbn [mbind outcome_bind geometry page_size_to_write max_num_pages_to_write write_partial_pages write_num_banks];
    rewrite Hc, (small_i32 padded) by lia; unfold CQ_PREFETCH_CMD_BARE_MIN_SIZE;
    rewrite (proj2 (Z.eqb_neq padded 0)) by lia; cbn [negb check mbind outcome_bind];
    replace (lbase L + lsize L - (lbase L + pos)) with (lsize L - pos) by lia; rewrite (u32_small (lsize L - pos)), (u32_small (pa * 2)) by lia;
    rewrite (small_i32 (Z.min (lsize L - pos) (lm L))) by lia;
    (replace (to_i32 (if first =? 0 then pa * 2 else pa)) with (data_offset first)
      by (unfold data_offset; destruct (first =? 0); rewrite small_i32; lia));
    fold (available pos first); destruct (Z.leb_spec (available pos first) 0) as [Hle|Hgt]; try reflexivity;
    (rewrite (u32_small (available pos first));
      [fold (taken pos first w); rewrite andb_false_r;
       rewrite (div_mod_next w (λ '(dst, b), Ok (Some (EnqueueWriteBufferCommand_process E c (add_dispatch_write_interleaved E buffer b padded dst (taken pos first w)) (add_buffer_data_interleaved E d buffer src b padded dst (taken pos first w)) (first =? 0) expected padded (taken pos first w), mk_write_state (u32 (total_pages_to_write w - taken pos first w)) (u32 (dst + taken pos first w)) b), m)));
       unfold next_command, next_state; by destruct (next_place w)
      |]);
    (split; [lia|]; unfold available, data_offset;
     apply (Z.le_lt_trans _ (lm L)); [|lia]; apply Z.quot_le_upper_bound; [lia|]; destruct (first =? 0); nia).
Qed.

Lemma taken_spec pos first w : write_at first w → 0 < total_pages_to_write w → 0 < available pos first →
  let n := taken pos first w in 0 < n <= total_pages_to_write w ∧ n * padded + pa + Z.b2z (first =? 0) * pa <= lm L.
Proof.
  intros [(Hf & Ht & Hsum) _] Hpos Hav n. destruct padded_bounds as (Hp & Hpa & Hfit & Hlm & Hls).
  assert (Hn : n <= available pos first) by (unfold n, taken; lia). split; [unfold n, taken; clear - Hf Hsum Hpos Hav; lia|].
  unfold available, data_offset in *.
  destruct (quot_positive _ _ Hp Hav) as [Hge Hq]. destruct (first =? 0); cbn [Z.b2z]; nia.
Qed.

(** At the start of the region a page always fits. *)
Lemma available_start first : 0 < available 0 first.
Proof.
  destruct padded_bounds as (Hp & Hpa & Hfit & Hlm & Hls). unfold available, data_offset.
  enough (1 <= Z.quot (Z.min (lsize L - 0) (lm L) - (if first =? 0 then 2 * pa else pa)) padded) by lia.
  apply Z.quot_le_lower_bound; [lia|]. destruct (first =? 0); lia.
Qed.

Lemma not_available pos first n w : write_at first w → 0 < n → available pos first <= 0 → n * padded + pa + Z.b2z (first =? 0) * pa <= lm L →
  lsize L < pos + cmd_sequence_size (next_command first n w).
Proof.
  intros Hw Hn Hav Hmax. destruct padded_bounds as (Hp & Hpa & Hfit & Hlm & Hls).
  assert (Hb : 0 <= Z.b2z (first =? 0) * pa <= pa) by (destruct (first =? 0); simpl; lia).
  assert (Hnp : 0 < n * padded) by nia.
  assert (Hsize : cmd_sequence_size (next_command first n w) = n * padded + data_offset first).
  { unfold next_command, data_offset in *. destruct (next_place w). cbn [cmd_sequence_size EnqueueWriteBufferCommand_process].
    unfold CQ_PREFETCH_CMD_BARE_MIN_SIZE. rewrite (u32_small (n * padded)), (u32_small (pa + n * padded)) by lia.
    destruct (first =? 0); cbn [Z.b2z] in *; [rewrite u32_small by lia|]; lia. }
  rewrite Hsize. unfold available in Hav.
  assert (Z.min (lsize L - pos) (lm L) - data_offset first < padded).
  { apply Z.nle_gt. intros Hge. pose proof (Z.quot_le_lower_bound (Z.min (lsize L - pos) (lm L) - data_offset first) padded 1 Hp ltac:(lia)). lia. }
  unfold data_offset in *. destruct (first =? 0); nia.
Qed.

(** One round after another: the next command, wrapped at most once. *)
Lemma write_next_command first w m pos qptr qfence :
  write_at first w → 0 < total_pages_to_write w → host_at L cq_id m pos qptr qfence → 0 <= pos < lsize L →
  ∃ n m1, write_next 1%nat w m = Ok (Some (next_command first n w, next_state n w), m1)
    ∧ (∀ h, send cq_id (next_command first n w) (m1, h) = send cq_id (next_command first n w) (m, h))
    ∧ 0 < n <= total_pages_to_write w ∧ sequence_ok L E (next_command first n w) (performs D read (page_event first n)).
Proof.
  intros Hw Ht Hm Hpos. rewrite (write_round 1%nat first w m pos qptr qfence) by done.
  destruct (Z.leb_spec (available pos first) 0) as [Hle|Hgt].
  - destruct (wrap_spec L HL cq_id m pos qptr qfence Hm) as (m1 & Hwrap & Hm1). rewrite Hwrap. cbn [mbind outcome_bind].
    assert (0 < lsize L) by lia.
    rewrite (write_round 0%nat first w m1 0 qptr qfence) by (done || lia). pose proof (available_start first) as Hstart.
    rewrite (proj2 (Z.leb_gt _ _)) by done. destruct (taken_spec 0 first w Hw Ht Hstart) as [Hn Hmax].
    pose proof (next_command_ok first _ w Hw Hn Hmax) as Hok. exists (taken 0 first w), m1.
    split; [done|]. split; [|split; [done|exact Hok]]. intros h. eapply send_wrapped; try done.
    + apply Hok.
    + apply not_available; try done. lia.
  - destruct (taken_spec pos first w Hw Ht Hgt) as [Hn Hmax]. exists (taken pos first w), m.
    split; [done|]. split; [done|]. split; [done|]. by apply next_command_ok.
Qed.

(** Nothing is left. *)
Lemma write_next_done w m : total_pages_to_write w = 0 → write_next 1%nat w m = Ok (None, m).
Proof. intros Ht. cbn [EnqueueWrite.write_next]. by rewrite Ht. Qed.

Lemma pages_written_app first qs1 qs2 : 0 <= first → qs1 ≠ [] →
  pages_written first qs1 ++ pages_written (first + Z.of_nat (length qs1)) qs2 = pages_written first (qs1 ++ qs2).
Proof.
  intros Hf Hne. unfold pages_written. rewrite page_writes_app, fmap_app, <- app_assoc. do 2 f_equal.
  rewrite (proj2 (Z.eqb_neq _ _)); [done|]. destruct qs1; [done|simpl; lia].
Qed.

(** Before the loop. *)
Lemma write_start_spec m :
  bypass_enable m = false → write_start E c d m buffer = Ok (geometry, mk_write_state pages 0 base).
Proof.
  intros Hb. destruct padded_bounds as (Hp & Hpa & Hfit & Hlm & Hls). pose proof (bw_num_banks HB) as [Hn _].
  destruct (bw_interleaved HB) as [Hal _ Hbanks _ _ _]. destruct (bw_pages HB) as (Hpg & Hpages & _).
  unfold write_start. rewrite Hb, Hal, Hpages, Hbanks. cbn [negb check mbind outcome_bind]. rewrite Hc.
  unfold CQ_PREFETCH_CMD_BARE_MIN_SIZE. rewrite (u32_small (lm L - pa * 2)) by lia. rewrite (proj2 (Z.ltb_ge _ _)) by lia.
  cbn [mbind outcome_bind]. by rewrite !udiv_ok, umod_ok by lia.
Qed.

Lemma write_at_start : write_at 0 (mk_write_state pages 0 base).
Proof.
  destruct (bw_pages HB) as (Hpg & _). split; cbn; [lia|]. exists 0. lia.
Qed.
End write.

(** ** Pages that never fit *)
Lemma quot_below a b : 0 < b → a < b → Z.quot a b <= 0.
Proof.
  intros Hb Hab. destruct (Z.le_gt_cases 0 a); [by rewrite Z.quot_small by lia|].
  pose proof (Z.quot_pos (- a) b ltac:(lia) Hb) as Hq. rewrite Z.quot_opp_l in Hq by lia. lia.
Qed.

(** A page (or piece of a page) larger than a command: the write pointer is wrapped over and over. *)
Lemma write_next_stuck L E c d cq_id buffer src x g w pos qptr qfence :
  layout_ok L → host_alignment (env_hal E) = la L → max_prefetch_command_size c = lm L →
  total_pages_to_write w ≠ 0 → 0 < page_size_to_write g < 2 ^ 31 → lm L < page_size_to_write g + la L →
  ∀ fuel m, host_at L cq_id m pos qptr qfence → 0 <= pos < lsize L → write_next E c d cq_id fuel buffer src x g w m = Err FUEL.
Proof.
  intros HL Hla Hc Ht Hsmall Hbig fuel. revert pos. pose proof (lo_command L HL). pose proof (lo_end L HL). destruct (lo_base L HL) as (Hb0 & _).
  assert (Hpa : 32 <= la L <= 64) by (destruct (lo_align L HL) as [-> | ->]; lia).
  induction fuel as [|fuel IH]; intros pos m Hm Hpos; cbn [write_next];
    rewrite (proj2 (Z.eqb_neq _ _)) by done; cbv zeta; rewrite (limit_spec L HL cq_id m _ _ _ Hm), (write_ptr_spec L HL cq_id m _ _ _ Hm) by lia;
    cbn [mbind outcome_bind]; rewrite Hc, (small_i32 (page_size_to_write g)) by lia;
    rewrite (proj2 (Z.eqb_neq (page_size_to_write g) 0)) by lia; cbn [negb check mbind outcome_bind];
    replace (lbase L + lsize L - (lbase L + pos)) with (lsize L - pos) by lia; rewrite (u32_small (lsize L - pos)) by lia;
    unfold CQ_PREFETCH_CMD_BARE_MIN_SIZE; rewrite Hla, (u32_small (la L * 2)) by lia;
    rewrite (small_i32 (Z.min _ _)) by lia;
    (rewrite (proj2 (Z.leb_le _ 0)); [|apply quot_below; [lia|]; case_match; rewrite small_i32 by lia; lia]).
  - done.
  - destruct (wrap_spec L HL cq_id m pos qptr qfence Hm) as (m' & -> & Hm'). cbn [mbind outcome_bind]. apply (IH 0); [done|lia].
Qed.
