(* ===== verification/EnqueueShardsSpec.v ===== *)
(** * The loops over the cores of a sharded buffer

    A shard is written in pieces at consecutive addresses of its core, however
    the loop splits it; each shard that is read is one command.  [commands_fit] is
    what the computation of the room in the issue region needs: it counts the
    headers of a command by their size and not by what they take. *)
From S2P Require Import Prelude CommandQueue CommandQueueProps CommandStreamHost Prefetcher CommandStream CoreCoord CoreCoordProps Buffer DeviceCommand DeviceCommandSpec DeviceExecution DeviceCommandOps EnqueueSend EnqueueCommands EnqueueSpec EnqueueStream EnqueueWriteSpec EnqueueShards.

Section shards.
Context (L : layout) (E : cmd_env) (c : dispatch_constants) (V : device_view) (D : device_args).
Context (read : action → outcome (list Z)) (HK : kernels_ok L E c V D) (Hc : max_prefetch_command_size c = lm L).
Context (d : Device) (cq_id : nat) (buffer : Buffer) (src : list Z) (plan : shard_plan) (padded x : Z).
Abbreviation pa := (host_alignment (env_hal E)).
Abbreviation mapping := (sp_mapping plan).
Abbreviation write_shard_next fuel := (write_shard_next E c V cq_id buffer fuel plan src x padded).

(** The core of a shard on the NOC. *)
Definition shard_encoding (sh : shard) : Z :=
  ret_or 0 (t ← buffer_core_type buffer; p ← physical_core V t (sh_core sh); Ok (noc_unicast_encoding V p)).
Definition shard_on_core (sh : shard) : Prop :=
  ∃ t p, buffer_core_type buffer = Ok t ∧ physical_core V t (sh_core sh) = Ok p.

(** ** Writing *)

(** Shards of [n] pages never get a command that is too large. *)
Definition commands_fit (n : Z) : Prop :=
  n * padded + 2 * pa <= max_prefetch_command_size c ∨
  (64 <= padded ∧ max_prefetch_command_size c mod pa = 0 ∧ (pa = 64 → (max_prefetch_command_size c - 64) mod padded ≠ 0)).

Record shard_write_ok (sh : shard) : Prop := mk_shard_write_ok {
  sk_pages : 0 < sh_pages sh;
  sk_data : shard_ok buffer src padded mapping (sh_first sh) (sh_pages sh);
  sk_core : shard_on_core sh;
  sk_base : 0 <= sh_base sh ∧ sh_base sh + sh_pages sh * padded < 2 ^ 32;
  sk_fits : commands_fit (sh_pages sh)
}.

Record shards_args_ok : Prop := mk_shards_args_ok {
  sa_page : page_ok E buffer padded;
  sa_source : Z.of_nat (length src) < 2 ^ 32;
  sa_fits : padded + 2 * pa <= max_prefetch_command_size c;
  sa_expected : in_range 32 x
}.
Context (HA : shards_args_ok).

Definition first_wait (first : Z) : list event :=
  if first =? 0 then [dispatched (wait_effect 0 (addr_of c DEV_DISPATCH_MESSAGE) x 0 false true)] else [].

(** [k] pages of a shard, from page [curr] of it on. *)
Definition piece_written (sh : shard) (curr : Z) (qs : list (list Z)) (o : list Z) : list event :=
  first_wait (sh_first sh + curr)
  ++ [dispatched (noc_write (shard_encoding sh) (u32 (sh_base sh + curr * padded + nth 0 o 0)) (concat qs))].
Definition piece_pages (sh : shard) (curr k : Z) (qs : list (list Z)) : Prop :=
  shard_pages buffer src padded mapping (sh_first sh + curr) k qs.

(** The pages from [curr] on, in pieces. *)
Inductive shard_pieces (sh : shard) (o : list Z) : Z → list event → Prop :=
| pieces_done : shard_pieces sh o (sh_pages sh) []
| pieces_more curr k qs e : 0 < k <= sh_pages sh - curr → piece_pages sh curr k qs → shard_pieces sh o (curr + k) e →
    shard_pieces sh o curr (piece_written sh curr qs o ++ e).

(** Page [curr] of the shard is next. *)
Record shard_at (sh : shard) (curr : Z) (w : shard_write) : Prop := mk_shard_at {
  at_shard : sw_shard w = sh;
  at_curr : curr_page_idx_in_shard w = curr ∧ 0 <= curr <= sh_pages sh;
  at_left : sw_num_pages w = sh_pages sh - curr;
  at_page : dev_page (sw_loop w) = sh_first sh + curr
}.

Lemma shard_ok_part first n curr k :
  shard_ok buffer src padded mapping first n → 0 <= curr → 0 <= k → curr + k <= n → shard_ok buffer src padded mapping (first + curr) k.
Proof.
  intros [(H1 & H2 & H3 & H4) Hs] Hcur Hk Hle. destruct (pk_page _ _ _ (sa_page HA)) as [_ Hp].
  split; [split; [lia|split; [lia|split; [lia|nia]]]|]. destruct mapping as [mp|].
  - unfold mapping_in_source in *. rewrite Forall_forall in *. intros j Hj. apply Hs. rewrite elem_of_range_u32 in *. lia.
  - destruct Hs as [Hs1 Hs2]. split; [nia|done].
Qed.

Lemma shard_padded_bounds : 0 < padded ∧ 32 <= pa <= 64 ∧ (pa = 32 ∨ pa = 64) ∧ padded mod pa = 0 ∧ padded + 2 * pa <= lm L ∧ lm L <= 131072 ∧ lm L <= lsize L.
Proof.
  destruct (pk_page _ _ _ (sa_page HA)) as [_ Hp]. pose proof (pa_bounds E (ko_env _ _ _ _ _ HK)) as [Hpa _].
  pose proof (sa_fits HA) as Hfit. rewrite Hc in Hfit. pose proof (ko_layout _ _ _ _ _ HK) as HL. pose proof (lo_command L HL).
  pose proof (lo_room L HL). pose proof (lo_entries L HL). pose proof (eo_host E (ko_env _ _ _ _ _ HK)).
  pose proof (pk_padded _ _ _ (sa_page HA)). repeat split; try done; nia.
Qed.

(** What a round finds. *)
Definition headers (first : Z) : Z := if first =? 0 then 64 else 32.
Definition fitting (pos first : Z) : Z := Z.quot (Z.min (lsize L - pos) (lm L) - headers first) padded.
Definition chosen (pos first n : Z) : Z := Z.min n (u32 (fitting pos first)).
Definition taken_by (first k : Z) : Z := k * padded + pa + Z.b2z (first =? 0) * pa.

Definition piece_command (sh : shard) (curr k : Z) : command_sequence :=
  EnqueueWriteShardedBufferCommand E c V buffer plan src (sh_first sh + curr =? 0) x
    (u32 (sh_base sh + u32 (curr * padded))) (sh_core sh) padded (sh_first sh + curr) k.
Definition piece_state (k : Z) (w : shard_write) : shard_write :=
  mk_shard_write (mk_core_loop (core_id (sw_loop w)) (num_total_pages (sw_loop w)) (u32 (dev_page (sw_loop w) + k)))
    (sw_shard w) (u32 (curr_page_idx_in_shard w + k)) (u32 (sw_num_pages w - k)).

Let HL : layout_ok L := ko_layout _ _ _ _ _ HK.

Lemma shard_round fuel sh curr w m pos qptr qfence :
  shard_at sh curr w → host_at L cq_id m pos qptr qfence → 0 <= pos < lsize L →
  write_shard_next fuel w m =
    if 0 <? chosen pos (sh_first sh + curr) (sh_pages sh - curr) then
      Ok (piece_command sh curr (chosen pos (sh_first sh + curr) (sh_pages sh - curr)),
          piece_state (chosen pos (sh_first sh + curr) (sh_pages sh - curr)) w, m)
    else match fuel with O => Err FUEL | S fuel => m ← wrap_issue_queue_wr_ptr cq_id m; write_shard_next fuel w m end.
Proof.
  intros [<- [<- Hcurr] Hleft Hpage] Hm Hpos. destruct shard_padded_bounds as (Hp & Hpa & _ & _ & Hfit & Hlm & Hls). pose proof (lo_end L HL).
  destruct (lo_base L HL) as (Hb0 & _). unfold piece_command, piece_state. rewrite <- Hpage, <- Hleft.
  destruct fuel; cbn [EnqueueShards.write_shard_next]; cbv zeta;
    rewrite (limit_spec L HL cq_id m _ _ _ Hm), (write_ptr_spec L HL cq_id m _ _ _ Hm) by lia;
    cbn [mbind outcome_bind]; rewrite Hc, (small_i32 padded) by lia;
    rewrite (proj2 (Z.eqb_neq padded 0)) by lia; cbn [negb check mbind outcome_bind];
    replace (lbase L + lsize L - (lbase L + pos)) with (lsize L - pos) by lia; rewrite (u32_small (lsize L - pos)) by lia;
    rewrite (small_i32 (Z.min (lsize L - pos) (lm L))) by lia;
    (replace (to_i32 (if dev_page (sw_loop w) =? 0 then u32 (u32 (sizeof_CQPrefetchCmd + sizeof_CQDispatchCmd) * 2)
                      else u32 (sizeof_CQPrefetchCmd + sizeof_CQDispatchCmd))) with (headers (dev_page (sw_loop w)))
      by (unfold headers; by destruct (dev_page (sw_loop w) =? 0)); fold (fitting pos (dev_page (sw_loop w)));
     fold (chosen pos (dev_page (sw_loop w)) (sw_num_pages w)); reflexivity).
Qed.

(** The room in bytes, a multiple of the alignment. *)
Lemma room_spec m pos qptr qfence : host_at L cq_id m pos qptr qfence → 0 <= pos < lsize L → pa <= lsize L - pos ∧ (lsize L - pos) mod pa = 0.
Proof.
  intros Hm Hpos. pose proof (ha_pos _ _ _ _ _ _ Hm) as Hal. destruct (lo_base L HL) as (_ & _ & Hs).
  rewrite <- (ko_align _ _ _ _ _ HK) in Hal, Hs. destruct shard_padded_bounds as (_ & _ & [H|H] & _); rewrite H in *;
    Z.to_euclidean_division_equations; lia.
Qed.

Lemma fitting_bounds pos first : 0 <= pos < lsize L → headers first <= 64 ∧ - 64 <= fitting pos first < 2 ^ 32.
Proof.
  intros Hpos. destruct shard_padded_bounds as (Hp & Hpa & _ & _ & Hfit & Hlm & Hls). unfold fitting.
  assert (Hh : 32 <= headers first <= 64) by (unfold headers; case_match; lia). split; [lia|].
  split; [apply Z.quot_le_lower_bound; nia|]. apply (Z.le_lt_trans _ (lm L)); [|lia]. apply Z.quot_le_upper_bound; [lia|nia].
Qed.

Lemma chosen_taken sh pos curr m qptr qfence :
  shard_write_ok sh → host_at L cq_id m pos qptr qfence → 0 <= pos < lsize L → 0 <= curr < sh_pages sh →
  let k := chosen pos (sh_first sh + curr) (sh_pages sh - curr) in
  0 < k → k <= sh_pages sh - curr ∧ taken_by (sh_first sh + curr) k <= lm L.
Proof.
  intros Hsh Hm Hpos Hcurr k Hk. destruct shard_padded_bounds as (Hp & Hpa & Hpa2 & Hpm & Hfit & Hlm & Hls).
  destruct (room_spec m pos qptr qfence Hm Hpos) as [Hroom Hrm]. assert (Hkn : k <= sh_pages sh - curr) by (unfold k, chosen; lia).
  split; [done|]. unfold taken_by. set (first := sh_first sh + curr) in *.
  assert (Hw : Z.b2z (first =? 0) * pa <= pa) by (destruct (first =? 0); simpl; lia).
  pose proof (sk_fits _ Hsh) as Hcf. unfold commands_fit in Hcf. rewrite Hc in Hcf. destruct Hcf as [Hall|(H64 & Hlmod & Hne)]; [nia|].
  (* the number of pages that fit is not negative *)
  assert (Hav : 0 <= fitting pos first).
  { unfold fitting. set (a := Z.min (lsize L - pos) (lm L) - headers first).
    assert (Ha : - 32 <= a) by (unfold a, headers; case_match; lia).
    destruct (Z.le_gt_cases 0 a); [apply Z.quot_pos; lia|]. rewrite <- (Z.opp_involutive a), Z.quot_opp_l, Z.quot_small by lia. lia. }
  assert (Hkf : k <= fitting pos first).
  { unfold k, chosen. rewrite u32_small by (split; [done|apply fitting_bounds; done]). lia. }
  destruct (quot_positive (Z.min (lsize L - pos) (lm L) - headers first) padded Hp) as [_ Hq]; [fold (fitting pos first); lia|].
  fold (fitting pos first) in Hq. assert (Hb : k * padded <= lm L - headers first) by nia.
  unfold headers in Hb. destruct Hpa2 as [He|He]; rewrite He in *; [destruct (first =? 0); simpl; lia|].
  assert (Hkm : (k * padded) mod 64 = 0) by (rewrite Z.mul_mod, Hpm, Z.mul_0_r by lia; done).
  destruct (first =? 0); cbn [Z.b2z].
  - assert (k * padded ≠ lm L - 64).
    { intros Heq. apply (Hne eq_refl). rewrite <- Heq. apply Z.mod_mul. lia. }
    clear - Hkm Hlmod Hb H. Z.to_euclidean_division_equations. lia.
  - clear - Hkm Hlmod Hb. Z.to_euclidean_division_equations. lia.
Qed.

Lemma not_chosen sh pos curr m qptr qfence k :
  host_at L cq_id m pos qptr qfence → 0 <= pos < lsize L → 0 <= curr < sh_pages sh → sh_pages sh < 2 ^ 32 →
  chosen pos (sh_first sh + curr) (sh_pages sh - curr) <= 0 → 0 < k → taken_by (sh_first sh + curr) k <= lm L →
  lsize L < pos + taken_by (sh_first sh + curr) k.
Proof.
  intros Hm Hpos Hcurr Hn Hch Hk Htk. destruct shard_padded_bounds as (Hp & Hpa & Hpa2 & Hpm & Hfit & Hlm & Hls).
  set (first := sh_first sh + curr) in *. destruct (fitting_bounds pos first Hpos) as [_ Hfb].
  assert (Hf : fitting pos first = 0).
  { unfold chosen in Hch. assert (Hu : u32 (fitting pos first) = 0) by (pose proof (u32_range (fitting pos first)); lia).
    destruct (Z.le_gt_cases 0 (fitting pos first)); [by rewrite u32_small in Hu by lia|].
    unfold u32, wrap in Hu. clear - Hu Hfb H. Z.to_euclidean_division_equations; lia. }
  assert (Hroom : Z.min (lsize L - pos) (lm L) - headers first < padded).
  { apply Z.nle_gt. intros Hge. pose proof (Z.quot_le_lower_bound (Z.min (lsize L - pos) (lm L) - headers first) padded 1 Hp ltac:(lia)) as Hq.
    fold (fitting pos first) in Hq. lia. }
  unfold taken_by, headers in *. assert (padded <= k * padded) by nia. destruct (first =? 0); cbn [Z.b2z] in *; lia.
Qed.

(** At the start of the region a page always fits. *)
Lemma chosen_start first n : 0 < n → 0 < chosen 0 first n.
Proof.
  intros Hn. destruct shard_padded_bounds as (Hp & Hpa & _ & _ & Hfit & Hlm & Hls). unfold chosen.
  destruct (fitting_bounds 0 first ltac:(lia)) as [Hh Hb].
  assert (1 <= fitting 0 first) by (unfold fitting; apply Z.quot_le_lower_bound; lia). rewrite u32_small by lia. lia.
Qed.

Lemma piece_ok sh curr k :
  shard_write_ok sh → 0 <= curr → 0 < k → curr + k <= sh_pages sh → taken_by (sh_first sh + curr) k <= lm L →
  sequence_ok L E (piece_command sh curr k)
    (performs D read (λ e, ∃ qs, piece_pages sh curr k qs ∧ e = piece_written sh curr qs)).
Proof.
  intros [Hn Hdata (t & p & Ht & Hp) [Hb0 Hb] _] Hcurr Hk Hle Htk. destruct shard_padded_bounds as (Hpd & Hpa & _).
  pose proof (shard_ok_part _ _ curr k Hdata Hcurr ltac:(lia) Hle) as Hpart.
  unfold piece_command, EnqueueWriteShardedBufferCommand. rewrite (u32_small (curr * padded)), (u32_small (sh_base sh + curr * padded)) by nia.
  pose proof (write_sharded_ok L E c V D read HK buffer src padded (sa_page HA) (sa_source HA) mapping (sh_core sh) t p
    (sh_base sh + curr * padded) (sh_first sh + curr) k (sh_first sh + curr =? 0) x Hpart Ht Hp) as Hok.
  assert (Henc : shard_encoding sh = noc_unicast_encoding V p).
  { unfold shard_encoding. rewrite Ht. cbn [mbind outcome_bind]. rewrite Hp. done. }
  unfold piece_pages, piece_written, first_wait. rewrite Henc. apply Hok; [unfold in_range; nia|done|apply (sa_expected HA)].
Qed.

Lemma piece_size sh curr k : 0 < k → taken_by (sh_first sh + curr) k <= lm L →
  cmd_sequence_size (piece_command sh curr k) = taken_by (sh_first sh + curr) k.
Proof.
  intros Hk Htk. destruct shard_padded_bounds as (Hpd & Hpa & _ & _ & _ & Hlm & _). unfold taken_by in *.
  cbn [cmd_sequence_size piece_command EnqueueWriteShardedBufferCommand EnqueueWriteBufferCommand_process].
  unfold CQ_PREFETCH_CMD_BARE_MIN_SIZE. assert (0 < k * padded) by nia.
  assert (Hw : 0 <= Z.b2z (sh_first sh + curr =? 0) * pa <= pa) by (destruct (_ =? 0); simpl; lia).
  rewrite (u32_small (k * padded)), (u32_small (pa + k * padded)) by lia.
  destruct (sh_first sh + curr =? 0); cbn [Z.b2z] in *; [rewrite u32_small by lia|]; lia.
Qed.

(** One command of a shard, the write pointer wrapped at most once. *)
Lemma shard_command sh curr w m pos qptr qfence :
  shard_write_ok sh → shard_at sh curr w → curr < sh_pages sh → host_at L cq_id m pos qptr qfence → 0 <= pos < lsize L →
  ∃ k m1, write_shard_next 1%nat w m = Ok (piece_command sh curr k, piece_state k w, m1)
    ∧ (∀ h, send cq_id (piece_command sh curr k) (m1, h) = send cq_id (piece_command sh curr k) (m, h))
    ∧ 0 < k <= sh_pages sh - curr ∧ shard_at sh (curr + k) (piece_state k w)
    ∧ sequence_ok L E (piece_command sh curr k)
        (performs D read (λ e, ∃ qs, piece_pages sh curr k qs ∧ e = piece_written sh curr qs)).
Proof.
  intros Hsh Hw Hlt Hm Hpos. pose proof Hw as [Hws [Hwc Hc0] Hwl Hwp]. pose proof (so_range _ _ _ _ _ _ (sk_data _ Hsh)) as (Hf0 & _ & Hf & _).
  assert (Hstate : ∀ k, 0 < k <= sh_pages sh - curr → shard_at sh (curr + k) (piece_state k w)).
  { intros k Hk. split; cbn; [done|split; [rewrite u32_small by lia; lia|lia]|rewrite u32_small by lia; lia|rewrite u32_small by lia; lia]. }
  rewrite (shard_round 1 sh curr w m pos qptr qfence) by done. set (k := chosen pos (sh_first sh + curr) (sh_pages sh - curr)).
  destruct (Z.ltb_spec 0 k) as [Hk|Hk].
  - destruct (chosen_taken sh pos curr m qptr qfence Hsh Hm Hpos ltac:(lia) Hk) as [Hkn Htk]. fold k in Hkn, Htk.
    exists k, m. split; [done|]. split; [done|]. split; [lia|]. split; [by apply Hstate|]. apply piece_ok; (done || lia).
  - destruct (wrap_spec L HL cq_id m pos qptr qfence Hm) as (m1 & Hwrap & Hm1). rewrite Hwrap. cbn [mbind outcome_bind].
    assert (Hpos0 : 0 <= 0 < lsize L) by lia. rewrite (shard_round 0 sh curr w m1 0 qptr qfence) by done.
    set (k0 := chosen 0 (sh_first sh + curr) (sh_pages sh - curr)).
    assert (Hk0 : 0 < k0) by (apply chosen_start; lia). rewrite (proj2 (Z.ltb_lt _ _)) by done.
    destruct (chosen_taken sh 0 curr m1 qptr qfence Hsh Hm1 Hpos0 ltac:(lia) Hk0) as [Hkn Htk]. fold k0 in Hkn, Htk.
    assert (Hok := piece_ok sh curr k0 Hsh ltac:(lia) Hk0 ltac:(lia) Htk).
    exists k0, m1. split; [done|]. split; [|split; [lia|split; [by apply Hstate|done]]].
    intros h. apply (send_wrapped L HL cq_id m pos qptr qfence); try done; [apply Hok|]. rewrite piece_size by done.
    apply (not_chosen sh pos curr m qptr qfence k0 Hm Hpos); (done || lia).
Qed.

(** *** Shard after shard *)
Fixpoint shards_pieces (shs : list shard) (o : list Z) (e : list event) : Prop :=
  match shs with
  | [] => e = []
  | sh :: shs => ∃ e1 e2, e = e1 ++ e2 ∧ shard_pieces sh o 0 e1 ∧ shards_pieces shs o e2
  end.

Lemma shards_written_mono fuel l shs :
  shards_written V d buffer fuel plan l = Ok shs → shards_written V d buffer (S fuel) plan l = Ok shs.
Proof.
  revert l shs; induction fuel as [|fuel IH]; intros l shs; cbn [shards_written].
  - destruct (write_next_core _ _ _ _ _ _) as [[w|]|]; [done|done|done].
  - destruct (write_next_core _ _ _ _ _ _) as [[w|]|]; cbn [mbind outcome_bind]; [|done|done].
    destruct (shards_written V d buffer fuel plan (after_shard w)) as [l'|] eqn:Hl; [|done]. intros H.
    apply IH in Hl. cbn [shards_written] in Hl. rewrite Hl. exact H.
Qed.

(** The next core with pages starts a shard. *)
Lemma write_next_core_start fuel l w : write_next_core V d buffer fuel plan l = Ok (Some w) →
  sw_num_pages w = sh_pages (sw_shard w) ∧ curr_page_idx_in_shard w = 0 ∧ dev_page (sw_loop w) = sh_first (sw_shard w).
Proof.
  revert l; induction fuel as [|fuel IH]; intros l; cbn [write_next_core]; destruct (cores_left buffer l) as [[]|]; cbn [mbind outcome_bind]; try done.
  all: destruct (write_core_start V d buffer plan l) as [[w'|l']|] eqn:Hs; cbn [mbind outcome_bind]; try done.
  2: intros [= ->]. 1: intros [= ->]. 3: apply IH.
  all: unfold write_core_start in Hs; destruct (pages_of_core buffer plan l) as [[n r]|]; cbn [mbind outcome_bind] in Hs; [|done].
  all: destruct (bool_decide _ && (n =? 0)); [done|].
  all: destruct (match sp_mapping plan with Some _ => _ | None => _ end) as [f|]; cbn [mbind outcome_bind] in Hs; [|done].
  all: destruct (base_of_core V d buffer plan (core_id l)) as [b|]; cbn [mbind outcome_bind] in Hs; [|done].
  all: destruct (n =? 0); [done|]; destruct (at_ (sp_cores plan) _) as [k|]; cbn [mbind outcome_bind] in Hs; [|done].
  all: by injection Hs as <-.
Qed.

(** ** Reading *)
Definition shard_read_ok (sh : shard) : Prop :=
  let n := sh_pages sh * padded in
  shard_on_core sh ∧ 0 <= n ∧ n + 16 < 2 ^ 32 ∧ in_range 32 (sh_base sh) ∧
  ∃ data, read (relay_linear (shard_encoding sh) (sh_base sh) n) = Ok data ∧ Z.of_nat (length data) = n.

Definition shard_returned (sh : shard) (o : list Z) (e : list event) : Prop :=
  let n := sh_pages sh * padded in
  ∃ data b, read (relay_linear (shard_encoding sh) (sh_base sh) n) = Ok data ∧ length b = 16%nat
    ∧ e = buffer_read c x n data (host_header false n b) o.

Fixpoint shards_returned (shs : list shard) (o : list Z) (e : list event) : Prop :=
  match shs with
  | [] => e = []
  | sh :: shs => ∃ e1 e2, e = e1 ++ e2 ∧ shard_returned sh o e1 ∧ shards_returned shs o e2
  end.
End shards.

Section reading.
Context (L : layout) (E : cmd_env) (c : dispatch_constants) (V : device_view) (D : device_args).
Context (read : action → outcome (list Z)) (HK : kernels_ok L E c V D).
Context (d : Device) (buffer : Buffer) (plan : shard_plan) (padded x : Z).

Lemma shard_read_command sh :
  aligned_page_size d buffer = Ok padded → in_range 32 x → shard_read_ok V read buffer padded sh →
  sequence_ok L E (EnqueueReadShardedBufferCommand E c V d buffer x sh)
    (performs D read (λ e, ∀ o, shard_returned c V read buffer padded x sh o (e o))).
Proof.
  intros Hal Hx ((t & p & Ht & Hp) & Hn & Hbig & Hb & data & Hread & Hlen).
  assert (Henc : shard_encoding V buffer sh = noc_unicast_encoding V p).
  { unfold shard_encoding. rewrite Ht. cbn [mbind outcome_bind]. rewrite Hp. done. }
  rewrite Henc in Hread. unfold EnqueueReadShardedBufferCommand.
  pose proof (read_sharded_ok L E c V D read HK d buffer (sh_core sh) t p (sh_base sh) padded (sh_pages sh) x data Hal Ht Hp Hn Hbig Hx Hb Hread Hlen)
    as [Hsize Hfill].
  split; [exact Hsize|]. intros s H1 H2 H3. destruct (Hfill s H1 H2 H3) as (s' & Hrun & Hl & e & (b & Hbl & ->) & He).
  exists s'. split; [done|]. split; [done|]. eexists. split; [|exact He]. intros o. exists data, b. rewrite Henc. done.
Qed.

Lemma shards_read_mono fuel l shs :
  shards_read V d buffer fuel plan l = Ok shs → shards_read V d buffer (S fuel) plan l = Ok shs.
Proof.
  revert l shs; induction fuel as [|fuel IH]; intros l shs; cbn [shards_read].
  - destruct (read_next_core _ _ _ _ _ _) as [[[sh l']|]|]; [done|done|done].
  - destruct (read_next_core _ _ _ _ _ _) as [[[sh l']|]|]; cbn [mbind outcome_bind]; [|done|done].
    destruct (shards_read V d buffer fuel plan l') as [l2|] eqn:Hl; [|done]. intros H.
    apply IH in Hl. cbn [shards_read] in Hl. rewrite Hl. exact H.
Qed.
End reading.
