(* ===== verification/HwCommandQueue.v ===== *)
(** * The functions of [HWCommandQueue] (tt_metal/impl/dispatch/command_queue.cpp)

    A program is a list of calls of [enqueue_read_buffer], [enqueue_write_buffer],
    [enqueue_record_event], [enqueue_wait_for_event] and [enqueue_trace], without
    waiting for completion.  Each call looks at the manager and gives command
    sequences one by one; a write and the read of a sharded buffer give several.
    The descriptors for the completion reader are in [CompletionQueue]. *)
From S2P Require Import Prelude CommandQueue CoreCoord Buffer DeviceCommand EnqueueSend EnqueueCommands EnqueueStream EnqueueWrite EnqueueShards.

Inductive call :=
| read_buffer (buffer : Buffer)
| write_buffer (buffer : Buffer) (src : list Z)
| record_event (clear_count : bool)
| wait_for_event (sync_cq_id : nat) (sync_event_id : Z)
| replay_trace (desc : TraceDescriptor) (num_completion_worker_cores : Z) (buffer : Buffer) (pad : Z).

(** A call between two of its commands: [enqueue_write_buffer] of an interleaved buffer, of a
    sharded one in a shard or between two cores, and [enqueue_read_buffer] of a sharded buffer. *)
Record buffer_write := mk_buffer_write {
  bw_buffer : Buffer;
  bw_src : list Z;
  bw_geometry : write_geometry;
  bw_state : write_state
}.
Record shards_writing := mk_shards_writing {
  ws_buffer : Buffer;
  ws_src : list Z;
  ws_plan : shard_plan;
  ws_padded : Z;
  ws_at : shard_write + core_loop
}.
Record shards_reading := mk_shards_reading {
  rs_buffer : Buffer;
  rs_plan : shard_plan;
  rs_loop : core_loop
}.
Inductive progress :=
| writing (w : buffer_write)
| writing_shards (w : shards_writing)
| reading_shards (r : shards_reading).

(** The queue's counter of workers, the call it is in, and the calls still to come. *)
Record HWCommandQueue := mk_hw_queue {
  expected_num_workers_completed : Z;
  in_progress : option progress;
  calls : list call
}.

Section queue.
Context (E : cmd_env) (c : dispatch_constants) (V : device_view) (d : Device) (cq_id : nat).

Definition enqueue_read_buffer (expected : Z) (buffer : Buffer) (m : SystemMemoryManager) : outcome command_sequence :=
  _ ← check (negb (bypass_enable m)) TT_FATAL;
  pages_to_read ← num_pages buffer;
  Ok (EnqueueReadBufferCommand_process E c d buffer (add_prefetch_relay_interleaved E d buffer 0 pages_to_read)
        expected pages_to_read).

Definition enqueue_record_event (expected : Z) (clear_count : bool) (m : SystemMemoryManager)
  : outcome (command_sequence * Z * SystemMemoryManager) :=
  _ ← check (negb (bypass_enable m)) TT_FATAL;
  '(event_id, m) ← get_next_event cq_id m;
  Ok (EnqueueRecordEventCommand_process E c V cq_id event_id expected clear_count true,
      if clear_count then 0 else expected, m).

(** The command resets the counter, which the programs of the trace move on. *)
Definition enqueue_trace (expected : Z) (desc : TraceDescriptor) (num_completion_worker_cores : Z) (buffer : Buffer) (pad : Z)
  : command_sequence * Z :=
  let '(q, expected) := EnqueueTraceCommand_process E c V desc buffer pad expected in
  (q, u32 (expected + num_completion_worker_cores)).

(** *** Calls with several commands *)
Definition enqueue_write_buffer (buffer : Buffer) (src : list Z) (m : SystemMemoryManager) : outcome progress :=
  if is_sharded (buffer_layout_ buffer) then
    '(plan, padded) ← write_shards_start E c d buffer m;
    Ok (writing_shards (mk_shards_writing buffer src plan padded (inr (loop_start plan))))
  else
    '(g, s) ← write_start E c d m buffer;
    Ok (writing (mk_buffer_write buffer src g s)).

Definition enqueue_read_shards (buffer : Buffer) (m : SystemMemoryManager) : outcome progress :=
  _ ← check (negb (bypass_enable m)) TT_FATAL;
  _ ← aligned_page_size d buffer;
  plan ← plan_shards buffer;
  Ok (reading_shards (mk_shards_reading buffer plan (loop_start plan))).

(** The next command of a write; the limit of the rounds without one is 1. *)
Definition continue_write (expected : Z) (w : buffer_write) (m : SystemMemoryManager)
  : outcome (option (command_sequence * buffer_write) * SystemMemoryManager) :=
  '(r, m) ← write_next E c d cq_id 1 (bw_buffer w) (bw_src w) expected (bw_geometry w) (bw_state w) m;
  Ok (match r with
      | Some (q, s) => Some (q, mk_buffer_write (bw_buffer w) (bw_src w) (bw_geometry w) s)
      | None => None
      end, m).

(** The shard that has pages left: the one in progress, or that of the next core with any. *)
Definition shard_left (w : shards_writing) : outcome (option shard_write) :=
  let next_core := write_next_core V d (ws_buffer w) (core_rounds (ws_plan w)) (ws_plan w) in
  match ws_at w with
  | inl s => if sw_num_pages s =? 0 then next_core (sw_loop s) else Ok (Some s)
  | inr l => next_core l
  end.

Definition continue_write_shards (expected : Z) (w : shards_writing) (m : SystemMemoryManager)
  : outcome (option (command_sequence * shards_writing) * SystemMemoryManager) :=
  r ← shard_left w;
  match r with
  | None => Ok (None, m)
  | Some s =>
    '(q, s, m) ← write_shard_next E c V cq_id (ws_buffer w) 1 (ws_plan w) (ws_src w) expected (ws_padded w) s m;
    Ok (Some (q, mk_shards_writing (ws_buffer w) (ws_src w) (ws_plan w) (ws_padded w) (inl s)), m)
  end.

Definition continue_read_shards (expected : Z) (r : shards_reading) : outcome (option (command_sequence * shards_reading)) :=
  n ← read_next_core V d (rs_buffer r) (core_rounds (rs_plan r)) (rs_plan r) (rs_loop r);
  Ok (match n with
      | Some (sh, l) => Some (EnqueueReadShardedBufferCommand E c V d (rs_buffer r) expected sh, mk_shards_reading (rs_buffer r) (rs_plan r) l)
      | None => None
      end).

Definition continue_call (expected : Z) (p : progress) (m : SystemMemoryManager)
  : outcome (option (command_sequence * progress) * SystemMemoryManager) :=
  match p with
  | writing w =>
    '(r, m) ← continue_write expected w m; Ok ('(q, w) ← r; Some (q, writing w), m)
  | writing_shards w =>
    '(r, m) ← continue_write_shards expected w m; Ok ('(q, w) ← r; Some (q, writing_shards w), m)
  | reading_shards s =>
    r ← continue_read_shards expected s; Ok ('(q, s) ← r; Some (q, reading_shards s), m)
  end.

(** *** The calls one after the other *)
Fixpoint next_call (expected : Z) (l : list call) (m : SystemMemoryManager)
  : outcome (option (command_sequence * HWCommandQueue) * SystemMemoryManager) :=
  match l with
  | [] => Ok (None, m)
  | r :: l =>
    let first_of (p : outcome progress) :=
      p ← p;
      '(r, m) ← continue_call expected p m;
      match r with
      | Some (q, p) => Ok (Some (q, mk_hw_queue expected (Some p) l), m)
      | None => next_call expected l m
      end in
    match r with
    | read_buffer buffer =>
      if is_sharded (buffer_layout_ buffer) then first_of (enqueue_read_shards buffer m)
      else q ← enqueue_read_buffer expected buffer m; Ok (Some (q, mk_hw_queue expected None l), m)
    | write_buffer buffer src => first_of (enqueue_write_buffer buffer src m)
    | record_event clear_count =>
      '(q, expected, m) ← enqueue_record_event expected clear_count m;
      Ok (Some (q, mk_hw_queue expected None l), m)
    | wait_for_event sync_cq_id sync_event_id =>
      Ok (Some (EnqueueWaitForEventCommand_process E c sync_cq_id sync_event_id false, mk_hw_queue expected None l), m)
    | replay_trace desc num_completion_worker_cores buffer pad =>
      let '(q, expected) := enqueue_trace expected desc num_completion_worker_cores buffer pad in
      Ok (Some (q, mk_hw_queue expected None l), m)
    end
  end.

Definition next : host_program HWCommandQueue := λ h m,
  match in_progress h with
  | None => next_call (expected_num_workers_completed h) (calls h) m
  | Some p =>
    '(r, m) ← continue_call (expected_num_workers_completed h) p m;
    match r with
    | Some (q, p) => Ok (Some (q, mk_hw_queue (expected_num_workers_completed h) (Some p) (calls h)), m)
    | None => next_call (expected_num_workers_completed h) (calls h) m
    end
  end.
End queue.
