(* ===== verification/HwCommandQueueSpec.v ===== *)
(** * What a queue's calls do

    The calls of a program, given what is known of the buffers, have the effects
    asked for, in order, however the writes are split into commands. *)
From S2P Require Import Prelude CommandQueue CommandQueueProps CommandStreamHost Prefetcher CommandStream CoreCoord Buffer DeviceCommand DeviceCommandSpec DeviceExecution DeviceCommandOps EnqueueSend EnqueueCommands EnqueueSpec EnqueueStream EnqueueWrite EnqueueWriteSpec EnqueueShards EnqueueShardsSpec HwCommandQueue.

Section spec.
Context (L : layout) (E : cmd_env) (c : dispatch_constants) (V : device_view) (D : device_args).
Context (read : action → outcome (list Z)) (HK : kernels_ok L E c V D) (Hc : max_prefetch_command_size c = lm L).
Context (d : Device) (cq_id : nat).

(** ** Calls and their effects *)

(** The shards a call visits. *)
Definition shards_of_write (buffer : Buffer) (plan : shard_plan) (shs : list shard) : Prop :=
  plan_shards buffer = Ok plan ∧ shards_written V d buffer (core_rounds plan) plan (loop_start plan) = Ok shs.
Definition shards_of_read (buffer : Buffer) (plan : shard_plan) (shs : list shard) : Prop :=
  plan_shards buffer = Ok plan ∧ shards_read V d buffer (core_rounds plan) plan (loop_start plan) = Ok shs.

(** With [x] workers expected, and [ev] events recorded before. *)
Definition call_ok (x ev : Z) (r : call) : Prop :=
  match r with
  | read_buffer buffer =>
    if is_sharded (buffer_layout_ buffer) then ∃ padded plan shs,
      aligned_page_size d buffer = Ok padded ∧ shards_of_read buffer plan shs ∧ Forall (shard_read_ok V read buffer padded) shs
    else ∃ padded pages data,
      aligned_page_size d buffer = Ok padded ∧ num_pages buffer = Ok pages ∧ in_range 32 padded ∧ in_range 32 pages
      ∧ pages * padded + 16 < 2 ^ 32 ∧ Z.of_nat (length data) = pages * padded
      ∧ read (relay_paged (is_dram buffer) 0 (buffer_address buffer) padded pages 0) = Ok data
  | write_buffer buffer src =>
    if is_sharded (buffer_layout_ buffer) then ∃ padded plan shs,
      aligned_page_size d buffer = Ok padded ∧ shards_of_write buffer plan shs ∧ shards_args_ok E c buffer src padded x
      ∧ Forall (shard_write_ok E c V buffer src plan padded) shs
    else ∃ padded nb pages, 0 < pages ∧ buffer_write_ok E c D d buffer src x padded nb pages
  | record_event _ => 0 <= ev < 2 ^ 31 - 1
  | wait_for_event _ id => in_range 32 id
  | replay_trace _ _ buffer pad => in_range 8 pad ∧ ∃ log pages, trace_ok buffer log pages
  end.

(** The effects [e] under the write offsets [o]. *)
Definition call_does (x ev : Z) (r : call) (o : list Z) (e : list event) : Prop :=
  match r with
  | read_buffer buffer =>
    if is_sharded (buffer_layout_ buffer) then ∃ padded plan shs,
      aligned_page_size d buffer = Ok padded ∧ shards_of_read buffer plan shs ∧ shards_returned c V read buffer padded x shs o e
    else ∃ padded pages data b,
      aligned_page_size d buffer = Ok padded ∧ num_pages buffer = Ok pages
      ∧ read (relay_paged (is_dram buffer) 0 (buffer_address buffer) padded pages 0) = Ok data ∧ length b = 16%nat
      ∧ e = buffer_read c x (pages * padded) data (host_header false (pages * padded) b) o
  | write_buffer buffer src =>
    if is_sharded (buffer_layout_ buffer) then ∃ padded plan shs,
      aligned_page_size d buffer = Ok padded ∧ shards_of_write buffer plan shs
      ∧ shards_pieces c V buffer src plan padded x shs o e
    else ∃ padded pages qs,
      aligned_page_size d buffer = Ok padded ∧ num_pages buffer = Ok pages
      ∧ pages_of padded (host_page buffer src 0 <$> seq 0 (Z.to_nat pages)) qs
      ∧ e = pages_written c D buffer x padded 0 qs
  | record_event clear_count => ∃ b, length b = 16%nat
      ∧ e = event_recorded c V cq_id (ev + 1) x clear_count true (host_header true 16 b) o
  | wait_for_event sync_cq_id id => e = [dispatched (wait_effect 0 (last_event c sync_cq_id) id 0 false true)]
  | replay_trace desc _ buffer pad => ∃ log pages, u32 (page_size_ buffer) = 2 ^ log ∧ num_pages buffer = Ok pages
      ∧ e = trace_started c V desc buffer log pages pad x o
  end.

(** The counters afterwards. *)
Definition expected_after (x : Z) (r : call) : Z :=
  match r with
  | record_event true => 0
  | replay_trace _ n _ _ => u32 n
  | _ => x
  end.
Definition events_after (ev : Z) (r : call) : Z := match r with record_event _ => ev + 1 | _ => ev end.

Fixpoint calls_ok (x ev : Z) (l : list call) : Prop :=
  match l with
  | [] => True
  | r :: l => call_ok x ev r ∧ calls_ok (expected_after x r) (events_after ev r) l
  end.

Fixpoint calls_do (x ev : Z) (l : list call) (o : list Z) (e : list event) : Prop :=
  match l with
  | [] => e = []
  | r :: l => ∃ e1 e2, e = e1 ++ e2 ∧ call_does x ev r o e1 ∧ calls_do (expected_after x r) (events_after ev r) l o e2
  end.

(** ** A write that is not finished *)
Record write_in_progress (x : Z) (w : buffer_write) (padded nb pages first : Z) : Prop := mk_in_progress {
  wp_geometry : bw_geometry w = geometry padded nb pages;
  wp_ok : buffer_write_ok E c D d (bw_buffer w) (bw_src w) x padded nb pages;
  wp_at : write_at (bw_buffer w) padded nb pages first (bw_state w)
}.

(** The pages that are left of it *)
Definition write_rest (x : Z) (w : buffer_write) (padded pages first : Z) (e : list event) : Prop :=
  ∃ qs, pages_of padded (host_page (bw_buffer w) (bw_src w) 0 <$> seq (Z.to_nat first) (Z.to_nat (pages - first))) qs
    ∧ e = if pages - first =? 0 then [] else pages_written c D (bw_buffer w) x padded first qs.

Lemma pages_of_app padded ds1 ds2 qs1 qs2 :
  pages_of padded ds1 qs1 → pages_of padded ds2 qs2 → pages_of padded (ds1 ++ ds2) (qs1 ++ qs2).
Proof. apply Forall2_app. Qed.

Lemma continue_write_spec x w padded nb pages first m pos qptr qfence :
  write_in_progress x w padded nb pages first → host_at L cq_id m pos qptr qfence → 0 <= pos < lsize L →
  (pages - first = 0 ∧ continue_write E c d cq_id x w m = Ok (None, m)) ∨
  ∃ q w' m1 A n, continue_write E c d cq_id x w m = Ok (Some (q, w'), m1)
    ∧ (∀ h, send cq_id q (m1, h) = send cq_id q (m, h)) ∧ sequence_ok L E q (performs D read A)
    ∧ write_in_progress x w' padded nb pages (first + n) ∧ 0 < n <= pages - first
    ∧ ∀ e1 o e2, A e1 → write_rest x w' padded pages (first + n) e2 → write_rest x w padded pages first (e1 o ++ e2).
Proof.
  intros [Hg HB Hw] Hm Hpos. pose proof Hw as [(Hf & Ht & Hsum) _]. unfold continue_write. rewrite Hg.
  destruct (Z.eq_dec (total_pages_to_write (bw_state w)) 0) as [H0|Hne].
  - left. split; [lia|]. by rewrite write_next_done.
  - right. destruct (write_next_command L E c V D read HK Hc d cq_id _ _ x padded nb pages HB first (bw_state w) m pos qptr qfence)
      as (n & m1 & -> & Hsend & Hn & Hok); [done|lia|done|done|].
    cbn [mbind outcome_bind]. eexists _, _, m1, _, n. split; [reflexivity|]. split; [exact Hsend|]. split; [exact Hok|].
    split; [|split; [lia|]].
    + split; cbn [bw_buffer bw_src bw_geometry bw_state]; [done|done|]. eapply next_state_at; [exact HB|done|lia].
    + intros e1 o e2 (qs1 & Hqs1 & ->) (qs2 & Hqs2 & ->). cbn [bw_buffer bw_src] in *.
      pose proof (Forall2_length _ _ _ Hqs1) as Hl1. rewrite length_fmap, length_seq in Hl1.
      exists (qs1 ++ qs2). split.
      * replace (Z.to_nat (pages - first)) with (Z.to_nat n + Z.to_nat (pages - (first + n)))%nat by lia.
        rewrite seq_app, fmap_app. apply pages_of_app; [exact Hqs1|].
        replace (Z.to_nat first + Z.to_nat n)%nat with (Z.to_nat (first + n)) by lia. exact Hqs2.
      * rewrite (proj2 (Z.eqb_neq (pages - first) 0)) by lia. destruct (Z.eqb_spec (pages - (first + n)) 0) as [Hz|Hz].
        -- rewrite Hz in Hqs2. apply Forall2_nil_inv_l in Hqs2. by rewrite Hqs2, !app_nil_r.
        -- rewrite <- pages_written_app; [|lia|destruct qs1; [simpl in Hl1; lia|done]]. by rewrite <- Hl1, Z2Nat.id by lia.
Qed.

Lemma in_progress_unique x w p1 n1 g1 f1 p2 n2 g2 f2 :
  write_in_progress x w p1 n1 g1 f1 → write_in_progress x w p2 n2 g2 f2 → p2 = p1 ∧ n2 = n1 ∧ g2 = g1 ∧ f2 = f1.
Proof.
  intros [H1 _ [(_ & _ & Hs1) _]] [H2 _ [(_ & _ & Hs2) _]]. rewrite H1 in H2. injection H2 as -> -> ->.
  split; [done|]. split; [done|]. split; [done|lia].
Qed.

(** ** A write of shards that is not finished *)

(** The shards after the one in progress *)
Definition shards_to_come (w : shards_writing) : outcome (list shard) :=
  shards_written V d (ws_buffer w) (core_rounds (ws_plan w)) (ws_plan w)
    (match ws_at w with inl s => after_shard s | inr l => l end).

Record writing_shards_ok (x : Z) (w : shards_writing) : Prop := mk_writing_shards_ok {
  ww_args : shards_args_ok E c (ws_buffer w) (ws_src w) (ws_padded w) x;
  ww_shard : match ws_at w with
             | inl s => shard_write_ok E c V (ws_buffer w) (ws_src w) (ws_plan w) (ws_padded w) (sw_shard s)
                        ∧ shard_at (sw_shard s) (curr_page_idx_in_shard s) s
             | inr _ => True
             end;
  ww_shards : ∃ shs, shards_to_come w = Ok shs ∧ Forall (shard_write_ok E c V (ws_buffer w) (ws_src w) (ws_plan w) (ws_padded w)) shs
}.

Definition writing_shards_does (x : Z) (w : shards_writing) (o : list Z) (e : list event) : Prop :=
  ∃ shs e1 e2, shards_to_come w = Ok shs ∧ e = e1 ++ e2
    ∧ match ws_at w with
      | inl s => shard_pieces c V (ws_buffer w) (ws_src w) (ws_plan w) (ws_padded w) x (sw_shard s) o (curr_page_idx_in_shard s) e1
      | inr _ => e1 = []
      end
    ∧ shards_pieces c V (ws_buffer w) (ws_src w) (ws_plan w) (ws_padded w) x shs o e2.

Definition pages_in (shs : list shard) : nat := sum_list (Z.to_nat ∘ sh_pages <$> shs).
Definition writing_shards_commands (w : shards_writing) : nat :=
  match ws_at w with inl s => Z.to_nat (sw_num_pages s) | inr _ => 0 end + pages_in (ret_or [] (shards_to_come w)).

Definition in_shard (w : shards_writing) (s : shard_write) : shards_writing :=
  mk_shards_writing (ws_buffer w) (ws_src w) (ws_plan w) (ws_padded w) (inl s).

(** The next core with pages begins the first of the shards to come. *)
Lemma next_core_spec x w l shs :
  shards_args_ok E c (ws_buffer w) (ws_src w) (ws_padded w) x →
  shards_written V d (ws_buffer w) (core_rounds (ws_plan w)) (ws_plan w) l = Ok shs →
  Forall (shard_write_ok E c V (ws_buffer w) (ws_src w) (ws_plan w) (ws_padded w)) shs →
  (write_next_core V d (ws_buffer w) (core_rounds (ws_plan w)) (ws_plan w) l = Ok None ∧ shs = []) ∨
  ∃ s shs', write_next_core V d (ws_buffer w) (core_rounds (ws_plan w)) (ws_plan w) l = Ok (Some s)
    ∧ shs = sw_shard s :: shs' ∧ writing_shards_ok x (in_shard w s) ∧ shards_to_come (in_shard w s) = Ok shs'
    ∧ curr_page_idx_in_shard s = 0 ∧ sw_num_pages s = sh_pages (sw_shard s).
Proof.
  intros HA Hshs Hok. destruct (core_rounds (ws_plan w)) as [|fuel] eqn:Hf; cbn [shards_written] in Hshs; rewrite Hf in Hshs.
  - destruct (write_next_core _ _ _ _ _ _) as [[s|]|] eqn:Hn; try done. injection Hshs as <-. by left.
  - destruct (write_next_core _ _ _ _ _ _) as [[s|]|] eqn:Hn; cbn [mbind outcome_bind] in Hshs; [|injection Hshs as <-; by left|done].
    destruct (shards_written V d (ws_buffer w) fuel (ws_plan w) (after_shard s)) as [shs'|] eqn:Hs'; [|done]. injection Hshs as <-.
    apply Forall_cons in Hok as [Hsh Hok]. destruct (write_next_core_start _ _ _ _ _ _ _ Hn) as (H1 & H2 & H3).
    assert (Hcome : shards_to_come (in_shard w s) = Ok shs').
    { unfold shards_to_come. cbn. rewrite Hf. by apply shards_written_mono. }
    right. exists s, shs'. split; [done|]. split; [done|]. split; [|by split].
    split; [done| |by exists shs']. cbn. split; [done|]. pose proof (sk_pages _ _ _ _ _ _ _ _ Hsh). split; [done|lia|lia|lia].
Qed.

(** What is left of a write is that of a shard with pages, or nothing. *)
Lemma shard_left_spec x w : writing_shards_ok x w →
  (shard_left V d w = Ok None ∧ ∀ o, writing_shards_does x w o []) ∨
  ∃ s, shard_left V d w = Ok (Some s) ∧ writing_shards_ok x (in_shard w s) ∧ curr_page_idx_in_shard s < sh_pages (sw_shard s)
    ∧ (writing_shards_commands (in_shard w s) <= writing_shards_commands w)%nat
    ∧ ∀ o e, writing_shards_does x (in_shard w s) o e → writing_shards_does x w o e.
Proof.
  intros Hw. pose proof Hw as [HA Hat (shs & Hcome & Hok)]. unfold shard_left.
  assert (Hnext : ∀ l, shards_written V d (ws_buffer w) (core_rounds (ws_plan w)) (ws_plan w) l = Ok shs →
    (∀ o e, shards_pieces c V (ws_buffer w) (ws_src w) (ws_plan w) (ws_padded w) x shs o e → writing_shards_does x w o e) →
    (pages_in shs <= writing_shards_commands w)%nat →
    let r := write_next_core V d (ws_buffer w) (core_rounds (ws_plan w)) (ws_plan w) l in
    (r = Ok None ∧ ∀ o, writing_shards_does x w o []) ∨
    ∃ s, r = Ok (Some s) ∧ writing_shards_ok x (in_shard w s) ∧ curr_page_idx_in_shard s < sh_pages (sw_shard s)
      ∧ (writing_shards_commands (in_shard w s) <= writing_shards_commands w)%nat
      ∧ ∀ o e, writing_shards_does x (in_shard w s) o e → writing_shards_does x w o e).
  { intros l Hl Hdoes Hcmd r. unfold r. destruct (next_core_spec x w l shs HA Hl Hok) as [[Hr ->]|(s & shs' & Hr & -> & Hs & Hcome' & Hcur & Hnum)].
    - left. split; [done|]. intros o. by apply Hdoes.
    - right. exists s. split; [done|]. split; [done|]. destruct Hs as [_ [Hsh _] _]. cbn in Hsh.
      split; [pose proof (sk_pages _ _ _ _ _ _ _ _ Hsh); lia|]. split.
      + unfold writing_shards_commands at 1. rewrite Hcome'. unfold ret_or. cbn [ws_at in_shard]. rewrite Hnum. exact Hcmd.
      + intros o e (shs2 & e1 & e2 & Hc2 & -> & He1 & He2). rewrite Hcome' in Hc2. injection Hc2 as <-. cbn in He1.
        apply Hdoes. exists e1, e2. rewrite Hcur in He1. by split. }
  destruct (ws_at w) as [s|l] eqn:Hws.
  - destruct Hat as [Hsh Hs]. destruct (Z.eqb_spec (sw_num_pages s) 0) as [H0|H0].
    + pose proof Hs as [_ [_ Hc0] Hl Hp]. pose proof (so_range _ _ _ _ _ _ (sk_data _ _ _ _ _ _ _ _ Hsh)) as (Hf0 & _ & Hf & _).
      assert (Hcp : curr_page_idx_in_shard s = sh_pages (sw_shard s)) by lia.
      assert (Hafter : after_shard s = sw_loop s).
      { unfold after_shard. destruct (sw_loop s) as [ci nt dp]. cbn in *. rewrite u32_small by lia. f_equal. lia. }
      apply Hnext.
      * unfold shards_to_come in Hcome. rewrite Hws, Hafter in Hcome. exact Hcome.
      * intros o e He. exists shs, [], e. rewrite Hws. split; [done|]. split; [done|]. split; [|done]. rewrite Hcp. constructor.
      * unfold writing_shards_commands. rewrite Hcome. unfold ret_or. lia.
    + right. exists s. assert (Heq : in_shard w s = w) by (destruct w; cbn in Hws; subst; done). rewrite Heq.
      split; [done|]. split; [done|]. destruct Hs as [_ [_ Hc0] Hl _]. split; [lia|]. by split.
  - apply Hnext.
    + unfold shards_to_come in Hcome. by rewrite Hws in Hcome.
    + intros o e He. exists shs, [], e. rewrite Hws. by split.
    + unfold writing_shards_commands. rewrite Hcome. unfold ret_or. lia.
Qed.

(** ** What is promised of a call in progress *)
Definition progress_ok (x : Z) (p : progress) : Prop :=
  match p with
  | writing w => ∃ padded nb pages first, write_in_progress x w padded nb pages first
  | writing_shards w => writing_shards_ok x w
  | reading_shards r => ∃ padded shs, aligned_page_size d (rs_buffer r) = Ok padded
      ∧ shards_read V d (rs_buffer r) (core_rounds (rs_plan r)) (rs_plan r) (rs_loop r) = Ok shs
      ∧ Forall (shard_read_ok V read (rs_buffer r) padded) shs
  end.

Definition progress_does (x : Z) (p : progress) (o : list Z) (e : list event) : Prop :=
  match p with
  | writing w => ∃ padded nb pages first, write_in_progress x w padded nb pages first ∧ write_rest x w padded pages first e
  | writing_shards w => writing_shards_does x w o e
  | reading_shards r => ∃ padded shs, aligned_page_size d (rs_buffer r) = Ok padded
      ∧ shards_read V d (rs_buffer r) (core_rounds (rs_plan r)) (rs_plan r) (rs_loop r) = Ok shs
      ∧ shards_returned c V read (rs_buffer r) padded x shs o e
  end.

(** Commands still to come, at most *)
Definition progress_commands (p : progress) : nat :=
  match p with
  | writing w => Z.to_nat (total_pages_to_write (bw_state w))
  | writing_shards w => writing_shards_commands w
  | reading_shards r => length (ret_or [] (shards_read V d (rs_buffer r) (core_rounds (rs_plan r)) (rs_plan r) (rs_loop r)))
  end.

Definition goes_on (x : Z) (p : progress) (m : SystemMemoryManager)
  (r : outcome (option (command_sequence * progress) * SystemMemoryManager)) : Prop :=
  (r = Ok (None, m) ∧ ∀ o, progress_does x p o []) ∨
  ∃ q p' m1 A, r = Ok (Some (q, p'), m1)
    ∧ (∀ h, send cq_id q (m1, h) = send cq_id q (m, h)) ∧ sequence_ok L E q (performs D read A)
    ∧ progress_ok x p' ∧ (progress_commands p' < progress_commands p)%nat
    ∧ ∀ e1 o e2, A e1 → progress_does x p' o e2 → progress_does x p o (e1 o ++ e2).

Lemma write_goes_on x w m pos qptr qfence :
  progress_ok x (writing w) → host_at L cq_id m pos qptr qfence → 0 <= pos < lsize L →
  goes_on x (writing w) m (continue_call E c V d cq_id x (writing w) m).
Proof.
  intros (padded & nb & pages & first & Hwp) Hm Hpos. cbn [continue_call].
  destruct (continue_write_spec x w padded nb pages first m pos qptr qfence Hwp Hm Hpos)
    as [[Hz Hcw]|(q & w' & m1 & A & n & Hcw & Hsend & Hq & Hwp' & Hn & HA)]; rewrite Hcw; cbn [mbind outcome_bind option_bind].
  - left. split; [done|]. intros o. exists padded, nb, pages, first. split; [done|]. exists []. rewrite Hz. split; [constructor|done].
  - right. exists q, (writing w'), m1, A. split; [done|]. split; [done|]. split; [done|]. split; [by exists padded, nb, pages, (first + n)|]. split.
    + cbn. destruct Hwp as [_ _ [(_ & _ & Hs) _]]. destruct Hwp' as [_ _ [(_ & _ & Hs') _]]. lia.
    + intros e1 o e2 He1 (p2 & n2 & g2 & f2 & Hwp2 & Hr2).
      destruct (in_progress_unique _ _ _ _ _ _ _ _ _ _ Hwp' Hwp2) as (-> & -> & -> & ->).
      exists padded, nb, pages, first. split; [done|]. by apply HA.
Qed.

Lemma shards_write_goes_on x w m pos qptr qfence :
  progress_ok x (writing_shards w) → host_at L cq_id m pos qptr qfence → 0 <= pos < lsize L →
  goes_on x (writing_shards w) m (continue_call E c V d cq_id x (writing_shards w) m).
Proof.
  intros Hw Hm Hpos. cbn [continue_call]. unfold continue_write_shards.
  destruct (shard_left_spec x w Hw) as [[-> Hdone]|(s & -> & Hok & Hlt & Hcmd & Hdoes)]; cbn [mbind outcome_bind option_bind]; [by left|].
  pose proof Hok as [HA [Hsh Hs] (shs & Hcome & Hall)]. cbn in HA, Hsh, Hs, Hall.
  destruct (shard_command L E c V D read HK Hc cq_id (ws_buffer w) (ws_src w) (ws_plan w) (ws_padded w) x HA
    (sw_shard s) _ s m pos qptr qfence Hsh Hs Hlt Hm Hpos) as (k & m1 & -> & Hsend & Hk & Hs' & Hq).
  cbn [mbind outcome_bind option_bind]. set (s' := piece_state k s) in *.
  assert (Hsame : sw_shard s' = sw_shard s) by done.
  assert (Hafter : after_shard s' = after_shard s) by done.
  assert (Hcome' : shards_to_come (in_shard w s') = Ok shs) by exact Hcome.
  pose proof (at_curr _ _ _ Hs') as [Hcur' _].
  right. eexists _, (writing_shards (in_shard w s')), m1, _. split; [reflexivity|]. split; [exact Hsend|]. split; [exact Hq|]. split; [|split].
  - split; [done| |by exists shs]. cbn [ws_at in_shard ws_buffer ws_src ws_plan ws_padded]. rewrite Hcur'. by split.
  - cbn [progress_commands]. apply (Nat.lt_le_trans _ (writing_shards_commands (in_shard w s))); [|done].
    unfold writing_shards_commands. rewrite Hcome, Hcome'. cbn [ws_at in_shard].
    pose proof (at_left _ _ _ Hs) as Hl. pose proof (at_left _ _ _ Hs') as Hl'. pose proof (at_curr _ _ _ Hs) as [_ Hc0]. lia.
  - intros e1 o e2 (qs & Hqs & ->) (shs2 & e3 & e4 & Hc2 & -> & He3 & He4). apply Hdoes.
    rewrite Hcome' in Hc2. injection Hc2 as <-. cbn [ws_at in_shard ws_buffer ws_src ws_plan ws_padded] in He3, He4. rewrite Hcur' in He3.
    exists shs. eexists _, e4. split; [exact Hcome|]. rewrite app_assoc. split; [reflexivity|]. split; [|exact He4].
    cbn [ws_at in_shard ws_buffer ws_src ws_plan ws_padded]. econstructor; [exact Hk|exact Hqs|exact He3].
Qed.

Lemma shards_read_goes_on x r m :
  in_range 32 x → progress_ok x (reading_shards r) →
  goes_on x (reading_shards r) m (continue_call E c V d cq_id x (reading_shards r) m).
Proof.
  intros Hx (padded & shs & Hal & Hshs & Hall). cbn [continue_call]. unfold continue_read_shards. pose proof Hshs as Hshs0.
  destruct (core_rounds (rs_plan r)) as [|fuel] eqn:Hf; cbn [shards_read] in Hshs; rewrite Hf in Hshs.
  { destruct (read_next_core _ _ _ _ _ _) as [[[sh l]|]|] eqn:Hn; try done. injection Hshs as <-.
    cbn [mbind outcome_bind option_bind]. left. split; [done|]. intros o. exists padded, []. rewrite Hf. by split. }
  destruct (read_next_core _ _ _ _ _ _) as [[[sh l]|]|] eqn:Hn; cbn [mbind outcome_bind option_bind] in *; [| |done].
  2:{ injection Hshs as <-. left. split; [done|]. intros o. exists padded, []. rewrite Hf. by split. }
  destruct (shards_read V d (rs_buffer r) fuel (rs_plan r) l) as [shs'|] eqn:Hs'; [|done]. injection Hshs as <-.
  apply Forall_cons in Hall as [Hsh Hall]. apply shards_read_mono in Hs'. rewrite <- Hf in Hs', Hshs0.
  right. eexists _, (reading_shards (mk_shards_reading (rs_buffer r) (rs_plan r) l)), m, _. split; [reflexivity|]. split; [done|].
  split; [by apply (shard_read_command L E c V D read HK d (rs_buffer r) padded x sh)|]. split; [by exists padded, shs'|]. split.
  - cbn [progress_commands rs_buffer rs_plan rs_loop]. rewrite Hs', Hshs0. cbn. lia.
  - intros e1 o e2 He1 (p2 & shs2 & Hal2 & Hs2 & He2). cbn [rs_buffer rs_plan rs_loop] in *. rewrite Hal in Hal2. injection Hal2 as <-.
    rewrite Hs' in Hs2. injection Hs2 as <-. exists padded, (sh :: shs'). split; [done|]. split; [done|]. exists (e1 o), e2.
    split; [done|]. by split.
Qed.

Lemma call_goes_on x p m pos qptr qfence :
  in_range 32 x → progress_ok x p → host_at L cq_id m pos qptr qfence → 0 <= pos < lsize L →
  goes_on x p m (continue_call E c V d cq_id x p m).
Proof.
  intros Hx Hp Hm Hpos. destruct p as [w|w|r]; [by eapply write_goes_on|by eapply shards_write_goes_on|by apply shards_read_goes_on].
Qed.

(** ** The program *)
Definition in_progress_ok (x : Z) (p : option progress) : Prop := match p with None => True | Some p => progress_ok x p end.
Definition in_progress_does (x : Z) (p : option progress) (o : list Z) (e : list event) : Prop :=
  match p with None => e = [] | Some p => progress_does x p o e end.

Definition queue_ok (h : HWCommandQueue) (m : SystemMemoryManager) : Prop :=
  let x := expected_num_workers_completed h in
  in_range 32 x ∧ in_progress_ok x (in_progress h) ∧ ∃ ev, at_ (cq_to_event m) cq_id = Ok ev ∧ calls_ok x ev (calls h).

Definition queue_does (h : HWCommandQueue) (m : SystemMemoryManager) (o : list Z) (e : list event) : Prop :=
  let x := expected_num_workers_completed h in
  ∃ ev e1 e2, at_ (cq_to_event m) cq_id = Ok ev ∧ e = e1 ++ e2 ∧ in_progress_does x (in_progress h) o e1
    ∧ calls_do x ev (calls h) o e2.

(** Commands still to come, at most *)
Definition call_commands (r : call) : nat :=
  match r with
  | write_buffer buffer _ =>
    if is_sharded (buffer_layout_ buffer) then
      pages_in (ret_or [] (plan ← plan_shards buffer; shards_written V d buffer (core_rounds plan) plan (loop_start plan)))
    else Z.to_nat (ret_or 0 (num_pages buffer))
  | read_buffer buffer =>
    if is_sharded (buffer_layout_ buffer) then
      length (ret_or [] (plan ← plan_shards buffer; shards_read V d buffer (core_rounds plan) plan (loop_start plan)))
    else 1
  | _ => 1
  end.
Definition calls_commands (l : list call) : nat := sum_list (call_commands <$> l).

Lemma calls_commands_cons r l : calls_commands (r :: l) = (call_commands r + calls_commands l)%nat.
Proof. reflexivity. Qed.

Definition queue_commands (h : HWCommandQueue) : nat :=
  match in_progress h with None => 0 | Some p => progress_commands p end + calls_commands (calls h).

Lemma queue_ok_events h m m' : same_events m m' → queue_ok h m → queue_ok h m'.
Proof. unfold queue_ok, same_events. by intros ->. Qed.
Lemma queue_does_events h m m' o e : same_events m m' → queue_does h m' o e → queue_does h m o e.
Proof. unfold queue_does, same_events. by intros ->. Qed.

Lemma next_event_spec m ev : at_ (cq_to_event m) cq_id = Ok ev → 0 <= ev < 2 ^ 31 - 1 →
  get_next_event cq_id m = Ok (ev + 1, set_event cq_id (ev + 1) m)
  ∧ at_ (cq_to_event (set_event cq_id (ev + 1) m)) cq_id = Ok (ev + 1)
  ∧ ∀ pos qptr qfence, host_at L cq_id m pos qptr qfence → host_at L cq_id (set_event cq_id (ev + 1) m) pos qptr qfence.
Proof.
  intros Hev Hr. split; [|split].
  - unfold get_next_event. rewrite Hev. cbn [mbind outcome_bind]. rewrite (proj2 (Z.ltb_lt _ _)) by lia. by rewrite u32_small by lia.
  - apply at_some. cbn. apply list_lookup_insert_eq. unfold at_, of_option in Hev.
    destruct (cq_to_event m !! cq_id) eqn:Hl; [by eapply lookup_lt_Some|done].
  - intros pos qptr qfence []. by split.
Qed.

(** What a step of the program promises. *)
Definition gives (h : HWCommandQueue) (m : SystemMemoryManager)
  (r : outcome (option (command_sequence * HWCommandQueue) * SystemMemoryManager)) : Prop :=
  (r = Ok (None, m) ∧ ∀ o, queue_does h m o []) ∨
  ∃ q h' m1 m2 A, r = Ok (Some (q, h'), m1)
    ∧ (∀ pos qptr qfence, host_at L cq_id m pos qptr qfence → host_at L cq_id m2 pos qptr qfence)
    ∧ (∀ k, send cq_id q (m1, k) = send cq_id q (m2, k))
    ∧ sequence_ok L E q (performs D read A) ∧ queue_ok h' m2 ∧ (queue_commands h' < queue_commands h)%nat
    ∧ ∀ e1 o e2, A e1 → queue_does h' m2 o e2 → queue_does h m o (e1 o ++ e2).

(** A call that is one command. *)
Lemma gives_one x ev r l q m m2 (A : (list Z → list event) → Prop) :
  in_range 32 (expected_after x r) → at_ (cq_to_event m) cq_id = Ok ev → at_ (cq_to_event m2) cq_id = Ok (events_after ev r) →
  calls_ok (expected_after x r) (events_after ev r) l → (0 < call_commands r)%nat →
  (∀ pos qptr qfence, host_at L cq_id m pos qptr qfence → host_at L cq_id m2 pos qptr qfence) →
  sequence_ok L E q (performs D read A) → (∀ e o, A e → call_does x ev r o (e o)) →
  gives (mk_hw_queue x None (r :: l)) m (Ok (Some (q, mk_hw_queue (expected_after x r) None l), m2)).
Proof.
  intros Hx Hev Hev2 Hl Hn Hm2 Hq HA. right. exists q, (mk_hw_queue (expected_after x r) None l), m2, m2, A.
  split; [done|]. split; [done|]. split; [done|]. split; [done|]. split; [|split].
  - split; [done|]. split; [done|]. by exists (events_after ev r).
  - unfold queue_commands, calls_commands. cbn [in_progress calls fmap list_fmap sum_list sum_list_with]. unfold sum_list. cbn. lia.
  - intros e1 o e2 He1 (ev2 & e3 & e4 & Hev3 & -> & He3 & He4). cbn in He3. subst e3. cbn in Hev3. rewrite Hev2 in Hev3. injection Hev3 as <-.
    exists ev, [], (e1 o ++ e4). split; [done|]. split; [done|]. split; [done|]. exists (e1 o), e4. split; [done|]. split; [by apply HA|done].
Qed.

(** A step of the call in progress, or of the calls after it when it is at its end.  [h] is a queue for
    which that is what is left. *)
Lemma gives_progress h x ev p l m pos qptr qfence :
  in_range 32 x → at_ (cq_to_event m) cq_id = Ok ev → calls_ok x ev l → progress_ok x p →
  host_at L cq_id m pos qptr qfence → 0 <= pos < lsize L →
  (∀ o e1 e2, progress_does x p o e1 → queue_does (mk_hw_queue x None l) m o e2 → queue_does h m o (e1 ++ e2)) →
  (progress_commands p + calls_commands l <= queue_commands h)%nat →
  gives (mk_hw_queue x None l) m (next_call E c V d cq_id x l m) →
  gives h m ('(r, m) ← continue_call E c V d cq_id x p m;
             match r with
             | Some (q, p) => Ok (Some (q, mk_hw_queue x (Some p) l), m)
             | None => next_call E c V d cq_id x l m
             end).
Proof.
  intros Hx Hev Hl Hp Hm Hpos Hdoes Hcmd Hrest.
  destruct (call_goes_on x p m pos qptr qfence Hx Hp Hm Hpos) as [[-> Hd]|(q & p' & m1 & A & -> & Hsend & Hq & Hp' & Hlt & HA)];
    cbn [mbind outcome_bind].
  - destruct Hrest as [[-> Hd2]|(q & h' & m1 & m2 & A & -> & Hm2 & Hsend & Hq & Hok & Hlt & HA)].
    + left. split; [done|]. intros o. rewrite <- (app_nil_r []). by apply Hdoes.
    + right. exists q, h', m1, m2, A. split; [done|]. split; [done|]. split; [done|]. split; [done|]. split; [done|]. split.
      * unfold queue_commands at 2 in Hlt. cbn [in_progress calls] in Hlt. lia.
      * intros e1 o e2 He1 He2. change (e1 o ++ e2) with ([] ++ (e1 o ++ e2)). apply Hdoes; [apply Hd|by apply HA].
  - right. exists q, (mk_hw_queue x (Some p') l), m1, m, A. split; [done|]. split; [done|]. split; [done|]. split; [done|]. split; [|split].
    + split; [done|]. split; [done|]. by exists ev.
    + unfold queue_commands at 1. cbn [in_progress calls]. lia.
    + intros e1 o e2 He1 (ev2 & e3 & e4 & Hev2 & -> & He3 & He4). cbn in *. rewrite app_assoc. apply Hdoes; [by apply HA|].
      exists ev2, [], e4. by split.
Qed.

(** What a call is at its start. *)
Record starts (x ev : Z) (r : call) (p : progress) : Prop := mk_starts {
  sr_ok : progress_ok x p;
  sr_does : ∀ o e, progress_does x p o e → call_does x ev r o e;
  sr_commands : (progress_commands p <= call_commands r)%nat
}.

Definition write_begun (buffer : Buffer) (src : list Z) (padded nb pages : Z) : buffer_write :=
  mk_buffer_write buffer src (geometry padded nb pages) (mk_write_state pages 0 (buffer_address buffer)).

Lemma write_begun_ok x buffer src padded nb pages :
  buffer_write_ok E c D d buffer src x padded nb pages →
  write_in_progress x (write_begun buffer src padded nb pages) padded nb pages 0.
Proof. intros HB. split; [done|done|]. by eapply write_at_start. Qed.

Lemma write_starts x ev buffer src m :
  call_ok x ev (write_buffer buffer src) → bypass_enable m = false →
  ∃ p, enqueue_write_buffer E c d buffer src m = Ok p ∧ starts x ev (write_buffer buffer src) p.
Proof.
  unfold enqueue_write_buffer. cbn [call_ok]. destruct (is_sharded (buffer_layout_ buffer)) eqn:Hsh.
  - intros (padded & plan & shs & Hal & [Hplan Hshs] & HA & Hok) Hby. unfold write_shards_start. rewrite Hby, Hal, Hplan.
    cbn [negb check mbind outcome_bind]. pose proof (sa_fits _ _ _ _ _ _ HA) as Hfit.
    pose proof (pa_bounds E (ko_env _ _ _ _ _ HK)) as [Hpa _]. pose proof (lo_command L (ko_layout _ _ _ _ _ HK)) as Hlm. rewrite Hc in *.
    destruct (pk_page _ _ _ (sa_page _ _ _ _ _ _ HA)) as [_ Hp].
    unfold CQ_PREFETCH_CMD_BARE_MIN_SIZE. rewrite u32_small, (proj2 (Z.leb_le _ _)) by lia. cbn [check mbind outcome_bind].
    eexists. split; [reflexivity|].
    assert (Hcome : shards_to_come (mk_shards_writing buffer src plan padded (inr (loop_start plan))) = Ok shs) by done.
    split.
    + split; [exact HA|done|by exists shs].
    + intros o e (shs2 & e1 & e2 & Hc2 & -> & -> & He2). rewrite Hcome in Hc2. injection Hc2 as <-.
      unfold call_does. rewrite Hsh. exists padded, plan, shs. by repeat split.
    + cbn [progress_commands call_commands]. unfold writing_shards_commands. rewrite Hcome, Hsh, Hplan. cbn [ws_at mbind outcome_bind]. by rewrite Hshs.
  - intros (padded & nb & pages & Hp & HB) Hby. rewrite (write_start_spec L E c V D HK Hc d buffer src x padded nb pages HB m Hby).
    cbn [mbind outcome_bind]. eexists. split; [reflexivity|]. pose proof (write_begun_ok x _ _ _ _ _ HB) as Hbegun.
    pose proof (bw_pages _ _ _ _ _ _ _ _ _ _ HB) as (_ & Hpages & _).
    pose proof (io_aligned _ _ _ _ _ _ _ (bw_interleaved _ _ _ _ _ _ _ _ _ _ HB)) as Hal. split.
    + by exists padded, nb, pages, 0.
    + intros o e (p2 & n2 & g2 & f2 & Hwp & (qs & Hqs & Hq)).
      destruct (in_progress_unique _ _ _ _ _ _ _ _ _ _ Hbegun Hwp) as (-> & -> & -> & ->).
      rewrite Z.sub_0_r in Hqs, Hq. rewrite (proj2 (Z.eqb_neq pages 0)) in Hq by lia.
      unfold call_does. rewrite Hsh. by exists padded, pages, qs.
    + cbn [progress_commands call_commands bw_state total_pages_to_write]. by rewrite Hsh, Hpages.
Qed.

Lemma read_shards_starts x ev buffer m :
  is_sharded (buffer_layout_ buffer) = true → call_ok x ev (read_buffer buffer) → bypass_enable m = false →
  ∃ p, enqueue_read_shards d buffer m = Ok p ∧ starts x ev (read_buffer buffer) p.
Proof.
  intros Hsh Hok Hby. cbn [call_ok] in Hok. rewrite Hsh in Hok. destruct Hok as (padded & plan & shs & Hal & [Hplan Hshs] & Hall).
  unfold enqueue_read_shards. rewrite Hby, Hal, Hplan. cbn [negb check mbind outcome_bind]. eexists. split; [reflexivity|]. split.
  - by exists padded, shs.
  - intros o e (p2 & shs2 & Hal2 & Hs2 & He). cbn in *. unfold call_does. rewrite Hsh. exists p2, plan, shs2. by repeat split.
  - cbn [progress_commands call_commands rs_buffer rs_plan rs_loop]. rewrite Hsh, Hplan. cbn [mbind outcome_bind]. by rewrite Hshs.
Qed.

(** A call that starts goes on at once. *)
Lemma gives_started x ev r l p m pos qptr qfence :
  in_range 32 x → at_ (cq_to_event m) cq_id = Ok ev → calls_ok x ev l → starts x ev r p →
  expected_after x r = x → events_after ev r = ev → host_at L cq_id m pos qptr qfence → 0 <= pos < lsize L →
  gives (mk_hw_queue x None l) m (next_call E c V d cq_id x l m) →
  gives (mk_hw_queue x None (r :: l)) m ('(r, m) ← continue_call E c V d cq_id x p m;
             match r with
             | Some (q, p) => Ok (Some (q, mk_hw_queue x (Some p) l), m)
             | None => next_call E c V d cq_id x l m
             end).
Proof.
  intros Hx Hev Hl [Hp Hd Hcmd] Hxa Heva Hm Hpos Hrest. eapply gives_progress; try done.
  - intros o e1 e2 He1 (ev2 & e3 & e4 & Hev2 & -> & He3 & He4). cbn in He3, He4, Hev2. subst e3. rewrite Hev in Hev2. injection Hev2 as <-.
    exists ev, [], (e1 ++ e4). split; [done|]. split; [done|]. split; [done|]. exists e1, e4. split; [done|]. split; [by apply Hd|].
    cbn [expected_num_workers_completed]. by rewrite Hxa, Heva.
  - unfold queue_commands. cbn [in_progress calls]. rewrite calls_commands_cons. lia.
Qed.

Lemma next_call_gives l : ∀ x ev m pos qptr qfence,
  in_range 32 x → at_ (cq_to_event m) cq_id = Ok ev → calls_ok x ev l → host_at L cq_id m pos qptr qfence → 0 <= pos < lsize L →
  gives (mk_hw_queue x None l) m (next_call E c V d cq_id x l m).
Proof.
  induction l as [|r l IH]; intros x ev m pos qptr qfence Hx Hev Hl Hm Hpos.
  { left. split; [done|]. intros o. exists ev, [], []. done. }
  pose proof (ha_bypass _ _ _ _ _ _ Hm) as Hby. destruct Hl as [Hr Hl].
  destruct r as [buffer|buffer src|clear_count|sync_cq_id id|desc n buffer pad]; cbn [next_call].
  - destruct (is_sharded (buffer_layout_ buffer)) eqn:Hsh.
    + destruct (read_shards_starts x ev buffer m Hsh Hr Hby) as (p & -> & Hp). cbn [mbind outcome_bind].
      eapply gives_started; try done. by eapply IH.
    + cbn [call_ok] in Hr. rewrite Hsh in Hr. destruct Hr as (padded & pages & data & Hal & Hpg & H1 & H2 & H3 & H4 & Hread).
      unfold enqueue_read_buffer. rewrite Hby, Hpg. cbn [negb check mbind outcome_bind].
      eapply (gives_one x ev (read_buffer buffer) l); try done;
        [cbn; rewrite Hsh; lia|by apply (read_interleaved_ok L E c V D read HK d buffer padded pages x data)|].
      intros e o (b & Hb & ->). cbn [call_does]. rewrite Hsh. exists padded, pages, data, b. done.
  - destruct (write_starts x ev buffer src m Hr Hby) as (p & -> & Hp). cbn [mbind outcome_bind].
    eapply gives_started; try done. by eapply IH.
  - cbn in Hr. destruct (next_event_spec m ev Hev Hr) as (Hn & Hev2 & Hm2). unfold enqueue_record_event.
    rewrite Hby. cbn [negb check mbind outcome_bind]. rewrite Hn. cbn [mbind outcome_bind].
    change (if clear_count then 0 else x) with (expected_after x (record_event clear_count)).
    eapply (gives_one x ev (record_event clear_count) l); try done; [by destruct clear_count|cbn; lia|
      by apply (record_event_ok L E c V D read HK cq_id (ev + 1) x clear_count true); [unfold in_range; lia|]|].
    intros e o (b & Hb & ->). by exists b.
  - eapply (gives_one x ev (wait_for_event sync_cq_id id) l); try done; [cbn; lia|
      by apply (wait_for_event_ok L E c V D read HK sync_cq_id id false)|].
    intros e o ->. done.
  - destruct Hr as (Hpad & log & pages & Htr). unfold enqueue_trace.
    destruct (EnqueueTraceCommand_process E c V desc buffer pad x) as [q x'] eqn:Hq.
    pose proof (trace_process_ok L E c V D read HK desc buffer log pages pad x Htr Hpad Hx) as Hok. rewrite Hq in Hok. cbn [fst] in Hok.
    assert (x' = 0) as -> by (unfold EnqueueTraceCommand_process in Hq; by injection Hq).
    change (u32 (0 + n)) with (expected_after x (replay_trace desc n buffer pad)).
    eapply (gives_one x ev (replay_trace desc n buffer pad) l); try done; [apply u32_range|cbn; lia|].
    intros e o ->. exists log, pages. split; [apply Htr|]. split; [apply Htr|done].
Qed.

Lemma next_gives h m pos qptr qfence : queue_ok h m → host_at L cq_id m pos qptr qfence → 0 <= pos < lsize L →
  gives h m (next E c V d cq_id h m).
Proof.
  destruct h as [x p l]; intros (Hx & Hp & ev & Hev & Hl) Hm Hpos. unfold next.
  cbn [in_progress expected_num_workers_completed calls in_progress_ok] in *.
  pose proof (next_call_gives l x ev m pos qptr qfence Hx Hev Hl Hm Hpos) as Hrest. destruct p as [p|]; [|exact Hrest].
  eapply gives_progress; try done.
  intros o e1 e2 He1 (ev2 & e3 & e4 & Hev2 & -> & He3 & He4). cbn in He3. subst e3. by exists ev2, e1, e4.
Qed.

(** The queue is a program of the command stream. *)
#[export] Instance hw_program : HostProgram (next E c V d cq_id) L cq_id E D read := {|
  valid := queue_ok;
  rest := queue_does;
  remaining := queue_commands;
  valid_events := queue_ok_events;
  rest_events := queue_does_events;
  next_total := next_gives
|}.
End spec.
