(* ===== verification/HwCommandQueueProps.v ===== *)
(** * A queue from its start

    The assumptions on a queue and its kernels in terms of the platform: the
    manager is one its constructor returned, and the kernels were built with the
    constants of the host. *)
From S2P Require Import Prelude CommandQueue CommandQueueThms CommandStreamHost Prefetcher CommandStream CommandStreamDevice CommandStreamInv CommandStreamProps CoreCoord Buffer DeviceCommand DeviceCommandSpec DeviceExecution DeviceCommandOps EnqueueSend EnqueueCommands EnqueueSpec EnqueueStream EnqueueWrite EnqueueWriteSpec EnqueueShards EnqueueShardsSpec HwCommandQueue HwCommandQueueSpec BufferProps BankManager Allocator.
(** The commands of the host, the device it looks at and the compile-time arguments of its kernels. *)
Record kernels_built (hal : Hal) (n : Z) (c : dispatch_constants) (E : cmd_env) (V : device_view) (D : device_args) : Prop := mk_kernels_built {
  kb_hal : env_hal E = hal ∧ l1_alignment hal = 16;
  kb_uninitialised : ∀ o, length (uninitialised E o) = 16%nat;
  kb_hugepage : hugepage_write E = true;
  kb_queues : num_hw_cqs V = n ∧ n <= num_worker_cores V;
  kb_encodings : ∀ core, in_range 32 (noc_unicast_encoding V core);
  kb_bare : da_bare_min_size D = host_alignment hal;
  kb_unicast : da_max_unicast D = num_worker_cores V;
  kb_distributed : da_distributed D = distributed_dispatcher V;
  kb_worker_sem : get_device_command_queue_addr c DEV_DISPATCH_MESSAGE = Ok (da_worker_sem D)
}.

Lemma booted_kernels hal cluster ct n m cq_id a E V D :
  booted hal cluster ct n m cq_id a → kernels_built hal n (constants m) E V D →
  ∃ L, a = args_of L ∧ kernels_ok L E (constants m) V D ∧ max_prefetch_command_size (constants m) = lm L
    ∧ at_ (cq_to_event m) cq_id = Ok 0 ∧ ∀ hugepage_ l1_, Inv L cq_id 0 0 0 0 (start m a hugepage_ l1_).
Proof.
  intros [Hcf Hid Hm Ha] [[Hhal Hl1] Hun Hhuge [Hq Hw] Henc Hbare Huni Hdist Hsem].
  destruct (constructed_built _ _ _ _ _ Hcf Hm) as (c & Hc & Hb & He). exists (layout_of hal cluster ct n c cq_id).
  pose proof (layout_of_ok hal cluster ct n Hcf c Hc He cq_id Hid) as HL.
  rewrite (compile_args_spec hal cluster ct n Hcf c Hc cq_id Hid m Hb) in Ha. injection Ha as <-.
  rewrite (bu_constants _ _ _ _ _ _ _ Hb) in *. split; [done|]. split; [|split; [done|split]].
  - pose proof (cf_platform _ _ _ Hcf) as Hp. split; try done.
    + split; [by rewrite Hhal; apply Hp|by rewrite Hhal|done].
    + by rewrite Hhal.
    + cbn [layout_of lm]. rewrite (co_command _ _ _ _ Hc). destruct ct; lia.
    + intros t. destruct (device_addr_spec hal ct n c Hc t) as (x & Hx & _). exists x. split; [done|].
      unfold get_device_command_queue_addr in Hx. rewrite (co_addrs _ _ _ _ Hc) in Hx.
      assert (Hu : 0 <= unreserved_of hal ct < 2 ^ 24) by (destruct ct; apply Hp).
      pose proof (round_to_bounds (unreserved_of hal ct + 5 * l1_alignment hal + 32) (host_alignment hal)) as Hr.
      destruct (pf_host _ Hp) as [Hh|Hh]; rewrite Hh in Hr, Hx; destruct t; simpl in Hx; injection Hx as <-; unfold in_range; lia.
    + rewrite Hq. apply Hcf.
    + by rewrite Hq.
    + by rewrite Hhal.
  - apply at_some. rewrite (bu_events _ _ _ _ _ _ _ Hb). apply lookup_replicate_2. lia.
  - intros. by eapply start_Inv.
Qed.

(** The calls of a queue whose kernels start. *)
Record queue_booted (hal : Hal) (cluster : Cluster) (ct : CoreType) (n : Z) (m : SystemMemoryManager) (cq_id : nat)
  (a : prefetch_args) (E : cmd_env) (V : device_view) (D : device_args) (read : action → outcome (list Z)) (d : Device)
  (l : list call) : Prop := mk_queue_booted {
  qb_booted : booted hal cluster ct n m cq_id a;
  qb_kernels : kernels_built hal n (constants m) E V D;
  qb_calls : calls_ok E (constants m) V D read d 0 0 l
}.

Definition queue_start (l : list call) : HWCommandQueue := mk_hw_queue 0 None l.

(** Steps of the host, of its queue and of the prefetcher. *)
Definition queue_reaches (E : cmd_env) (V : device_view) (d : Device) (cq_id : nat) (a : prefetch_args) (m : SystemMemoryManager)
  : system * HWCommandQueue → system * HWCommandQueue → Prop :=
  rtc (enqueue_step (next E (constants m) V d cq_id) a cq_id).

(** Nothing is left to enqueue, and everything was consumed. *)
Definition queue_finished (E : cmd_env) (V : device_view) (d : Device) (cq_id : nat) (m : SystemMemoryManager)
  (x : system * HWCommandQueue) : Prop :=
  next E (constants m) V d cq_id x.2 (manager x.1) = Ok (None, manager x.1) ∧ consumed x.1 = bytes (sent x.1).

Section run.
Context (hal : Hal) (cluster : Cluster) (ct : CoreType) (n : Z) (m : SystemMemoryManager) (cq_id : nat) (a : prefetch_args).
Context (E : cmd_env) (V : device_view) (D : device_args) (read : action → outcome (list Z)) (d : Device) (l : list call).
Context (Hq : queue_booted hal cluster ct n m cq_id a E V D read d l).
Abbreviation reaches := (queue_reaches E V d cq_id a m).
Abbreviation finished := (queue_finished E V d cq_id m).
Abbreviation does_calls := (calls_do (constants m) V D read d cq_id 0 0 l).

(** The layout of the queue, and that every state it reaches is one of a run. *)
Lemma queue_run hugepage_ l1_ x :
  reaches (start m a hugepage_ l1_, queue_start l) x →
  ∃ L (HK : kernels_ok L E (constants m) V D) (Hc : max_prefetch_command_size (constants m) = lm L),
    a = args_of L ∧ at_ (cq_to_event m) cq_id = Ok 0
    ∧ Run (HostProgram0 := hw_program L E (constants m) V D read HK Hc d cq_id) (next E (constants m) V d cq_id) L cq_id E D read (queue_start l) m x.1 x.2.
Proof.
  destruct Hq as [Hb Hk Hl]. destruct (booted_kernels _ _ _ _ _ _ _ _ _ _ Hb Hk) as (L & -> & HK & Hc & Hev & HI). intros Hr.
  exists L, HK, Hc. split; [done|]. split; [done|]. destruct x as [s h]. cbn [fst snd].
  eapply run_reachable; [by eapply ko_layout|apply (ko_align _ _ _ _ _ HK)| |exact Hr]. split.
  - by exists 0%nat, 0%nat, 0%nat, 0%nat.
  - split; [done|]. split; [done|]. by exists 0.
  - intros o Ho. exists []. split; [apply does_nil|]. intros e He. exact He.
Qed.

Lemma queue_start_does L HK Hc o e :
  at_ (cq_to_event m) cq_id = Ok 0 →
  rest (HostProgram := hw_program L E (constants m) V D read HK Hc d cq_id) (queue_start l) m o e → does_calls o e.
Proof.
  intros Hev (ev & e1 & e2 & Hev2 & -> & He1 & He2). cbn in He1. subst e1. rewrite Hev in Hev2. injection Hev2 as <-. exact He2.
Qed.

(** A finished state can always be reached. *)
Lemma queue_finish hugepage_ l1_ x :
  reaches (start m a hugepage_ l1_, queue_start l) x → ∃ x', reaches x x' ∧ phase x'.1 = Idle ∧ finished x'.
Proof.
  intros Hr. destruct (queue_run hugepage_ l1_ x Hr) as (L & HK & Hc & -> & _ & HR).
  eapply run_finish in HR as (s' & h' & Hr' & _ & Hp & Hdone & Hcons);
    [|by eapply ko_layout|apply (ko_align _ _ _ _ _ HK)].
  exists (s', h'). destruct x as [s h]. split; [exact Hr'|]. by split.
Qed.

(** What the device did then. *)
Lemma queue_effects hugepage_ l1_ x o :
  reaches (start m a hugepage_ l1_, queue_start l) x → finished x → length o = 3%nat →
  ∃ e, execute D read (consumed x.1) (flushed o) = Ok (e, flushed o) ∧ does_calls o e.
Proof.
  intros Hr [Hdone Hcons] Ho. destruct (queue_run hugepage_ l1_ x Hr) as (L & HK & Hc & -> & Hev & HR).
  eapply run_executed in HR as (e & He & Hrest); [|by eapply ko_layout|exact Hdone|exact Hcons|exact Ho].
  exists e. split; [exact He|]. by eapply queue_start_does.
Qed.
End run.

(** * What a command queue guarantees *)
(** ** A concrete queue *)
Definition demo_env : cmd_env := mk_env demo_hal true false (λ _, replicate 16 0xa5).
Definition demo_view : device_view :=
  mk_device_view 1 WORKER (λ core, (u8 (y core) * 64 + u8 (x core))) (λ _ core, Ok core) (λ _, mk_coord 1 2) (mk_coord 1 3) 64 0 (λ core, Ok (x core)).
Definition demo_banks : bank_tables := mk_banks 2 (λ b, 17 + b) (λ b, b * 4096) 32.
Definition demo_args : device_args := mk_device_args 32 demo_banks demo_banks 64 (100 * 1024 + 80) 16 false.
Definition demo_memory (a : action) : outcome (list Z) := Ok (seqZ 0 256).
Definition demo_calls : list call :=
  [write_buffer demo_interleaved (seqZ 0 256); record_event false; read_buffer demo_interleaved;
   write_buffer demo_sharded (seqZ 0 384); read_buffer demo_sharded].
(** The shards of [demo_sharded]: the second core has a column of padding. *)
Definition demo_plan : shard_plan := ret_or (mk_plan None [] 0 0) (plan_shards demo_sharded).
Definition demo_on_cores : list shard := [mk_shard (mk_coord 0 0) 1015552 0 4; mk_shard (mk_coord 1 0) 1015552 4 4].

Lemma demo_kernels m a :
  booted demo_hal demo_cluster WORKER 1 m 0 a → kernels_built demo_hal 1 (constants m) demo_env demo_view demo_args.
Proof.
  intros [Hcf Hid Hm Ha]. destruct (constructed_built _ _ _ _ _ Hcf Hm) as (c & Hc & Hb & _).
  rewrite (bu_constants _ _ _ _ _ _ _ Hb). split; try done.
  - intros core. cbn. pose proof (u8_range (y core)). pose proof (u8_range (x core)). unfold in_range. lia.
  - unfold get_device_command_queue_addr. rewrite (co_addrs _ _ _ _ Hc). done.
Qed.

Lemma demo_write_ok c : max_prefetch_command_size c = 131072 →
  buffer_write_ok demo_env c demo_args demo_device demo_interleaved (seqZ 0 256) 0 64 2 4.
Proof.
  intros Hc. split.
  - split.
    + vm_compute. reflexivity.
    + exists 32. split; [vm_compute; reflexivity|]. split; [lia|]. split; [done|by left].
    + vm_compute. reflexivity.
    + done.
    + by split.
    + done.
  - done.
  - split; [done|done|by left].
  - done.
  - done.
  - rewrite Hc. done.
  - done.
Qed.

Lemma demo_shards_plan : plan_shards demo_sharded = Ok demo_plan
  ∧ shards_written demo_view demo_device demo_sharded (core_rounds demo_plan) demo_plan (loop_start demo_plan) = Ok demo_on_cores
  ∧ shards_read demo_view demo_device demo_sharded (core_rounds demo_plan) demo_plan (loop_start demo_plan) = Ok demo_on_cores.
Proof. split; [|split]; vm_compute; reflexivity. Qed.

Lemma demo_shards_in_source :
  Forall (λ sh, ∀ mp, sp_mapping demo_plan = Some mp → mapping_in_source demo_sharded (seqZ 0 384) mp (range_u32 (sh_first sh) (sh_first sh + sh_pages sh)))
    demo_on_cores.
Proof.
  repeat apply Forall_cons_2; [..|apply Forall_nil_2]; intros mp Hmp; unfold mapping_in_source; cbn [sh_first sh_pages];
    match goal with |- Forall _ ?l => let v := eval vm_compute in l in change l with v end;
    repeat apply Forall_cons_2; try apply Forall_nil_2; (eexists; split; [vm_compute in Hmp; injection Hmp as <-; reflexivity|];
      intros h [= <-] || intros h [=]; vm_compute; split; congruence).
Qed.

Lemma demo_shards_write_ok c : max_prefetch_command_size c = 131072 →
  shards_args_ok demo_env c demo_sharded (seqZ 0 384) 64 0
  ∧ Forall (shard_write_ok demo_env c demo_view demo_sharded (seqZ 0 384) demo_plan 64) demo_on_cores.
Proof.
  intros Hc. split.
  - split; [by split|done|by rewrite Hc|done].
  - pose proof demo_shards_in_source as Hin. rewrite Forall_forall in *. intros sh Hsh. specialize (Hin sh Hsh).
    assert (Hsmall : 0 <= sh_first sh <= 4 ∧ sh_pages sh = 4 ∧ sh_base sh = 1015552).
    { unfold demo_on_cores in Hsh. rewrite !elem_of_cons in Hsh. destruct Hsh as [->|[->|Hsh]]; [cbn; lia..|].
      destruct (not_elem_of_nil sh Hsh). }
    assert (Hsome : bool_decide (is_Some (sp_mapping demo_plan)) = true) by (vm_compute; reflexivity).
    apply bool_decide_eq_true in Hsome. destruct Hsome as [mp Hmp].
    destruct Hsmall as (H1 & H2 & H3). split.
    + lia.
    + split; [lia|]. rewrite Hmp. by apply Hin.
    + eexists _, _. split; reflexivity.
    + lia.
    + left. rewrite Hc, H2. apply Z.leb_le. reflexivity.
Qed.

Lemma demo_shards_read_ok : Forall (shard_read_ok demo_view demo_memory demo_sharded 64) demo_on_cores.
Proof.
  assert (H : ∀ core first, shard_read_ok demo_view demo_memory demo_sharded 64 (mk_shard core 1015552 first 4)).
  { intros core first. split; [by eexists _, _|]. cbn [sh_pages sh_base]. unfold in_range. split; [lia|]. split; [lia|]. split; [lia|].
    exists (seqZ 0 256). split; reflexivity. }
  apply Forall_cons_2; [apply H|]. apply Forall_cons_2; [apply H|apply Forall_nil_2].
Qed.

Lemma demo_queue : ∃ m a, queue_booted demo_hal demo_cluster WORKER 1 m 0 a demo_env demo_view demo_args demo_memory demo_device demo_calls.
Proof.
  destruct demo_booted as (m & a & Hb & _). exists m, a. pose proof (demo_kernels m a Hb) as Hk. split; [done|done|].
  assert (Hc : max_prefetch_command_size (constants m) = 131072).
  { destruct Hb as [Hcf Hid Hm Ha]. destruct (constructed_built _ _ _ _ _ Hcf Hm) as (c & Hc & Hb & _).
    by rewrite (bu_constants _ _ _ _ _ _ _ Hb), (co_command _ _ _ _ Hc). }
  split; [|split; [|split; [|split; [|split; [|done]]]]].
  - exists 64, 2, 4. split; [done|by apply demo_write_ok].
  - done.
  - exists 64, 4, (seqZ 0 256). split; [vm_compute; reflexivity|]. done.
  - destruct demo_shards_plan as (Hplan & Hw & _). destruct (demo_shards_write_ok _ Hc) as [Hargs Hshs].
    exists 64, demo_plan, demo_on_cores. split; [vm_compute; reflexivity|]. exact (conj (conj Hplan Hw) (conj Hargs Hshs)).
  - destruct demo_shards_plan as (Hplan & _ & Hr).
    exists 64, demo_plan, demo_on_cores. split; [vm_compute; reflexivity|]. exact (conj (conj Hplan Hr) demo_shards_read_ok).
Qed.

(** ** The theorems *)

(** C11: What a queue is told to do is done, in order, once.  The host enqueues any list of well-formed calls
    ([calls_ok]: padded pages and source sizes on 32 bits, pages that fit a command with its headers, fewer than 2^31
    events, a trace in a buffer with a power of two as page size): reads and
    writes of interleaved and sharded buffers, events, waits and traces.  The prefetcher runs in any interleaving, over
    any number of wraps of the issue region and of the prefetch queue.  When nothing is left to enqueue and every
    byte was consumed, prefetcher and dispatcher have executed the bytes without error, with the effects
    of the calls one after the other: each page of a buffer reaches its bank, and each
    shard, in pieces, its core, with the host's data, each
    event reaches every dispatcher and the host with the next number, each read returns the buffer's
    data to the host, and nothing else happens.  Of a trace the effects are its go signals and waits and the start of its
    exec buffer; the commands in the exec buffer are not run. *)
Theorem queue_executes_calls hal cluster ct n m cq_id a E V D read d l hugepage_ l1_ x o :
  queue_booted hal cluster ct n m cq_id a E V D read d l →
  queue_reaches E V d cq_id a m (start m a hugepage_ l1_, queue_start l) x →
  queue_finished E V d cq_id m x → length o = 3%nat →
  ∃ e, execute D read (consumed x.1) (flushed o) = Ok (e, flushed o)
    ∧ calls_do (constants m) V D read d cq_id 0 0 l o e.
Proof. intros Hq. by eapply queue_effects. Qed.

Lemma queue_executes_calls_witness :
  ∃ m a x, queue_reaches demo_env demo_view demo_device 0 a m (start m a (λ _, 0) (λ _, 0), queue_start demo_calls) x
    ∧ ∃ e, execute demo_args demo_memory (consumed x.1) (flushed [0; 0; 0]) = Ok (e, flushed [0; 0; 0])
        ∧ calls_do (constants m) demo_view demo_args demo_memory demo_device 0 0 0 demo_calls [0; 0; 0] e.
Proof.
  destruct demo_queue as (m & a & Hq).
  destruct (queue_finish _ _ _ _ _ _ _ _ _ _ _ _ _ Hq (λ _, 0) (λ _, 0) _ (rtc_refl _ _)) as (x & Hr & _ & Hf).
  exists m, a, x. split; [exact Hr|].
  apply (queue_executes_calls demo_hal demo_cluster WORKER 1 m 0 a demo_env demo_view demo_args demo_memory demo_device demo_calls
           (λ _, 0) (λ _, 0) x [0; 0; 0]); [exact Hq|exact Hr|exact Hf|reflexivity].
Defined.

(** C12: A queue can always be driven to its end.  For well-formed calls ([calls_ok]; with
    pages that fit a command, unlike the large pages below), from every state that host and prefetcher reach,
    steps of both lead to a state in which every call was enqueued and every byte consumed: no call
    asserts, no command is too large for the prefetch queue, and the loop that writes a buffer in
    pieces ends. *)
Theorem queue_can_finish hal cluster ct n m cq_id a E V D read d l hugepage_ l1_ x :
  queue_booted hal cluster ct n m cq_id a E V D read d l →
  queue_reaches E V d cq_id a m (start m a hugepage_ l1_, queue_start l) x →
  ∃ x', queue_reaches E V d cq_id a m x x' ∧ phase x'.1 = Idle ∧ queue_finished E V d cq_id m x'.
Proof. intros Hq. by eapply queue_finish. Qed.

Lemma queue_can_finish_witness :
  ∃ m a x', queue_reaches demo_env demo_view demo_device 0 a m (start m a (λ _, 0) (λ _, 0), queue_start demo_calls) x'
    ∧ phase x'.1 = Idle ∧ queue_finished demo_env demo_view demo_device 0 m x'.
Proof.
  destruct demo_queue as (m & a & Hq). exists m, a.
  apply (queue_can_finish demo_hal demo_cluster WORKER 1 m 0 a demo_env demo_view demo_args demo_memory demo_device demo_calls
           (λ _, 0) (λ _, 0)); [exact Hq|apply rtc_refl].
Defined.

(** C13: An idle host is never stuck.  For well-formed calls ([calls_ok]), in every state reached, when the host is not waiting for room in
    the prefetch queue, either nothing is left or the next call gives a command sequence, which is
    assembled in its place in the issue region without an assertion and fits an entry of the
    prefetch queue. *)
Theorem queue_never_stuck hal cluster ct n m cq_id a E V D read d l hugepage_ l1_ s h :
  queue_booted hal cluster ct n m cq_id a E V D read d l →
  queue_reaches E V d cq_id a m (start m a hugepage_ l1_, queue_start l) (s, h) → phase s = Idle →
  next E (constants m) V d cq_id h (manager s) = Ok (None, manager s) ∨
  ∃ q h' m1 m' k bytes_, next E (constants m) V d cq_id h (manager s) = Ok (Some (q, h'), m1)
    ∧ send cq_id q (m1, hugepage s) = Ok (m', k, bytes_) ∧ (queue_commands V d h' < queue_commands V d h)%nat.
Proof.
  intros Hq Hr Hidle. destruct (queue_run _ _ _ _ _ _ _ _ _ _ _ _ _ Hq _ _ _ Hr) as (L & HK & Hc & -> & _ & HR).
  eapply run_send in HR as [Hdone|(q & h' & m1 & m' & k & b & Hn & Hs & _ & Hlt)];
    [by left| |by eapply ko_layout|apply (ko_align _ _ _ _ _ HK)|exact Hidle].
  right. by exists q, h', m1, m', k, b.
Qed.

Lemma queue_never_stuck_witness :
  ∃ m a, next demo_env (constants m) demo_view demo_device 0 (queue_start demo_calls) (manager (start m a (λ _, 0) (λ _, 0)))
      = Ok (None, manager (start m a (λ _, 0) (λ _, 0))) ∨
    ∃ q h' m1 m' k bytes_, next demo_env (constants m) demo_view demo_device 0 (queue_start demo_calls) (manager (start m a (λ _, 0) (λ _, 0))) = Ok (Some (q, h'), m1)
    ∧ send 0 q (m1, hugepage (start m a (λ _, 0) (λ _, 0))) = Ok (m', k, bytes_)
    ∧ (queue_commands demo_view demo_device h' < queue_commands demo_view demo_device (queue_start demo_calls))%nat.
Proof.
  destruct demo_queue as (m & a & Hq). exists m, a.
  apply (queue_never_stuck demo_hal demo_cluster WORKER 1 m 0 a demo_env demo_view demo_args demo_memory demo_device demo_calls
           (λ _, 0) (λ _, 0)); [exact Hq|apply rtc_refl|reflexivity].
Defined.

(** * What the enqueued commands guarantee one by one *)
(** The kernels of the concrete queue, with its manager where it starts. *)
Lemma demo_kernels_ok : ∃ L m, kernels_ok L demo_env (constants m) demo_view demo_args
  ∧ max_prefetch_command_size (constants m) = lm L ∧ lm L = 131072 ∧ ∃ pos qptr qfence, host_at L 0 m pos qptr qfence ∧ 0 <= pos < lsize L.
Proof.
  destruct demo_queue as (m & a & [Hb Hk _]). destruct (booted_kernels _ _ _ _ _ _ _ _ _ _ Hb Hk) as (L & -> & HK & Hc & _ & HI).
  exists L, m. split; [done|]. split; [done|]. split.
  - rewrite <- Hc. destruct Hb as [Hcf Hid Hm Ha]. destruct (constructed_built _ _ _ _ _ Hcf Hm) as (c & Hc' & Hb & _).
    by rewrite (bu_constants _ _ _ _ _ _ _ Hb), (co_command _ _ _ _ Hc').
  - destruct (run_position L (ko_layout _ _ _ _ _ HK) 0 _ _ _ _ _ (HI (λ _, 0) (λ _, 0))) as (pos & qptr & qfence & Hm & Hpos).
    by exists pos, qptr, qfence.
Qed.

(** ** Sending *)
(** C14: Commands assembled in place are the commands issued.  A sequence whose commands fill the size
    it computes is put where [issue_queue_reserve] makes room, assembled in the hugepage there and pushed;
    manager and memory are then those of writing its bytes with [cq_write] after the reservation, the abstract
    [issue_command] of the command stream, and the bytes have the property the commands promise. *)
Theorem send_refines_issue L cq_id E q P m h pos qptr qfence :
  layout_ok L → host_alignment (env_hal E) = la L → sequence_ok L E q P → host_at L cq_id m pos qptr qfence → 0 <= pos < lsize L →
  ∃ bytes_ m' h' h2, send cq_id q (m, h) = Ok (m', h', bytes_)
    ∧ Z.of_nat (length bytes_) = cmd_sequence_size q ∧ P bytes_ ∧ command_ok m [bytes_]
    ∧ issue_command cq_id [bytes_] (m, h) = Ok (m', h2) ∧ CommandQueueProps.mem_eq h2 h'.
Proof. intros HL Hla. by apply send_issue. Qed.

Lemma send_refines_issue_witness :
  ∃ m bytes_ m' h' h2 P, send 0 (EnqueueWaitForEventCommand_process demo_env (constants m) 0 7 false) (m, λ _, 0) = Ok (m', h', bytes_)
    ∧ Z.of_nat (length bytes_) = 32 ∧ P bytes_ ∧ command_ok m [bytes_]
    ∧ issue_command 0 [bytes_] (m, λ _, 0) = Ok (m', h2) ∧ CommandQueueProps.mem_eq h2 h'.
Proof.
  destruct demo_kernels_ok as (L & m & HK & _ & _ & pos & qptr & qfence & Hm & Hpos).
  pose proof (wait_for_event_ok L demo_env (constants m) demo_view demo_args demo_memory HK 0 7 false ltac:(done)) as Hq.
  destruct (send_refines_issue L 0 demo_env _ _ m (λ _, 0) pos qptr qfence (ko_layout _ _ _ _ _ HK) (ko_align _ _ _ _ _ HK) Hq Hm Hpos)
    as (b & m' & h' & h2 & Hrest).
  eexists m, b, m', h', h2, _. exact Hrest.
Defined.

(** ** Termination *)
(** C16: Terminating a queue ends its kernels in order.  The sequences of [EnqueueTerminateCommand] are
    executed one after the other: the first ends the dispatcher, the second, where dispatch_s is enabled,
    ends dispatch_s, and only the last ends the prefetcher that has to relay the others. *)
Theorem terminate_ends_kernels L E c V D read :
  kernels_ok L E c V D →
  ∃ qs q, EnqueueTerminateCommand_process E V = qs ++ [q]
    ∧ Forall2 (λ q d, sequence_ok L E q (performs D read (λ e, e = λ _, [terminated (Some d)]))) qs
        (DISPATCH_MASTER :: if dispatch_s_enabled V then [DISPATCH_SLAVE] else [])
    ∧ sequence_ok L E q (ends_prefetcher D).
Proof. intros HK. by eapply terminate_process_ok. Qed.

Lemma terminate_ends_kernels_witness :
  ∃ L qs q, EnqueueTerminateCommand_process demo_env demo_view = qs ++ [q]
    ∧ Forall2 (λ q d, sequence_ok L demo_env q (performs demo_args demo_memory (λ e, e = λ _, [terminated (Some d)]))) qs
        [DISPATCH_MASTER; DISPATCH_SLAVE]
    ∧ sequence_ok L demo_env q (ends_prefetcher demo_args).
Proof.
  destruct demo_kernels_ok as (L & m & HK & _). exists L.
  apply (terminate_ends_kernels L demo_env (constants m) demo_view demo_args demo_memory HK).
Defined.

(** ** Pages larger than a command *)
Definition demo_large : Buffer := mk_buffer (Some 1) 131168 1024 131168 DRAM INTERLEAVED None None true None.

(** C17: Some large pages are never written.  A page larger than a command is cut into pieces of one size,
    the first size from 4096 up, in steps of the alignment, that divides it.  When that size does not fit
    a command either, as for a page of 131168 bytes (32 times the prime 4099) in the largest
    command of 128 KB, the loop of [enqueue_write_buffer] finds no room at any write pointer and
    wraps it forever: no number of rounds gives a command. *)
Theorem large_page_never_written L E c d cq_id buffer src x g w m pos qptr qfence :
  layout_ok L → host_alignment (env_hal E) = la L → max_prefetch_command_size c = lm L →
  host_at L cq_id m pos qptr qfence → 0 <= pos < lsize L → write_start E c d m buffer = Ok (g, w) →
  total_pages_to_write w ≠ 0 → 0 < page_size_to_write g < 2 ^ 31 → lm L < page_size_to_write g + la L →
  ∀ fuel, write_next E c d cq_id fuel buffer src x g w m = Err FUEL.
Proof. intros HL Hla Hc Hm Hpos _ Ht Hs Hbig fuel. by eapply write_next_stuck. Qed.

Lemma large_page_never_written_witness :
  ∃ m g w, write_start demo_env (constants m) demo_device m demo_large = Ok (g, w) ∧ page_size_to_write g = 131168 ∧ total_pages_to_write w = 1
    ∧ ∀ fuel, write_next demo_env (constants m) demo_device 0 fuel demo_large [] 0 g w m = Err FUEL.
Proof.
  destruct demo_kernels_ok as (L & m & HK & Hc & Hlm & pos & qptr & qfence & Hm & Hpos).
  assert (Hstart : write_start demo_env (constants m) demo_device m demo_large
    = Ok (mk_geometry true 131168 2 1, mk_write_state 1 0 1024)).
  { unfold write_start. rewrite Hc, Hlm, (ha_bypass _ _ _ _ _ _ Hm). vm_compute. reflexivity. }
  exists m, (mk_geometry true 131168 2 1), (mk_write_state 1 0 1024). split; [exact Hstart|]. split; [reflexivity|]. split; [reflexivity|].
  apply (large_page_never_written L demo_env (constants m) demo_device 0 demo_large [] 0 _ _ m pos qptr qfence
    (ko_layout _ _ _ _ _ HK) (ko_align _ _ _ _ _ HK) Hc Hm Hpos Hstart).
  - discriminate.
  - split; reflexivity.
  - rewrite Hlm, <- (ko_align _ _ _ _ _ HK). reflexivity.
Defined.

(** ** Pages of a shard *)
Definition demo_shard_buffer : Buffer := mk_buffer (Some 1) 384 1024 48 L1 HEIGHT_SHARDED None None true None.

(** C15: A shard's pages reach its core.  One command of [EnqueueWriteShardedBufferCommand] fills the size it
    computes, and is executed with one write: to the core of the shard, at the bank's address under
    the first write offset, the pages of the shard one after the other, each padded; with a page mapping every
    device page that has a host page holds that page of the source, without one they are the pages of the source in order.
    Before the first write of a buffer the dispatcher waits for the workers. *)
Theorem shard_write_performed L E c V D read buffer src padded mapping core core_type physical base first pages issue_wait expected :
  kernels_ok L E c V D → page_ok E buffer padded → Z.of_nat (length src) < 2 ^ 32 →
  shard_ok buffer src padded mapping first pages → buffer_core_type buffer = Ok core_type → physical_core V core_type core = Ok physical →
  in_range 32 base → pages * padded + host_alignment (env_hal E) + Z.b2z issue_wait * host_alignment (env_hal E) <= lm L → in_range 32 expected →
  sequence_ok L E (EnqueueWriteBufferCommand_process E c
      (add_dispatch_write_sharded E V buffer core base padded pages)
      (add_buffer_data_sharded E buffer src mapping padded first pages) issue_wait expected padded pages)
    (performs D read (λ e, ∃ qs, shard_pages buffer src padded mapping first pages qs ∧ e = λ o,
       (if issue_wait then [dispatched (wait_effect 0 (addr_of c DEV_DISPATCH_MESSAGE) expected 0 false true)] else [])
       ++ [dispatched (noc_write (noc_unicast_encoding V physical) (u32 (base + nth 0 o 0)) (concat qs))])).
Proof. intros HK Hok Hsrc. by apply (write_sharded_ok L E c V D read HK). Qed.

Lemma shard_write_performed_witness :
  ∃ L c, sequence_ok L demo_env (EnqueueWriteBufferCommand_process demo_env c
      (add_dispatch_write_sharded demo_env demo_view demo_shard_buffer (mk_coord 1 1) 2048 64 3)
      (add_buffer_data_sharded demo_env demo_shard_buffer (seqZ 0 384) None 64 2 3) true 5 64 3)
    (performs demo_args demo_memory (λ e, ∃ qs, shard_pages demo_shard_buffer (seqZ 0 384) 64 None 2 3 qs ∧ e = λ o,
       [dispatched (wait_effect 0 (addr_of c DEV_DISPATCH_MESSAGE) 5 0 false true)]
       ++ [dispatched (noc_write (noc_unicast_encoding demo_view (mk_coord 1 1)) (u32 (2048 + nth 0 o 0)) (concat qs))])).
Proof.
  destruct demo_kernels_ok as (L & m & HK & _ & Hlm & _). exists L, (constants m).
  apply (shard_write_performed L demo_env (constants m) demo_view demo_args demo_memory demo_shard_buffer (seqZ 0 384)
    64 None (mk_coord 1 1) CoreType_WORKER (mk_coord 1 1) 2048 2 3 true 5 HK).
  - by split.
  - reflexivity.
  - split; [done|]. split; [done|by right].
  - reflexivity.
  - reflexivity.
  - done.
  - rewrite Hlm. done.
  - done.
Defined.
