(* ===== verification/EnqueueStale.v ===== *)
(** * Bytes behind a command that no command covers

    Where the bytes of a sequence are more than the strides of its commands add up
    to, the prefetcher goes on in bytes that the host did not write.  That happens
    to the sequence that names the cores which get unicast go signals. *)
From S2P Require Import Prelude CommandQueue CommandQueueProps DeviceCommand DeviceExecution DeviceCommandSpec DeviceCommandOps EnqueueSend EnqueueCommands EnqueueSpec HwCommandQueueProps.
(** ** Commands, and then anything *)
Section after.
Context (bare_min_size : Z).


End after.


(** ** The sequence of the unicast cores *)
Section stale.
Context (E : cmd_env) (HE : env_ok E).
Abbreviation round_up := (round_up E).

End stale.



